(* ===== verification/_CoqProject ===== *)
-Q . S2P
Prelude.v
SphTypes.v
Stream.v
CubeHash.v
Keccak.v
KeccakSpec.v
Blake.v
BlakeSpec.v
Skein.v
SkeinSpec.v
Bmw.v
BmwSpec.v
HashLib.v
Jh.v
JhSpec.v
Luffa.v
LuffaSpec.v
Aes.v
Echo.v
EchoSpec.v
Shavite.v
ShaviteSpec.v
Groestl.v
GroestlSpec.v
Uint256.v
X11.v
Containers.v
Bloom.v
Merkle.v
Serialize.v
Transaction.v
BigNum.v
Script.v
Interp.v
SigHash.v
BlockIndex.v
Stake.v
Difficulty.v
Kernel.v
Subsidy.v
Inputs.v
CheckBlock.v
Connect.v
Supply.v
TxDb.v
Mempool.v
Chain.v
Checkpoints.v
Process.v
