(* ===== verification/Prelude.v ===== *)
(** * Synergy: a verification development

    Synergy is a peer-to-peer currency node, a descendant of Bitcoin and
    PPCoin: blocks are proved first by work (the X11 hash, heights 1 to
    4320), then by stake.  This library models the parts of the program that decide
    what a valid block is, and the C code of the hash functions they rest on,
    and proves what makes those parts correct.

    ** How the program is put together

    A block arrives as bytes (serialize.h, main.h).  [CBlock::CheckBlock]
    tests what can be tested without the chain; [AcceptBlock] tests it
    against its predecessors (difficulty, time, proof of stake, kernel.cpp) and
    [AddToBlockIndex] indexes it.  When its chain becomes the best one,
    [SetBestChain] connects it: [ConnectBlock] runs over the transactions, fetches the outputs
    that they spend from the database, has the scripts (script.cpp) run by
    [VerifySignature], marks the outputs as spent and tests the reward;
    [DisconnectBlock] undoes this when the chain is reorganized.  Block hashes are X11, a
    chain of eleven hash functions (sphlib, src/src/*.c), or double SHA-256;
    numbers of 160 and 256 bits are arrays of words (uint256.h) or OpenSSL
    big numbers (bignum.h).

    ** Files

    - Prelude.v: machine words, notations, tactics and lemmas on lists that
      the other files share.
    - SphTypes.v, Stream.v: the macros of sph_types.h and the buffering loop
      that the hash functions share, with the chunking lemmas.
    - CubeHash.v; Keccak.v, KeccakSpec.v; Blake.v, BlakeSpec.v; Skein.v,
      SkeinSpec.v; Bmw.v, BmwSpec.v: cubehash.c, keccak.c, blake.c, skein.c and
      bmw.c.  Each C function is a definition over the contents of its context; the
      Spec files (for CubeHash the end of the file) prove the code equal to the published
      function on the whole message, however it is cut into calls.
    - X11.v: hashblock.h, [Hash9], over an interface that the six hash functions
      which are not modelled are assumed to have.
    - Uint256.v: uint256.h.  BigNum.v: bignum.h, over the class [BN_lib] of OpenSSL's operations
      with their laws [BN_laws].
    - Containers.v: mruset.h and limitedmap.h.  Bloom.v: bloom.cpp and
      MurmurHash3 (hash.cpp).  Merkle.v: the Merkle tree of [CBlock].
    - Serialize.v: streams and codecs (serialize.h).  Transaction.v: the
      classes of main.h with their wire format, and [CheckTransaction].
    - Script.v: script.h and the templates of script.cpp.  Interp.v:
      [EvalScript] and [VerifyScript].  SigHash.v: [SignatureHash], the
      signature cache and [CheckSig].
    - BlockIndex.v: [CBlockIndex], median time, trust and block hashes.
      Stake.v: proof-of-stake rewards and the turbo multiplier.
      Difficulty.v: targets.  Kernel.v: kernel.cpp and the new entries of
      [AddToBlockIndex].  Subsidy.v: proof-of-work rewards.
    - Inputs.v: [FetchInputs], [ConnectInputs], [DisconnectInputs] and fees.
      CheckBlock.v: [CheckBlock].

    ** How code is modelled

    An integer of [w] bits is a [Z] with its wrap-around written out ([trunc],
    [u32], [u64], [i64_add]); a vector is a list, a struct a record, an enum
    an inductive type; an update of a field or of an array is a new value
    that is passed on.  [false], an exception and an undefined operation are
    values ([option], [outcome] and types with a constructor per result).
    Definitions are executable, and the witnesses evaluate them.  The target
    is x86-64 with gcc: little endian, 64-bit [size_t].

    Loops whose recursion is not structural have fuel.  Over a script
    the fuel is its length (each instruction takes a byte), over a Merkle tree
    the number of leaves (each level halves it), in the stream of a hash
    function the number of bytes; the theorems hold with this
    fuel, so the loops end before it runs out.

    Code outside the repository is a class or a parameter: OpenSSL's SHA,
    RIPEMD, BIGNUM and ECDSA ([hash_lib], [BN_lib], [ec_lib]), the block files and
    the database's reads where they are not a map of the model.  Every theorem with such
    a hypothesis has a witness at a concrete instance.

    ** What the theorems show

    - Hash functions: init, any sequence of updates and close compute the
      published hash of the concatenated message; the stages of
      X11 chain in the given order; block functions equal their
      references; buffers and counters do not overflow.
    - Data: arithmetic, comparison and hexadecimal form of the multi-word
      integers refine those of [Z]; conversions and compact forms of big
      numbers keep values; what is written to a stream reads back, and a
      truncated stream throws; bounded containers refine their abstract queues; Bloom
      filters have no false negatives; Merkle branches check exactly.
    - Scripts: the interpreter keeps its limits on every script and
      standard outputs are spent by exactly the right data; the signature cache is
      transparent; a signature commits to the whole transaction.
    - Chain rules: targets stay in their bounds, the median time never
      decreases, the stake modifier can always be computed, proof of stake
      accepts exactly the kernels below the target, rewards are bounded, and
      proof of work issues exactly 250001 coins.
    - Blocks: [CheckTransaction] and [CheckBlock] decide exactly the rules
      they state; connecting inputs never spends an output twice and makes no
      money.

    ** Not modelled

    The hash functions Luffa, JH, Groestl, SHAvite, SIMD and ECHO (their
    interface is a hypothesis of X11) and the sphlib functions the node
    does not use (Fugue, Hamsi, Shabal, Whirlpool and others); the memory pool, message
    processing, orphan blocks and checkpoints of main.cpp; wallet, key
    store, network, address manager, miner, RPC, secure messaging and stealth
    addresses; the Qt interface; vendored code (tor, LevelDB, JSON, LZ4, xxHash).  These are
    I/O, concurrency, user interface or third-party code, or parts
    that decide nothing about the validity of blocks. *)

From Stdlib Require Import ZArith List Lia Bool Permutation Sorted.
Import ListNotations.

(** ** Machine words

    A [w]-bit C integer is a [Z] in [0, 2^w).  [inw w x] is that range. *)

Declare Scope word_scope.
Delimit Scope word_scope with w.

Notation "x << n" := (Z.shiftl x n) (at level 52, left associativity) : word_scope.
Notation "x >> n" := (Z.shiftr x n) (at level 52, left associativity) : word_scope.
Notation "x .& y" := (Z.land x y) (at level 54, left associativity) : word_scope.
Notation "x .^ y" := (Z.lxor x y) (at level 56, left associativity) : word_scope.
Notation "x .| y" := (Z.lor x y) (at level 58, left associativity) : word_scope.

Open Scope Z_scope.
Open Scope word_scope.

Definition inw (w x : Z) : Prop := 0 <= x < 2 ^ w.

(** Every element of an array is a [w]-bit word. *)
Definition words (w : Z) (l : list Z) : Prop := Forall (inw w) l.

(** Truncation to [w] bits, and rotation to the left inside [w] bits. *)
Definition trunc (w x : Z) : Z := x .& Z.ones w.

Definition rotl (w x n : Z) : Z := trunc w ((x << n) .| (x >> (w - n))).

(** Decision procedure for [words]. *)
Definition wordsb (w : Z) (l : list Z) : bool :=
  forallb (fun x => (0 <=? x) && (x <? 2 ^ w)) l.

Lemma wordsb_spec (w : Z) (l : list Z) : wordsb w l = true <-> words w l.
Proof.
  unfold wordsb, words, inw; rewrite forallb_forall, Forall_forall.
  split; intros H x Hx; specialize (H x Hx); lia.
Qed.

Ltac words_dec := apply wordsb_spec; vm_compute; reflexivity.

Create HintDb word.

Lemma trunc_mod (w x : Z) : 0 <= w -> trunc w x = x mod 2 ^ w.
Proof. intros; unfold trunc; now apply Z.land_ones. Qed.

Lemma trunc_inw (w x : Z) : 0 <= w -> inw w (trunc w x).
Proof.
  intros H; rewrite trunc_mod by lia.
  apply Z.mod_pos_bound, Z.pow_pos_nonneg; lia.
Qed.

Lemma trunc_small (w x : Z) : 0 <= w -> inw w x -> trunc w x = x.
Proof. intros H Hx; rewrite trunc_mod by lia; now apply Z.mod_small. Qed.

Lemma trunc_spec (w x i : Z) :
  0 <= w -> 0 <= i -> Z.testbit (trunc w x) i = (i <? w) && Z.testbit x i.
Proof.
  intros Hw Hi; unfold trunc; rewrite Z.land_spec.
  destruct (Z.ltb_spec i w).
  - now rewrite Z.ones_spec_low, andb_true_r by lia.
  - now rewrite Z.ones_spec_high, andb_false_r by lia.
Qed.

Lemma inw_high (w x i : Z) : 0 <= w -> inw w x -> w <= i -> Z.testbit x i = false.
Proof.
  intros Hw Hx Hi; rewrite <- (trunc_small w x) by assumption.
  rewrite trunc_spec by lia; now destruct (Z.ltb_spec i w); [lia|].
Qed.

Lemma inw_bits (w x : Z) :
  0 <= w -> 0 <= x -> (forall i, w <= i -> Z.testbit x i = false) -> inw w x.
Proof.
  intros Hw Hx Hb; rewrite <- (Z.mod_small x (2 ^ Z.max w (Z.log2 x + 1))).
  - assert (E : x = trunc w x).
    { apply Z.bits_inj'; intros i Hi; rewrite trunc_spec by lia.
      destruct (Z.ltb_spec i w); [reflexivity | now rewrite Hb by lia]. }
    rewrite E at 1; rewrite Z.mod_small.
    + now apply trunc_inw.
    + pose proof (trunc_inw w x Hw) as [? Hlt]; split; [lia|].
      eapply Z.lt_le_trans; [exact Hlt|]; apply Z.pow_le_mono_r; lia.
  - split; [lia|]; destruct (Z.eq_dec x 0) as [->|].
    + apply Z.pow_pos_nonneg; lia.
    + eapply Z.lt_le_trans; [apply (Z.log2_spec x); lia|].
      apply Z.pow_le_mono_r; lia.
Qed.

Lemma inw_ext (w x y : Z) :
  0 <= w -> inw w x -> inw w y ->
  (forall i, 0 <= i < w -> Z.testbit x i = Z.testbit y i) -> x = y.
Proof.
  intros Hw Hx Hy H; apply Z.bits_inj'; intros i Hi.
  destruct (Z.lt_ge_cases i w); [now apply H|].
  now rewrite !(inw_high w) by assumption.
Qed.

Lemma inw_lxor (w x y : Z) : 0 <= w -> inw w x -> inw w y -> inw w (x .^ y).
Proof.
  intros Hw Hx Hy; apply inw_bits; [lia| |].
  - apply Z.lxor_nonneg; unfold inw in *; lia.
  - intros i Hi; rewrite Z.lxor_spec; now rewrite !(inw_high w) by assumption.
Qed.

Lemma inw_land (w x y : Z) : 0 <= w -> inw w x -> 0 <= y -> inw w (x .& y).
Proof.
  intros Hw Hx Hy; apply inw_bits; [lia| |].
  - apply Z.land_nonneg; unfold inw in *; lia.
  - intros i Hi; rewrite Z.land_spec; now rewrite (inw_high w x) by assumption.
Qed.

Lemma inw_lor (w x y : Z) : 0 <= w -> inw w x -> inw w y -> inw w (x .| y).
Proof.
  intros Hw Hx Hy; apply inw_bits; [lia| |].
  - apply Z.lor_nonneg; unfold inw in *; lia.
  - intros i Hi; rewrite Z.lor_spec; now rewrite !(inw_high w) by assumption.
Qed.

Lemma inw_shiftr (w x n : Z) : 0 <= w -> inw w x -> 0 <= n -> inw w (x >> n).
Proof.
  intros Hw Hx Hn; apply inw_bits; [lia| |].
  - apply Z.shiftr_nonneg; unfold inw in *; lia.
  - intros i Hi; rewrite Z.shiftr_spec by lia; apply (inw_high w); auto; lia.
Qed.

Lemma inw_mono (w w' x : Z) : 0 <= w <= w' -> inw w x -> inw w' x.
Proof.
  unfold inw; intros Hw Hx; split; [lia|].
  eapply Z.lt_le_trans; [apply Hx|]; apply Z.pow_le_mono_r; lia.
Qed.

Lemma rotl_inw (w x n : Z) : 0 <= w -> inw w (rotl w x n).
Proof. intros; now apply trunc_inw. Qed.

(** The defining property of a rotation: bit [i] of the result is bit
    [(i - n) mod w] of the argument. *)
Lemma rotl_spec (w x n i : Z) :
  0 < w -> inw w x -> 0 <= n <= w -> 0 <= i < w ->
  Z.testbit (rotl w x n) i = Z.testbit x ((i - n) mod w).
Proof.
  intros Hw Hx Hn Hi; unfold rotl; rewrite trunc_spec by lia.
  replace (i <? w) with true by (symmetry; apply Z.ltb_lt; lia); cbn [andb].
  rewrite Z.lor_spec, Z.shiftl_spec, Z.shiftr_spec by lia.
  destruct (Z.lt_ge_cases i n) as [Hin|Hin].
  - rewrite (Z.testbit_neg_r x (i - n)) by lia; cbn [orb].
    f_equal; rewrite <- (Z.mod_add (i - n) 1 w) by lia; rewrite Z.mod_small; lia.
  - rewrite (inw_high w x (i + (w - n))) by (lia || assumption).
    rewrite orb_false_r; f_equal; rewrite Z.mod_small; lia.
Qed.

Lemma rotl_lxor (w x y n : Z) :
  0 < w -> inw w x -> inw w y -> 0 <= n <= w ->
  rotl w (x .^ y) n = rotl w x n .^ rotl w y n.
Proof.
  intros Hw Hx Hy Hn; apply (inw_ext w); try lia.
  - apply rotl_inw; lia.
  - apply inw_lxor; try apply rotl_inw; lia.
  - intros i Hi; rewrite Z.lxor_spec, !rotl_spec by (auto using inw_lxor; try apply inw_lxor; auto; lia).
    now rewrite Z.lxor_spec.
Qed.

(** Rotating by [n] and then by [w - n] is the identity. *)
Lemma rotl_inverse (w x n : Z) :
  0 < w -> inw w x -> 0 <= n <= w -> rotl w (rotl w x n) (w - n) = x.
Proof.
  intros Hw Hx Hn; apply (inw_ext w); try lia; auto.
  - apply rotl_inw; lia.
  - intros i Hi; rewrite rotl_spec by (try apply rotl_inw; lia).
    rewrite rotl_spec by (auto; try lia; apply Z.mod_pos_bound; lia).
    f_equal; rewrite Zminus_mod_idemp_l.
    replace (i - (w - n) - n) with (i + (-1) * w) by lia.
    rewrite Z.mod_add by lia; apply Z.mod_small; lia.
Qed.

Lemma rotl_inj (w x y n : Z) :
  0 < w -> inw w x -> inw w y -> 0 <= n <= w -> rotl w x n = rotl w y n -> x = y.
Proof.
  intros Hw Hx Hy Hn E; rewrite <- (rotl_inverse w x n), <- (rotl_inverse w y n) by assumption.
  now rewrite E.
Qed.

(** Modular addition is injective in each argument. *)
Lemma trunc_add_inj (w a x y : Z) :
  0 <= w -> inw w x -> inw w y -> trunc w (a + x) = trunc w (a + y) -> x = y.
Proof.
  intros Hw Hx Hy E; rewrite !trunc_mod in E by lia.
  assert (Hp : 0 < 2 ^ w) by (apply Z.pow_pos_nonneg; lia).
  rewrite <- (Z.mod_small x (2 ^ w)), <- (Z.mod_small y (2 ^ w)) by assumption.
  replace x with (a + x - a) by lia; replace y with (a + y - a) by lia.
  now rewrite <- Zminus_mod_idemp_l, E, Zminus_mod_idemp_l.
Qed.

Lemma lxor_inj (a x y : Z) : a .^ x = a .^ y -> x = y.
Proof.
  intros E; apply (f_equal (Z.lxor a)) in E.
  now rewrite <- !Z.lxor_assoc, Z.lxor_nilpotent, !Z.lxor_0_l in E.
Qed.

Lemma trunc_inw32 (x : Z) : inw 32 (trunc 32 x).
Proof. apply trunc_inw; lia. Qed.

Lemma trunc_inw64 (x : Z) : inw 64 (trunc 64 x).
Proof. apply trunc_inw; lia. Qed.

#[export] Hint Resolve inw_lxor inw_lor inw_shiftr trunc_inw rotl_inw trunc_inw32 trunc_inw64 : word.
#[export] Hint Extern 1 (0 <= _) => lia : word.
#[export] Hint Extern 1 (inw _ (Zpos _)) => (unfold inw; cbn; lia) : word.
#[export] Hint Extern 1 (inw _ 0) => (unfold inw; cbn; lia) : word.

(** ** Lists as C arrays *)

(** [memcpy (buf + off) data n]: the first [n] bytes of [data] overwrite
    [buf] at [off]. *)
Definition memcpy {A} (buf : list A) (off : nat) (data : list A) (n : nat) : list A :=
  firstn off buf ++ firstn n data ++ skipn (off + n) buf.

(** [memset (buf + off) v n]. *)
Definition memset {A} (buf : list A) (off : nat) (v : A) (n : nat) : list A :=
  memcpy buf off (repeat v n) n.

(** [buf[i] = v]. *)
Definition upd {A} (buf : list A) (i : nat) (v : A) : list A :=
  memcpy buf i [v] 1.

Lemma length_memcpy {A} (buf data : list A) (off n : nat) :
  (off + n <= length buf)%nat -> (n <= length data)%nat ->
  length (memcpy buf off data n) = length buf.
Proof.
  intros; unfold memcpy.
  rewrite !length_app, !length_firstn, length_skipn; lia.
Qed.

Lemma firstn_memcpy {A} (buf data : list A) (off n : nat) :
  (off + n <= length buf)%nat -> (n <= length data)%nat ->
  firstn (off + n) (memcpy buf off data n) = firstn off buf ++ firstn n data.
Proof.
  intros Hb Hd; unfold memcpy; rewrite app_assoc.
  rewrite firstn_app, firstn_all2, length_app, !length_firstn by
    (rewrite length_app, !length_firstn; lia).
  replace (off + n - _)%nat with 0%nat by lia.
  now rewrite firstn_O, app_nil_r.
Qed.

Lemma length_upd {A} (buf : list A) (i : nat) (v : A) :
  (i < length buf)%nat -> length (upd buf i v) = length buf.
Proof. intros; apply length_memcpy; cbn; lia. Qed.

Lemma length_memset {A} (buf : list A) (off : nat) (v : A) (n : nat) :
  (off + n <= length buf)%nat -> length (memset buf off v n) = length buf.
Proof. intros; apply length_memcpy; [lia | now rewrite repeat_length]. Qed.

Lemma nth_upd {A} (buf : list A) (i j : nat) (v d : A) :
  (i < length buf)%nat -> nth j (upd buf i v) d = if (j =? i)%nat then v else nth j buf d.
Proof.
  revert i j; induction buf as [|x buf IH]; intros [|i] [|j] Hi; cbn in Hi; try lia; try reflexivity.
  change (upd (x :: buf) (S i) v) with (x :: upd buf i v); cbn [nth Nat.eqb]; apply IH; lia.
Qed.

(** [buf[p] = v; memset (buf + p + 1, 0, n - p - 1)], the padding step of
    the closing functions. *)
Lemma pad_buffer (buf : list Z) (p n : nat) (v : Z) :
  length buf = n -> (p < n)%nat ->
  memset (upd buf p v) (S p) 0 (n - S p) = firstn p buf ++ v :: repeat 0 (n - S p).
Proof.
  intros Hn Hp; unfold memset, memcpy at 1; rewrite (firstn_all2 (repeat 0 _)) by (rewrite repeat_length; lia).
  rewrite skipn_all2 by (rewrite length_upd; lia); rewrite app_nil_r.
  unfold upd; replace (S p) with (p + 1)%nat at 1 by lia; rewrite firstn_memcpy by (cbn; lia).
  cbn [firstn]; now rewrite <- app_assoc.
Qed.

(** Pointwise combination of two arrays. *)
Fixpoint map2 {A B C} (f : A -> B -> C) (l : list A) (m : list B) : list C :=
  match l, m with
  | a :: l', b :: m' => f a b :: map2 f l' m'
  | _, _ => []
  end.

Lemma length_map2 {A B C} (f : A -> B -> C) l m :
  length (map2 f l m) = Nat.min (length l) (length m).
Proof. revert m; induction l; intros [|]; cbn; auto. Qed.

Lemma nth_map2 {A B C} (f : A -> B -> C) l m (a : A) (b : B) (c : C) i :
  length l = length m -> f a b = c -> nth i (map2 f l m) c = f (nth i l a) (nth i m b).
Proof.
  intros H <-; revert m i H; induction l as [|x l IH]; intros [|y m] [|i] H; cbn in *; auto; discriminate.
Qed.

(** [iter n f x] applies [f] [n] times: a counted C loop whose body does not
    use its index. *)
Fixpoint iter {A} (n : nat) (f : A -> A) (x : A) : A :=
  match n with
  | O => x
  | S n' => iter n' f (f x)
  end.

Lemma iter_plus {A} (n m : nat) (f : A -> A) (x : A) :
  iter (n + m) f x = iter m f (iter n f x).
Proof. revert x; induction n; cbn; auto. Qed.

Lemma iter_inv {A} (P : A -> Prop) (f : A -> A) (n : nat) (x : A) :
  (forall y, P y -> P (f y)) -> P x -> P (iter n f x).
Proof. intros Hf; revert x; induction n; cbn; auto. Qed.

Lemma iter_inj {A} (P : A -> Prop) (f : A -> A) (n : nat) (x y : A) :
  (forall z, P z -> P (f z)) ->
  (forall z t, P z -> P t -> f z = f t -> z = t) ->
  P x -> P y -> iter n f x = iter n f y -> x = y.
Proof. intros Hf Hi; revert x y; induction n; cbn; eauto 6. Qed.

Lemma fold_left_ext_in {A B} (f g : A -> B -> A) (l : list B) (a : A) :
  (forall b x, In b l -> f x b = g x b) -> fold_left f l a = fold_left g l a.
Proof.
  revert a; induction l as [|b l IH]; intros a E; [reflexivity|].
  cbn [fold_left]; rewrite E by (left; reflexivity); apply IH; intros; apply E; now right.
Qed.

(** An array split into [n] words by a reader at each multiple of [step]. *)
Definition read_words (dec : list Z -> Z) (step n : nat) (buf : list Z) : list Z :=
  map (fun i => dec (skipn (step * i) buf)) (seq 0 n).

Lemma length_read_words dec step n buf : length (read_words dec step n buf) = n.
Proof. unfold read_words; now rewrite length_map, length_seq. Qed.

(** ** Sorting

    [std::sort] by a boolean order, and counting. *)

Section Sort.
Context {A : Type} (le : A -> A -> bool).

Fixpoint insert_by (x : A) (l : list A) : list A :=
  match l with
  | [] => [x]
  | y :: l' => if le x y then x :: l else y :: insert_by x l'
  end.

Definition sort_by (l : list A) : list A := fold_right insert_by [] l.

Lemma insert_by_perm x l : Permutation (insert_by x l) (x :: l).
Proof.
  induction l as [|y l IH]; cbn [insert_by]; [reflexivity|]; destruct (le x y); [reflexivity|].
  rewrite IH; apply perm_swap.
Qed.

Lemma sort_by_perm l : Permutation (sort_by l) l.
Proof. induction l as [|x l IH]; cbn [sort_by fold_right]; [reflexivity|]; now rewrite insert_by_perm, IH. Qed.

Context (R : A -> A -> Prop) (le_R : forall x y, le x y = true -> R x y)
  (not_le_R : forall x y, le x y = false -> R y x) (R_trans : forall x y z, R x y -> R y z -> R x z).

Lemma sort_by_sorted l : StronglySorted R (sort_by l).
Proof.
  induction l as [|x l IH]; cbn [sort_by fold_right]; [constructor|].
  change (fold_right insert_by [] l) with (sort_by l); induction IH as [|y s Hs IHs Hy]; cbn [insert_by].
  - repeat constructor.
  - destruct (le x y) eqn:E.
    + constructor; [now constructor|]; constructor; [now apply le_R|].
      eapply Forall_impl; [|exact Hy]; intros z Hz; apply R_trans with y; [now apply le_R | exact Hz].
    + constructor; [assumption|]; apply Forall_forall; intros z Hz.
      apply (Permutation_in _ (insert_by_perm x s)) in Hz; destruct Hz as [<-|Hz].
      * now apply not_le_R.
      * now apply (proj1 (Forall_forall _ _) Hy).
Qed.
End Sort.

Definition count {A} (p : A -> bool) (l : list A) : nat := length (filter p l).

Lemma count_perm {A} (p : A -> bool) l l' : Permutation l l' -> count p l = count p l'.
Proof.
  unfold count; induction 1; cbn [filter]; [reflexivity | | | congruence].
  - destruct (p x); cbn [length]; congruence.
  - destruct (p x), (p y); reflexivity.
Qed.

Lemma count_app {A} (p : A -> bool) l l' : count p (l ++ l') = (count p l + count p l')%nat.
Proof. unfold count; now rewrite filter_app, length_app. Qed.

Lemma count_le {A} (p : A -> bool) l : (count p l <= length l)%nat.
Proof. unfold count; induction l as [|x l IH]; cbn [filter length]; [lia|]; destruct (p x); cbn [length]; lia. Qed.

(** In a sorted list the [k]-th element is at least [v] exactly when at most
    [k] elements are below [v]. *)
Lemma sorted_nth_count (s : list Z) (k : nat) (v : Z) :
  StronglySorted (fun x y => Z.leb x y = true) s -> (k < length s)%nat ->
  v <= nth k s 0 <-> (count (fun x => (x <? v)%Z) s <= k)%nat.
Proof.
  intros Hs; revert k; induction Hs as [|x s Hs IH Hx]; intros k Hk; cbn [length] in Hk; [lia|].
  unfold count in *; cbn [filter]; destruct (Z.ltb_spec x v) as [Hlt|Hge]; cbn [length].
  - destruct k as [|k]; cbn [nth]; [lia|]; rewrite IH by lia; lia.
  - replace (filter (fun y => (y <? v)%Z) s) with (@nil Z).
    + cbn [length]; destruct k as [|k]; cbn [nth]; [lia|].
      pose proof (proj1 (Forall_forall _ _) Hx (nth k s 0) (nth_In s 0 (n := k) ltac:(lia))) as Hn; cbv beta in Hn; lia.
    + symmetry; assert (H : Forall (fun y => v <= y) s).
      { eapply Forall_impl; [|exact Hx]; cbn; intros; lia. }
      clear - H; induction H as [|y s Hy Hs IH]; cbn [filter]; [reflexivity|].
      now rewrite (proj2 (Z.ltb_ge y v) Hy).
Qed.
