(* ===== verification/SphTypes.v ===== *)
(** * SphTypes: word macros and byte-order codecs of sph_types.h

    The truncation and rotation macros, the byte-swaps and the big and
    little endian encoders and decoders that every hash function uses.  The
    decoders are the byte-by-byte branches of the header; that the other
    branch (a native little endian access after a byte swap) computes the
    same bytes is the theorem [enc32be_bswap] and its 64-bit analogue. *)

From Stdlib Require Import ZArith List Lia Bool Btauto.
From S2P Require Import Prelude.
Import ListNotations.

Open Scope Z_scope.
Open Scope word_scope.

Definition SPH_T32 (x : Z) : Z := x .& 0xFFFFFFFF.
Definition SPH_ROTL32 (x n : Z) : Z := SPH_T32 ((x << n) .| (x >> (32 - n))).
Definition SPH_ROTR32 (x n : Z) : Z := SPH_ROTL32 x (32 - n).

Definition SPH_T64 (x : Z) : Z := x .& 0xFFFFFFFFFFFFFFFF.
Definition SPH_ROTL64 (x n : Z) : Z := SPH_T64 ((x << n) .| (x >> (64 - n))).
Definition SPH_ROTR64 (x n : Z) : Z := SPH_ROTL64 x (64 - n).

(** Conversion to [unsigned char]. *)
Definition u8 (x : Z) : Z := x .& 0xFF.

(** [((const unsigned char * )src)[i]]. *)
Definition get (src : list Z) (i : nat) : Z := nth i src 0.

Definition sph_bswap32 (x : Z) : Z :=
  let x := SPH_T32 ((x << 16) .| (x >> 16)) in
  ((x .& 0xFF00FF00) >> 8) .| ((x .& 0x00FF00FF) << 8).

Definition sph_bswap64 (x : Z) : Z :=
  let x := SPH_T64 ((x << 32) .| (x >> 32)) in
  let x := ((x .& 0xFFFF0000FFFF0000) >> 16) .| ((x .& 0x0000FFFF0000FFFF) << 16) in
  ((x .& 0xFF00FF00FF00FF00) >> 8) .| ((x .& 0x00FF00FF00FF00FF) << 8).

Definition sph_enc32be (val : Z) : list Z :=
  [u8 (val >> 24); u8 (val >> 16); u8 (val >> 8); u8 val].

Definition sph_dec32be (src : list Z) : Z :=
  (get src 0 << 24) .| (get src 1 << 16) .| (get src 2 << 8) .| get src 3.

Definition sph_enc32le (val : Z) : list Z :=
  [u8 val; u8 (val >> 8); u8 (val >> 16); u8 (val >> 24)].

Definition sph_dec32le (src : list Z) : Z :=
  get src 0 .| (get src 1 << 8) .| (get src 2 << 16) .| (get src 3 << 24).

Definition sph_enc64be (val : Z) : list Z :=
  [u8 (val >> 56); u8 (val >> 48); u8 (val >> 40); u8 (val >> 32);
   u8 (val >> 24); u8 (val >> 16); u8 (val >> 8); u8 val].

Definition sph_dec64be (src : list Z) : Z :=
  (get src 0 << 56) .| (get src 1 << 48) .| (get src 2 << 40) .| (get src 3 << 32)
  .| (get src 4 << 24) .| (get src 5 << 16) .| (get src 6 << 8) .| get src 7.

Definition sph_enc64le (val : Z) : list Z :=
  [u8 val; u8 (val >> 8); u8 (val >> 16); u8 (val >> 24);
   u8 (val >> 32); u8 (val >> 40); u8 (val >> 48); u8 (val >> 56)].

Definition sph_dec64le (src : list Z) : Z :=
  get src 0 .| (get src 1 << 8) .| (get src 2 << 16) .| (get src 3 << 24)
  .| (get src 4 << 32) .| (get src 5 << 40) .| (get src 6 << 48) .| (get src 7 << 56).

(** ** Range of the macros *)

Lemma SPH_T32_trunc x : SPH_T32 x = trunc 32 x.
Proof. reflexivity. Qed.

Lemma SPH_T64_trunc x : SPH_T64 x = trunc 64 x.
Proof. reflexivity. Qed.

Lemma SPH_ROTL32_rotl x n : SPH_ROTL32 x n = rotl 32 x n.
Proof. reflexivity. Qed.

Lemma SPH_ROTL64_rotl x n : SPH_ROTL64 x n = rotl 64 x n.
Proof. reflexivity. Qed.

Lemma u8_trunc x : u8 x = trunc 8 x.
Proof. reflexivity. Qed.

Lemma SPH_T32_inw x : inw 32 (SPH_T32 x).
Proof. rewrite SPH_T32_trunc; auto with word. Qed.

Lemma SPH_T64_inw x : inw 64 (SPH_T64 x).
Proof. rewrite SPH_T64_trunc; auto with word. Qed.

Lemma SPH_ROTL32_inw x n : inw 32 (SPH_ROTL32 x n).
Proof. apply SPH_T32_inw. Qed.

Lemma SPH_ROTL64_inw x n : inw 64 (SPH_ROTL64 x n).
Proof. apply SPH_T64_inw. Qed.

Lemma SPH_ROTR32_inw x n : inw 32 (SPH_ROTR32 x n).
Proof. apply SPH_T32_inw. Qed.

Lemma SPH_ROTR64_inw x n : inw 64 (SPH_ROTR64 x n).
Proof. apply SPH_T64_inw. Qed.

Lemma u8_inw x : inw 8 (u8 x).
Proof. rewrite u8_trunc; apply trunc_inw; lia. Qed.

#[export] Hint Resolve SPH_T32_inw SPH_T64_inw SPH_ROTL32_inw SPH_ROTL64_inw
  SPH_ROTR32_inw SPH_ROTR64_inw u8_inw : word.

(** ** Codecs as positional notation in base 256 *)

Fixpoint le_combine (l : list Z) : Z :=
  match l with
  | [] => 0
  | b :: t => b .| (le_combine t << 8)
  end.

Fixpoint le_split (n : nat) (x : Z) : list Z :=
  match n with
  | O => []
  | S n' => u8 x :: le_split n' (x >> 8)
  end.

Lemma length_le_split n x : length (le_split n x) = n.
Proof. revert x; induction n; cbn; auto. Qed.

Lemma le_split_bytes n x : words 8 (le_split n x).
Proof. revert x; induction n; constructor; auto with word; apply IHn. Qed.

Lemma le_combine_split n x : le_combine (le_split n x) = trunc (8 * Z.of_nat n) x.
Proof.
  revert x; induction n as [|n IH]; intros x.
  - unfold trunc; cbn; now rewrite Z.land_0_r.
  - cbn [le_split le_combine]; rewrite IH.
    apply Z.bits_inj'; intros i Hi; rewrite Z.lor_spec, u8_trunc, !trunc_spec by lia.
    destruct (Z.lt_ge_cases i 8).
    + rewrite (Z.shiftl_spec_low _ 8 i), orb_false_r by lia.
      f_equal; apply eq_iff_eq_true; rewrite !Z.ltb_lt; lia.
    + rewrite Z.shiftl_spec, trunc_spec, Z.shiftr_spec by lia.
      replace (i <? 8) with false by (symmetry; apply Z.ltb_ge; lia); cbn [orb andb].
      f_equal; [apply eq_iff_eq_true; rewrite !Z.ltb_lt; lia | f_equal; lia].
Qed.

Lemma le_combine_inw l : words 8 l -> inw (8 * Z.of_nat (length l)) (le_combine l).
Proof.
  induction 1 as [|b t Hb Ht IH].
  - unfold inw; cbn; lia.
  - assert (0 <= le_combine t) by apply IH.
    apply inw_bits; [lia| |].
    + cbn [le_combine]; apply Z.lor_nonneg; split; [apply Hb|].
      now apply Z.shiftl_nonneg.
    + intros i Hi; cbn [length] in Hi; cbn [le_combine].
      rewrite Z.lor_spec, Z.shiftl_spec by lia.
      rewrite (inw_high 8 b), (inw_high (8 * Z.of_nat (length t)) (le_combine t)) by (assumption || lia).
      reflexivity.
Qed.

Lemma le_split_combine l : words 8 l -> le_split (length l) (le_combine l) = l.
Proof.
  induction 1 as [|b t Hb Ht IH]; [reflexivity|].
  pose proof (le_combine_inw t Ht) as Hin.
  cbn [length le_split le_combine]; f_equal.
  - apply (inw_ext 8); auto with word.
    intros i Hi; rewrite u8_trunc, trunc_spec, Z.lor_spec, (Z.shiftl_spec_low _ 8) by lia.
    rewrite orb_false_r; destruct (Z.ltb_spec i 8); [reflexivity|lia].
  - transitivity (le_split (length t) (le_combine t)); [f_equal | exact IH].
    rewrite Z.shiftr_lor, Z.shiftr_shiftl_l, Z.sub_diag, Z.shiftl_0_r by lia.
    replace (b >> 8) with 0; [apply Z.lor_0_l|].
    symmetry; apply Z.bits_inj'; intros i Hi; rewrite Z.shiftr_spec, Z.bits_0 by lia.
    apply (inw_high 8); auto; lia.
Qed.

(** A list of length at least [n] starts with [n] elements; used to turn a
    buffer read at fixed offsets into a pattern. *)
Ltac split_list l H :=
  repeat (destruct l as [|? l]; [cbn in H; exfalso; lia | cbn [length] in H]).

Lemma shiftl_twice x n m : 0 <= n -> 0 <= m -> (x << n) << m = x << (n + m).
Proof. intros; now apply Z.shiftl_shiftl. Qed.

Lemma sph_dec32le_combine src :
  (4 <= length src)%nat -> sph_dec32le src = le_combine (firstn 4 src).
Proof.
  intros H; do 4 (destruct src as [|? src]; [cbn in H; lia|]).
  cbn -[Z.shiftl Z.lor]; unfold sph_dec32le, get; cbn -[Z.shiftl Z.lor].
  rewrite Z.shiftl_0_l, Z.lor_0_r, !Z.shiftl_lor, !shiftl_twice by lia.
  now rewrite <- !Z.lor_assoc.
Qed.

Lemma sph_dec64le_combine src :
  (8 <= length src)%nat -> sph_dec64le src = le_combine (firstn 8 src).
Proof.
  intros H; do 8 (destruct src as [|? src]; [cbn in H; lia|]).
  cbn -[Z.shiftl Z.lor]; unfold sph_dec64le, get; cbn -[Z.shiftl Z.lor].
  rewrite Z.shiftl_0_l, Z.lor_0_r, !Z.shiftl_lor, !shiftl_twice by lia.
  now rewrite <- !Z.lor_assoc.
Qed.

Lemma sph_enc32le_split x : sph_enc32le x = le_split 4 x.
Proof. unfold sph_enc32le; cbn -[u8 Z.shiftr]; now rewrite !Z.shiftr_shiftr by lia. Qed.

Lemma sph_enc64le_split x : sph_enc64le x = le_split 8 x.
Proof. unfold sph_enc64le; cbn -[u8 Z.shiftr]; now rewrite !Z.shiftr_shiftr by lia. Qed.

Lemma sph_enc32be_rev x : sph_enc32be x = rev (sph_enc32le x).
Proof. reflexivity. Qed.

Lemma sph_enc64be_rev x : sph_enc64be x = rev (sph_enc64le x).
Proof. reflexivity. Qed.

Lemma sph_dec32be_rev src :
  (4 <= length src)%nat -> sph_dec32be src = sph_dec32le (rev (firstn 4 src)).
Proof.
  intros H; do 4 (destruct src as [|? src]; [cbn in H; lia|]).
  unfold sph_dec32be, sph_dec32le, get; cbn -[Z.shiftl Z.lor].
  apply Z.bits_inj'; intros; rewrite !Z.lor_spec; btauto.
Qed.

Lemma sph_dec64be_rev src :
  (8 <= length src)%nat -> sph_dec64be src = sph_dec64le (rev (firstn 8 src)).
Proof.
  intros H; do 8 (destruct src as [|? src]; [cbn in H; lia|]).
  unfold sph_dec64be, sph_dec64le, get; cbn -[Z.shiftl Z.lor].
  apply Z.bits_inj'; intros; rewrite !Z.lor_spec; btauto.
Qed.

(** ** Range and length of the codecs *)

Lemma sph_enc32le_bytes x : words 8 (sph_enc32le x).
Proof. rewrite sph_enc32le_split; apply le_split_bytes. Qed.

Lemma sph_enc64le_bytes x : words 8 (sph_enc64le x).
Proof. rewrite sph_enc64le_split; apply le_split_bytes. Qed.

Lemma sph_enc32be_bytes x : words 8 (sph_enc32be x).
Proof. rewrite sph_enc32be_rev; apply Forall_rev, sph_enc32le_bytes. Qed.

Lemma sph_enc64be_bytes x : words 8 (sph_enc64be x).
Proof. rewrite sph_enc64be_rev; apply Forall_rev, sph_enc64le_bytes. Qed.

Lemma get_byte src i : words 8 src -> inw 8 (get src i).
Proof.
  intros H; unfold get; destruct (nth_in_or_default i src 0) as [Hi | ->].
  - now apply (proj1 (Forall_forall _ _) H).
  - unfold inw; lia.
Qed.

Lemma shifted_byte_inw b k w :
  inw 8 b -> 0 <= k -> k + 8 <= w -> inw w (b << k).
Proof.
  intros Hb Hk Hw; apply inw_bits; [lia| |].
  - apply Z.shiftl_nonneg, Hb.
  - intros i Hi; rewrite Z.shiftl_spec by lia; apply (inw_high 8); auto; lia.
Qed.

Lemma sph_dec32le_inw src : words 8 src -> inw 32 (sph_dec32le src).
Proof.
  intros H; unfold sph_dec32le.
  repeat apply inw_lor; try lia; try (apply shifted_byte_inw; auto using get_byte; lia).
  apply (inw_mono 8); [lia | auto using get_byte].
Qed.

Lemma sph_dec64le_inw src : words 8 src -> inw 64 (sph_dec64le src).
Proof.
  intros H; unfold sph_dec64le.
  repeat apply inw_lor; try lia; try (apply shifted_byte_inw; auto using get_byte; lia).
  apply (inw_mono 8); [lia | auto using get_byte].
Qed.

Lemma sph_dec32be_inw src : words 8 src -> inw 32 (sph_dec32be src).
Proof.
  intros H; unfold sph_dec32be.
  repeat apply inw_lor; try lia; try (apply shifted_byte_inw; auto using get_byte; lia).
  apply (inw_mono 8); [lia | auto using get_byte].
Qed.

Lemma sph_dec64be_inw src : words 8 src -> inw 64 (sph_dec64be src).
Proof.
  intros H; unfold sph_dec64be.
  repeat apply inw_lor; try lia; try (apply shifted_byte_inw; auto using get_byte; lia).
  apply (inw_mono 8); [lia | auto using get_byte].
Qed.

Lemma words_skipn w n l : words w l -> words w (skipn n l).
Proof.
  unfold words; rewrite !Forall_forall; intros H x Hx.
  apply H; rewrite <- (firstn_skipn n l); apply in_or_app; auto.
Qed.

Lemma words_firstn w n l : words w l -> words w (firstn n l).
Proof.
  unfold words; rewrite !Forall_forall; intros H x Hx.
  apply H; rewrite <- (firstn_skipn n l); apply in_or_app; auto.
Qed.

Lemma words_app w l m : words w l -> words w m -> words w (l ++ m).
Proof. intros; apply Forall_app; auto. Qed.

Lemma words_nth w l i : 0 <= w -> words w l -> inw w (nth i l 0).
Proof.
  intros Hw H; destruct (nth_in_or_default i l 0) as [Hi | ->].
  - now apply (proj1 (Forall_forall _ _) H).
  - split; [lia | apply Z.pow_pos_nonneg; lia].
Qed.

Lemma words_memcpy w (buf data : list Z) off n :
  words w buf -> words w data -> words w (memcpy buf off data n).
Proof.
  intros; unfold memcpy; repeat apply words_app; auto using words_firstn, words_skipn.
Qed.

Lemma words_concat w (ls : list (list Z)) : Forall (words w) ls -> words w (concat ls).
Proof. induction 1; cbn; [constructor | now apply words_app]. Qed.

Lemma words_map w {A} (f : A -> Z) l : (forall x, inw w (f x)) -> words w (map f l).
Proof. intros; apply Forall_map, Forall_forall; auto. Qed.

Lemma words_flat_map w {A} (f : A -> list Z) l :
  (forall x, words w (f x)) -> words w (flat_map f l).
Proof. intros H; induction l; cbn; [constructor | now apply words_app]. Qed.

Lemma words_repeat w x n : inw w x -> words w (repeat x n).
Proof. intros; apply Forall_forall; intros y Hy; now apply repeat_spec in Hy; subst. Qed.

Lemma length_flat_map_const {A} (f : A -> list Z) (k : nat) l :
  (forall x, length (f x) = k) -> length (flat_map f l) = (k * length l)%nat.
Proof. intros H; induction l; cbn; [lia|]; rewrite length_app, H, IHl; lia. Qed.

Lemma map2_words w f l m : (forall a b, inw w a -> inw w b -> inw w (f a b)) ->
  words w l -> words w m -> words w (map2 f l m).
Proof.
  intros Hf Hl; revert m; induction Hl; intros m Hm; cbn; [constructor|].
  destruct Hm; constructor; [now apply Hf | now apply IHHl].
Qed.

Lemma flat_map_nth (f : Z -> list Z) (l : list Z) (n : nat) :
  (n <= length l)%nat ->
  flat_map (fun z => f (nth z l 0)) (seq 0 n) = flat_map f (firstn n l).
Proof.
  intros H; rewrite !flat_map_concat_map; f_equal; rewrite <- (map_map (fun z => nth z l 0) f).
  f_equal; revert l H; induction n as [|n IH]; intros [|a l] H; try reflexivity; [cbn in H; lia|].
  cbn [seq map firstn nth]; f_equal; rewrite <- seq_shift, map_map; apply IH; cbn in H; lia.
Qed.

Lemma let_pair_fst {A B C D} (p : A * B) (f : A -> D) (g : B -> C) :
  (let (a, b) := p in (g b, f a)) = (g (snd p), f (fst p)).
Proof. now destruct p. Qed.

Lemma words_read_words w dec step n buf :
  (forall b, words 8 b -> inw w (dec b)) -> words 8 buf -> words w (read_words dec step n buf).
Proof.
  intros Hd Hb; apply Forall_map, Forall_forall; intros; now apply Hd, words_skipn.
Qed.

#[export] Hint Resolve sph_enc32le_bytes sph_enc64le_bytes sph_enc32be_bytes sph_enc64be_bytes
  sph_dec32le_inw sph_dec64le_inw sph_dec32be_inw sph_dec64be_inw
  words_skipn words_firstn words_app words_memcpy words_concat words_read_words
  words_flat_map words_repeat : word.

(** ** The byte order contract *)

(** Split [0 <= i < 2^k] into its concrete values by repeated halving. *)
Ltac bit_cases i :=
  lazymatch goal with
  | H : ?a <= i < ?b |- _ =>
      let m := eval vm_compute in ((a + b) / 2) in
      tryif constr_eq m a then (assert (i = a) by lia; subst i; clear H)
      else (destruct (Z.lt_ge_cases i m);
            [assert (a <= i < m) by lia | assert (m <= i < b) by lia]; clear H;
            bit_cases i)
  end.

(** Bit [i] of an expression over one word [x], for a concrete [i]: the bits
    of [x] become an opaque function that is false outside [0, w). *)
Ltac concrete_bit w x :=
  rewrite ?SPH_T32_trunc, ?SPH_T64_trunc;
  repeat first [rewrite Z.lor_spec | rewrite Z.land_spec | rewrite Z.shiftr_spec by lia
               | rewrite Z.shiftl_spec by lia | rewrite trunc_spec by lia];
  match goal with
  | H : inw w x |- _ =>
      pose proof (fun j => inw_high w x j ltac:(lia) H);
      pose proof (Z.testbit_neg_r x)
  end;
  let f := fresh "f" in
  set (f := Z.testbit x) in *; clearbody f; cbn;
  repeat match goal with
  | H : forall j, w <= j -> f j = false |- context [f ?k] => rewrite (H k) by lia
  | H : forall j, j < 0 -> f j = false |- context [f ?k] => rewrite (H k) by lia
  end;
  rewrite ?andb_true_r, ?andb_false_r, ?orb_false_r, ?orb_false_l.

Lemma sph_bswap32_inw x : inw 32 x -> inw 32 (sph_bswap32 x).
Proof.
  intros H; assert (0 <= x) by apply H; unfold sph_bswap32.
  apply inw_bits; [lia| |].
  - repeat first [apply Z.lor_nonneg; split | apply Z.shiftr_nonneg | apply Z.shiftl_nonneg
                 | apply Z.land_nonneg; right; lia].
  - intros i Hi; rewrite Z.lor_spec, Z.shiftr_spec, Z.shiftl_spec, !Z.land_spec by lia.
    rewrite (inw_high 32 (0xFF00FF00)) by (unfold inw; lia).
    rewrite (inw_high 24 (0x00FF00FF)) by (unfold inw; lia).
    now rewrite !andb_false_r.
Qed.

Lemma sph_bswap32_spec x i :
  inw 32 x -> 0 <= i < 32 ->
  Z.testbit (sph_bswap32 x) i = Z.testbit x (24 - 8 * (i / 8) + i mod 8).
Proof.
  intros Hx Hi; unfold sph_bswap32; cbv zeta; bit_cases i; concrete_bit 32 x; reflexivity.
Qed.

Lemma sph_bswap64_spec x i :
  inw 64 x -> 0 <= i < 64 ->
  Z.testbit (sph_bswap64 x) i = Z.testbit x (56 - 8 * (i / 8) + i mod 8).
Proof.
  intros Hx Hi; unfold sph_bswap64; cbv zeta; bit_cases i; concrete_bit 64 x; reflexivity.
Qed.

Lemma u8_spec x i : 0 <= i -> Z.testbit (u8 x) i = (i <? 8) && Z.testbit x i.
Proof. intros; rewrite u8_trunc; apply trunc_spec; lia. Qed.

(** Equality of two concrete lists, element by element. *)
Ltac list_eq := repeat (apply (f_equal2 (@cons Z)); [|]); try reflexivity.

Ltac byte_of_swap spec x :=
  apply (inw_ext 8); auto with word;
  let i := fresh "i" in
  intros i ?; rewrite !u8_spec by lia;
  f_equal; rewrite ?Z.shiftr_spec by lia; rewrite spec by (assumption || lia);
  f_equal; bit_cases i; reflexivity.

(** Storing the byte-swapped word in native little endian order, the branch
    compiled on x86, writes the bytes of the portable big endian branch. *)
Theorem enc32be_bswap (x : Z) :
  inw 32 x -> sph_enc32le (sph_bswap32 x) = sph_enc32be x.
Proof.
  intros Hx; unfold sph_enc32le, sph_enc32be.
  list_eq; byte_of_swap sph_bswap32_spec x.
Qed.

Theorem enc64be_bswap (x : Z) :
  inw 64 x -> sph_enc64le (sph_bswap64 x) = sph_enc64be x.
Proof.
  intros Hx; unfold sph_enc64le, sph_enc64be.
  list_eq; byte_of_swap sph_bswap64_spec x.
Qed.

(** ** Padding of a partial byte *)

(** [n] bits (the first ones of [ub]) and a one bit. *)
Definition last_byte (ub n : Z) : Z :=
  trunc 8 (ub .& (2 ^ 8 - 2 ^ (8 - n))) .| 2 ^ (7 - n).

(** The expression of the closing functions, with [z = 0x80 >> n]. *)
Lemma pad_byte ub n :
  0 <= n < 8 -> ((ub .& SPH_T32 (- (0x80 >> n))) .| (0x80 >> n)) .& 0xFF = last_byte ub n.
Proof.
  intros Hn; unfold last_byte.
  assert (Hc : n = 0 \/ n = 1 \/ n = 2 \/ n = 3 \/ n = 4 \/ n = 5 \/ n = 6 \/ n = 7) by lia.
  apply Z.bits_inj'; intros i Hi.
  rewrite Z.land_spec, !Z.lor_spec, trunc_spec, !Z.land_spec by lia.
  change 0xFF with (Z.ones 8); rewrite Z.testbit_ones_nonneg by lia.
  destruct (Z.ltb_spec i 8) as [H8|H8].
  - assert (Hb : 0 <= i < 8) by lia; clear Hi H8; generalize (Z.testbit ub); intros f.
    decompose [or] Hc; subst n; bit_cases i; cbn; now destruct (f _).
  - rewrite andb_false_r, andb_false_l; symmetry; apply Z.pow2_bits_false; lia.
Qed.

(** As equations between functions, so that rewriting does not unfold the
    arguments. *)
Lemma T32_trunc : SPH_T32 = trunc 32.
Proof. reflexivity. Qed.

Lemma T64_trunc : SPH_T64 = trunc 64.
Proof. reflexivity. Qed.
