(* ===== verification/Stream.v ===== *)
(** * Stream: buffered absorption of a byte stream

    Every hash function of the library keeps a context with a byte buffer,
    a fill pointer and a chaining state, and has the same update loop: copy
    input into the buffer, process the buffer whenever it is full, start
    again.  This file holds that loop ([core], parameterised by the block
    length and by what the source does with a full buffer), the abstract
    function it implements ([absorb], on the concatenated input), and the
    refinement between the two.  [StreamHash] is the interface a hash
    function offers to its callers. *)

From Stdlib Require Import ZArith List Lia Bool.
From S2P Require Import Prelude SphTypes.
Import ListNotations.

Open Scope nat_scope.

(** The context of a hash function: [buf] and [ptr] as in the source, [st]
    the chaining state (and counters). *)
Record sctx (St : Type) := Ctx { buf : list Z; ptr : nat; st : St }.
Arguments Ctx {St} _ _ _.
Arguments buf {St} _.
Arguments ptr {St} _.
Arguments st {St} _.

Section Core.
Context {St : Type}.
(** The block length and the processing of a full buffer. *)
Context (blen : nat) (process : list Z -> St -> St).

(** The [while (len > 0)] loop.  Each turn of the loop with a pointer
    below [blen] consumes at least one byte, so [length data] turns are
    enough ([core_loop_fuel]). *)
Fixpoint core_loop (fuel : nat) (b : list Z) (p : nat) (s : St) (data : list Z)
  : sctx St :=
  match fuel, data with
  | O, _ | _, [] => Ctx b p s
  | S fuel', _ =>
      let clen := blen - p in
      let clen := if length data <? clen then length data else clen in
      let b := memcpy b p data clen in
      let p := p + clen in
      let data := skipn clen data in
      if p =? blen then core_loop fuel' b 0 (process b s) data
      else core_loop fuel' b p s data
  end.

(** The whole update function: short input is only copied. *)
Definition core (c : sctx St) (data : list Z) : sctx St :=
  if length data <? blen - ptr c then
    Ctx (memcpy (buf c) (ptr c) data (length data)) (ptr c + length data) (st c)
  else core_loop (length data) (buf c) (ptr c) (st c) data.

(** The specification: process the input block by block, keep the rest. *)
Fixpoint absorb_fuel (fuel : nat) (s : St) (data : list Z) : St * list Z :=
  match fuel with
  | O => (s, data)
  | S fuel' =>
      if blen <=? length data then
        absorb_fuel fuel' (process (firstn blen data) s) (skipn blen data)
      else (s, data)
  end.

Definition absorb (s : St) (data : list Z) : St * list Z :=
  absorb_fuel (length data) s data.

(** The context invariant: the buffer array has room for a block and the
    fill pointer is inside the block. *)
Definition ctx_ok (cap : nat) (c : sctx St) : Prop :=
  length (buf c) = cap /\ ptr c < blen.

(** What a context stands for: the chaining state and the bytes not yet
    processed. *)
Definition ctx_abs (c : sctx St) : St * list Z := (st c, firstn (ptr c) (buf c)).

Context (blen_pos : 0 < blen).

Lemma absorb_fuel_enough n m s data :
  length data <= n -> length data <= m -> absorb_fuel n s data = absorb_fuel m s data.
Proof.
  revert m s data; induction n as [|n IH]; intros m s data Hn Hm.
  - destruct data; [|cbn in Hn; lia]; destruct m; cbn; auto.
    destruct blen; [lia | reflexivity].
  - destruct m as [|m].
    + destruct data; [|cbn in Hm; lia]; cbn; destruct blen; [lia | reflexivity].
    + cbn; destruct (Nat.leb_spec blen (length data)); [|reflexivity].
      apply IH; rewrite length_skipn; lia.
Qed.

Lemma absorb_short s data : length data < blen -> absorb s data = (s, data).
Proof.
  intros H; unfold absorb; destruct (length data) eqn:E; [reflexivity|].
  cbn [absorb_fuel]; rewrite E; destruct (Nat.leb_spec blen (S n)); [lia | reflexivity].
Qed.

Lemma absorb_block s blk data :
  length blk = blen -> absorb s (blk ++ data) = absorb (process blk s) data.
Proof.
  intros H; unfold absorb; rewrite (absorb_fuel_enough _ (S (length (blk ++ data)))) by lia.
  cbn [absorb_fuel]; rewrite length_app, H.
  destruct (Nat.leb_spec blen (blen + length data)); [|lia].
  rewrite firstn_app, skipn_app, H, Nat.sub_diag, firstn_all2, skipn_all2 by lia.
  rewrite app_nil_r, app_nil_l; apply absorb_fuel_enough; lia.
Qed.

Lemma absorb_one s blk : length blk = blen -> absorb s blk = (process blk s, []).
Proof.
  intros H; rewrite <- (app_nil_r blk) at 1; rewrite absorb_block by assumption.
  now apply absorb_short.
Qed.

(** Induction over the blocks of an input. *)
Lemma block_ind (P : list Z -> Prop) :
  (forall data, length data < blen -> P data) ->
  (forall blk data, length blk = blen -> P data -> P (blk ++ data)) ->
  forall data, P data.
Proof.
  intros Hs Hb data; remember (length data) as n eqn:E.
  revert data E; induction n as [n IH] using lt_wf_ind; intros data ->.
  destruct (Nat.lt_ge_cases (length data) blen); [auto|].
  rewrite <- (firstn_skipn blen data); apply Hb.
  - rewrite length_firstn; lia.
  - apply (IH (length (skipn blen data))); [rewrite length_skipn; lia | reflexivity].
Qed.

Lemma absorb_rest s data : length (snd (absorb s data)) < blen.
Proof.
  revert s; induction data as [data H|blk data H IH] using block_ind; intros s.
  - now rewrite absorb_short.
  - rewrite absorb_block by assumption; apply IH.
Qed.

(** Absorbing in two parts is absorbing the concatenation. *)
Lemma absorb_app s d1 d2 :
  absorb s (d1 ++ d2) = absorb (fst (absorb s d1)) (snd (absorb s d1) ++ d2).
Proof.
  revert s; induction d1 as [d1 H|blk d1 H IH] using block_ind; intros s.
  - now rewrite (absorb_short s d1).
  - rewrite <- app_assoc, (absorb_block s blk (d1 ++ d2)), (absorb_block s blk d1)
      by assumption; apply IH.
Qed.

(** A state invariant kept by the processing of a block of bytes is kept by
    absorption. *)
Lemma absorb_inv (P : St -> Prop) s data :
  (forall blk s', length blk = blen -> words 8 blk -> P s' -> P (process blk s')) ->
  words 8 data -> P s ->
  P (fst (absorb s data)) /\ words 8 (snd (absorb s data)).
Proof.
  intros HP; revert s; induction data as [data H|blk data H IH] using block_ind; intros s Hw Hs.
  - now rewrite absorb_short.
  - rewrite absorb_block by assumption; apply Forall_app in Hw as [? ?]; apply IH; auto.
Qed.

(** Processing reads only the first [blen] bytes of the [cap]-byte buffer. *)
Context (cap : nat) (blen_cap : blen <= cap).
Context (process_local : forall b s, length b = cap -> process (firstn blen b) s = process b s).

(** The loop invariant of the source: the loop computes [absorb] on the
    pending bytes followed by the input. *)
Lemma core_loop_refines fuel b p s data :
  length b = cap -> p < blen -> length data <= fuel ->
  ctx_ok cap (core_loop fuel b p s data) /\
  ctx_abs (core_loop fuel b p s data) = absorb s (firstn p b ++ data).
Proof.
  revert b p s data; induction fuel as [|fuel IH]; intros b p s data Hb Hp Hf.
  - destruct data; [|cbn in Hf; lia]; cbn [core_loop]; rewrite app_nil_r.
    rewrite absorb_short by (rewrite length_firstn; lia); split; [split|]; auto.
  - cbn [core_loop]; destruct data as [|d data]; [rewrite app_nil_r|].
    { rewrite absorb_short by (rewrite length_firstn; lia); split; [split|]; auto. }
    set (dd := d :: data) in *; assert (Hdd : 0 < length dd) by (cbn; lia).
    destruct (Nat.ltb_spec (length dd) (blen - p)) as [Hlt|Hge].
    + destruct (Nat.eqb_spec (p + length dd) blen); [lia|].
      rewrite skipn_all; destruct (IH (memcpy b p dd (length dd)) (p + length dd) s []) as [Hok Ha];
        [rewrite length_memcpy; lia | lia | cbn; lia |].
      split; [exact Hok|]; rewrite Ha, app_nil_r, firstn_memcpy, firstn_all by lia; reflexivity.
    + replace (p + (blen - p)) with blen by lia; rewrite Nat.eqb_refl.
      set (b' := memcpy b p dd (blen - p)).
      assert (Hb' : length b' = cap) by (unfold b'; rewrite length_memcpy; lia).
      destruct (IH b' 0 (process b' s) (skipn (blen - p) dd)) as [Hok Ha];
        [assumption | lia | rewrite length_skipn; lia |].
      split; [exact Hok|]; rewrite Ha, firstn_O, app_nil_l.
      rewrite <- (firstn_skipn (blen - p) dd) at 2; rewrite app_assoc, absorb_block.
      * rewrite <- (process_local b') by lia; f_equal; f_equal.
        unfold b'; replace blen with (p + (blen - p)) at 1 by lia.
        apply firstn_memcpy; lia.
      * rewrite length_app, !length_firstn; lia.
Qed.

(** The update function preserves the context invariant and implements
    [absorb]. *)
Lemma core_refines c data :
  ctx_ok cap c ->
  ctx_ok cap (core c data) /\
  ctx_abs (core c data) = absorb (fst (ctx_abs c)) (snd (ctx_abs c) ++ data).
Proof.
  intros [Hb Hp]; unfold core; destruct (Nat.ltb_spec (length data) (blen - ptr c)).
  - split; [split; cbn; [rewrite length_memcpy|]; lia|].
    unfold ctx_abs; cbn [st ptr buf fst snd].
    rewrite firstn_memcpy, firstn_all by lia.
    rewrite absorb_short; [reflexivity | rewrite length_app, length_firstn; lia].
  - apply core_loop_refines; auto.
Qed.

Lemma core_ok c data : ctx_ok cap c -> ctx_ok cap (core c data).
Proof. intros; now apply core_refines. Qed.

(** Any sequence of updates amounts to one absorption of everything. *)
Lemma core_many_refines chunks c :
  ctx_ok cap c ->
  ctx_ok cap (fold_left core chunks c) /\
  ctx_abs (fold_left core chunks c)
  = absorb (fst (ctx_abs c)) (snd (ctx_abs c) ++ concat chunks).
Proof.
  revert c; induction chunks as [|d chunks IH]; intros c Hc.
  - cbn [fold_left concat]; rewrite app_nil_r; split; [assumption|].
    destruct Hc; rewrite absorb_short; [reflexivity | cbn; rewrite length_firstn; lia].
  - cbn [fold_left concat].
    destruct (core_refines c d Hc) as [Hok Ha].
    destruct (IH (core c d) Hok) as [Hok' Ha']; split; [assumption|].
    now rewrite Ha', Ha, app_assoc, (absorb_app _ (snd (ctx_abs c) ++ d)).
Qed.
End Core.

(** Change of representation of the chaining state. *)
Definition ctx_map {S1 S2} (f : S1 -> S2) (c : sctx S1) : sctx S2 :=
  Ctx (buf c) (ptr c) (f (st c)).

Lemma core_loop_map {S1 S2} (f : S1 -> S2) blen p1 p2 fuel b p s data :
  (forall b s, f (p1 b s) = p2 b (f s)) ->
  ctx_map f (core_loop blen p1 fuel b p s data) = core_loop blen p2 fuel b p (f s) data.
Proof.
  intros Hf; revert b p s data; induction fuel as [|fuel IH]; intros b p s data; [reflexivity|].
  destruct data as [|d data]; [reflexivity|]; cbn [core_loop]; cbv zeta.
  destruct (_ =? blen); rewrite IH, ?Hf; reflexivity.
Qed.

(** Absorption computed with another representation of the state. *)
Lemma absorb_map {S1 S2} (f : S1 -> S2) blen p1 p2 s data :
  0 < blen -> (forall b s, length b = blen -> f (p1 b s) = p2 b (f s)) ->
  absorb blen p2 (f s) data
  = (f (fst (absorb blen p1 s data)), snd (absorb blen p1 s data)).
Proof.
  intros Hb Hf; revert s; induction data as [data H|blk data H IH] using (block_ind blen Hb); intros s.
  - now rewrite !absorb_short.
  - now rewrite !absorb_block, <- Hf, IH by assumption.
Qed.

(** Two absorptions in step, related by [R] as long as the data satisfy
    [Q]. *)
Lemma absorb_sim_gen {S1 S2} (Q : Z -> Prop) (R : S1 -> S2 -> Prop) blen p1 p2 s1 s2 data :
  0 < blen ->
  (forall blk a b, length blk = blen -> Forall Q blk -> R a b -> R (p1 blk a) (p2 blk b)) ->
  Forall Q data -> R s1 s2 ->
  R (fst (absorb blen p1 s1 data)) (fst (absorb blen p2 s2 data))
  /\ snd (absorb blen p1 s1 data) = snd (absorb blen p2 s2 data).
Proof.
  intros Hb HR; revert s1 s2.
  induction data as [data H|blk data H IH] using (block_ind blen Hb); intros s1 s2 Hw Hs.
  - now rewrite !absorb_short.
  - rewrite !absorb_block by assumption; apply Forall_app in Hw as [? ?]; apply IH; auto.
Qed.

Lemma absorb_sim {S1 S2} (R : S1 -> S2 -> Prop) blen p1 p2 s1 s2 data :
  0 < blen ->
  (forall blk a b, length blk = blen -> words 8 blk -> R a b -> R (p1 blk a) (p2 blk b)) ->
  words 8 data -> R s1 s2 ->
  R (fst (absorb blen p1 s1 data)) (fst (absorb blen p2 s2 data))
  /\ snd (absorb blen p1 s1 data) = snd (absorb blen p2 s2 data).
Proof. apply absorb_sim_gen. Qed.

Lemma absorb_rel {S1 S2} (R : S1 -> S2 -> Prop) blen p1 p2 s1 s2 data :
  0 < blen -> (forall blk a b, length blk = blen -> R a b -> R (p1 blk a) (p2 blk b)) -> R s1 s2 ->
  R (fst (absorb blen p1 s1 data)) (fst (absorb blen p2 s2 data))
  /\ snd (absorb blen p1 s1 data) = snd (absorb blen p2 s2 data).
Proof.
  intros Hb HR; apply (absorb_sim_gen (fun _ => True)); [assumption | auto | now apply Forall_forall].
Qed.

(** Updates through another representation of the context. *)
Lemma fold_left_sim {A B D} (f : A -> B) (u1 : A -> D -> A) (u2 : B -> D -> B) ds a :
  (forall a d, f (u1 a d) = u2 (f a) d) -> f (fold_left u1 ds a) = fold_left u2 ds (f a).
Proof. intros H; revert a; induction ds; intros a0; cbn; [|rewrite IHds, H]; auto. Qed.

(** The number of bytes left over. *)
Lemma absorb_rest_length {St} blen (process : list Z -> St -> St) s data :
  0 < blen -> length (snd (absorb blen process s data)) = length data mod blen.
Proof.
  intros Hb; revert s; induction data as [data H|blk data H IH] using (block_ind blen Hb); intros s.
  - now rewrite absorb_short, Nat.mod_small.
  - rewrite absorb_block, IH, length_app, H by assumption.
    replace (blen + length data) with (length data + 1 * blen) by lia.
    now rewrite Nat.Div0.mod_add.
Qed.

(** A tail that completes the pending bytes to a block is one more block. *)
Lemma absorb_tail {St} blen (process : list Z -> St -> St) s data tail :
  0 < blen -> length (snd (absorb blen process s data)) + length tail = blen ->
  absorb blen process s (data ++ tail)
  = (process (snd (absorb blen process s data) ++ tail) (fst (absorb blen process s data)), []).
Proof.
  intros Hb Hl; rewrite absorb_app by assumption.
  set (rest := snd (absorb blen process s data)) in *.
  pose proof (absorb_block blen process Hb (fst (absorb blen process s data)) (rest ++ tail) []) as E.
  rewrite app_nil_r, length_app in E; rewrite E by assumption.
  now rewrite absorb_short.
Qed.

(** Padding with a one bit and zeros up to a block boundary. *)
Definition pad10 (blen : nat) (m : list Z) : list Z :=
  m ++ 0x80%Z :: repeat 0%Z (blen - 1 - length m mod blen).

Lemma absorb_pad10 {St} blen (process : list Z -> St -> St) s m :
  0 < blen ->
  absorb blen process s (pad10 blen m)
  = (let (s', rest) := absorb blen process s m in
     process (rest ++ 0x80%Z :: repeat 0%Z (blen - 1 - length rest)) s', []).
Proof.
  intros Hb; unfold pad10; pose proof (absorb_rest_length blen process s m Hb) as Hr.
  pose proof (Nat.mod_upper_bound (length m) blen).
  rewrite absorb_tail; [|assumption | cbn [length]; rewrite repeat_length; lia].
  rewrite <- Hr; now destruct (absorb blen process s m).
Qed.

(** ** The interface of a hash function

    [digest] is the function of the message alone that the context-based
    implementation computes: for a message whose length fits in a [size_t],
    whatever the uninitialised contents of the
    context and however the message is cut into chunks, [close] returns
    [digest] of the message, and leaves a context ready for another use. *)
Definition SIZE_MAX : Z := (2 ^ 64 - 1)%Z.

Class StreamHash := {
  hctx : Type;
  hctx_ok : hctx -> Prop;                     (** arrays have their C sizes *)
  hinit : hctx -> hctx;
  hupdate : hctx -> list Z -> hctx;
  hclose : hctx -> list Z * hctx;
  hlen : nat;                                 (** digest length in bytes *)
  digest : list Z -> list Z;
  hinit_ok : forall c, hctx_ok c -> hctx_ok (hinit c);
  hclose_correct : forall c chunks,
    hctx_ok c -> words 8 (concat chunks) ->
    (Z.of_nat (length (concat chunks)) < SIZE_MAX)%Z ->
    fst (hclose (fold_left hupdate chunks (hinit c))) = digest (concat chunks)
    /\ hctx_ok (snd (hclose (fold_left hupdate chunks (hinit c))));
  digest_length : forall m, length (digest m) = hlen;
  digest_bytes : forall m, words 8 (digest m)
}.
