(* ===== verification/CubeHash.v ===== *)
(** * CubeHash: model of cubehash.c

    The context (32-byte buffer, 32 state words), the unrolled rounds
    [ROUND_EVEN] and [ROUND_ODD] with the word swaps folded into the
    variable names, the update and close functions, and the four variants.
    The second half of the file has the CubeHash16/32 definition
    ([cube_round], [cubehash_spec]) and shows that the code computes it. *)

From Stdlib Require Import ZArith List Lia Bool.
From S2P Require Import Prelude SphTypes Stream.
Import ListNotations.

Open Scope Z_scope.
Open Scope word_scope.

Abbreviation T32 := SPH_T32.
Abbreviation ROTL32 := SPH_ROTL32.

Definition IV224 : list Z :=
  [0xB0FC8217; 0x1BEE1A90; 0x829E1A22; 0x6362C342;
   0x24D91C30; 0x03A7AA24; 0xA63721C8; 0x85B0E2EF;
   0xF35D13F3; 0x41DA807D; 0x21A70CA6; 0x1F4E9774;
   0xB3E1C932; 0xEB0A79A8; 0xCDDAAA66; 0xE2F6ECAA;
   0x0A713362; 0xAA3080E0; 0xD8F23A32; 0xCEF15E28;
   0xDB086314; 0x7F709DF7; 0xACD228A4; 0x704D6ECE;
   0xAA3EC95F; 0xE387C214; 0x3A6445FF; 0x9CAB81C3;
   0xC73D4B98; 0xD277AEBE; 0xFD20151C; 0x00CB573E].

Definition IV256 : list Z :=
  [0xEA2BD4B4; 0xCCD6F29F; 0x63117E71; 0x35481EAE;
   0x22512D5B; 0xE5D94E63; 0x7E624131; 0xF4CC12BE;
   0xC2D0B696; 0x42AF2070; 0xD0720C35; 0x3361DA8C;
   0x28CCECA4; 0x8EF8AD83; 0x4680AC00; 0x40E5FBAB;
   0xD89041C3; 0x6107FBD5; 0x6C859D41; 0xF0B26679;
   0x09392549; 0x5FA25603; 0x65C892FD; 0x93CB6285;
   0x2AF2B5AE; 0x9E4B4E60; 0x774ABFDD; 0x85254725;
   0x15815AEB; 0x4AB6AAD6; 0x9CDAF8AF; 0xD6032C0A].

Definition IV384 : list Z :=
  [0xE623087E; 0x04C00C87; 0x5EF46453; 0x69524B13;
   0x1A05C7A9; 0x3528DF88; 0x6BDD01B5; 0x5057B792;
   0x6AA7A922; 0x649C7EEE; 0xF426309F; 0xCB629052;
   0xFC8E20ED; 0xB3482BAB; 0xF89E5E7E; 0xD83D4DE4;
   0x44BFC10D; 0x5FC1E63D; 0x2104E6CB; 0x17958F7F;
   0xDBEAEF70; 0xB4B97E1E; 0x32C195F6; 0x6184A8E4;
   0x796C2543; 0x23DE176D; 0xD33BBAEC; 0x0C12E5D2;
   0x4EB95A7B; 0x2D18BA01; 0x04EE475F; 0x1FC5F22E].

Definition IV512 : list Z :=
  [0x2AEA2A61; 0x50F494D4; 0x2D538B8B; 0x4167D83E;
   0x3FEE2313; 0xC701CF8C; 0xCC39968E; 0x50AC5695;
   0x4D42C787; 0xA647A8B3; 0x97CF0BEF; 0x825B4537;
   0xEEF864D2; 0xF22090C4; 0xD0E5CD33; 0xA23911AE;
   0xFCD398D9; 0x148FE485; 0x1B017BEF; 0xB6444532;
   0x6A536159; 0x2FF5781C; 0x91FA7934; 0x0DBADEA9;
   0xD65C8A2B; 0xA5A70E75; 0xB1C62456; 0xBC796576;
   0x1921C8F7; 0xE7989AF1; 0x7795D246; 0xD43E3B44].

(** The local copies [x0] ... [xv] of the state array (DECL_STATE). *)
Inductive xvars :=
  X (x0 x1 x2 x3 x4 x5 x6 x7 x8 x9 xa xb xc xd xe xf
     xg xh xi xj xk xl xm xn xo xp xq xr xs xt xu xv : Z).

Definition READ_STATE (state : list Z) : xvars :=
  X (nth 0 state 0) (nth 1 state 0) (nth 2 state 0) (nth 3 state 0) (nth 4 state 0) (nth 5 state 0) (nth 6 state 0) (nth 7 state 0)
    (nth 8 state 0) (nth 9 state 0) (nth 10 state 0) (nth 11 state 0) (nth 12 state 0) (nth 13 state 0) (nth 14 state 0) (nth 15 state 0)
    (nth 16 state 0) (nth 17 state 0) (nth 18 state 0) (nth 19 state 0) (nth 20 state 0) (nth 21 state 0) (nth 22 state 0) (nth 23 state 0)
    (nth 24 state 0) (nth 25 state 0) (nth 26 state 0) (nth 27 state 0) (nth 28 state 0) (nth 29 state 0) (nth 30 state 0) (nth 31 state 0).

Definition WRITE_STATE (s : xvars) : list Z :=
  let '(X x0 x1 x2 x3 x4 x5 x6 x7 x8 x9 xa xb xc xd xe xf
          xg xh xi xj xk xl xm xn xo xp xq xr xs xt xu xv) := s in
  [x0; x1; x2; x3; x4; x5; x6; x7; x8; x9; xa; xb; xc; xd; xe; xf;
   xg; xh; xi; xj; xk; xl; xm; xn; xo; xp; xq; xr; xs; xt; xu; xv].

Definition INPUT_BLOCK (buf : list Z) (s : xvars) : xvars :=
  let '(X x0 x1 x2 x3 x4 x5 x6 x7 x8 x9 xa xb xc xd xe xf
          xg xh xi xj xk xl xm xn xo xp xq xr xs xt xu xv) := s in
  let x0 := x0 .^ sph_dec32le (skipn 0 buf) in let x1 := x1 .^ sph_dec32le (skipn 4 buf) in
  let x2 := x2 .^ sph_dec32le (skipn 8 buf) in let x3 := x3 .^ sph_dec32le (skipn 12 buf) in
  let x4 := x4 .^ sph_dec32le (skipn 16 buf) in let x5 := x5 .^ sph_dec32le (skipn 20 buf) in
  let x6 := x6 .^ sph_dec32le (skipn 24 buf) in let x7 := x7 .^ sph_dec32le (skipn 28 buf) in
  X x0 x1 x2 x3 x4 x5 x6 x7 x8 x9 xa xb xc xd xe xf
    xg xh xi xj xk xl xm xn xo xp xq xr xs xt xu xv.

Definition ROUND_EVEN (s : xvars) : xvars :=
  let '(X x0 x1 x2 x3 x4 x5 x6 x7 x8 x9 xa xb xc xd xe xf
          xg xh xi xj xk xl xm xn xo xp xq xr xs xt xu xv) := s in
  let xg := T32 (x0 + xg) in let x0 := ROTL32 x0 7 in
  let xh := T32 (x1 + xh) in let x1 := ROTL32 x1 7 in
  let xi := T32 (x2 + xi) in let x2 := ROTL32 x2 7 in
  let xj := T32 (x3 + xj) in let x3 := ROTL32 x3 7 in
  let xk := T32 (x4 + xk) in let x4 := ROTL32 x4 7 in
  let xl := T32 (x5 + xl) in let x5 := ROTL32 x5 7 in
  let xm := T32 (x6 + xm) in let x6 := ROTL32 x6 7 in
  let xn := T32 (x7 + xn) in let x7 := ROTL32 x7 7 in
  let xo := T32 (x8 + xo) in let x8 := ROTL32 x8 7 in
  let xp := T32 (x9 + xp) in let x9 := ROTL32 x9 7 in
  let xq := T32 (xa + xq) in let xa := ROTL32 xa 7 in
  let xr := T32 (xb + xr) in let xb := ROTL32 xb 7 in
  let xs := T32 (xc + xs) in let xc := ROTL32 xc 7 in
  let xt := T32 (xd + xt) in let xd := ROTL32 xd 7 in
  let xu := T32 (xe + xu) in let xe := ROTL32 xe 7 in
  let xv := T32 (xf + xv) in let xf := ROTL32 xf 7 in
  let x8 := x8 .^ xg in let x9 := x9 .^ xh in
  let xa := xa .^ xi in let xb := xb .^ xj in
  let xc := xc .^ xk in let xd := xd .^ xl in
  let xe := xe .^ xm in let xf := xf .^ xn in
  let x0 := x0 .^ xo in let x1 := x1 .^ xp in
  let x2 := x2 .^ xq in let x3 := x3 .^ xr in
  let x4 := x4 .^ xs in let x5 := x5 .^ xt in
  let x6 := x6 .^ xu in let x7 := x7 .^ xv in
  let xi := T32 (x8 + xi) in let x8 := ROTL32 x8 11 in
  let xj := T32 (x9 + xj) in let x9 := ROTL32 x9 11 in
  let xg := T32 (xa + xg) in let xa := ROTL32 xa 11 in
  let xh := T32 (xb + xh) in let xb := ROTL32 xb 11 in
  let xm := T32 (xc + xm) in let xc := ROTL32 xc 11 in
  let xn := T32 (xd + xn) in let xd := ROTL32 xd 11 in
  let xk := T32 (xe + xk) in let xe := ROTL32 xe 11 in
  let xl := T32 (xf + xl) in let xf := ROTL32 xf 11 in
  let xq := T32 (x0 + xq) in let x0 := ROTL32 x0 11 in
  let xr := T32 (x1 + xr) in let x1 := ROTL32 x1 11 in
  let xo := T32 (x2 + xo) in let x2 := ROTL32 x2 11 in
  let xp := T32 (x3 + xp) in let x3 := ROTL32 x3 11 in
  let xu := T32 (x4 + xu) in let x4 := ROTL32 x4 11 in
  let xv := T32 (x5 + xv) in let x5 := ROTL32 x5 11 in
  let xs := T32 (x6 + xs) in let x6 := ROTL32 x6 11 in
  let xt := T32 (x7 + xt) in let x7 := ROTL32 x7 11 in
  let xc := xc .^ xi in let xd := xd .^ xj in
  let xe := xe .^ xg in let xf := xf .^ xh in
  let x8 := x8 .^ xm in let x9 := x9 .^ xn in
  let xa := xa .^ xk in let xb := xb .^ xl in
  let x4 := x4 .^ xq in let x5 := x5 .^ xr in
  let x6 := x6 .^ xo in let x7 := x7 .^ xp in
  let x0 := x0 .^ xu in let x1 := x1 .^ xv in
  let x2 := x2 .^ xs in let x3 := x3 .^ xt in
  X x0 x1 x2 x3 x4 x5 x6 x7 x8 x9 xa xb xc xd xe xf
    xg xh xi xj xk xl xm xn xo xp xq xr xs xt xu xv.

Definition ROUND_ODD (s : xvars) : xvars :=
  let '(X x0 x1 x2 x3 x4 x5 x6 x7 x8 x9 xa xb xc xd xe xf
          xg xh xi xj xk xl xm xn xo xp xq xr xs xt xu xv) := s in
  let xj := T32 (xc + xj) in let xc := ROTL32 xc 7 in
  let xi := T32 (xd + xi) in let xd := ROTL32 xd 7 in
  let xh := T32 (xe + xh) in let xe := ROTL32 xe 7 in
  let xg := T32 (xf + xg) in let xf := ROTL32 xf 7 in
  let xn := T32 (x8 + xn) in let x8 := ROTL32 x8 7 in
  let xm := T32 (x9 + xm) in let x9 := ROTL32 x9 7 in
  let xl := T32 (xa + xl) in let xa := ROTL32 xa 7 in
  let xk := T32 (xb + xk) in let xb := ROTL32 xb 7 in
  let xr := T32 (x4 + xr) in let x4 := ROTL32 x4 7 in
  let xq := T32 (x5 + xq) in let x5 := ROTL32 x5 7 in
  let xp := T32 (x6 + xp) in let x6 := ROTL32 x6 7 in
  let xo := T32 (x7 + xo) in let x7 := ROTL32 x7 7 in
  let xv := T32 (x0 + xv) in let x0 := ROTL32 x0 7 in
  let xu := T32 (x1 + xu) in let x1 := ROTL32 x1 7 in
  let xt := T32 (x2 + xt) in let x2 := ROTL32 x2 7 in
  let xs := T32 (x3 + xs) in let x3 := ROTL32 x3 7 in
  let x4 := x4 .^ xj in let x5 := x5 .^ xi in
  let x6 := x6 .^ xh in let x7 := x7 .^ xg in
  let x0 := x0 .^ xn in let x1 := x1 .^ xm in
  let x2 := x2 .^ xl in let x3 := x3 .^ xk in
  let xc := xc .^ xr in let xd := xd .^ xq in
  let xe := xe .^ xp in let xf := xf .^ xo in
  let x8 := x8 .^ xv in let x9 := x9 .^ xu in
  let xa := xa .^ xt in let xb := xb .^ xs in
  let xh := T32 (x4 + xh) in let x4 := ROTL32 x4 11 in
  let xg := T32 (x5 + xg) in let x5 := ROTL32 x5 11 in
  let xj := T32 (x6 + xj) in let x6 := ROTL32 x6 11 in
  let xi := T32 (x7 + xi) in let x7 := ROTL32 x7 11 in
  let xl := T32 (x0 + xl) in let x0 := ROTL32 x0 11 in
  let xk := T32 (x1 + xk) in let x1 := ROTL32 x1 11 in
  let xn := T32 (x2 + xn) in let x2 := ROTL32 x2 11 in
  let xm := T32 (x3 + xm) in let x3 := ROTL32 x3 11 in
  let xp := T32 (xc + xp) in let xc := ROTL32 xc 11 in
  let xo := T32 (xd + xo) in let xd := ROTL32 xd 11 in
  let xr := T32 (xe + xr) in let xe := ROTL32 xe 11 in
  let xq := T32 (xf + xq) in let xf := ROTL32 xf 11 in
  let xt := T32 (x8 + xt) in let x8 := ROTL32 x8 11 in
  let xs := T32 (x9 + xs) in let x9 := ROTL32 x9 11 in
  let xv := T32 (xa + xv) in let xa := ROTL32 xa 11 in
  let xu := T32 (xb + xu) in let xb := ROTL32 xb 11 in
  let x0 := x0 .^ xh in let x1 := x1 .^ xg in
  let x2 := x2 .^ xj in let x3 := x3 .^ xi in
  let x4 := x4 .^ xl in let x5 := x5 .^ xk in
  let x6 := x6 .^ xn in let x7 := x7 .^ xm in
  let x8 := x8 .^ xp in let x9 := x9 .^ xo in
  let xa := xa .^ xr in let xb := xb .^ xq in
  let xc := xc .^ xt in let xd := xd .^ xs in
  let xe := xe .^ xv in let xf := xf .^ xu in
  X x0 x1 x2 x3 x4 x5 x6 x7 x8 x9 xa xb xc xd xe xf
    xg xh xi xj xk xl xm xn xo xp xq xr xs xt xu xv.

Definition SIXTEEN_ROUNDS (s : xvars) : xvars :=
  let s := ROUND_EVEN s in let s := ROUND_ODD s in
  let s := ROUND_EVEN s in let s := ROUND_ODD s in
  let s := ROUND_EVEN s in let s := ROUND_ODD s in
  let s := ROUND_EVEN s in let s := ROUND_ODD s in
  let s := ROUND_EVEN s in let s := ROUND_ODD s in
  let s := ROUND_EVEN s in let s := ROUND_ODD s in
  let s := ROUND_EVEN s in let s := ROUND_ODD s in
  let s := ROUND_EVEN s in let s := ROUND_ODD s in
  s.

(** The other settings of SPH_CUBEHASH_UNROLL. *)
Definition SIXTEEN_ROUNDS_unroll2 (s : xvars) : xvars :=
  iter 8 (fun s => let s := ROUND_EVEN s in let s := ROUND_ODD s in s) s.

Definition SIXTEEN_ROUNDS_unroll4 (s : xvars) : xvars :=
  iter 4 (fun s =>
    let s := ROUND_EVEN s in let s := ROUND_ODD s in
    let s := ROUND_EVEN s in let s := ROUND_ODD s in s) s.

Definition SIXTEEN_ROUNDS_unroll8 (s : xvars) : xvars :=
  iter 2 (fun s =>
    let s := ROUND_EVEN s in let s := ROUND_ODD s in
    let s := ROUND_EVEN s in let s := ROUND_ODD s in
    let s := ROUND_EVEN s in let s := ROUND_ODD s in
    let s := ROUND_EVEN s in let s := ROUND_ODD s in s) s.

(** [sph_cubehash_context]: [unsigned char buf[32]], [size_t ptr],
    [sph_u32 state[32]]. *)
Definition cubehash_context := sctx (list Z).

Definition cubehash_init (sc : cubehash_context) (iv : list Z) : cubehash_context :=
  Ctx (buf sc) 0 iv.

(** A full buffer: [INPUT_BLOCK; SIXTEEN_ROUNDS]. *)
Definition cubehash_process (b : list Z) (x : xvars) : xvars :=
  SIXTEEN_ROUNDS (INPUT_BLOCK b x).

Definition cubehash_core (sc : cubehash_context) (data : list Z) : cubehash_context :=
  if (length data <? 32 - ptr sc)%nat then
    Ctx (memcpy (buf sc) (ptr sc) data (length data)) (ptr sc + length data) (st sc)
  else
    let r := core_loop 32 cubehash_process (length data) (buf sc) (ptr sc)
               (READ_STATE (st sc)) data in
    Ctx (buf r) (ptr r) (WRITE_STATE (st r)).

(** [xv ^= SPH_C32(1)]. *)
Definition xor_xv (s : xvars) : xvars :=
  let '(X x0 x1 x2 x3 x4 x5 x6 x7 x8 x9 xa xb xc xd xe xf
          xg xh xi xj xk xl xm xn xo xp xq xr xs xt xu xv) := s in
  X x0 x1 x2 x3 x4 x5 x6 x7 x8 x9 xa xb xc xd xe xf
    xg xh xi xj xk xl xm xn xo xp xq xr xs xt xu (xv .^ 1).

(** The closing loop [for (i = 0; i < 11; i ++)]. *)
Fixpoint close_rounds (n : nat) (i : nat) (s : xvars) : xvars :=
  match n with
  | O => s
  | S n' =>
      let s := SIXTEEN_ROUNDS s in
      let s := if (i =? 0)%nat then xor_xv s else s in
      close_rounds n' (S i) s
  end.

(** Returns the context and the bytes written to [dst].  [ub] and [n] are
    the extra bits and their number. *)
Definition cubehash_close (sc : cubehash_context) (ub n : Z) (out_size_w32 : nat)
  : cubehash_context * list Z :=
  let z := 0x80 >> n in
  let b := upd (buf sc) (ptr sc) (((ub .& T32 (- z)) .| z) .& 0xFF) in
  let p := S (ptr sc) in
  let b := memset b p 0 (32 - p) in
  let x := READ_STATE (st sc) in
  let x := INPUT_BLOCK b x in
  let x := close_rounds 11 0 x in
  let state := WRITE_STATE x in
  (Ctx b p state, flat_map (fun z => sph_enc32le (nth z state 0)) (seq 0 out_size_w32)).

Definition sph_cubehash224_init (cc : cubehash_context) := cubehash_init cc IV224.
Definition sph_cubehash224 (cc : cubehash_context) (data : list Z) := cubehash_core cc data.
Definition sph_cubehash224_addbits_and_close (cc : cubehash_context) (ub n : Z) :=
  let (cc, dst) := cubehash_close cc ub n 7 in (dst, sph_cubehash224_init cc).
Definition sph_cubehash224_close (cc : cubehash_context) :=
  sph_cubehash224_addbits_and_close cc 0 0.

Definition sph_cubehash256_init (cc : cubehash_context) := cubehash_init cc IV256.
Definition sph_cubehash256 (cc : cubehash_context) (data : list Z) := cubehash_core cc data.
Definition sph_cubehash256_addbits_and_close (cc : cubehash_context) (ub n : Z) :=
  let (cc, dst) := cubehash_close cc ub n 8 in (dst, sph_cubehash256_init cc).
Definition sph_cubehash256_close (cc : cubehash_context) :=
  sph_cubehash256_addbits_and_close cc 0 0.

Definition sph_cubehash384_init (cc : cubehash_context) := cubehash_init cc IV384.
Definition sph_cubehash384 (cc : cubehash_context) (data : list Z) := cubehash_core cc data.
Definition sph_cubehash384_addbits_and_close (cc : cubehash_context) (ub n : Z) :=
  let (cc, dst) := cubehash_close cc ub n 12 in (dst, sph_cubehash384_init cc).
Definition sph_cubehash384_close (cc : cubehash_context) :=
  sph_cubehash384_addbits_and_close cc 0 0.

Definition sph_cubehash512_init (cc : cubehash_context) := cubehash_init cc IV512.
Definition sph_cubehash512 (cc : cubehash_context) (data : list Z) := cubehash_core cc data.
Definition sph_cubehash512_addbits_and_close (cc : cubehash_context) (ub n : Z) :=
  let (cc, dst) := cubehash_close cc ub n 16 in (dst, sph_cubehash512_init cc).
Definition sph_cubehash512_close (cc : cubehash_context) :=
  sph_cubehash512_addbits_and_close cc 0 0.

(** ** CubeHash16/32-h, as its specification defines it

    The state is 32 words [x_00000 ... x_11111]; [lo] and [hi] are the words
    with first index bit 0 and 1. *)

(** Exchange of the words whose index differs in bit [k] (as a weight). *)
Definition swap (k : nat) (l : list Z) : list Z :=
  map (fun i => nth (Nat.lxor i k) l 0) (seq 0 16).

(** Half a round: add [lo] into [hi], rotate [lo], swap, xor [hi] into
    [lo], swap. *)
Definition half_round (r : Z) (k1 k2 : nat) (s : list Z * list Z) : list Z * list Z :=
  let (lo, hi) := s in
  let hi := map2 (fun a b => T32 (a + b)) lo hi in
  let lo := map (fun a => ROTL32 a r) lo in
  let lo := swap k1 lo in
  let lo := map2 Z.lxor lo hi in
  let hi := swap k2 hi in
  (lo, hi).

Definition cube_round (s : list Z * list Z) : list Z * list Z :=
  half_round 11 4 1 (half_round 7 8 2 s).

Definition cube_rounds (n : nat) (s : list Z) : list Z :=
  let (lo, hi) := iter n cube_round (firstn 16 s, skipn 16 s) in lo ++ hi.

(** The initial state for an [h]-bit digest: (h/8, b, r, 0, ...) through 10r
    rounds. *)
Definition cube_iv (h : Z) : list Z := cube_rounds 160 ([h / 8; 32; 16] ++ repeat 0 29).

(** Absorption of one 32-byte block. *)
Definition cube_block (blk s : list Z) : list Z :=
  cube_rounds 16 (map2 Z.lxor (firstn 8 s) (read_words sph_dec32le 4 8 blk) ++ skipn 8 s).

Definition cubehash_spec (h : Z) (m : list Z) : list Z :=
  let s := fst (absorb 32 cube_block (cube_iv h) (pad10 32 m)) in
  let s := firstn 31 s ++ [nth 31 s 0 .^ 1] in
  flat_map sph_enc32le (firstn (Z.to_nat (h / 32)) (cube_rounds 160 s)).

(** ** The unrolled rounds are the CubeHash rounds *)

Definition halves (s : xvars) : list Z * list Z :=
  let l := WRITE_STATE s in (firstn 16 l, skipn 16 l).

(** The word exchanges of two rounds cancel: the even and the odd macro
    together are two rounds. *)
Lemma two_rounds s : halves (ROUND_ODD (ROUND_EVEN s)) = cube_round (cube_round (halves s)).
Proof. destruct s; cbv -[SPH_T32 SPH_ROTL32 Z.lxor Z.add]; reflexivity. Qed.

Lemma WRITE_halves s : WRITE_STATE s = fst (halves s) ++ snd (halves s).
Proof. destruct s; reflexivity. Qed.

Lemma READ_WRITE s : READ_STATE (WRITE_STATE s) = s.
Proof. destruct s; reflexivity. Qed.

Lemma halves_inj s t : halves s = halves t -> s = t.
Proof.
  intros E; rewrite <- (READ_WRITE s), <- (READ_WRITE t), !WRITE_halves; now rewrite E.
Qed.

Lemma sixteen_iter s : SIXTEEN_ROUNDS s = iter 8 (fun x => ROUND_ODD (ROUND_EVEN x)) s.
Proof. reflexivity. Qed.

Lemma halves_sixteen s : halves (SIXTEEN_ROUNDS s) = iter 16 cube_round (halves s).
Proof. rewrite sixteen_iter; cbn [iter]; now rewrite !two_rounds. Qed.

Lemma SIXTEEN_ROUNDS_spec s : WRITE_STATE (SIXTEEN_ROUNDS s) = cube_rounds 16 (WRITE_STATE s).
Proof.
  rewrite WRITE_halves, halves_sixteen; unfold cube_rounds; fold (halves s).
  now destruct (iter 16 cube_round (halves s)).
Qed.

(** ** The round is a permutation of the 1024-bit states *)

Definition half_ok (s : list Z * list Z) : Prop :=
  length (fst s) = 16%nat /\ length (snd s) = 16%nat /\ words 32 (fst s) /\ words 32 (snd s).

Lemma swap_words k l : words 32 l -> words 32 (swap k l).
Proof.
  intros H; apply Forall_map, Forall_forall; intros; now apply words_nth.
Qed.

Lemma length_swap k l : length (swap k l) = 16%nat.
Proof. unfold swap; now rewrite length_map. Qed.

Lemma swap_swap k l : In k [1; 2; 4; 8]%nat -> length l = 16%nat -> swap k (swap k l) = l.
Proof.
  intros Hk Hl; do 16 (destruct l as [|? l]; [discriminate|]); destruct l; [|discriminate].
  cbn in Hk; intuition subst; reflexivity.
Qed.

Lemma half_round_ok r k1 k2 s : half_ok s -> half_ok (half_round r k1 k2 s).
Proof.
  destruct s as [lo hi]; intros (Hl & Hh & Wl & Wh); cbn [fst snd] in *.
  assert (words 32 (map2 (fun a b => T32 (a + b)) lo hi)).
  { apply map2_words; auto with word. }
  split; [|split; [|split]]; cbn [half_round fst snd].
  - now rewrite length_map2, length_swap, length_map2, Hl, Hh.
  - apply length_swap.
  - apply map2_words; auto with word; apply swap_words, words_map; auto with word.
  - now apply swap_words.
Qed.

Lemma map2_add_inj lo h1 h2 :
  length lo = length h1 -> length lo = length h2 -> words 32 h1 -> words 32 h2 ->
  map2 (fun a b => T32 (a + b)) lo h1 = map2 (fun a b => T32 (a + b)) lo h2 -> h1 = h2.
Proof.
  revert h1 h2; induction lo as [|a lo IH]; intros [|b1 h1] [|b2 h2]; try discriminate; auto.
  intros E1 E2 W1 W2 E; inversion W1; inversion W2; subst; injection E as E E'.
  f_equal; [apply (trunc_add_inj 32 a) | apply IH]; auto; lia.
Qed.

Lemma map2_lxor_inj h l1 l2 :
  length l1 = length h -> length l2 = length h ->
  map2 Z.lxor l1 h = map2 Z.lxor l2 h -> l1 = l2.
Proof.
  revert l1 l2; induction h as [|a h IH]; intros [|b1 l1] [|b2 l2]; try discriminate; auto.
  intros E1 E2 E; injection E as E E'; f_equal; [|apply IH; auto].
  apply (lxor_inj a); now rewrite !(Z.lxor_comm a).
Qed.

Lemma map_rotl_inj r l1 l2 :
  0 <= r <= 32 -> words 32 l1 -> words 32 l2 ->
  map (fun a => ROTL32 a r) l1 = map (fun a => ROTL32 a r) l2 -> l1 = l2.
Proof.
  intros Hr W; revert l2; induction W; intros [|b l2] W2 E; try discriminate; auto.
  inversion W2; subst; injection E as E E'; f_equal; [|now apply IHW].
  apply (rotl_inj 32 _ _ r); auto; lia.
Qed.

Lemma half_round_inj r k1 k2 s t :
  0 <= r <= 32 -> In k1 [1; 2; 4; 8]%nat -> In k2 [1; 2; 4; 8]%nat ->
  half_ok s -> half_ok t -> half_round r k1 k2 s = half_round r k1 k2 t -> s = t.
Proof.
  intros Hr Hk1 Hk2; destruct s as [lo hi], t as [lo' hi'].
  intros (Hl & Hh & Wl & Wh) (Hl' & Hh' & Wl' & Wh') E; cbn [fst snd half_round] in *.
  apply pair_equal_spec in E as [Elo Ehi].
  apply (f_equal (swap k2)) in Ehi.
  rewrite !swap_swap in Ehi by (rewrite ?length_map2; lia || assumption).
  rewrite <- Ehi in Elo; apply map2_lxor_inj in Elo;
    [| rewrite length_swap, length_map2; lia ..].
  apply (f_equal (swap k1)) in Elo.
  rewrite !swap_swap in Elo by (rewrite ?length_map; assumption).
  apply map_rotl_inj in Elo; auto; subst lo'.
  apply map2_add_inj in Ehi; auto; try lia; now subst.
Qed.

Lemma cube_round_ok s : half_ok s -> half_ok (cube_round s).
Proof. intros; unfold cube_round; now do 2 apply half_round_ok. Qed.

Lemma cube_round_inj s t : half_ok s -> half_ok t -> cube_round s = cube_round t -> s = t.
Proof.
  unfold cube_round; intros Hs Ht E.
  apply half_round_inj in E; try apply half_round_ok; cbn; auto; try lia.
  apply half_round_inj in E; cbn; auto; lia.
Qed.

Definition xvars_ok (s : xvars) : Prop := words 32 (WRITE_STATE s).

Lemma halves_ok s : xvars_ok s -> half_ok (halves s).
Proof.
  intros H; split; [|split; [|split]]; try (destruct s; reflexivity).
  - apply words_firstn, H.
  - apply words_skipn, H.
Qed.

Lemma halves_ok_inv s : half_ok (halves s) -> xvars_ok s.
Proof. intros (_ & _ & H1 & H2); unfold xvars_ok; rewrite WRITE_halves; now apply words_app. Qed.

Lemma SIXTEEN_ROUNDS_ok s : xvars_ok s -> xvars_ok (SIXTEEN_ROUNDS s).
Proof.
  intros H; apply halves_ok_inv; rewrite halves_sixteen.
  apply iter_inv; [apply cube_round_ok | now apply halves_ok].
Qed.

(** ** Update and close *)

Definition read_ctx : cubehash_context -> sctx xvars := ctx_map READ_STATE.

Lemma cubehash_core_sim c data :
  read_ctx (cubehash_core c data) = core 32 cubehash_process (read_ctx c) data.
Proof.
  unfold cubehash_core, core, read_ctx; cbn [ctx_map ptr buf st].
  destruct (_ <? _)%nat; [reflexivity|].
  destruct (core_loop _ _ _ _ _ _ _) as [b p s]; unfold ctx_map; cbn [buf ptr st]; now rewrite READ_WRITE.
Qed.

Lemma process_local32 b s :
  length b = 32%nat -> cubehash_process (firstn 32 b) s = cubehash_process b s.
Proof. intros H; now rewrite firstn_all2 by lia. Qed.

Lemma INPUT_BLOCK_spec b s :
  WRITE_STATE (INPUT_BLOCK b s)
  = map2 Z.lxor (firstn 8 (WRITE_STATE s)) (read_words sph_dec32le 4 8 b) ++ skipn 8 (WRITE_STATE s).
Proof. destruct s; reflexivity. Qed.

Lemma process_spec b s : WRITE_STATE (cubehash_process b s) = cube_block b (WRITE_STATE s).
Proof.
  unfold cubehash_process, cube_block; rewrite SIXTEEN_ROUNDS_spec, INPUT_BLOCK_spec; reflexivity.
Qed.

Lemma xor_xv_spec s :
  WRITE_STATE (xor_xv s) = firstn 31 (WRITE_STATE s) ++ [nth 31 (WRITE_STATE s) 0 .^ 1].
Proof. destruct s; reflexivity. Qed.

Lemma close_rounds_spec s :
  close_rounds 11 0 s = iter 10 SIXTEEN_ROUNDS (xor_xv (SIXTEEN_ROUNDS s)).
Proof. reflexivity. Qed.

Lemma sixteen_many n s :
  WRITE_STATE (iter n SIXTEEN_ROUNDS s) = cube_rounds (16 * n) (WRITE_STATE s).
Proof.
  assert (E : halves (iter n SIXTEEN_ROUNDS s) = iter (16 * n) cube_round (halves s)).
  { revert s; induction n as [|n IH]; intros s; [reflexivity|].
    replace (16 * S n)%nat with (16 + 16 * n)%nat by lia.
    now rewrite iter_plus, <- halves_sixteen, <- IH. }
  rewrite WRITE_halves, E; unfold cube_rounds; fold (halves s).
  now destruct (iter _ cube_round (halves s)).
Qed.

Definition half_len (s : list Z * list Z) : Prop :=
  length (fst s) = 16%nat /\ length (snd s) = 16%nat.

Lemma half_round_len r k1 k2 s : half_len s -> half_len (half_round r k1 k2 s).
Proof.
  destruct s as [lo hi]; intros [H1 H2]; cbn [fst snd] in *; split; cbn [half_round fst snd].
  - now rewrite length_map2, length_swap, length_map2, H1, H2.
  - apply length_swap.
Qed.

Lemma length_cube_rounds n s : length s = 32%nat -> length (cube_rounds n s) = 32%nat.
Proof.
  intros H; unfold cube_rounds.
  assert (Hi : half_len (iter n cube_round (firstn 16 s, skipn 16 s))).
  { apply iter_inv.
    - intros; unfold cube_round; now do 2 apply half_round_len.
    - split; cbn [fst snd]; rewrite ?length_firstn, ?length_skipn; lia. }
  destruct (iter n cube_round _), Hi; cbn [fst snd] in *; rewrite length_app; lia.
Qed.

Lemma length_cube_iv h : length (cube_iv h) = 32%nat.
Proof. unfold cube_iv; apply length_cube_rounds; reflexivity. Qed.

Lemma WRITE_READ l : length l = 32%nat -> WRITE_STATE (READ_STATE l) = l.
Proof.
  intros L; do 32 (destruct l as [|? l]; [discriminate|]); destruct l; [reflexivity|discriminate].
Qed.

#[local] Opaque cube_rounds cube_iv.

(** The digest written by [cubehash_close] after any sequence of updates. *)
Lemma cubehash_close_spec h c chunks :
  (h <= 16)%nat -> length (buf c) = 32%nat -> st c = cube_iv (32 * Z.of_nat h) -> ptr c = 0%nat ->
  snd (cubehash_close (fold_left cubehash_core chunks c) 0 0 h)
  = cubehash_spec (32 * Z.of_nat h) (concat chunks)
  /\ length (buf (fst (cubehash_close (fold_left cubehash_core chunks c) 0 0 h))) = 32%nat.
Proof.
  intros Hh Hb Hs Hp.
  pose proof (core_many_refines 32 cubehash_process ltac:(lia) 32 ltac:(lia) process_local32
                chunks (read_ctx c)) as Hr.
  rewrite <- (fold_left_sim read_ctx cubehash_core) in Hr by apply cubehash_core_sim.
  destruct Hr as [[Hl Hlt] Ha]; [split; cbn; lia|].
  set (d := fold_left cubehash_core chunks c) in *; cbn [read_ctx ctx_map buf ptr st] in Hl, Hlt.
  unfold ctx_abs in Ha; cbn [read_ctx ctx_map buf ptr st fst snd] in Ha.
  rewrite Hp, Hs, firstn_O, app_nil_l in Ha.
  unfold cubehash_close; cbn [fst snd buf].
  replace (((0 .& T32 (- (0x80 >> 0))) .| (0x80 >> 0)) .& 0xFF) with 0x80 by reflexivity.
  rewrite pad_buffer by assumption.
  split; [|rewrite length_app, length_firstn; cbn [length]; rewrite repeat_length; lia].
  rewrite flat_map_nth by (destruct (close_rounds _ _ _); cbn; lia).
  unfold cubehash_spec; rewrite Z.mul_comm, Z.div_mul, Nat2Z.id, Z.mul_comm by lia.
  do 2 f_equal; rewrite close_rounds_spec, sixteen_many; f_equal.
  rewrite xor_xv_spec; rewrite absorb_pad10 by lia.
  pose proof (WRITE_READ _ (length_cube_iv (32 * Z.of_nat h))) as Hw.
  rewrite <- Hw, (absorb_map WRITE_STATE 32 cubehash_process cube_block)
    by (lia || intros; apply process_spec).
  rewrite <- Ha; cbn [fst snd].
  replace (32 - 1 - length (firstn (ptr d) (buf d)))%nat with (32 - S (ptr d))%nat
    by (rewrite length_firstn; lia).
  rewrite <- process_spec; unfold cubehash_process; reflexivity.
Qed.

Lemma IV_tables :
  IV224 = cube_iv 224 /\ IV256 = cube_iv 256 /\ IV384 = cube_iv 384 /\ IV512 = cube_iv 512.
Proof. split; [|split; [|split]]; vm_compute; reflexivity. Qed.

(** Init, any updates, close: the digest, and the buffer keeps its size. *)
Lemma cubehash_run_spec (h : Z) (iv : list Z) (n : nat) (c : cubehash_context) chunks :
  (n <= 16)%nat -> h = 32 * Z.of_nat n -> length (buf c) = 32%nat -> iv = cube_iv h ->
  let r := cubehash_close (fold_left cubehash_core chunks (cubehash_init c iv)) 0 0 n in
  snd r = cubehash_spec h (concat chunks)
  /\ length (buf (fst r)) = 32%nat.
Proof. intros Hn -> Hb ->; now apply cubehash_close_spec. Qed.

Lemma length_sph_enc32le x : length (sph_enc32le x) = 4%nat.
Proof. reflexivity. Qed.

Lemma length_cubehash_close c ub n k : length (snd (cubehash_close c ub n k)) = (4 * k)%nat.
Proof.
  unfold cubehash_close; cbn [snd].
  now rewrite (length_flat_map_const _ 4), length_seq by reflexivity.
Qed.

Lemma length_cubehash_spec n m :
  (n <= 16)%nat -> length (cubehash_spec (32 * Z.of_nat n) m) = (4 * n)%nat.
Proof.
  intros Hn.
  destruct (cubehash_run_spec _ (cube_iv (32 * Z.of_nat n)) n (Ctx (repeat 0 32) 0 []) [m] Hn
              eq_refl eq_refl eq_refl) as [E _].
  cbn [concat] in E; rewrite app_nil_r in E; rewrite <- E; apply length_cubehash_close.
Qed.

Lemma cubehash_spec_bytes h m : words 8 (cubehash_spec h m).
Proof. unfold cubehash_spec; apply words_flat_map; auto with word. Qed.

(** ** Properties *)

(** The macros of every SPH_CUBEHASH_UNROLL setting compute sixteen rounds of
    the CubeHash round function. *)
Theorem cubehash_rounds_correct (s : xvars) :
  WRITE_STATE (SIXTEEN_ROUNDS s) = cube_rounds 16 (WRITE_STATE s)
  /\ SIXTEEN_ROUNDS_unroll2 s = SIXTEEN_ROUNDS s
  /\ SIXTEEN_ROUNDS_unroll4 s = SIXTEEN_ROUNDS s
  /\ SIXTEEN_ROUNDS_unroll8 s = SIXTEEN_ROUNDS s.
Proof. split; [apply SIXTEEN_ROUNDS_spec | repeat split]. Qed.

(** The sixteen rounds are injective on states of 32-bit words, and keep
    every word inside 32 bits: the state transformation is a permutation. *)
Theorem cubehash_permutation (s t : xvars) :
  xvars_ok s -> xvars_ok t -> SIXTEEN_ROUNDS s = SIXTEEN_ROUNDS t ->
  s = t /\ xvars_ok (SIXTEEN_ROUNDS s).
Proof.
  intros Hs Ht E; split; [|now apply SIXTEEN_ROUNDS_ok].
  apply halves_inj; apply (f_equal halves) in E; rewrite !halves_sixteen in E.
  eapply (iter_inj half_ok); eauto using cube_round_ok, cube_round_inj, halves_ok.
Qed.

Lemma cubehash_permutation_witness :
  let s := READ_STATE IV512 in let t := READ_STATE IV512 in
  s = t /\ xvars_ok (SIXTEEN_ROUNDS s).
Proof.
  cbv zeta; apply cubehash_permutation; [words_dec | words_dec | reflexivity].
Defined.

(** What [close] leaves behind is a context [init] would leave as it is: its
    pointer and state are those of a new computation. *)
Definition reinitialised (init : cubehash_context -> cubehash_context) (c : cubehash_context) : Prop :=
  c = init c /\ ptr c = 0%nat /\ length (buf c) = 32%nat.

Lemma buf_init512 c : buf (sph_cubehash512_init c) = buf c.
Proof. reflexivity. Qed.

(** Any close followed by the [init] of its variant. *)
Lemma close_init (init : cubehash_context -> cubehash_context) (p : cubehash_context * list Z) d :
  (forall c, init (init c) = init c) -> (forall c, ptr (init c) = 0%nat) -> (forall c, buf (init c) = buf c) ->
  snd p = d /\ length (buf (fst p)) = 32%nat -> snd p = d /\ reinitialised init (init (fst p)).
Proof.
  intros H1 H2 H3 [E B]; split; [exact E|]; split; [now rewrite H1 | split; [apply H2 | now rewrite H3]].
Qed.

(** C18: Whatever the context held before [init], and however the message is cut
    into chunks, the four variants return the CubeHash16/32 digest of the
    message (initial state derived from the parameters), and each [close]
    leaves its context ready for another computation of the same variant. *)
Theorem cubehash_correct (c : cubehash_context) (chunks : list (list Z)) :
  length (buf c) = 32%nat ->
  let m := concat chunks in
  let run224 := sph_cubehash224_close (fold_left sph_cubehash224 chunks (sph_cubehash224_init c)) in
  let run256 := sph_cubehash256_close (fold_left sph_cubehash256 chunks (sph_cubehash256_init c)) in
  let run384 := sph_cubehash384_close (fold_left sph_cubehash384 chunks (sph_cubehash384_init c)) in
  let run512 := sph_cubehash512_close (fold_left sph_cubehash512 chunks (sph_cubehash512_init c)) in
  (fst run224 = cubehash_spec 224 m /\ reinitialised sph_cubehash224_init (snd run224))
  /\ (fst run256 = cubehash_spec 256 m /\ reinitialised sph_cubehash256_init (snd run256))
  /\ (fst run384 = cubehash_spec 384 m /\ reinitialised sph_cubehash384_init (snd run384))
  /\ (fst run512 = cubehash_spec 512 m /\ reinitialised sph_cubehash512_init (snd run512)).
Proof.
  intros Hb m run224 run256 run384 run512; destruct IV_tables as (E1 & E2 & E3 & E4).
  unfold run224, run256, run384, run512, sph_cubehash224_close, sph_cubehash256_close, sph_cubehash384_close,
    sph_cubehash512_close, sph_cubehash224_addbits_and_close, sph_cubehash256_addbits_and_close,
    sph_cubehash384_addbits_and_close, sph_cubehash512_addbits_and_close.
  rewrite !let_pair_fst; cbn [fst snd].
  split; [|split; [|split]].
  - apply (close_init sph_cubehash224_init); [reflexivity .. |]; exact (cubehash_run_spec 224 IV224 7 c chunks ltac:(lia) eq_refl Hb E1).
  - apply (close_init sph_cubehash256_init); [reflexivity .. |]; exact (cubehash_run_spec 256 IV256 8 c chunks ltac:(lia) eq_refl Hb E2).
  - apply (close_init sph_cubehash384_init); [reflexivity .. |]; exact (cubehash_run_spec 384 IV384 12 c chunks ltac:(lia) eq_refl Hb E3).
  - apply (close_init sph_cubehash512_init); [reflexivity .. |]; exact (cubehash_run_spec 512 IV512 16 c chunks ltac:(lia) eq_refl Hb E4).
Qed.

Lemma cubehash_correct_witness :
  let c := Ctx (repeat 0xAA 32) 5 [] in
  let chunks := [[1; 2; 3]; repeat 7 70; [9]] in
  fst (sph_cubehash224_close (fold_left sph_cubehash224 chunks (sph_cubehash224_init c)))
    = cubehash_spec 224 (concat chunks).
Proof.
  intros c chunks; exact (proj1 (proj1 (cubehash_correct c chunks eq_refl))).
Defined.

(** CubeHash16/32-512 behind the common interface. *)
#[export, refine] Instance cubehash512_hash : StreamHash := {|
  hctx := cubehash_context;
  hctx_ok c := length (buf c) = 32%nat;
  hinit := sph_cubehash512_init;
  hupdate := sph_cubehash512;
  hclose := sph_cubehash512_close;
  hlen := 64;
  digest := cubehash_spec 512
|}.
Proof.
  - intros c H; exact H.
  - intros c chunks H _ _; unfold sph_cubehash512_close, sph_cubehash512_addbits_and_close.
    rewrite let_pair_fst; cbn [fst snd].
    rewrite buf_init512.
    refine (cubehash_run_spec 512 IV512 16 c chunks _ eq_refl H _); [lia | apply IV_tables].
  - intros m; refine (length_cubehash_spec 16 m _); lia.
  - intros m; apply cubehash_spec_bytes.
Defined.
