(* ===== verification/Keccak.v ===== *)
(** * Keccak: model of keccak.c (64-bit code)

    The state is the array [wide] of 25 lanes.  A round macro of the source
    is applied to a permuted list of lane names ([P0] ... [P23]) instead of
    moving the lanes, and works on lanes some of which are complemented
    (the "lane complement" of the [KHI] macro).  The macros are functions
    on the list of their 25 arguments; [at_lanes] applies such a function
    to the lanes that an argument list names.  All the unrolling settings
    of the source are modelled. *)

From Stdlib Require Import ZArith List Lia Bool.
From S2P Require Import Prelude SphTypes Stream.
Import ListNotations.

Open Scope Z_scope.
Open Scope word_scope.

Definition XOR64 (a b : Z) : Z := a .^ b.
Definition AND64 (a b : Z) : Z := a .& b.
Definition OR64 (a b : Z) : Z := a .| b.
Definition NOT64 (s : Z) : Z := SPH_T64 (Z.lnot s).
Definition ROL64 (v n : Z) : Z := SPH_ROTL64 v n.

Definition RC : list Z :=
  [0x0000000000000001; 0x0000000000008082; 0x800000000000808A;
   0x8000000080008000; 0x000000000000808B; 0x0000000080000001;
   0x8000000080008081; 0x8000000000008009; 0x000000000000008A;
   0x0000000000000088; 0x0000000080008009; 0x000000008000000A;
   0x000000008000808B; 0x800000000000008B; 0x8000000000008089;
   0x8000000000008003; 0x8000000000008002; 0x8000000000000080;
   0x000000000000800A; 0x800000008000000A; 0x8000000080008081;
   0x8000000000008080; 0x0000000080000001; 0x8000000080008008].

(** The lane names are positions of the [wide] array. *)
#[local] Abbreviation a00 := 0%nat.
#[local] Abbreviation a10 := 1%nat.
#[local] Abbreviation a20 := 2%nat.
#[local] Abbreviation a30 := 3%nat.
#[local] Abbreviation a40 := 4%nat.
#[local] Abbreviation a01 := 5%nat.
#[local] Abbreviation a11 := 6%nat.
#[local] Abbreviation a21 := 7%nat.
#[local] Abbreviation a31 := 8%nat.
#[local] Abbreviation a41 := 9%nat.
#[local] Abbreviation a02 := 10%nat.
#[local] Abbreviation a12 := 11%nat.
#[local] Abbreviation a22 := 12%nat.
#[local] Abbreviation a32 := 13%nat.
#[local] Abbreviation a42 := 14%nat.
#[local] Abbreviation a03 := 15%nat.
#[local] Abbreviation a13 := 16%nat.
#[local] Abbreviation a23 := 17%nat.
#[local] Abbreviation a33 := 18%nat.
#[local] Abbreviation a43 := 19%nat.
#[local] Abbreviation a04 := 20%nat.
#[local] Abbreviation a14 := 21%nat.
#[local] Abbreviation a24 := 22%nat.
#[local] Abbreviation a34 := 23%nat.
#[local] Abbreviation a44 := 24%nat.

Definition TH_ELT (c0 c1 c2 c3 c4 d0 d1 d2 d3 d4 : Z) : Z :=
  let tt0 := XOR64 d0 d1 in
  let tt1 := XOR64 d2 d3 in
  let tt0 := XOR64 tt0 d4 in
  let tt0 := XOR64 tt0 tt1 in
  let tt0 := ROL64 tt0 1 in
  let tt2 := XOR64 c0 c1 in
  let tt3 := XOR64 c2 c3 in
  let tt0 := XOR64 tt0 c4 in
  let tt2 := XOR64 tt2 tt3 in
  XOR64 tt0 tt2.

Definition THETA (b : list Z) : list Z :=
  match b with
  | [b00; b01; b02; b03; b04; b10; b11; b12; b13; b14;
     b20; b21; b22; b23; b24; b30; b31; b32; b33; b34;
     b40; b41; b42; b43; b44] =>
      let t0 := TH_ELT b40 b41 b42 b43 b44 b10 b11 b12 b13 b14 in
      let t1 := TH_ELT b00 b01 b02 b03 b04 b20 b21 b22 b23 b24 in
      let t2 := TH_ELT b10 b11 b12 b13 b14 b30 b31 b32 b33 b34 in
      let t3 := TH_ELT b20 b21 b22 b23 b24 b40 b41 b42 b43 b44 in
      let t4 := TH_ELT b30 b31 b32 b33 b34 b00 b01 b02 b03 b04 in
      let b00 := XOR64 b00 t0 in
      let b01 := XOR64 b01 t0 in
      let b02 := XOR64 b02 t0 in
      let b03 := XOR64 b03 t0 in
      let b04 := XOR64 b04 t0 in
      let b10 := XOR64 b10 t1 in
      let b11 := XOR64 b11 t1 in
      let b12 := XOR64 b12 t1 in
      let b13 := XOR64 b13 t1 in
      let b14 := XOR64 b14 t1 in
      let b20 := XOR64 b20 t2 in
      let b21 := XOR64 b21 t2 in
      let b22 := XOR64 b22 t2 in
      let b23 := XOR64 b23 t2 in
      let b24 := XOR64 b24 t2 in
      let b30 := XOR64 b30 t3 in
      let b31 := XOR64 b31 t3 in
      let b32 := XOR64 b32 t3 in
      let b33 := XOR64 b33 t3 in
      let b34 := XOR64 b34 t3 in
      let b40 := XOR64 b40 t4 in
      let b41 := XOR64 b41 t4 in
      let b42 := XOR64 b42 t4 in
      let b43 := XOR64 b43 t4 in
      let b44 := XOR64 b44 t4 in
      [b00; b01; b02; b03; b04; b10; b11; b12; b13; b14;
       b20; b21; b22; b23; b24; b30; b31; b32; b33; b34;
       b40; b41; b42; b43; b44]
  | _ => b
  end.

Definition RHO (b : list Z) : list Z :=
  match b with
  | [b00; b01; b02; b03; b04; b10; b11; b12; b13; b14;
     b20; b21; b22; b23; b24; b30; b31; b32; b33; b34;
     b40; b41; b42; b43; b44] =>
      let b01 := ROL64 b01 36 in let b02 := ROL64 b02 3 in
      let b03 := ROL64 b03 41 in let b04 := ROL64 b04 18 in
      let b10 := ROL64 b10 1 in let b11 := ROL64 b11 44 in
      let b12 := ROL64 b12 10 in let b13 := ROL64 b13 45 in
      let b14 := ROL64 b14 2 in let b20 := ROL64 b20 62 in
      let b21 := ROL64 b21 6 in let b22 := ROL64 b22 43 in
      let b23 := ROL64 b23 15 in let b24 := ROL64 b24 61 in
      let b30 := ROL64 b30 28 in let b31 := ROL64 b31 55 in
      let b32 := ROL64 b32 25 in let b33 := ROL64 b33 21 in
      let b34 := ROL64 b34 56 in let b40 := ROL64 b40 27 in
      let b41 := ROL64 b41 20 in let b42 := ROL64 b42 39 in
      let b43 := ROL64 b43 8 in let b44 := ROL64 b44 14 in
      [b00; b01; b02; b03; b04; b10; b11; b12; b13; b14;
       b20; b21; b22; b23; b24; b30; b31; b32; b33; b34;
       b40; b41; b42; b43; b44]
  | _ => b
  end.

Definition KHI_XO (a b c : Z) : Z :=
  let kt := OR64 b c in XOR64 a kt.

Definition KHI_XA (a b c : Z) : Z :=
  let kt := AND64 b c in XOR64 a kt.

Definition KHI (b : list Z) : list Z :=
  match b with
  | [b00; b01; b02; b03; b04; b10; b11; b12; b13; b14;
     b20; b21; b22; b23; b24; b30; b31; b32; b33; b34;
     b40; b41; b42; b43; b44] =>
      let bnn := NOT64 b20 in
      let c0 := KHI_XO b00 b10 b20 in
      let c1 := KHI_XO b10 bnn b30 in
      let c2 := KHI_XA b20 b30 b40 in
      let c3 := KHI_XO b30 b40 b00 in
      let c4 := KHI_XA b40 b00 b10 in
      let b00 := c0 in
      let b10 := c1 in
      let b20 := c2 in
      let b30 := c3 in
      let b40 := c4 in
      let bnn := NOT64 b41 in
      let c0 := KHI_XO b01 b11 b21 in
      let c1 := KHI_XA b11 b21 b31 in
      let c2 := KHI_XO b21 b31 bnn in
      let c3 := KHI_XO b31 b41 b01 in
      let c4 := KHI_XA b41 b01 b11 in
      let b01 := c0 in
      let b11 := c1 in
      let b21 := c2 in
      let b31 := c3 in
      let b41 := c4 in
      let bnn := NOT64 b32 in
      let c0 := KHI_XO b02 b12 b22 in
      let c1 := KHI_XA b12 b22 b32 in
      let c2 := KHI_XA b22 bnn b42 in
      let c3 := KHI_XO bnn b42 b02 in
      let c4 := KHI_XA b42 b02 b12 in
      let b02 := c0 in
      let b12 := c1 in
      let b22 := c2 in
      let b32 := c3 in
      let b42 := c4 in
      let bnn := NOT64 b33 in
      let c0 := KHI_XA b03 b13 b23 in
      let c1 := KHI_XO b13 b23 b33 in
      let c2 := KHI_XO b23 bnn b43 in
      let c3 := KHI_XA bnn b43 b03 in
      let c4 := KHI_XO b43 b03 b13 in
      let b03 := c0 in
      let b13 := c1 in
      let b23 := c2 in
      let b33 := c3 in
      let b43 := c4 in
      let bnn := NOT64 b14 in
      let c0 := KHI_XA b04 bnn b24 in
      let c1 := KHI_XO bnn b24 b34 in
      let c2 := KHI_XA b24 b34 b44 in
      let c3 := KHI_XO b34 b44 b04 in
      let c4 := KHI_XA b44 b04 b14 in
      let b04 := c0 in
      let b14 := c1 in
      let b24 := c2 in
      let b34 := c3 in
      let b44 := c4 in
      [b00; b01; b02; b03; b04; b10; b11; b12; b13; b14;
       b20; b21; b22; b23; b24; b30; b31; b32; b33; b34;
       b40; b41; b42; b43; b44]
  | _ => b
  end.

Definition IOTA (r : Z) (a : list Z) : list Z := upd a a00 (XOR64 (nth a00 a 0) r).

Definition P0 : list nat :=
  [a00; a01; a02; a03; a04; a10; a11; a12; a13; a14; a20; a21; a22;
   a23; a24; a30; a31; a32; a33; a34; a40; a41; a42; a43; a44].
Definition P1 : list nat :=
  [a00; a30; a10; a40; a20; a11; a41; a21; a01; a31; a22; a02; a32;
   a12; a42; a33; a13; a43; a23; a03; a44; a24; a04; a34; a14].
Definition P2 : list nat :=
  [a00; a33; a11; a44; a22; a41; a24; a02; a30; a13; a32; a10; a43;
   a21; a04; a23; a01; a34; a12; a40; a14; a42; a20; a03; a31].
Definition P3 : list nat :=
  [a00; a23; a41; a14; a32; a24; a42; a10; a33; a01; a43; a11; a34;
   a02; a20; a12; a30; a03; a21; a44; a31; a04; a22; a40; a13].
Definition P4 : list nat :=
  [a00; a12; a24; a31; a43; a42; a04; a11; a23; a30; a34; a41; a03;
   a10; a22; a21; a33; a40; a02; a14; a13; a20; a32; a44; a01].
Definition P5 : list nat :=
  [a00; a21; a42; a13; a34; a04; a20; a41; a12; a33; a03; a24; a40;
   a11; a32; a02; a23; a44; a10; a31; a01; a22; a43; a14; a30].
Definition P6 : list nat :=
  [a00; a02; a04; a01; a03; a20; a22; a24; a21; a23; a40; a42; a44;
   a41; a43; a10; a12; a14; a11; a13; a30; a32; a34; a31; a33].
Definition P7 : list nat :=
  [a00; a10; a20; a30; a40; a22; a32; a42; a02; a12; a44; a04; a14;
   a24; a34; a11; a21; a31; a41; a01; a33; a43; a03; a13; a23].
Definition P8 : list nat :=
  [a00; a11; a22; a33; a44; a32; a43; a04; a10; a21; a14; a20; a31;
   a42; a03; a41; a02; a13; a24; a30; a23; a34; a40; a01; a12].
Definition P9 : list nat :=
  [a00; a41; a32; a23; a14; a43; a34; a20; a11; a02; a31; a22; a13;
   a04; a40; a24; a10; a01; a42; a33; a12; a03; a44; a30; a21].
Definition P10 : list nat :=
  [a00; a24; a43; a12; a31; a34; a03; a22; a41; a10; a13; a32; a01;
   a20; a44; a42; a11; a30; a04; a23; a21; a40; a14; a33; a02].
Definition P11 : list nat :=
  [a00; a42; a34; a21; a13; a03; a40; a32; a24; a11; a01; a43; a30;
   a22; a14; a04; a41; a33; a20; a12; a02; a44; a31; a23; a10].
Definition P12 : list nat :=
  [a00; a04; a03; a02; a01; a40; a44; a43; a42; a41; a30; a34; a33;
   a32; a31; a20; a24; a23; a22; a21; a10; a14; a13; a12; a11].
Definition P13 : list nat :=
  [a00; a20; a40; a10; a30; a44; a14; a34; a04; a24; a33; a03; a23;
   a43; a13; a22; a42; a12; a32; a02; a11; a31; a01; a21; a41].
Definition P14 : list nat :=
  [a00; a22; a44; a11; a33; a14; a31; a03; a20; a42; a23; a40; a12;
   a34; a01; a32; a04; a21; a43; a10; a41; a13; a30; a02; a24].
Definition P15 : list nat :=
  [a00; a32; a14; a41; a23; a31; a13; a40; a22; a04; a12; a44; a21;
   a03; a30; a43; a20; a02; a34; a11; a24; a01; a33; a10; a42].
Definition P16 : list nat :=
  [a00; a43; a31; a24; a12; a13; a01; a44; a32; a20; a21; a14; a02;
   a40; a33; a34; a22; a10; a03; a41; a42; a30; a23; a11; a04].
Definition P17 : list nat :=
  [a00; a34; a13; a42; a21; a01; a30; a14; a43; a22; a02; a31; a10;
   a44; a23; a03; a32; a11; a40; a24; a04; a33; a12; a41; a20].
Definition P18 : list nat :=
  [a00; a03; a01; a04; a02; a30; a33; a31; a34; a32; a10; a13; a11;
   a14; a12; a40; a43; a41; a44; a42; a20; a23; a21; a24; a22].
Definition P19 : list nat :=
  [a00; a40; a30; a20; a10; a33; a23; a13; a03; a43; a11; a01; a41;
   a31; a21; a44; a34; a24; a14; a04; a22; a12; a02; a42; a32].
Definition P20 : list nat :=
  [a00; a44; a33; a22; a11; a23; a12; a01; a40; a34; a41; a30; a24;
   a13; a02; a14; a03; a42; a31; a20; a32; a21; a10; a04; a43].
Definition P21 : list nat :=
  [a00; a14; a23; a32; a41; a12; a21; a30; a44; a03; a24; a33; a42;
   a01; a10; a31; a40; a04; a13; a22; a43; a02; a11; a20; a34].
Definition P22 : list nat :=
  [a00; a31; a12; a43; a24; a21; a02; a33; a14; a40; a42; a23; a04;
   a30; a11; a13; a44; a20; a01; a32; a34; a10; a41; a22; a03].
Definition P23 : list nat :=
  [a00; a13; a21; a34; a42; a02; a10; a23; a31; a44; a04; a12; a20;
   a33; a41; a01; a14; a22; a30; a43; a03; a11; a24; a32; a40].

Definition P1_TO_P0 (a : list Z) : list Z :=
  match a with
  | [l00; l10; l20; l30; l40; l01; l11; l21; l31; l41;
     l02; l12; l22; l32; l42; l03; l13; l23; l33; l43;
     l04; l14; l24; l34; l44] =>
      let t := l01 in let l01 := l30 in let l30 := l33 in
      let l33 := l23 in let l23 := l12 in let l12 := l21 in
      let l21 := l02 in let l02 := l10 in let l10 := l11 in
      let l11 := l41 in let l41 := l24 in let l24 := l42 in
      let l42 := l04 in let l04 := l20 in let l20 := l22 in
      let l22 := l32 in let l32 := l43 in let l43 := l34 in
      let l34 := l03 in let l03 := l40 in let l40 := l44 in
      let l44 := l14 in let l14 := l31 in let l31 := l13 in
      let l13 := t in
      [l00; l10; l20; l30; l40; l01; l11; l21; l31; l41;
       l02; l12; l22; l32; l42; l03; l13; l23; l33; l43;
       l04; l14; l24; l34; l44]
  | _ => a
  end.

Definition P2_TO_P0 (a : list Z) : list Z :=
  match a with
  | [l00; l10; l20; l30; l40; l01; l11; l21; l31; l41;
     l02; l12; l22; l32; l42; l03; l13; l23; l33; l43;
     l04; l14; l24; l34; l44] =>
      let t := l01 in let l01 := l33 in let l33 := l12 in
      let l12 := l02 in let l02 := l11 in let l11 := l24 in
      let l24 := l04 in let l04 := l22 in let l22 := l43 in
      let l43 := l03 in let l03 := l44 in let l44 := l31 in
      let l31 := t in let t := l10 in let l10 := l41 in
      let l41 := l42 in let l42 := l20 in let l20 := l32 in
      let l32 := l34 in let l34 := l40 in let l40 := l14 in
      let l14 := l13 in let l13 := l30 in let l30 := l23 in
      let l23 := l21 in let l21 := t in
      [l00; l10; l20; l30; l40; l01; l11; l21; l31; l41;
       l02; l12; l22; l32; l42; l03; l13; l23; l33; l43;
       l04; l14; l24; l34; l44]
  | _ => a
  end.

Definition P4_TO_P0 (a : list Z) : list Z :=
  match a with
  | [l00; l10; l20; l30; l40; l01; l11; l21; l31; l41;
     l02; l12; l22; l32; l42; l03; l13; l23; l33; l43;
     l04; l14; l24; l34; l44] =>
      let t := l01 in let l01 := l12 in let l12 := l11 in
      let l11 := l04 in let l04 := l43 in let l43 := l44 in
      let l44 := t in let t := l02 in let l02 := l24 in
      let l24 := l22 in let l22 := l03 in let l03 := l31 in
      let l31 := l33 in let l33 := t in let t := l10 in
      let l10 := l42 in let l42 := l32 in let l32 := l40 in
      let l40 := l13 in let l13 := l23 in let l23 := t in
      let t := l14 in let l14 := l30 in let l30 := l21 in
      let l21 := l41 in let l41 := l20 in let l20 := l34 in
      let l34 := t in
      [l00; l10; l20; l30; l40; l01; l11; l21; l31; l41;
       l02; l12; l22; l32; l42; l03; l13; l23; l33; l43;
       l04; l14; l24; l34; l44]
  | _ => a
  end.

Definition P6_TO_P0 (a : list Z) : list Z :=
  match a with
  | [l00; l10; l20; l30; l40; l01; l11; l21; l31; l41;
     l02; l12; l22; l32; l42; l03; l13; l23; l33; l43;
     l04; l14; l24; l34; l44] =>
      let t := l01 in let l01 := l02 in let l02 := l04 in
      let l04 := l03 in let l03 := t in let t := l10 in
      let l10 := l20 in let l20 := l40 in let l40 := l30 in
      let l30 := t in let t := l11 in let l11 := l22 in
      let l22 := l44 in let l44 := l33 in let l33 := t in
      let t := l12 in let l12 := l24 in let l24 := l43 in
      let l43 := l31 in let l31 := t in let t := l13 in
      let l13 := l21 in let l21 := l42 in let l42 := l34 in
      let l34 := t in let t := l14 in let l14 := l23 in
      let l23 := l41 in let l41 := l32 in let l32 := t in
      [l00; l10; l20; l30; l40; l01; l11; l21; l31; l41;
       l02; l12; l22; l32; l42; l03; l13; l23; l33; l43;
       l04; l14; l24; l34; l44]
  | _ => a
  end.

Definition P8_TO_P0 (a : list Z) : list Z :=
  match a with
  | [l00; l10; l20; l30; l40; l01; l11; l21; l31; l41;
     l02; l12; l22; l32; l42; l03; l13; l23; l33; l43;
     l04; l14; l24; l34; l44] =>
      let t := l01 in let l01 := l11 in let l11 := l43 in
      let l43 := t in let t := l02 in let l02 := l22 in
      let l22 := l31 in let l31 := t in let t := l03 in
      let l03 := l33 in let l33 := l24 in let l24 := t in
      let t := l04 in let l04 := l44 in let l44 := l12 in
      let l12 := t in let t := l10 in let l10 := l32 in
      let l32 := l13 in let l13 := t in let t := l14 in
      let l14 := l21 in let l21 := l20 in let l20 := t in
      let t := l23 in let l23 := l42 in let l42 := l40 in
      let l40 := t in let t := l30 in let l30 := l41 in
      let l41 := l34 in let l34 := t in
      [l00; l10; l20; l30; l40; l01; l11; l21; l31; l41;
       l02; l12; l22; l32; l42; l03; l13; l23; l33; l43;
       l04; l14; l24; l34; l44]
  | _ => a
  end.

Definition P12_TO_P0 (a : list Z) : list Z :=
  match a with
  | [l00; l10; l20; l30; l40; l01; l11; l21; l31; l41;
     l02; l12; l22; l32; l42; l03; l13; l23; l33; l43;
     l04; l14; l24; l34; l44] =>
      let t := l01 in let l01 := l04 in let l04 := t in
      let t := l02 in let l02 := l03 in let l03 := t in
      let t := l10 in let l10 := l40 in let l40 := t in
      let t := l11 in let l11 := l44 in let l44 := t in
      let t := l12 in let l12 := l43 in let l43 := t in
      let t := l13 in let l13 := l42 in let l42 := t in
      let t := l14 in let l14 := l41 in let l41 := t in
      let t := l20 in let l20 := l30 in let l30 := t in
      let t := l21 in let l21 := l34 in let l34 := t in
      let t := l22 in let l22 := l33 in let l33 := t in
      let t := l23 in let l23 := l32 in let l32 := t in
      let t := l24 in let l24 := l31 in let l31 := t in
      [l00; l10; l20; l30; l40; l01; l11; l21; l31; l41;
       l02; l12; l22; l32; l42; l03; l13; l23; l33; l43;
       l04; l14; l24; l34; l44]
  | _ => a
  end.
(** Macro application: [f] on the lanes that [P] names. *)
Definition read_lanes (P : list nat) (a : list Z) : list Z := map (fun i => nth i a 0) P.

Definition write_lanes (P : list nat) (v : list Z) (a : list Z) : list Z :=
  fold_left (fun a iv => upd a (fst iv) (snd iv)) (combine P v) a.

Definition at_lanes (P : list nat) (f : list Z -> list Z) (a : list Z) : list Z :=
  write_lanes P (f (read_lanes P a)) a.

Definition Ptab : list (list nat) :=
  [P0; P1; P2; P3; P4; P5; P6; P7; P8; P9; P10; P11;
   P12; P13; P14; P15; P16; P17; P18; P19; P20; P21; P22; P23].

Definition P (r : nat) : list nat := nth r Ptab P0.

Definition KF_ELT (r s : nat) (k : Z) (a : list Z) : list Z :=
  let a := at_lanes (P r) THETA a in
  let a := at_lanes (P r) RHO a in
  let a := at_lanes (P s) KHI a in
  IOTA k a.

Definition rc (i : nat) : Z := nth i RC 0.

(** [for (j = 0; j < 24; j += step)] *)
Definition for_rounds (step : nat) (body : nat -> list Z -> list Z) (a : list Z) : list Z :=
  fold_left (fun a i => body (step * i)%nat a) (seq 0 (24 / step)) a.

(** SPH_KECCAK_UNROLL == 8, the default. *)
Definition KECCAK_F_1600 (a : list Z) : list Z :=
  for_rounds 8 (fun j a =>
    let a := KF_ELT 0 1 (rc (j + 0)) a in
    let a := KF_ELT 1 2 (rc (j + 1)) a in
    let a := KF_ELT 2 3 (rc (j + 2)) a in
    let a := KF_ELT 3 4 (rc (j + 3)) a in
    let a := KF_ELT 4 5 (rc (j + 4)) a in
    let a := KF_ELT 5 6 (rc (j + 5)) a in
    let a := KF_ELT 6 7 (rc (j + 6)) a in
    let a := KF_ELT 7 8 (rc (j + 7)) a in
    P8_TO_P0 a) a.

Definition KECCAK_F_1600_unroll1 (a : list Z) : list Z :=
  for_rounds 1 (fun j a =>
    let a := KF_ELT 0 1 (rc (j + 0)) a in
    P1_TO_P0 a) a.

Definition KECCAK_F_1600_unroll2 (a : list Z) : list Z :=
  for_rounds 2 (fun j a =>
    let a := KF_ELT 0 1 (rc (j + 0)) a in
    let a := KF_ELT 1 2 (rc (j + 1)) a in
    P2_TO_P0 a) a.

Definition KECCAK_F_1600_unroll4 (a : list Z) : list Z :=
  for_rounds 4 (fun j a =>
    let a := KF_ELT 0 1 (rc (j + 0)) a in
    let a := KF_ELT 1 2 (rc (j + 1)) a in
    let a := KF_ELT 2 3 (rc (j + 2)) a in
    let a := KF_ELT 3 4 (rc (j + 3)) a in
    P4_TO_P0 a) a.

Definition KECCAK_F_1600_unroll6 (a : list Z) : list Z :=
  for_rounds 6 (fun j a =>
    let a := KF_ELT 0 1 (rc (j + 0)) a in
    let a := KF_ELT 1 2 (rc (j + 1)) a in
    let a := KF_ELT 2 3 (rc (j + 2)) a in
    let a := KF_ELT 3 4 (rc (j + 3)) a in
    let a := KF_ELT 4 5 (rc (j + 4)) a in
    let a := KF_ELT 5 6 (rc (j + 5)) a in
    P6_TO_P0 a) a.

Definition KECCAK_F_1600_unroll12 (a : list Z) : list Z :=
  for_rounds 12 (fun j a =>
    let a := KF_ELT 0 1 (rc (j + 0)) a in
    let a := KF_ELT 1 2 (rc (j + 1)) a in
    let a := KF_ELT 2 3 (rc (j + 2)) a in
    let a := KF_ELT 3 4 (rc (j + 3)) a in
    let a := KF_ELT 4 5 (rc (j + 4)) a in
    let a := KF_ELT 5 6 (rc (j + 5)) a in
    let a := KF_ELT 6 7 (rc (j + 6)) a in
    let a := KF_ELT 7 8 (rc (j + 7)) a in
    let a := KF_ELT 8 9 (rc (j + 8)) a in
    let a := KF_ELT 9 10 (rc (j + 9)) a in
    let a := KF_ELT 10 11 (rc (j + 10)) a in
    let a := KF_ELT 11 12 (rc (j + 11)) a in
    P12_TO_P0 a) a.

(** SPH_KECCAK_UNROLL == 0: full unroll, back to P0 after the last round. *)
Definition KECCAK_F_1600_unroll0 (a : list Z) : list Z :=
  let a := KF_ELT 0 1 (rc 0) a in let a := KF_ELT 1 2 (rc 1) a in
  let a := KF_ELT 2 3 (rc 2) a in let a := KF_ELT 3 4 (rc 3) a in
  let a := KF_ELT 4 5 (rc 4) a in let a := KF_ELT 5 6 (rc 5) a in
  let a := KF_ELT 6 7 (rc 6) a in let a := KF_ELT 7 8 (rc 7) a in
  let a := KF_ELT 8 9 (rc 8) a in let a := KF_ELT 9 10 (rc 9) a in
  let a := KF_ELT 10 11 (rc 10) a in let a := KF_ELT 11 12 (rc 11) a in
  let a := KF_ELT 12 13 (rc 12) a in let a := KF_ELT 13 14 (rc 13) a in
  let a := KF_ELT 14 15 (rc 14) a in let a := KF_ELT 15 16 (rc 15) a in
  let a := KF_ELT 16 17 (rc 16) a in let a := KF_ELT 17 18 (rc 17) a in
  let a := KF_ELT 18 19 (rc 18) a in let a := KF_ELT 19 20 (rc 19) a in
  let a := KF_ELT 20 21 (rc 20) a in let a := KF_ELT 21 22 (rc 21) a in
  let a := KF_ELT 22 23 (rc 22) a in let a := KF_ELT 23 0 (rc 23) a in
  a.

(** [sph_keccak_context] beside [buf] and [ptr]. *)
Record kstate := KState { wide : list Z; lim : nat }.

Definition keccak_context := sctx kstate.

(** [for (j = 0; j < size; j += 8) kc->u.wide[j >> 3] ^= sph_dec64le_aligned(buf + j);] *)
Definition INPUT_BUF (size : nat) (b : list Z) (a : list Z) : list Z :=
  fold_left (fun a i => upd a i (nth i a 0 .^ sph_dec64le (skipn (8 * i) b)))
            (seq 0 (size / 8)) a.

Definition keccak_init (kc : keccak_context) (out_size : nat) : keccak_context :=
  let w := repeat 0 25 in
  let w := upd w 1 0xFFFFFFFFFFFFFFFF in
  let w := upd w 2 0xFFFFFFFFFFFFFFFF in
  let w := upd w 8 0xFFFFFFFFFFFFFFFF in
  let w := upd w 12 0xFFFFFFFFFFFFFFFF in
  let w := upd w 17 0xFFFFFFFFFFFFFFFF in
  let w := upd w 20 0xFFFFFFFFFFFFFFFF in
  Ctx (buf kc) 0 (KState w (200 - out_size / 4)).

Definition keccak_process (size : nat) (b : list Z) (s : kstate) : kstate :=
  KState (KECCAK_F_1600 (INPUT_BUF size b (wide s))) (lim s).

Definition keccak_core (kc : keccak_context) (data : list Z) (size : nat) : keccak_context :=
  core size (keccak_process size) kc data.

(** "Finalize the lane complement". *)
Definition uncomplement (w : list Z) : list Z :=
  let w := upd w 1 (NOT64 (nth 1 w 0)) in
  let w := upd w 2 (NOT64 (nth 2 w 0)) in
  let w := upd w 8 (NOT64 (nth 8 w 0)) in
  let w := upd w 12 (NOT64 (nth 12 w 0)) in
  let w := upd w 17 (NOT64 (nth 17 w 0)) in
  let w := upd w 20 (NOT64 (nth 20 w 0)) in
  w.

(** [DEFCLOSE(d, lim)]: the digest and the reinitialised context. *)
Definition keccak_close (d size : nat) (kc : keccak_context) (ub n : Z)
  : list Z * keccak_context :=
  let eb := (0x100 .| (ub .& 0xFF)) >> (8 - n) in
  let tmp :=
    if (ptr kc =? size - 1)%nat then
      if n =? 7 then u8 eb :: repeat 0 (size - 1) ++ [0x80]
      else [u8 (eb .| 0x80)]
    else
      let j := (size - ptr kc)%nat in u8 eb :: repeat 0 (j - 2) ++ [0x80] in
  let kc := keccak_core kc tmp size in
  let w := uncomplement (wide (st kc)) in
  let dst := firstn d (flat_map (fun i => sph_enc64le (nth i w 0)) (seq 0 ((d + 7) / 8))) in
  (dst, keccak_init (Ctx (buf kc) (ptr kc) (KState w (lim (st kc)))) (d * 8)).

Definition sph_keccak224_init (cc : keccak_context) := keccak_init cc 224.
Definition sph_keccak224 (cc : keccak_context) (data : list Z) := keccak_core cc data 144.
Definition sph_keccak224_addbits_and_close (cc : keccak_context) (ub n : Z) :=
  keccak_close 28 144 cc ub n.
Definition sph_keccak224_close (cc : keccak_context) := sph_keccak224_addbits_and_close cc 0 0.

Definition sph_keccak256_init (cc : keccak_context) := keccak_init cc 256.
Definition sph_keccak256 (cc : keccak_context) (data : list Z) := keccak_core cc data 136.
Definition sph_keccak256_addbits_and_close (cc : keccak_context) (ub n : Z) :=
  keccak_close 32 136 cc ub n.
Definition sph_keccak256_close (cc : keccak_context) := sph_keccak256_addbits_and_close cc 0 0.

Definition sph_keccak384_init (cc : keccak_context) := keccak_init cc 384.
Definition sph_keccak384 (cc : keccak_context) (data : list Z) := keccak_core cc data 104.
Definition sph_keccak384_addbits_and_close (cc : keccak_context) (ub n : Z) :=
  keccak_close 48 104 cc ub n.
Definition sph_keccak384_close (cc : keccak_context) := sph_keccak384_addbits_and_close cc 0 0.

Definition sph_keccak512_init (cc : keccak_context) := keccak_init cc 512.
Definition sph_keccak512 (cc : keccak_context) (data : list Z) := keccak_core cc data 72.
Definition sph_keccak512_addbits_and_close (cc : keccak_context) (ub n : Z) :=
  keccak_close 64 72 cc ub n.
Definition sph_keccak512_close (cc : keccak_context) := sph_keccak512_addbits_and_close cc 0 0.
