(* ===== verification/KeccakSpec.v ===== *)
(** * KeccakSpec: the Keccak sponge and the correctness of keccak.c

    The reference is Keccak-f[1600] as its specification states it (theta,
    rho, pi, chi, iota on lanes indexed by x and y, rotation offsets and
    round constants generated by their own recurrences) and the sponge with
    multi-rate padding.  The proof goes in two steps: the lane permutations
    [P0] ... [P23] of the source only rename lanes, so each [KF_ELT] is one
    canonical round; and the canonical round of complemented lanes is the
    reference round. *)

From Stdlib Require Import ZArith List Lia Bool Btauto.
From S2P Require Import Prelude SphTypes Stream Keccak.
Import ListNotations.

Open Scope Z_scope.
Open Scope word_scope.

(** ** Reference *)

(** Lane (x, y), coordinates modulo 5. *)
Definition lane (a : list Z) (x y : nat) : Z := nth (x mod 5 + 5 * (y mod 5)) a 0.

Definition tabulate (f : nat -> nat -> Z) : list Z :=
  map (fun i => f (i mod 5)%nat (i / 5)%nat) (seq 0 25).

Definition parity (a : list Z) (x : nat) : Z :=
  lane a x 0 .^ lane a x 1 .^ lane a x 2 .^ lane a x 3 .^ lane a x 4.

Definition theta (a : list Z) : list Z :=
  tabulate (fun x y => lane a x y .^ (parity a (x + 4) .^ rotl 64 (parity a (x + 1)) 1)).

(** Rotation offsets: walk (x, y) -> (y, 2x + 3y) from (1, 0), offset
    (t + 1)(t + 2) / 2. *)
Fixpoint rho_walk (n t x y : nat) (off : list Z) : list Z :=
  match n with
  | O => off
  | S n' =>
      rho_walk n' (S t) y ((2 * x + 3 * y) mod 5)
        (upd off (x + 5 * y) (Z.of_nat ((t + 1) * (t + 2) / 2) mod 64))
  end.

Definition rho_offsets : list Z := rho_walk 24 0 1 0 (repeat 0 25).

Definition rho (a : list Z) : list Z :=
  tabulate (fun x y => rotl 64 (lane a x y) (lane rho_offsets x y)).

Definition pi (a : list Z) : list Z := tabulate (fun x y => lane a (x + 3 * y) x).

Definition chi (a : list Z) : list Z :=
  tabulate (fun x y => lane a x y .^ (trunc 64 (Z.lnot (lane a (x + 1) y)) .& lane a (x + 2) y)).

(** Round constants: bit [2^j - 1] of constant [i] is the output of the
    8-bit LFSR at step [j + 7 i]. *)
Definition lfsr_step (r : Z) : Z :=
  let r' := r << 1 in if Z.testbit r' 8 then r' .^ 0x171 else r'.

Definition rc_bit (t : nat) : bool := Z.testbit (iter t lfsr_step 1) 0.

Definition round_constant (i : nat) : Z :=
  fold_left (fun k j => if rc_bit (j + 7 * i) then k .| (1 << (2 ^ Z.of_nat j - 1)) else k)
            (seq 0 7) 0.

Definition iota (k : Z) (a : list Z) : list Z :=
  tabulate (fun x y => if ((x =? 0) && (y =? 0))%nat then lane a x y .^ k else lane a x y).

Definition keccak_round (k : Z) (a : list Z) : list Z := iota k (chi (pi (rho (theta a)))).

Definition keccak_f (a : list Z) : list Z :=
  fold_left (fun a i => keccak_round (round_constant i) a) (seq 0 24) a.

(** Absorption of one block of [r] bytes. *)
Definition sponge_block (r : nat) (blk a : list Z) : list Z :=
  keccak_f (map2 Z.lxor (firstn (r / 8) a) (read_words sph_dec64le 8 (r / 8) blk)
            ++ skipn (r / 8) a).

(** Bits in bytes, the first bit in the lowest place. *)
Definition byte_of_bits (l : list bool) : Z := fold_right (fun (b : bool) acc => Z.b2z b + 2 * acc) 0 l.

Fixpoint pack (l : list bool) : list Z :=
  match l with
  | b0 :: b1 :: b2 :: b3 :: b4 :: b5 :: b6 :: b7 :: rest =>
      byte_of_bits [b0; b1; b2; b3; b4; b5; b6; b7] :: pack rest
  | _ => []
  end.

(** pad10*1: the message is the bytes [m] and fewer than eight further bits;
    a one, the fewest zeros and a one complete the last block of [r] bytes. *)
Definition pad101 (r : nat) (m : list Z) (bits : list bool) : list Z :=
  let zeros := ((8 * r - (8 * (length m mod r) + length bits + 2) mod (8 * r)) mod (8 * r))%nat in
  m ++ pack (bits ++ true :: repeat false zeros ++ [true]).

(** Keccak with rate [r] bytes and [d] digest bytes. *)
Definition keccak_spec (r d : nat) (m : list Z) (bits : list bool) : list Z :=
  firstn d (flat_map sph_enc64le (fst (absorb r (sponge_block r) (repeat 0 25) (pad101 r m bits)))).

(** The extra bits of [addbits_and_close]: the [n] upper bits of [ub]. *)
Definition extra_bits (ub n : Z) : list bool :=
  map (fun i => Z.testbit ub (8 - n + Z.of_nat i)) (seq 0 (Z.to_nat n)).

(** ** The lane permutations *)

(** Position of lane (x, y) of round [r] in the array. *)
Definition pos (r : nat) (i : nat) : nat := nth (5 * (i mod 5) + i / 5) (P r) 0%nat.

(** The state of round [r] with its lanes in their canonical places. *)
Definition view (r : nat) (a : list Z) : list Z := map (fun i => nth (pos r i) a 0) (seq 0 25).

(** One round on canonical places, lanes still complemented. *)
Definition canon_round (k : Z) (a : list Z) : list Z :=
  IOTA k (at_lanes P0 KHI (pi (at_lanes P0 RHO (at_lanes P0 THETA a)))).

Ltac lanes25 a :=
  let H := fresh in
  intros H; do 25 (destruct a as [|? a]; [discriminate|]); destruct a; [clear H|discriminate].

Ltac symbolic := cbv -[XOR64 AND64 OR64 NOT64 ROL64]; reflexivity.

Lemma KF_ELT_canon r k a :
  (r < 24)%nat -> length a = 25%nat ->
  view (S r mod 24) (KF_ELT r (S r mod 24) k a) = canon_round k (view r a)
  /\ length (KF_ELT r (S r mod 24) k a) = 25%nat.
Proof.
  intros Hr; lanes25 a.
  do 24 (destruct r as [|r]; [split; symbolic|]); lia.
Qed.

(** ** The lane complement *)

Definition ones64 : Z := 0xFFFFFFFFFFFFFFFF.

Definition flip (b : bool) (x : Z) : Z := if b then x .^ ones64 else x.

(** The lanes that [m] marks are complemented. *)
Definition comp (m : list bool) (a : list Z) : list Z := map2 flip m a.

Definition mask_at (l : list nat) : list bool :=
  map (fun i => existsb (Nat.eqb i) l) (seq 0 25).

(** Complemented lanes between rounds, after theta and rho, and after pi. *)
Definition mask0 : list bool := mask_at [1; 2; 8; 12; 17; 20]%nat.
Definition mask1 : list bool := mask_at [0; 1; 2; 3; 5; 10; 12; 13; 15; 17; 18; 23]%nat.
Definition mask2 : list bool := mask_at [0; 2; 3; 5; 7; 10; 12; 16; 18; 19; 20; 23]%nat.

Lemma ones64_inw : inw 64 ones64.
Proof. unfold inw, ones64; lia. Qed.

Lemma ones64_bit i : 0 <= i < 64 -> Z.testbit ones64 i = true.
Proof. intros; change ones64 with (Z.ones 64); apply Z.ones_spec_low; lia. Qed.

Lemma flip_inw b x : inw 64 x -> inw 64 (flip b x).
Proof. intros; destruct b; cbn; auto using ones64_inw with word. Qed.

Lemma NOT64_flip x : inw 64 x -> NOT64 x = x .^ ones64.
Proof.
  intros Hx; apply (inw_ext 64); try lia.
  - unfold NOT64; auto with word.
  - auto using ones64_inw with word.
  - intros i Hi; unfold NOT64; rewrite SPH_T64_trunc, trunc_spec, Z.lnot_spec, Z.lxor_spec by lia.
    rewrite ones64_bit by lia; destruct (Z.ltb_spec i 64); [now rewrite xorb_true_r | lia].
Qed.

Lemma rotl_ones64 n : 0 <= n <= 64 -> rotl 64 ones64 n = ones64.
Proof.
  intros Hn; apply (inw_ext 64); [lia | apply rotl_inw; lia | apply ones64_inw |].
  intros i Hi; rewrite rotl_spec by (auto using ones64_inw; lia).
  rewrite !ones64_bit; auto; apply Z.mod_pos_bound; lia.
Qed.

Lemma rotl_0 x : inw 64 x -> rotl 64 x 0 = x.
Proof.
  intros Hx; apply (inw_ext 64); [lia | apply rotl_inw; lia | assumption |].
  intros i Hi; rewrite rotl_spec by (assumption || lia).
  now rewrite Z.sub_0_r, Z.mod_small by lia.
Qed.

Lemma rotl_flip b x n : inw 64 x -> 0 <= n <= 64 -> rotl 64 (flip b x) n = flip b (rotl 64 x n).
Proof.
  intros Hx Hn; destruct b; cbn [flip]; [|reflexivity].
  rewrite rotl_lxor by (auto using ones64_inw; lia); now rewrite rotl_ones64.
Qed.

#[local] Hint Resolve ones64_inw flip_inw : word.
#[local] Hint Extern 2 (inw 64 (trunc 64 _)) => (apply trunc_inw; lia) : word.
#[local] Hint Extern 2 (inw 64 (rotl 64 _ _)) => (apply rotl_inw; lia) : word.
#[local] Hint Extern 2 (inw 64 (_ .& _)) => (apply inw_land) : word.
#[local] Hint Extern 3 (0 <= _) => (eapply proj1; eassumption) : word.

(** 25 lanes with their ranges. *)
Ltac lanes25_words a :=
  lanes25 a; let H := fresh in intros H; unfold words in H;
  repeat (apply Forall_cons_iff in H; destruct H as [? H]); clear H.

(** An equation between two 64-bit lanes, bit by bit. *)
Ltac lane_bits :=
  apply (inw_ext 64); [lia | auto 20 with word | auto 20 with word |];
  let j := fresh "j" in intros j ?;
  rewrite ?Z.lxor_spec;
  repeat (rewrite rotl_spec by (auto 20 with word; lia));
  assert (0 <= (j - 1) mod 64 < 64) by (apply Z.mod_pos_bound; lia);
  rewrite ?Z.lxor_spec, ?Z.lor_spec, ?Z.land_spec, ?Z.lxor_spec;
  rewrite ?trunc_spec, ?Z.lnot_spec by lia;
  rewrite ?ones64_bit by lia;
  repeat match goal with
  | |- context [?x <? 64] => replace (x <? 64) with true by (symmetry; apply Z.ltb_lt; lia)
  end;
  btauto.

Lemma theta_comp a :
  length a = 25%nat -> words 64 a -> at_lanes P0 THETA (comp mask0 a) = comp mask1 (theta a).
Proof.
  lanes25_words a.
  cbv -[Z.lxor SPH_ROTL64 rotl ones64]; change SPH_ROTL64 with (rotl 64); list_eq; lane_bits.
Qed.

Lemma rho_comp a :
  length a = 25%nat -> words 64 a -> at_lanes P0 RHO (comp mask1 a) = comp mask1 (rho a).
Proof.
  lanes25_words a.
  cbv -[flip SPH_ROTL64 rotl ones64]; change SPH_ROTL64 with (rotl 64).
  rewrite !rotl_flip by (assumption || lia).
  rewrite rotl_0 by assumption; reflexivity.
Qed.

Lemma pi_comp a : length a = 25%nat -> pi (comp mask1 a) = comp mask2 (pi a).
Proof. lanes25 a; cbv -[flip]; reflexivity. Qed.

Lemma khi_comp a :
  length a = 25%nat -> words 64 a -> at_lanes P0 KHI (comp mask2 a) = comp mask0 (chi a).
Proof.
  lanes25_words a.
  cbv -[Z.lxor Z.lor Z.land NOT64 Z.lnot trunc ones64].
  rewrite ?NOT64_flip by auto 20 with word; list_eq; lane_bits.
Qed.

Lemma iota_comp k a : length a = 25%nat -> IOTA k (comp mask0 a) = comp mask0 (iota k a).
Proof. lanes25 a; cbv -[flip Z.lxor]; reflexivity. Qed.

(** ** Rounds *)

Definition lanes_ok (a : list Z) : Prop := length a = 25%nat /\ words 64 a.

Lemma length_tabulate f : length (tabulate f) = 25%nat.
Proof. reflexivity. Qed.

Lemma tabulate_ok f : (forall x y, inw 64 (f x y)) -> lanes_ok (tabulate f).
Proof. intros H; split; [apply length_tabulate | apply words_map; auto]. Qed.

Lemma lane_inw a x y : words 64 a -> inw 64 (lane a x y).
Proof. intros; unfold lane; apply words_nth; [lia | assumption]. Qed.

#[local] Hint Resolve lane_inw : word.

Lemma theta_ok a : lanes_ok a -> lanes_ok (theta a).
Proof. intros [_ H]; apply tabulate_ok; intros; unfold parity; auto 12 with word. Qed.

Lemma rho_ok a : lanes_ok (rho a).
Proof. apply tabulate_ok; intros; apply rotl_inw; lia. Qed.

Lemma pi_ok a : lanes_ok a -> lanes_ok (pi a).
Proof. intros [_ H]; apply tabulate_ok; auto with word. Qed.

Lemma chi_ok a : lanes_ok a -> lanes_ok (chi a).
Proof.
  intros [_ H]; apply tabulate_ok; intros; apply inw_lxor; auto with word.
  apply inw_land; [lia | apply trunc_inw; lia | now apply lane_inw].
Qed.

Lemma iota_ok k a : inw 64 k -> lanes_ok a -> lanes_ok (iota k a).
Proof.
  intros Hk [_ H]; apply tabulate_ok; intros; destruct (_ && _); auto with word.
Qed.

Lemma keccak_round_ok k a : inw 64 k -> lanes_ok a -> lanes_ok (keccak_round k a).
Proof. intros; apply iota_ok; auto; apply chi_ok, pi_ok, rho_ok. Qed.

Lemma canon_round_comp k a :
  inw 64 k -> lanes_ok a -> canon_round k (comp mask0 a) = comp mask0 (keccak_round k a).
Proof.
  intros Hk Ha; unfold canon_round, keccak_round.
  pose proof (theta_ok a Ha) as H1; pose proof (rho_ok (theta a)) as H2.
  pose proof (pi_ok _ H2) as H3; pose proof (chi_ok _ H3) as H4.
  rewrite theta_comp, rho_comp, pi_comp, khi_comp, iota_comp by
    (apply Ha || apply H1 || apply H2 || apply H3 || apply H4).
  reflexivity.
Qed.

#[local] Opaque keccak_round KF_ELT canon_round.

Lemma RC_generated : RC = map round_constant (seq 0 24).
Proof. vm_compute; reflexivity. Qed.

Lemma rc_inw i : inw 64 (rc i).
Proof. unfold rc; apply words_nth; [lia | words_dec]. Qed.

(** [n] reference rounds from constant [j] on. *)
Definition rounds (n j : nat) (a : list Z) : list Z :=
  fold_left (fun a i => keccak_round (rc (j + i)) a) (seq 0 n) a.

Lemma rounds_ok n j a : lanes_ok a -> lanes_ok (rounds n j a).
Proof.
  unfold rounds; generalize (seq 0 n); intros l; revert a.
  induction l; cbn [fold_left]; auto using keccak_round_ok, rc_inw.
Qed.

Lemma length_comp m a : length m = 25%nat -> length a = 25%nat -> length (comp m a) = 25%nat.
Proof. intros H1 H2; unfold comp; rewrite length_map2; lia. Qed.

Lemma seq_offset s n : seq s n = map (fun i => (s + i)%nat) (seq 0 n).
Proof.
  revert s; induction n as [|n IH]; intros s; [reflexivity|].
  cbn [seq map]; rewrite Nat.add_0_r, (IH 1%nat), map_map, IH; f_equal.
  apply map_ext; intros; lia.
Qed.

Lemma fold_left_map {A B C} (f : A -> C -> A) (g : B -> C) l a :
  fold_left f (map g l) a = fold_left (fun a b => f a (g b)) l a.
Proof. revert a; induction l; cbn [map fold_left]; auto. Qed.

Lemma fold_left_ext {A B} (f g : A -> B -> A) l a :
  (forall a b, f a b = g a b) -> fold_left f l a = fold_left g l a.
Proof. intros H; revert a; induction l; intros; cbn [fold_left]; rewrite ?H; auto. Qed.

(** [n] consecutive [KF_ELT] of the source, from the places [P0]. *)
Definition kf_seq (n j : nat) (a : list Z) : list Z :=
  fold_left (fun a i => KF_ELT i (S i mod 24) (rc (j + i)) a) (seq 0 n) a.

Lemma view0 a : length a = 25%nat -> view 0 a = a.
Proof. lanes25 a; reflexivity. Qed.

Lemma kf_seq_spec n j a :
  (n <= 24)%nat -> lanes_ok a ->
  view (n mod 24) (kf_seq n j (comp mask0 a)) = comp mask0 (rounds n j a)
  /\ length (kf_seq n j (comp mask0 a)) = 25%nat.
Proof.
  intros Hn Ha; induction n as [|n IH].
  - cbn [kf_seq seq fold_left]; unfold kf_seq, rounds; cbn [seq fold_left].
    assert (length (comp mask0 a) = 25%nat) by (apply length_comp; [reflexivity | apply Ha]).
    split; [now apply view0 | assumption].
  - destruct IH as [IHv IHl]; [lia|].
    unfold kf_seq, rounds; rewrite seq_S, !fold_left_app; cbn [fold_left plus].
    fold (kf_seq n j (comp mask0 a)); fold (rounds n j a).
    rewrite Nat.mod_small in IHv by lia.
    destruct (KF_ELT_canon n (rc (j + n)) (kf_seq n j (comp mask0 a))) as [Hv Hl]; [lia|assumption|].
    split; [|exact Hl]; rewrite Hv, IHv.
    apply canon_round_comp; [apply rc_inw | now apply rounds_ok].
Qed.

(** The moves back to the canonical places. *)
Lemma moves_spec a :
  length a = 25%nat ->
  P1_TO_P0 a = view 1 a /\ P2_TO_P0 a = view 2 a /\ P4_TO_P0 a = view 4 a
  /\ P6_TO_P0 a = view 6 a /\ P8_TO_P0 a = view 8 a /\ P12_TO_P0 a = view 12 a.
Proof. lanes25 a; cbv; auto 10. Qed.

(** A loop of the source with [n] rounds per turn and its move to [P0]. *)
Lemma for_rounds_spec n (move : list Z -> list Z) (body : nat -> list Z -> list Z) a :
  (0 < n < 24)%nat -> (24 / n * n = 24)%nat ->
  (forall x, length x = 25%nat -> move x = view n x) ->
  (forall j x, body j x = move (kf_seq n j x)) ->
  lanes_ok a ->
  for_rounds n body (comp mask0 a) = comp mask0 (rounds 24 0 a).
Proof.
  intros Hn Hd Hm Hb Ha; unfold for_rounds.
  assert (G : forall k, (k * n <= 24)%nat ->
            fold_left (fun a i => body (n * i)%nat a) (seq 0 k) (comp mask0 a)
            = comp mask0 (rounds (k * n) 0 a)).
  { induction k as [|k IH]; intros Hk; [reflexivity|].
    rewrite seq_S, fold_left_app, IH by lia; cbn [fold_left plus].
    pose proof (rounds_ok (k * n) 0 a Ha) as Hr.
    destruct (kf_seq_spec n (n * k) (rounds (k * n) 0 a)) as [Hv Hl]; [lia|assumption|].
    rewrite Nat.mod_small in Hv by lia.
    rewrite Hb, Hm, Hv by assumption; f_equal.
    unfold rounds; replace (S k * n)%nat with (k * n + n)%nat by lia.
    rewrite seq_app, fold_left_app; set (b := fold_left _ (seq 0 (k * n)) a).
    rewrite Nat.add_0_l, (seq_offset (k * n) n), fold_left_map.
    apply fold_left_ext; intros x i.
    replace (0 + (k * n + i))%nat with (n * k + i)%nat by lia; reflexivity. }
  specialize (G (24 / n)%nat ltac:(lia)); rewrite G; now rewrite Hd.
Qed.

Lemma keccak_f_rounds a : keccak_f a = rounds 24 0 a.
Proof.
  unfold keccak_f, rounds, rc; rewrite RC_generated.
  cbn [seq map fold_left nth Nat.add]; reflexivity.
Qed.

Lemma keccak_f_ok a : lanes_ok a -> lanes_ok (keccak_f a).
Proof. rewrite keccak_f_rounds; apply rounds_ok. Qed.

Ltac unrolled n move :=
  rewrite keccak_f_rounds; apply (for_rounds_spec n move); [lia | reflexivity | | | assumption];
  [intros x Hx; apply (moves_spec x Hx) | reflexivity].

Lemma KECCAK_F_1600_spec a :
  lanes_ok a -> KECCAK_F_1600 (comp mask0 a) = comp mask0 (keccak_f a).
Proof. intros Ha; unrolled 8%nat P8_TO_P0. Qed.

Lemma KECCAK_F_1600_unroll0_spec a :
  lanes_ok a -> KECCAK_F_1600_unroll0 (comp mask0 a) = comp mask0 (keccak_f a).
Proof.
  intros Ha; destruct (kf_seq_spec 24 0 a (le_n 24) Ha) as [Hv Hl].
  rewrite Nat.Div0.mod_same, view0 in Hv by assumption.
  rewrite keccak_f_rounds, <- Hv; reflexivity.
Qed.

(** ** The sponge *)

Definition rates : list (nat * nat) := [(28, 144); (32, 136); (48, 104); (64, 72)]%nat.

Lemma flip_lxor b x w : flip b x .^ w = flip b (x .^ w).
Proof.
  destruct b; cbn [flip]; [|reflexivity].
  now rewrite !Z.lxor_assoc, (Z.lxor_comm w).
Qed.

Lemma INPUT_BUF_comp d r b a :
  In (d, r) rates -> length a = 25%nat ->
  INPUT_BUF r b (comp mask0 a)
  = comp mask0 (map2 Z.lxor (firstn (r / 8) a) (read_words sph_dec64le 8 (r / 8) b)
                ++ skipn (r / 8) a).
Proof.
  intros Hr Ha.
  enough (G : forall w : nat -> Z,
    fold_left (fun a i => upd a i (nth i a 0 .^ w i)) (seq 0 (r / 8)) (comp mask0 a)
    = comp mask0 (map2 Z.lxor (firstn (r / 8) a) (map w (seq 0 (r / 8))) ++ skipn (r / 8) a))
    by exact (G (fun i => sph_dec64le (skipn (8 * i) b))).
  intros w; revert Ha; lanes25 a; cbn [In rates] in Hr.
  decompose [or] Hr; clear Hr; try contradiction;
    match goal with H : (_, _) = _ |- _ => injection H as <- <- end;
    cbv -[flip Z.lxor]; rewrite !flip_lxor; reflexivity.
Qed.

Definition krel (s : kstate) (a : list Z) : Prop := wide s = comp mask0 a /\ lanes_ok a.

Lemma input_ok n b a :
  (n <= 25)%nat -> words 8 b -> lanes_ok a ->
  lanes_ok (map2 Z.lxor (firstn n a) (read_words sph_dec64le 8 n b) ++ skipn n a).
Proof.
  intros Hn Hb [Hl Hw]; split.
  - rewrite length_app, length_map2, length_firstn, length_skipn, length_read_words; lia.
  - apply words_app; [|now apply words_skipn].
    assert (G : forall l m, words 64 l -> words 64 m -> words 64 (map2 Z.lxor l m)).
    { intros l m H; revert m; induction H; intros m Hm; [constructor|].
      destruct Hm; constructor; [apply inw_lxor; auto; lia | now apply IHForall]. }
    apply G; auto using words_firstn, words_read_words, sph_dec64le_inw.
Qed.

Lemma rates_cases d r : In (d, r) rates -> (0 < r <= 144 /\ r / 8 <= 25 /\ 2 <= r)%nat.
Proof.
  cbn [rates In]; intros H; decompose [or] H; try contradiction;
    match goal with H : (_, _) = _ |- _ => injection H as <- <- end; cbn; lia.
Qed.

#[local] Opaque KECCAK_F_1600 keccak_f.

Lemma process_rel d r blk s a :
  In (d, r) rates -> words 8 blk -> krel s a ->
  krel (keccak_process r blk s) (sponge_block r blk a).
Proof.
  intros Hr Hb [Hs Ha]; destruct (rates_cases d r Hr) as (_ & H25 & _).
  pose proof (input_ok (r / 8) blk a H25 Hb Ha) as Hi.
  unfold krel, keccak_process, sponge_block; cbn [wide]; split; [|now apply keccak_f_ok].
  rewrite Hs, (INPUT_BUF_comp d) by (apply Hr || apply Ha); now apply KECCAK_F_1600_spec.
Qed.

Lemma get_firstn b i n : (i < n)%nat -> get (firstn n b) i = get b i.
Proof.
  intros H; unfold get; rewrite nth_firstn; now destruct (Nat.ltb_spec i n); [|lia].
Qed.

Lemma dec64_firstn n j b : (j + 8 <= n)%nat -> sph_dec64le (skipn j (firstn n b)) = sph_dec64le (skipn j b).
Proof.
  intros H; rewrite skipn_firstn_comm; unfold sph_dec64le; now rewrite !get_firstn by lia.
Qed.

Lemma INPUT_BUF_local r b a : INPUT_BUF r (firstn r b) a = INPUT_BUF r b a.
Proof.
  unfold INPUT_BUF.
  assert (G : forall l a, (forall i, In i l -> (8 * i + 8 <= r)%nat) ->
    fold_left (fun a i => upd a i (nth i a 0 .^ sph_dec64le (skipn (8 * i) (firstn r b)))) l a
    = fold_left (fun a i => upd a i (nth i a 0 .^ sph_dec64le (skipn (8 * i) b))) l a).
  { induction l as [|i l IH]; intros a' Hl; cbn [fold_left]; [reflexivity|].
    rewrite dec64_firstn by (apply Hl; now left); apply IH; intros; apply Hl; now right. }
  apply G; intros i Hi; apply in_seq in Hi.
  pose proof (Nat.Div0.mul_div_le r 8); lia.
Qed.

Lemma keccak_process_local r b s : keccak_process r (firstn r b) s = keccak_process r b s.
Proof. unfold keccak_process; rewrite INPUT_BUF_local; reflexivity. Qed.

Lemma uncomplement_spec a : lanes_ok a -> uncomplement (comp mask0 a) = a.
Proof.
  intros [Hl Hw]; revert Hl Hw; lanes25_words a; cbv -[Z.lxor NOT64 ones64].
  rewrite !NOT64_flip by auto with word.
  now rewrite !Z.lxor_assoc, Z.lxor_nilpotent, !Z.lxor_0_r.
Qed.

Lemma output_spec d r a :
  In (d, r) rates -> length a = 25%nat ->
  firstn d (flat_map (fun i => sph_enc64le (nth i a 0)) (seq 0 ((d + 7) / 8)))
  = firstn d (flat_map sph_enc64le a).
Proof.
  intros Hr; lanes25 a; cbn [In rates] in Hr.
  decompose [or] Hr; clear Hr; try contradiction;
    match goal with H : (_, _) = _ |- _ => injection H as <- <- end;
    cbv -[u8 Z.shiftr]; reflexivity.
Qed.

(** The bytes that [keccak_close] appends, from the fill pointer. *)
Definition close_tail (size p : nat) (ub n : Z) : list Z :=
  let eb := (0x100 .| (ub .& 0xFF)) >> (8 - n) in
  if (p =? size - 1)%nat then
    if n =? 7 then u8 eb :: repeat 0 (size - 1) ++ [0x80]
    else [u8 (eb .| 0x80)]
  else u8 eb :: repeat 0 (size - p - 2) ++ [0x80].

Lemma extra_bits_byte ub n : 0 <= n <= 7 -> extra_bits ub n = extra_bits (ub .& 0xFF) n.
Proof.
  intros Hn; unfold extra_bits; apply map_ext_in; intros i Hi; apply in_seq in Hi.
  rewrite Z.land_spec; change 0xFF with (Z.ones 8); rewrite Z.ones_spec_low by lia; now rewrite andb_true_r.
Qed.

(** The first byte: the extra bits, a one and zeros; with the final one. *)
Lemma extra_byte ub n : 0 <= n <= 7 ->
  let eb := (0x100 .| (ub .& 0xFF)) >> (8 - n) in
  byte_of_bits (extra_bits ub n ++ true :: repeat false (Z.to_nat (7 - n))) = u8 eb
  /\ (n <> 7 -> byte_of_bits (extra_bits ub n ++ true :: repeat false (Z.to_nat (6 - n)) ++ [true]) = u8 (eb .| 0x80)).
Proof.
  intros Hn; rewrite extra_bits_byte by lia; cbv zeta.
  assert (Hu : 0 <= ub .& 0xFF < 256).
  { change 0xFF with (Z.ones 8); rewrite Z.land_ones by lia; apply Z.mod_pos_bound; lia. }
  set (u := ub .& 0xFF) in *; clearbody u.
  pose (ok := fun n u => (byte_of_bits (extra_bits u n ++ true :: repeat false (Z.to_nat (7 - n))) =? u8 ((0x100 .| u) >> (8 - n)))
    && ((n =? 7) || (byte_of_bits (extra_bits u n ++ true :: repeat false (Z.to_nat (6 - n)) ++ [true]) =? u8 ((0x100 .| u) >> (8 - n) .| 0x80)))).
  assert (E : forallb (fun n => forallb (fun u => ok (Z.of_nat n) (Z.of_nat u)) (seq 0 256)) (seq 0 8) = true)
    by (vm_compute; reflexivity).
  rewrite forallb_forall in E; specialize (E (Z.to_nat n) ltac:(apply in_seq; lia)).
  rewrite forallb_forall in E; specialize (E (Z.to_nat u) ltac:(apply in_seq; lia)).
  rewrite !Z2Nat.id in E by lia; unfold ok in E; apply andb_true_iff in E; destruct E as [E1 E2].
  apply Z.eqb_eq in E1; split; [exact E1 | intros H7].
  rewrite (proj2 (Z.eqb_neq n 7) H7) in E2; now apply Z.eqb_eq in E2.
Qed.

Lemma pack_byte l rest : length l = 8%nat -> pack (l ++ rest) = byte_of_bits l :: pack rest.
Proof. intros H; do 8 (destruct l as [|? l]; [discriminate H|]); destruct l; [reflexivity | discriminate H]. Qed.

Lemma pack_zeros j rest : pack (repeat false (8 * j) ++ rest) = repeat 0 j ++ pack rest.
Proof.
  induction j as [|j IH]; [reflexivity|].
  replace (8 * S j)%nat with (8 + 8 * j)%nat by lia; rewrite repeat_app, <- app_assoc, pack_byte by reflexivity.
  rewrite IH; reflexivity.
Qed.

Lemma length_extra_bits ub n : length (extra_bits ub n) = Z.to_nat n.
Proof. unfold extra_bits; now rewrite length_map, length_seq. Qed.

Lemma pack_tail ub n j : 0 <= n <= 7 ->
  pack (extra_bits ub n ++ true :: repeat false (Z.to_nat (7 - n) + 8 * j + 7) ++ [true])
  = u8 ((0x100 .| (ub .& 0xFF)) >> (8 - n)) :: repeat 0 j ++ [0x80].
Proof.
  intros Hn; rewrite !repeat_app.
  replace (extra_bits ub n ++ true :: ((repeat false (Z.to_nat (7 - n)) ++ repeat false (8 * j)) ++ repeat false 7) ++ [true])
    with ((extra_bits ub n ++ true :: repeat false (Z.to_nat (7 - n))) ++ repeat false (8 * j) ++ repeat false 7 ++ [true])
    by (rewrite <- !app_assoc; cbn [app]; rewrite <- ?app_assoc; reflexivity).
  rewrite pack_byte, pack_zeros; [|rewrite length_app, length_extra_bits; cbn [length]; rewrite repeat_length; lia].
  rewrite (proj1 (extra_byte ub n Hn)); reflexivity.
Qed.

Lemma close_tail_pad size m ub n : (2 <= size)%nat -> 0 <= n <= 7 ->
  m ++ close_tail size (length m mod size) ub n = pad101 size m (extra_bits ub n).
Proof.
  intros Hs Hn; pose proof (Nat.mod_upper_bound (length m) size ltac:(lia)) as Hp.
  unfold pad101, close_tail; f_equal; rewrite length_extra_bits; set (p := (length m mod size)%nat) in *; clearbody p.
  destruct (Nat.eqb_spec p (size - 1)) as [->|Hne]; [destruct (Z.eqb_spec n 7) as [->|H7]|].
  - replace ((8 * size - (8 * (size - 1) + Z.to_nat 7 + 2) mod (8 * size)) mod (8 * size))%nat
      with (Z.to_nat (7 - 7) + 8 * (size - 1) + 7)%nat; [now rewrite pack_tail by lia|].
    change (Z.to_nat 7) with 7%nat; change (Z.to_nat (7 - 7)) with 0%nat.
    replace (8 * (size - 1) + 7 + 2)%nat with (1 + 1 * (8 * size))%nat by lia.
    rewrite Nat.Div0.mod_add, (Nat.mod_small 1), Nat.mod_small by lia; lia.
  - assert (E : ((8 * size - (8 * (size - 1) + Z.to_nat n + 2) mod (8 * size)) mod (8 * size))%nat = Z.to_nat (6 - n)).
    { destruct (Z.eq_dec n 6) as [->|H6].
      - change (Z.to_nat 6) with 6%nat; replace (8 * (size - 1) + 6 + 2)%nat with (8 * size)%nat by lia.
        rewrite Nat.Div0.mod_same, Nat.sub_0_r, Nat.Div0.mod_same; reflexivity.
      - rewrite (Nat.mod_small (8 * (size - 1) + _ + _)), Nat.mod_small by lia; lia. }
    rewrite E, <- (app_nil_r (extra_bits ub n ++ _)), pack_byte; [now rewrite (proj2 (extra_byte ub n Hn) H7)|].
    rewrite length_app, length_extra_bits; cbn [length]; rewrite length_app, repeat_length; cbn [length]; lia.
  - rewrite (Nat.mod_small (8 * p + _ + _)), Nat.mod_small by lia.
    replace (8 * size - (8 * p + Z.to_nat n + 2))%nat with (Z.to_nat (7 - n) + 8 * (size - p - 2) + 7)%nat by lia.
    now rewrite pack_tail by lia.
Qed.

Lemma byte_of_bits_bound l : 0 <= byte_of_bits l < 2 ^ Z.of_nat (length l).
Proof.
  unfold byte_of_bits; induction l as [|b l IH]; cbn [fold_right length]; [lia|].
  rewrite Nat2Z.inj_succ, Z.pow_succ_r by lia; destruct b; cbn [Z.b2z]; lia.
Qed.

Lemma pack_bytes k l : (length l <= k)%nat -> words 8 (pack l).
Proof.
  revert l; induction k as [|k IH]; intros l Hl; [destruct l; [constructor | cbn in Hl; lia]|].
  do 8 (destruct l as [|? l]; [constructor|]); cbn [pack]; constructor.
  - match goal with |- inw _ (byte_of_bits ?l) => exact (byte_of_bits_bound l) end.
  - apply IH; cbn [length] in Hl; lia.
Qed.

Lemma pad101_bytes size m bits : words 8 m -> words 8 (pad101 size m bits).
Proof. intros H; unfold pad101; apply words_app; [assumption | now apply (pack_bytes _ _ (Nat.le_refl _))]. Qed.

Lemma keccak_init_rel c n : krel (st (keccak_init c n)) (repeat 0 25).
Proof. split; [reflexivity | split; [reflexivity | words_dec]]. Qed.

Definition keccak_run (r : nat) (chunks : list (list Z)) (c : keccak_context) : keccak_context :=
  fold_left (fun c m => keccak_core c m r) chunks c.

(** Init, any updates, the closing block: the state is the (complemented)
    state of the sponge after the padded message. *)
Lemma keccak_final_state d r k c chunks ub n :
  In (d, r) rates -> 0 <= n <= 7 -> length (buf c) = 144%nat -> words 8 (concat chunks) ->
  let e := keccak_run r chunks (keccak_init c k) in
  let f := keccak_core e (close_tail r (ptr e) ub n) r in
  (ptr e < r)%nat /\ ctx_ok r 144 f
  /\ krel (st f) (fst (absorb r (sponge_block r) (repeat 0 25) (pad101 r (concat chunks) (extra_bits ub n)))).
Proof.
  intros Hr Hn Hb Hm e f; destruct (rates_cases d r Hr) as (H144 & _ & H2).
  pose proof (fun b s (_ : length b = 144%nat) => keccak_process_local r b s) as HL.
  destruct (core_many_refines r (keccak_process r) ltac:(lia) 144 ltac:(lia) HL chunks
              (keccak_init c k)) as [He Ea]; [split; cbn; lia|].
  change (fold_left (core r (keccak_process r)) chunks (keccak_init c k)) with e in He, Ea.
  destruct (core_refines r (keccak_process r) ltac:(lia) 144 ltac:(lia) HL e (close_tail r (ptr e) ub n) He)
    as [Hf Fa].
  change (core r (keccak_process r) e (close_tail r (ptr e) ub n)) with f in Hf, Fa.
  split; [apply He | split; [exact Hf|]].
  change (st f) with (fst (ctx_abs f)); rewrite Fa, Ea.
  rewrite <- absorb_app by lia.
  assert (Ep : ptr e = (length (concat chunks) mod r)%nat).
  { rewrite <- (absorb_rest_length r (keccak_process r) (fst (ctx_abs (keccak_init c k)))) by lia.
    change (concat chunks) with (snd (ctx_abs (keccak_init c k)) ++ concat chunks).
    rewrite <- Ea; unfold ctx_abs; cbn [snd]; rewrite length_firstn; destruct He; lia. }
  rewrite Ep; change (snd (ctx_abs (keccak_init c k)) ++ concat chunks) with (concat chunks).
  rewrite close_tail_pad by lia.
  apply (absorb_sim krel); [lia | | now apply pad101_bytes | apply keccak_init_rel].
  intros blk s a _ Hw; now apply (process_rel d).
Qed.

Lemma keccak_close_spec d r k c chunks ub n :
  In (d, r) rates -> 0 <= n <= 7 -> length (buf c) = 144%nat -> words 8 (concat chunks) ->
  let e := keccak_run r chunks (keccak_init c k) in
  fst (keccak_close d r e ub n) = keccak_spec r d (concat chunks) (extra_bits ub n)
  /\ length (buf (snd (keccak_close d r e ub n))) = 144%nat.
Proof.
  intros Hr Hn Hb Hm e; destruct (keccak_final_state d r k c chunks ub n Hr Hn Hb Hm) as (Hp & Hf & Hk & Ha).
  fold e in Hp, Hf, Hk; unfold keccak_close; cbv zeta.
  match goal with |- context [keccak_core e ?t r] => change t with (close_tail r (ptr e) ub n) end.
  cbn [fst snd buf keccak_init]; split; [|apply Hf].
  rewrite Hk, uncomplement_spec by assumption; apply (output_spec d r); [assumption | apply Ha].
Qed.

(** ** Properties *)

(** C40: Every unrolling setting of the source, run on a state whose lanes 1, 2,
    8, 12, 17 and 20 are complemented, computes the permutation
    Keccak-f[1600] on the uncomplemented lanes. *)
Theorem keccak_f_unrolls (a : list Z) :
  lanes_ok a ->
  uncomplement (KECCAK_F_1600 (comp mask0 a)) = keccak_f a
  /\ uncomplement (KECCAK_F_1600_unroll0 (comp mask0 a)) = keccak_f a
  /\ uncomplement (KECCAK_F_1600_unroll1 (comp mask0 a)) = keccak_f a
  /\ uncomplement (KECCAK_F_1600_unroll2 (comp mask0 a)) = keccak_f a
  /\ uncomplement (KECCAK_F_1600_unroll4 (comp mask0 a)) = keccak_f a
  /\ uncomplement (KECCAK_F_1600_unroll6 (comp mask0 a)) = keccak_f a
  /\ uncomplement (KECCAK_F_1600_unroll12 (comp mask0 a)) = keccak_f a.
Proof.
  intros Ha.
  assert (G : forall x, x = comp mask0 (keccak_f a) -> uncomplement x = keccak_f a).
  { intros x ->; apply uncomplement_spec, keccak_f_ok, Ha. }
  repeat split; apply G; [apply KECCAK_F_1600_spec, Ha | apply KECCAK_F_1600_unroll0_spec, Ha | ..].
  - unrolled 1%nat P1_TO_P0.
  - unrolled 2%nat P2_TO_P0.
  - unrolled 4%nat P4_TO_P0.
  - unrolled 6%nat P6_TO_P0.
  - unrolled 12%nat P12_TO_P0.
Qed.

Lemma keccak_f_unrolls_witness :
  let a := map Z.of_nat (seq 1 25) in uncomplement (KECCAK_F_1600 (comp mask0 a)) = keccak_f a.
Proof.
  intros a; refine (proj1 (keccak_f_unrolls a _)); split; [reflexivity | words_dec].
Defined.

(** C17: Whatever the context held and however the message is cut into chunks,
    the four variants return the digest of the Keccak sponge (rates 144,
    136, 104 and 72 bytes, padding 10*1) on the message followed by the
    0 to 7 extra bits; [close] is the case of no extra bits. *)
Theorem keccak_correct (c : keccak_context) (chunks : list (list Z)) (ub n : Z) :
  length (buf c) = 144%nat -> words 8 (concat chunks) -> 0 <= n <= 7 ->
  let m := concat chunks in
  fst (sph_keccak224_addbits_and_close (fold_left sph_keccak224 chunks (sph_keccak224_init c)) ub n)
    = keccak_spec 144 28 m (extra_bits ub n)
  /\ fst (sph_keccak224_close (fold_left sph_keccak224 chunks (sph_keccak224_init c)))
    = keccak_spec 144 28 m []
  /\ fst (sph_keccak256_addbits_and_close (fold_left sph_keccak256 chunks (sph_keccak256_init c)) ub n)
    = keccak_spec 136 32 m (extra_bits ub n)
  /\ fst (sph_keccak256_close (fold_left sph_keccak256 chunks (sph_keccak256_init c)))
    = keccak_spec 136 32 m []
  /\ fst (sph_keccak384_addbits_and_close (fold_left sph_keccak384 chunks (sph_keccak384_init c)) ub n)
    = keccak_spec 104 48 m (extra_bits ub n)
  /\ fst (sph_keccak384_close (fold_left sph_keccak384 chunks (sph_keccak384_init c)))
    = keccak_spec 104 48 m []
  /\ fst (sph_keccak512_addbits_and_close (fold_left sph_keccak512 chunks (sph_keccak512_init c)) ub n)
    = keccak_spec 72 64 m (extra_bits ub n)
  /\ fst (sph_keccak512_close (fold_left sph_keccak512 chunks (sph_keccak512_init c)))
    = keccak_spec 72 64 m [].
Proof.
  intros Hb Hm Hn m.
  assert (G : forall d r k ub n, In (d, r) rates -> 0 <= n <= 7 ->
    fst (keccak_close d r (keccak_run r chunks (keccak_init c k)) ub n) = keccak_spec r d m (extra_bits ub n)).
  { intros d r k ub' n' Hr Hn'; exact (proj1 (keccak_close_spec d r k c chunks ub' n' Hr Hn' Hb Hm)). }
  repeat split.
  - apply (G 28%nat 144%nat 224%nat); [cbn; auto | exact Hn].
  - apply (G 28%nat 144%nat 224%nat 0 0); [cbn; auto | lia].
  - apply (G 32%nat 136%nat 256%nat); [cbn; auto | exact Hn].
  - apply (G 32%nat 136%nat 256%nat 0 0); [cbn; auto | lia].
  - apply (G 48%nat 104%nat 384%nat); [cbn; auto | exact Hn].
  - apply (G 48%nat 104%nat 384%nat 0 0); [cbn; auto | lia].
  - apply (G 64%nat 72%nat 512%nat); [cbn; auto | exact Hn].
  - apply (G 64%nat 72%nat 512%nat 0 0); [cbn; auto | lia].
Qed.

Lemma keccak_correct_witness :
  let c := Ctx (repeat 0xAA 144) 9 (KState [] 0) in
  let chunks := [[1; 2; 3]; repeat 7 139; [9]] in
  fst (sph_keccak224_addbits_and_close (fold_left sph_keccak224 chunks (sph_keccak224_init c)) 0xA6 7)
    = keccak_spec 144 28 (concat chunks) (extra_bits 0xA6 7).
Proof.
  intros c chunks; refine (proj1 (keccak_correct c chunks 0xA6 7 eq_refl _ _)); [words_dec | lia].
Defined.

Lemma keccak_spec_bytes r d m bits : words 8 (keccak_spec r d m bits).
Proof. unfold keccak_spec; apply words_firstn, words_flat_map; auto with word. Qed.

Lemma length_keccak512_spec m bits : length (keccak_spec 72 64 m bits) = 64%nat.
Proof.
  unfold keccak_spec; rewrite length_firstn, (length_flat_map_const _ 8) by reflexivity.
  assert (L : length (fst (absorb 72 (sponge_block 72) (repeat 0 25) (pad101 72 m bits))) = 25%nat);
    [|lia].
  generalize (repeat 0 25), (eq_refl : length (repeat 0 25) = 25%nat).
  induction (pad101 72 m bits) as [data H|blk data H IH] using (block_ind 72 ltac:(lia)); intros a Ha.
  - rewrite absorb_short by (assumption || lia); exact Ha.
  - rewrite absorb_block by (assumption || lia); apply IH.
    unfold sponge_block; rewrite keccak_f_rounds; unfold rounds.
    rewrite seq_S, fold_left_app; apply length_tabulate.
Qed.

Lemma buf_keccak_init c n : buf (keccak_init c n) = buf c.
Proof. reflexivity. Qed.

#[export, refine] Instance keccak512_hash : StreamHash := {|
  hctx := keccak_context;
  hctx_ok c := length (buf c) = 144%nat;
  hinit := sph_keccak512_init;
  hupdate := sph_keccak512;
  hclose := sph_keccak512_close;
  hlen := 64;
  digest m := keccak_spec 72 64 m []
|}.
Proof.
  - intros c H; exact H.
  - intros c chunks H Hw _; refine (keccak_close_spec 64 72 512 c chunks 0 0 _ _ H Hw); [cbn; auto | lia].
  - intros m; apply length_keccak512_spec.
  - intros m; apply keccak_spec_bytes.
Defined.
