(* ===== verification/Blake.v ===== *)
(** * Blake: model of blake.c

    BLAKE-224/256 (32-bit words, "small" context) and BLAKE-384/512 (64-bit
    words, "big" context): constants, the quarter-round macros [GS]/[GB], the
    round macros in their table-driven (compact) and token-pasted (unrolled)
    forms, the compression macros, and the init/update/close functions.
    BlakeSpec.v has the reference definition and the theorems. *)

From Stdlib Require Import ZArith List Lia Bool.
From S2P Require Import Prelude SphTypes Stream.
Import ListNotations.

Open Scope Z_scope.
Open Scope word_scope.

Definition IV224 : list Z :=
  [0xC1059ED8; 0x367CD507; 0x3070DD17; 0xF70E5939;
   0xFFC00B31; 0x68581511; 0x64F98FA7; 0xBEFA4FA4].

Definition IV256 : list Z :=
  [0x6A09E667; 0xBB67AE85; 0x3C6EF372; 0xA54FF53A;
   0x510E527F; 0x9B05688C; 0x1F83D9AB; 0x5BE0CD19].

Definition IV384 : list Z :=
  [0xCBBB9D5DC1059ED8; 0x629A292A367CD507;
   0x9159015A3070DD17; 0x152FECD8F70E5939;
   0x67332667FFC00B31; 0x8EB44A8768581511;
   0xDB0C2E0D64F98FA7; 0x47B5481DBEFA4FA4].

Definition IV512 : list Z :=
  [0x6A09E667F3BCC908; 0xBB67AE8584CAA73B;
   0x3C6EF372FE94F82B; 0xA54FF53A5F1D36F1;
   0x510E527FADE682D1; 0x9B05688C2B3E6C1F;
   0x1F83D9ABFB41BD6B; 0x5BE0CD19137E2179].

Definition sigma : list (list nat) :=
  [[0; 1; 2; 3; 4; 5; 6; 7; 8; 9; 10; 11; 12; 13; 14; 15];
  [14; 10; 4; 8; 9; 15; 13; 6; 1; 12; 0; 2; 11; 7; 5; 3];
  [11; 8; 12; 0; 5; 2; 15; 13; 10; 14; 3; 6; 7; 1; 9; 4];
  [7; 9; 3; 1; 13; 12; 11; 14; 2; 6; 5; 10; 4; 0; 15; 8];
  [9; 0; 5; 7; 2; 4; 10; 15; 14; 1; 11; 12; 6; 8; 3; 13];
  [2; 12; 6; 10; 0; 11; 8; 3; 4; 13; 7; 5; 15; 14; 1; 9];
  [12; 5; 1; 15; 14; 13; 4; 10; 0; 7; 6; 3; 9; 2; 8; 11];
  [13; 11; 7; 14; 12; 1; 3; 9; 5; 0; 15; 4; 8; 6; 2; 10];
  [6; 15; 14; 9; 11; 3; 0; 8; 12; 2; 13; 7; 1; 4; 10; 5];
  [10; 2; 8; 4; 7; 6; 1; 5; 15; 11; 9; 14; 3; 12; 13; 0];
  [0; 1; 2; 3; 4; 5; 6; 7; 8; 9; 10; 11; 12; 13; 14; 15];
  [14; 10; 4; 8; 9; 15; 13; 6; 1; 12; 0; 2; 11; 7; 5; 3];
  [11; 8; 12; 0; 5; 2; 15; 13; 10; 14; 3; 6; 7; 1; 9; 4];
  [7; 9; 3; 1; 13; 12; 11; 14; 2; 6; 5; 10; 4; 0; 15; 8];
  [9; 0; 5; 7; 2; 4; 10; 15; 14; 1; 11; 12; 6; 8; 3; 13];
  [2; 12; 6; 10; 0; 11; 8; 3; 4; 13; 7; 5; 15; 14; 1; 9]]%nat.

(** The macros [Z00] ... [Z9F]: [Zri] is the digit pasted into [M ## n] and
    [CS ## n] for position [i] of round [r]. *)
Definition Ztab_0_7 : list (list nat) :=
  [[0; 1; 2; 3; 4; 5; 6; 7; 8; 9; 10; 11; 12; 13; 14; 15];
   [14; 10; 4; 8; 9; 15; 13; 6; 1; 12; 0; 2; 11; 7; 5; 3];
   [11; 8; 12; 0; 5; 2; 15; 13; 10; 14; 3; 6; 7; 1; 9; 4];
   [7; 9; 3; 1; 13; 12; 11; 14; 2; 6; 5; 10; 4; 0; 15; 8];
   [9; 0; 5; 7; 2; 4; 10; 15; 14; 1; 11; 12; 6; 8; 3; 13];
   [2; 12; 6; 10; 0; 11; 8; 3; 4; 13; 7; 5; 15; 14; 1; 9];
   [12; 5; 1; 15; 14; 13; 4; 10; 0; 7; 6; 3; 9; 2; 8; 11];
   [13; 11; 7; 14; 12; 1; 3; 9; 5; 0; 15; 4; 8; 6; 2; 10]]%nat.

Definition Ztab_8_9 : list (list nat) :=
  [[6; 15; 14; 9; 11; 3; 0; 8; 12; 2; 13; 7; 1; 4; 10; 5];
   [10; 2; 8; 4; 7; 6; 1; 5; 15; 11; 9; 14; 3; 12; 13; 0]]%nat.

Definition Ztab : list (list nat) := Ztab_0_7 ++ Ztab_8_9.

Definition Zx (r i : nat) : nat := nth i (nth r Ztab []) 0%nat.

(** The macros [CS0] ... [CSF]. *)
Definition CSmac : list Z :=
  [0x243F6A88; 0x85A308D3; 0x13198A2E; 0x03707344;
   0xA4093822; 0x299F31D0; 0x082EFA98; 0xEC4E6C89;
   0x452821E6; 0x38D01377; 0xBE5466CF; 0x34E90C6C;
   0xC0AC29B7; 0xC97C50DD; 0x3F84D5B5; 0xB5470917].

(** The array of the compact code. *)
Definition CS : list Z :=
  [0x243F6A88; 0x85A308D3; 0x13198A2E; 0x03707344;
   0xA4093822; 0x299F31D0; 0x082EFA98; 0xEC4E6C89;
   0x452821E6; 0x38D01377; 0xBE5466CF; 0x34E90C6C;
   0xC0AC29B7; 0xC97C50DD; 0x3F84D5B5; 0xB5470917].

Definition CSx (r i : nat) : Z := nth (Zx r i) CSmac 0.

(** The macros [CB0] ... [CBF]. *)
Definition CBmac : list Z :=
  [0x243F6A8885A308D3; 0x13198A2E03707344;
   0xA4093822299F31D0; 0x082EFA98EC4E6C89;
   0x452821E638D01377; 0xBE5466CF34E90C6C;
   0xC0AC29B7C97C50DD; 0x3F84D5B5B5470917;
   0x9216D5D98979FB1B; 0xD1310BA698DFB5AC;
   0x2FFD72DBD01ADFB7; 0xB8E1AFED6A267E96;
   0xBA7C9045F12C7F99; 0x24A19947B3916CF7;
   0x0801F2E2858EFC16; 0x636920D871574E69].

(** The array of the compact code. *)
Definition CB : list Z :=
  [0x243F6A8885A308D3; 0x13198A2E03707344;
   0xA4093822299F31D0; 0x082EFA98EC4E6C89;
   0x452821E638D01377; 0xBE5466CF34E90C6C;
   0xC0AC29B7C97C50DD; 0x3F84D5B5B5470917;
   0x9216D5D98979FB1B; 0xD1310BA698DFB5AC;
   0x2FFD72DBD01ADFB7; 0xB8E1AFED6A267E96;
   0xBA7C9045F12C7F99; 0x24A19947B3916CF7;
   0x0801F2E2858EFC16; 0x636920D871574E69].

Definition CBx (r i : nat) : Z := nth (Zx r i) CBmac 0.

(** [Mx(r, i)]: the message word variable named by [Zri]. *)
Definition Mx (M : list Z) (r i : nat) : Z := nth (Zx r i) M 0.

(** The working variables [V0] ... [VF]. *)
Inductive vvars :=
  Vv (V0 V1 V2 V3 V4 V5 V6 V7 V8 V9 VA VB VC VD VE VF : Z).

(** The local copies of the chaining value, the salt and the counter
    (DECL_STATE32 and DECL_STATE64). *)
Inductive hvars :=
  Hv (H0 H1 H2 H3 H4 H5 H6 H7 S0 S1 S2 S3 T0 T1 : Z).

(** The fields [H], [S], [T0], [T1] of [sph_blake_small_context] and
    [sph_blake_big_context]. *)
Record bstate := BState { bH : list Z; bS : list Z; bT0 : Z; bT1 : Z }.

Definition blake_context := sctx bstate.

Definition GS (m0 m1 c0 c1 a b c d : Z) : Z * Z * Z * Z :=
  let a := SPH_T32 (a + b + (m0 .^ c1)) in
  let d := SPH_ROTR32 (d .^ a) 16 in
  let c := SPH_T32 (c + d) in
  let b := SPH_ROTR32 (b .^ c) 12 in
  let a := SPH_T32 (a + b + (m1 .^ c0)) in
  let d := SPH_ROTR32 (d .^ a) 8 in
  let c := SPH_T32 (c + d) in
  let b := SPH_ROTR32 (b .^ c) 7 in
  (a, b, c, d).

(** [sigma[r][i]]. *)
Definition sg (r i : nat) : nat := nth i (nth r sigma []) 0%nat.

(** [ROUND_S(r)], compact code. *)
Definition ROUND_S_compact (M : list Z) (r : nat) (v : vvars) : vvars :=
  let '(Vv V0 V1 V2 V3 V4 V5 V6 V7 V8 V9 VA VB VC VD VE VF) := v in
  let '(V0, V4, V8, VC) :=
    GS (nth (sg r 0) M 0) (nth (sg r 1) M 0) (nth (sg r 0) CS 0) (nth (sg r 1) CS 0) V0 V4 V8 VC in
  let '(V1, V5, V9, VD) :=
    GS (nth (sg r 2) M 0) (nth (sg r 3) M 0) (nth (sg r 2) CS 0) (nth (sg r 3) CS 0) V1 V5 V9 VD in
  let '(V2, V6, VA, VE) :=
    GS (nth (sg r 4) M 0) (nth (sg r 5) M 0) (nth (sg r 4) CS 0) (nth (sg r 5) CS 0) V2 V6 VA VE in
  let '(V3, V7, VB, VF) :=
    GS (nth (sg r 6) M 0) (nth (sg r 7) M 0) (nth (sg r 6) CS 0) (nth (sg r 7) CS 0) V3 V7 VB VF in
  let '(V0, V5, VA, VF) :=
    GS (nth (sg r 8) M 0) (nth (sg r 9) M 0) (nth (sg r 8) CS 0) (nth (sg r 9) CS 0) V0 V5 VA VF in
  let '(V1, V6, VB, VC) :=
    GS (nth (sg r 10) M 0) (nth (sg r 11) M 0) (nth (sg r 10) CS 0) (nth (sg r 11) CS 0) V1 V6 VB VC in
  let '(V2, V7, V8, VD) :=
    GS (nth (sg r 12) M 0) (nth (sg r 13) M 0) (nth (sg r 12) CS 0) (nth (sg r 13) CS 0) V2 V7 V8 VD in
  let '(V3, V4, V9, VE) :=
    GS (nth (sg r 14) M 0) (nth (sg r 15) M 0) (nth (sg r 14) CS 0) (nth (sg r 15) CS 0) V3 V4 V9 VE in
  Vv V0 V1 V2 V3 V4 V5 V6 V7 V8 V9 VA VB VC VD VE VF.

(** [ROUND_S(r)], unrolled code. *)
Definition ROUND_S (M : list Z) (r : nat) (v : vvars) : vvars :=
  let '(Vv V0 V1 V2 V3 V4 V5 V6 V7 V8 V9 VA VB VC VD VE VF) := v in
  let '(V0, V4, V8, VC) :=
    GS (Mx M r 0) (Mx M r 1) (CSx r 0) (CSx r 1) V0 V4 V8 VC in
  let '(V1, V5, V9, VD) :=
    GS (Mx M r 2) (Mx M r 3) (CSx r 2) (CSx r 3) V1 V5 V9 VD in
  let '(V2, V6, VA, VE) :=
    GS (Mx M r 4) (Mx M r 5) (CSx r 4) (CSx r 5) V2 V6 VA VE in
  let '(V3, V7, VB, VF) :=
    GS (Mx M r 6) (Mx M r 7) (CSx r 6) (CSx r 7) V3 V7 VB VF in
  let '(V0, V5, VA, VF) :=
    GS (Mx M r 8) (Mx M r 9) (CSx r 8) (CSx r 9) V0 V5 VA VF in
  let '(V1, V6, VB, VC) :=
    GS (Mx M r 10) (Mx M r 11) (CSx r 10) (CSx r 11) V1 V6 VB VC in
  let '(V2, V7, V8, VD) :=
    GS (Mx M r 12) (Mx M r 13) (CSx r 12) (CSx r 13) V2 V7 V8 VD in
  let '(V3, V4, V9, VE) :=
    GS (Mx M r 14) (Mx M r 15) (CSx r 14) (CSx r 15) V3 V4 V9 VE in
  Vv V0 V1 V2 V3 V4 V5 V6 V7 V8 V9 VA VB VC VD VE VF.

Definition READ_STATE32 (s : bstate) : hvars :=
  Hv (nth 0 (bH s) 0) (nth 1 (bH s) 0) (nth 2 (bH s) 0) (nth 3 (bH s) 0)
     (nth 4 (bH s) 0) (nth 5 (bH s) 0) (nth 6 (bH s) 0) (nth 7 (bH s) 0)
     (nth 0 (bS s) 0) (nth 1 (bS s) 0) (nth 2 (bS s) 0) (nth 3 (bS s) 0) (bT0 s) (bT1 s).

Definition WRITE_STATE32 (v : hvars) : bstate :=
  let '(Hv H0 H1 H2 H3 H4 H5 H6 H7 S0 S1 S2 S3 T0 T1) := v in
  BState [H0; H1; H2; H3; H4; H5; H6; H7] [S0; S1; S2; S3] T0 T1.

(** [COMPRESS32], compact code: [for (r = 0; r < 14; r ++) ROUND_S(r);] *)
Definition COMPRESS32_compact (buf : list Z) (s : hvars) : hvars :=
  let '(Hv H0 H1 H2 H3 H4 H5 H6 H7 S0 S1 S2 S3 T0 T1) := s in
  let v := Vv H0 H1 H2 H3 H4 H5 H6 H7
             (S0 .^ nth 0 CSmac 0) (S1 .^ nth 1 CSmac 0) (S2 .^ nth 2 CSmac 0) (S3 .^ nth 3 CSmac 0)
             (T0 .^ nth 4 CSmac 0) (T0 .^ nth 5 CSmac 0) (T1 .^ nth 6 CSmac 0) (T1 .^ nth 7 CSmac 0) in
  let M := [sph_dec32be (skipn 0 buf); sph_dec32be (skipn 4 buf);
            sph_dec32be (skipn 8 buf); sph_dec32be (skipn 12 buf);
            sph_dec32be (skipn 16 buf); sph_dec32be (skipn 20 buf);
            sph_dec32be (skipn 24 buf); sph_dec32be (skipn 28 buf);
            sph_dec32be (skipn 32 buf); sph_dec32be (skipn 36 buf);
            sph_dec32be (skipn 40 buf); sph_dec32be (skipn 44 buf);
            sph_dec32be (skipn 48 buf); sph_dec32be (skipn 52 buf);
            sph_dec32be (skipn 56 buf); sph_dec32be (skipn 60 buf)] in
  let v := fold_left (fun v r => ROUND_S_compact M r v) (seq 0 14) v in
  let '(Vv V0 V1 V2 V3 V4 V5 V6 V7 V8 V9 VA VB VC VD VE VF) := v in
  Hv (H0 .^ (S0 .^ V0 .^ V8)) (H1 .^ (S1 .^ V1 .^ V9))
     (H2 .^ (S2 .^ V2 .^ VA)) (H3 .^ (S3 .^ V3 .^ VB))
     (H4 .^ (S0 .^ V4 .^ VC)) (H5 .^ (S1 .^ V5 .^ VD))
     (H6 .^ (S2 .^ V6 .^ VE)) (H7 .^ (S3 .^ V7 .^ VF))
     S0 S1 S2 S3 T0 T1.

(** [COMPRESS32], unrolled code. *)
Definition COMPRESS32 (buf : list Z) (s : hvars) : hvars :=
  let '(Hv H0 H1 H2 H3 H4 H5 H6 H7 S0 S1 S2 S3 T0 T1) := s in
  let v := Vv H0 H1 H2 H3 H4 H5 H6 H7
             (S0 .^ nth 0 CSmac 0) (S1 .^ nth 1 CSmac 0) (S2 .^ nth 2 CSmac 0) (S3 .^ nth 3 CSmac 0)
             (T0 .^ nth 4 CSmac 0) (T0 .^ nth 5 CSmac 0) (T1 .^ nth 6 CSmac 0) (T1 .^ nth 7 CSmac 0) in
  let M := [sph_dec32be (skipn 0 buf); sph_dec32be (skipn 4 buf);
            sph_dec32be (skipn 8 buf); sph_dec32be (skipn 12 buf);
            sph_dec32be (skipn 16 buf); sph_dec32be (skipn 20 buf);
            sph_dec32be (skipn 24 buf); sph_dec32be (skipn 28 buf);
            sph_dec32be (skipn 32 buf); sph_dec32be (skipn 36 buf);
            sph_dec32be (skipn 40 buf); sph_dec32be (skipn 44 buf);
            sph_dec32be (skipn 48 buf); sph_dec32be (skipn 52 buf);
            sph_dec32be (skipn 56 buf); sph_dec32be (skipn 60 buf)] in
  let v := ROUND_S M 0 v in let v := ROUND_S M 1 v in
  let v := ROUND_S M 2 v in let v := ROUND_S M 3 v in
  let v := ROUND_S M 4 v in let v := ROUND_S M 5 v in
  let v := ROUND_S M 6 v in let v := ROUND_S M 7 v in
  let v := ROUND_S M 8 v in let v := ROUND_S M 9 v in
  let v := ROUND_S M 0 v in let v := ROUND_S M 1 v in
  let v := ROUND_S M 2 v in let v := ROUND_S M 3 v in
  let '(Vv V0 V1 V2 V3 V4 V5 V6 V7 V8 V9 VA VB VC VD VE VF) := v in
  Hv (H0 .^ (S0 .^ V0 .^ V8)) (H1 .^ (S1 .^ V1 .^ V9))
     (H2 .^ (S2 .^ V2 .^ VA)) (H3 .^ (S3 .^ V3 .^ VB))
     (H4 .^ (S0 .^ V4 .^ VC)) (H5 .^ (S1 .^ V5 .^ VD))
     (H6 .^ (S2 .^ V6 .^ VE)) (H7 .^ (S3 .^ V7 .^ VF))
     S0 S1 S2 S3 T0 T1.

Definition blake32_init (sc : blake_context) (iv salt : list Z) : blake_context :=
  Ctx (buf sc) 0 (BState iv salt 0 0).

(** A full buffer: count 512 more bits, then [COMPRESS32]. *)
Definition blake32_process (b : list Z) (s : hvars) : hvars :=
  let '(Hv H0 H1 H2 H3 H4 H5 H6 H7 S0 S1 S2 S3 T0 T1) := s in
  let T0 := SPH_T32 (T0 + 512) in
  let T1 := if T0 <? 512 then SPH_T32 (T1 + 1) else T1 in
  COMPRESS32 b (Hv H0 H1 H2 H3 H4 H5 H6 H7 S0 S1 S2 S3 T0 T1).

Definition blake32 (sc : blake_context) (data : list Z) : blake_context :=
  if (length data <? 64 - ptr sc)%nat then
    Ctx (memcpy (buf sc) (ptr sc) data (length data)) (ptr sc + length data) (st sc)
  else
    let r := core_loop 64 blake32_process (length data) (buf sc) (ptr sc)
               (READ_STATE32 (st sc)) data in
    Ctx (buf r) (ptr r) (WRITE_STATE32 (st r)).

(** [sc->T0 = t0; sc->T1 = t1;] *)
Definition set_T (sc : blake_context) (t0 t1 : Z) : blake_context :=
  Ctx (buf sc) (ptr sc) (BState (bH (st sc)) (bS (st sc)) t0 t1).

(** [u] is the local buffer [u.buf[64]], whose initial contents are
    indeterminate.  Returns the context and the bytes written to [dst]. *)
Definition blake32_close (u : list Z) (sc : blake_context) (ub n : Z) (out_size_w32 : nat)
  : blake_context * list Z :=
  let p := ptr sc in
  let bit_len := (Z.of_nat p << 3) + n in
  let z := 0x80 >> n in
  let u := upd u p (((ub .& SPH_T32 (- z)) .| z) .& 0xFF) in
  let tl := SPH_T32 (bT0 (st sc) + bit_len) in
  let th := bT1 (st sc) in
  let sc :=
    if (p =? 0)%nat && (n =? 0) then set_T sc 0xFFFFFE00 0xFFFFFFFF
    else if bT0 (st sc) =? 0 then
      set_T sc (SPH_T32 (0xFFFFFE00 + bit_len)) (SPH_T32 (bT1 (st sc) - 1))
    else set_T sc (SPH_T32 (bT0 (st sc) - (512 - bit_len))) (bT1 (st sc)) in
  let sc :=
    if bit_len <=? 446 then
      let u := memset u (p + 1) 0 (55 - p) in
      let u := if (out_size_w32 =? 8)%nat then upd u 55 (get u 55 .| 1) else u in
      let u := memcpy u 56 (sph_enc32be th) 4 in
      let u := memcpy u 60 (sph_enc32be tl) 4 in
      blake32 sc (firstn (64 - p) (skipn p u))
    else
      let u := memset u (p + 1) 0 (63 - p) in
      let sc := blake32 sc (firstn (64 - p) (skipn p u)) in
      let sc := set_T sc 0xFFFFFE00 0xFFFFFFFF in
      let u := memset u 0 0 56 in
      let u := if (out_size_w32 =? 8)%nat then upd u 55 1 else u in
      let u := memcpy u 56 (sph_enc32be th) 4 in
      let u := memcpy u 60 (sph_enc32be tl) 4 in
      blake32 sc (firstn 64 u) in
  (sc, flat_map (fun k => sph_enc32be (nth k (bH (st sc)) 0)) (seq 0 out_size_w32)).

Definition GB (m0 m1 c0 c1 a b c d : Z) : Z * Z * Z * Z :=
  let a := SPH_T64 (a + b + (m0 .^ c1)) in
  let d := SPH_ROTR64 (d .^ a) 32 in
  let c := SPH_T64 (c + d) in
  let b := SPH_ROTR64 (b .^ c) 25 in
  let a := SPH_T64 (a + b + (m1 .^ c0)) in
  let d := SPH_ROTR64 (d .^ a) 16 in
  let c := SPH_T64 (c + d) in
  let b := SPH_ROTR64 (b .^ c) 11 in
  (a, b, c, d).

(** [ROUND_B(r)], compact code. *)
Definition ROUND_B_compact (M : list Z) (r : nat) (v : vvars) : vvars :=
  let '(Vv V0 V1 V2 V3 V4 V5 V6 V7 V8 V9 VA VB VC VD VE VF) := v in
  let '(V0, V4, V8, VC) :=
    GB (nth (sg r 0) M 0) (nth (sg r 1) M 0) (nth (sg r 0) CB 0) (nth (sg r 1) CB 0) V0 V4 V8 VC in
  let '(V1, V5, V9, VD) :=
    GB (nth (sg r 2) M 0) (nth (sg r 3) M 0) (nth (sg r 2) CB 0) (nth (sg r 3) CB 0) V1 V5 V9 VD in
  let '(V2, V6, VA, VE) :=
    GB (nth (sg r 4) M 0) (nth (sg r 5) M 0) (nth (sg r 4) CB 0) (nth (sg r 5) CB 0) V2 V6 VA VE in
  let '(V3, V7, VB, VF) :=
    GB (nth (sg r 6) M 0) (nth (sg r 7) M 0) (nth (sg r 6) CB 0) (nth (sg r 7) CB 0) V3 V7 VB VF in
  let '(V0, V5, VA, VF) :=
    GB (nth (sg r 8) M 0) (nth (sg r 9) M 0) (nth (sg r 8) CB 0) (nth (sg r 9) CB 0) V0 V5 VA VF in
  let '(V1, V6, VB, VC) :=
    GB (nth (sg r 10) M 0) (nth (sg r 11) M 0) (nth (sg r 10) CB 0) (nth (sg r 11) CB 0) V1 V6 VB VC in
  let '(V2, V7, V8, VD) :=
    GB (nth (sg r 12) M 0) (nth (sg r 13) M 0) (nth (sg r 12) CB 0) (nth (sg r 13) CB 0) V2 V7 V8 VD in
  let '(V3, V4, V9, VE) :=
    GB (nth (sg r 14) M 0) (nth (sg r 15) M 0) (nth (sg r 14) CB 0) (nth (sg r 15) CB 0) V3 V4 V9 VE in
  Vv V0 V1 V2 V3 V4 V5 V6 V7 V8 V9 VA VB VC VD VE VF.

(** [ROUND_B(r)], unrolled code. *)
Definition ROUND_B (M : list Z) (r : nat) (v : vvars) : vvars :=
  let '(Vv V0 V1 V2 V3 V4 V5 V6 V7 V8 V9 VA VB VC VD VE VF) := v in
  let '(V0, V4, V8, VC) :=
    GB (Mx M r 0) (Mx M r 1) (CBx r 0) (CBx r 1) V0 V4 V8 VC in
  let '(V1, V5, V9, VD) :=
    GB (Mx M r 2) (Mx M r 3) (CBx r 2) (CBx r 3) V1 V5 V9 VD in
  let '(V2, V6, VA, VE) :=
    GB (Mx M r 4) (Mx M r 5) (CBx r 4) (CBx r 5) V2 V6 VA VE in
  let '(V3, V7, VB, VF) :=
    GB (Mx M r 6) (Mx M r 7) (CBx r 6) (CBx r 7) V3 V7 VB VF in
  let '(V0, V5, VA, VF) :=
    GB (Mx M r 8) (Mx M r 9) (CBx r 8) (CBx r 9) V0 V5 VA VF in
  let '(V1, V6, VB, VC) :=
    GB (Mx M r 10) (Mx M r 11) (CBx r 10) (CBx r 11) V1 V6 VB VC in
  let '(V2, V7, V8, VD) :=
    GB (Mx M r 12) (Mx M r 13) (CBx r 12) (CBx r 13) V2 V7 V8 VD in
  let '(V3, V4, V9, VE) :=
    GB (Mx M r 14) (Mx M r 15) (CBx r 14) (CBx r 15) V3 V4 V9 VE in
  Vv V0 V1 V2 V3 V4 V5 V6 V7 V8 V9 VA VB VC VD VE VF.

Definition READ_STATE64 (s : bstate) : hvars :=
  Hv (nth 0 (bH s) 0) (nth 1 (bH s) 0) (nth 2 (bH s) 0) (nth 3 (bH s) 0)
     (nth 4 (bH s) 0) (nth 5 (bH s) 0) (nth 6 (bH s) 0) (nth 7 (bH s) 0)
     (nth 0 (bS s) 0) (nth 1 (bS s) 0) (nth 2 (bS s) 0) (nth 3 (bS s) 0) (bT0 s) (bT1 s).

Definition WRITE_STATE64 (v : hvars) : bstate :=
  let '(Hv H0 H1 H2 H3 H4 H5 H6 H7 S0 S1 S2 S3 T0 T1) := v in
  BState [H0; H1; H2; H3; H4; H5; H6; H7] [S0; S1; S2; S3] T0 T1.

(** [COMPRESS64], compact code: [for (r = 0; r < 16; r ++) ROUND_B(r);] *)
Definition COMPRESS64_compact (buf : list Z) (s : hvars) : hvars :=
  let '(Hv H0 H1 H2 H3 H4 H5 H6 H7 S0 S1 S2 S3 T0 T1) := s in
  let v := Vv H0 H1 H2 H3 H4 H5 H6 H7
             (S0 .^ nth 0 CBmac 0) (S1 .^ nth 1 CBmac 0) (S2 .^ nth 2 CBmac 0) (S3 .^ nth 3 CBmac 0)
             (T0 .^ nth 4 CBmac 0) (T0 .^ nth 5 CBmac 0) (T1 .^ nth 6 CBmac 0) (T1 .^ nth 7 CBmac 0) in
  let M := [sph_dec64be (skipn 0 buf); sph_dec64be (skipn 8 buf);
            sph_dec64be (skipn 16 buf); sph_dec64be (skipn 24 buf);
            sph_dec64be (skipn 32 buf); sph_dec64be (skipn 40 buf);
            sph_dec64be (skipn 48 buf); sph_dec64be (skipn 56 buf);
            sph_dec64be (skipn 64 buf); sph_dec64be (skipn 72 buf);
            sph_dec64be (skipn 80 buf); sph_dec64be (skipn 88 buf);
            sph_dec64be (skipn 96 buf); sph_dec64be (skipn 104 buf);
            sph_dec64be (skipn 112 buf); sph_dec64be (skipn 120 buf)] in
  let v := fold_left (fun v r => ROUND_B_compact M r v) (seq 0 16) v in
  let '(Vv V0 V1 V2 V3 V4 V5 V6 V7 V8 V9 VA VB VC VD VE VF) := v in
  Hv (H0 .^ (S0 .^ V0 .^ V8)) (H1 .^ (S1 .^ V1 .^ V9))
     (H2 .^ (S2 .^ V2 .^ VA)) (H3 .^ (S3 .^ V3 .^ VB))
     (H4 .^ (S0 .^ V4 .^ VC)) (H5 .^ (S1 .^ V5 .^ VD))
     (H6 .^ (S2 .^ V6 .^ VE)) (H7 .^ (S3 .^ V7 .^ VF))
     S0 S1 S2 S3 T0 T1.

(** [COMPRESS64], unrolled code. *)
Definition COMPRESS64 (buf : list Z) (s : hvars) : hvars :=
  let '(Hv H0 H1 H2 H3 H4 H5 H6 H7 S0 S1 S2 S3 T0 T1) := s in
  let v := Vv H0 H1 H2 H3 H4 H5 H6 H7
             (S0 .^ nth 0 CBmac 0) (S1 .^ nth 1 CBmac 0) (S2 .^ nth 2 CBmac 0) (S3 .^ nth 3 CBmac 0)
             (T0 .^ nth 4 CBmac 0) (T0 .^ nth 5 CBmac 0) (T1 .^ nth 6 CBmac 0) (T1 .^ nth 7 CBmac 0) in
  let M := [sph_dec64be (skipn 0 buf); sph_dec64be (skipn 8 buf);
            sph_dec64be (skipn 16 buf); sph_dec64be (skipn 24 buf);
            sph_dec64be (skipn 32 buf); sph_dec64be (skipn 40 buf);
            sph_dec64be (skipn 48 buf); sph_dec64be (skipn 56 buf);
            sph_dec64be (skipn 64 buf); sph_dec64be (skipn 72 buf);
            sph_dec64be (skipn 80 buf); sph_dec64be (skipn 88 buf);
            sph_dec64be (skipn 96 buf); sph_dec64be (skipn 104 buf);
            sph_dec64be (skipn 112 buf); sph_dec64be (skipn 120 buf)] in
  let v := ROUND_B M 0 v in let v := ROUND_B M 1 v in
  let v := ROUND_B M 2 v in let v := ROUND_B M 3 v in
  let v := ROUND_B M 4 v in let v := ROUND_B M 5 v in
  let v := ROUND_B M 6 v in let v := ROUND_B M 7 v in
  let v := ROUND_B M 8 v in let v := ROUND_B M 9 v in
  let v := ROUND_B M 0 v in let v := ROUND_B M 1 v in
  let v := ROUND_B M 2 v in let v := ROUND_B M 3 v in
  let v := ROUND_B M 4 v in let v := ROUND_B M 5 v in
  let '(Vv V0 V1 V2 V3 V4 V5 V6 V7 V8 V9 VA VB VC VD VE VF) := v in
  Hv (H0 .^ (S0 .^ V0 .^ V8)) (H1 .^ (S1 .^ V1 .^ V9))
     (H2 .^ (S2 .^ V2 .^ VA)) (H3 .^ (S3 .^ V3 .^ VB))
     (H4 .^ (S0 .^ V4 .^ VC)) (H5 .^ (S1 .^ V5 .^ VD))
     (H6 .^ (S2 .^ V6 .^ VE)) (H7 .^ (S3 .^ V7 .^ VF))
     S0 S1 S2 S3 T0 T1.

Definition blake64_init (sc : blake_context) (iv salt : list Z) : blake_context :=
  Ctx (buf sc) 0 (BState iv salt 0 0).

(** A full buffer: count 1024 more bits, then [COMPRESS64]. *)
Definition blake64_process (b : list Z) (s : hvars) : hvars :=
  let '(Hv H0 H1 H2 H3 H4 H5 H6 H7 S0 S1 S2 S3 T0 T1) := s in
  let T0 := SPH_T64 (T0 + 1024) in
  let T1 := if T0 <? 1024 then SPH_T64 (T1 + 1) else T1 in
  COMPRESS64 b (Hv H0 H1 H2 H3 H4 H5 H6 H7 S0 S1 S2 S3 T0 T1).

Definition blake64 (sc : blake_context) (data : list Z) : blake_context :=
  if (length data <? 128 - ptr sc)%nat then
    Ctx (memcpy (buf sc) (ptr sc) data (length data)) (ptr sc + length data) (st sc)
  else
    let r := core_loop 128 blake64_process (length data) (buf sc) (ptr sc)
               (READ_STATE64 (st sc)) data in
    Ctx (buf r) (ptr r) (WRITE_STATE64 (st r)).

(** [u] is the local buffer [u.buf[128]], whose initial contents are
    indeterminate.  Returns the context and the bytes written to [dst]. *)
Definition blake64_close (u : list Z) (sc : blake_context) (ub n : Z) (out_size_w64 : nat)
  : blake_context * list Z :=
  let p := ptr sc in
  let bit_len := (Z.of_nat p << 3) + n in
  let z := 0x80 >> n in
  let u := upd u p (((ub .& SPH_T32 (- z)) .| z) .& 0xFF) in
  let tl := SPH_T64 (bT0 (st sc) + bit_len) in
  let th := bT1 (st sc) in
  let sc :=
    if (p =? 0)%nat && (n =? 0) then set_T sc 0xFFFFFFFFFFFFFC00 0xFFFFFFFFFFFFFFFF
    else if bT0 (st sc) =? 0 then
      set_T sc (SPH_T64 (0xFFFFFFFFFFFFFC00 + bit_len)) (SPH_T64 (bT1 (st sc) - 1))
    else set_T sc (SPH_T64 (bT0 (st sc) - (1024 - bit_len))) (bT1 (st sc)) in
  let sc :=
    if bit_len <=? 894 then
      let u := memset u (p + 1) 0 (111 - p) in
      let u := if (out_size_w64 =? 8)%nat then upd u 111 (get u 111 .| 1) else u in
      let u := memcpy u 112 (sph_enc64be th) 8 in
      let u := memcpy u 120 (sph_enc64be tl) 8 in
      blake64 sc (firstn (128 - p) (skipn p u))
    else
      let u := memset u (p + 1) 0 (127 - p) in
      let sc := blake64 sc (firstn (128 - p) (skipn p u)) in
      let sc := set_T sc 0xFFFFFFFFFFFFFC00 0xFFFFFFFFFFFFFFFF in
      let u := memset u 0 0 112 in
      let u := if (out_size_w64 =? 8)%nat then upd u 111 1 else u in
      let u := memcpy u 112 (sph_enc64be th) 8 in
      let u := memcpy u 120 (sph_enc64be tl) 8 in
      blake64 sc (firstn 128 u) in
  (sc, flat_map (fun k => sph_enc64be (nth k (bH (st sc)) 0)) (seq 0 out_size_w64)).

Definition salt_zero_small : list Z := [0; 0; 0; 0].
Definition salt_zero_big : list Z := [0; 0; 0; 0].

Definition sph_blake224_init (cc : blake_context) :=
  blake32_init cc IV224 salt_zero_small.
Definition sph_blake224 (cc : blake_context) (data : list Z) := blake32 cc data.
Definition sph_blake224_addbits_and_close (u : list Z) (cc : blake_context) (ub n : Z) :=
  let (cc, dst) := blake32_close u cc ub n 7 in (dst, sph_blake224_init cc).
Definition sph_blake224_close (u : list Z) (cc : blake_context) :=
  sph_blake224_addbits_and_close u cc 0 0.

Definition sph_blake256_init (cc : blake_context) :=
  blake32_init cc IV256 salt_zero_small.
Definition sph_blake256 (cc : blake_context) (data : list Z) := blake32 cc data.
Definition sph_blake256_addbits_and_close (u : list Z) (cc : blake_context) (ub n : Z) :=
  let (cc, dst) := blake32_close u cc ub n 8 in (dst, sph_blake256_init cc).
Definition sph_blake256_close (u : list Z) (cc : blake_context) :=
  sph_blake256_addbits_and_close u cc 0 0.

Definition sph_blake384_init (cc : blake_context) :=
  blake64_init cc IV384 salt_zero_big.
Definition sph_blake384 (cc : blake_context) (data : list Z) := blake64 cc data.
Definition sph_blake384_addbits_and_close (u : list Z) (cc : blake_context) (ub n : Z) :=
  let (cc, dst) := blake64_close u cc ub n 6 in (dst, sph_blake384_init cc).
Definition sph_blake384_close (u : list Z) (cc : blake_context) :=
  sph_blake384_addbits_and_close u cc 0 0.

Definition sph_blake512_init (cc : blake_context) :=
  blake64_init cc IV512 salt_zero_big.
Definition sph_blake512 (cc : blake_context) (data : list Z) := blake64 cc data.
Definition sph_blake512_addbits_and_close (u : list Z) (cc : blake_context) (ub n : Z) :=
  let (cc, dst) := blake64_close u cc ub n 8 in (dst, sph_blake512_init cc).
Definition sph_blake512_close (u : list Z) (cc : blake_context) :=
  sph_blake512_addbits_and_close u cc 0 0.
