(* ===== verification/BlakeSpec.v ===== *)
(** * BlakeSpec: the BLAKE hash functions and the correctness of blake.c

    The first part is the reference definition: constants from the digits of
    pi, initial values from square roots of primes, the [G] function on
    indices of a 16-word state, the compression function with a bit counter,
    and padding of a message of bytes and up to seven extra bits.  The second
    part shows that the code of Blake.v computes it.  The two word sizes
    share one proof: the section [Width] has the update and close functions
    with the word size as a parameter, and the functions of Blake.v are its
    instances. *)

From Stdlib Require Import ZArith List Lia Bool.
From S2P Require Import Prelude SphTypes Stream Blake.
Import ListNotations.

Open Scope Z_scope.
Open Scope word_scope.

(** ** Constants *)

(** [atan_inv fuel x t k]: the sum of [(-1)^i * t / x^(2i) / (2i + 1)] from
    [i = k] on, with [t] in fixed point. *)
Fixpoint atan_inv (fuel : nat) (x t k : Z) : Z :=
  match fuel with
  | O => 0
  | S fuel' => t / (2 * k + 1) - atan_inv fuel' x (t / (x * x)) (k + 1)
  end.

(** [pi * 2^n] by Machin's formula, with 64 guard bits.  Each of the
    [fuel] terms gives at least 4 more bits. *)
Definition pi_fixed (n : Z) : Z :=
  let one := 2 ^ (n + 64) in
  let fuel := Z.to_nat (n / 4 + 32) in
  (4 * (4 * atan_inv fuel 5 (one / 5) 0 - atan_inv fuel 239 (one / 239) 0)) >> 64.

(** The constants: the [i]-th [w]-bit digit of the fraction of pi. *)
Definition blake_c (w : Z) : list Z :=
  let p := pi_fixed 1024 in
  map (fun i => trunc w (p >> (1024 - w * (Z.of_nat i + 1)))) (seq 0 16).

(** The initial values: the first [w] bits of the fraction of the square
    roots of the first eight primes, and for the shorter digests (the last
    of) the first 64 bits of the next eight. *)
Definition sqrt_frac (n p : Z) : Z := trunc n (Z.sqrt (p << (2 * n))).

Definition blake_iv (h : Z) : list Z :=
  if h =? 256 then map (sqrt_frac 32) [2; 3; 5; 7; 11; 13; 17; 19]
  else if h =? 512 then map (sqrt_frac 64) [2; 3; 5; 7; 11; 13; 17; 19]
  else if h =? 384 then map (sqrt_frac 64) [23; 29; 31; 37; 41; 43; 47; 53]
  else map (fun p => trunc 32 (sqrt_frac 64 p)) [23; 29; 31; 37; 41; 43; 47; 53].

(** ** Compression *)

(** The ten permutations. *)
Definition perms : list (list nat) :=
  [[0; 1; 2; 3; 4; 5; 6; 7; 8; 9; 10; 11; 12; 13; 14; 15];
   [14; 10; 4; 8; 9; 15; 13; 6; 1; 12; 0; 2; 11; 7; 5; 3];
   [11; 8; 12; 0; 5; 2; 15; 13; 10; 14; 3; 6; 7; 1; 9; 4];
   [7; 9; 3; 1; 13; 12; 11; 14; 2; 6; 5; 10; 4; 0; 15; 8];
   [9; 0; 5; 7; 2; 4; 10; 15; 14; 1; 11; 12; 6; 8; 3; 13];
   [2; 12; 6; 10; 0; 11; 8; 3; 4; 13; 7; 5; 15; 14; 1; 9];
   [12; 5; 1; 15; 14; 13; 4; 10; 0; 7; 6; 3; 9; 2; 8; 11];
   [13; 11; 7; 14; 12; 1; 3; 9; 5; 0; 15; 4; 8; 6; 2; 10];
   [6; 15; 14; 9; 11; 3; 0; 8; 12; 2; 13; 7; 1; 4; 10; 5];
   [10; 2; 8; 4; 7; 6; 1; 5; 15; 11; 9; 14; 3; 12; 13; 0]]%nat.

Definition rounds_of (w : Z) : nat := if w =? 32 then 14 else 16.

Definition rots_of (w : Z) : Z * Z * Z * Z :=
  if w =? 32 then (16, 12, 8, 7) else (32, 25, 16, 11).

Definition rotr (w x n : Z) : Z := rotl w x (w - n).

(** [G] with its two inputs (a message word xored with a constant). *)
Definition quarter (w x y : Z) (q : Z * Z * Z * Z) : Z * Z * Z * Z :=
  let '(a, b, c, d) := q in
  let '(r1, r2, r3, r4) := rots_of w in
  let a := trunc w (a + b + x) in
  let d := rotr w (d .^ a) r1 in
  let c := trunc w (c + d) in
  let b := rotr w (b .^ c) r2 in
  let a := trunc w (a + b + y) in
  let d := rotr w (d .^ a) r3 in
  let c := trunc w (c + d) in
  let b := rotr w (b .^ c) r4 in
  (a, b, c, d).

(** The state positions of step [i]: the columns, then the diagonals. *)
Definition positions (i : nat) : nat * nat * nat * nat :=
  let j := (i mod 4)%nat in
  if (i <? 4)%nat then (j, 4 + j, 8 + j, 12 + j)%nat
  else (j, 4 + (j + 1) mod 4, 8 + (j + 2) mod 4, 12 + (j + 3) mod 4)%nat.

Definition step (w : Z) (s : list nat) (m cs v : list Z) (i : nat) : list Z :=
  let '(ia, ib, ic, id) := positions i in
  let p := nth (2 * i) s 0%nat in
  let q := nth (2 * i + 1) s 0%nat in
  let '(a, b, c, d) :=
    quarter w (nth p m 0 .^ nth q cs 0) (nth q m 0 .^ nth p cs 0)
      (nth ia v 0, nth ib v 0, nth ic v 0, nth id v 0) in
  upd (upd (upd (upd v ia a) ib b) ic c) id d.

Definition round (w : Z) (m v : list Z) (r : nat) : list Z :=
  fold_left (step w (nth (r mod 10) perms []) m (blake_c w)) (seq 0 8) v.

(** The two words of a bit counter. *)
Definition counter_words (w t : Z) : Z * Z := (trunc w t, trunc w (t >> w)).

Definition dec_be (w : Z) : list Z -> Z := if w =? 32 then sph_dec32be else sph_dec64be.
Definition enc_be (w : Z) : Z -> list Z := if w =? 32 then sph_enc32be else sph_enc64be.

Definition wbytes (w : Z) : nat := Z.to_nat (w / 8).

(** Compression of a block into [h] with counter [t] and no salt. *)
Definition compress (w : Z) (h : list Z) (t : Z) (blk : list Z) : list Z :=
  let '(t0, t1) := counter_words w t in
  let c i := nth i (blake_c w) 0 in
  let m := read_words (dec_be w) (wbytes w) 16 blk in
  let v := h ++ [c 0%nat; c 1%nat; c 2%nat; c 3%nat; t0 .^ c 4%nat; t0 .^ c 5%nat;
                 t1 .^ c 6%nat; t1 .^ c 7%nat] in
  let v := fold_left (round w m) (seq 0 (rounds_of w)) v in
  map (fun i => nth i h 0 .^ nth i v 0 .^ nth (i + 8) v 0) (seq 0 8).

(** ** Padding and iteration *)

(** [k] bytes: [first], zeros, and [one] as the last bit. *)
Definition pad_mid (k : nat) (first one : Z) : list Z :=
  if (k =? 1)%nat then [first .| one] else first :: repeat 0 (k - 2) ++ [one].

(** A message [m] followed by [n] bits of [ub]: a one bit, zeros up to two
    words and a bit before the end of a block, the bit [one] (set for the
    full-length digests), the length in bits. *)
Definition blake_pad (w one : Z) (m : list Z) (ub n : Z) : list Z :=
  let L := 8 * Z.of_nat (length m) + n in
  let zeros := (14 * w - 2 - L) mod (16 * w) in
  let '(tl, th) := counter_words w L in
  m ++ pad_mid (Z.to_nat ((n + 2 + zeros) / 8)) (last_byte ub n) one
    ++ enc_be w th ++ enc_be w tl.

(** The counter of block [i]: the number of message bits up to its end, or
    zero when it has none. *)
Definition block_counter (w L i : Z) : Z :=
  if 16 * w * i <? L then Z.min L (16 * w * (i + 1)) else 0.

Definition blake_block (w L : Z) (blk : list Z) (s : list Z * Z) : list Z * Z :=
  let '(h, i) := s in (compress w h (block_counter w L i) blk, i + 1).

Definition blake_spec (d : Z) (m : list Z) (ub n : Z) : list Z :=
  let w := if d <=? 256 then 32 else 64 in
  let one := if d =? 8 * w then 1 else 0 in
  let L := 8 * Z.of_nat (length m) + n in
  let h := fst (fst (absorb (16 * wbytes w) (blake_block w L) (blake_iv d, 0)
                       (blake_pad w one m ub n))) in
  flat_map (enc_be w) (firstn (Z.to_nat (d / w)) h).

(** The tables of the code are these constants. *)
Lemma constants_ok :
  CSmac = blake_c 32 /\ CBmac = blake_c 64 /\ CS = CSmac /\ CB = CBmac /\ Ztab = perms /\
  IV224 = blake_iv 224 /\ IV256 = blake_iv 256 /\ IV384 = blake_iv 384 /\ IV512 = blake_iv 512.
Proof.
  split; [|split; [|split; [|split; [|split; [|split; [|split; [|split]]]]]]];
    vm_compute; reflexivity.
Qed.

(** ** The round and compression macros *)

Definition Qa w x y a b c d := fst (fst (fst (quarter w x y (a, b, c, d)))).
Definition Qb w x y a b c d := snd (fst (fst (quarter w x y (a, b, c, d)))).
Definition Qc w x y a b c d := snd (fst (quarter w x y (a, b, c, d))).
Definition Qd w x y a b c d := snd (quarter w x y (a, b, c, d)).

Lemma quarter_Q w x y a b c d :
  quarter w x y (a, b, c, d)
  = (Qa w x y a b c d, Qb w x y a b c d, Qc w x y a b c d, Qd w x y a b c d).
Proof. unfold Qa, Qb, Qc, Qd; now destruct (quarter w x y (a, b, c, d)) as [[[? ?] ?] ?]. Qed.

Lemma ROTR32_rotr : SPH_ROTR32 = rotr 32.
Proof. reflexivity. Qed.

Lemma ROTR64_rotr : SPH_ROTR64 = rotr 64.
Proof. reflexivity. Qed.

Lemma GS_Q m0 m1 c0 c1 a b c d :
  GS m0 m1 c0 c1 a b c d
  = (Qa 32 (m0 .^ c1) (m1 .^ c0) a b c d, Qb 32 (m0 .^ c1) (m1 .^ c0) a b c d,
     Qc 32 (m0 .^ c1) (m1 .^ c0) a b c d, Qd 32 (m0 .^ c1) (m1 .^ c0) a b c d).
Proof.
  rewrite <- quarter_Q; unfold GS, quarter.
  now rewrite T32_trunc, ROTR32_rotr.
Qed.

Lemma GB_Q m0 m1 c0 c1 a b c d :
  GB m0 m1 c0 c1 a b c d
  = (Qa 64 (m0 .^ c1) (m1 .^ c0) a b c d, Qb 64 (m0 .^ c1) (m1 .^ c0) a b c d,
     Qc 64 (m0 .^ c1) (m1 .^ c0) a b c d, Qd 64 (m0 .^ c1) (m1 .^ c0) a b c d).
Proof.
  rewrite <- quarter_Q; unfold GB, quarter.
  now rewrite T64_trunc, ROTR64_rotr.
Qed.

(** The element of [m] that position [i] of the permutation [s] selects. *)
Definition pick (s : list nat) (m : list Z) (i : nat) : Z := nth (nth i s 0%nat) m 0.

Lemma step_Q w s m cs v i :
  step w s m cs v i
  = let '(ia, ib, ic, id) := positions i in
    let x := pick s m (2 * i) .^ pick s cs (2 * i + 1) in
    let y := pick s m (2 * i + 1) .^ pick s cs (2 * i) in
    let Q f := f w x y (nth ia v 0) (nth ib v 0) (nth ic v 0) (nth id v 0) in
    upd (upd (upd (upd v ia (Q Qa)) ib (Q Qb)) ic (Q Qc)) id (Q Qd).
Proof. unfold step; destruct (positions i) as [[[? ?] ?] ?]; now rewrite quarter_Q. Qed.

Definition vlist (v : vvars) : list Z :=
  let '(Vv V0 V1 V2 V3 V4 V5 V6 V7 V8 V9 VA VB VC VD VE VF) := v in
  [V0; V1; V2; V3; V4; V5; V6; V7; V8; V9; VA; VB; VC; VD; VE; VF].

Definition steps (w : Z) (s : list nat) (m cs v : list Z) : list Z :=
  fold_left (step w s m cs) (seq 0 8) v.

#[local] Opaque blake_c pick Qa Qb Qc Qd.

(** Evaluate eight quarter-round macros, then eight steps, innermost first. *)
Ltac quarters GQ :=
  do 8 (rewrite GQ; cbv beta iota); cbv [vlist fold_left seq];
  do 8 (match goal with
        | |- context [step ?w ?s ?m ?cs (?x :: ?l) ?i] => rewrite (step_Q w s m cs (x :: l) i)
        end;
        cbv beta iota zeta delta [positions Nat.modulo Nat.divmod Nat.ltb Nat.leb Nat.add Nat.sub
             Nat.mul fst snd nth upd memcpy firstn skipn app]).

Lemma ROUND_S_spec M r v : (r < 10)%nat -> vlist (ROUND_S M r v) = round 32 M (vlist v) r.
Proof.
  intros Hr; unfold round; rewrite Nat.mod_small by lia.
  destruct constants_ok as (<- & _ & _ & _ & <- & _).
  destruct v; unfold ROUND_S.
  change (Mx M r) with (pick (nth r Ztab []) M); change (CSx r) with (pick (nth r Ztab []) CSmac).
  generalize (nth r Ztab []), CSmac; intros s cs.
  quarters GS_Q; reflexivity.
Qed.

Lemma ROUND_B_spec M r v : (r < 10)%nat -> vlist (ROUND_B M r v) = round 64 M (vlist v) r.
Proof.
  intros Hr; unfold round; rewrite Nat.mod_small by lia.
  destruct constants_ok as (_ & <- & _ & _ & <- & _).
  destruct v; unfold ROUND_B.
  change (Mx M r) with (pick (nth r Ztab []) M); change (CBx r) with (pick (nth r Ztab []) CBmac).
  generalize (nth r Ztab []), CBmac; intros s cs.
  quarters GB_Q; reflexivity.
Qed.

(** The compact macros: the 16 rows of [sigma] repeat the ten of [Z]. *)
Lemma sg_Zx r i : (r < 16)%nat -> sg r i = Zx (r mod 10) i.
Proof. intros H; do 16 (destruct r as [|r]; [reflexivity|]); lia. Qed.

Lemma ROUND_S_compact_spec M r v :
  (r < 16)%nat -> ROUND_S_compact M r v = ROUND_S M (r mod 10) v.
Proof.
  intros H; unfold ROUND_S_compact, ROUND_S, Mx, CSx.
  destruct constants_ok as (_ & _ & -> & _); now rewrite !(sg_Zx r) by assumption.
Qed.

Lemma ROUND_B_compact_spec M r v :
  (r < 16)%nat -> ROUND_B_compact M r v = ROUND_B M (r mod 10) v.
Proof.
  intros H; unfold ROUND_B_compact, ROUND_B, Mx, CBx.
  destruct constants_ok as (_ & _ & _ & -> & _); now rewrite !(sg_Zx r) by assumption.
Qed.

#[local] Opaque step perms ROUND_S ROUND_B ROUND_S_compact ROUND_B_compact.

Definition R32 (M : list Z) (v : vvars) : vvars :=
  fold_left (fun v r => ROUND_S M (r mod 10) v) (seq 0 14) v.

Definition R64 (M : list Z) (v : vvars) : vvars :=
  fold_left (fun v r => ROUND_B M (r mod 10) v) (seq 0 16) v.

Lemma rounds_S M v : vlist (R32 M v) = fold_left (round 32 M) (seq 0 14) (vlist v).
Proof.
  unfold R32; cbv [seq fold_left].
  rewrite !ROUND_S_spec by (apply Nat.mod_upper_bound; lia); reflexivity.
Qed.

Lemma rounds_B M v : vlist (R64 M v) = fold_left (round 64 M) (seq 0 16) (vlist v).
Proof.
  unfold R64; cbv [seq fold_left].
  rewrite !ROUND_B_spec by (apply Nat.mod_upper_bound; lia); reflexivity.
Qed.

(** The local variables of a context with no salt. *)
Definition hv (h : list Z) (t : Z * Z) : hvars :=
  READ_STATE32 (BState h [0; 0; 0; 0] (fst t) (snd t)).

(** The compression macros around their rounds [R]. *)
Definition compress_with (C : list Z) (R : vvars -> vvars) (s : hvars) : hvars :=
  let '(Hv H0 H1 H2 H3 H4 H5 H6 H7 S0 S1 S2 S3 T0 T1) := s in
  let v := Vv H0 H1 H2 H3 H4 H5 H6 H7
             (S0 .^ nth 0 C 0) (S1 .^ nth 1 C 0) (S2 .^ nth 2 C 0) (S3 .^ nth 3 C 0)
             (T0 .^ nth 4 C 0) (T0 .^ nth 5 C 0) (T1 .^ nth 6 C 0) (T1 .^ nth 7 C 0) in
  let '(Vv V0 V1 V2 V3 V4 V5 V6 V7 V8 V9 VA VB VC VD VE VF) := R v in
  Hv (H0 .^ (S0 .^ V0 .^ V8)) (H1 .^ (S1 .^ V1 .^ V9))
     (H2 .^ (S2 .^ V2 .^ VA)) (H3 .^ (S3 .^ V3 .^ VB))
     (H4 .^ (S0 .^ V4 .^ VC)) (H5 .^ (S1 .^ V5 .^ VD))
     (H6 .^ (S2 .^ V6 .^ VE)) (H7 .^ (S3 .^ V7 .^ VF))
     S0 S1 S2 S3 T0 T1.

Lemma COMPRESS32_with buf s :
  COMPRESS32 buf s = compress_with CSmac (R32 (read_words sph_dec32be 4 16 buf)) s.
Proof. destruct s; reflexivity. Qed.

Lemma COMPRESS64_with buf s :
  COMPRESS64 buf s = compress_with CBmac (R64 (read_words sph_dec64be 8 16 buf)) s.
Proof. destruct s; reflexivity. Qed.

Lemma compress_with_spec C R F h t :
  length h = 8%nat -> (forall v, vlist (R v) = F (vlist v)) ->
  compress_with C R (hv h t)
  = hv (let v := F (h ++ [nth 0 C 0; nth 1 C 0; nth 2 C 0; nth 3 C 0; fst t .^ nth 4 C 0;
                          fst t .^ nth 5 C 0; snd t .^ nth 6 C 0; snd t .^ nth 7 C 0]) in
        map (fun i => nth i h 0 .^ nth i v 0 .^ nth (i + 8) v 0) (seq 0 8)) t.
Proof.
  intros Hh HR; do 9 (destruct h as [|? h]; try discriminate Hh).
  unfold compress_with, hv, READ_STATE32; cbn [nth bH bS bT0 bT1 app].
  rewrite !Z.lxor_0_l; set (v := Vv _ _ _ _ _ _ _ _ _ _ _ _ _ _ _ _).
  specialize (HR v); cbn [vlist v] in HR; rewrite <- HR; destruct (R v).
  cbn [vlist map seq nth Nat.add]; now rewrite !Z.lxor_0_l, !Z.lxor_assoc.
Qed.

Lemma COMPRESS32_spec buf h t :
  length h = 8%nat ->
  COMPRESS32 buf (hv h (counter_words 32 t)) = hv (compress 32 h t buf) (counter_words 32 t).
Proof.
  intros Hh; rewrite COMPRESS32_with; rewrite (compress_with_spec _ _ _ _ _ Hh (rounds_S _)).
  now destruct constants_ok as (-> & _).
Qed.

Lemma COMPRESS64_spec buf h t :
  length h = 8%nat ->
  COMPRESS64 buf (hv h (counter_words 64 t)) = hv (compress 64 h t buf) (counter_words 64 t).
Proof.
  intros Hh; rewrite COMPRESS64_with; rewrite (compress_with_spec _ _ _ _ _ Hh (rounds_B _)).
  now destruct constants_ok as (_ & -> & _).
Qed.

Lemma length_compress w h t blk : length (compress w h t blk) = 8%nat.
Proof. reflexivity. Qed.

Lemma rounds_compact_S M v :
  fold_left (fun v r => ROUND_S_compact M r v) (seq 0 14) v = R32 M v.
Proof.
  apply fold_left_ext_in; intros r x Hr; apply in_seq in Hr; apply ROUND_S_compact_spec; lia.
Qed.

Lemma rounds_compact_B M v :
  fold_left (fun v r => ROUND_B_compact M r v) (seq 0 16) v = R64 M v.
Proof.
  apply fold_left_ext_in; intros r x Hr; apply in_seq in Hr; apply ROUND_B_compact_spec; lia.
Qed.

Lemma compress_with_ext C R R' s :
  (forall v, R v = R' v) -> compress_with C R s = compress_with C R' s.
Proof. intros E; destruct s; unfold compress_with; now rewrite E. Qed.

Lemma COMPRESS32_compact_with buf s :
  COMPRESS32_compact buf s
  = compress_with CSmac
      (fold_left (fun v r => ROUND_S_compact (read_words sph_dec32be 4 16 buf) r v) (seq 0 14)) s.
Proof. destruct s; reflexivity. Qed.

Lemma COMPRESS64_compact_with buf s :
  COMPRESS64_compact buf s
  = compress_with CBmac
      (fold_left (fun v r => ROUND_B_compact (read_words sph_dec64be 8 16 buf) r v) (seq 0 16)) s.
Proof. destruct s; reflexivity. Qed.

Lemma COMPRESS32_compact_spec buf s : COMPRESS32_compact buf s = COMPRESS32 buf s.
Proof.
  refine (eq_trans (COMPRESS32_compact_with buf s) (eq_trans _ (eq_sym (COMPRESS32_with buf s)))).
  apply compress_with_ext, rounds_compact_S.
Qed.

Lemma COMPRESS64_compact_spec buf s : COMPRESS64_compact buf s = COMPRESS64 buf s.
Proof.
  refine (eq_trans (COMPRESS64_compact_with buf s) (eq_trans _ (eq_sym (COMPRESS64_with buf s)))).
  apply compress_with_ext, rounds_compact_B.
Qed.

#[local] Opaque COMPRESS32 COMPRESS64 compress.

(** ** Counters *)

Lemma counter_words_mod w t :
  0 <= w -> counter_words w t = (t mod 2 ^ w, t / 2 ^ w mod 2 ^ w).
Proof. intros; unfold counter_words; now rewrite !trunc_mod, Z.shiftr_div_pow2 by lia. Qed.

(** Addition on the two words with a carry test on the low one. *)
Lemma counter_add w t k :
  0 <= w -> 0 <= k <= 2 ^ w ->
  let '(t0, t1) := counter_words w t in
  let t0' := trunc w (t0 + k) in
  (t0', if t0' <? k then trunc w (t1 + 1) else t1) = counter_words w (t + k).
Proof.
  intros Hw Hk; rewrite !counter_words_mod by lia.
  rewrite !trunc_mod by lia; set (M := 2 ^ w) in *.
  assert (0 < M) by (apply Z.pow_pos_nonneg; lia).
  cbv beta iota zeta; rewrite !Zplus_mod_idemp_l.
  pose proof (Z.div_mod t M) as D; pose proof (Z.mod_pos_bound t M) as B.
  set (q := t / M) in *; set (r := t mod M) in *; clearbody q r.
  destruct (Z.lt_ge_cases (r + k) M) as [Hlt|Hge].
  - rewrite <- (Z.mod_unique (t + k) M q (r + k)), <- (Z.div_unique (t + k) M q (r + k)) by lia.
    destruct (Z.ltb_spec (r + k) k); [lia|reflexivity].
  - rewrite <- (Z.mod_unique (t + k) M (q + 1) (r + k - M)),
      <- (Z.div_unique (t + k) M (q + 1) (r + k - M)) by lia.
    destruct (Z.ltb_spec (r + k - M) k); [reflexivity|lia].
Qed.

(** ** The update and close functions, for either word size *)

Section Width.
Context (w : Z) (wb : nat) (comp : list Z -> hvars -> hvars).

Definition wblen : nat := 16 * wb.
Definition wlast : nat := 14 * wb - 1.

Definition wprocess (b : list Z) (s : hvars) : hvars :=
  let '(Hv H0 H1 H2 H3 H4 H5 H6 H7 S0 S1 S2 S3 T0 T1) := s in
  let T0 := trunc w (T0 + 16 * w) in
  let T1 := if T0 <? 16 * w then trunc w (T1 + 1) else T1 in
  comp b (Hv H0 H1 H2 H3 H4 H5 H6 H7 S0 S1 S2 S3 T0 T1).

Definition wupdate (sc : blake_context) (data : list Z) : blake_context :=
  if (length data <? wblen - ptr sc)%nat then
    Ctx (memcpy (buf sc) (ptr sc) data (length data)) (ptr sc + length data) (st sc)
  else
    let r := core_loop wblen wprocess (length data) (buf sc) (ptr sc)
               (READ_STATE32 (st sc)) data in
    Ctx (buf r) (ptr r) (WRITE_STATE32 (st r)).

(** The counter of the last block that has message bits, less one block. *)
Definition wcounter (sc : blake_context) (bit_len n : Z) : blake_context :=
  if (ptr sc =? 0)%nat && (n =? 0) then set_T sc (2 ^ w - 16 * w) (2 ^ w - 1)
  else if bT0 (st sc) =? 0 then
    set_T sc (trunc w (2 ^ w - 16 * w + bit_len)) (trunc w (bT1 (st sc) - 1))
  else set_T sc (trunc w (bT0 (st sc) - (16 * w - bit_len))) (bT1 (st sc)).

(** The padding and the length, in one block from [p] on, or in a block of
    their own. *)
Definition wlength (u : list Z) (th tl : Z) : list Z :=
  memcpy (memcpy u (14 * wb) (enc_be w th) wb) (15 * wb) (enc_be w tl) wb.

Definition wpad_one (u : list Z) (p k : nat) (th tl : Z) : list Z :=
  let u := memset u (p + 1) 0 (wlast - p) in
  let u := if (k =? 8)%nat then upd u wlast (get u wlast .| 1) else u in
  wlength u th tl.

Definition wpad_two (u : list Z) (k : nat) (th tl : Z) : list Z :=
  let u := memset u 0 0 (14 * wb) in
  let u := if (k =? 8)%nat then upd u wlast 1 else u in
  wlength u th tl.

Definition wclose (u : list Z) (sc : blake_context) (ub n : Z) (k : nat)
  : blake_context * list Z :=
  let p := ptr sc in
  let bit_len := (Z.of_nat p << 3) + n in
  let z := 0x80 >> n in
  let u := upd u p (((ub .& SPH_T32 (- z)) .| z) .& 0xFF) in
  let tl := trunc w (bT0 (st sc) + bit_len) in
  let th := bT1 (st sc) in
  let sc := wcounter sc bit_len n in
  let sc :=
    if bit_len <=? 14 * w - 2 then
      wupdate sc (firstn (wblen - p) (skipn p (wpad_one u p k th tl)))
    else
      let u := memset u (p + 1) 0 (wblen - 1 - p) in
      let sc := wupdate sc (firstn (wblen - p) (skipn p u)) in
      let sc := set_T sc (2 ^ w - 16 * w) (2 ^ w - 1) in
      wupdate sc (firstn wblen (wpad_two u k th tl)) in
  (sc, flat_map (fun k => enc_be w (nth k (bH (st sc)) 0)) (seq 0 k)).
End Width.

Lemma blake32_width : blake32 = wupdate 32 4 COMPRESS32.
Proof. reflexivity. Qed.

Lemma blake64_width : blake64 = wupdate 64 8 COMPRESS64.
Proof. reflexivity. Qed.

Lemma blake32_close_width : blake32_close = wclose 32 4 COMPRESS32.
Proof.
  unfold blake32_close, wclose, wpad_one, wpad_two, wlength, wcounter; rewrite blake32_width, T32_trunc.
  change (enc_be 32) with sph_enc32be; reflexivity.
Qed.

Lemma blake64_close_width : blake64_close = wclose 64 8 COMPRESS64.
Proof.
  unfold blake64_close, wclose, wpad_one, wpad_two, wlength, wcounter; rewrite blake64_width, T64_trunc.
  change (enc_be 64) with sph_enc64be; reflexivity.
Qed.

Section WidthProof.
Context (w : Z) (wb : nat) (comp : list Z -> hvars -> hvars).
Context (w_pos : (0 < wb)%nat) (w_wb : w = 8 * Z.of_nat wb).
Context (w_div : exists q, 2 ^ w = q * (16 * w)).
Context (enc_length : forall x, length (enc_be w x) = wb).
Context (comp_spec : forall b h t, length h = 8%nat ->
  comp b (hv h (counter_words w t)) = hv (compress w h t b) (counter_words w t)).

Abbreviation blen := (16 * wb)%nat.
Abbreviation process := (wprocess w comp).
Abbreviation update := (wupdate w wb comp).

Lemma blake_process_spec b h t :
  length h = 8%nat ->
  process b (hv h (counter_words w t))
  = hv (compress w h (t + 16 * w) b) (counter_words w (t + 16 * w)).
Proof.
  intros Hh; rewrite <- comp_spec by assumption.
  assert (Hk : 0 <= 16 * w <= 2 ^ w).
  { destruct w_div as [q E]; assert (0 < 2 ^ w) by (apply Z.pow_pos_nonneg; lia).
    assert (1 <= q) by (clear - E H w_pos w_wb; nia); nia. }
  pose proof (counter_add w t (16 * w) ltac:(lia) Hk) as E.
  destruct (counter_words w t) as [t0 t1]; rewrite <- E; reflexivity.
Qed.

(** The block function of the specification while the message has not
    ended, with the number of bits so far. *)
Definition full_block (blk : list Z) (s : list Z * Z) : list Z * Z :=
  let '(h, i) := s in (compress w h (16 * w * (i + 1)) blk, i + 1).

Definition rel (v : hvars) (s : list Z * Z) : Prop :=
  length (fst s) = 8%nat /\ 0 <= snd s /\ v = hv (fst s) (counter_words w (16 * w * snd s)).

Lemma blake_process_rel blk v s : rel v s -> rel (process blk v) (full_block blk s).
Proof.
  destruct s as [h i]; intros (Hh & Hi & ->); cbn [fst snd] in *; split; [|split]; cbn [fst snd full_block].
  - apply length_compress.
  - lia.
  - rewrite blake_process_spec by assumption; now replace (16 * w * i + 16 * w) with (16 * w * (i + 1)) by lia.
Qed.

Lemma full_block_index data h i :
  snd (fst (absorb blen full_block (h, i) data)) = i + Z.of_nat (length data / blen).
Proof.
  revert h i; induction data as [data H|blk data H IH] using (block_ind blen ltac:(lia)); intros h i.
  - rewrite absorb_short, Nat.div_small by (lia || assumption); cbn [fst snd]; lia.
  - rewrite absorb_block by (lia || assumption); cbn [full_block]; rewrite IH, length_app, H.
    replace (blen + length data)%nat with (length data + 1 * blen)%nat by lia.
    rewrite Nat.div_add by lia; lia.
Qed.

(** On the blocks before the end of the message the counter is the number
    of bits so far. *)
Lemma blake_block_full L data h i :
  0 <= i -> 16 * w * (i + Z.of_nat (length data / blen)) <= L ->
  absorb blen (blake_block w L) (h, i) data = absorb blen full_block (h, i) data.
Proof.
  revert h i; induction data as [data H|blk data H IH] using (block_ind blen ltac:(lia)); intros h i Hi HL.
  - now rewrite !absorb_short by (lia || assumption).
  - rewrite !absorb_block by (lia || assumption).
    rewrite length_app, H in HL.
    replace (blen + length data)%nat with (length data + 1 * blen)%nat in HL by lia.
    rewrite Nat.div_add in HL by lia.
    assert (Hc : block_counter w L i = 16 * w * (i + 1)).
    { unfold block_counter; destruct (Z.ltb_spec (16 * w * i) L); nia. }
    cbn [blake_block full_block]; rewrite Hc; apply IH; [lia|].
    rewrite Nat2Z.inj_add in HL; lia.
Qed.

Definition read_ctx : blake_context -> sctx hvars := ctx_map READ_STATE32.

Lemma blake_READ_WRITE v : READ_STATE32 (WRITE_STATE32 v) = v.
Proof. destruct v; reflexivity. Qed.

Lemma update_sim c data : read_ctx (update c data) = core blen process (read_ctx c) data.
Proof.
  unfold wupdate, core, read_ctx, wblen; cbn [ctx_map ptr buf st].
  destruct (_ <? _)%nat; [reflexivity|].
  destruct (core_loop _ _ _ _ _ _ _) as [b p s]; unfold ctx_map; cbn [buf ptr st]; now rewrite blake_READ_WRITE.
Qed.

Lemma process_local b s :
  length b = blen -> process (firstn blen b) s = process b s.
Proof. intros H; now rewrite firstn_all2 by lia. Qed.

(** Data that completes the pending block. *)
Lemma update_block c data :
  length (buf c) = blen -> (ptr c < blen)%nat -> length data = (blen - ptr c)%nat ->
  READ_STATE32 (st (update c data)) = process (firstn (ptr c) (buf c) ++ data) (READ_STATE32 (st c))
  /\ ptr (update c data) = 0%nat /\ length (buf (update c data)) = blen.
Proof.
  intros Hb Hp Hd.
  destruct (core_refines blen process ltac:(lia) blen ltac:(lia) process_local (read_ctx c) data)
    as [[Hl Hlt] Ha]; [split; assumption|].
  rewrite <- update_sim in Hl, Hlt, Ha; cbn [read_ctx ctx_map buf ptr st] in Hl, Hlt.
  unfold ctx_abs in Ha; cbn [read_ctx ctx_map buf ptr st fst snd] in Ha.
  rewrite <- (app_nil_r (_ ++ data)), absorb_block in Ha
    by (lia || rewrite length_app, length_firstn; lia).
  rewrite absorb_short in Ha by (cbn; lia).
  injection Ha as Ha Hn; split; [exact Ha|]; split; [|exact Hl].
  apply (f_equal (@length Z)) in Hn; rewrite length_firstn in Hn; cbn in Hn; lia.
Qed.

(** *** The final counters *)

Lemma counter_words_split Q r :
  0 <= r < 2 ^ w -> counter_words w (2 ^ w * Q + r) = (r, Q mod 2 ^ w).
Proof.
  intros Hr; rewrite counter_words_mod by lia.
  now rewrite <- (Z.mod_unique (2 ^ w * Q + r) (2 ^ w) Q r), <- (Z.div_unique (2 ^ w * Q + r) (2 ^ w) Q r)
    by lia.
Qed.

Lemma base_counter i :
  exists Q t0, 16 * w * i = 2 ^ w * Q + t0 /\ 0 <= t0 <= 2 ^ w - 16 * w /\ (t0 = 0 \/ 16 * w <= t0).
Proof.
  destruct w_div as [q E]; assert (0 < 2 ^ w) by (apply Z.pow_pos_nonneg; lia).
  assert (Hq : 0 < q) by (clear - E H w_pos w_wb; nia).
  exists (i / q), (16 * w * (i mod q)).
  pose proof (Z.div_mod i q ltac:(lia)); pose proof (Z.mod_pos_bound i q Hq).
  rewrite E; clear E; repeat split; try nia.
  destruct (Z.eq_dec (i mod q) 0) as [-> | ]; [left; lia | right; nia].
Qed.

(** One block below zero. *)
Lemma counter_minus : counter_words w (0 - 16 * w) = (2 ^ w - 16 * w, 2 ^ w - 1).
Proof.
  destruct (base_counter 0) as (Q & t0 & _ & H & _).
  replace (0 - 16 * w) with (2 ^ w * (-1) + (2 ^ w - 16 * w)) by lia.
  rewrite counter_words_split by lia; f_equal.
  rewrite <- (Z.mod_unique (-1) (2 ^ w) (-1) (2 ^ w - 1)) by lia; reflexivity.
Qed.

Definition set_counter (v : hvars) (a b : Z) : hvars :=
  let '(Hv H0 H1 H2 H3 H4 H5 H6 H7 S0 S1 S2 S3 _ _) := v in
  Hv H0 H1 H2 H3 H4 H5 H6 H7 S0 S1 S2 S3 a b.

Lemma set_T_hv c h t a b :
  READ_STATE32 (st c) = hv h t -> READ_STATE32 (st (set_T c a b)) = hv h (a, b).
Proof.
  intros E; change (READ_STATE32 (st (set_T c a b))) with (set_counter (READ_STATE32 (st c)) a b).
  rewrite E; reflexivity.
Qed.

Lemma hv_T c h t : READ_STATE32 (st c) = hv h t -> bT0 (st c) = fst t /\ bT1 (st c) = snd t.
Proof. unfold hv, READ_STATE32; cbn; intros E; injection E; auto. Qed.

Lemma wcounter_step c h i bit_len :
  READ_STATE32 (st c) = hv h (counter_words w (16 * w * i)) -> 0 < bit_len < 16 * w ->
  READ_STATE32 (st
    (if bT0 (st c) =? 0 then
       set_T c (trunc w (2 ^ w - 16 * w + bit_len)) (trunc w (bT1 (st c) - 1))
     else set_T c (trunc w (bT0 (st c) - (16 * w - bit_len))) (bT1 (st c))))
  = hv h (counter_words w (block_counter w (16 * w * i + bit_len) i - 16 * w)).
Proof.
  intros Hc Hl; destruct (hv_T _ _ _ Hc) as [E0 E1].
  destruct (base_counter i) as (Q & t0 & E & Ht & Hz).
  rewrite E, counter_words_split in E0, E1 by lia; cbn [fst snd] in E0, E1.
  unfold block_counter; destruct (Z.ltb_spec (16 * w * i) (16 * w * i + bit_len)); [|lia].
  rewrite Z.min_l, E by lia; destruct (Z.eqb_spec (bT0 (st c)) 0) as [Z0|Z0].
  - rewrite (set_T_hv _ _ _ _ _ Hc).
    replace (2 ^ w * Q + t0 + bit_len - 16 * w)
      with (2 ^ w * (Q - 1) + (2 ^ w - 16 * w + bit_len)) by lia.
    rewrite counter_words_split, E1, trunc_small, trunc_mod by (unfold inw; lia).
    now rewrite Zminus_mod_idemp_l.
  - rewrite (set_T_hv _ _ _ _ _ Hc).
    replace (2 ^ w * Q + t0 + bit_len - 16 * w) with (2 ^ w * Q + (t0 - (16 * w - bit_len))) by lia.
    now rewrite counter_words_split, E1, E0, trunc_small by (unfold inw; lia).
Qed.

(** Before the last block with message bits, the counter stands one block
    below the value the specification gives that block. *)
Lemma wcounter_spec c h i n :
  READ_STATE32 (st c) = hv h (counter_words w (16 * w * i)) ->
  (ptr c < blen)%nat -> 0 <= n < 8 ->
  let bit_len := 8 * Z.of_nat (ptr c) + n in
  let L := 16 * w * i + bit_len in
  READ_STATE32 (st (wcounter w c bit_len n)) = hv h (counter_words w (block_counter w L i - 16 * w))
  /\ ptr (wcounter w c bit_len n) = ptr c /\ buf (wcounter w c bit_len n) = buf c
  /\ trunc w (bT0 (st c) + bit_len) = fst (counter_words w L)
  /\ bT1 (st c) = snd (counter_words w L).
Proof.
  intros Hc Hp Hn bit_len L; destruct (hv_T _ _ _ Hc) as [E0 E1].
  destruct (base_counter i) as (Q & t0 & E & Ht & Hz).
  assert (Hl : 0 <= bit_len < 16 * w) by lia.
  rewrite E, counter_words_split in E0, E1 by lia; cbn [fst snd] in E0, E1.
  assert (EL : counter_words w L = (t0 + bit_len, Q mod 2 ^ w)).
  { unfold L; rewrite E, <- Z.add_assoc, counter_words_split by lia; reflexivity. }
  split; [|split; [|split; [|split]]].
  - unfold wcounter, block_counter; fold L bit_len.
    destruct (Nat.eqb_spec (ptr c) 0) as [Hp0|Hp0], (Z.eqb_spec n 0) as [Hn0|Hn0]; cbn [andb].
    + rewrite (set_T_hv _ _ _ _ _ Hc); destruct (Z.ltb_spec (16 * w * i) L); [lia|].
      now rewrite counter_minus.
    + exact (wcounter_step c h i bit_len Hc ltac:(lia)).
    + exact (wcounter_step c h i bit_len Hc ltac:(lia)).
    + exact (wcounter_step c h i bit_len Hc ltac:(lia)).
  - unfold wcounter; destruct (_ && _); [|destruct (bT0 (st c) =? 0)]; reflexivity.
  - unfold wcounter; destruct (_ && _); [|destruct (bT0 (st c) =? 0)]; reflexivity.
  - rewrite EL, E0, trunc_small by (unfold inw; lia); reflexivity.
  - now rewrite EL, E1.
Qed.

(** *** The padding written to the local buffer *)

Abbreviation fin := (wlength w wb).

Lemma fin_spec u th tl :
  length u = blen -> fin u th tl = firstn (14 * wb) u ++ enc_be w th ++ enc_be w tl.
Proof.
  intros Hu; unfold wlength; set (u1 := memcpy u (14 * wb) (enc_be w th) wb).
  assert (Hl : length u1 = blen) by (unfold u1; rewrite length_memcpy; rewrite ?enc_length; lia).
  assert (E : firstn (15 * wb) u1 = firstn (14 * wb) u ++ enc_be w th).
  { replace (15 * wb)%nat with (14 * wb + wb)%nat by lia; unfold u1.
    rewrite firstn_memcpy, (firstn_all2 (enc_be w th)); rewrite ?enc_length; lia || reflexivity. }
  unfold memcpy; rewrite E, (firstn_all2 (enc_be w tl)) by (rewrite enc_length; lia).
  rewrite skipn_all2 by lia; now rewrite app_nil_r, <- app_assoc.
Qed.

Lemma length_fin u th tl : length u = blen -> length (fin u th tl) = blen.
Proof. intros Hu; rewrite fin_spec, !length_app, length_firstn, !enc_length by assumption; lia. Qed.

(** The last byte before the length, on its own. *)
Lemma pad_mid_split u u1 p x one :
  length u = blen -> length u1 = blen -> (p < 14 * wb)%nat ->
  firstn (14 * wb) u1 = firstn p u ++ x :: repeat 0 (14 * wb - 1 - p) ->
  exists y, firstn (14 * wb) u1 = firstn (14 * wb - 1) u1 ++ [y]
    /\ get u1 (14 * wb - 1) = y
    /\ firstn (14 * wb - 1) u1 ++ [y .| one] = firstn p u ++ pad_mid (14 * wb - p) x one.
Proof.
  intros Hu H1 Hp F; set (q := (14 * wb - 1)%nat) in *.
  assert (Eq : (14 * wb = S q)%nat) by lia; rewrite Eq in *.
  assert (N : firstn (S q) u1 = firstn q u1 ++ [get u1 q]).
  { rewrite <- (firstn_skipn q u1) at 1; rewrite firstn_app, firstn_all2, length_firstn
      by (rewrite length_firstn; lia).
    replace (S q - Nat.min q (length u1))%nat with 1%nat by lia; f_equal.
    unfold get; rewrite <- (Nat.add_0_r q) at 2; rewrite <- nth_skipn.
    destruct (skipn q u1) eqn:E; [|reflexivity].
    apply (f_equal (@length Z)) in E; rewrite length_skipn in E; cbn in E; lia. }
  exists (get u1 q); split; [assumption|]; split; [reflexivity|].
  rewrite N in F; unfold pad_mid; destruct (Nat.eqb_spec (S q - p) 1) as [Hq|Hq].
  - replace (q - p)%nat with 0%nat in F by lia; cbn [repeat] in F.
    apply app_inj_tail in F as [-> ->]; reflexivity.
  - replace (q - p)%nat with (S q - p - 2 + 1)%nat in F by lia.
    rewrite repeat_app, app_comm_cons, app_assoc in F; apply app_inj_tail in F as [-> ->].
    now rewrite <- app_assoc.
Qed.

(** The bytes from the fill pointer on, when they fit in the block. *)
Lemma pad_mid_one u p x (k : nat) :
  length u = blen -> (p < 14 * wb)%nat ->
  let u1 := memset (upd u p x) (p + 1) 0 (wlast wb - p) in
  let u2 := if (k =? 8)%nat then upd u1 (wlast wb) (get u1 (wlast wb) .| 1) else u1 in
  length u2 = blen /\
  firstn (14 * wb) u2 = firstn p u ++ pad_mid (14 * wb - p) x (if (k =? 8)%nat then 1 else 0).
Proof.
  intros Hu Hp u1 u2; unfold wlast in *.
  assert (L1 : length u1 = blen).
  { unfold u1; rewrite length_memset; rewrite length_upd; lia. }
  assert (F1 : firstn (14 * wb) u1 = firstn p u ++ x :: repeat 0 (14 * wb - 1 - p)).
  { unfold u1, memset; replace (14 * wb)%nat with (p + 1 + (14 * wb - 1 - p))%nat at 1 by lia.
    rewrite firstn_memcpy by (rewrite ?length_upd, ?repeat_length; lia).
    rewrite (firstn_all2 (repeat 0 _)) by (rewrite repeat_length; lia).
    unfold upd; rewrite firstn_memcpy by (cbn; lia); now rewrite <- app_assoc. }
  assert (G : exists y, firstn (14 * wb) u1 = firstn (14 * wb - 1) u1 ++ [y]
      /\ get u1 (14 * wb - 1) = y
      /\ firstn (14 * wb - 1) u1 ++ [y .| if (k =? 8)%nat then 1 else 0]
         = firstn p u ++ pad_mid (14 * wb - p) x (if (k =? 8)%nat then 1 else 0)).
  { destruct (pad_mid_split u u1 p x (if (k =? 8)%nat then 1 else 0)) as [y Hy]; auto; now exists y. }
  destruct G as (y & Gy & Gn & Gp); unfold u2; rewrite Gn; destruct (k =? 8)%nat.
  - split; [rewrite length_upd; lia|]; rewrite <- Gp; unfold upd.
    replace (14 * wb)%nat with (14 * wb - 1 + 1)%nat at 1 by lia.
    rewrite firstn_memcpy by (cbn; lia); reflexivity.
  - split; [assumption|]; rewrite <- Gp, Gy, Z.lor_0_r; reflexivity.
Qed.

(** The second block, when they do not. *)
Lemma pad_second u (k : nat) :
  length u = blen ->
  let u1 := memset u 0 0 (14 * wb) in
  let u2 := if (k =? 8)%nat then upd u1 (wlast wb) 1 else u1 in
  length u2 = blen /\
  firstn (14 * wb) u2 = repeat 0 (14 * wb - 1) ++ [if (k =? 8)%nat then 1 else 0].
Proof.
  intros Hu u1 u2; unfold wlast in *; assert (L1 : length u1 = blen) by (unfold u1; rewrite length_memset; lia).
  assert (F : firstn (14 * wb) u1 = repeat 0 (14 * wb)).
  { unfold u1, memset; change (firstn (14 * wb)) with (@firstn Z (0 + 14 * wb)).
    rewrite firstn_memcpy by (rewrite ?repeat_length; lia).
    now rewrite firstn_O, firstn_all2 by (rewrite repeat_length; lia). }
  assert (R : repeat 0 (14 * wb) = repeat 0 (14 * wb - 1) ++ [0]).
  { now rewrite <- (repeat_app 0 _ 1), Nat.sub_add by lia. }
  unfold u2; destruct (k =? 8)%nat; [|now rewrite F, R].
  split; [rewrite length_upd; lia|]; unfold upd.
  replace (14 * wb)%nat with (14 * wb - 1 + 1)%nat at 1 by lia.
  rewrite firstn_memcpy by (rewrite ?L1; cbn [length]; lia); f_equal.
  replace (14 * wb - 1)%nat with (Nat.min (14 * wb - 1) (14 * wb)) at 1 by lia.
  rewrite <- firstn_firstn, F, R, firstn_app, repeat_length, Nat.sub_diag, firstn_O, app_nil_r.
  now rewrite firstn_all2 by (rewrite repeat_length; lia).
Qed.

Lemma blake_pad_split m ub n one :
  0 <= n < 8 ->
  let p := (length m mod blen)%nat in
  let L := 8 * Z.of_nat (length m) + n in
  let E := enc_be w (snd (counter_words w L)) ++ enc_be w (fst (counter_words w L)) in
  blake_pad w one m ub n
  = m ++ (if 8 * Z.of_nat p + n <=? 14 * w - 2
          then pad_mid (14 * wb - p) (last_byte ub n) one ++ E
          else (last_byte ub n :: repeat 0 (blen - 1 - p)) ++ repeat 0 (14 * wb - 1) ++ [one] ++ E).
Proof.
  intros Hn p L E; unfold blake_pad; fold L.
  pose proof (Nat.div_mod (length m) blen ltac:(lia)) as D; fold p in D.
  pose proof (Nat.mod_upper_bound (length m) blen ltac:(lia)) as B; fold p in B.
  set (i := (length m / blen)%nat) in *.
  assert (HL : L = 16 * w * Z.of_nat i + (8 * Z.of_nat p + n)) by (unfold L; rewrite D; nia).
  destruct (counter_words w L) as [tl th] eqn:Ec; cbn [fst snd] in E; f_equal.
  destruct (Z.leb_spec (8 * Z.of_nat p + n) (14 * w - 2)) as [Hc|Hc].
  - rewrite <- (Z.mod_unique (14 * w - 2 - L) (16 * w) (- Z.of_nat i) (14 * w - 2 - (8 * Z.of_nat p + n)))
      by (rewrite ?HL; lia).
    replace (n + 2 + _) with (Z.of_nat (14 * wb - p) * 8) by lia.
    now rewrite Z.div_mul, Nat2Z.id by lia.
  - rewrite <- (Z.mod_unique (14 * w - 2 - L) (16 * w) (- Z.of_nat i - 1)
                  (30 * w - 2 - (8 * Z.of_nat p + n))) by (rewrite ?HL; lia).
    replace (n + 2 + _) with (Z.of_nat (30 * wb - p) * 8) by lia.
    rewrite Z.div_mul, Nat2Z.id by lia; unfold pad_mid.
    destruct (Nat.eqb_spec (30 * wb - p) 1); [lia|].
    replace (30 * wb - p - 2)%nat with (blen - 1 - p + (14 * wb - 1))%nat by lia.
    rewrite repeat_app, <- !app_comm_cons, <- !app_assoc; reflexivity.
Qed.

Lemma wpad_one_spec u p x k th tl :
  length u = blen -> (p < 14 * wb)%nat ->
  firstn (wblen wb - p) (skipn p (wpad_one w wb (upd u p x) p k th tl))
  = pad_mid (14 * wb - p) x (if (k =? 8)%nat then 1 else 0) ++ enc_be w th ++ enc_be w tl.
Proof.
  intros Hu Hp; destruct (pad_mid_one u p x k Hu Hp) as [Hl Hf]; unfold wpad_one.
  rewrite firstn_all2 by (rewrite length_skipn, length_fin by assumption; unfold wblen; lia).
  rewrite fin_spec, Hf, <- app_assoc, skipn_app, skipn_all2, length_firstn
    by (assumption || rewrite length_firstn; lia).
  replace (p - Nat.min p (length u))%nat with 0%nat by lia; reflexivity.
Qed.

Lemma wpad_two_spec u k th tl :
  length u = blen ->
  firstn (wblen wb) (wpad_two w wb u k th tl)
  = repeat 0 (14 * wb - 1) ++ [if (k =? 8)%nat then 1 else 0] ++ enc_be w th ++ enc_be w tl.
Proof.
  intros Hu; destruct (pad_second u k Hu) as [Hl Hf]; unfold wpad_two.
  rewrite firstn_all2 by (rewrite length_fin by assumption; unfold wblen; lia).
  now rewrite fin_spec, Hf, <- app_assoc by assumption.
Qed.

(** *** The close function *)

Lemma length_pad_mid k x one : (0 < k)%nat -> length (pad_mid k x one) = k.
Proof.
  intros Hk; unfold pad_mid; destruct (Nat.eqb_spec k 1) as [->|]; [reflexivity|].
  cbn [length]; rewrite length_app, repeat_length; cbn [length]; lia.
Qed.

(** Padding that needs a second block. *)
Lemma two_blocks c h i n L iv m rest d1 d2 :
  length (buf c) = blen -> (ptr c < blen)%nat -> length h = 8%nat -> firstn (ptr c) (buf c) = rest ->
  let bit_len := 8 * Z.of_nat (ptr c) + n in
  let c1 := wcounter w c bit_len n in
  READ_STATE32 (st c1) = hv h (counter_words w (block_counter w L i - 16 * w)) ->
  ptr c1 = ptr c -> buf c1 = buf c ->
  absorb blen (blake_block w L) (iv, 0) m = (h, i, rest) -> L <= 16 * w * (i + 1) ->
  length d1 = (blen - ptr c)%nat -> length d2 = blen ->
  let h' := fst (fst (absorb blen (blake_block w L) (iv, 0) (m ++ d1 ++ d2))) in
  let r := update (set_T (update c1 d1) (2 ^ w - 16 * w) (2 ^ w - 1)) d2 in
  length h' = 8%nat /\ length (buf r) = blen /\ exists t, READ_STATE32 (st r) = hv h' t.
Proof.
  intros Hb Hp Hh Hr bit_len c1 Wc Wp Wb Hf HL H1 H2 h' r; subst h' r.
  destruct (update_block c1 d1) as (U1 & U2 & U3); rewrite ?Wb, ?Wp; try assumption.
  rewrite Wb, Wp, Wc, Hr, blake_process_spec, Z.sub_add in U1 by assumption.
  apply set_T_hv with (a := 2 ^ w - 16 * w) (b := 2 ^ w - 1) in U1.
  set (c2 := set_T (update c1 d1) (2 ^ w - 16 * w) (2 ^ w - 1)) in *.
  assert (E2 : ptr c2 = 0%nat /\ length (buf c2) = blen) by (split; assumption); destruct E2 as [P2 B2].
  destruct (update_block c2 d2) as (V1 & V2 & V3); [assumption | lia | lia |].
  rewrite P2, firstn_O, app_nil_l, U1, <- counter_minus, blake_process_spec in V1 by apply length_compress.
  rewrite app_assoc, (absorb_app blen (blake_block w L) ltac:(lia)),
    (absorb_tail blen (blake_block w L) (iv, 0) m d1)
    by (rewrite ?Hf; cbn [snd]; subst rest; rewrite ?length_firstn; lia).
  rewrite Hf; cbn [fst snd blake_block]; rewrite app_nil_l, <- (app_nil_r d2), absorb_block, absorb_short
    by (assumption || cbn [length]; lia).
  cbn [fst snd blake_block]; split; [apply length_compress|]; split; [rewrite app_nil_r; assumption|].
  rewrite app_nil_r, V1; unfold block_counter at 3.
  destruct (Z.ltb_spec (16 * w * (i + 1)) L); [lia|]; rewrite Z.sub_add; eauto.
Qed.

(** Closing a context that stands for the message [m]. *)
Lemma wclose_spec u c iv m h i rest ub n k :
  length u = blen -> length (buf c) = blen -> (ptr c < blen)%nat -> 0 <= n < 8 ->
  READ_STATE32 (st c) = hv h (counter_words w (16 * w * i)) -> length h = 8%nat ->
  i = Z.of_nat (length m / blen) ->
  absorb blen full_block (iv, 0) m = (h, i, rest) -> firstn (ptr c) (buf c) = rest ->
  let L := 8 * Z.of_nat (length m) + n in
  let one := if (k =? 8)%nat then 1 else 0 in
  let r := fst (wclose w wb comp u c ub n k) in
  let h' := fst (fst (absorb blen (blake_block w L) (iv, 0) (blake_pad w one m ub n))) in
  length h' = 8%nat /\ length (buf r) = blen /\
  exists t, READ_STATE32 (st r) = hv h' t.
Proof.
  intros Hu Hb Hp Hn Hc Hh Hi Ha Hr L one r h'.
  assert (Pr : ptr c = (length m mod blen)%nat).
  { rewrite <- (absorb_rest_length blen full_block (iv, 0) m) by lia.
    rewrite Ha; cbn [snd]; rewrite <- Hr, length_firstn; lia. }
  pose proof (Nat.div_mod (length m) blen ltac:(lia)) as D; rewrite <- Pr in D.
  assert (HL : L = 16 * w * i + (8 * Z.of_nat (ptr c) + n)) .
  { unfold L; rewrite Hi; set (q := (length m / blen)%nat) in *; clearbody q.
    clear - D w_wb; rewrite D; nia. }
  destruct (wcounter_spec c h i n Hc Hp Hn) as (Wc & Wp & Wb & Wl & Wh).
  rewrite <- HL in Wc, Wl, Wh.
  assert (Hf : absorb blen (blake_block w L) (iv, 0) m = (h, i, rest)).
  { rewrite blake_block_full; [exact Ha | lia | lia]. }
  subst h' r; unfold wclose.
  rewrite Z.shiftl_mul_pow2, (Z.mul_comm _ (2 ^ 3)) by lia; change (2 ^ 3) with 8.
  rewrite pad_byte by assumption; rewrite blake_pad_split by assumption; fold L; rewrite <- Pr.
  destruct (Z.leb_spec (8 * Z.of_nat (ptr c) + n) (14 * w - 2)) as [Hcase|Hcase]; cbn [fst].
  - rewrite wpad_one_spec, Wl, Wh by (assumption || lia); fold one.
    set (tail := pad_mid _ _ _ ++ _).
    assert (Ht : length tail = (blen - ptr c)%nat).
    { unfold tail; rewrite !length_app, !enc_length, length_pad_mid; lia. }
    destruct (update_block (wcounter w c (8 * Z.of_nat (ptr c) + n) n) tail) as (U1 & U2 & U3);
      rewrite ?Wb, ?Wp; try assumption.
    rewrite absorb_tail by (rewrite ?Hf; cbn [snd]; subst rest; rewrite ?length_firstn; lia).
    rewrite Hf; cbn [fst snd blake_block]; split; [apply length_compress|]; split; [assumption|].
    rewrite U1, Wb, Wp, Wc, Hr, blake_process_spec, Z.sub_add by assumption; eauto.
  - destruct (wcounter_spec c h i n Hc Hp Hn) as (_ & Qp & Qb & _ & _).
    replace (wblen wb - 1 - ptr c)%nat with (blen - S (ptr c))%nat by (unfold wblen; lia).
    replace (ptr c + 1)%nat with (S (ptr c)) by lia; rewrite pad_buffer by assumption.
    rewrite wpad_two_spec, Wl, Wh by (rewrite length_app, length_firstn; cbn [length]; rewrite repeat_length; lia).
    rewrite skipn_app, skipn_all2, length_firstn by (rewrite length_firstn; lia).
    replace (ptr c - Nat.min (ptr c) (length u))%nat with 0%nat by lia; rewrite skipn_O, app_nil_l.
    rewrite firstn_all2 by (cbn [length]; rewrite repeat_length; unfold wblen; lia); fold one.
    replace (blen - 1 - ptr c)%nat with (blen - S (ptr c))%nat by lia.
    set (d1 := last_byte ub n :: _); set (d2 := repeat 0 (14 * wb - 1) ++ [one] ++ _).
    assert (H1 : length d1 = (blen - ptr c)%nat) by (cbn [d1 length]; rewrite repeat_length; lia).
    assert (H2 : length d2 = blen).
    { unfold d2; rewrite !length_app, !enc_length, repeat_length; cbn [length]; lia. }
    apply (two_blocks c h i n L iv m rest d1 d2); auto; lia.
Qed.

Lemma hv_H c h t k :
  READ_STATE32 (st c) = hv h t -> (k < 8)%nat -> nth k (bH (st c)) 0 = nth k h 0.
Proof.
  unfold hv, READ_STATE32; cbn [bH]; intros E Hk; injection E; intros.
  do 8 (destruct k as [|k]; [assumption|]); lia.
Qed.

(** Init, any updates, close. *)
Lemma wrun_spec b iv chunks u ub n k :
  length b = blen -> length iv = 8%nat -> length u = blen -> 0 <= n < 8 -> (k <= 8)%nat ->
  let m := concat chunks in
  let L := 8 * Z.of_nat (length m) + n in
  let one := if (k =? 8)%nat then 1 else 0 in
  let r := wclose w wb comp u (fold_left update chunks (Ctx b 0 (BState iv [0; 0; 0; 0] 0 0))) ub n k in
  snd r = flat_map (enc_be w) (firstn k
            (fst (fst (absorb blen (blake_block w L) (iv, 0) (blake_pad w one m ub n)))))
  /\ length (buf (fst r)) = blen.
Proof.
  intros Hb Hiv Hu Hn Hk m L one r; set (c := fold_left _ _ _) in r.
  set (c0 := Ctx b 0 (BState iv [0; 0; 0; 0] 0 0)) in c.
  pose proof (core_many_refines blen process ltac:(lia) blen ltac:(lia) process_local
                chunks (read_ctx c0)) as Hr.
  rewrite <- (fold_left_sim read_ctx update) in Hr by apply update_sim; fold c in Hr.
  destruct Hr as [[Hl Hlt] Ha]; [split; cbn; lia|]; cbn [read_ctx ctx_map buf ptr] in Hl, Hlt.
  unfold ctx_abs in Ha; cbn [read_ctx ctx_map buf ptr st fst snd c0] in Ha.
  rewrite firstn_O, app_nil_l in Ha; fold m in Ha.
  assert (R0 : rel (READ_STATE32 (BState iv [0; 0; 0; 0] 0 0)) (iv, 0)).
  { split; [assumption|]; split; [cbn; lia|]; cbn [fst snd]; rewrite Z.mul_0_r.
    rewrite counter_words_mod, Z.div_0_l, Z.mod_0_l by (try apply Z.pow_nonzero; lia); reflexivity. }
  destruct (absorb_rel rel blen process full_block _ _ m ltac:(lia) (fun blk v s _ => blake_process_rel blk v s) R0)
    as [Rm Es].
  rewrite <- Ha in Rm, Es; cbn [fst snd] in Rm, Es.
  pose proof (full_block_index m iv 0) as Hi.
  destruct (absorb blen full_block (iv, 0) m) as [[h i] rest] eqn:Ef; cbn [fst snd] in *.
  destruct Rm as (Rh & Ri & Rv); cbn [fst snd] in *.
  destruct (wclose_spec u c iv m h i rest ub n k) as (Lh & Lb & t & Ht); auto; try lia.
  split; [|exact Lb]; fold L one in Lh, Ht; rewrite <- flat_map_nth by lia; subst r.
  unfold wclose in Ht |- *; cbn [fst snd] in Ht |- *.
  rewrite !flat_map_concat_map; f_equal; apply map_ext_in; intros j Hj; apply in_seq in Hj.
  f_equal; apply (hv_H _ _ _ _ Ht); lia.
Qed.
End WidthProof.

(** ** The rounds permute the states *)

Section Permutation.
Context (w : Z) (w_ok : w = 32 \/ w = 64).

Lemma rotr_inj x y r : inw w x -> inw w y -> 0 <= r <= w -> rotr w x r = rotr w y r -> x = y.
Proof. intros Hx Hy Hr; apply rotl_inj; auto; lia. Qed.

Lemma rotr_inw x r : inw w (rotr w x r).
Proof. apply rotl_inw; lia. Qed.

Lemma w_nonneg : 0 <= w.
Proof. lia. Qed.

Hint Resolve rotr_inw w_nonneg : word.

(** A modular addition and a rotated xor, undone. *)
Lemma undo_add a b c c' : inw w c -> inw w c' -> trunc w (c + (a + b)) = trunc w (c' + (a + b)) -> c = c'.
Proof. intros Hc Hc' E; rewrite !(Z.add_comm _ (a + b)) in E; now apply (trunc_add_inj w) in E; auto with word. Qed.

Lemma undo_rot a b b' r :
  inw w a -> inw w b -> inw w b' -> 0 <= r <= w -> rotr w (b .^ a) r = rotr w (b' .^ a) r -> b = b'.
Proof.
  intros Ha Hb Hb' Hr E; apply rotr_inj in E; auto with word.
  apply (lxor_inj a); now rewrite !(Z.lxor_comm a).
Qed.

Definition quad_ok (q : Z * Z * Z * Z) : Prop :=
  let '(a, b, c, d) := q in inw w a /\ inw w b /\ inw w c /\ inw w d.

Lemma quarter_ok x y q : quad_ok (quarter w x y q).
Proof.
  destruct q as [[[a b] c] d]; unfold quarter; destruct (rots_of w) as [[[r1 r2] r3] r4].
  cbn; auto 6 with word.
Qed.

(** Half of [quarter]: one message word, two rotations. *)
Definition half_quarter (r1 r2 x : Z) (q : Z * Z * Z * Z) : Z * Z * Z * Z :=
  let '(a, b, c, d) := q in
  let a := trunc w (a + b + x) in
  let d := rotr w (d .^ a) r1 in
  let c := trunc w (c + d) in
  let b := rotr w (b .^ c) r2 in
  (a, b, c, d).

Lemma half_quarter_ok r1 r2 x q : quad_ok (half_quarter r1 r2 x q).
Proof. destruct q as [[[a b] c] d]; cbn; auto 6 with word. Qed.

Lemma half_quarter_inj r1 r2 x q q' :
  0 <= r1 <= w -> 0 <= r2 <= w -> quad_ok q -> quad_ok q' ->
  half_quarter r1 r2 x q = half_quarter r1 r2 x q' -> q = q'.
Proof.
  intros H1 H2; destruct q as [[[a b] c] d], q' as [[[a' b'] c'] d']; unfold half_quarter.
  intros (Ha & Hb & Hc & Hd) (Ha' & Hb' & Hc' & Hd').
  set (a1 := trunc w (a + b + x)); set (a1' := trunc w (a' + b' + x)).
  set (d1 := rotr w (d .^ a1) r1); set (d1' := rotr w (d' .^ a1') r1).
  set (c1 := trunc w (c + d1)); set (c1' := trunc w (c' + d1')).
  intros E; apply pair_equal_spec in E as [E Ed]; apply pair_equal_spec in E as [E Ec].
  apply pair_equal_spec in E as [Ea Eb].
  rewrite Ec in Eb; apply undo_rot in Eb; try assumption; [|apply trunc_inw, w_nonneg]; subst b'.
  unfold c1, c1' in Ec; rewrite Ed in Ec; apply (undo_add 0 d1') in Ec; try assumption; subst c'.
  unfold d1, d1' in Ed; rewrite Ea in Ed; apply undo_rot in Ed; try assumption; [|apply trunc_inw, w_nonneg].
  unfold a1, a1' in Ea; rewrite <- !Z.add_assoc in Ea; apply undo_add in Ea; try assumption.
  now subst.
Qed.

Lemma quarter_halves x y :
  exists r1 r2 r3 r4, 0 <= r1 <= w /\ 0 <= r2 <= w /\ 0 <= r3 <= w /\ 0 <= r4 <= w /\
  forall q, quarter w x y q = half_quarter r3 r4 y (half_quarter r1 r2 x q).
Proof.
  destruct w_ok as [E|E]; [exists 16, 12, 8, 7 | exists 32, 25, 16, 11];
    (do 4 (split; [lia|])); intros [[[? ?] ?] ?]; unfold quarter, half_quarter, rots_of;
    rewrite E; reflexivity.
Qed.

Lemma quarter_inj x y q q' :
  quad_ok q -> quad_ok q' -> quarter w x y q = quarter w x y q' -> q = q'.
Proof.
  destruct (quarter_halves x y) as (r1 & r2 & r3 & r4 & H1 & H2 & H3 & H4 & E); rewrite !E.
  intros Hq Hq' Eq; apply half_quarter_inj in Eq; auto using half_quarter_ok.
  now apply half_quarter_inj in Eq.
Qed.

(** A step replaces four words by their [quarter] and keeps the others. *)
Definition state_ok (v : list Z) : Prop := length v = 16%nat /\ words w v.

Lemma Q_inw x y a b c d :
  inw w (Qa w x y a b c d) /\ inw w (Qb w x y a b c d)
  /\ inw w (Qc w x y a b c d) /\ inw w (Qd w x y a b c d).
Proof. pose proof (quarter_ok x y (a, b, c, d)) as H; now rewrite quarter_Q in H. Qed.

Lemma Q_inj x y a b c d a' b' c' d' :
  inw w a -> inw w b -> inw w c -> inw w d -> inw w a' -> inw w b' -> inw w c' -> inw w d' ->
  Qa w x y a b c d = Qa w x y a' b' c' d' -> Qb w x y a b c d = Qb w x y a' b' c' d' ->
  Qc w x y a b c d = Qc w x y a' b' c' d' -> Qd w x y a b c d = Qd w x y a' b' c' d' ->
  a = a' /\ b = b' /\ c = c' /\ d = d'.
Proof.
  intros; assert (E : (a, b, c, d) = (a', b', c', d')).
  { apply (quarter_inj x y); [cbn; auto.. |]; rewrite !quarter_Q; congruence. }
  injection E; auto.
Qed.

Lemma words_upd v i x : words w v -> inw w x -> words w (upd v i x).
Proof.
  intros Hv Hx; unfold upd, memcpy; repeat apply words_app.
  - now apply words_firstn.
  - apply Forall_cons; [assumption | apply Forall_nil].
  - now apply words_skipn.
Qed.

Lemma length_upd_eq (v : list Z) i x n : length v = n -> (i < n)%nat -> length (upd v i x) = n.
Proof. intros <- Hi; now apply length_upd. Qed.

Lemma positions_lt i : (i < 8)%nat ->
  let '(a, b, c, d) := positions i in (a < 16 /\ b < 16 /\ c < 16 /\ d < 16)%nat.
Proof. intros H; do 8 (destruct i as [|i]; [cbn; lia|]); lia. Qed.

Lemma step_ok s m cs v i : (i < 8)%nat -> state_ok v -> state_ok (step w s m cs v i).
Proof.
  intros Hi [Hl Hw]; rewrite step_Q; pose proof (positions_lt i Hi) as Hp.
  destruct (positions i) as [[[ia ib] ic] id]; cbv zeta.
  destruct (Q_inw (pick s m (2 * i) .^ pick s cs (2 * i + 1)) (pick s m (2 * i + 1) .^ pick s cs (2 * i))
              (nth ia v 0) (nth ib v 0) (nth ic v 0) (nth id v 0)) as (? & ? & ? & ?).
  split; [|now repeat apply words_upd].
  do 4 (apply length_upd_eq; [|lia]); assumption.
Qed.

Lemma step_inj s m cs v v' i :
  (i < 8)%nat -> state_ok v -> state_ok v' -> step w s m cs v i = step w s m cs v' i -> v = v'.
Proof.
  intros Hi [Hl Hw] [Hl' Hw']; rewrite !step_Q.
  do 17 (destruct v as [|? v]; try discriminate Hl); do 17 (destruct v' as [|? v']; try discriminate Hl').
  unfold words in Hw, Hw'; rewrite !Forall_cons_iff in Hw, Hw'; decompose [and] Hw; decompose [and] Hw'.
  clear Hw Hw' Hl Hl'.
  do 8 (destruct i as [|i];
        [cbv beta iota zeta delta [positions Nat.modulo Nat.divmod Nat.ltb Nat.leb Nat.add Nat.sub
             Nat.mul fst snd nth upd memcpy firstn skipn app];
         intros E; injection E; clear E; intros;
         match goal with
         | A : Qa _ _ _ _ _ _ _ = _, B : Qb _ _ _ _ _ _ _ = _,
           C : Qc _ _ _ _ _ _ _ = _, D : Qd _ _ _ _ _ _ _ = _ |- _ =>
             apply (Q_inj _ _ _ _ _ _ _ _ _ _) in A as (-> & -> & -> & ->); try assumption
         end; now subst |]); lia.
Qed.

Lemma steps_inj s m cs l v v' :
  (forall i, In i l -> (i < 8)%nat) -> state_ok v -> state_ok v' ->
  fold_left (step w s m cs) l v = fold_left (step w s m cs) l v' ->
  v = v' /\ state_ok (fold_left (step w s m cs) l v).
Proof.
  revert v v'; induction l as [|i l IH]; intros v v' Hl Hv Hv' E; [auto|].
  assert (Hi : (i < 8)%nat) by (apply Hl; now left); cbn [fold_left] in *.
  destruct (IH (step w s m cs v i) (step w s m cs v' i)) as [Es Ok];
    auto using step_ok; [intros; apply Hl; now right|].
  split; [|exact Ok]; now apply (step_inj s m cs v v' i).
Qed.

Lemma round_inj m v v' r :
  state_ok v -> state_ok v' -> round w m v r = round w m v' r -> v = v' /\ state_ok (round w m v r).
Proof. apply steps_inj; intros i Hi; apply in_seq in Hi; lia. Qed.
End Permutation.

Lemma vlist_inj v v' : vlist v = vlist v' -> v = v'.
Proof. destruct v, v'; cbn [vlist]; intros E; injection E; intros; now subst. Qed.

(** ** The four variants *)

Lemma blake32_run d iv k c chunks u ub n :
  length (buf c) = 64%nat -> length u = 64%nat -> 0 <= n < 8 -> (k <= 8)%nat ->
  d = 32 * Z.of_nat k -> iv = blake_iv d -> length iv = 8%nat ->
  let r := blake32_close u (fold_left blake32 chunks (blake32_init c iv salt_zero_small)) ub n k in
  snd r = blake_spec d (concat chunks) ub n /\ length (buf (fst r)) = 64%nat.
Proof.
  intros Hb Hu Hn Hk -> Hiv Hl; rewrite blake32_close_width, blake32_width.
  destruct (wrun_spec 32 4 COMPRESS32 ltac:(lia) eq_refl
              (ex_intro _ 8388608 eq_refl) ltac:(intros; reflexivity) COMPRESS32_spec
              (buf c) iv chunks u ub n k Hb Hl Hu Hn Hk) as [E1 E2].
  split; [|exact E2]; refine (eq_trans E1 _); unfold blake_spec; rewrite <- Hiv.
  replace (32 * Z.of_nat k <=? 256) with true by (symmetry; apply Z.leb_le; lia).
  rewrite (Z.mul_comm 32), Z.div_mul, Nat2Z.id by lia.
  replace (if Z.of_nat k * 32 =? 8 * 32 then 1 else 0) with (if (k =? 8)%nat then 1 else 0); [reflexivity|].
  destruct (Nat.eqb_spec k 8), (Z.eqb_spec (Z.of_nat k * 32) (8 * 32)); lia.
Qed.

Lemma blake64_run d iv k c chunks u ub n :
  length (buf c) = 128%nat -> length u = 128%nat -> 0 <= n < 8 -> (4 < k <= 8)%nat ->
  d = 64 * Z.of_nat k -> iv = blake_iv d -> length iv = 8%nat ->
  let r := blake64_close u (fold_left blake64 chunks (blake64_init c iv salt_zero_big)) ub n k in
  snd r = blake_spec d (concat chunks) ub n /\ length (buf (fst r)) = 128%nat.
Proof.
  intros Hb Hu Hn [Hk0 Hk] -> Hiv Hl; rewrite blake64_close_width, blake64_width.
  destruct (wrun_spec 64 8 COMPRESS64 ltac:(lia) eq_refl
              (ex_intro _ 18014398509481984 eq_refl) ltac:(intros; reflexivity) COMPRESS64_spec
              (buf c) iv chunks u ub n k Hb Hl Hu Hn Hk) as [E1 E2].
  split; [|exact E2]; refine (eq_trans E1 _); unfold blake_spec; rewrite <- Hiv.
  replace (64 * Z.of_nat k <=? 256) with false by (symmetry; apply Z.leb_gt; lia).
  rewrite (Z.mul_comm 64), Z.div_mul, Nat2Z.id by lia.
  replace (if Z.of_nat k * 64 =? 8 * 64 then 1 else 0) with (if (k =? 8)%nat then 1 else 0); [reflexivity|].
  destruct (Nat.eqb_spec k 8), (Z.eqb_spec (Z.of_nat k * 64) (8 * 64)); lia.
Qed.

(** ** Properties *)

(** BLAKE-224 and BLAKE-256: whatever the context and the local buffer of
    [close] held before, however the message is cut into chunks, and for up to
    seven extra bits, the digest is the one of the BLAKE specification: padding,
    salt-free compression of every block with the number of message bits so far
    (zero for a block without message bits). *)
Theorem blake_small_correct (c : blake_context) (u : list Z) (chunks : list (list Z)) (ub n : Z) :
  length (buf c) = 64%nat -> length u = 64%nat -> 0 <= n < 8 ->
  let m := concat chunks in
  fst (sph_blake224_addbits_and_close u (fold_left sph_blake224 chunks (sph_blake224_init c)) ub n)
    = blake_spec 224 m ub n
  /\ fst (sph_blake256_addbits_and_close u (fold_left sph_blake256 chunks (sph_blake256_init c)) ub n)
    = blake_spec 256 m ub n.
Proof.
  intros Hb Hu Hn m; destruct constants_ok as (_ & _ & _ & _ & _ & E1 & E2 & _).
  unfold sph_blake224_addbits_and_close, sph_blake256_addbits_and_close.
  rewrite !let_pair_fst; cbn [fst snd]; split.
  - refine (proj1 (blake32_run 224 IV224 7 c chunks u ub n Hb Hu Hn _ _ E1 _)); reflexivity || lia.
  - refine (proj1 (blake32_run 256 IV256 8 c chunks u ub n Hb Hu Hn _ _ E2 _)); reflexivity || lia.
Qed.

Lemma blake_small_correct_witness :
  let c := Ctx (repeat 0xAA 64) 5 (BState [] [] 7 7) in
  let u := repeat 0x55 64 in
  let chunks := [[1; 2; 3]; repeat 7 70; [9]] in
  fst (sph_blake256_addbits_and_close u (fold_left sph_blake256 chunks (sph_blake256_init c)) 0xC0 3)
    = blake_spec 256 (concat chunks) 0xC0 3.
Proof.
  intros c u chunks; refine (proj2 (blake_small_correct c u chunks 0xC0 3 eq_refl eq_refl _)); lia.
Defined.

(** C19: BLAKE-384 and BLAKE-512, in the same sense; each [close] leaves the
    context as the [init] of its variant does. *)
Theorem blake_big_correct (c : blake_context) (u : list Z) (chunks : list (list Z)) (ub n : Z) :
  length (buf c) = 128%nat -> length u = 128%nat -> 0 <= n < 8 ->
  let m := concat chunks in
  let run384 := sph_blake384_addbits_and_close u (fold_left sph_blake384 chunks (sph_blake384_init c)) ub n in
  let run512 := sph_blake512_addbits_and_close u (fold_left sph_blake512 chunks (sph_blake512_init c)) ub n in
  (fst run384 = blake_spec 384 m ub n
   /\ snd run384 = sph_blake384_init (snd run384) /\ length (buf (snd run384)) = 128%nat)
  /\ (fst run512 = blake_spec 512 m ub n
      /\ snd run512 = sph_blake512_init (snd run512) /\ length (buf (snd run512)) = 128%nat).
Proof.
  intros Hb Hu Hn m run384 run512; destruct constants_ok as (_ & _ & _ & _ & _ & _ & _ & E1 & E2).
  unfold run384, run512, sph_blake384_addbits_and_close, sph_blake512_addbits_and_close.
  rewrite !let_pair_fst; cbn [fst snd].
  destruct (blake64_run 512 IV512 8 c chunks u ub n Hb Hu Hn ltac:(lia) eq_refl E2 eq_refl) as [R1 R2].
  destruct (blake64_run 384 IV384 6 c chunks u ub n Hb Hu Hn ltac:(lia) eq_refl E1 eq_refl) as [S1 S2].
  split; [split; [exact S1 | split; [reflexivity | exact S2]] | split; [exact R1 | split; [reflexivity | exact R2]]].
Qed.

Lemma blake_big_correct_witness :
  let c := Ctx (repeat 0xAA 128) 5 (BState [] [] 7 7) in
  let u := repeat 0x55 128 in
  let chunks := [[1; 2; 3]; repeat 7 120; [9]] in
  fst (sph_blake384_addbits_and_close u (fold_left sph_blake384 chunks (sph_blake384_init c)) 0 0)
    = blake_spec 384 (concat chunks) 0 0.
Proof.
  intros c u chunks; refine (proj1 (proj1 (blake_big_correct c u chunks 0 0 eq_refl eq_refl _))); lia.
Defined.

(** The table-driven (compact) and the token-pasted (unrolled) compression
    macros are the same functions, for any salt, and compute the compression
    function of the specification when there is none. *)
Theorem blake_compress_equiv (b : list Z) (s : hvars) :
  COMPRESS32_compact b s = COMPRESS32 b s
  /\ COMPRESS64_compact b s = COMPRESS64 b s
  /\ (forall h t, length h = 8%nat ->
      COMPRESS32 b (hv h (counter_words 32 t)) = hv (compress 32 h t b) (counter_words 32 t)
      /\ COMPRESS64 b (hv h (counter_words 64 t)) = hv (compress 64 h t b) (counter_words 64 t)).
Proof.
  split; [apply COMPRESS32_compact_spec|]; split; [apply COMPRESS64_compact_spec|].
  intros h t Hh; split; [now apply COMPRESS32_spec | now apply COMPRESS64_spec].
Qed.

(** For a fixed message block, every round permutes the working variables:
    it is injective on states of words and its results are words. *)
Theorem blake_round_permutation (M : list Z) (r : nat) (v v' : vvars) :
  (r < 10)%nat ->
  (words 32 (vlist v) -> words 32 (vlist v') -> ROUND_S M r v = ROUND_S M r v' ->
     v = v' /\ words 32 (vlist (ROUND_S M r v)))
  /\ (words 64 (vlist v) -> words 64 (vlist v') -> ROUND_B M r v = ROUND_B M r v' ->
     v = v' /\ words 64 (vlist (ROUND_B M r v))).
Proof.
  intros Hr; assert (L : forall x, length (vlist x) = 16%nat) by (destruct x; reflexivity).
  split; intros Hv Hv' E; apply (f_equal vlist) in E;
    [rewrite (ROUND_S_spec M r v), (ROUND_S_spec M r v') in E by assumption; rewrite ROUND_S_spec by assumption
    |rewrite (ROUND_B_spec M r v), (ROUND_B_spec M r v') in E by assumption; rewrite ROUND_B_spec by assumption];
    apply round_inj in E as [E [_ W]]; auto using vlist_inj; split; auto.
Qed.

Lemma blake_round_permutation_witness :
  let v := Vv 1 2 3 4 5 6 7 8 9 10 11 12 13 14 15 16 in
  v = v /\ words 32 (vlist (ROUND_S [] 3 v)).
Proof.
  intros v; refine (proj1 (blake_round_permutation [] 3 v v _) _ _ eq_refl);
    [lia | words_dec | words_dec].
Defined.

(** BLAKE-512 behind the common interface. The local buffer of [close] is a
    field of the model's context, so that its contents are arbitrary. *)
#[export, refine] Instance blake512_hash : StreamHash := {|
  hctx := list Z * blake_context;
  hctx_ok c := length (fst c) = 128%nat /\ length (buf (snd c)) = 128%nat;
  hinit c := (fst c, sph_blake512_init (snd c));
  hupdate c data := (fst c, sph_blake512 (snd c) data);
  hclose c := let (dst, cc) := sph_blake512_close (fst c) (snd c) in (dst, (fst c, cc));
  hlen := 64;
  digest m := blake_spec 512 m 0 0
|}.
Proof.
  - intros [u c] [Hu Hb]; split; assumption.
  - intros [u c] chunks [Hu Hb] _ _; cbn [fst snd] in *.
    assert (E : forall cs x, fold_left (fun c data => (fst c, sph_blake512 (snd c) data)) cs (u, x)
                = (u, fold_left sph_blake512 cs x)) by (induction cs; intros; cbn; auto).
    rewrite E; cbn [fst snd]; unfold sph_blake512_close, sph_blake512_addbits_and_close.
    destruct constants_ok as (_ & _ & _ & _ & _ & _ & _ & _ & E2).
    pose proof (blake64_run 512 IV512 8 c chunks u 0 0 Hb Hu ltac:(lia) ltac:(lia) eq_refl E2 eq_refl) as R.
    unfold sph_blake512_init, sph_blake512 in *.
    destruct (blake64_close u _ 0 0 8) as [cc dst]; cbn [fst snd] in *; destruct R as [R1 R2].
    split; [exact R1 | split; [exact Hu | exact R2]].
  - intros m.
    destruct (blake64_run 512 IV512 8 (Ctx (repeat 0 128) 0 (BState [] [] 0 0)) [m] (repeat 0 128) 0 0
                eq_refl eq_refl ltac:(lia) ltac:(lia) eq_refl
                (proj2 (proj2 (proj2 (proj2 (proj2 (proj2 (proj2 (proj2 constants_ok)))))))) eq_refl) as [R _].
    cbn [concat] in R; rewrite app_nil_r in R; rewrite <- R; unfold blake64_close; cbn [snd].
    now rewrite (length_flat_map_const _ 8), length_seq by reflexivity.
  - intros m; unfold blake_spec; apply words_flat_map; intros; apply sph_enc64be_bytes.
Defined.
