(* ===== verification/Skein.v ===== *)
(** * Skein: model of skein.c

    Skein-512-224/256/384/512: the key-schedule index macros, the Threefish
    macros, the UBI macro, both in their unrolled form and in the
    table-driven form of SPH_SMALL_FOOTPRINT_SKEIN, and the init, update and
    close functions.  The update function keeps a full block in the buffer
    until more data or the end of the message comes, because the last block
    carries a flag.  SkeinSpec.v has the reference definition and the
    theorems. *)

From Stdlib Require Import ZArith List Lia Bool.
From S2P Require Import Prelude SphTypes Stream.
Import ListNotations.

Open Scope Z_scope.
Open Scope word_scope.

(** The macros [M9_s_i]. *)
Definition M9tab_0_9 : list (list nat) :=
  [[0; 1; 2; 3; 4; 5; 6; 7];
   [1; 2; 3; 4; 5; 6; 7; 8];
   [2; 3; 4; 5; 6; 7; 8; 0];
   [3; 4; 5; 6; 7; 8; 0; 1];
   [4; 5; 6; 7; 8; 0; 1; 2];
   [5; 6; 7; 8; 0; 1; 2; 3];
   [6; 7; 8; 0; 1; 2; 3; 4];
   [7; 8; 0; 1; 2; 3; 4; 5];
   [8; 0; 1; 2; 3; 4; 5; 6];
   [0; 1; 2; 3; 4; 5; 6; 7]]%nat.

Definition M9tab_10_18 : list (list nat) :=
  [[1; 2; 3; 4; 5; 6; 7; 8];
   [2; 3; 4; 5; 6; 7; 8; 0];
   [3; 4; 5; 6; 7; 8; 0; 1];
   [4; 5; 6; 7; 8; 0; 1; 2];
   [5; 6; 7; 8; 0; 1; 2; 3];
   [6; 7; 8; 0; 1; 2; 3; 4];
   [7; 8; 0; 1; 2; 3; 4; 5];
   [8; 0; 1; 2; 3; 4; 5; 6];
   [0; 1; 2; 3; 4; 5; 6; 7]]%nat.

Definition M9 (s i : nat) : nat := nth i (nth s (M9tab_0_9 ++ M9tab_10_18) []) 0%nat.

(** The macros [M3_s_i]. *)
Definition M3tab : list (list nat) :=
  [[0; 1]; [1; 2]; [2; 0]; [0; 1]; [1; 2]; [2; 0]; [0; 1];
   [1; 2]; [2; 0]; [0; 1]; [1; 2]; [2; 0]; [0; 1]; [1; 2];
   [2; 0]; [0; 1]; [1; 2]; [2; 0]; [0; 1]]%nat.

Definition M3 (s i : nat) : nat := nth i (nth s M3tab []) 0%nat.

Definition IV224 : list Z :=
  [0xCCD0616248677224; 0xCBA65CF3A92339EF;
   0x8CCD69D652FF4B64; 0x398AED7B3AB890B4;
   0x0F59D1B1457D2BD0; 0x6776FE6575D4EB3D;
   0x99FBC70E997413E9; 0x9E2CFCCFE1C41EF7].

Definition IV256 : list Z :=
  [0xCCD044A12FDB3E13; 0xE83590301A79A9EB;
   0x55AEA0614F816E6F; 0x2A2767A4AE9B94DB;
   0xEC06025E74DD7683; 0xE7A436CDC4746251;
   0xC36FBAF9393AD185; 0x3EEDBA1833EDFC13].

Definition IV384 : list Z :=
  [0xA3F6C6BF3A75EF5F; 0xB0FEF9CCFD84FAA4;
   0x9D77DD663D770CFE; 0xD798CBF3B468FDDA;
   0x1BC4A6668A0E4465; 0x7ED7D434E5807407;
   0x548FC1ACD4EC44D6; 0x266E17546AA18FF8].

Definition IV512 : list Z :=
  [0x4903ADFF749C51CE; 0x0D95DE399746DF03;
   0x8FD1934127C79BCE; 0x9A255629FF352CB1;
   0x5DB62599DF6CA7B0; 0xEABE394CA9D5C3F4;
   0x991112C71A75B523; 0xAE18A40B660FCC33].

(** The fields [h0] ... [h7] and [bcount] of [sph_skein_big_context]. *)
Record skstate := Sk { h0 : Z; h1 : Z; h2 : Z; h3 : Z; h4 : Z; h5 : Z; h6 : Z; h7 : Z; bcount : Z }.

Definition skein_context := sctx skstate.

(** The Threefish state variables [p0] ... [p7]. *)
Inductive pvars := P8 (p0 p1 p2 p3 p4 p5 p6 p7 : Z).

(** The key words [k0] ... [k8] and the tweak words [t0], [t1], [t2], selected
    by token pasting. *)
Definition SKBI (k : list Z) (s i : nat) : Z := nth (M9 s i) k 0.
Definition SKBT (t : list Z) (s v : nat) : Z := nth (M3 s v) t 0.

(** The values of [k8] and [t2]. *)
Definition TFBIG_KINIT (k0 k1 k2 k3 k4 k5 k6 k7 t0 t1 : Z) : Z * Z :=
  (((k0 .^ k1) .^ (k2 .^ k3)) .^ ((k4 .^ k5) .^ (k6 .^ k7)) .^ 0x1BD11BDAA9FC1A22,
   t0 .^ t1).

Definition TFBIG_ADDKEY (p : pvars) (k t : list Z) (s : nat) : pvars :=
  let '(P8 p0 p1 p2 p3 p4 p5 p6 p7) := p in
  P8 (SPH_T64 (p0 + SKBI k s 0))
     (SPH_T64 (p1 + SKBI k s 1))
     (SPH_T64 (p2 + SKBI k s 2))
     (SPH_T64 (p3 + SKBI k s 3))
     (SPH_T64 (p4 + SKBI k s 4))
     (SPH_T64 (p5 + SKBI k s 5 + SKBT t s 0))
     (SPH_T64 (p6 + SKBI k s 6 + SKBT t s 1))
     (SPH_T64 (p7 + SKBI k s 7 + Z.of_nat s)).

(** SPH_SMALL_FOOTPRINT_SKEIN: the key is the array [h]. *)
Definition TFBIG_ADDKEY_small (p : pvars) (h : list Z) (s : nat) (tt0 tt1 : Z) : pvars :=
  let '(P8 p0 p1 p2 p3 p4 p5 p6 p7) := p in
  P8 (SPH_T64 (p0 + nth (s + 0) h 0))
     (SPH_T64 (p1 + nth (s + 1) h 0))
     (SPH_T64 (p2 + nth (s + 2) h 0))
     (SPH_T64 (p3 + nth (s + 3) h 0))
     (SPH_T64 (p4 + nth (s + 4) h 0))
     (SPH_T64 (p5 + nth (s + 5) h 0 + tt0))
     (SPH_T64 (p6 + nth (s + 6) h 0 + tt1))
     (SPH_T64 (p7 + nth (s + 7) h 0 + Z.of_nat s)).

Definition TFBIG_MIX (x0 x1 rc : Z) : Z * Z :=
  let x0 := SPH_T64 (x0 + x1) in
  let x1 := SPH_ROTL64 x1 rc .^ x0 in
  (x0, x1).

Definition TFBIG_MIX8 (w0 w1 w2 w3 w4 w5 w6 w7 rc0 rc1 rc2 rc3 : Z)
  : Z * Z * Z * Z * Z * Z * Z * Z :=
  let (w0, w1) := TFBIG_MIX w0 w1 rc0 in
  let (w2, w3) := TFBIG_MIX w2 w3 rc1 in
  let (w4, w5) := TFBIG_MIX w4 w5 rc2 in
  let (w6, w7) := TFBIG_MIX w6 w7 rc3 in
  (w0, w1, w2, w3, w4, w5, w6, w7).

Definition TFBIG_4e (k t : list Z) (s : nat) (p : pvars) : pvars :=
  let '(P8 p0 p1 p2 p3 p4 p5 p6 p7) := TFBIG_ADDKEY p k t s in
  let '(p0, p1, p2, p3, p4, p5, p6, p7) :=
    TFBIG_MIX8 p0 p1 p2 p3 p4 p5 p6 p7 46 36 19 37 in
  let '(p2, p1, p4, p7, p6, p5, p0, p3) :=
    TFBIG_MIX8 p2 p1 p4 p7 p6 p5 p0 p3 33 27 14 42 in
  let '(p4, p1, p6, p3, p0, p5, p2, p7) :=
    TFBIG_MIX8 p4 p1 p6 p3 p0 p5 p2 p7 17 49 36 39 in
  let '(p6, p1, p0, p7, p2, p5, p4, p3) :=
    TFBIG_MIX8 p6 p1 p0 p7 p2 p5 p4 p3 44 9 54 56 in
  P8 p0 p1 p2 p3 p4 p5 p6 p7.

Definition TFBIG_4e_small (h : list Z) (s : nat) (ta tb : Z) (p : pvars) : pvars :=
  let '(P8 p0 p1 p2 p3 p4 p5 p6 p7) := TFBIG_ADDKEY_small p h s ta tb in
  let '(p0, p1, p2, p3, p4, p5, p6, p7) :=
    TFBIG_MIX8 p0 p1 p2 p3 p4 p5 p6 p7 46 36 19 37 in
  let '(p2, p1, p4, p7, p6, p5, p0, p3) :=
    TFBIG_MIX8 p2 p1 p4 p7 p6 p5 p0 p3 33 27 14 42 in
  let '(p4, p1, p6, p3, p0, p5, p2, p7) :=
    TFBIG_MIX8 p4 p1 p6 p3 p0 p5 p2 p7 17 49 36 39 in
  let '(p6, p1, p0, p7, p2, p5, p4, p3) :=
    TFBIG_MIX8 p6 p1 p0 p7 p2 p5 p4 p3 44 9 54 56 in
  P8 p0 p1 p2 p3 p4 p5 p6 p7.

Definition TFBIG_4o (k t : list Z) (s : nat) (p : pvars) : pvars :=
  let '(P8 p0 p1 p2 p3 p4 p5 p6 p7) := TFBIG_ADDKEY p k t s in
  let '(p0, p1, p2, p3, p4, p5, p6, p7) :=
    TFBIG_MIX8 p0 p1 p2 p3 p4 p5 p6 p7 39 30 34 24 in
  let '(p2, p1, p4, p7, p6, p5, p0, p3) :=
    TFBIG_MIX8 p2 p1 p4 p7 p6 p5 p0 p3 13 50 10 17 in
  let '(p4, p1, p6, p3, p0, p5, p2, p7) :=
    TFBIG_MIX8 p4 p1 p6 p3 p0 p5 p2 p7 25 29 39 43 in
  let '(p6, p1, p0, p7, p2, p5, p4, p3) :=
    TFBIG_MIX8 p6 p1 p0 p7 p2 p5 p4 p3 8 35 56 22 in
  P8 p0 p1 p2 p3 p4 p5 p6 p7.

Definition TFBIG_4o_small (h : list Z) (s : nat) (ta tb : Z) (p : pvars) : pvars :=
  let '(P8 p0 p1 p2 p3 p4 p5 p6 p7) := TFBIG_ADDKEY_small p h s ta tb in
  let '(p0, p1, p2, p3, p4, p5, p6, p7) :=
    TFBIG_MIX8 p0 p1 p2 p3 p4 p5 p6 p7 39 30 34 24 in
  let '(p2, p1, p4, p7, p6, p5, p0, p3) :=
    TFBIG_MIX8 p2 p1 p4 p7 p6 p5 p0 p3 13 50 10 17 in
  let '(p4, p1, p6, p3, p0, p5, p2, p7) :=
    TFBIG_MIX8 p4 p1 p6 p3 p0 p5 p2 p7 25 29 39 43 in
  let '(p6, p1, p0, p7, p2, p5, p4, p3) :=
    TFBIG_MIX8 p6 p1 p0 p7 p2 p5 p4 p3 8 35 56 22 in
  P8 p0 p1 p2 p3 p4 p5 p6 p7.

Definition READ_STATE_BIG (sc : skstate) : skstate :=
  Sk (h0 sc) (h1 sc) (h2 sc) (h3 sc) (h4 sc) (h5 sc) (h6 sc) (h7 sc) (bcount sc).

Definition WRITE_STATE_BIG (v : skstate) : skstate :=
  Sk (h0 v) (h1 v) (h2 v) (h3 v) (h4 v) (h5 v) (h6 v) (h7 v) (bcount v).

(** The tweak words of a block. *)
Definition tweak0 (bcount extra : Z) : Z := SPH_T64 (SPH_T64 (bcount << 6) + extra).
Definition tweak1 (bcount etype : Z) : Z := SPH_T64 ((bcount >> 58) + SPH_T64 (etype << 55)).

(** [UBI_BIG(etype, extra)] on the block in [buf]. *)
Definition UBI_BIG (etype extra : Z) (buf : list Z) (v : skstate) : skstate :=
  let '(Sk h0 h1 h2 h3 h4 h5 h6 h7 bcount) := v in
  let m0 := sph_dec64le (skipn 0 buf) in
  let m1 := sph_dec64le (skipn 8 buf) in
  let m2 := sph_dec64le (skipn 16 buf) in
  let m3 := sph_dec64le (skipn 24 buf) in
  let m4 := sph_dec64le (skipn 32 buf) in
  let m5 := sph_dec64le (skipn 40 buf) in
  let m6 := sph_dec64le (skipn 48 buf) in
  let m7 := sph_dec64le (skipn 56 buf) in
  let t0 := tweak0 bcount extra in
  let t1 := tweak1 bcount etype in
  let (h8, t2) := TFBIG_KINIT h0 h1 h2 h3 h4 h5 h6 h7 t0 t1 in
  let h := [h0; h1; h2; h3; h4; h5; h6; h7; h8] in
  let t := [t0; t1; t2] in
  let p := P8 m0 m1 m2 m3 m4 m5 m6 m7 in
  let p := TFBIG_4e h t 0 p in let p := TFBIG_4o h t 1 p in
  let p := TFBIG_4e h t 2 p in let p := TFBIG_4o h t 3 p in
  let p := TFBIG_4e h t 4 p in let p := TFBIG_4o h t 5 p in
  let p := TFBIG_4e h t 6 p in let p := TFBIG_4o h t 7 p in
  let p := TFBIG_4e h t 8 p in let p := TFBIG_4o h t 9 p in
  let p := TFBIG_4e h t 10 p in let p := TFBIG_4o h t 11 p in
  let p := TFBIG_4e h t 12 p in let p := TFBIG_4o h t 13 p in
  let p := TFBIG_4e h t 14 p in let p := TFBIG_4o h t 15 p in
  let p := TFBIG_4e h t 16 p in let p := TFBIG_4o h t 17 p in
  let '(P8 p0 p1 p2 p3 p4 p5 p6 p7) := TFBIG_ADDKEY p h t 18 in
  Sk (m0 .^ p0) (m1 .^ p1) (m2 .^ p2) (m3 .^ p3)
     (m4 .^ p4) (m5 .^ p5) (m6 .^ p6) (m7 .^ p7) bcount.

(** SPH_SMALL_FOOTPRINT_SKEIN: the local array [h[27]]; [g] stands for its
    indeterminate contents. *)
Definition READ_STATE_BIG_small (g : list Z) (sc : skstate) : list Z * Z :=
  let h := g in
  let h := upd h 0 (h0 sc) in
  let h := upd h 1 (h1 sc) in
  let h := upd h 2 (h2 sc) in
  let h := upd h 3 (h3 sc) in
  let h := upd h 4 (h4 sc) in
  let h := upd h 5 (h5 sc) in
  let h := upd h 6 (h6 sc) in
  let h := upd h 7 (h7 sc) in
  (h, bcount sc).

Definition WRITE_STATE_BIG_small (h : list Z) (bcount : Z) : skstate :=
  Sk (nth 0 h 0) (nth 1 h 0) (nth 2 h 0) (nth 3 h 0) (nth 4 h 0) (nth 5 h 0) (nth 6 h 0) (nth 7 h 0) bcount.

(** [for (u = 0; u <= 15; u += 3)]: extend the key. *)
Definition extend_key (h : list Z) : list Z :=
  fold_left (fun h u =>
    let h := upd h (u + 9) (nth (u + 0) h 0) in
    let h := upd h (u + 10) (nth (u + 1) h 0) in
    upd h (u + 11) (nth (u + 2) h 0)) [0; 3; 6; 9; 12; 15]%nat h.

Definition UBI_BIG_small (etype extra : Z) (buf : list Z) (h : list Z) (bcount : Z) : list Z :=
  let m0 := sph_dec64le (skipn 0 buf) in
  let m1 := sph_dec64le (skipn 8 buf) in
  let m2 := sph_dec64le (skipn 16 buf) in
  let m3 := sph_dec64le (skipn 24 buf) in
  let m4 := sph_dec64le (skipn 32 buf) in
  let m5 := sph_dec64le (skipn 40 buf) in
  let m6 := sph_dec64le (skipn 48 buf) in
  let m7 := sph_dec64le (skipn 56 buf) in
  let t0 := tweak0 bcount extra in
  let t1 := tweak1 bcount etype in
  let (h8, t2) := TFBIG_KINIT (nth 0 h 0) (nth 1 h 0) (nth 2 h 0) (nth 3 h 0) (nth 4 h 0) (nth 5 h 0) (nth 6 h 0) (nth 7 h 0) t0 t1 in
  let h := upd h 8 h8 in
  let h := extend_key h in
  let '(p, t0, t1, t2) :=
    fold_left (fun '(p, t0, t1, t2) u =>
      let s := (2 * u)%nat in
      let p := TFBIG_4e_small h s t0 t1 p in
      let p := TFBIG_4o_small h (s + 1) t1 t2 p in
      (p, t2, t0, t1)) (seq 0 9) (P8 m0 m1 m2 m3 m4 m5 m6 m7, t0, t1, t2) in
  let '(P8 p0 p1 p2 p3 p4 p5 p6 p7) := TFBIG_ADDKEY_small p h 18 t0 t1 in
  let h := upd h 0 (m0 .^ p0) in
  let h := upd h 1 (m1 .^ p1) in
  let h := upd h 2 (m2 .^ p2) in
  let h := upd h 3 (m3 .^ p3) in
  let h := upd h 4 (m4 .^ p4) in
  let h := upd h 5 (m5 .^ p5) in
  let h := upd h 6 (m6 .^ p6) in
  let h := upd h 7 (m7 .^ p7) in
  h.

Definition skein_big_init (sc : skein_context) (iv : list Z) : skein_context :=
  Ctx (buf sc) 0 (Sk (nth 0 iv 0) (nth 1 iv 0) (nth 2 iv 0) (nth 3 iv 0) (nth 4 iv 0) (nth 5 iv 0) (nth 6 iv 0) (nth 7 iv 0) 0).

(** [bcount ++; UBI_BIG(96 + first, 0);] *)
Definition skein_block (first : Z) (b : list Z) (v : skstate) : skstate :=
  UBI_BIG (96 + first) 0 b
    (Sk (h0 v) (h1 v) (h2 v) (h3 v) (h4 v) (h5 v) (h6 v) (h7 v) (SPH_T64 (bcount v + 1))).

(** [(bcount == 0) << 7] *)
Definition first_flag (v : skstate) : Z := (if bcount v =? 0 then 1 else 0) << 7.

(** The [do ... while (len > 0)] loop.  A turn consumes at least one byte, so
    [length data] turns are enough. *)
Fixpoint skein_loop (fuel : nat) (b : list Z) (p : nat) (v : skstate) (first : Z) (data : list Z)
  : sctx skstate :=
  match fuel with
  | O => Ctx b p v
  | S fuel' =>
      let '(v, first, p) :=
        if (p =? 64)%nat then (skein_block first b v, 0, 0%nat) else (v, first, p) in
      let clen := (64 - p)%nat in
      let clen := if (length data <? clen)%nat then length data else clen in
      let b := memcpy b p data clen in
      let p := (p + clen)%nat in
      let data := skipn clen data in
      match data with
      | [] => Ctx b p v
      | _ => skein_loop fuel' b p v first data
      end
  end.

Definition skein_big_core (sc : skein_context) (data : list Z) : skein_context :=
  if (length data <=? 64 - ptr sc)%nat then
    Ctx (memcpy (buf sc) (ptr sc) data (length data)) (ptr sc + length data) (st sc)
  else
    let v := READ_STATE_BIG (st sc) in
    let r := skein_loop (length data) (buf sc) (ptr sc) v (first_flag v) data in
    Ctx (buf r) (ptr r) (WRITE_STATE_BIG (st r)).

Definition set_bcount (v : skstate) (c : Z) : skstate :=
  Sk (h0 v) (h1 v) (h2 v) (h3 v) (h4 v) (h5 v) (h6 v) (h7 v) c.

(** The closing function: the context's buffer (the state variables are not
    written back) and the bytes written to [dst]. *)
Definition skein_big_close (sc : skein_context) (ub n : Z) (out_len : nat)
  : skein_context * list Z :=
  let sc :=
    if negb (n =? 0) then
      let z := 0x80 >> n in
      let x := ((ub .& SPH_T32 (- z)) .| z) .& 0xFF in
      skein_big_core sc [x]
    else sc in
  let v := READ_STATE_BIG (st sc) in
  let b := memset (buf sc) (ptr sc) 0 (64 - ptr sc) in
  let et := 352 + first_flag v + (if negb (n =? 0) then 1 else 0) in
  let v := UBI_BIG et (Z.of_nat (ptr sc)) b v in
  let b := memset b 0 0 64 in
  let v := set_bcount v 0 in
  let v := UBI_BIG 510 8 b v in
  let b := memcpy b 0 (sph_enc64le (h0 v)) 8 in
  let b := memcpy b 8 (sph_enc64le (h1 v)) 8 in
  let b := memcpy b 16 (sph_enc64le (h2 v)) 8 in
  let b := memcpy b 24 (sph_enc64le (h3 v)) 8 in
  let b := memcpy b 32 (sph_enc64le (h4 v)) 8 in
  let b := memcpy b 40 (sph_enc64le (h5 v)) 8 in
  let b := memcpy b 48 (sph_enc64le (h6 v)) 8 in
  let b := memcpy b 56 (sph_enc64le (h7 v)) 8 in
  (Ctx b (ptr sc) (st sc), firstn out_len b).

Definition sph_skein224_init (cc : skein_context) := skein_big_init cc IV224.
Definition sph_skein224 (cc : skein_context) (data : list Z) := skein_big_core cc data.
Definition sph_skein224_addbits_and_close (cc : skein_context) (ub n : Z) :=
  let (cc, dst) := skein_big_close cc ub n 28 in (dst, sph_skein224_init cc).
Definition sph_skein224_close (cc : skein_context) := sph_skein224_addbits_and_close cc 0 0.

Definition sph_skein256_init (cc : skein_context) := skein_big_init cc IV256.
Definition sph_skein256 (cc : skein_context) (data : list Z) := skein_big_core cc data.
Definition sph_skein256_addbits_and_close (cc : skein_context) (ub n : Z) :=
  let (cc, dst) := skein_big_close cc ub n 32 in (dst, sph_skein256_init cc).
Definition sph_skein256_close (cc : skein_context) := sph_skein256_addbits_and_close cc 0 0.

Definition sph_skein384_init (cc : skein_context) := skein_big_init cc IV384.
Definition sph_skein384 (cc : skein_context) (data : list Z) := skein_big_core cc data.
Definition sph_skein384_addbits_and_close (cc : skein_context) (ub n : Z) :=
  let (cc, dst) := skein_big_close cc ub n 48 in (dst, sph_skein384_init cc).
Definition sph_skein384_close (cc : skein_context) := sph_skein384_addbits_and_close cc 0 0.

Definition sph_skein512_init (cc : skein_context) := skein_big_init cc IV512.
Definition sph_skein512 (cc : skein_context) (data : list Z) := skein_big_core cc data.
Definition sph_skein512_addbits_and_close (cc : skein_context) (ub n : Z) :=
  let (cc, dst) := skein_big_close cc ub n 64 in (dst, sph_skein512_init cc).
Definition sph_skein512_close (cc : skein_context) := sph_skein512_addbits_and_close cc 0 0.
