(* ===== verification/SkeinSpec.v ===== *)
(** * SkeinSpec: Skein-512 and the correctness of skein.c

    Reference definitions of Threefish-512 (72 rounds, subkeys, tweak), of
    the UBI chaining mode and of Skein-512-N (configuration block, message,
    output transform), then the proof that the code of Skein.v computes
    them.  The update function is lazy (it keeps a full block back); its
    abstract counterpart is [absorb_lazy]. *)

From Stdlib Require Import ZArith List Lia Bool.
From S2P Require Import Prelude SphTypes Stream Skein.
Import ListNotations.

Open Scope Z_scope.
Open Scope word_scope.

(** ** Threefish-512 *)

(** Rotation constants of round [d mod 8], and the word permutation. *)
Definition tf_rot : list (list Z) :=
  [[46; 36; 19; 37]; [33; 27; 14; 42]; [17; 49; 36; 39]; [44; 9; 54; 56];
   [39; 30; 34; 24]; [13; 50; 10; 17]; [25; 29; 39; 43]; [8; 35; 56; 22]].

Definition tf_perm : list nat := [2; 1; 4; 7; 6; 5; 0; 3]%nat.

Definition tf_mix (rot v : list Z) : list Z :=
  flat_map (fun j =>
    let x0 := nth (2 * j) v 0 in
    let x1 := nth (2 * j + 1) v 0 in
    let y0 := SPH_T64 (x0 + x1) in
    [y0; SPH_ROTL64 x1 (nth j rot 0) .^ y0]) (seq 0 4).

Definition tf_mixrow (i : nat) (v : list Z) : list Z :=
  map (fun j => nth j (tf_mix (nth i tf_rot []) v) 0) tf_perm.

(** Subkey [s] from the nine key words and the three tweak words, added. *)
Definition tf_addkey (k t v : list Z) (s : nat) : list Z :=
  map (fun i =>
    let ki := nth ((s + i) mod 9) k 0 in
    SPH_T64 (nth i v 0 +
      match i with
      | 5%nat => ki + nth (s mod 3) t 0
      | 6%nat => ki + nth ((s + 1) mod 3) t 0
      | 7%nat => ki + Z.of_nat s
      | _ => ki
      end)) (seq 0 8).

Definition tf_round (k t v : list Z) (d : nat) : list Z :=
  let v := if (d mod 4 =? 0)%nat then tf_addkey k t v (d / 4) else v in
  tf_mixrow (d mod 8) v.

(** The key and the tweak, extended by their parity words. *)
Definition tf_key (k : list Z) : list Z := k ++ [fold_left Z.lxor k 0x1BD11BDAA9FC1A22].
Definition tf_tweak (t : list Z) : list Z := t ++ [nth 0 t 0 .^ nth 1 t 0].

Definition threefish (key tweak p : list Z) : list Z :=
  let k := tf_key key in
  let t := tf_tweak tweak in
  tf_addkey k t (fold_left (tf_round k t) (seq 0 72) p) 18.

(** ** UBI *)

(** The 128-bit tweak: position, type, and the first, final and bit-pad
    flags. *)
Definition tweak (pos ty first final pad : Z) : list Z :=
  let T := pos + pad * 2 ^ 119 + ty * 2 ^ 120 + first * 2 ^ 126 + final * 2 ^ 127 in
  [trunc 64 T; T >> 64].

Definition ubi_block (G : list Z) (pos ty first final pad : Z) (blk : list Z) : list Z :=
  let m := read_words sph_dec64le 8 8 blk in
  map2 Z.lxor m (threefish G (tweak pos ty first final pad) m).

Definition b2z (b : bool) : Z := if b then 1 else 0.

(** Types of UBI inputs. *)
Definition T_cfg : Z := 4.
Definition T_msg : Z := 48.
Definition T_out : Z := 63.

(** Processing of a non-empty list of blocks' worth of bytes: all blocks but
    the last, then the last (zero-padded) with the final flag.  [i] counts
    the blocks already processed. *)
Fixpoint ubi (fuel : nat) (G : list Z) (i : Z) (ty pad : Z) (m : list Z) : list Z :=
  match fuel with
  | O => G
  | S fuel' =>
      if (length m <=? 64)%nat then
        ubi_block G (64 * i + Z.of_nat (length m)) ty (b2z (i =? 0)) 1 pad
          (m ++ repeat 0 (64 - length m))
      else
        ubi fuel' (ubi_block G (64 * (i + 1)) ty (b2z (i =? 0)) 0 0 (firstn 64 m)) (i + 1) ty pad
          (skipn 64 m)
  end.

Definition UBI (G : list Z) (ty pad : Z) (m : list Z) : list Z := ubi (S (length m)) G 0 ty pad m.

(** ** Skein-512-N *)

(** The configuration string: schema identifier "SHA3", version 1, output
    length in bits, no tree hashing. *)
Definition skein_config (N : Z) : list Z :=
  [0x53; 0x48; 0x41; 0x33; 1; 0; 0; 0] ++ sph_enc64le N ++ repeat 0 16.

Definition skein_iv (N : Z) : list Z := UBI (repeat 0 8) T_cfg 0 (skein_config N).

(** A message of bytes and [n] more bits, the first ones of [ub]: when
    [n > 0] the last byte gets a one bit after them and the pad flag is
    set. *)
Definition skein_spec (N : Z) (m : list Z) (ub n : Z) : list Z :=
  let m' := if n =? 0 then m else m ++ [last_byte ub n] in
  let G := UBI (skein_iv N) T_msg (b2z (negb (n =? 0))) m' in
  let H := UBI G T_out 0 (repeat 0 8) in
  firstn (Z.to_nat (N / 8)) (flat_map sph_enc64le H).

Lemma IV_tables_skein :
  IV224 = skein_iv 224 /\ IV256 = skein_iv 256 /\ IV384 = skein_iv 384 /\ IV512 = skein_iv 512.
Proof. split; [|split; [|split]]; vm_compute; reflexivity. Qed.

(** ** The Threefish macros *)

Definition plist (p : pvars) : list Z :=
  let '(P8 p0 p1 p2 p3 p4 p5 p6 p7) := p in [p0; p1; p2; p3; p4; p5; p6; p7].

Lemma M9_spec s i : (s <= 18)%nat -> (i < 8)%nat -> M9 s i = ((s + i) mod 9)%nat.
Proof.
  intros Hs Hi; do 19 (destruct s as [|s]; [do 8 (destruct i as [|i]; [reflexivity|]); lia|]); lia.
Qed.

Lemma M3_spec s i : (s <= 18)%nat -> (i < 2)%nat -> M3 s i = ((s + i) mod 3)%nat.
Proof.
  intros Hs Hi; do 19 (destruct s as [|s]; [do 2 (destruct i as [|i]; [reflexivity|]); lia|]); lia.
Qed.

Lemma ADDKEY_spec p k t s : (s <= 18)%nat -> plist (TFBIG_ADDKEY p k t s) = tf_addkey k t (plist p) s.
Proof.
  intros Hs; destruct p; unfold TFBIG_ADDKEY, tf_addkey, SKBI, SKBT.
  rewrite !M9_spec, !M3_spec by lia; rewrite Nat.add_0_r.
  cbn [plist seq map nth]; rewrite <- !Z.add_assoc, Nat.add_0_r; reflexivity.
Qed.

(** ** The table-driven code *)

(** The array [h[27]] of the table-driven code holds the nine key words three
    times. *)
Lemma key_index K s i :
  length K = 9%nat -> (s <= 18)%nat -> (i < 8)%nat -> nth (s + i) (K ++ K ++ K) 0 = SKBI K s i.
Proof.
  intros HK Hs Hi; unfold SKBI; rewrite M9_spec by assumption.
  do 10 (destruct K as [|? K]; try discriminate HK).
  do 19 (destruct s as [|s]; [do 8 (destruct i as [|i]; [reflexivity|]); lia|]); lia.
Qed.

Lemma ADDKEY_small_spec K t s p :
  length K = 9%nat -> (s <= 18)%nat ->
  TFBIG_ADDKEY_small p (K ++ K ++ K) s (SKBT t s 0) (SKBT t s 1) = TFBIG_ADDKEY p K t s.
Proof.
  intros HK Hs; destruct p; unfold TFBIG_ADDKEY_small, TFBIG_ADDKEY.
  now rewrite !key_index by lia.
Qed.

Lemma TFBIG_4e_small_spec K t s p :
  length K = 9%nat -> (s <= 18)%nat ->
  TFBIG_4e_small (K ++ K ++ K) s (SKBT t s 0) (SKBT t s 1) p = TFBIG_4e K t s p.
Proof. intros; unfold TFBIG_4e_small, TFBIG_4e; now rewrite ADDKEY_small_spec. Qed.

Lemma TFBIG_4o_small_spec K t s p :
  length K = 9%nat -> (s <= 18)%nat ->
  TFBIG_4o_small (K ++ K ++ K) s (SKBT t s 0) (SKBT t s 1) p = TFBIG_4o K t s p.
Proof. intros; unfold TFBIG_4o_small, TFBIG_4o; now rewrite ADDKEY_small_spec. Qed.

(** ** The macros are permutations *)

Definition pvars_ok (p : pvars) : Prop := words 64 (plist p).

Lemma MIX_ok x0 x1 rc : inw 64 (fst (TFBIG_MIX x0 x1 rc)) /\ inw 64 (snd (TFBIG_MIX x0 x1 rc)).
Proof. unfold TFBIG_MIX; cbn [fst snd]; auto with word. Qed.

Lemma MIX_inj x0 x1 y0 y1 rc :
  inw 64 x0 -> inw 64 x1 -> inw 64 y0 -> inw 64 y1 -> 0 <= rc <= 64 ->
  TFBIG_MIX x0 x1 rc = TFBIG_MIX y0 y1 rc -> x0 = y0 /\ x1 = y1.
Proof.
  unfold TFBIG_MIX; intros H1 H2 H3 H4 Hr E; apply pair_equal_spec in E as [E1 E2].
  rewrite E1 in E2; rewrite !(Z.lxor_comm _ (SPH_T64 (y0 + y1))) in E2; apply lxor_inj in E2.
  rewrite !SPH_ROTL64_rotl in E2; apply rotl_inj in E2; try lia; try assumption; subst y1.
  rewrite !SPH_T64_trunc, !(Z.add_comm _ x1) in E1; apply trunc_add_inj in E1; auto; lia.
Qed.

Definition oct := (Z * Z * Z * Z * Z * Z * Z * Z)%type.

Definition oct_ok (x : oct) : Prop :=
  let '(a, b, c, d, e, f, g, h) := x in words 64 [a; b; c; d; e; f; g; h].

Definition mix8 (x : oct) (r0 r1 r2 r3 : Z) : oct :=
  let '(a, b, c, d, e, f, g, h) := x in TFBIG_MIX8 a b c d e f g h r0 r1 r2 r3.

Lemma mix8_ok x r0 r1 r2 r3 : oct_ok (mix8 x r0 r1 r2 r3).
Proof.
  destruct x as [[[[[[[a b] c] d] e] f] g] h]; cbn [mix8]; unfold TFBIG_MIX8.
  destruct (MIX_ok a b r0), (MIX_ok c d r1), (MIX_ok e f r2), (MIX_ok g h r3).
  destruct (TFBIG_MIX a b r0), (TFBIG_MIX c d r1), (TFBIG_MIX e f r2), (TFBIG_MIX g h r3).
  cbn [fst snd oct_ok] in *; unfold words; auto 9.
Qed.

Lemma mix8_inj x y r0 r1 r2 r3 :
  oct_ok x -> oct_ok y -> 0 <= r0 <= 64 -> 0 <= r1 <= 64 -> 0 <= r2 <= 64 -> 0 <= r3 <= 64 ->
  mix8 x r0 r1 r2 r3 = mix8 y r0 r1 r2 r3 -> x = y.
Proof.
  destruct x as [[[[[[[a b] c] d] e] f] g] h], y as [[[[[[[a' b'] c'] d'] e'] f'] g'] h'].
  unfold oct_ok, words; rewrite !Forall_cons_iff; intros Hx Hy H0 H1 H2 H3; cbn [mix8]; unfold TFBIG_MIX8.
  pose proof (MIX_inj a b a' b' r0) as I0; pose proof (MIX_inj c d c' d' r1) as I1.
  pose proof (MIX_inj e f e' f' r2) as I2; pose proof (MIX_inj g h g' h' r3) as I3.
  destruct (TFBIG_MIX a b r0), (TFBIG_MIX a' b' r0), (TFBIG_MIX c d r1), (TFBIG_MIX c' d' r1),
    (TFBIG_MIX e f r2), (TFBIG_MIX e' f' r2), (TFBIG_MIX g h r3), (TFBIG_MIX g' h' r3).
  intros E; injection E; intros; subst.
  destruct Hx as (? & ? & ? & ? & ? & ? & ? & ? & _), Hy as (? & ? & ? & ? & ? & ? & ? & ? & _).
  destruct I0, I1, I2, I3; try assumption; subst; reflexivity.
Qed.

Definition oct_of (p : pvars) : oct :=
  let '(P8 p0 p1 p2 p3 p4 p5 p6 p7) := p in (p0, p1, p2, p3, p4, p5, p6, p7).

Lemma ADDKEY_ok p k t s : oct_ok (oct_of (TFBIG_ADDKEY p k t s)).
Proof. destruct p; unfold TFBIG_ADDKEY, oct_of, oct_ok, words; auto 9 with word. Qed.

Lemma add_inj a b c : inw 64 a -> inw 64 b -> SPH_T64 (a + c) = SPH_T64 (b + c) -> a = b.
Proof.
  intros Ha Hb E; rewrite !SPH_T64_trunc, !(Z.add_comm _ c) in E; apply trunc_add_inj in E; auto; lia.
Qed.

Lemma ADDKEY_inj p p' k t s :
  pvars_ok p -> pvars_ok p' -> oct_of (TFBIG_ADDKEY p k t s) = oct_of (TFBIG_ADDKEY p' k t s) -> p = p'.
Proof.
  destruct p, p'; unfold pvars_ok, words, plist; rewrite !Forall_cons_iff.
  intros (? & ? & ? & ? & ? & ? & ? & ? & _) (? & ? & ? & ? & ? & ? & ? & ? & _) E.
  unfold TFBIG_ADDKEY, oct_of in E; rewrite <- !Z.add_assoc in E.
  repeat match type of E with (_, _) = (_, _) =>
    apply pair_equal_spec in E as [E ?EE] end.
  repeat match goal with H : SPH_T64 (_ + _) = SPH_T64 (_ + _) |- _ => apply add_inj in H; try assumption end.
  now subst.
Qed.

(** Four rounds after the key addition, as steps on tuples: mix, then
    rename the variables. *)
Definition turn (x : oct) : oct :=
  let '(p0, p1, p2, p3, p4, p5, p6, p7) := x in (p2, p1, p4, p7, p6, p5, p0, p3).

Lemma turn_ok x : oct_ok x -> oct_ok (turn x).
Proof.
  destruct x as [[[[[[[a b] c] d] e] f] g] h]; cbn [turn oct_ok]; unfold words.
  rewrite !Forall_cons_iff; tauto.
Qed.

Lemma turn_inj x y : turn x = turn y -> x = y.
Proof.
  destruct x as [[[[[[[a b] c] d] e] f] g] h], y as [[[[[[[a' b'] c'] d'] e'] f'] g'] h'].
  cbn [turn]; intros E; injection E; intros; now subst.
Qed.

Definition mixes (r : list Z) (x : oct) : oct :=
  turn (mix8 x (nth 0 r 0) (nth 1 r 0) (nth 2 r 0) (nth 3 r 0)).

Lemma mixes_inj r x y :
  Forall (fun z => 0 <= z <= 64) r -> oct_ok x -> oct_ok y -> mixes r x = mixes r y -> x = y.
Proof.
  intros Hr Hx Hy E; apply turn_inj, mix8_inj in E; try assumption;
    rewrite Forall_forall in Hr; match goal with |- 0 <= nth ?i r 0 <= 64 =>
      destruct (nth_in_or_default i r 0) as [H | ->]; [now apply Hr | lia] end.
Qed.

Lemma mixes_ok r x : oct_ok (mixes r x).
Proof. apply turn_ok, mix8_ok. Qed.

Lemma four_mixes rows x y :
  Forall (Forall (fun z => 0 <= z <= 64)) rows -> oct_ok x -> oct_ok y ->
  fold_left (fun x r => mixes r x) rows x = fold_left (fun x r => mixes r x) rows y -> x = y.
Proof.
  revert x y; induction rows as [|r rows IH]; intros x y Hr Hx Hy E; [exact E|].
  inversion Hr; subst; cbn [fold_left] in E; apply IH in E; try assumption; try apply mixes_ok.
  now apply mixes_inj in E.
Qed.

Lemma TFBIG_4e_mixes k t s p :
  oct_of (TFBIG_4e k t s p)
  = fold_left (fun x r => mixes r x) (firstn 4 tf_rot) (oct_of (TFBIG_ADDKEY p k t s)).
Proof.
  unfold TFBIG_4e; destruct (TFBIG_ADDKEY p k t s).
  cbv -[SPH_T64 SPH_ROTL64 Z.lxor Z.add]; reflexivity.
Qed.

Lemma TFBIG_4o_mixes k t s p :
  oct_of (TFBIG_4o k t s p)
  = fold_left (fun x r => mixes r x) (skipn 4 tf_rot) (oct_of (TFBIG_ADDKEY p k t s)).
Proof.
  unfold TFBIG_4o; destruct (TFBIG_ADDKEY p k t s).
  cbv -[SPH_T64 SPH_ROTL64 Z.lxor Z.add]; reflexivity.
Qed.

Lemma tf_rot_ok : Forall (Forall (fun z => 0 <= z <= 64)) tf_rot.
Proof. unfold tf_rot; repeat constructor; lia. Qed.

#[local] Opaque TFBIG_ADDKEY tf_addkey TFBIG_ADDKEY_small.

Lemma TFBIG_4e_spec k t s p : (s <= 18)%nat -> plist (TFBIG_4e k t s p)
  = tf_mixrow 3 (tf_mixrow 2 (tf_mixrow 1 (tf_mixrow 0 (tf_addkey k t (plist p) s)))).
Proof.
  intros Hs; rewrite <- ADDKEY_spec by assumption; unfold TFBIG_4e; destruct (TFBIG_ADDKEY p k t s).
  cbv -[SPH_T64 SPH_ROTL64 Z.lxor Z.add]; reflexivity.
Qed.

Lemma TFBIG_4o_spec k t s p : (s <= 18)%nat -> plist (TFBIG_4o k t s p)
  = tf_mixrow 7 (tf_mixrow 6 (tf_mixrow 5 (tf_mixrow 4 (tf_addkey k t (plist p) s)))).
Proof.
  intros Hs; rewrite <- ADDKEY_spec by assumption; unfold TFBIG_4o; destruct (TFBIG_ADDKEY p k t s).
  cbv -[SPH_T64 SPH_ROTL64 Z.lxor Z.add]; reflexivity.
Qed.

#[local] Opaque tf_mixrow TFBIG_4e TFBIG_4o TFBIG_4e_small TFBIG_4o_small.

(** Eight rounds of the specification are two of the macros. *)
Lemma eight_rounds k t s p : (s < 18)%nat -> Nat.even s = true ->
  plist (TFBIG_4o k t (S s) (TFBIG_4e k t s p))
  = fold_left (tf_round k t) (seq (4 * s) 8) (plist p).
Proof.
  intros Hs He; rewrite TFBIG_4o_spec, TFBIG_4e_spec by lia.
  do 18 (destruct s as [|s]; [try discriminate He; reflexivity|]); lia.
Qed.

Definition key_of (v : skstate) : list Z := [h0 v; h1 v; h2 v; h3 v; h4 v; h5 v; h6 v; h7 v].

Lemma KINIT_spec v t0 t1 :
  TFBIG_KINIT (h0 v) (h1 v) (h2 v) (h3 v) (h4 v) (h5 v) (h6 v) (h7 v) t0 t1
  = (fold_left Z.lxor (key_of v) 0x1BD11BDAA9FC1A22, t0 .^ t1).
Proof.
  unfold TFBIG_KINIT, key_of; cbn [fold_left]; f_equal.
  rewrite Z.lxor_comm, <- !Z.lxor_assoc; reflexivity.
Qed.

Definition rounds_code (k t : list Z) (p : pvars) : pvars :=
  fold_left (fun p s => TFBIG_4o k t (S s) (TFBIG_4e k t s p)) [0; 2; 4; 6; 8; 10; 12; 14; 16]%nat p.

Lemma rounds_code_spec k t p :
  plist (rounds_code k t p) = fold_left (tf_round k t) (seq 0 72) (plist p).
Proof.
  unfold rounds_code; cbn [fold_left]; rewrite !eight_rounds by (reflexivity || lia).
  rewrite <- !fold_left_app; reflexivity.
Qed.

(** The loop over [u] with its rotating tweak words. *)
Definition small_step (h : list Z) (x : pvars * Z * Z * Z) (u : nat) : pvars * Z * Z * Z :=
  let '(p, t0, t1, t2) := x in
  let s := (2 * u)%nat in
  let p := TFBIG_4e_small h s t0 t1 p in
  let p := TFBIG_4o_small h (s + 1) t1 t2 p in
  (p, t2, t0, t1).

Definition tw (t : list Z) (i : nat) : Z := nth (i mod 3) t 0.

Lemma SKBT_tw t s v : (s <= 18)%nat -> (v < 2)%nat -> SKBT t s v = tw t (s + v).
Proof. intros; unfold SKBT, tw; now rewrite M3_spec. Qed.

Lemma small_step_spec K t u p :
  length K = 9%nat -> (u < 9)%nat ->
  small_step (K ++ K ++ K) (p, tw t (2 * u), tw t (2 * u + 1), tw t (2 * u + 2)) u
  = (TFBIG_4o K t (S (2 * u)) (TFBIG_4e K t (2 * u) p),
     tw t (2 * S u), tw t (2 * S u + 1), tw t (2 * S u + 2)).
Proof.
  intros HK Hu; unfold small_step.
  pose proof (TFBIG_4e_small_spec K t (2 * u) p HK ltac:(lia)) as E1.
  rewrite !SKBT_tw, Nat.add_0_r in E1 by lia; rewrite E1.
  pose proof (TFBIG_4o_small_spec K t (2 * u + 1) (TFBIG_4e K t (2 * u) p) HK ltac:(lia)) as E2.
  rewrite !SKBT_tw, Nat.add_0_r in E2 by lia.
  replace (2 * u + 1 + 1)%nat with (2 * u + 2)%nat in E2 by lia; rewrite E2, Nat.add_1_r.
  do 9 (destruct u as [|u]; [reflexivity|]); lia.
Qed.

Lemma small_rounds K t0 t1 t2 p :
  length K = 9%nat ->
  fold_left (small_step (K ++ K ++ K)) (seq 0 9) (p, t0, t1, t2)
  = (rounds_code K [t0; t1; t2] p, t0, t1, t2).
Proof.
  intros HK; set (t := [t0; t1; t2]).
  change (p, t0, t1, t2) with (p, tw t (2 * 0), tw t (2 * 0 + 1), tw t (2 * 0 + 2)).
  cbv beta iota delta [fold_left seq]; rewrite !small_step_spec by (assumption || lia); reflexivity.
Qed.

Lemma UBI_BIG_rounds et ex b v :
  let m := read_words sph_dec64le 8 8 b in
  let t := tf_tweak [tweak0 (bcount v) ex; tweak1 (bcount v) et] in
  let k := tf_key (key_of v) in
  let p := rounds_code k t (P8 (nth 0 m 0) (nth 1 m 0) (nth 2 m 0) (nth 3 m 0)
                               (nth 4 m 0) (nth 5 m 0) (nth 6 m 0) (nth 7 m 0)) in
  key_of (UBI_BIG et ex b v) = map2 Z.lxor m (plist (TFBIG_ADDKEY p k t 18))
  /\ bcount (UBI_BIG et ex b v) = bcount v.
Proof.
  intros m t k p; destruct v as [v0 v1 v2 v3 v4 v5 v6 v7 c]; unfold UBI_BIG.
  rewrite (KINIT_spec (Sk v0 v1 v2 v3 v4 v5 v6 v7 c)); cbv beta iota zeta.
  set (kk := [v0; v1; v2; v3; v4; v5; v6; v7; _]); set (tt := [_; _; _]); set (pp := P8 _ _ _ _ _ _ _ _).
  assert (E : p = rounds_code kk tt pp) by reflexivity.
  assert (Ek : k = kk) by reflexivity; assert (Et : t = tt) by reflexivity.
  rewrite E, Ek, Et; unfold rounds_code; cbv beta iota delta [fold_left].
  clearbody kk tt pp; match goal with |- context [TFBIG_ADDKEY ?q kk tt 18] => destruct (TFBIG_ADDKEY q kk tt 18) end.
  split; reflexivity.
Qed.

Lemma ubi_small_spec et ex b g v :
  length g = 27%nat ->
  let (h, c) := READ_STATE_BIG_small g v in
  WRITE_STATE_BIG_small (UBI_BIG_small et ex b h c) c = UBI_BIG et ex b v.
Proof.
  intros Hg; do 28 (destruct g as [|? g]; try discriminate Hg).
  unfold READ_STATE_BIG_small; destruct v as [v0 v1 v2 v3 v4 v5 v6 v7 c].
  cbv beta iota zeta delta [upd memcpy firstn skipn app Nat.add Skein.h0 Skein.h1 Skein.h2 Skein.h3
    Skein.h4 Skein.h5 Skein.h6 Skein.h7 Skein.bcount].
  unfold UBI_BIG_small, UBI_BIG; cbn [nth].
  destruct (TFBIG_KINIT _ _ _ _ _ _ _ _ _ _) as [k8 t2].
  set (K := [v0; v1; v2; v3; v4; v5; v6; v7; k8]).
  change (extend_key _) with (K ++ K ++ K).
  set (t0 := tweak0 c ex); set (t1 := tweak1 c et); set (pp := P8 _ _ _ _ _ _ _ _).
  change (fold_left _ (seq 0 9) (pp, t0, t1, t2))
    with (fold_left (small_step (K ++ K ++ K)) (seq 0 9) (pp, t0, t1, t2)).
  rewrite small_rounds by reflexivity.
  change (TFBIG_ADDKEY_small (rounds_code K [t0; t1; t2] pp) (K ++ K ++ K) 18 t0 t1) with
    (TFBIG_ADDKEY_small (rounds_code K [t0; t1; t2] pp) (K ++ K ++ K) 18
       (SKBT [t0; t1; t2] 18 0) (SKBT [t0; t1; t2] 18 1)).
  rewrite ADDKEY_small_spec by (reflexivity || lia); unfold rounds_code; cbv beta iota delta [fold_left].
  destruct (TFBIG_ADDKEY _ K [t0; t1; t2] 18); reflexivity.
Qed.

#[local] Opaque UBI_BIG.

(** ** The UBI macro *)

Lemma tweaks c ex ty first final pad :
  0 <= c -> 0 <= ex -> 64 * c + ex < 2 ^ 64 ->
  0 <= ty < 64 -> 0 <= first <= 1 -> 0 <= final <= 1 -> 0 <= pad <= 1 ->
  [tweak0 c ex; tweak1 c (pad + 2 * ty + 128 * first + 256 * final)]
  = tweak (64 * c + ex) ty first final pad.
Proof.
  intros Hc Hex Hpos Hty Hf Hl Hp; unfold tweak, tweak0, tweak1.
  rewrite !SPH_T64_trunc, !Z.shiftr_div_pow2, !Z.shiftl_mul_pow2 by lia.
  set (et := pad + 2 * ty + 128 * first + 256 * final).
  replace (64 * c + ex + pad * 2 ^ 119 + ty * 2 ^ 120 + first * 2 ^ 126 + final * 2 ^ 127)
    with (64 * c + ex + et * 2 ^ 55 * 2 ^ 64) by (unfold et; lia).
  rewrite !(trunc_mod 64), Z.mod_add, Z.div_add, !(Z.div_small _ (2 ^ 64)), (Z.div_small c (2 ^ 58)) by lia.
  rewrite (Z.mod_small (c * 2 ^ 6)), (Z.mod_small (et * 2 ^ 55)) by (unfold et; lia).
  rewrite !Z.mod_small by (unfold et; lia); do 2 f_equal; lia.
Qed.

Lemma UBI_BIG_spec ex b v ty first final pad et :
  0 <= bcount v -> 0 <= ex -> 64 * bcount v + ex < 2 ^ 64 ->
  0 <= ty < 64 -> 0 <= first <= 1 -> 0 <= final <= 1 -> 0 <= pad <= 1 ->
  et = pad + 2 * ty + 128 * first + 256 * final ->
  key_of (UBI_BIG et ex b v) = ubi_block (key_of v) (64 * bcount v + ex) ty first final pad b
  /\ bcount (UBI_BIG et ex b v) = bcount v.
Proof.
  intros Hc Hex Hpos Hty Hf Hl Hp ->; destruct (UBI_BIG_rounds
    (pad + 2 * ty + 128 * first + 256 * final) ex b v) as [E1 E2]; split; [|exact E2].
  rewrite E1, ADDKEY_spec, rounds_code_spec, tweaks by lia.
  unfold ubi_block, plist; reflexivity.
Qed.

Lemma UBI_BIG_threefish et ex b v :
  let m := read_words sph_dec64le 8 8 b in
  key_of (UBI_BIG et ex b v)
  = map2 Z.lxor m (threefish (key_of v) [tweak0 (bcount v) ex; tweak1 (bcount v) et] m).
Proof.
  intros m; destruct (UBI_BIG_rounds et ex b v) as [E _].
  rewrite E, ADDKEY_spec, rounds_code_spec by lia; unfold plist, m; reflexivity.
Qed.
#[local] Opaque threefish.

(** ** Lazy absorption *)

(** A full buffer that is not the last block. *)
Definition skein_process (b : list Z) (v : skstate) : skstate := skein_block (first_flag v) b v.

Fixpoint lazy_fuel (fuel : nat) (v : skstate) (data : list Z) : skstate * list Z :=
  match fuel with
  | O => (v, data)
  | S fuel' =>
      if (length data <=? 64)%nat then (v, data)
      else lazy_fuel fuel' (skein_process (firstn 64 data) v) (skipn 64 data)
  end.

(** Process all blocks except a last one of 1 to 64 bytes. *)
Definition absorb_lazy (v : skstate) (data : list Z) : skstate * list Z :=
  lazy_fuel (length data) v data.

Lemma lazy_enough n m v data :
  (length data <= n)%nat -> (length data <= m)%nat -> lazy_fuel n v data = lazy_fuel m v data.
Proof.
  revert m v data; induction n as [|n IH]; intros m v data Hn Hm.
  - destruct data; [|cbn in Hn; lia]; now destruct m.
  - destruct m as [|m]; [destruct data; [reflexivity | cbn in Hm; lia]|]; cbn [lazy_fuel].
    destruct (Nat.leb_spec (length data) 64); [reflexivity|].
    apply IH; rewrite length_skipn; lia.
Qed.

Lemma lazy_short v data : (length data <= 64)%nat -> absorb_lazy v data = (v, data).
Proof.
  intros H; unfold absorb_lazy; destruct (length data) eqn:E; [reflexivity|]; cbn [lazy_fuel].
  rewrite E; destruct (Nat.leb_spec (S n) 64); [reflexivity | lia].
Qed.

Lemma lazy_block v blk data :
  length blk = 64%nat -> data <> [] ->
  absorb_lazy v (blk ++ data) = absorb_lazy (skein_process blk v) data.
Proof.
  intros Hb Hd; unfold absorb_lazy; rewrite (lazy_enough _ (S (length (blk ++ data)))) by lia.
  cbn [lazy_fuel]; destruct (Nat.leb_spec (length (blk ++ data)) 64) as [H|H].
  { rewrite length_app, Hb in H; destruct data; [contradiction | cbn [length] in H; lia]. }
  rewrite firstn_app, skipn_app, Hb, Nat.sub_diag, firstn_all2, skipn_all2 by lia.
  rewrite firstn_O, skipn_O, app_nil_r, app_nil_l; apply lazy_enough; rewrite ?length_app; lia.
Qed.

Lemma lazy_ind (P : list Z -> Prop) :
  (forall data, (length data <= 64)%nat -> P data) ->
  (forall blk data, length blk = 64%nat -> data <> [] -> P data -> P (blk ++ data)) ->
  forall data, P data.
Proof.
  intros Hs Hb data; remember (length data) as n eqn:E.
  revert data E; induction n as [n IH] using lt_wf_ind; intros data ->.
  destruct (Nat.le_gt_cases (length data) 64) as [H|H]; [auto|].
  rewrite <- (firstn_skipn 64 data); apply Hb.
  - rewrite length_firstn; lia.
  - intros E; apply (f_equal (@length Z)) in E; rewrite length_skipn in E; cbn in E; lia.
  - apply (IH (length (skipn 64 data))); [rewrite length_skipn; lia | reflexivity].
Qed.

Lemma lazy_app v d1 d2 :
  absorb_lazy v (d1 ++ d2) = absorb_lazy (fst (absorb_lazy v d1)) (snd (absorb_lazy v d1) ++ d2).
Proof.
  revert v; induction d1 as [d1 H|blk d1 Hb Hd IH] using lazy_ind; intros v.
  - now rewrite (lazy_short v d1).
  - rewrite <- app_assoc, (lazy_block v blk d1), (lazy_block v blk (d1 ++ d2)) by
      (assumption || (intros E; apply app_eq_nil in E; tauto)); apply IH.
Qed.

(** A processed block keeps the words of the specification and counts. *)
Lemma skein_process_spec b v :
  0 <= bcount v -> 64 * (bcount v + 1) < 2 ^ 64 ->
  key_of (skein_process b v)
  = ubi_block (key_of v) (64 * (bcount v + 1)) T_msg (b2z (bcount v =? 0)) 0 0 b
  /\ bcount (skein_process b v) = bcount v + 1.
Proof.
  intros Hc Hl; unfold skein_process, skein_block, first_flag.
  rewrite SPH_T64_trunc, trunc_small by (unfold inw; lia).
  set (v' := Sk _ _ _ _ _ _ _ _ _).
  destruct (UBI_BIG_spec 0 b v' T_msg (b2z (bcount v =? 0)) 0 0
              (96 + ((if bcount v =? 0 then 1 else 0) << 7))) as [E1 E2];
    cbn [bcount v'] in *; try lia; try (unfold T_msg, b2z; destruct (bcount v =? 0); cbn; lia).
  split; [|exact E2]; rewrite E1, Z.add_0_r; reflexivity.
Qed.

Lemma length_pos (l : list Z) : l <> [] -> (0 < length l)%nat.
Proof. destruct l; [contradiction | cbn; lia]. Qed.

Lemma lazy_count v data :
  0 <= bcount v -> 64 * bcount v + Z.of_nat (length data) < 2 ^ 64 ->
  let (v', rest) := absorb_lazy v data in
  0 <= bcount v' /\ 64 * bcount v' + Z.of_nat (length rest) = 64 * bcount v + Z.of_nat (length data)
  /\ (length rest <= 64)%nat.
Proof.
  revert v; induction data as [data H|blk data Hb Hd IH] using lazy_ind; intros v Hc Hl.
  - rewrite lazy_short by assumption; auto.
  - rewrite lazy_block by assumption; rewrite length_app, Hb in Hl.
    apply length_pos in Hd; destruct (skein_process_spec blk v) as [_ E]; [lia | lia |].
    specialize (IH (skein_process blk v) ltac:(lia) ltac:(rewrite E; lia)).
    destruct (absorb_lazy _ data) as [v' rest]; rewrite length_app, Hb; lia.
Qed.

(** UBI on a message: the lazily absorbed state, then the last block. *)
Lemma lazy_ubi fuel pad v data :
  0 <= bcount v -> 64 * bcount v + Z.of_nat (length data) < 2 ^ 64 -> (length data < fuel)%nat ->
  ubi fuel (key_of v) (bcount v) T_msg pad data
  = let (v', rest) := absorb_lazy v data in
    ubi_block (key_of v') (64 * bcount v' + Z.of_nat (length rest)) T_msg
      (b2z (bcount v' =? 0)) 1 pad (rest ++ repeat 0 (64 - length rest)).
Proof.
  revert v fuel; induction data as [data H|blk data Hb Hd IH] using lazy_ind; intros v fuel Hc Hl Hf;
    (destruct fuel as [|fuel]; [lia|]); cbn [ubi].
  - rewrite lazy_short by assumption; destruct (Nat.leb_spec (length data) 64); [reflexivity | lia].
  - rewrite lazy_block by assumption; rewrite length_app, Hb in Hl, Hf.
    pose proof (length_pos _ Hd) as Hd'.
    destruct (Nat.leb_spec (length (blk ++ data)) 64) as [H|_]; [rewrite length_app in H; lia|].
    rewrite firstn_app, skipn_app, Hb, Nat.sub_diag, firstn_all2, skipn_all2 by lia.
    rewrite firstn_O, skipn_O, app_nil_r, app_nil_l.
    destruct (skein_process_spec blk v) as [E1 E2]; [lia | lia|].
    rewrite <- E1, <- E2; apply IH; lia.
Qed.

(** ** The update loop *)

Lemma loop_refines fuel b p v data :
  data <> [] -> length b = 64%nat -> (p <= 64)%nat -> (length data <= fuel)%nat ->
  0 <= bcount v -> 64 * bcount v + Z.of_nat p + Z.of_nat (length data) < 2 ^ 64 ->
  let r := skein_loop fuel b p v (first_flag v) data in
  length (buf r) = 64%nat /\ (ptr r <= 64)%nat /\
  (st r, firstn (ptr r) (buf r)) = absorb_lazy v (firstn p b ++ data).
Proof.
  revert b p v data; induction fuel as [|fuel IH]; intros b p v data Hd Hb Hp Hf Hc Hl.
  { destruct data; [contradiction | cbn in Hf; lia]. }
  cbn [skein_loop]; cbv zeta.
  assert (Step : forall v p, (p < 64)%nat -> 0 <= bcount v ->
    64 * bcount v + Z.of_nat p + Z.of_nat (length data) < 2 ^ 64 ->
    let clen := if (length data <? 64 - p)%nat then length data else (64 - p)%nat in
    let r := match skipn clen data with
             | [] => Ctx (memcpy b p data clen) (p + clen) v
             | _ :: _ => skein_loop fuel (memcpy b p data clen) (p + clen) v (first_flag v) (skipn clen data)
             end in
    length (buf r) = 64%nat /\ (ptr r <= 64)%nat /\
    (st r, firstn (ptr r) (buf r)) = absorb_lazy v (firstn p b ++ data)).
  { clear Hp Hc Hl v p; intros v p Hp Hc Hl clen.
    assert (Hcl : (0 < clen /\ clen <= length data /\ p + clen <= 64)%nat).
    { pose proof (length_pos _ Hd); unfold clen; destruct (Nat.ltb_spec (length data) (64 - p)); lia. }
    assert (Eb : length (memcpy b p data clen) = 64%nat) by (rewrite length_memcpy; lia).
    assert (Ef : firstn (p + clen) (memcpy b p data clen) = firstn p b ++ firstn clen data)
      by (apply firstn_memcpy; lia).
    destruct (skipn clen data) as [|x rest] eqn:Es; cbv zeta.
    - cbn [buf ptr st]; split; [assumption|]; split; [lia|]; rewrite Ef.
      apply (f_equal (@length Z)) in Es; rewrite length_skipn in Es; cbn [length] in Es.
      rewrite (firstn_all2 data) by lia; rewrite lazy_short; [reflexivity|].
      rewrite length_app, length_firstn; lia.
    - assert (Hr : length (x :: rest) = (length data - clen)%nat) by (rewrite <- Es, length_skipn; lia).
      destruct (IH (memcpy b p data clen) (p + clen)%nat v (x :: rest)) as (I1 & I2 & I3);
        try assumption; try lia; [discriminate|].
      split; [exact I1|]; split; [exact I2|]; rewrite I3, Ef, <- Es, <- app_assoc, firstn_skipn; reflexivity. }
  destruct (Nat.eqb_spec p 64) as [->|Hne]; [|apply Step; lia].
  destruct (skein_process_spec b v) as [_ E]; [lia | apply length_pos in Hd; lia |].
  assert (E0 : 0 = first_flag (skein_process b v)).
  { unfold first_flag; rewrite E; destruct (Z.eqb_spec (bcount v + 1) 0); [lia | reflexivity]. }
  rewrite (firstn_all2 b), lazy_block by (lia || assumption).
  fold (skein_process b v); rewrite E0; apply (Step (skein_process b v) 0%nat); rewrite ?E; lia.
Qed.

(** ** The context as the message so far *)

Definition skein_inv (v0 : skstate) (c : skein_context) (m : list Z) : Prop :=
  length (buf c) = 64%nat /\ (ptr c <= 64)%nat /\
  (st c, firstn (ptr c) (buf c)) = absorb_lazy v0 m.

Lemma READ_BIG v : READ_STATE_BIG v = v.
Proof. destruct v; reflexivity. Qed.

Lemma WRITE_BIG v : WRITE_STATE_BIG v = v.
Proof. destruct v; reflexivity. Qed.

Lemma core_inv v0 c m data :
  skein_inv v0 c m -> bcount v0 = 0 -> Z.of_nat (length (m ++ data)) < 2 ^ 64 ->
  skein_inv v0 (skein_big_core c data) (m ++ data).
Proof.
  intros (Hb & Hp & Ha) H0 Hl; rewrite length_app in Hl.
  pose proof (lazy_count v0 m ltac:(lia) ltac:(lia)) as Hn; rewrite <- Ha in Hn.
  destruct Hn as (Hc & Hn & _); rewrite length_firstn in Hn.
  unfold skein_inv; rewrite lazy_app, <- Ha; cbn [fst snd]; unfold skein_big_core.
  destruct (Nat.leb_spec (length data) (64 - ptr c)) as [Hs|Hs].
  - cbn [buf ptr st]; rewrite length_memcpy, firstn_memcpy, firstn_all by lia.
    split; [assumption|]; split; [lia|]; rewrite lazy_short; [reflexivity|].
    rewrite length_app, length_firstn; lia.
  - rewrite READ_BIG.
    destruct (loop_refines (length data) (buf c) (ptr c) (st c) data) as (I1 & I2 & I3);
      try assumption; try lia; [intros ->; cbn in Hs; lia|].
    cbn [buf ptr st]; rewrite WRITE_BIG; auto.
Qed.

Lemma core_many v0 chunks c m :
  skein_inv v0 c m -> bcount v0 = 0 -> Z.of_nat (length (m ++ concat chunks)) < 2 ^ 64 ->
  skein_inv v0 (fold_left skein_big_core chunks c) (m ++ concat chunks).
Proof.
  revert c m; induction chunks as [|d chunks IH]; intros c m Hi H0 Hl; cbn [fold_left concat] in *.
  - now rewrite app_nil_r.
  - rewrite app_assoc in Hl |- *; apply IH; try assumption.
    apply core_inv; try assumption; rewrite length_app in Hl; lia.
Qed.

(** ** The close function *)

Lemma memset_all (b : list Z) : length b = 64%nat -> memset b 0 0 64 = repeat 0 64.
Proof.
  intros H; unfold memset, memcpy; rewrite firstn_O, app_nil_l, skipn_all2, app_nil_r by lia; reflexivity.
Qed.

Lemma memset_rest (b : list Z) p :
  length b = 64%nat -> (p <= 64)%nat -> memset b p 0 (64 - p) = firstn p b ++ repeat 0 (64 - p).
Proof.
  intros H Hp; unfold memset, memcpy.
  now rewrite (firstn_all2 (repeat 0 _)), skipn_all2, app_nil_r by (rewrite ?repeat_length; lia).
Qed.

(** The eight words written over the buffer. *)
Lemma enc_words b v :
  length b = 64%nat ->
  memcpy (memcpy (memcpy (memcpy (memcpy (memcpy (memcpy (memcpy b
    0 (sph_enc64le (h0 v)) 8) 8 (sph_enc64le (h1 v)) 8) 16 (sph_enc64le (h2 v)) 8)
    24 (sph_enc64le (h3 v)) 8) 32 (sph_enc64le (h4 v)) 8) 40 (sph_enc64le (h5 v)) 8)
    48 (sph_enc64le (h6 v)) 8) 56 (sph_enc64le (h7 v)) 8
  = flat_map sph_enc64le (key_of v).
Proof.
  intros H; do 65 (destruct b as [|? b]; try discriminate H).
  unfold key_of, sph_enc64le; reflexivity.
Qed.

(** Output transform: UBI on eight zero bytes. *)
Lemma skein_output_spec v :
  key_of (UBI_BIG 510 8 (repeat 0 64) (set_bcount v 0)) = UBI (key_of v) T_out 0 (repeat 0 8).
Proof.
  destruct (UBI_BIG_spec 8 (repeat 0 64) (set_bcount v 0) T_out 1 1 0 510) as [E _];
    cbn [bcount set_bcount]; unfold T_out; try lia.
  rewrite E; reflexivity.
Qed.

Lemma final_block v0 c m (n : Z) :
  skein_inv v0 c m -> bcount v0 = 0 -> Z.of_nat (length m) < 2 ^ 64 ->
  let pad := if negb (n =? 0) then 1 else 0 in
  key_of (UBI_BIG (352 + first_flag (st c) + pad) (Z.of_nat (ptr c))
            (memset (buf c) (ptr c) 0 (64 - ptr c)) (st c))
  = UBI (key_of v0) T_msg (b2z (negb (n =? 0))) m.
Proof.
  intros (Hb & Hp & Ha) H0 Hl pad.
  pose proof (lazy_count v0 m ltac:(lia) ltac:(lia)) as Hn.
  pose proof (lazy_ubi (S (length m)) (b2z (negb (n =? 0))) v0 m ltac:(lia) ltac:(lia) ltac:(lia)) as Hu.
  rewrite <- Ha in Hn, Hu; destruct Hn as (Hc & Hn & _); unfold UBI; rewrite H0 in Hu, Hn; rewrite Hu.
  rewrite length_firstn, Hb, Nat.min_l in Hn |- * by lia.
  assert (Et : 352 + first_flag (st c) + pad
               = pad + 2 * T_msg + 128 * b2z (bcount (st c) =? 0) + 256 * 1)
    by (unfold T_msg, b2z, pad, first_flag; destruct (bcount (st c) =? 0), (n =? 0); reflexivity).
  assert (0 <= T_msg < 64 /\ 0 <= b2z (bcount (st c) =? 0) <= 1 /\ 0 <= pad <= 1) as (? & ? & ?)
    by (unfold T_msg, b2z, pad; destruct (bcount (st c) =? 0), (n =? 0); cbn [negb]; lia).
  destruct (UBI_BIG_spec (Z.of_nat (ptr c)) (memset (buf c) (ptr c) 0 (64 - ptr c)) (st c) T_msg
              (b2z (bcount (st c) =? 0)) 1 pad _ Hc ltac:(lia) ltac:(lia) ltac:(assumption)
              ltac:(assumption) ltac:(lia) ltac:(assumption) Et) as [E _].
  rewrite memset_rest in E by assumption; rewrite memset_rest by assumption; exact E.
Qed.

Lemma skein_close_spec v0 N c m ub n :
  skein_inv v0 c m -> bcount v0 = 0 -> key_of v0 = skein_iv N ->
  Z.of_nat (length m) + 1 < 2 ^ 64 -> 0 <= n < 8 ->
  snd (skein_big_close c ub n (Z.to_nat (N / 8))) = skein_spec N m ub n
  /\ length (buf (fst (skein_big_close c ub n (Z.to_nat (N / 8))))) = 64%nat.
Proof.
  intros Hi H0 Hk Hl Hn; unfold skein_big_close, skein_spec.
  rewrite pad_byte by assumption.
  set (c' := if negb (n =? 0) then skein_big_core c [last_byte ub n] else c).
  set (m' := if n =? 0 then m else m ++ [last_byte ub n]).
  assert (Hi' : skein_inv v0 c' m').
  { unfold c', m'; destruct (n =? 0); cbn [negb]; [exact Hi|].
    apply core_inv; try assumption; rewrite length_app; cbn [length]; lia. }
  assert (Hl' : Z.of_nat (length m') < 2 ^ 64).
  { unfold m'; destruct (n =? 0); rewrite ?length_app; cbn [length]; lia. }
  pose proof (final_block v0 c' m' n Hi' H0 Hl') as F.
  destruct Hi' as (Hb & Hp & _); cbv zeta; cbn [fst snd buf]; rewrite READ_BIG.
  rewrite memset_all by (rewrite length_memset; lia).
  rewrite enc_words by apply repeat_length.
  rewrite skein_output_spec, F, Hk; split; [reflexivity|].
  rewrite (length_flat_map_const _ 8) by reflexivity; rewrite <- Hk, <- F.
  rewrite <- skein_output_spec; reflexivity.
Qed.

Lemma skein_run N iv c chunks ub n :
  length (buf c) = 64%nat -> iv = skein_iv N -> length iv = 8%nat ->
  Z.of_nat (length (concat chunks)) + 1 < 2 ^ 64 -> 0 <= n < 8 ->
  let r := skein_big_close (fold_left skein_big_core chunks (skein_big_init c iv)) ub n (Z.to_nat (N / 8)) in
  snd r = skein_spec N (concat chunks) ub n /\ length (buf (fst r)) = 64%nat.
Proof.
  intros Hb Hiv Hlen Hl Hn; set (v0 := st (skein_big_init c iv)).
  apply (skein_close_spec v0); try assumption; [| reflexivity |].
  - apply (core_many v0 chunks (skein_big_init c iv) []); [|reflexivity | cbn [app]; lia].
    split; [exact Hb|]; split; [cbn; lia|]; reflexivity.
  - rewrite <- Hiv; do 9 (destruct iv as [|? iv]; try discriminate Hlen); reflexivity.
Qed.

(** ** Properties *)

(** C31: Skein-512-224/256/384/512: whatever the context held before, however a
    message of less than 2^64 - 1 bytes is cut into chunks, and for up to seven
    extra bits, the digest is the one of the Skein specification: UBI chaining
    of Threefish-512 over configuration, message and output blocks, with
    position, first, final and bit-pad flags in the tweak. *)
Theorem skein_correct (c : skein_context) (chunks : list (list Z)) (ub n : Z) :
  length (buf c) = 64%nat -> Z.of_nat (length (concat chunks)) + 1 < 2 ^ 64 -> 0 <= n < 8 ->
  let m := concat chunks in
  fst (sph_skein224_addbits_and_close (fold_left sph_skein224 chunks (sph_skein224_init c)) ub n)
    = skein_spec 224 m ub n
  /\ fst (sph_skein256_addbits_and_close (fold_left sph_skein256 chunks (sph_skein256_init c)) ub n)
    = skein_spec 256 m ub n
  /\ fst (sph_skein384_addbits_and_close (fold_left sph_skein384 chunks (sph_skein384_init c)) ub n)
    = skein_spec 384 m ub n
  /\ fst (sph_skein512_addbits_and_close (fold_left sph_skein512 chunks (sph_skein512_init c)) ub n)
    = skein_spec 512 m ub n.
Proof.
  intros Hb Hl Hn m; destruct IV_tables_skein as (E1 & E2 & E3 & E4).
  unfold sph_skein224_addbits_and_close, sph_skein256_addbits_and_close,
    sph_skein384_addbits_and_close, sph_skein512_addbits_and_close.
  rewrite !let_pair_fst; cbn [fst snd].
  split; [|split; [|split]].
  - exact (proj1 (skein_run 224 IV224 c chunks ub n Hb E1 eq_refl Hl Hn)).
  - exact (proj1 (skein_run 256 IV256 c chunks ub n Hb E2 eq_refl Hl Hn)).
  - exact (proj1 (skein_run 384 IV384 c chunks ub n Hb E3 eq_refl Hl Hn)).
  - exact (proj1 (skein_run 512 IV512 c chunks ub n Hb E4 eq_refl Hl Hn)).
Qed.

Lemma skein_correct_witness :
  let c := Ctx (repeat 0xAA 64) 5 (Sk 1 2 3 4 5 6 7 8 9) in
  let chunks := [[1; 2; 3]; repeat 7 70; [9]] in
  fst (sph_skein224_addbits_and_close (fold_left sph_skein224 chunks (sph_skein224_init c)) 0xC0 3)
    = skein_spec 224 (concat chunks) 0xC0 3.
Proof.
  intros c chunks; refine (proj1 (skein_correct c chunks 0xC0 3 eq_refl _ _)); [reflexivity | lia].
Defined.

(** The table-driven code of SPH_SMALL_FOOTPRINT_SKEIN (key array of 27
    words, rotating tweak words) computes the same function as the unrolled
    code, whatever its local array held before: Threefish-512 of the block
    under the chaining value and the tweak, xored with the block. *)
Theorem skein_small_footprint (etype extra : Z) (b g : list Z) (v : skstate) :
  length g = 27%nat ->
  let (h, c) := READ_STATE_BIG_small g v in
  let m := read_words sph_dec64le 8 8 b in
  let r := WRITE_STATE_BIG_small (UBI_BIG_small etype extra b h c) c in
  r = UBI_BIG etype extra b v
  /\ key_of r = map2 Z.lxor m (threefish (key_of v)
                                [tweak0 (bcount v) extra; tweak1 (bcount v) etype] m).
Proof.
  intros Hg; pose proof (ubi_small_spec etype extra b g v Hg) as E.
  destruct (READ_STATE_BIG_small g v) as [h c]; cbv zeta; rewrite E.
  split; [reflexivity | apply UBI_BIG_threefish].
Qed.

Lemma skein_small_footprint_witness :
  let v := Sk 1 2 3 4 5 6 7 8 9 in
  let g := repeat 0xAA 27 in
  WRITE_STATE_BIG_small (UBI_BIG_small 96 0 (repeat 1 64) (fst (READ_STATE_BIG_small g v))
                           (snd (READ_STATE_BIG_small g v))) (snd (READ_STATE_BIG_small g v))
  = UBI_BIG 96 0 (repeat 1 64) v.
Proof.
  exact (proj1 (skein_small_footprint 96 0 (repeat 1 64) (repeat 0xAA 27) (Sk 1 2 3 4 5 6 7 8 9) eq_refl)).
Defined.

(** For a fixed key and tweak, the four-round macros of Threefish permute
    the states of eight 64-bit words: they are injective and their results are
    64-bit words. *)
Theorem skein_rounds_permutation (k t : list Z) (s : nat) (p p' : pvars) :
  pvars_ok p -> pvars_ok p' ->
  (TFBIG_4e k t s p = TFBIG_4e k t s p' -> p = p')
  /\ (TFBIG_4o k t s p = TFBIG_4o k t s p' -> p = p')
  /\ oct_ok (oct_of (TFBIG_4e k t s p)) /\ oct_ok (oct_of (TFBIG_4o k t s p)).
Proof.
  intros Hp Hp'; rewrite TFBIG_4e_mixes, TFBIG_4o_mixes.
  pose proof tf_rot_ok as F; rewrite <- (firstn_skipn 4 tf_rot) in F; apply Forall_app in F as [F1 F2].
  split; [|split; [|split; apply mixes_ok]]; intros E; apply (f_equal oct_of) in E;
    [rewrite !TFBIG_4e_mixes in E | rewrite !TFBIG_4o_mixes in E];
    apply four_mixes in E; try assumption; try apply ADDKEY_ok; now apply ADDKEY_inj in E.
Qed.

Lemma skein_rounds_permutation_witness :
  let p := P8 1 2 3 4 5 6 7 8 in let p' := P8 1 2 3 4 5 6 7 9 in
  oct_ok (oct_of (TFBIG_4e [9; 8; 7; 6; 5; 4; 3; 2; 1] [1; 2; 3] 4 p))
  /\ TFBIG_4e [9; 8; 7; 6; 5; 4; 3; 2; 1] [1; 2; 3] 4 p
     <> TFBIG_4e [9; 8; 7; 6; 5; 4; 3; 2; 1] [1; 2; 3] 4 p'.
Proof.
  intros p p'.
  destruct (skein_rounds_permutation [9; 8; 7; 6; 5; 4; 3; 2; 1] [1; 2; 3] 4 p p') as (E & _ & O & _);
    [words_dec | words_dec |].
  split; [exact O | intros H; discriminate (E H)].
Defined.

(** Skein-512-512 behind the common interface. *)
#[export, refine] Instance skein512_hash : StreamHash := {|
  hctx := skein_context;
  hctx_ok c := length (buf c) = 64%nat;
  hinit := sph_skein512_init;
  hupdate := sph_skein512;
  hclose := sph_skein512_close;
  hlen := 64;
  digest m := skein_spec 512 m 0 0
|}.
Proof.
  - intros c H; exact H.
  - intros c chunks H _ Hl; unfold sph_skein512_close, sph_skein512_addbits_and_close.
    rewrite let_pair_fst; cbn [fst snd].
    refine (skein_run 512 IV512 c chunks 0 0 H (proj2 (proj2 (proj2 IV_tables_skein))) eq_refl _ _);
      unfold SIZE_MAX in Hl; lia.
  - intros m; unfold skein_spec; rewrite length_firstn, (length_flat_map_const _ 8) by reflexivity.
    unfold UBI; cbn [ubi length repeat Nat.leb]; unfold ubi_block; rewrite length_map2; reflexivity.
  - intros m; apply words_firstn, words_flat_map; intros; apply sph_enc64le_bytes.
Defined.
