(* ===== verification/Bmw.v ===== *)
(** * Bmw: model of bmw.c

    Blue Midnight Wish: BMW-224/256 (32-bit words, "small" context) and
    BMW-384/512 (64-bit words, "big" context).  The element functions, the
    expansion macros with their token-pasted index lists, the fold macro, the
    compression functions in the default and in the SPH_SMALL_FOOTPRINT_BMW
    form, and the init, update and close functions.  BmwSpec.v has the
    reference definition and the theorems. *)

From Stdlib Require Import ZArith List Lia Bool.
From S2P Require Import Prelude SphTypes Stream.
Import ListNotations.

Open Scope Z_scope.
Open Scope word_scope.

Definition IV224 : list Z :=
  [0x00010203; 0x04050607; 0x08090A0B; 0x0C0D0E0F;
   0x10111213; 0x14151617; 0x18191A1B; 0x1C1D1E1F;
   0x20212223; 0x24252627; 0x28292A2B; 0x2C2D2E2F;
   0x30313233; 0x34353637; 0x38393A3B; 0x3C3D3E3F].

Definition IV256 : list Z :=
  [0x40414243; 0x44454647; 0x48494A4B; 0x4C4D4E4F;
   0x50515253; 0x54555657; 0x58595A5B; 0x5C5D5E5F;
   0x60616263; 0x64656667; 0x68696A6B; 0x6C6D6E6F;
   0x70717273; 0x74757677; 0x78797A7B; 0x7C7D7E7F].

Definition IV384 : list Z :=
  [0x0001020304050607; 0x08090A0B0C0D0E0F;
   0x1011121314151617; 0x18191A1B1C1D1E1F;
   0x2021222324252627; 0x28292A2B2C2D2E2F;
   0x3031323334353637; 0x38393A3B3C3D3E3F;
   0x4041424344454647; 0x48494A4B4C4D4E4F;
   0x5051525354555657; 0x58595A5B5C5D5E5F;
   0x6061626364656667; 0x68696A6B6C6D6E6F;
   0x7071727374757677; 0x78797A7B7C7D7E7F].

Definition IV512 : list Z :=
  [0x8081828384858687; 0x88898A8B8C8D8E8F;
   0x9091929394959697; 0x98999A9B9C9D9E9F;
   0xA0A1A2A3A4A5A6A7; 0xA8A9AAABACADAEAF;
   0xB0B1B2B3B4B5B6B7; 0xB8B9BABBBCBDBEBF;
   0xC0C1C2C3C4C5C6C7; 0xC8C9CACBCCCDCECF;
   0xD0D1D2D3D4D5D6D7; 0xD8D9DADBDCDDDEDF;
   0xE0E1E2E3E4E5E6E7; 0xE8E9EAEBECEDEEEF;
   0xF0F1F2F3F4F5F6F7; 0xF8F9FAFBFCFDFEFF].

(** The argument lists [I16_16] ... [I16_31]. *)
Definition I16tab : list (list nat) :=
  [[0; 1; 2; 3; 4; 5; 6; 7; 8; 9; 10; 11; 12; 13; 14; 15];
   [1; 2; 3; 4; 5; 6; 7; 8; 9; 10; 11; 12; 13; 14; 15; 16];
   [2; 3; 4; 5; 6; 7; 8; 9; 10; 11; 12; 13; 14; 15; 16; 17];
   [3; 4; 5; 6; 7; 8; 9; 10; 11; 12; 13; 14; 15; 16; 17; 18];
   [4; 5; 6; 7; 8; 9; 10; 11; 12; 13; 14; 15; 16; 17; 18; 19];
   [5; 6; 7; 8; 9; 10; 11; 12; 13; 14; 15; 16; 17; 18; 19; 20];
   [6; 7; 8; 9; 10; 11; 12; 13; 14; 15; 16; 17; 18; 19; 20; 21];
   [7; 8; 9; 10; 11; 12; 13; 14; 15; 16; 17; 18; 19; 20; 21; 22];
   [8; 9; 10; 11; 12; 13; 14; 15; 16; 17; 18; 19; 20; 21; 22; 23];
   [9; 10; 11; 12; 13; 14; 15; 16; 17; 18; 19; 20; 21; 22; 23; 24];
   [10; 11; 12; 13; 14; 15; 16; 17; 18; 19; 20; 21; 22; 23; 24; 25];
   [11; 12; 13; 14; 15; 16; 17; 18; 19; 20; 21; 22; 23; 24; 25; 26];
   [12; 13; 14; 15; 16; 17; 18; 19; 20; 21; 22; 23; 24; 25; 26; 27];
   [13; 14; 15; 16; 17; 18; 19; 20; 21; 22; 23; 24; 25; 26; 27; 28];
   [14; 15; 16; 17; 18; 19; 20; 21; 22; 23; 24; 25; 26; 27; 28; 29];
   [15; 16; 17; 18; 19; 20; 21; 22; 23; 24; 25; 26; 27; 28; 29; 30]]%nat.

Definition I16 (i16 : nat) : list nat := nth (i16 - 16) I16tab [].

(** The argument lists [M16_16] ... [M16_31]. *)
Definition M16tab : list (list nat) :=
  [[0; 1; 3; 4; 7; 10; 11];
   [1; 2; 4; 5; 8; 11; 12];
   [2; 3; 5; 6; 9; 12; 13];
   [3; 4; 6; 7; 10; 13; 14];
   [4; 5; 7; 8; 11; 14; 15];
   [5; 6; 8; 9; 12; 15; 16];
   [6; 7; 9; 10; 13; 0; 1];
   [7; 8; 10; 11; 14; 1; 2];
   [8; 9; 11; 12; 15; 2; 3];
   [9; 10; 12; 13; 0; 3; 4];
   [10; 11; 13; 14; 1; 4; 5];
   [11; 12; 14; 15; 2; 5; 6];
   [12; 13; 15; 16; 3; 6; 7];
   [13; 14; 0; 1; 4; 7; 8];
   [14; 15; 1; 2; 5; 8; 9];
   [15; 16; 2; 3; 6; 9; 10]]%nat.

Definition M16 (i16 : nat) : list nat := nth (i16 - 16) M16tab [].

(** [MAKE_W(tt, i0, op01, i1, op12, i2, op23, i3, op34, i4)]: the operators are
    the tokens [+] and [-]. *)
Definition MAKE_W (tt : Z -> Z) (M H : list Z) (i0 : nat) (op01 : Z -> Z -> Z) (i1 : nat)
    (op12 : Z -> Z -> Z) (i2 : nat) (op23 : Z -> Z -> Z) (i3 : nat)
    (op34 : Z -> Z -> Z) (i4 : nat) : Z :=
  let x i := nth i M 0 .^ nth i H 0 in
  tt (op34 (op23 (op12 (op01 (x i0) (x i1)) (x i2)) (x i3)) (x i4)).

Definition ss0 (x : Z) : Z :=
  (x >> 1) .^ SPH_T32 (x << 3) .^ SPH_ROTL32 x 4 .^ SPH_ROTL32 x 19.
Definition ss1 (x : Z) : Z :=
  (x >> 1) .^ SPH_T32 (x << 2) .^ SPH_ROTL32 x 8 .^ SPH_ROTL32 x 23.
Definition ss2 (x : Z) : Z :=
  (x >> 2) .^ SPH_T32 (x << 1) .^ SPH_ROTL32 x 12 .^ SPH_ROTL32 x 25.
Definition ss3 (x : Z) : Z :=
  (x >> 2) .^ SPH_T32 (x << 2) .^ SPH_ROTL32 x 15 .^ SPH_ROTL32 x 29.
Definition ss4 (x : Z) : Z := (x >> 1) .^ x.
Definition ss5 (x : Z) : Z := (x >> 2) .^ x.
Definition rs1 (x : Z) : Z := SPH_ROTL32 x 3.
Definition rs2 (x : Z) : Z := SPH_ROTL32 x 7.
Definition rs3 (x : Z) : Z := SPH_ROTL32 x 13.
Definition rs4 (x : Z) : Z := SPH_ROTL32 x 16.
Definition rs5 (x : Z) : Z := SPH_ROTL32 x 19.
Definition rs6 (x : Z) : Z := SPH_ROTL32 x 23.
Definition rs7 (x : Z) : Z := SPH_ROTL32 x 27.

Definition Ks (j : nat) : Z := SPH_T32 (Z.of_nat j * 0x05555555).

Definition add_elt_s (M H : list Z) (j0m j1m j3m j4m j7m j10m j11m j16 : nat) : Z :=
  SPH_T32 (SPH_ROTL32 (nth j0m M 0) (Z.of_nat j1m) + SPH_ROTL32 (nth j3m M 0) (Z.of_nat j4m)
    - SPH_ROTL32 (nth j10m M 0) (Z.of_nat j11m) + Ks j16) .^ nth j7m H 0.

Definition expand1s_inner (q M H : list Z) (i16 i0 i1 i2 i3 i4 i5 i6 i7 i8 i9 i10 i11 i12 i13 i14 i15
    i0m i1m i3m i4m i7m i10m i11m : nat) : Z :=
  let qf i := nth i q 0 in
  SPH_T32 (ss1 (qf i0) + ss2 (qf i1) + ss3 (qf i2) + ss0 (qf i3)
    + ss1 (qf i4) + ss2 (qf i5) + ss3 (qf i6) + ss0 (qf i7)
    + ss1 (qf i8) + ss2 (qf i9) + ss3 (qf i10) + ss0 (qf i11)
    + ss1 (qf i12) + ss2 (qf i13) + ss3 (qf i14) + ss0 (qf i15)
    + add_elt_s M H i0m i1m i3m i4m i7m i10m i11m i16).

(** [I16_ ## i16] and [M16_ ## i16] are pasted as argument lists. *)
Definition expand1s (q M H : list Z) (i16 : nat) : Z :=
  match I16 i16, M16 i16 with
  | [i0; i1; i2; i3; i4; i5; i6; i7; i8; i9; i10; i11; i12; i13; i14; i15],
    [i0m; i1m; i3m; i4m; i7m; i10m; i11m] =>
      expand1s_inner q M H i16 i0 i1 i2 i3 i4 i5 i6 i7 i8 i9 i10 i11 i12 i13 i14 i15
        i0m i1m i3m i4m i7m i10m i11m
  | _, _ => 0
  end.

Definition expand2s_inner (q M H : list Z) (i16 i0 i1 i2 i3 i4 i5 i6 i7 i8 i9 i10 i11 i12 i13 i14 i15
    i0m i1m i3m i4m i7m i10m i11m : nat) : Z :=
  let qf i := nth i q 0 in
  SPH_T32 (qf i0 + rs1 (qf i1) + qf i2 + rs2 (qf i3)
    + qf i4 + rs3 (qf i5) + qf i6 + rs4 (qf i7)
    + qf i8 + rs5 (qf i9) + qf i10 + rs6 (qf i11)
    + qf i12 + rs7 (qf i13) + ss4 (qf i14) + ss5 (qf i15)
    + add_elt_s M H i0m i1m i3m i4m i7m i10m i11m i16).

(** [I16_ ## i16] and [M16_ ## i16] are pasted as argument lists. *)
Definition expand2s (q M H : list Z) (i16 : nat) : Z :=
  match I16 i16, M16 i16 with
  | [i0; i1; i2; i3; i4; i5; i6; i7; i8; i9; i10; i11; i12; i13; i14; i15],
    [i0m; i1m; i3m; i4m; i7m; i10m; i11m] =>
      expand2s_inner q M H i16 i0 i1 i2 i3 i4 i5 i6 i7 i8 i9 i10 i11 i12 i13 i14 i15
        i0m i1m i3m i4m i7m i10m i11m
  | _, _ => 0
  end.

Definition Ws0 (M H : list Z) : Z :=
  MAKE_W SPH_T32 M H 5 Z.sub 7 Z.add 10 Z.add 13 Z.add 14.
Definition Ws1 (M H : list Z) : Z :=
  MAKE_W SPH_T32 M H 6 Z.sub 8 Z.add 11 Z.add 14 Z.sub 15.
Definition Ws2 (M H : list Z) : Z :=
  MAKE_W SPH_T32 M H 0 Z.add 7 Z.add 9 Z.sub 12 Z.add 15.
Definition Ws3 (M H : list Z) : Z :=
  MAKE_W SPH_T32 M H 0 Z.sub 1 Z.add 8 Z.sub 10 Z.add 13.
Definition Ws4 (M H : list Z) : Z :=
  MAKE_W SPH_T32 M H 1 Z.add 2 Z.add 9 Z.sub 11 Z.sub 14.
Definition Ws5 (M H : list Z) : Z :=
  MAKE_W SPH_T32 M H 3 Z.sub 2 Z.add 10 Z.sub 12 Z.add 15.
Definition Ws6 (M H : list Z) : Z :=
  MAKE_W SPH_T32 M H 4 Z.sub 0 Z.sub 3 Z.sub 11 Z.add 13.
Definition Ws7 (M H : list Z) : Z :=
  MAKE_W SPH_T32 M H 1 Z.sub 4 Z.sub 5 Z.sub 12 Z.sub 14.
Definition Ws8 (M H : list Z) : Z :=
  MAKE_W SPH_T32 M H 2 Z.sub 5 Z.sub 6 Z.add 13 Z.sub 15.
Definition Ws9 (M H : list Z) : Z :=
  MAKE_W SPH_T32 M H 0 Z.sub 3 Z.add 6 Z.sub 7 Z.add 14.
Definition Ws10 (M H : list Z) : Z :=
  MAKE_W SPH_T32 M H 8 Z.sub 1 Z.sub 4 Z.sub 7 Z.add 15.
Definition Ws11 (M H : list Z) : Z :=
  MAKE_W SPH_T32 M H 8 Z.sub 0 Z.sub 2 Z.sub 5 Z.add 9.
Definition Ws12 (M H : list Z) : Z :=
  MAKE_W SPH_T32 M H 1 Z.add 3 Z.sub 6 Z.sub 9 Z.add 10.
Definition Ws13 (M H : list Z) : Z :=
  MAKE_W SPH_T32 M H 2 Z.add 4 Z.add 7 Z.add 10 Z.add 11.
Definition Ws14 (M H : list Z) : Z :=
  MAKE_W SPH_T32 M H 3 Z.sub 5 Z.add 8 Z.sub 11 Z.sub 12.
Definition Ws15 (M H : list Z) : Z :=
  MAKE_W SPH_T32 M H 12 Z.sub 4 Z.sub 6 Z.sub 9 Z.add 13.

(** [MAKE_Qas]: the cells [qt[0]] ... [qt[15]]. *)
Definition MAKE_Qas (M H : list Z) : list Z :=
  let h i := nth i H 0 in
  [SPH_T32 (ss0 (Ws0 M H) + h 1%nat);
   SPH_T32 (ss1 (Ws1 M H) + h 2%nat);
   SPH_T32 (ss2 (Ws2 M H) + h 3%nat);
   SPH_T32 (ss3 (Ws3 M H) + h 4%nat);
   SPH_T32 (ss4 (Ws4 M H) + h 5%nat);
   SPH_T32 (ss0 (Ws5 M H) + h 6%nat);
   SPH_T32 (ss1 (Ws6 M H) + h 7%nat);
   SPH_T32 (ss2 (Ws7 M H) + h 8%nat);
   SPH_T32 (ss3 (Ws8 M H) + h 9%nat);
   SPH_T32 (ss4 (Ws9 M H) + h 10%nat);
   SPH_T32 (ss0 (Ws10 M H) + h 11%nat);
   SPH_T32 (ss1 (Ws11 M H) + h 12%nat);
   SPH_T32 (ss2 (Ws12 M H) + h 13%nat);
   SPH_T32 (ss3 (Ws13 M H) + h 14%nat);
   SPH_T32 (ss4 (Ws14 M H) + h 15%nat);
   SPH_T32 (ss0 (Ws15 M H) + h 0%nat)].

(** SPH_SMALL_FOOTPRINT_BMW: the loop [for (u = 0; u < 15; u += 5)]. *)
Definition MAKE_Qas_small (M H : list Z) : list Z :=
  let W := [Ws0 M H; Ws1 M H; Ws2 M H; Ws3 M H; Ws4 M H; Ws5 M H; Ws6 M H; Ws7 M H;
            Ws8 M H; Ws9 M H; Ws10 M H; Ws11 M H; Ws12 M H; Ws13 M H; Ws14 M H; Ws15 M H] in
  let h i := nth i H 0 in
  let qt := flat_map (fun u =>
    [SPH_T32 (ss0 (nth (u + 0) W 0) + h (u + 1)%nat);
     SPH_T32 (ss1 (nth (u + 1) W 0) + h (u + 2)%nat);
     SPH_T32 (ss2 (nth (u + 2) W 0) + h (u + 3)%nat);
     SPH_T32 (ss3 (nth (u + 3) W 0) + h (u + 4)%nat);
     SPH_T32 (ss4 (nth (u + 4) W 0) + h (u + 5)%nat)]) [0; 5; 10]%nat in
  qt ++ [SPH_T32 (ss0 (nth 15 W 0) + h 0%nat)].

(** [MAKE_Qbs]: the cells [qt[16]] ... [qt[31]], each computed from those
    before it. *)
Definition MAKE_Qbs (M H qt : list Z) : list Z :=
  let qt := qt ++ [expand1s qt M H 16] in
  let qt := qt ++ [expand1s qt M H 17] in
  let qt := qt ++ [expand2s qt M H 18] in
  let qt := qt ++ [expand2s qt M H 19] in
  let qt := qt ++ [expand2s qt M H 20] in
  let qt := qt ++ [expand2s qt M H 21] in
  let qt := qt ++ [expand2s qt M H 22] in
  let qt := qt ++ [expand2s qt M H 23] in
  let qt := qt ++ [expand2s qt M H 24] in
  let qt := qt ++ [expand2s qt M H 25] in
  let qt := qt ++ [expand2s qt M H 26] in
  let qt := qt ++ [expand2s qt M H 27] in
  let qt := qt ++ [expand2s qt M H 28] in
  let qt := qt ++ [expand2s qt M H 29] in
  let qt := qt ++ [expand2s qt M H 30] in
  let qt := qt ++ [expand2s qt M H 31] in
  qt.

Definition MAKE_Qs (M H : list Z) : list Z := MAKE_Qbs M H (MAKE_Qas M H).

Definition sb0 (x : Z) : Z :=
  (x >> 1) .^ SPH_T64 (x << 3) .^ SPH_ROTL64 x 4 .^ SPH_ROTL64 x 37.
Definition sb1 (x : Z) : Z :=
  (x >> 1) .^ SPH_T64 (x << 2) .^ SPH_ROTL64 x 13 .^ SPH_ROTL64 x 43.
Definition sb2 (x : Z) : Z :=
  (x >> 2) .^ SPH_T64 (x << 1) .^ SPH_ROTL64 x 19 .^ SPH_ROTL64 x 53.
Definition sb3 (x : Z) : Z :=
  (x >> 2) .^ SPH_T64 (x << 2) .^ SPH_ROTL64 x 28 .^ SPH_ROTL64 x 59.
Definition sb4 (x : Z) : Z := (x >> 1) .^ x.
Definition sb5 (x : Z) : Z := (x >> 2) .^ x.
Definition rb1 (x : Z) : Z := SPH_ROTL64 x 5.
Definition rb2 (x : Z) : Z := SPH_ROTL64 x 11.
Definition rb3 (x : Z) : Z := SPH_ROTL64 x 27.
Definition rb4 (x : Z) : Z := SPH_ROTL64 x 32.
Definition rb5 (x : Z) : Z := SPH_ROTL64 x 37.
Definition rb6 (x : Z) : Z := SPH_ROTL64 x 43.
Definition rb7 (x : Z) : Z := SPH_ROTL64 x 53.

Definition Kb (j : nat) : Z := SPH_T64 (Z.of_nat j * 0x0555555555555555).

Definition add_elt_b (M H : list Z) (j0m j1m j3m j4m j7m j10m j11m j16 : nat) : Z :=
  SPH_T64 (SPH_ROTL64 (nth j0m M 0) (Z.of_nat j1m) + SPH_ROTL64 (nth j3m M 0) (Z.of_nat j4m)
    - SPH_ROTL64 (nth j10m M 0) (Z.of_nat j11m) + Kb j16) .^ nth j7m H 0.

Definition expand1b_inner (q M H : list Z) (i16 i0 i1 i2 i3 i4 i5 i6 i7 i8 i9 i10 i11 i12 i13 i14 i15
    i0m i1m i3m i4m i7m i10m i11m : nat) : Z :=
  let qf i := nth i q 0 in
  SPH_T64 (sb1 (qf i0) + sb2 (qf i1) + sb3 (qf i2) + sb0 (qf i3)
    + sb1 (qf i4) + sb2 (qf i5) + sb3 (qf i6) + sb0 (qf i7)
    + sb1 (qf i8) + sb2 (qf i9) + sb3 (qf i10) + sb0 (qf i11)
    + sb1 (qf i12) + sb2 (qf i13) + sb3 (qf i14) + sb0 (qf i15)
    + add_elt_b M H i0m i1m i3m i4m i7m i10m i11m i16).

(** [I16_ ## i16] and [M16_ ## i16] are pasted as argument lists. *)
Definition expand1b (q M H : list Z) (i16 : nat) : Z :=
  match I16 i16, M16 i16 with
  | [i0; i1; i2; i3; i4; i5; i6; i7; i8; i9; i10; i11; i12; i13; i14; i15],
    [i0m; i1m; i3m; i4m; i7m; i10m; i11m] =>
      expand1b_inner q M H i16 i0 i1 i2 i3 i4 i5 i6 i7 i8 i9 i10 i11 i12 i13 i14 i15
        i0m i1m i3m i4m i7m i10m i11m
  | _, _ => 0
  end.

Definition expand2b_inner (q M H : list Z) (i16 i0 i1 i2 i3 i4 i5 i6 i7 i8 i9 i10 i11 i12 i13 i14 i15
    i0m i1m i3m i4m i7m i10m i11m : nat) : Z :=
  let qf i := nth i q 0 in
  SPH_T64 (qf i0 + rb1 (qf i1) + qf i2 + rb2 (qf i3)
    + qf i4 + rb3 (qf i5) + qf i6 + rb4 (qf i7)
    + qf i8 + rb5 (qf i9) + qf i10 + rb6 (qf i11)
    + qf i12 + rb7 (qf i13) + sb4 (qf i14) + sb5 (qf i15)
    + add_elt_b M H i0m i1m i3m i4m i7m i10m i11m i16).

(** [I16_ ## i16] and [M16_ ## i16] are pasted as argument lists. *)
Definition expand2b (q M H : list Z) (i16 : nat) : Z :=
  match I16 i16, M16 i16 with
  | [i0; i1; i2; i3; i4; i5; i6; i7; i8; i9; i10; i11; i12; i13; i14; i15],
    [i0m; i1m; i3m; i4m; i7m; i10m; i11m] =>
      expand2b_inner q M H i16 i0 i1 i2 i3 i4 i5 i6 i7 i8 i9 i10 i11 i12 i13 i14 i15
        i0m i1m i3m i4m i7m i10m i11m
  | _, _ => 0
  end.

Definition Wb0 (M H : list Z) : Z :=
  MAKE_W SPH_T64 M H 5 Z.sub 7 Z.add 10 Z.add 13 Z.add 14.
Definition Wb1 (M H : list Z) : Z :=
  MAKE_W SPH_T64 M H 6 Z.sub 8 Z.add 11 Z.add 14 Z.sub 15.
Definition Wb2 (M H : list Z) : Z :=
  MAKE_W SPH_T64 M H 0 Z.add 7 Z.add 9 Z.sub 12 Z.add 15.
Definition Wb3 (M H : list Z) : Z :=
  MAKE_W SPH_T64 M H 0 Z.sub 1 Z.add 8 Z.sub 10 Z.add 13.
Definition Wb4 (M H : list Z) : Z :=
  MAKE_W SPH_T64 M H 1 Z.add 2 Z.add 9 Z.sub 11 Z.sub 14.
Definition Wb5 (M H : list Z) : Z :=
  MAKE_W SPH_T64 M H 3 Z.sub 2 Z.add 10 Z.sub 12 Z.add 15.
Definition Wb6 (M H : list Z) : Z :=
  MAKE_W SPH_T64 M H 4 Z.sub 0 Z.sub 3 Z.sub 11 Z.add 13.
Definition Wb7 (M H : list Z) : Z :=
  MAKE_W SPH_T64 M H 1 Z.sub 4 Z.sub 5 Z.sub 12 Z.sub 14.
Definition Wb8 (M H : list Z) : Z :=
  MAKE_W SPH_T64 M H 2 Z.sub 5 Z.sub 6 Z.add 13 Z.sub 15.
Definition Wb9 (M H : list Z) : Z :=
  MAKE_W SPH_T64 M H 0 Z.sub 3 Z.add 6 Z.sub 7 Z.add 14.
Definition Wb10 (M H : list Z) : Z :=
  MAKE_W SPH_T64 M H 8 Z.sub 1 Z.sub 4 Z.sub 7 Z.add 15.
Definition Wb11 (M H : list Z) : Z :=
  MAKE_W SPH_T64 M H 8 Z.sub 0 Z.sub 2 Z.sub 5 Z.add 9.
Definition Wb12 (M H : list Z) : Z :=
  MAKE_W SPH_T64 M H 1 Z.add 3 Z.sub 6 Z.sub 9 Z.add 10.
Definition Wb13 (M H : list Z) : Z :=
  MAKE_W SPH_T64 M H 2 Z.add 4 Z.add 7 Z.add 10 Z.add 11.
Definition Wb14 (M H : list Z) : Z :=
  MAKE_W SPH_T64 M H 3 Z.sub 5 Z.add 8 Z.sub 11 Z.sub 12.
Definition Wb15 (M H : list Z) : Z :=
  MAKE_W SPH_T64 M H 12 Z.sub 4 Z.sub 6 Z.sub 9 Z.add 13.

(** [MAKE_Qab]: the cells [qt[0]] ... [qt[15]]. *)
Definition MAKE_Qab (M H : list Z) : list Z :=
  let h i := nth i H 0 in
  [SPH_T64 (sb0 (Wb0 M H) + h 1%nat);
   SPH_T64 (sb1 (Wb1 M H) + h 2%nat);
   SPH_T64 (sb2 (Wb2 M H) + h 3%nat);
   SPH_T64 (sb3 (Wb3 M H) + h 4%nat);
   SPH_T64 (sb4 (Wb4 M H) + h 5%nat);
   SPH_T64 (sb0 (Wb5 M H) + h 6%nat);
   SPH_T64 (sb1 (Wb6 M H) + h 7%nat);
   SPH_T64 (sb2 (Wb7 M H) + h 8%nat);
   SPH_T64 (sb3 (Wb8 M H) + h 9%nat);
   SPH_T64 (sb4 (Wb9 M H) + h 10%nat);
   SPH_T64 (sb0 (Wb10 M H) + h 11%nat);
   SPH_T64 (sb1 (Wb11 M H) + h 12%nat);
   SPH_T64 (sb2 (Wb12 M H) + h 13%nat);
   SPH_T64 (sb3 (Wb13 M H) + h 14%nat);
   SPH_T64 (sb4 (Wb14 M H) + h 15%nat);
   SPH_T64 (sb0 (Wb15 M H) + h 0%nat)].

(** SPH_SMALL_FOOTPRINT_BMW: the loop [for (u = 0; u < 15; u += 5)]. *)
Definition MAKE_Qab_small (M H : list Z) : list Z :=
  let W := [Wb0 M H; Wb1 M H; Wb2 M H; Wb3 M H; Wb4 M H; Wb5 M H; Wb6 M H; Wb7 M H;
            Wb8 M H; Wb9 M H; Wb10 M H; Wb11 M H; Wb12 M H; Wb13 M H; Wb14 M H; Wb15 M H] in
  let h i := nth i H 0 in
  let qt := flat_map (fun u =>
    [SPH_T64 (sb0 (nth (u + 0) W 0) + h (u + 1)%nat);
     SPH_T64 (sb1 (nth (u + 1) W 0) + h (u + 2)%nat);
     SPH_T64 (sb2 (nth (u + 2) W 0) + h (u + 3)%nat);
     SPH_T64 (sb3 (nth (u + 3) W 0) + h (u + 4)%nat);
     SPH_T64 (sb4 (nth (u + 4) W 0) + h (u + 5)%nat)]) [0; 5; 10]%nat in
  qt ++ [SPH_T64 (sb0 (nth 15 W 0) + h 0%nat)].

(** [MAKE_Qbb]: the cells [qt[16]] ... [qt[31]], each computed from those
    before it. *)
Definition MAKE_Qbb (M H qt : list Z) : list Z :=
  let qt := qt ++ [expand1b qt M H 16] in
  let qt := qt ++ [expand1b qt M H 17] in
  let qt := qt ++ [expand2b qt M H 18] in
  let qt := qt ++ [expand2b qt M H 19] in
  let qt := qt ++ [expand2b qt M H 20] in
  let qt := qt ++ [expand2b qt M H 21] in
  let qt := qt ++ [expand2b qt M H 22] in
  let qt := qt ++ [expand2b qt M H 23] in
  let qt := qt ++ [expand2b qt M H 24] in
  let qt := qt ++ [expand2b qt M H 25] in
  let qt := qt ++ [expand2b qt M H 26] in
  let qt := qt ++ [expand2b qt M H 27] in
  let qt := qt ++ [expand2b qt M H 28] in
  let qt := qt ++ [expand2b qt M H 29] in
  let qt := qt ++ [expand2b qt M H 30] in
  let qt := qt ++ [expand2b qt M H 31] in
  qt.

(** SPH_SMALL_FOOTPRINT_BMW: index arithmetic instead of argument lists. *)
Definition Kb_tab : list Z :=
  [Kb 16; Kb 17; Kb 18; Kb 19; Kb 20; Kb 21; Kb 22; Kb 23;
   Kb 24; Kb 25; Kb 26; Kb 27; Kb 28; Kb 29; Kb 30; Kb 31].

Definition rol_off (M : list Z) (j off : nat) : Z :=
  SPH_ROTL64 (nth (Nat.land (j + off) 15) M 0) (Z.of_nat (Nat.land (j + off) 15 + 1)).

Definition add_elt_b_small (M H : list Z) (j : nat) : Z :=
  SPH_T64 (rol_off M j 0 + rol_off M j 3 - rol_off M j 10 + nth j Kb_tab 0)
  .^ nth (Nat.land (j + 7) 15) H 0.

Definition expand1b_small (q M H : list Z) (i : nat) : Z :=
  let qf k := nth k q 0 in
  SPH_T64 (sb1 (qf (i - 16)%nat) + sb2 (qf (i - 15)%nat) + sb3 (qf (i - 14)%nat) + sb0 (qf (i - 13)%nat)
    + sb1 (qf (i - 12)%nat) + sb2 (qf (i - 11)%nat) + sb3 (qf (i - 10)%nat) + sb0 (qf (i - 9)%nat)
    + sb1 (qf (i - 8)%nat) + sb2 (qf (i - 7)%nat) + sb3 (qf (i - 6)%nat) + sb0 (qf (i - 5)%nat)
    + sb1 (qf (i - 4)%nat) + sb2 (qf (i - 3)%nat) + sb3 (qf (i - 2)%nat) + sb0 (qf (i - 1)%nat)
    + add_elt_b_small M H (i - 16)).

Definition expand2b_small (q M H : list Z) (i : nat) : Z :=
  let qf k := nth k q 0 in
  SPH_T64 (qf (i - 16)%nat + rb1 (qf (i - 15)%nat) + qf (i - 14)%nat + rb2 (qf (i - 13)%nat)
    + qf (i - 12)%nat + rb3 (qf (i - 11)%nat) + qf (i - 10)%nat + rb4 (qf (i - 9)%nat)
    + qf (i - 8)%nat + rb5 (qf (i - 7)%nat) + qf (i - 6)%nat + rb6 (qf (i - 5)%nat)
    + qf (i - 4)%nat + rb7 (qf (i - 3)%nat)
    + sb4 (qf (i - 2)%nat) + sb5 (qf (i - 1)%nat)
    + add_elt_b_small M H (i - 16)).

Definition MAKE_Qbb_small (M H qt : list Z) : list Z :=
  let qt := fold_left (fun qt u => qt ++ [expand1b_small qt M H u]) (seq 16 2) qt in
  fold_left (fun qt u => qt ++ [expand2b_small qt M H u]) (seq 18 14) qt.

Definition MAKE_Qb (M H : list Z) : list Z := MAKE_Qbb M H (MAKE_Qab M H).

(** [FOLD(type, mkQ, tt, rol, mf, qf, dhf)], with [qt] computed by [mkQ].  A
    left shift of a C word is truncated to the word. *)
Definition FOLD (tt : Z -> Z) (rol : Z -> Z -> Z) (M qt : list Z) : list Z :=
  let mf i := nth i M 0 in
  let qf i := nth i qt 0 in
  let xl := qf 16%nat .^ qf 17%nat .^ qf 18%nat .^ qf 19%nat
            .^ qf 20%nat .^ qf 21%nat .^ qf 22%nat .^ qf 23%nat in
  let xh := xl .^ qf 24%nat .^ qf 25%nat .^ qf 26%nat .^ qf 27%nat
            .^ qf 28%nat .^ qf 29%nat .^ qf 30%nat .^ qf 31%nat in
  let dh0 := tt ((tt (xh << 5) .^ (qf 16%nat >> 5) .^ mf 0%nat) + (xl .^ qf 24%nat .^ qf 0%nat)) in
  let dh1 := tt (((xh >> 7) .^ tt (qf 17%nat << 8) .^ mf 1%nat) + (xl .^ qf 25%nat .^ qf 1%nat)) in
  let dh2 := tt (((xh >> 5) .^ tt (qf 18%nat << 5) .^ mf 2%nat) + (xl .^ qf 26%nat .^ qf 2%nat)) in
  let dh3 := tt (((xh >> 1) .^ tt (qf 19%nat << 5) .^ mf 3%nat) + (xl .^ qf 27%nat .^ qf 3%nat)) in
  let dh4 := tt (((xh >> 3) .^ tt (qf 20%nat << 0) .^ mf 4%nat) + (xl .^ qf 28%nat .^ qf 4%nat)) in
  let dh5 := tt ((tt (xh << 6) .^ (qf 21%nat >> 6) .^ mf 5%nat) + (xl .^ qf 29%nat .^ qf 5%nat)) in
  let dh6 := tt (((xh >> 4) .^ tt (qf 22%nat << 6) .^ mf 6%nat) + (xl .^ qf 30%nat .^ qf 6%nat)) in
  let dh7 := tt (((xh >> 11) .^ tt (qf 23%nat << 2) .^ mf 7%nat) + (xl .^ qf 31%nat .^ qf 7%nat)) in
  let dh8 := tt (rol dh4 9 + (xh .^ qf 24%nat .^ mf 8%nat) + (tt (xl << 8) .^ qf 23%nat .^ qf 8%nat)) in
  let dh9 := tt (rol dh5 10 + (xh .^ qf 25%nat .^ mf 9%nat) + ((xl >> 6) .^ qf 16%nat .^ qf 9%nat)) in
  let dh10 := tt (rol dh6 11 + (xh .^ qf 26%nat .^ mf 10%nat) + (tt (xl << 6) .^ qf 17%nat .^ qf 10%nat)) in
  let dh11 := tt (rol dh7 12 + (xh .^ qf 27%nat .^ mf 11%nat) + (tt (xl << 4) .^ qf 18%nat .^ qf 11%nat)) in
  let dh12 := tt (rol dh0 13 + (xh .^ qf 28%nat .^ mf 12%nat) + ((xl >> 3) .^ qf 19%nat .^ qf 12%nat)) in
  let dh13 := tt (rol dh1 14 + (xh .^ qf 29%nat .^ mf 13%nat) + ((xl >> 4) .^ qf 20%nat .^ qf 13%nat)) in
  let dh14 := tt (rol dh2 15 + (xh .^ qf 30%nat .^ mf 14%nat) + ((xl >> 7) .^ qf 21%nat .^ qf 14%nat)) in
  let dh15 := tt (rol dh3 16 + (xh .^ qf 31%nat .^ mf 15%nat) + ((xl >> 2) .^ qf 22%nat .^ qf 15%nat)) in
  [dh0; dh1; dh2; dh3; dh4; dh5; dh6; dh7;
   dh8; dh9; dh10; dh11; dh12; dh13; dh14; dh15].

Definition compress_small (data h : list Z) : list Z :=
  let M := [sph_dec32le (skipn 0 data); sph_dec32le (skipn 4 data);
            sph_dec32le (skipn 8 data); sph_dec32le (skipn 12 data);
            sph_dec32le (skipn 16 data); sph_dec32le (skipn 20 data);
            sph_dec32le (skipn 24 data); sph_dec32le (skipn 28 data);
            sph_dec32le (skipn 32 data); sph_dec32le (skipn 36 data);
            sph_dec32le (skipn 40 data); sph_dec32le (skipn 44 data);
            sph_dec32le (skipn 48 data); sph_dec32le (skipn 52 data);
            sph_dec32le (skipn 56 data); sph_dec32le (skipn 60 data)] in
  FOLD SPH_T32 SPH_ROTL32 M (MAKE_Qs M h).

(** SPH_SMALL_FOOTPRINT_BMW. *)
Definition compress_small_small (data h : list Z) : list Z :=
  let M := [sph_dec32le (skipn 0 data); sph_dec32le (skipn 4 data);
            sph_dec32le (skipn 8 data); sph_dec32le (skipn 12 data);
            sph_dec32le (skipn 16 data); sph_dec32le (skipn 20 data);
            sph_dec32le (skipn 24 data); sph_dec32le (skipn 28 data);
            sph_dec32le (skipn 32 data); sph_dec32le (skipn 36 data);
            sph_dec32le (skipn 40 data); sph_dec32le (skipn 44 data);
            sph_dec32le (skipn 48 data); sph_dec32le (skipn 52 data);
            sph_dec32le (skipn 56 data); sph_dec32le (skipn 60 data)] in
  FOLD SPH_T32 SPH_ROTL32 M (MAKE_Qbs M h (MAKE_Qas_small M h)).

Definition final_s : list Z :=
  [0xaaaaaaa0; 0xaaaaaaa1; 0xaaaaaaa2; 0xaaaaaaa3;
   0xaaaaaaa4; 0xaaaaaaa5; 0xaaaaaaa6; 0xaaaaaaa7;
   0xaaaaaaa8; 0xaaaaaaa9; 0xaaaaaaaa; 0xaaaaaaab;
   0xaaaaaaac; 0xaaaaaaad; 0xaaaaaaae; 0xaaaaaaaf].

(** The fields [H] and [bit_count] of the contexts. *)
Record bmwstate := Bmw { bmwH : list Z; bit_count : Z }.

Definition bmw_context := sctx bmwstate.

Definition bmw32_init (sc : bmw_context) (iv : list Z) : bmw_context :=
  Ctx (buf sc) 0 (Bmw iv 0).

(** The two arrays [sc->H] and [htmp] that [h1] and [h2] point to in turn hold
    the chaining value; the copy back at the end makes it [sc->H]. *)
Definition bmw32 (sc : bmw_context) (data : list Z) : bmw_context :=
  let bc := SPH_T64 (bit_count (st sc) + SPH_T64 (Z.of_nat (length data) << 3)) in
  let r := core_loop 64 compress_small (length data) (buf sc) (ptr sc) (bmwH (st sc)) data in
  Ctx (buf r) (ptr r) (Bmw (st r) bc).

Definition bmw32_close (sc : bmw_context) (ub n : Z) (out_size_w32 : nat)
  : bmw_context * list Z :=
  let z := 0x80 >> n in
  let b := upd (buf sc) (ptr sc) (((ub .& SPH_T32 (- z)) .| z) .& 0xFF) in
  let p := (ptr sc + 1)%nat in
  let h := bmwH (st sc) in
  let '(b, p, h) :=
    if (64 - 8 <? p)%nat then
      let b := memset b p 0 (64 - p) in
      (b, 0%nat, compress_small b h)
    else (b, p, h) in
  let b := memset b p 0 (64 - 8 - p) in
  let b := memcpy b (64 - 8) (sph_enc64le (SPH_T64 (bit_count (st sc) + n))) 8 in
  let h2 := compress_small b h in
  let b := fold_left (fun b u => memcpy b (4 * u) (sph_enc32le (nth u h2 0)) 4) (seq 0 16) b in
  let h1 := compress_small b final_s in
  (Ctx b (ptr sc) (st sc),
   flat_map (fun u => sph_enc32le (nth (16 - out_size_w32 + u) h1 0)) (seq 0 out_size_w32)).

Definition compress_big (data h : list Z) : list Z :=
  let M := [sph_dec64le (skipn 0 data); sph_dec64le (skipn 8 data);
            sph_dec64le (skipn 16 data); sph_dec64le (skipn 24 data);
            sph_dec64le (skipn 32 data); sph_dec64le (skipn 40 data);
            sph_dec64le (skipn 48 data); sph_dec64le (skipn 56 data);
            sph_dec64le (skipn 64 data); sph_dec64le (skipn 72 data);
            sph_dec64le (skipn 80 data); sph_dec64le (skipn 88 data);
            sph_dec64le (skipn 96 data); sph_dec64le (skipn 104 data);
            sph_dec64le (skipn 112 data); sph_dec64le (skipn 120 data)] in
  FOLD SPH_T64 SPH_ROTL64 M (MAKE_Qb M h).

(** SPH_SMALL_FOOTPRINT_BMW. *)
Definition compress_big_small (data h : list Z) : list Z :=
  let M := [sph_dec64le (skipn 0 data); sph_dec64le (skipn 8 data);
            sph_dec64le (skipn 16 data); sph_dec64le (skipn 24 data);
            sph_dec64le (skipn 32 data); sph_dec64le (skipn 40 data);
            sph_dec64le (skipn 48 data); sph_dec64le (skipn 56 data);
            sph_dec64le (skipn 64 data); sph_dec64le (skipn 72 data);
            sph_dec64le (skipn 80 data); sph_dec64le (skipn 88 data);
            sph_dec64le (skipn 96 data); sph_dec64le (skipn 104 data);
            sph_dec64le (skipn 112 data); sph_dec64le (skipn 120 data)] in
  FOLD SPH_T64 SPH_ROTL64 M (MAKE_Qbb_small M h (MAKE_Qab_small M h)).

Definition final_b : list Z :=
  [0xaaaaaaaaaaaaaaa0; 0xaaaaaaaaaaaaaaa1;
   0xaaaaaaaaaaaaaaa2; 0xaaaaaaaaaaaaaaa3;
   0xaaaaaaaaaaaaaaa4; 0xaaaaaaaaaaaaaaa5;
   0xaaaaaaaaaaaaaaa6; 0xaaaaaaaaaaaaaaa7;
   0xaaaaaaaaaaaaaaa8; 0xaaaaaaaaaaaaaaa9;
   0xaaaaaaaaaaaaaaaa; 0xaaaaaaaaaaaaaaab;
   0xaaaaaaaaaaaaaaac; 0xaaaaaaaaaaaaaaad;
   0xaaaaaaaaaaaaaaae; 0xaaaaaaaaaaaaaaaf].

Definition bmw64_init (sc : bmw_context) (iv : list Z) : bmw_context :=
  Ctx (buf sc) 0 (Bmw iv 0).

(** The two arrays [sc->H] and [htmp] that [h1] and [h2] point to in turn hold
    the chaining value; the copy back at the end makes it [sc->H]. *)
Definition bmw64 (sc : bmw_context) (data : list Z) : bmw_context :=
  let bc := SPH_T64 (bit_count (st sc) + SPH_T64 (Z.of_nat (length data) << 3)) in
  let r := core_loop 128 compress_big (length data) (buf sc) (ptr sc) (bmwH (st sc)) data in
  Ctx (buf r) (ptr r) (Bmw (st r) bc).

Definition bmw64_close (sc : bmw_context) (ub n : Z) (out_size_w64 : nat)
  : bmw_context * list Z :=
  let z := 0x80 >> n in
  let b := upd (buf sc) (ptr sc) (((ub .& SPH_T32 (- z)) .| z) .& 0xFF) in
  let p := (ptr sc + 1)%nat in
  let h := bmwH (st sc) in
  let '(b, p, h) :=
    if (128 - 8 <? p)%nat then
      let b := memset b p 0 (128 - p) in
      (b, 0%nat, compress_big b h)
    else (b, p, h) in
  let b := memset b p 0 (128 - 8 - p) in
  let b := memcpy b (128 - 8) (sph_enc64le (SPH_T64 (bit_count (st sc) + n))) 8 in
  let h2 := compress_big b h in
  let b := fold_left (fun b u => memcpy b (8 * u) (sph_enc64le (nth u h2 0)) 8) (seq 0 16) b in
  let h1 := compress_big b final_b in
  (Ctx b (ptr sc) (st sc),
   flat_map (fun u => sph_enc64le (nth (16 - out_size_w64 + u) h1 0)) (seq 0 out_size_w64)).

Definition sph_bmw224_init (cc : bmw_context) := bmw32_init cc IV224.
Definition sph_bmw224 (cc : bmw_context) (data : list Z) := bmw32 cc data.
Definition sph_bmw224_addbits_and_close (cc : bmw_context) (ub n : Z) :=
  let (cc, dst) := bmw32_close cc ub n 7 in (dst, sph_bmw224_init cc).
Definition sph_bmw224_close (cc : bmw_context) := sph_bmw224_addbits_and_close cc 0 0.

Definition sph_bmw256_init (cc : bmw_context) := bmw32_init cc IV256.
Definition sph_bmw256 (cc : bmw_context) (data : list Z) := bmw32 cc data.
Definition sph_bmw256_addbits_and_close (cc : bmw_context) (ub n : Z) :=
  let (cc, dst) := bmw32_close cc ub n 8 in (dst, sph_bmw256_init cc).
Definition sph_bmw256_close (cc : bmw_context) := sph_bmw256_addbits_and_close cc 0 0.

Definition sph_bmw384_init (cc : bmw_context) := bmw64_init cc IV384.
Definition sph_bmw384 (cc : bmw_context) (data : list Z) := bmw64 cc data.
Definition sph_bmw384_addbits_and_close (cc : bmw_context) (ub n : Z) :=
  let (cc, dst) := bmw64_close cc ub n 6 in (dst, sph_bmw384_init cc).
Definition sph_bmw384_close (cc : bmw_context) := sph_bmw384_addbits_and_close cc 0 0.

Definition sph_bmw512_init (cc : bmw_context) := bmw64_init cc IV512.
Definition sph_bmw512 (cc : bmw_context) (data : list Z) := bmw64 cc data.
Definition sph_bmw512_addbits_and_close (cc : bmw_context) (ub n : Z) :=
  let (cc, dst) := bmw64_close cc ub n 8 in (dst, sph_bmw512_init cc).
Definition sph_bmw512_close (cc : bmw_context) := sph_bmw512_addbits_and_close cc 0 0.
