(* ===== verification/BmwSpec.v ===== *)
(** * BmwSpec: Blue Midnight Wish and the correctness of bmw.c

    The reference definition: the element functions from their tables, the
    bijection f0 from its sign table, the expansion f1 with computed indices,
    the folding f2 from its shift tables, and the hash function (padding with
    a 64-bit length, finalisation by a second compression).  Then the proof
    that the code of Bmw.v computes it, for both word sizes, with argument
    lists as with index arithmetic (SPH_SMALL_FOOTPRINT_BMW). *)

From Stdlib Require Import ZArith List Lia Bool.
From S2P Require Import Prelude SphTypes Stream Bmw.
Import ListNotations.

Open Scope Z_scope.
Open Scope word_scope.

(** ** Reference definition *)

(** An entry of a table. *)
Definition entry {A} (l : list A) (i : nat) (d : A) : A := hd d (skipn i l).

(** s0 ... s3: right shift, left shift and two rotations. *)
Definition s_tab (w : Z) : list (Z * Z * Z * Z) :=
  if w =? 32 then [(1, 3, 4, 19); (1, 2, 8, 23); (2, 1, 12, 25); (2, 2, 15, 29)]
  else [(1, 3, 4, 37); (1, 2, 13, 43); (2, 1, 19, 53); (2, 2, 28, 59)].

Definition bmw_s (w : Z) (k : nat) (x : Z) : Z :=
  match k with
  | 4%nat => (x >> 1) .^ x
  | 5%nat => (x >> 2) .^ x
  | _ => let '(a, b, c, d) := entry (s_tab w) k (0, 0, 0, 0) in
         (x >> a) .^ trunc w (x << b) .^ rotl w x c .^ rotl w x d
  end.

(** The rotation amounts of r1 ... r7. *)
Definition r_tab (w : Z) : list Z :=
  if w =? 32 then [3; 7; 13; 16; 19; 23; 27] else [5; 11; 27; 32; 37; 43; 53].

Definition bmw_r (w : Z) (k : nat) (x : Z) : Z := rotl w x (entry (r_tab w) (k - 1) 0).

(** f0: W_i is a signed sum of five words of [M xor H]. *)
Definition W_tab : list (list (bool * nat)) :=
  let p i := (true, i) in let n i := (false, i) in
  [[p 5; n 7; p 10; p 13; p 14]; [p 6; n 8; p 11; p 14; n 15];
   [p 0; p 7; p 9; n 12; p 15]; [p 0; n 1; p 8; n 10; p 13];
   [p 1; p 2; p 9; n 11; n 14]; [p 3; n 2; p 10; n 12; p 15];
   [p 4; n 0; n 3; n 11; p 13]; [p 1; n 4; n 5; n 12; n 14];
   [p 2; n 5; n 6; p 13; n 15]; [p 0; n 3; p 6; n 7; p 14];
   [p 8; n 1; n 4; n 7; p 15]; [p 8; n 0; n 2; n 5; p 9];
   [p 1; p 3; n 6; n 9; p 10]; [p 2; p 4; p 7; p 10; p 11];
   [p 3; n 5; p 8; n 11; n 12]; [p 12; n 4; n 6; n 9; p 13]]%nat.

Definition bmw_W (w : Z) (M H : list Z) (i : nat) : Z :=
  trunc w (fold_left (fun acc sj =>
    let x := nth (snd sj) M 0 .^ nth (snd sj) H 0 in
    if fst sj : bool then acc + x else acc - x) (entry W_tab i []) 0).

Definition bmw_f0 (w : Z) (M H : list Z) : list Z :=
  map (fun i => trunc w (bmw_s w (i mod 5) (bmw_W w M H i) + nth ((i + 1) mod 16) H 0)) (seq 0 16).

(** f1: sixteen more words, the first two with the more complex expansion. *)
Definition bmw_K (w : Z) (j : nat) : Z := trunc w (Z.of_nat j * (2 ^ w / 48)).

Definition add_element (w : Z) (M H : list Z) (j : nat) : Z :=
  let rot k := let i := ((j + k) mod 16)%nat in rotl w (nth i M 0) (Z.of_nat (i + 1)) in
  trunc w (rot 0%nat + rot 3%nat - rot 10%nat + bmw_K w (j + 16)) .^ nth ((j + 7) mod 16) H 0.

Definition sum (l : list Z) : Z := match l with [] => 0 | x :: l' => fold_left Z.add l' x end.

Definition bmw_expand (w : Z) (M H q : list Z) (j : nat) : Z :=
  let e k := nth (j - 16 + k) q 0 in
  let terms :=
    if (j <? 18)%nat then map (fun k => bmw_s w ((k + 1) mod 4) (e k)) (seq 0 16)
    else map (fun k => if Nat.even k then e k else bmw_r w ((k + 1) / 2) (e k)) (seq 0 14)
         ++ [bmw_s w 4 (e 14%nat); bmw_s w 5 (e 15%nat)] in
  trunc w (sum (terms ++ [add_element w M H (j - 16)])).

Definition bmw_f1 (w : Z) (M H qa : list Z) : list Z :=
  fold_left (fun q j => q ++ [bmw_expand w M H q j]) (seq 16 16) qa.

(** f2: a shift amount is positive to the left, negative to the right. *)
Definition shift (w x n : Z) : Z := if n <? 0 then x >> (- n) else trunc w (x << n).

Definition f2_xh : list Z := [5; -7; -5; -1; -3; 6; -4; -11].
Definition f2_q : list Z := [-5; 8; 5; 5; 0; -6; 6; 2].
Definition f2_xl : list Z := [8; -6; 6; 4; -3; -4; -7; -2].

Definition bmw_f2 (w : Z) (M q : list Z) : list Z :=
  let xl := match map (fun i => nth i q 0) (seq 16 8) with
            | x :: l => fold_left Z.lxor l x | [] => 0 end in
  let xh := fold_left Z.lxor (map (fun i => nth i q 0) (seq 24 8)) xl in
  let lo := map (fun i =>
    trunc w ((shift w xh (entry f2_xh i 0) .^ shift w (nth (16 + i) q 0) (entry f2_q i 0) .^ nth i M 0)
             + (xl .^ nth (24 + i) q 0 .^ nth i q 0))) (seq 0 8) in
  let hi := map (fun i =>
    trunc w (rotl w (entry lo ((i + 4) mod 8) 0) (Z.of_nat (i + 9))
             + (xh .^ nth (24 + i) q 0 .^ nth (8 + i) M 0)
             + (shift w xl (entry f2_xl i 0) .^ nth (16 + (i + 7) mod 8) q 0 .^ nth (8 + i) q 0))) (seq 0 8) in
  lo ++ hi.

Definition dec_le (w : Z) : list Z -> Z := if w =? 32 then sph_dec32le else sph_dec64le.
Definition enc_le (w : Z) : Z -> list Z := if w =? 32 then sph_enc32le else sph_enc64le.
Definition wbytes (w : Z) : nat := Z.to_nat (w / 8).

Definition bmw_compress (w : Z) (blk h : list Z) : list Z :=
  let M := read_words (dec_le w) (wbytes w) 16 blk in
  bmw_f2 w M (bmw_f1 w M h (bmw_f0 w M h)).

(** A one bit, zeros, and the length in bits modulo 2^64 in the last eight
    bytes of a block. *)
Definition bmw_pad (blen : nat) (m : list Z) (ub n : Z) : list Z :=
  let L := 8 * Z.of_nat (length m) + n in
  let zeros := ((2 * blen - 9 - length m mod blen) mod blen)%nat in
  m ++ [last_byte ub n] ++ repeat 0 zeros ++ sph_enc64le (trunc 64 L).

(** The initial chaining values count up byte by byte, from [0] or [0x40]
    (32-bit words), [0] or [0x80] (64-bit words). *)
Definition bmw_iv (d : Z) : list Z :=
  let start := if d =? 224 then 0 else if d =? 256 then 0x40 else if d =? 384 then 0 else 0x80 in
  let k := if d <=? 256 then 4%nat else 8%nat in
  map (fun i => fold_left (fun acc j => acc * 256 + (start + Z.of_nat (k * i + j))) (seq 0 k) 0) (seq 0 16).

Definition bmw_final (w : Z) : list Z :=
  map (fun i => (2 ^ w - 1) / 3 * 2 - 10 + Z.of_nat i) (seq 0 16).

Definition bmw_spec (d : Z) (m : list Z) (ub n : Z) : list Z :=
  let w := if d <=? 256 then 32 else 64 in
  let blen := (16 * wbytes w)%nat in
  let h := fst (absorb blen (bmw_compress w) (bmw_iv d) (bmw_pad blen m ub n)) in
  let g := bmw_compress w (flat_map (enc_le w) h) (bmw_final w) in
  flat_map (enc_le w) (skipn (16 - Z.to_nat (d / w)) g).

Lemma bmw_tables :
  IV224 = bmw_iv 224 /\ IV256 = bmw_iv 256 /\ IV384 = bmw_iv 384 /\ IV512 = bmw_iv 512
  /\ final_s = bmw_final 32 /\ final_b = bmw_final 64.
Proof. split; [|split; [|split; [|split; [|split]]]]; vm_compute; reflexivity. Qed.

(** ** The compression functions *)

Lemma ROTL32_rotl : SPH_ROTL32 = rotl 32.
Proof. reflexivity. Qed.

Lemma ROTL64_rotl : SPH_ROTL64 = rotl 64.
Proof. reflexivity. Qed.

Lemma W32_spec M H :
  [Ws0 M H; Ws1 M H; Ws2 M H; Ws3 M H; Ws4 M H; Ws5 M H; Ws6 M H; Ws7 M H;
   Ws8 M H; Ws9 M H; Ws10 M H; Ws11 M H; Ws12 M H; Ws13 M H; Ws14 M H; Ws15 M H]
  = map (bmw_W 32 M H) (seq 0 16).
Proof.
  unfold Ws0, Ws1, Ws2, Ws3, Ws4, Ws5, Ws6, Ws7, Ws8, Ws9, Ws10, Ws11, Ws12, Ws13, Ws14, Ws15, MAKE_W.
  rewrite T32_trunc; unfold bmw_W; cbn [map seq]; generalize (@nth Z); intros nz.
  cbv beta iota zeta delta [entry W_tab skipn hd fold_left fst snd].
  rewrite !Z.add_0_l; reflexivity.
Qed.

Lemma W64_spec M H :
  [Wb0 M H; Wb1 M H; Wb2 M H; Wb3 M H; Wb4 M H; Wb5 M H; Wb6 M H; Wb7 M H;
   Wb8 M H; Wb9 M H; Wb10 M H; Wb11 M H; Wb12 M H; Wb13 M H; Wb14 M H; Wb15 M H]
  = map (bmw_W 64 M H) (seq 0 16).
Proof.
  unfold Wb0, Wb1, Wb2, Wb3, Wb4, Wb5, Wb6, Wb7, Wb8, Wb9, Wb10, Wb11, Wb12, Wb13, Wb14, Wb15, MAKE_W.
  rewrite T64_trunc; unfold bmw_W; cbn [map seq]; generalize (@nth Z); intros nz.
  cbv beta iota zeta delta [entry W_tab skipn hd fold_left fst snd].
  rewrite !Z.add_0_l; reflexivity.
Qed.

(** Evaluate both sides down to word operations on array cells. *)
Ltac word_ops :=
  generalize (@nth Z); intros nz; cbv -[trunc rotl Z.add Z.sub Z.lxor Z.shiftl Z.shiftr].

Definition Qas_with (W H : list Z) : list Z :=
  [SPH_T32 (ss0 (nth 0 W 0) + nth 1 H 0);
   SPH_T32 (ss1 (nth 1 W 0) + nth 2 H 0);
   SPH_T32 (ss2 (nth 2 W 0) + nth 3 H 0);
   SPH_T32 (ss3 (nth 3 W 0) + nth 4 H 0);
   SPH_T32 (ss4 (nth 4 W 0) + nth 5 H 0);
   SPH_T32 (ss0 (nth 5 W 0) + nth 6 H 0);
   SPH_T32 (ss1 (nth 6 W 0) + nth 7 H 0);
   SPH_T32 (ss2 (nth 7 W 0) + nth 8 H 0);
   SPH_T32 (ss3 (nth 8 W 0) + nth 9 H 0);
   SPH_T32 (ss4 (nth 9 W 0) + nth 10 H 0);
   SPH_T32 (ss0 (nth 10 W 0) + nth 11 H 0);
   SPH_T32 (ss1 (nth 11 W 0) + nth 12 H 0);
   SPH_T32 (ss2 (nth 12 W 0) + nth 13 H 0);
   SPH_T32 (ss3 (nth 13 W 0) + nth 14 H 0);
   SPH_T32 (ss4 (nth 14 W 0) + nth 15 H 0);
   SPH_T32 (ss0 (nth 15 W 0) + nth 0 H 0)].

Lemma Qas_spec M H : MAKE_Qas M H = bmw_f0 32 M H.
Proof.
  transitivity (Qas_with
     [Ws0 M H; Ws1 M H; Ws2 M H; Ws3 M H; Ws4 M H; Ws5 M H; Ws6 M H; Ws7 M H;
      Ws8 M H; Ws9 M H; Ws10 M H; Ws11 M H; Ws12 M H; Ws13 M H; Ws14 M H; Ws15 M H] H);
    [reflexivity | rewrite W32_spec; cbn [map seq]].
  unfold Qas_with, ss0, ss1, ss2, ss3, ss4; rewrite T32_trunc, ROTL32_rotl; unfold bmw_f0; cbn [nth map seq].
  generalize (bmw_W 32 M H); intros W; word_ops; reflexivity.
Qed.

Definition Qab_with (W H : list Z) : list Z :=
  [SPH_T64 (sb0 (nth 0 W 0) + nth 1 H 0);
   SPH_T64 (sb1 (nth 1 W 0) + nth 2 H 0);
   SPH_T64 (sb2 (nth 2 W 0) + nth 3 H 0);
   SPH_T64 (sb3 (nth 3 W 0) + nth 4 H 0);
   SPH_T64 (sb4 (nth 4 W 0) + nth 5 H 0);
   SPH_T64 (sb0 (nth 5 W 0) + nth 6 H 0);
   SPH_T64 (sb1 (nth 6 W 0) + nth 7 H 0);
   SPH_T64 (sb2 (nth 7 W 0) + nth 8 H 0);
   SPH_T64 (sb3 (nth 8 W 0) + nth 9 H 0);
   SPH_T64 (sb4 (nth 9 W 0) + nth 10 H 0);
   SPH_T64 (sb0 (nth 10 W 0) + nth 11 H 0);
   SPH_T64 (sb1 (nth 11 W 0) + nth 12 H 0);
   SPH_T64 (sb2 (nth 12 W 0) + nth 13 H 0);
   SPH_T64 (sb3 (nth 13 W 0) + nth 14 H 0);
   SPH_T64 (sb4 (nth 14 W 0) + nth 15 H 0);
   SPH_T64 (sb0 (nth 15 W 0) + nth 0 H 0)].

Lemma Qab_spec M H : MAKE_Qab M H = bmw_f0 64 M H.
Proof.
  transitivity (Qab_with
     [Wb0 M H; Wb1 M H; Wb2 M H; Wb3 M H; Wb4 M H; Wb5 M H; Wb6 M H; Wb7 M H;
      Wb8 M H; Wb9 M H; Wb10 M H; Wb11 M H; Wb12 M H; Wb13 M H; Wb14 M H; Wb15 M H] H);
    [reflexivity | rewrite W64_spec; cbn [map seq]].
  unfold Qab_with, sb0, sb1, sb2, sb3, sb4; rewrite T64_trunc, ROTL64_rotl; unfold bmw_f0; cbn [nth map seq].
  generalize (bmw_W 64 M H); intros W; word_ops; reflexivity.
Qed.

Lemma expand1s_spec q M H j : (16 <= j < 18)%nat -> expand1s q M H j = bmw_expand 32 M H q j.
Proof.
  intros Hj; unfold expand1s, expand1s_inner, add_elt_s, Ks, ss0, ss1, ss2, ss3.
  rewrite T32_trunc, ROTL32_rotl; unfold bmw_expand, add_element, bmw_K.
  do 18 (destruct j as [|j]; [lia || (word_ops; reflexivity)|]); lia.
Qed.

Lemma expand2s_spec q M H j : (18 <= j < 32)%nat -> expand2s q M H j = bmw_expand 32 M H q j.
Proof.
  intros Hj; unfold expand2s, expand2s_inner, add_elt_s, Ks, ss4, ss5, rs1, rs2, rs3, rs4, rs5, rs6, rs7.
  rewrite T32_trunc, ROTL32_rotl; unfold bmw_expand, add_element, bmw_K.
  do 32 (destruct j as [|j]; [lia || (word_ops; reflexivity)|]); lia.
Qed.

Lemma expand1b_spec q M H j : (16 <= j < 18)%nat -> expand1b q M H j = bmw_expand 64 M H q j.
Proof.
  intros Hj; unfold expand1b, expand1b_inner, add_elt_b, Kb, sb0, sb1, sb2, sb3.
  rewrite T64_trunc, ROTL64_rotl; unfold bmw_expand, add_element, bmw_K.
  do 18 (destruct j as [|j]; [lia || (word_ops; reflexivity)|]); lia.
Qed.

Lemma expand2b_spec q M H j : (18 <= j < 32)%nat -> expand2b q M H j = bmw_expand 64 M H q j.
Proof.
  intros Hj; unfold expand2b, expand2b_inner, add_elt_b, Kb, sb4, sb5, rb1, rb2, rb3, rb4, rb5, rb6, rb7.
  rewrite T64_trunc, ROTL64_rotl; unfold bmw_expand, add_element, bmw_K.
  do 32 (destruct j as [|j]; [lia || (word_ops; reflexivity)|]); lia.
Qed.

Lemma Kb_tab_spec j : (j < 16)%nat -> nth j Kb_tab 0 = Kb (j + 16).
Proof. intros Hj; do 16 (destruct j as [|j]; [reflexivity|]); lia. Qed.

Lemma expand1b_small_spec q M H j : (16 <= j < 18)%nat -> expand1b_small q M H j = bmw_expand 64 M H q j.
Proof.
  intros Hj; unfold expand1b_small, add_elt_b_small, rol_off; rewrite Kb_tab_spec by lia; unfold Kb, sb0, sb1, sb2, sb3.
  rewrite T64_trunc, ROTL64_rotl; unfold bmw_expand, add_element, bmw_K.
  do 18 (destruct j as [|j]; [lia || (word_ops; reflexivity)|]); lia.
Qed.

Lemma expand2b_small_spec q M H j : (18 <= j < 32)%nat -> expand2b_small q M H j = bmw_expand 64 M H q j.
Proof.
  intros Hj; unfold expand2b_small, add_elt_b_small, rol_off; rewrite Kb_tab_spec by lia; unfold Kb, sb4, sb5, rb1, rb2, rb3, rb4, rb5, rb6, rb7.
  rewrite T64_trunc, ROTL64_rotl; unfold bmw_expand, add_element, bmw_K.
  do 32 (destruct j as [|j]; [lia || (word_ops; reflexivity)|]); lia.
Qed.

#[local] Opaque expand1s expand2s expand1b expand2b expand1b_small expand2b_small bmw_expand.

(** A list of cells computed one after the other. *)
Lemma f1_ext w M H qa e1 e2 :
  (forall q j, (16 <= j < 18)%nat -> e1 q M H j = bmw_expand w M H q j) ->
  (forall q j, (18 <= j < 32)%nat -> e2 q M H j = bmw_expand w M H q j) ->
  fold_left (fun q j => q ++ [e2 q M H j]) (seq 18 14)
    (fold_left (fun q j => q ++ [e1 q M H j]) (seq 16 2) qa) = bmw_f1 w M H qa.
Proof.
  intros E1 E2; unfold bmw_f1; change (seq 16 16) with (seq 16 2 ++ seq 18 14); rewrite fold_left_app.
  rewrite (fold_left_ext_in (fun q j => q ++ [e1 q M H j]) (fun q j => q ++ [bmw_expand w M H q j])).
  - apply fold_left_ext_in; intros j q Hj; apply in_seq in Hj; rewrite E2; [reflexivity | lia].
  - intros j q Hj; apply in_seq in Hj; rewrite E1; [reflexivity | lia].
Qed.

Lemma Qbs_spec M H qa : MAKE_Qbs M H qa = bmw_f1 32 M H qa.
Proof.
  rewrite <- (f1_ext 32 M H qa expand1s expand2s) by (intros; auto using expand1s_spec, expand2s_spec).
  reflexivity.
Qed.

Lemma Qbb_spec M H qa : MAKE_Qbb M H qa = bmw_f1 64 M H qa.
Proof.
  rewrite <- (f1_ext 64 M H qa expand1b expand2b) by (intros; auto using expand1b_spec, expand2b_spec).
  reflexivity.
Qed.

Lemma Qbb_small_spec M H qa : MAKE_Qbb_small M H qa = bmw_f1 64 M H qa.
Proof. apply f1_ext; intros; auto using expand1b_small_spec, expand2b_small_spec. Qed.

Lemma FOLD_spec w M q : FOLD (trunc w) (rotl w) M q = bmw_f2 w M q.
Proof. unfold FOLD, bmw_f2; word_ops; reflexivity. Qed.

Lemma compress_small_spec data h : compress_small data h = bmw_compress 32 data h.
Proof.
  unfold compress_small, bmw_compress; cbv zeta.
  change (read_words (dec_le 32) (wbytes 32) 16 data) with (read_words sph_dec32le 4 16 data).
  set (M := read_words sph_dec32le 4 16 data).
  change [_; _; _; _; _; _; _; _; _; _; _; _; _; _; _; _] with M.
  unfold MAKE_Qs; rewrite Qas_spec, Qbs_spec, T32_trunc, ROTL32_rotl; apply FOLD_spec.
Qed.

Lemma compress_big_spec data h : compress_big data h = bmw_compress 64 data h.
Proof.
  unfold compress_big, bmw_compress; cbv zeta.
  change (read_words (dec_le 64) (wbytes 64) 16 data) with (read_words sph_dec64le 8 16 data).
  set (M := read_words sph_dec64le 8 16 data).
  change [_; _; _; _; _; _; _; _; _; _; _; _; _; _; _; _] with M.
  unfold MAKE_Qb; rewrite Qab_spec, Qbb_spec, T64_trunc, ROTL64_rotl; apply FOLD_spec.
Qed.

Lemma Qas_small_spec M H : MAKE_Qas_small M H = MAKE_Qas M H.
Proof. reflexivity. Qed.

Lemma Qab_small_spec M H : MAKE_Qab_small M H = MAKE_Qab M H.
Proof. reflexivity. Qed.

Lemma compress_small_small_spec data h : compress_small_small data h = compress_small data h.
Proof. exact (f_equal (fun q => FOLD _ _ _ (MAKE_Qbs _ _ q)) (Qas_small_spec _ _)). Qed.

Lemma compress_big_small_spec data h : compress_big_small data h = compress_big data h.
Proof.
  refine (f_equal (FOLD _ _ _) _); unfold MAKE_Qb.
  exact (eq_trans (f_equal (MAKE_Qbb_small _ _) (Qab_small_spec _ _))
                  (eq_trans (Qbb_small_spec _ _ _) (eq_sym (Qbb_spec _ _ _)))).
Qed.

Lemma length_bmw_compress w blk h : length (bmw_compress w blk h) = 16%nat.
Proof. reflexivity. Qed.

#[local] Opaque bmw_compress compress_small compress_big.

(** ** The update and close functions, for either word size *)

Section Width.
Context (w : Z) (wb : nat) (comp : list Z -> list Z -> list Z) (final : list Z).

Abbreviation blen := (16 * wb)%nat.

Definition bupdate (sc : bmw_context) (data : list Z) : bmw_context :=
  let bc := SPH_T64 (bit_count (st sc) + SPH_T64 (Z.of_nat (length data) << 3)) in
  let r := core_loop blen comp (length data) (buf sc) (ptr sc) (bmwH (st sc)) data in
  Ctx (buf r) (ptr r) (Bmw (st r) bc).

(** The last message block and the chaining value before it. *)
Definition blast (sc : bmw_context) (ub n : Z) : list Z * list Z :=
  let z := 0x80 >> n in
  let b := upd (buf sc) (ptr sc) (((ub .& SPH_T32 (- z)) .| z) .& 0xFF) in
  let p := (ptr sc + 1)%nat in
  let h := bmwH (st sc) in
  let '(b, p, h) :=
    if (blen - 8 <? p)%nat then
      let b := memset b p 0 (blen - p) in
      (b, 0%nat, comp b h)
    else (b, p, h) in
  let b := memset b p 0 (blen - 8 - p) in
  (memcpy b (blen - 8) (sph_enc64le (SPH_T64 (bit_count (st sc) + n))) 8, h).

Definition bclose (sc : bmw_context) (ub n : Z) (k : nat) : bmw_context * list Z :=
  let (b, h) := blast sc ub n in
  let h2 := comp b h in
  let b := fold_left (fun b u => memcpy b (wb * u) (enc_le w (nth u h2 0)) wb) (seq 0 16) b in
  let h1 := comp b final in
  (Ctx b (ptr sc) (st sc), flat_map (fun u => enc_le w (nth (16 - k + u) h1 0)) (seq 0 k)).

Context (wb_big : (2 < wb)%nat) (enc_length : forall x, length (enc_le w x) = wb).
Context (comp_spec : forall b h, comp b h = bmw_compress w b h).

Abbreviation absorbed := (absorb blen (bmw_compress w)).

Lemma comp_length b h : length (comp b h) = 16%nat.
Proof. now rewrite comp_spec, length_bmw_compress. Qed.

(** The context stands for the message [m] absorbed from [iv]. *)
Definition binv (iv : list Z) (c : bmw_context) (m : list Z) : Prop :=
  length (buf c) = blen /\ (ptr c < blen)%nat /\
  (bmwH (st c), firstn (ptr c) (buf c)) = absorbed iv m /\
  bit_count (st c) = trunc 64 (8 * Z.of_nat (length m)).

Lemma absorb_comp s d : absorb blen comp s d = absorbed s d.
Proof.
  destruct (absorb_rel eq blen comp (bmw_compress w) s s d ltac:(lia)) as [E1 E2];
    [intros; subst; apply comp_spec | reflexivity |].
  destruct (absorb blen comp s d), (absorbed s d); cbn in *; congruence.
Qed.

Lemma bupdate_inv iv c m data : binv iv c m -> binv iv (bupdate c data) (m ++ data).
Proof.
  intros (Hb & Hp & Ha & Hc).
  destruct (core_loop_refines blen comp ltac:(lia) blen ltac:(lia)
              ltac:(intros b s Hl; now rewrite firstn_all2 by lia)
              (length data) (buf c) (ptr c) (bmwH (st c)) data Hb Hp ltac:(lia)) as [[Hl Hlt] Hr].
  unfold bupdate, binv; cbn [buf ptr st bmwH bit_count].
  split; [exact Hl|]; split; [exact Hlt|]; split.
  - unfold ctx_abs in Hr; rewrite absorb_comp in Hr; rewrite Hr.
    rewrite (absorb_app blen (bmw_compress w) ltac:(lia) iv m data), <- Ha; reflexivity.
  - rewrite Hc; change SPH_T64 with (trunc 64).
    rewrite length_app, Z.shiftl_mul_pow2, !trunc_mod, <- Zplus_mod by lia; f_equal; lia.
Qed.

Lemma bupdate_many iv chunks c m :
  binv iv c m -> binv iv (fold_left bupdate chunks c) (m ++ concat chunks).
Proof.
  revert c m; induction chunks as [|d chunks IH]; intros c m H; cbn [fold_left concat].
  - now rewrite app_nil_r.
  - rewrite app_assoc; now apply IH, bupdate_inv.
Qed.

(** [buf[p] = x; memset (buf + p + 1, 0, q - p - 1)] below [q]. *)
Lemma pad_prefix (b : list Z) p q x :
  length b = blen -> (p < q)%nat -> (q <= blen)%nat ->
  length (memset (upd b p x) (p + 1) 0 (q - (p + 1))) = blen /\
  firstn q (memset (upd b p x) (p + 1) 0 (q - (p + 1))) = firstn p b ++ x :: repeat 0 (q - 1 - p).
Proof.
  intros Hb Hp Hq.
  assert (Lu : length (upd b p x) = blen) by (rewrite length_upd; lia).
  split; [rewrite length_memset; lia|].
  unfold memset; replace q with (p + 1 + (q - (p + 1)))%nat at 1 by lia.
  rewrite firstn_memcpy by (rewrite ?repeat_length; lia).
  rewrite (firstn_all2 (repeat 0 _)) by (rewrite repeat_length; lia).
  unfold upd; rewrite firstn_memcpy by (cbn [length]; lia); rewrite <- app_assoc.
  now replace (q - (p + 1))%nat with (q - 1 - p)%nat by lia.
Qed.

Lemma length_field (b : list Z) x :
  length b = blen -> memcpy b (blen - 8) (sph_enc64le x) 8 = firstn (blen - 8) b ++ sph_enc64le x.
Proof.
  intros Hb; unfold memcpy; rewrite skipn_all2, app_nil_r by lia; reflexivity.
Qed.

Lemma blast_spec iv c m ub n :
  binv iv c m -> 0 <= n < 8 ->
  let (b, h) := blast c ub n in
  length b = blen /\ absorbed iv (bmw_pad blen m ub n) = (comp b h, []).
Proof.
  intros (Hb & Hp & Ha & Hc) Hn; unfold blast, bmw_pad; rewrite pad_byte by assumption.
  rewrite Hc, SPH_T64_trunc.
  assert (Et : trunc 64 (trunc 64 (8 * Z.of_nat (length m)) + n) = trunc 64 (8 * Z.of_nat (length m) + n)).
  { rewrite !trunc_mod, Zplus_mod_idemp_l by lia; reflexivity. }
  rewrite Et; set (E := sph_enc64le _); set (x := last_byte ub n).
  assert (LE : length E = 8%nat) by reflexivity.
  pose proof (absorb_rest_length blen (bmw_compress w) iv m ltac:(lia)) as Hr.
  rewrite <- Ha in Hr; cbn [snd] in Hr; rewrite length_firstn, Hb, Nat.min_l in Hr by lia; rewrite <- Hr.
  destruct (Nat.ltb_spec (blen - 8) (ptr c + 1)) as [Hc2|Hc2].
  - destruct (pad_prefix (buf c) (ptr c) blen x Hb Hp ltac:(lia)) as [L1 F1].
    rewrite firstn_all2 in F1 by lia.
    set (b1 := memset (upd (buf c) (ptr c) x) (ptr c + 1) 0 (blen - (ptr c + 1))) in *.
    assert (L2 : length (memset b1 0 0 (blen - 8 - 0)) = blen) by (rewrite length_memset; lia).
    assert (F2 : firstn (blen - 8) (memset b1 0 0 (blen - 8 - 0)) = repeat 0 (blen - 8)).
    { rewrite Nat.sub_0_r; unfold memset; change (firstn (blen - 8)) with (@firstn Z (0 + (blen - 8))).
      rewrite firstn_memcpy by (rewrite ?repeat_length; lia).
      now rewrite firstn_O, firstn_all2 by (rewrite repeat_length; lia). }
    assert (Hm : memcpy (memset b1 0 0 (blen - 8 - 0)) (blen - 8) E 8 = repeat 0 (blen - 8) ++ E)
      by (rewrite <- F2; now apply length_field).
    rewrite Hm; split; [rewrite length_app, repeat_length, LE; lia|].
    rewrite Nat.mod_small by lia.
    replace (2 * blen - 9 - ptr c)%nat with (blen - 1 - ptr c + (blen - 8))%nat by lia.
    set (d1 := [x] ++ repeat 0 (blen - 1 - ptr c)); set (d2 := repeat 0 (blen - 8) ++ E).
    replace (m ++ [x] ++ repeat 0 (blen - 1 - ptr c + (blen - 8)) ++ E) with ((m ++ d1) ++ d2)
      by (unfold d1, d2; rewrite repeat_app, <- !app_assoc; reflexivity).
    rewrite (absorb_app blen (bmw_compress w) ltac:(lia) iv (m ++ d1) d2).
    rewrite (absorb_tail blen (bmw_compress w) iv m d1), <- Ha; [| lia |].
    + cbn [fst snd]; rewrite app_nil_l, absorb_one
        by (lia || (unfold d2; rewrite length_app, repeat_length, LE; lia)).
      change (firstn (ptr c) (buf c) ++ d1) with (firstn (ptr c) (buf c) ++ x :: repeat 0 (blen - 1 - ptr c)).
      now rewrite <- F1, !comp_spec.
    + rewrite <- Ha; cbn [snd]; unfold d1; rewrite length_app, length_firstn, repeat_length; cbn [length]; lia.
  - destruct (pad_prefix (buf c) (ptr c) (blen - 8) x Hb ltac:(lia) ltac:(lia)) as [L1 F1].
    set (b1 := memset (upd (buf c) (ptr c) x) (ptr c + 1) 0 (blen - 8 - (ptr c + 1))) in *.
    assert (Hm : memcpy b1 (blen - 8) E 8
                 = (firstn (ptr c) (buf c) ++ x :: repeat 0 (blen - 8 - 1 - ptr c)) ++ E)
      by (rewrite <- F1; now apply length_field).
    rewrite Hm; split; [rewrite length_app, LE, length_app, length_firstn; cbn [length]; rewrite repeat_length; lia|].
    replace (2 * blen - 9 - ptr c)%nat with (blen - 8 - 1 - ptr c + 1 * blen)%nat by lia.
    rewrite Nat.Div0.mod_add, Nat.mod_small by lia.
    rewrite absorb_tail, <- Ha by
      (lia || rewrite <- Ha; cbn [snd]; rewrite !length_app, length_firstn, repeat_length, LE; cbn [length]; lia).
    cbn [fst snd]; rewrite comp_spec, <- app_assoc; reflexivity.
Qed.

(** The chaining value written over the buffer. *)
Lemma overwrite (b h : list Z) k :
  length b = blen -> (k <= 16)%nat ->
  fold_left (fun b u => memcpy b (wb * u) (enc_le w (nth u h 0)) wb) (seq 0 k) b
  = flat_map (fun u => enc_le w (nth u h 0)) (seq 0 k) ++ skipn (wb * k) b.
Proof.
  intros Hb; induction k as [|k IH]; intros Hk.
  - cbn [seq fold_left flat_map]; now rewrite Nat.mul_0_r.
  - rewrite seq_S, fold_left_app, flat_map_app, IH by lia; cbn [fold_left flat_map Nat.add].
    set (F := flat_map _ _).
    assert (LF : length F = (wb * k)%nat).
    { unfold F; rewrite (length_flat_map_const _ wb), length_seq by auto; lia. }
    unfold memcpy; rewrite firstn_app, LF, Nat.sub_diag, firstn_O, app_nil_r, firstn_all2 by lia.
    rewrite (firstn_all2 (enc_le w _)) by (rewrite enc_length; lia).
    rewrite skipn_app, LF, skipn_all2, app_nil_l, skipn_skipn by lia.
    rewrite app_nil_r, <- app_assoc; do 3 f_equal; lia.
Qed.

Lemma flat_map_enc h : length h = 16%nat ->
  flat_map (fun u => enc_le w (nth u h 0)) (seq 0 16) = flat_map (enc_le w) h.
Proof. intros Hh; rewrite flat_map_nth by lia; now rewrite firstn_all2 by lia. Qed.

Lemma flat_map_last h k : length h = 16%nat -> (k <= 16)%nat ->
  flat_map (fun u => enc_le w (nth (16 - k + u) h 0)) (seq 0 k) = flat_map (enc_le w) (skipn (16 - k) h).
Proof.
  intros Hh Hk; rewrite <- (firstn_all (skipn (16 - k) h)), length_skipn, Hh.
  replace (16 - (16 - k))%nat with k by lia; rewrite <- flat_map_nth by (rewrite length_skipn; lia).
  rewrite !flat_map_concat_map; f_equal; apply map_ext; intros u; now rewrite nth_skipn.
Qed.

Lemma bclose_spec iv c m ub n k :
  binv iv c m -> 0 <= n < 8 -> (k <= 16)%nat ->
  snd (bclose c ub n k)
  = flat_map (enc_le w) (skipn (16 - k)
      (bmw_compress w (flat_map (enc_le w) (fst (absorbed iv (bmw_pad blen m ub n)))) final))
  /\ length (buf (fst (bclose c ub n k))) = blen.
Proof.
  intros Hi Hn Hk; unfold bclose; pose proof (blast_spec iv c m ub n Hi Hn) as Hl.
  destruct (blast c ub n) as [b h]; destruct Hl as [Hb Ha]; cbn [fst snd buf].
  rewrite overwrite by (assumption || lia); rewrite Ha; cbn [fst].
  rewrite flat_map_enc, flat_map_last, (skipn_all2 b), app_nil_r by (apply comp_length || lia).
  rewrite (comp_spec _ final); split; [reflexivity|]; rewrite (length_flat_map_const _ wb), comp_length by apply enc_length; lia.
Qed.

Lemma binit_inv iv b : length b = blen -> binv iv (Ctx b 0 (Bmw iv 0)) [].
Proof.
  intros Hb; split; [exact Hb|]; split; [cbn; lia|]; split; [|reflexivity].
  rewrite absorb_short by (cbn; lia); reflexivity.
Qed.
End Width.

(** ** The four variants *)

Lemma bmw32_width : bmw32 = bupdate 4 compress_small.
Proof. reflexivity. Qed.

Lemma bmw64_width : bmw64 = bupdate 8 compress_big.
Proof. reflexivity. Qed.

Lemma bmw32_close_width sc ub n k : bmw32_close sc ub n k = bclose 32 4 compress_small final_s sc ub n k.
Proof.
  unfold bmw32_close, bclose, blast; change (enc_le 32) with sph_enc32le; change (16 * 4)%nat with 64%nat.
  destruct (64 - 8 <? ptr sc + 1)%nat; reflexivity.
Qed.

Lemma bmw64_close_width sc ub n k : bmw64_close sc ub n k = bclose 64 8 compress_big final_b sc ub n k.
Proof.
  unfold bmw64_close, bclose, blast; change (enc_le 64) with sph_enc64le; change (16 * 8)%nat with 128%nat.
  destruct (128 - 8 <? ptr sc + 1)%nat; reflexivity.
Qed.

Lemma bmw32_run d iv k c chunks ub n :
  length (buf c) = 64%nat -> 0 <= n < 8 -> (k <= 8)%nat -> d = 32 * Z.of_nat k -> iv = bmw_iv d ->
  let r := bmw32_close (fold_left bmw32 chunks (bmw32_init c iv)) ub n k in
  snd r = bmw_spec d (concat chunks) ub n /\ length (buf (fst r)) = 64%nat.
Proof.
  intros Hb Hn Hk -> ->; cbv zeta; rewrite bmw32_close_width, bmw32_width.
  destruct bmw_tables as (_ & _ & _ & _ & -> & _).
  destruct (bclose_spec 32 4 compress_small (bmw_final 32) ltac:(lia) ltac:(reflexivity) compress_small_spec
              (bmw_iv (32 * Z.of_nat k))
              (fold_left (bupdate 4 compress_small) chunks (bmw32_init c (bmw_iv (32 * Z.of_nat k))))
              (concat chunks) ub n k) as [E1 E2]; [|assumption | lia |].
  - apply (bupdate_many 32 4 compress_small ltac:(lia) compress_small_spec _ chunks _ []).
    apply binit_inv; [lia | assumption].
  - split; [|exact E2]; refine (eq_trans E1 _); unfold bmw_spec.
    replace (32 * Z.of_nat k <=? 256) with true by (symmetry; apply Z.leb_le; lia).
    rewrite (Z.mul_comm 32 (Z.of_nat k)) at 2; rewrite Z.div_mul, Nat2Z.id by lia; reflexivity.
Qed.

Lemma bmw64_run d iv k c chunks ub n :
  length (buf c) = 128%nat -> 0 <= n < 8 -> (4 < k <= 8)%nat -> d = 64 * Z.of_nat k -> iv = bmw_iv d ->
  let r := bmw64_close (fold_left bmw64 chunks (bmw64_init c iv)) ub n k in
  snd r = bmw_spec d (concat chunks) ub n /\ length (buf (fst r)) = 128%nat.
Proof.
  intros Hb Hn Hk -> ->; cbv zeta; rewrite bmw64_close_width, bmw64_width.
  destruct bmw_tables as (_ & _ & _ & _ & _ & ->).
  destruct (bclose_spec 64 8 compress_big (bmw_final 64) ltac:(lia) ltac:(reflexivity) compress_big_spec
              (bmw_iv (64 * Z.of_nat k))
              (fold_left (bupdate 8 compress_big) chunks (bmw64_init c (bmw_iv (64 * Z.of_nat k))))
              (concat chunks) ub n k) as [E1 E2]; [|assumption | lia |].
  - apply (bupdate_many 64 8 compress_big ltac:(lia) compress_big_spec _ chunks _ []).
    apply binit_inv; [lia | assumption].
  - split; [|exact E2]; refine (eq_trans E1 _); unfold bmw_spec.
    replace (64 * Z.of_nat k <=? 256) with false by (symmetry; apply Z.leb_gt; lia).
    rewrite (Z.mul_comm 64 (Z.of_nat k)) at 2; rewrite Z.div_mul, Nat2Z.id by lia; reflexivity.
Qed.

(** ** Properties *)

(** C32: BMW-224/256 and BMW-384/512: whatever the context held before, however
    the message is cut into chunks, and for up to seven extra bits, the digest is
    the one of the Blue Midnight Wish specification (padding with the bit length
    modulo 2^64, compression of every block, finalisation). *)
Theorem bmw_correct (c c' : bmw_context) (chunks : list (list Z)) (ub n : Z) :
  length (buf c) = 64%nat -> length (buf c') = 128%nat -> 0 <= n < 8 ->
  let m := concat chunks in
  fst (sph_bmw224_addbits_and_close (fold_left sph_bmw224 chunks (sph_bmw224_init c)) ub n)
    = bmw_spec 224 m ub n
  /\ fst (sph_bmw256_addbits_and_close (fold_left sph_bmw256 chunks (sph_bmw256_init c)) ub n)
    = bmw_spec 256 m ub n
  /\ fst (sph_bmw384_addbits_and_close (fold_left sph_bmw384 chunks (sph_bmw384_init c')) ub n)
    = bmw_spec 384 m ub n
  /\ fst (sph_bmw512_addbits_and_close (fold_left sph_bmw512 chunks (sph_bmw512_init c')) ub n)
    = bmw_spec 512 m ub n.
Proof.
  intros Hb Hb' Hn m; destruct bmw_tables as (E1 & E2 & E3 & E4 & _).
  unfold sph_bmw224_addbits_and_close, sph_bmw256_addbits_and_close,
    sph_bmw384_addbits_and_close, sph_bmw512_addbits_and_close.
  rewrite !let_pair_fst; cbn [fst snd]; split; [|split; [|split]].
  - exact (proj1 (bmw32_run 224 IV224 7 c chunks ub n Hb Hn ltac:(lia) eq_refl E1)).
  - exact (proj1 (bmw32_run 256 IV256 8 c chunks ub n Hb Hn ltac:(lia) eq_refl E2)).
  - exact (proj1 (bmw64_run 384 IV384 6 c' chunks ub n Hb' Hn ltac:(lia) eq_refl E3)).
  - exact (proj1 (bmw64_run 512 IV512 8 c' chunks ub n Hb' Hn ltac:(lia) eq_refl E4)).
Qed.

Lemma bmw_correct_witness :
  let c := Ctx (repeat 0xAA 64) 5 (Bmw [] 7) in
  let c' := Ctx (repeat 0x55 128) 9 (Bmw [] 7) in
  let chunks := [[1; 2; 3]; repeat 7 70; [9]] in
  fst (sph_bmw224_addbits_and_close (fold_left sph_bmw224 chunks (sph_bmw224_init c)) 0xC0 3)
    = bmw_spec 224 (concat chunks) 0xC0 3.
Proof.
  intros c c' chunks; refine (proj1 (bmw_correct c c' chunks 0xC0 3 eq_refl eq_refl _)); lia.
Defined.

(** The compression functions, with token-pasted argument lists and with the
    index arithmetic and loops of SPH_SMALL_FOOTPRINT_BMW, are the composition
    f2 o f1 o f0 of the specification. *)
Theorem bmw_compress_equiv (data h : list Z) :
  compress_small data h = bmw_compress 32 data h
  /\ compress_big data h = bmw_compress 64 data h
  /\ compress_small_small data h = compress_small data h
  /\ compress_big_small data h = compress_big data h.
Proof.
  split; [apply compress_small_spec|]; split; [apply compress_big_spec|].
  split; [apply compress_small_small_spec | apply compress_big_small_spec].
Qed.

(** BMW-512 behind the common interface. *)
#[export, refine] Instance bmw512_hash : StreamHash := {|
  hctx := bmw_context;
  hctx_ok c := length (buf c) = 128%nat;
  hinit := sph_bmw512_init;
  hupdate := sph_bmw512;
  hclose := sph_bmw512_close;
  hlen := 64;
  digest m := bmw_spec 512 m 0 0
|}.
Proof.
  - intros c H; exact H.
  - intros c chunks H _ _; unfold sph_bmw512_close, sph_bmw512_addbits_and_close.
    rewrite let_pair_fst; cbn [fst snd]; destruct bmw_tables as (_ & _ & _ & E4 & _).
    exact (bmw64_run 512 IV512 8 c chunks 0 0 H ltac:(lia) ltac:(lia) eq_refl E4).
  - intros m; unfold bmw_spec; rewrite (length_flat_map_const _ 8) by reflexivity.
    now rewrite length_skipn, length_bmw_compress.
  - intros m; apply words_flat_map; intros; apply sph_enc64le_bytes.
Defined.
