(* ===== verification/HashLib.v ===== *)
(** * HashLib: lemmas shared by the hash functions of hashblock.h

    Arrays of words as bytes, the number of blocks absorbed, and lengths
    written as padding. *)

From Stdlib Require Import ZArith List Lia Bool.
From S2P Require Import Prelude SphTypes Stream.
Import ListNotations.

Open Scope Z_scope.
Open Scope word_scope.

(** ** Words and bytes *)

Section Words.
Context (size : nat) (dec : list Z -> Z) (enc : Z -> list Z).
Context (dec_combine : forall src, (size <= length src)%nat -> dec src = le_combine (firstn size src)) (enc_split : forall x, enc x = le_split size x).

Lemma enc_dec l : words 8 l -> (size <= length l)%nat -> enc (dec l) = firstn size l.
Proof.
  intros Hw Hl; rewrite dec_combine, enc_split by assumption.
  assert (E : length (firstn size l) = size) by (rewrite length_firstn; lia).
  rewrite <- E at 1; apply le_split_combine; auto with word.
Qed.

Lemma enc_read_words n l : words 8 l -> (size * n <= length l)%nat -> flat_map enc (read_words dec size n l) = firstn (size * n) l.
Proof.
  intros Hw; induction n as [|n IH]; intros Hl; [now rewrite Nat.mul_0_r|].
  unfold read_words in *; rewrite seq_S, map_app, flat_map_app, IH by lia; cbn [map flat_map Nat.add].
  rewrite app_nil_r, enc_dec by (auto with word || rewrite length_skipn; lia).
  replace (size * S n)%nat with (size * n + size)%nat by lia.
  now rewrite <- (firstn_skipn (size * n) (firstn (size * n + size) l)), firstn_firstn, Nat.min_l, <- firstn_skipn_comm by lia.
Qed.

Lemma dec_enc x : inw (8 * Z.of_nat size) x -> dec (enc x) = x.
Proof.
  intros Hx; rewrite enc_split, dec_combine by (rewrite length_le_split; lia).
  rewrite firstn_all2 by (rewrite length_le_split; lia); rewrite le_combine_split; apply trunc_small; [lia | exact Hx].
Qed.

Lemma read_words_firstn n m l : (size * n <= m)%nat -> (m <= length l)%nat -> read_words dec size n (firstn m l) = read_words dec size n l.
Proof.
  intros Hn Hm; unfold read_words; apply map_ext_in; intros i Hi; apply in_seq in Hi; rewrite skipn_firstn_comm.
  assert (size * i + size <= m)%nat by nia.
  rewrite !dec_combine by (rewrite ?length_firstn, ?length_skipn; lia); now rewrite firstn_firstn, Nat.min_l by lia.
Qed.
End Words.

Definition enc_words64 := enc_read_words 8 sph_dec64le sph_enc64le sph_dec64le_combine sph_enc64le_split.
Definition enc_words32 := enc_read_words 4 sph_dec32le sph_enc32le sph_dec32le_combine sph_enc32le_split.

Lemma le_split_plus n k x : le_split (n + k) x = le_split n x ++ le_split k (x >> (8 * Z.of_nat n)).
Proof.
  revert x; induction n as [|n IH]; intros x; [now rewrite Z.mul_0_r, Z.shiftr_0_r|]; cbn [Nat.add le_split app]; rewrite IH.
  do 2 f_equal; rewrite Z.shiftr_shiftr by lia; f_equal; f_equal; lia.
Qed.

Lemma le_split_trunc n w x : 8 * Z.of_nat n <= w -> le_split n (trunc w x) = le_split n x.
Proof.
  revert w x; induction n as [|n IH]; intros w x Hw; [reflexivity|]; cbn [le_split]; f_equal.
  - apply (inw_ext 8); [lia | apply u8_inw | apply u8_inw|]; intros i Hi; rewrite !u8_trunc, !(trunc_spec 8), trunc_spec by lia; rewrite (proj2 (Z.ltb_lt i w)) by lia; reflexivity.
  - rewrite <- (IH (w - 8) (x >> 8)) by lia; f_equal; apply Z.bits_inj'; intros i Hi; rewrite Z.shiftr_spec, !trunc_spec, Z.shiftr_spec by lia.
    f_equal; apply eq_iff_eq_true; rewrite !Z.ltb_lt; lia.
Qed.

(** A number of at most 128 bits in big-endian order, from two words. *)
Lemma be_128 x : sph_enc64be (SPH_T64 (x >> 64)) ++ sph_enc64be (SPH_T64 x) = rev (le_split 16 x).
Proof.
  rewrite !sph_enc64be_rev, !sph_enc64le_split, <- rev_app_distr, T64_trunc, !(le_split_trunc 8 64) by lia.
  f_equal; symmetry; exact (le_split_plus 8 8 x).
Qed.

(** ** Blocks *)

Lemma iter_next {A} (f : A -> A) n x : iter (S n) f x = f (iter n f x).
Proof. revert x; induction n as [|n IH]; intros x; [reflexivity|]; exact (IH (f x)). Qed.

(** A component of the state that counts the blocks. *)
Lemma absorb_blocks {St} blen (process : list Z -> St -> St) (count : St -> Z) s data : (0 < blen)%nat ->
  (forall b s, count (process b s) = trunc 64 (count s + 1)) ->
  trunc 64 (count (fst (absorb blen process s data))) = trunc 64 (count s + Z.of_nat (length data / blen)).
Proof.
  intros Hb Hp; revert s; induction data as [data H|blk data H IH] using (block_ind blen Hb); intros s.
  - rewrite absorb_short, Nat.div_small by assumption; now rewrite Z.add_0_r.
  - rewrite absorb_block, IH, Hp, length_app, H by assumption; rewrite !trunc_mod, Z.add_mod_idemp_l by lia; f_equal.
    replace (blen + length data)%nat with (length data + 1 * blen)%nat by lia; rewrite Nat.div_add by lia; lia.
Qed.

(** The pending bytes, and their number. *)
Lemma absorb_rest_ptr {St} blen (process : list Z -> St -> St) s data (b : list Z) p : (0 < blen)%nat -> (p <= length b)%nat ->
  snd (absorb blen process s data) = firstn p b -> p = (length data mod blen)%nat.
Proof. intros Hb Hp E; rewrite <- (absorb_rest_length blen process s data Hb), E, length_firstn; lia. Qed.

(** ** Counters of message bits

    Several functions feed each block with the number of message bits up to its
    end, or with zero if it has none (only padding). *)
Definition message_counter (blen : nat) (L i : Z) : Z :=
  let b := 8 * Z.of_nat blen in if b * i <? L then Z.min L (b * (i + 1)) else 0.

Section Counted.
Context {St : Type} (blen : nat) (comp : Z -> list Z -> St -> St) (blen_pos : (0 < blen)%nat).

Definition counted (L : Z) (blk : list Z) (s : St * Z) : St * Z := (comp (message_counter blen L (snd s)) blk (fst s), snd s + 1).
Definition full_block (blk : list Z) (s : St * Z) : St * Z := (comp (8 * Z.of_nat blen * (snd s + 1)) blk (fst s), snd s + 1).

Lemma counted_prefix L m : forall s i, 0 <= i -> 8 * Z.of_nat blen * i + 8 * Z.of_nat (length m) <= L ->
  absorb blen (counted L) (s, i) m = absorb blen full_block (s, i) m.
Proof.
  induction m as [m Hm|blk m Hb IH] using (block_ind blen blen_pos); intros s i Hi HL; [now rewrite !absorb_short|].
  rewrite length_app, Hb in HL; rewrite !absorb_block by assumption; unfold counted at 2, full_block at 2; cbn [fst snd].
  replace (message_counter blen L i) with (8 * Z.of_nat blen * (i + 1)); [apply IH; lia|].
  unfold message_counter; destruct (Z.ltb_spec (8 * Z.of_nat blen * i) L); lia.
Qed.

Lemma full_block_count m : forall s i, snd (fst (absorb blen full_block (s, i) m)) = i + Z.of_nat (length m / blen).
Proof.
  induction m as [m Hm|blk m Hb IH] using (block_ind blen blen_pos); intros s i.
  - rewrite absorb_short, Nat.div_small by assumption; cbn [fst snd]; lia.
  - rewrite absorb_block, length_app, Hb by assumption; unfold full_block at 2; cbn [fst snd]; rewrite IH.
    replace (blen + length m)%nat with (length m + 1 * blen)%nat by lia; rewrite Nat.div_add by lia; lia.
Qed.

(** The last block that holds message bits, or only padding, and a further block
    of padding. *)
Lemma counted_final s (m : list Z) n (tail blk2 : list Z) :
  0 <= n < 8 -> (length (snd (absorb blen full_block (s, 0%Z) m)) + length tail = blen)%nat ->
  let L := 8 * Z.of_nat (length m) + n in
  let a := absorb blen full_block (s, 0) m in
  let c := if (length m mod blen =? 0)%nat && (n =? 0) then 0 else L in
  fst (fst (absorb blen (counted L) (s, 0) (m ++ tail))) = comp c (snd a ++ tail) (fst (fst a))
  /\ (length blk2 = blen -> fst (fst (absorb blen (counted L) (s, 0) (m ++ tail ++ blk2))) = comp 0 blk2 (comp c (snd a ++ tail) (fst (fst a)))).
Proof.
  intros Hn Ht L a c; pose proof (counted_prefix L m s 0 ltac:(lia) ltac:(unfold L; lia)) as Ep; fold a in Ep, Ht.
  pose proof (Nat.div_mod_eq (length m) blen) as Hd; pose proof (Nat.mod_upper_bound (length m) blen ltac:(lia)) as Hr.
  pose proof (full_block_count m s 0) as Ec; fold a in Ec; rewrite Z.add_0_l in Ec.
  assert (Ecur : message_counter blen L (snd (fst a)) = c).
  { rewrite Ec; unfold message_counter, c, L; set (q := (length m / blen)%nat) in *; set (r := (length m mod blen)%nat) in *.
    destruct (Nat.eqb_spec r 0), (Z.eqb_spec n 0); cbn [andb]; destruct (Z.ltb_spec (8 * Z.of_nat blen * Z.of_nat q) (8 * Z.of_nat (length m) + n)); nia. }
  assert (Enext : message_counter blen L (snd (fst a) + 1) = 0).
  { rewrite Ec; unfold message_counter, L; set (q := (length m / blen)%nat) in *; set (r := (length m mod blen)%nat) in *.
    destruct (Z.ltb_spec (8 * Z.of_nat blen * (Z.of_nat q + 1)) (8 * Z.of_nat (length m) + n)); nia. }
  assert (E1 : absorb blen (counted L) (s, 0) (m ++ tail) = (counted L (snd a ++ tail) (fst a), [])).
  { rewrite absorb_tail; [now rewrite Ep | assumption | now rewrite Ep]. }
  split; [rewrite E1; unfold counted; cbn [fst snd]; now rewrite Ecur|].
  intros H2; rewrite app_assoc, absorb_app, E1 by assumption; cbn [fst snd app]; rewrite absorb_one by assumption.
  unfold counted; cbn [fst snd]; now rewrite Ecur, Enext.
Qed.
End Counted.

(** ** Counters of 128 bits in four words *)
Definition quad (c : Z) : Z * Z * Z * Z := (trunc 32 c, trunc 32 (c >> 32), trunc 32 (c >> 64), trunc 32 (c >> 96)).

Lemma quad_bytes c : let '(c0, c1, c2, c3) := quad c in flat_map sph_enc32le [c0; c1; c2; c3] = le_split 16 c.
Proof.
  unfold quad; cbn [flat_map]; rewrite app_nil_r, !sph_enc32le_split, !(le_split_trunc 4 32) by lia.
  change 16%nat with (4 + (4 + (4 + 4)))%nat; rewrite !le_split_plus, !Z.shiftr_shiftr by lia; reflexivity.
Qed.

Lemma quad_words c : let '(c0, c1, c2, c3) := quad c in inw 32 c0 /\ inw 32 c1 /\ inw 32 c2 /\ inw 32 c3.
Proof. unfold quad; repeat split; apply trunc_inw; lia. Qed.

(** A carry: adding less than [2^32] to the low word. *)
Definition quad_add (v : Z) (q : Z * Z * Z * Z) : Z * Z * Z * Z :=
  let '(c0, c1, c2, c3) := q in
  let c0 := SPH_T32 (c0 + v) in
  if c0 <? v then
    let c1 := SPH_T32 (c1 + 1) in
    if c1 =? 0 then
      let c2 := SPH_T32 (c2 + 1) in
      if c2 =? 0 then (c0, c1, c2, SPH_T32 (c3 + 1)) else (c0, c1, c2, c3)
    else (c0, c1, c2, c3)
  else (c0, c1, c2, c3).

Lemma low_carry B c v : 1 < B -> 0 <= v < B -> (c mod B + v) mod B = (c + v) mod B /\ (c + v) / B = c / B + Z.b2z ((c + v) mod B <? v).
Proof.
  intros HB Hv; rewrite Z.add_mod_idemp_l by lia; split; [reflexivity|].
  pose proof (Z.div_mod c B ltac:(lia)); pose proof (Z.mod_pos_bound c B ltac:(lia)).
  pose proof (Z.div_mod (c + v) B ltac:(lia)); pose proof (Z.mod_pos_bound (c + v) B ltac:(lia)).
  destruct (Z.ltb_spec ((c + v) mod B) v); cbn [Z.b2z]; nia.
Qed.

Lemma high_carry B c : 1 < B -> (c mod B + 1) mod B = (c + 1) mod B /\ (c + 1) / B = c / B + Z.b2z ((c + 1) mod B =? 0).
Proof.
  intros HB; destruct (low_carry B c 1 HB ltac:(lia)) as [E1 E2]; split; [exact E1|]; rewrite E2; do 2 f_equal.
  pose proof (Z.mod_pos_bound (c + 1) B ltac:(lia)); apply eq_iff_eq_true; rewrite Z.ltb_lt, Z.eqb_eq; lia.
Qed.

Lemma quad_digits c : quad c = (c mod 2 ^ 32, (c / 2 ^ 32) mod 2 ^ 32, (c / 2 ^ 32 / 2 ^ 32) mod 2 ^ 32, (c / 2 ^ 32 / 2 ^ 32 / 2 ^ 32) mod 2 ^ 32).
Proof. unfold quad; rewrite !trunc_mod, !Z.shiftr_div_pow2, !Z.div_div by lia; reflexivity. Qed.

Lemma quad_add_spec v c : 0 <= v < 2 ^ 32 -> quad_add v (quad c) = quad (c + v).
Proof.
  intros Hv; rewrite !quad_digits; unfold quad_add; rewrite T32_trunc, !trunc_mod by lia.
  set (B := 2 ^ 32) in *; assert (HB : 1 < B) by (unfold B; lia); clearbody B.
  destruct (low_carry B c v HB Hv) as [E1 E2]; rewrite E1, E2; destruct (_ <? v); cbn [Z.b2z]; [|now rewrite !Z.add_0_r].
  destruct (high_carry B (c / B) HB) as [E3 E4]; rewrite E3, E4; destruct (_ =? 0); cbn [Z.b2z]; [|now rewrite !Z.add_0_r].
  destruct (high_carry B (c / B / B) HB) as [E5 E6]; rewrite E5, E6; destruct (_ =? 0); cbn [Z.b2z]; [|now rewrite !Z.add_0_r].
  now rewrite (proj1 (high_carry B (c / B / B / B) HB)).
Qed.

(** ** Writing into the middle of a buffer *)
Lemma memcpy_mid {A} (a b c d : list A) : length d = length b -> memcpy (a ++ b ++ c) (length a) d (length b) = a ++ d ++ c.
Proof.
  intros Hd; unfold memcpy; rewrite firstn_app, firstn_all, Nat.sub_diag, firstn_O, app_nil_r, (firstn_all2 d) by lia.
  replace (length a + length b)%nat with (length (a ++ b)) by apply length_app; rewrite (app_assoc a b c), skipn_app, skipn_all, Nat.sub_diag; reflexivity.
Qed.

Lemma memset_zero (b : list Z) k : length b = k -> memset b 0 0 k = repeat 0 k.
Proof.
  intros Hb; unfold memset, memcpy; rewrite firstn_O, Nat.add_0_l, skipn_all2, app_nil_r, app_nil_l by lia; apply firstn_all2; rewrite repeat_length; lia.
Qed.

Lemma memcpy_two {A} (b x y : list A) o : (o + length x + length y <= length b)%nat ->
  memcpy (memcpy b o x (length x)) (o + length x) y (length y) = memcpy b o (x ++ y) (length x + length y).
Proof.
  intros Hl; unfold memcpy at 1; rewrite firstn_memcpy by lia; rewrite (firstn_all y); unfold memcpy.
  rewrite !firstn_all, skipn_app, skipn_app, length_firstn, (skipn_all2 (firstn o b)), (skipn_all2 x) by (rewrite ?length_firstn; lia).
  rewrite !app_nil_l, skipn_skipn, (firstn_all2 (x ++ y)) by (rewrite length_app; lia); rewrite <- !app_assoc; do 4 f_equal; lia.
Qed.

Lemma memcpy_end {A} (b x : list A) o : (o + length x = length b)%nat -> memcpy b o x (length x) = firstn o b ++ x.
Proof. intros Hl; unfold memcpy; rewrite firstn_all, skipn_all2, app_nil_r by lia; reflexivity. Qed.

(** The end of a padded block: the byte with the last bits, zeros up to
    [last], and then [x]. *)
Lemma pad_then (b x : list Z) p last v : (p < last)%nat -> (last + length x = length b)%nat ->
  memcpy (memset (upd b p v) (S p) 0 (last - S p)) last x (length x) = (firstn p b ++ [v]) ++ repeat 0 (last - S p) ++ x.
Proof.
  intros Hp Hl; assert (Hu : length (upd b p v) = length b) by (apply length_upd; lia).
  rewrite memcpy_end by (rewrite length_memset; lia).
  replace last with (S p + (last - S p))%nat at 1 by lia; unfold memset; rewrite firstn_memcpy by (rewrite ?repeat_length; lia).
  rewrite (firstn_all2 (repeat 0 _)) by (rewrite repeat_length; lia); unfold upd; replace (S p) with (p + 1)%nat at 1 by lia; rewrite firstn_memcpy by (cbn; lia).
  now rewrite <- app_assoc.
Qed.

(** ** An update function without the short cut for little data *)
Definition loop {St} blen (process : list Z -> St -> St) (c : sctx St) (data : list Z) : sctx St :=
  core_loop blen process (length data) (buf c) (ptr c) (st c) data.

Lemma loop_core {St} blen (process : list Z -> St -> St) c data : (ptr c < blen)%nat -> loop blen process c data = core blen process c data.
Proof.
  intros Hp; unfold loop, core; destruct (Nat.ltb_spec (length data) (blen - ptr c)) as [Hs|]; [|reflexivity].
  destruct data as [|d data]; [cbn [length core_loop]; unfold memcpy; rewrite Nat.add_0_r, firstn_O, app_nil_l, firstn_skipn; reflexivity|].
  cbn [length core_loop]; change (S (length data)) with (length (d :: data)); rewrite (proj2 (Nat.ltb_lt _ _)) by lia.
  rewrite (proj2 (Nat.eqb_neq _ _)) by lia; rewrite skipn_all; now destruct (length data).
Qed.

Lemma loops_core {St} blen cap (process : list Z -> St -> St) chunks : (0 < blen)%nat -> (blen <= cap)%nat ->
  (forall b s, length b = cap -> process (firstn blen b) s = process b s) ->
  forall c, ctx_ok blen cap c -> fold_left (loop blen process) chunks c = fold_left (core blen process) chunks c.
Proof.
  intros Hb Hc Hl; induction chunks as [|d chunks IH]; intros c Hok; cbn [fold_left]; [reflexivity|].
  rewrite loop_core by apply Hok; apply IH; now apply core_ok.
Qed.

(** ** Results *)
Lemma swapped {A B} (p : A * B) : (let (x, y) := p in (y, x)) = (snd p, fst p).
Proof. now destruct p. Qed.

Lemma closed_fst {A B C} (f : A -> C) (p : A * B) : fst (let (x, y) := p in (y, f x)) = snd p.
Proof. now destruct p. Qed.

Lemma closed_snd {A B C} (f : A -> C) (p : A * B) : snd (let (x, y) := p in (y, f x)) = f (fst p).
Proof. now destruct p. Qed.

Lemma words_map_u8 m : words 8 m -> map u8 m = m.
Proof. induction 1 as [|b m Hb Hm IH]; cbn [map]; [reflexivity|]; rewrite IH, u8_trunc, trunc_small by (lia || assumption); reflexivity. Qed.
