(* ===== verification/Jh.v ===== *)
(** * Jh: model of jh.c

    JH-224/256/384/512 in the 64-bit bit-sliced form: eight planes of 128
    bits, each in two words; the S-box [Sb] and the linear layer [Lb] as
    Boolean operations on planes; the bit swaps [W0] to [W6] of the odd planes
    in place of the permutation of the specification; 42 rounds unrolled.
    JhSpec.v has the specification and the theorems. *)

From Stdlib Require Import ZArith List Lia Bool.
From S2P Require Import Prelude SphTypes Stream.
Import ListNotations.

Open Scope Z_scope.
Open Scope word_scope.

(** Words hold the bytes of a constant in little-endian order. *)
Definition C64e (x : Z) : Z :=
  (x >> 56) .| ((x >> 40) .& 0x000000000000FF00) .| ((x >> 24) .& 0x0000000000FF0000) .| ((x >> 8) .& 0x00000000FF000000)
  .| (SPH_T64 (x << 8) .& 0x000000FF00000000) .| (SPH_T64 (x << 24) .& 0x0000FF0000000000)
  .| (SPH_T64 (x << 40) .& 0x00FF000000000000) .| (SPH_T64 (x << 56) .& 0xFF00000000000000).

(** [~x] on [sph_u64]. *)
Definition not64 (x : Z) : Z := SPH_T64 (Z.lnot x).

Definition Sb (x0 x1 x2 x3 c : Z) : Z * Z * Z * Z :=
  let x3 := not64 x3 in
  let x0 := x0 .^ (c .& not64 x2) in
  let tmp := c .^ (x0 .& x1) in
  let x0 := x0 .^ (x2 .& x3) in
  let x3 := x3 .^ (not64 x1 .& x2) in
  let x1 := x1 .^ (x0 .& x2) in
  let x2 := x2 .^ (x0 .& not64 x3) in
  let x0 := x0 .^ (x1 .| x3) in
  let x3 := x3 .^ (x1 .& x2) in
  let x1 := x1 .^ (tmp .& x0) in
  let x2 := x2 .^ tmp in
  (x0, x1, x2, x3).

Definition Lb (x0 x1 x2 x3 x4 x5 x6 x7 : Z) : Z * Z * Z * Z * Z * Z * Z * Z :=
  let x4 := x4 .^ x1 in
  let x5 := x5 .^ x2 in
  let x6 := x6 .^ (x3 .^ x0) in
  let x7 := x7 .^ x0 in
  let x0 := x0 .^ x5 in
  let x1 := x1 .^ x6 in
  let x2 := x2 .^ (x7 .^ x4) in
  let x3 := x3 .^ x4 in
  (x0, x1, x2, x3, x4, x5, x6, x7).

Definition C : list Z :=
  [C64e 0x72d5dea2df15f867; C64e 0x7b84150ab7231557; C64e 0x81abd6904d5a87f6; C64e 0x4e9f4fc5c3d12b40;
   C64e 0xea983ae05c45fa9c; C64e 0x03c5d29966b2999a; C64e 0x660296b4f2bb538a; C64e 0xb556141a88dba231;
   C64e 0x03a35a5c9a190edb; C64e 0x403fb20a87c14410; C64e 0x1c051980849e951d; C64e 0x6f33ebad5ee7cddc;
   C64e 0x10ba139202bf6b41; C64e 0xdc786515f7bb27d0; C64e 0x0a2c813937aa7850; C64e 0x3f1abfd2410091d3;
   C64e 0x422d5a0df6cc7e90; C64e 0xdd629f9c92c097ce; C64e 0x185ca70bc72b44ac; C64e 0xd1df65d663c6fc23;
   C64e 0x976e6c039ee0b81a; C64e 0x2105457e446ceca8; C64e 0xeef103bb5d8e61fa; C64e 0xfd9697b294838197;
   C64e 0x4a8e8537db03302f; C64e 0x2a678d2dfb9f6a95; C64e 0x8afe7381f8b8696c; C64e 0x8ac77246c07f4214;
   C64e 0xc5f4158fbdc75ec4; C64e 0x75446fa78f11bb80; C64e 0x52de75b7aee488bc; C64e 0x82b8001e98a6a3f4;
   C64e 0x8ef48f33a9a36315; C64e 0xaa5f5624d5b7f989; C64e 0xb6f1ed207c5ae0fd; C64e 0x36cae95a06422c36;
   C64e 0xce2935434efe983d; C64e 0x533af974739a4ba7; C64e 0xd0f51f596f4e8186; C64e 0x0e9dad81afd85a9f;
   C64e 0xa7050667ee34626a; C64e 0x8b0b28be6eb91727; C64e 0x47740726c680103f; C64e 0xe0a07e6fc67e487b;
   C64e 0x0d550aa54af8a4c0; C64e 0x91e3e79f978ef19e; C64e 0x8676728150608dd4; C64e 0x7e9e5a41f3e5b062;
   C64e 0xfc9f1fec4054207a; C64e 0xe3e41a00cef4c984; C64e 0x4fd794f59dfa95d8; C64e 0x552e7e1124c354a5;
   C64e 0x5bdf7228bdfe6e28; C64e 0x78f57fe20fa5c4b2; C64e 0x05897cefee49d32e; C64e 0x447e9385eb28597f;
   C64e 0x705f6937b324314a; C64e 0x5e8628f11dd6e465; C64e 0xc71b770451b920e7; C64e 0x74fe43e823d4878a;
   C64e 0x7d29e8a3927694f2; C64e 0xddcb7a099b30d9c1; C64e 0x1d1b30fb5bdc1be0; C64e 0xda24494ff29c82bf;
   C64e 0xa4e7ba31b470bfff; C64e 0x0d324405def8bc48; C64e 0x3baefc3253bbd339; C64e 0x459fc3c1e0298ba0;
   C64e 0xe5c905fdf7ae090f; C64e 0x947034124290f134; C64e 0xa271b701e344ed95; C64e 0xe93b8e364f2f984a;
   C64e 0x88401d63a06cf615; C64e 0x47c1444b8752afff; C64e 0x7ebb4af1e20ac630; C64e 0x4670b6c5cc6e8ce6;
   C64e 0xa4d5a456bd4fca00; C64e 0xda9d844bc83e18ae; C64e 0x7357ce453064d1ad; C64e 0xe8a6ce68145c2567;
   C64e 0xa3da8cf2cb0ee116; C64e 0x33e906589a94999a; C64e 0x1f60b220c26f847b; C64e 0xd1ceac7fa0d18518;
   C64e 0x32595ba18ddd19d3; C64e 0x509a1cc0aaa5b446; C64e 0x9f3d6367e4046bba; C64e 0xf6ca19ab0b56ee7e;
   C64e 0x1fb179eaa9282174; C64e 0xe9bdf7353b3651ee; C64e 0x1d57ac5a7550d376; C64e 0x3a46c2fea37d7001;
   C64e 0xf735c1af98a4d842; C64e 0x78edec209e6b6779; C64e 0x41836315ea3adba8; C64e 0xfac33b4d32832c83;
   C64e 0xa7403b1f1c2747f3; C64e 0x5940f034b72d769a; C64e 0xe73e4e6cd2214ffd; C64e 0xb8fd8d39dc5759ef;
   C64e 0x8d9b0c492b49ebda; C64e 0x5ba2d74968f3700d; C64e 0x7d3baed07a8d5584; C64e 0xf5a5e9f0e4f88e65;
   C64e 0xa0b8a2f436103b53; C64e 0x0ca8079e753eec5a; C64e 0x9168949256e8884f; C64e 0x5bb05c55f8babc4c;
   C64e 0xe3bb3b99f387947b; C64e 0x75daf4d6726b1c5d; C64e 0x64aeac28dc34b36d; C64e 0x6c34a550b828db71;
   C64e 0xf861e2f2108d512a; C64e 0xe3db643359dd75fc; C64e 0x1cacbcf143ce3fa2; C64e 0x67bbd13c02e843b0;
   C64e 0x330a5bca8829a175; C64e 0x7f34194db416535c; C64e 0x923b94c30e794d1e; C64e 0x797475d7b6eeaf3f;
   C64e 0xeaa8d4f7be1a3921; C64e 0x5cf47e094c232751; C64e 0x26a32453ba323cd2; C64e 0x44a3174a6da6d5ad;
   C64e 0xb51d3ea6aff2c908; C64e 0x83593d98916b3c56; C64e 0x4cf87ca17286604d; C64e 0x46e23ecc086ec7f6;
   C64e 0x2f9833b3b1bc765e; C64e 0x2bd666a5efc4e62a; C64e 0x06f4b6e8bec1d436; C64e 0x74ee8215bcef2163;
   C64e 0xfdc14e0df453c969; C64e 0xa77d5ac406585826; C64e 0x7ec1141606e0fa16; C64e 0x7e90af3d28639d3f;
   C64e 0xd2c9f2e3009bd20c; C64e 0x5faace30b7d40c30; C64e 0x742a5116f2e03298; C64e 0x0deb30d8e3cef89a;
   C64e 0x4bc59e7bb5f17992; C64e 0xff51e66e048668d3; C64e 0x9b234d57e6966731; C64e 0xcce6a6f3170a7505;
   C64e 0xb17681d913326cce; C64e 0x3c175284f805a262; C64e 0xf42bcbb378471547; C64e 0xff46548223936a48;
   C64e 0x38df58074e5e6565; C64e 0xf2fc7c89fc86508e; C64e 0x31702e44d00bca86; C64e 0xf04009a23078474e;
   C64e 0x65a0ee39d1f73883; C64e 0xf75ee937e42c3abd; C64e 0x2197b2260113f86f; C64e 0xa344edd1ef9fdee7;
   C64e 0x8ba0df15762592d9; C64e 0x3c85f7f612dc42be; C64e 0xd8a7ec7cab27b07e; C64e 0x538d7ddaaa3ea8de;
   C64e 0xaa25ce93bd0269d8; C64e 0x5af643fd1a7308f9; C64e 0xc05fefda174a19a5; C64e 0x974d66334cfd216a;
   C64e 0x35b49831db411570; C64e 0xea1e0fbbedcd549b; C64e 0x9ad063a151974072; C64e 0xf6759dbf91476fe2].

Definition Ceven_hi (r : nat) : Z := nth (4 * r + 0) C 0.
Definition Ceven_lo (r : nat) : Z := nth (4 * r + 1) C 0.
Definition Codd_hi (r : nat) : Z := nth (4 * r + 2) C 0.
Definition Codd_lo (r : nat) : Z := nth (4 * r + 3) C 0.

(** One word of [Wz(x, c, n)]; the macro does both. *)
Definition Wz (x c n : Z) : Z :=
  let t := SPH_T64 ((x .& c) << n) in
  ((x >> n) .& c) .| t.

(** A plane: the words [h] and [l]. *)
Definition W (ro : nat) (x : Z * Z) : Z * Z :=
  let (h, l) := x in
  match ro with
  | 0%nat => (Wz h 0x5555555555555555 1, Wz l 0x5555555555555555 1)
  | 1%nat => (Wz h 0x3333333333333333 2, Wz l 0x3333333333333333 2)
  | 2%nat => (Wz h 0x0F0F0F0F0F0F0F0F 4, Wz l 0x0F0F0F0F0F0F0F0F 4)
  | 3%nat => (Wz h 0x00FF00FF00FF00FF 8, Wz l 0x00FF00FF00FF00FF 8)
  | 4%nat => (Wz h 0x0000FFFF0000FFFF 16, Wz l 0x0000FFFF0000FFFF 16)
  | 5%nat => (Wz h 0x00000000FFFFFFFF 32, Wz l 0x00000000FFFFFFFF 32)
  | _ => (l, h)
  end.

(** The local variables [h0h], [h0l], ..., [h7l]. *)
Inductive jvars := J (h0h h0l h1h h1l h2h h2l h3h h3l h4h h4l h5h h5l h6h h6l h7h h7l : Z).

Definition READ_STATE (H : list Z) : jvars :=
  J (nth 0 H 0) (nth 1 H 0) (nth 2 H 0) (nth 3 H 0) (nth 4 H 0) (nth 5 H 0) (nth 6 H 0) (nth 7 H 0) (nth 8 H 0) (nth 9 H 0) (nth 10 H 0) (nth 11 H 0) (nth 12 H 0) (nth 13 H 0) (nth 14 H 0) (nth 15 H 0).

Definition WRITE_STATE (s : jvars) : list Z :=
  let '(J h0h h0l h1h h1l h2h h2l h3h h3l h4h h4l h5h h5l h6h h6l h7h h7l) := s in
  [h0h; h0l; h1h; h1l; h2h; h2l; h3h; h3l; h4h; h4l; h5h; h5l; h6h; h6l; h7h; h7l].

Definition m_word (buf : list Z) (off : nat) : Z := sph_dec64le (skipn off buf).

Definition INPUT_BUF1 (buf : list Z) (s : jvars) : jvars :=
  let '(J h0h h0l h1h h1l h2h h2l h3h h3l h4h h4l h5h h5l h6h h6l h7h h7l) := s in
  J (h0h .^ m_word buf 0) (h0l .^ m_word buf 8) (h1h .^ m_word buf 16) (h1l .^ m_word buf 24) (h2h .^ m_word buf 32) (h2l .^ m_word buf 40) (h3h .^ m_word buf 48) (h3l .^ m_word buf 56) h4h h4l h5h h5l h6h h6l h7h h7l.

Definition INPUT_BUF2 (buf : list Z) (s : jvars) : jvars :=
  let '(J h0h h0l h1h h1l h2h h2l h3h h3l h4h h4l h5h h5l h6h h6l h7h h7l) := s in
  J h0h h0l h1h h1l h2h h2l h3h h3l (h4h .^ m_word buf 0) (h4l .^ m_word buf 8) (h5h .^ m_word buf 16) (h5l .^ m_word buf 24) (h6h .^ m_word buf 32) (h6l .^ m_word buf 40) (h7h .^ m_word buf 48) (h7l .^ m_word buf 56).

(** [S(h0, h2, h4, h6, Ceven_, r)], [S(h1, h3, h5, h7, Codd_, r)]. *)
Definition S_even (r : nat) (s : jvars) : jvars :=
  let '(J h0h h0l h1h h1l h2h h2l h3h h3l h4h h4l h5h h5l h6h h6l h7h h7l) := s in
  let '(h0h, h2h, h4h, h6h) := Sb h0h h2h h4h h6h (Ceven_hi r) in
  let '(h0l, h2l, h4l, h6l) := Sb h0l h2l h4l h6l (Ceven_lo r) in
  J h0h h0l h1h h1l h2h h2l h3h h3l h4h h4l h5h h5l h6h h6l h7h h7l.
Definition S_odd (r : nat) (s : jvars) : jvars :=
  let '(J h0h h0l h1h h1l h2h h2l h3h h3l h4h h4l h5h h5l h6h h6l h7h h7l) := s in
  let '(h1h, h3h, h5h, h7h) := Sb h1h h3h h5h h7h (Codd_hi r) in
  let '(h1l, h3l, h5l, h7l) := Sb h1l h3l h5l h7l (Codd_lo r) in
  J h0h h0l h1h h1l h2h h2l h3h h3l h4h h4l h5h h5l h6h h6l h7h h7l.

(** [L(h0, h2, h4, h6, h1, h3, h5, h7)]. *)
Definition L_layer (s : jvars) : jvars :=
  let '(J h0h h0l h1h h1l h2h h2l h3h h3l h4h h4l h5h h5l h6h h6l h7h h7l) := s in
  let '(h0h, h2h, h4h, h6h, h1h, h3h, h5h, h7h) := Lb h0h h2h h4h h6h h1h h3h h5h h7h in
  let '(h0l, h2l, h4l, h6l, h1l, h3l, h5l, h7l) := Lb h0l h2l h4l h6l h1l h3l h5l h7l in
  J h0h h0l h1h h1l h2h h2l h3h h3l h4h h4l h5h h5l h6h h6l h7h h7l.

(** [W ## ro] of [h1], [h3], [h5], [h7]. *)
Definition W_odd (ro : nat) (s : jvars) : jvars :=
  let '(J h0h h0l h1h h1l h2h h2l h3h h3l h4h h4l h5h h5l h6h h6l h7h h7l) := s in
  let (h1h, h1l) := W ro (h1h, h1l) in
  let (h3h, h3l) := W ro (h3h, h3l) in
  let (h5h, h5l) := W ro (h5h, h5l) in
  let (h7h, h7l) := W ro (h7h, h7l) in
  J h0h h0l h1h h1l h2h h2l h3h h3l h4h h4l h5h h5l h6h h6l h7h h7l.

Definition SLu (r ro : nat) (s : jvars) : jvars := W_odd ro (L_layer (S_odd r (S_even r s))).

(** [E8] unrolled. *)
Definition E8 (s : jvars) : jvars :=
  let s := SLu 0 0 s in
  let s := SLu 1 1 s in
  let s := SLu 2 2 s in
  let s := SLu 3 3 s in
  let s := SLu 4 4 s in
  let s := SLu 5 5 s in
  let s := SLu 6 6 s in
  let s := SLu 7 0 s in
  let s := SLu 8 1 s in
  let s := SLu 9 2 s in
  let s := SLu 10 3 s in
  let s := SLu 11 4 s in
  let s := SLu 12 5 s in
  let s := SLu 13 6 s in
  let s := SLu 14 0 s in
  let s := SLu 15 1 s in
  let s := SLu 16 2 s in
  let s := SLu 17 3 s in
  let s := SLu 18 4 s in
  let s := SLu 19 5 s in
  let s := SLu 20 6 s in
  let s := SLu 21 0 s in
  let s := SLu 22 1 s in
  let s := SLu 23 2 s in
  let s := SLu 24 3 s in
  let s := SLu 25 4 s in
  let s := SLu 26 5 s in
  let s := SLu 27 6 s in
  let s := SLu 28 0 s in
  let s := SLu 29 1 s in
  let s := SLu 30 2 s in
  let s := SLu 31 3 s in
  let s := SLu 32 4 s in
  let s := SLu 33 5 s in
  let s := SLu 34 6 s in
  let s := SLu 35 0 s in
  let s := SLu 36 1 s in
  let s := SLu 37 2 s in
  let s := SLu 38 3 s in
  let s := SLu 39 4 s in
  let s := SLu 40 5 s in
  let s := SLu 41 6 s in
  s.

(** [E8] of SPH_SMALL_FOOTPRINT_JH: the loop [for (r = 0; r < 42; r += 7)]. *)
Definition E8_small (s : jvars) : jvars :=
  fold_left (fun s r => SLu (r + 6) 6 (SLu (r + 5) 5 (SLu (r + 4) 4 (SLu (r + 3) 3 (SLu (r + 2) 2 (SLu (r + 1) 1 (SLu (r + 0) 0 s)))))))
    [0; 7; 14; 21; 28; 35]%nat s.

Definition IV224 : list Z :=
  [C64e 0x2dfedd62f99a98ac; C64e 0xae7cacd619d634e7; C64e 0xa4831005bc301216; C64e 0xb86038c6c9661494;
   C64e 0x66d9899f2580706f; C64e 0xce9ea31b1d9b1adc; C64e 0x11e8325f7b366e10; C64e 0xf994857f02fa06c1;
   C64e 0x1b4f1b5cd8c840b3; C64e 0x97f6a17f6e738099; C64e 0xdcdf93a5adeaa3d3; C64e 0xa431e8dec9539a68;
   C64e 0x22b4a98aec86a1e4; C64e 0xd574ac959ce56cf0; C64e 0x15960deab5ab2bbf; C64e 0x9611dcf0dd64ea6e].

Definition IV256 : list Z :=
  [C64e 0xeb98a3412c20d3eb; C64e 0x92cdbe7b9cb245c1; C64e 0x1c93519160d4c7fa; C64e 0x260082d67e508a03;
   C64e 0xa4239e267726b945; C64e 0xe0fb1a48d41a9477; C64e 0xcdb5ab26026b177a; C64e 0x56f024420fff2fa8;
   C64e 0x71a396897f2e4d75; C64e 0x1d144908f77de262; C64e 0x277695f776248f94; C64e 0x87d5b6574780296c;
   C64e 0x5c5e272dac8e0d6c; C64e 0x518450c657057a0f; C64e 0x7be4d367702412ea; C64e 0x89e3ab13d31cd769].

Definition IV384 : list Z :=
  [C64e 0x481e3bc6d813398a; C64e 0x6d3b5e894ade879b; C64e 0x63faea68d480ad2e; C64e 0x332ccb21480f8267;
   C64e 0x98aec84d9082b928; C64e 0xd455ea3041114249; C64e 0x36f555b2924847ec; C64e 0xc7250a93baf43ce1;
   C64e 0x569b7f8a27db454c; C64e 0x9efcbd496397af0e; C64e 0x589fc27d26aa80cd; C64e 0x80c08b8c9deb2eda;
   C64e 0x8a7981e8f8d5373a; C64e 0xf43967adddd17a71; C64e 0xa9b4d3bda475d394; C64e 0x976c3fba9842737f].

Definition IV512 : list Z :=
  [C64e 0x6fd14b963e00aa17; C64e 0x636a2e057a15d543; C64e 0x8a225e8d0c97ef0b; C64e 0xe9341259f2b3c361;
   C64e 0x891da0c1536f801e; C64e 0x2aa9056bea2b6d80; C64e 0x588eccdb2075baa6; C64e 0xa90f3a76baf83bf7;
   C64e 0x0169e60541e34a69; C64e 0x46b58a8e2e6fe65a; C64e 0x1047a7d0c1843c24; C64e 0x3b6e71b12d5ac199;
   C64e 0xcf57f6ec9db1f856; C64e 0xa706887c5716b156; C64e 0xe3c2fcdfe68517fb; C64e 0x545a4678cc8cdd4b].

(** The context: [H.wide] and [block_count]. *)
Record jh_state := JState { H_wide : list Z; block_count : Z }.
Abbreviation jh_context := (sctx jh_state).

Definition jh_init (sc : jh_context) (iv : list Z) : jh_context := Ctx (buf sc) 0 (JState iv 0).

(** A full buffer, with the local variables and the counter. *)
Definition jh_process (b : list Z) (s : jvars * Z) : jvars * Z :=
  let (h, bc) := s in
  let h := INPUT_BUF1 b h in
  let h := E8 h in
  let h := INPUT_BUF2 b h in
  (h, SPH_T64 (bc + 1)).

Definition jh_core (sc : jh_context) (data : list Z) : jh_context :=
  if (length data <? 64 - ptr sc)%nat then
    Ctx (memcpy (buf sc) (ptr sc) data (length data)) (ptr sc + length data) (st sc)
  else
    let r := core_loop 64 jh_process (length data) (buf sc) (ptr sc)
               (READ_STATE (H_wide (st sc)), block_count (st sc)) data in
    Ctx (buf r) (ptr r) (JState (WRITE_STATE (fst (st r))) (snd (st r))).

(** Returns the context, reset to [iv], and the bytes written to [dst].  The
    local buffer holds the padding, and then the digest. *)
Definition jh_close (sc : jh_context) (ub n : Z) (out_size_w32 : nat) (iv : list Z) : jh_context * list Z :=
  let z := 0x80 >> n in
  let b0 := ((ub .& SPH_T32 (- z)) .| z) .& 0xFF in
  let numz := if (ptr sc =? 0)%nat && (n =? 0) then 47%nat else (111 - ptr sc)%nat in
  let bc := block_count (st sc) in
  let l0 := SPH_T64 (SPH_T64 (bc << 9) + (Z.of_nat (ptr sc) << 3) + n) in
  let l1 := SPH_T64 (bc >> 55) in
  let pad := b0 :: repeat 0 numz ++ sph_enc64be l1 ++ sph_enc64be l0 in
  let sc := jh_core sc pad in
  let out := flat_map (fun u => sph_enc64le (nth (u + 8) (H_wide (st sc)) 0)) (seq 0 8) in
  (jh_init sc iv, firstn (4 * out_size_w32) (skipn (4 * (16 - out_size_w32)) out)).

Definition sph_jh224_init (cc : jh_context) := jh_init cc IV224.
Definition sph_jh224 (cc : jh_context) (data : list Z) := jh_core cc data.
Definition sph_jh224_addbits_and_close (cc : jh_context) (ub n : Z) :=
  let (cc, dst) := jh_close cc ub n 7 IV224 in (dst, cc).
Definition sph_jh224_close (cc : jh_context) := sph_jh224_addbits_and_close cc 0 0.

Definition sph_jh256_init (cc : jh_context) := jh_init cc IV256.
Definition sph_jh256 (cc : jh_context) (data : list Z) := jh_core cc data.
Definition sph_jh256_addbits_and_close (cc : jh_context) (ub n : Z) :=
  let (cc, dst) := jh_close cc ub n 8 IV256 in (dst, cc).
Definition sph_jh256_close (cc : jh_context) := sph_jh256_addbits_and_close cc 0 0.

Definition sph_jh384_init (cc : jh_context) := jh_init cc IV384.
Definition sph_jh384 (cc : jh_context) (data : list Z) := jh_core cc data.
Definition sph_jh384_addbits_and_close (cc : jh_context) (ub n : Z) :=
  let (cc, dst) := jh_close cc ub n 12 IV384 in (dst, cc).
Definition sph_jh384_close (cc : jh_context) := sph_jh384_addbits_and_close cc 0 0.

Definition sph_jh512_init (cc : jh_context) := jh_init cc IV512.
Definition sph_jh512 (cc : jh_context) (data : list Z) := jh_core cc data.
Definition sph_jh512_addbits_and_close (cc : jh_context) (ub n : Z) :=
  let (cc, dst) := jh_close cc ub n 16 IV512 in (dst, cc).
Definition sph_jh512_close (cc : jh_context) := sph_jh512_addbits_and_close cc 0 0.
