(* ===== verification/JhSpec.v ===== *)
(** * JhSpec: JH as specified, and the bit-sliced code

    The specification works on 256 four-bit elements: a choice of two S-boxes
    by the bits of a round constant, a linear map on pairs, and a permutation
    of the elements; the round constants come from the same construction on 64
    elements.  The code keeps the elements in place and
    swaps bits of the odd planes instead.  The two agree up to a permutation of
    the elements that depends on the round and is the identity after 42
    rounds. *)

From Stdlib Require Import ZArith List Lia Bool.
From S2P Require Import Prelude SphTypes Stream HashLib Jh.
Import ListNotations.

Open Scope Z_scope.
Open Scope word_scope.

(** ** The specification *)

Definition S0 : list Z := [9; 0; 4; 11; 13; 12; 3; 15; 1; 10; 2; 6; 7; 5; 8; 14].
Definition S1 : list Z := [3; 12; 6; 13; 5; 7; 1; 9; 15; 2; 0; 4; 11; 10; 14; 8].
Definition sbox (c : bool) (x : Z) : Z := nth (Z.to_nat x) (if c then S1 else S0) 0.

(** Multiplication by 2 in GF(16) modulo x^4 + x + 1. *)
Definition mul2 (x : Z) : Z := ((x << 1) .& 15) .^ (if Z.testbit x 3 then 3 else 0).
Definition mds (a b : Z) : Z * Z := let d := b .^ mul2 a in (a .^ mul2 d, d).

Fixpoint mds_layer (l : list Z) : list Z :=
  match l with
  | a :: b :: l => let (c, d) := mds a b in c :: d :: mds_layer l
  | _ => []
  end.

(** [permute p l]: element [i] of the result is element [p i] of [l]. *)
Definition permute {A} (d : A) (p : list nat) (l : list A) : list A := map (fun i => nth i l d) p.

(** The permutation of [n] elements, in three steps. *)
Definition pi_index (n : nat) : list nat :=
  map (fun i => if (i mod 4 =? 2)%nat then (i + 1)%nat else if (i mod 4 =? 3)%nat then (i - 1)%nat else i) (seq 0 n).
Definition P'_index (n : nat) : list nat :=
  map (fun i => if (i <? n / 2)%nat then (2 * i)%nat else (2 * (i - n / 2) + 1)%nat) (seq 0 n).
Definition phi_index (n : nat) : list nat :=
  map (fun i => if (i <? n / 2)%nat then i else if Nat.even i then (i + 1)%nat else (i - 1)%nat) (seq 0 n).
Definition P {A} (d : A) (n : nat) (l : list A) : list A :=
  permute d (phi_index n) (permute d (P'_index n) (permute d (pi_index n) l)).

Definition R (n : nat) (c : list bool) (l : list Z) : list Z := P 0 n (mds_layer (map2 sbox c l)).

(** The round constants: the digits of the square root of 2 after the point,
    then rounds on 64 elements. *)
Definition C0 : list Z :=
  [6; 10; 0; 9; 14; 6; 6; 7; 15; 3; 11; 12; 12; 9; 0; 8; 11; 2; 15; 11; 1; 3; 6; 6; 14; 10; 9; 5; 7; 13; 3; 14;
   3; 10; 13; 14; 12; 1; 7; 5; 1; 2; 7; 7; 5; 0; 9; 9; 13; 10; 2; 15; 5; 9; 0; 11; 0; 6; 6; 7; 3; 2; 2; 10].
Definition round_constant (r : nat) : list Z := iter r (R 64 (repeat false 64)) C0.
Definition nibble_bits (x : Z) : list bool := [Z.testbit x 3; Z.testbit x 2; Z.testbit x 1; Z.testbit x 0].
Definition round_bits (r : nat) : list bool := flat_map nibble_bits (round_constant r).

(** Elements of the state of 1024 bits. *)
Definition nib (b0 b1 b2 b3 : bool) : Z := 8 * Z.b2z b0 + 4 * Z.b2z b1 + 2 * Z.b2z b2 + Z.b2z b3.
Definition bit (a : list bool) (i : nat) : bool := nth i a false.
Definition group (a : list bool) : list Z :=
  flat_map (fun i => [nib (bit a i) (bit a (i + 256)) (bit a (i + 512)) (bit a (i + 768));
                      nib (bit a (i + 128)) (bit a (i + 384)) (bit a (i + 640)) (bit a (i + 896))]) (seq 0 128).
Definition degroup (q : list Z) : list bool :=
  flat_map (fun t => map (fun i => Z.testbit (nth (2 * i) q 0) (3 - Z.of_nat t)) (seq 0 128)
                  ++ map (fun i => Z.testbit (nth (2 * i + 1) q 0) (3 - Z.of_nat t)) (seq 0 128)) (seq 0 4).

Definition e8 (a : list bool) : list bool :=
  degroup (fold_left (fun q r => R 256 (round_bits r) q) (seq 0 42) (group a)).

(** The compression function. *)
Definition f8 (h m : list bool) : list bool :=
  map2 xorb (e8 (map2 xorb h (m ++ repeat false 512))) (repeat false 512 ++ m).

(** Bytes as bits, the first one most significant. *)
Definition byte_bits (b : Z) : list bool := map (fun k => Z.testbit b (7 - Z.of_nat k)) (seq 0 8).
Definition bits_of (bs : list Z) : list bool := flat_map byte_bits bs.
Definition byte_of (l : list bool) : Z := fold_left (fun x b => 2 * x + Z.b2z b) l 0.
Fixpoint bytes_of_bits (n : nat) (l : list bool) : list Z :=
  match n with
  | O => []
  | S n => byte_of (firstn 8 l) :: bytes_of_bits n (skipn 8 l)
  end.

Definition jh_block (b : list Z) (h : list bool) : list bool := f8 h (bits_of b).

(** The initial state: the length of the digest in 16 bits, then a block of
    zeros. *)
Definition jh_iv (d : Z) : list bool := jh_block (repeat 0 64) (bits_of ([d >> 8; d .& 255] ++ repeat 0 126)).

(** The padding of [m] with [n] more bits in [ub]: a one, at least 383 zeros, and the
    length in bits in 128 bits, up to a multiple of the block. *)
Definition jh_pad (m : list Z) (ub n : Z) : list Z :=
  let len := 8 * Z.of_nat (length m) + n in
  let zeros := if ((length m mod 64 =? 0)%nat && (n =? 0)) then 47%nat else (111 - length m mod 64)%nat in
  m ++ last_byte ub n :: repeat 0 zeros ++ rev (le_split 16 len).

Definition jh_spec (d : Z) (m : list Z) (ub n : Z) : list Z :=
  let h := fst (absorb 64 jh_block (jh_iv d) (jh_pad m ub n)) in
  let k := Z.to_nat (d / 8) in
  bytes_of_bits k (skipn (1024 - 8 * k) h).

(** ** The elements in the planes *)

(** Bit [p] of word [w] of the state, in the order of the specification. *)
Definition bit_at (w : Z) (p : nat) : bool := Z.testbit w (Z.lxor (Z.of_nat p) 7).
Definition word_bits (w : Z) : list bool := map (bit_at w) (seq 0 64).
Definition state_bits (s : jvars) : list bool := flat_map word_bits (WRITE_STATE s).

Section Planes.
Context (g : nat -> nat -> bool).
Definition elements (ce co : nat -> Z) : list Z := flat_map (fun j => [ce j; co j]) (seq 0 128).
Definition even_at (j : nat) : Z := let p := (j mod 64)%nat in let w := (j / 64)%nat in nib (g w p) (g (4 + w) p) (g (8 + w) p) (g (12 + w) p).
Definition odd_at (j : nat) : Z := let p := (j mod 64)%nat in let w := (j / 64)%nat in nib (g (2 + w) p) (g (6 + w) p) (g (10 + w) p) (g (14 + w) p).
Definition plane_bits : list bool := flat_map (fun w => map (g w) (seq 0 64)) (seq 0 16).

Lemma nth_rows k n : forall a i, (i < n * k)%nat ->
  nth i (flat_map (fun w => map (g w) (seq 0 k)) (seq a n)) false = g (a + i / k) (i mod k).
Proof.
  induction n as [|n IH]; intros a i Hi; [lia|]; cbn [seq flat_map]; destruct (Nat.lt_ge_cases i k) as [Hlt|Hge].
  - rewrite app_nth1 by (now rewrite length_map, length_seq); rewrite (nth_indep _ false (g a 0)) by (now rewrite length_map, length_seq).
    rewrite map_nth, seq_nth, Nat.div_small, Nat.mod_small by assumption; f_equal; lia.
  - rewrite app_nth2, length_map, length_seq, IH by (rewrite ?length_map, ?length_seq; lia).
    replace i with (i - k + 1 * k)%nat at 3 4 by lia; rewrite Nat.div_add, Nat.Div0.mod_add by lia; f_equal; lia.
Qed.

Lemma bit_planes i k c : (i < 128)%nat -> (c < 8)%nat -> k = (128 * c)%nat -> bit plane_bits (i + k) = g (2 * c + i / 64) (i mod 64).
Proof.
  intros Hi Hc ->; unfold bit, plane_bits; rewrite nth_rows by lia; replace (i + 128 * c)%nat with (i + 2 * c * 64)%nat by lia.
  rewrite Nat.div_add, Nat.Div0.mod_add by lia; f_equal; lia.
Qed.

Lemma group_planes : group plane_bits = elements even_at odd_at.
Proof.
  unfold group, elements; rewrite !flat_map_concat_map; apply (f_equal (@concat Z)), map_ext_in; intros i Hi; apply in_seq in Hi.
  pose proof (bit_planes i 0 0) as B0; rewrite Nat.add_0_r in B0; unfold even_at, odd_at.
  rewrite B0, (bit_planes i 128 1), (bit_planes i 256 2), (bit_planes i 384 3), (bit_planes i 512 4), (bit_planes i 640 5),
    (bit_planes i 768 6), (bit_planes i 896 7) by lia; reflexivity.
Qed.

Lemma nib_bit b0 b1 b2 b3 : Z.testbit (nib b0 b1 b2 b3) 3 = b0 /\ Z.testbit (nib b0 b1 b2 b3) 2 = b1
  /\ Z.testbit (nib b0 b1 b2 b3) 1 = b2 /\ Z.testbit (nib b0 b1 b2 b3) 0 = b3.
Proof. destruct b0, b1, b2, b3; repeat split. Qed.

Lemma jh_nth_pairs (ce co : nat -> Z) n : forall a j, (j < n)%nat ->
  nth (2 * j) (flat_map (fun j => [ce j; co j]) (seq a n)) 0 = ce (a + j)%nat /\ nth (2 * j + 1) (flat_map (fun j => [ce j; co j]) (seq a n)) 0 = co (a + j)%nat.
Proof.
  induction n as [|n IH]; intros a j Hj; [lia|]; cbn [seq flat_map app]; destruct j as [|j]; [rewrite Nat.add_0_r; now split|].
  replace (2 * S j)%nat with (S (S (2 * j))) by lia; cbn [nth Nat.add]; destruct (IH (S a) j ltac:(lia)) as [E1 E2].
  rewrite E1, E2; split; f_equal; lia.
Qed.

Lemma degroup_planes : degroup (elements even_at odd_at) = plane_bits.
Proof.
  assert (E : degroup (elements even_at odd_at) =
    flat_map (fun t => map (fun i => g (4 * t + i / 64) (i mod 64)) (seq 0 128) ++ map (fun i => g (4 * t + 2 + i / 64) (i mod 64)) (seq 0 128)) (seq 0 4)).
  { unfold degroup; rewrite !flat_map_concat_map; apply (f_equal (@concat bool)), map_ext_in; intros t Ht; apply in_seq in Ht.
    fold (elements even_at odd_at); f_equal; apply map_ext_in; intros i Hi; apply in_seq in Hi; unfold elements; destruct (jh_nth_pairs even_at odd_at 128 0 i ltac:(lia)) as [E1 E2];
      [rewrite E1; unfold even_at | rewrite E2; unfold odd_at]; cbv zeta; cbn [Nat.add];
      match goal with |- context [nib ?a ?b ?c ?d] => destruct (nib_bit a b c d) as (B3 & B2 & B1 & B0) end;
      destruct t as [|[|[|[|t]]]]; try lia; cbn -[nib Nat.div Nat.modulo Z.testbit]; assumption. }
  rewrite E; vm_compute; reflexivity.
Qed.
End Planes.

Definition at_state (s : jvars) (w p : nat) : bool := bit_at (nth w (WRITE_STATE s) 0) p.
Definition view (s : jvars) : list Z := elements (even_at (at_state s)) (odd_at (at_state s)).

Lemma state_planes s : state_bits s = plane_bits (at_state s).
Proof. now destruct s. Qed.

(** ** The layers on planes *)

Lemma not64_spec x i : 0 <= i < 64 -> Z.testbit (not64 x) i = negb (Z.testbit x i).
Proof. intros Hi; unfold not64; rewrite SPH_T64_trunc, trunc_spec, Z.lnot_spec by lia; now rewrite (proj2 (Z.ltb_lt i 64)) by lia. Qed.

(** The Boolean S-box, for each bit. *)
Lemma Sb_spec x0 x1 x2 x3 c i : 0 <= i < 64 ->
  let '(y0, y1, y2, y3) := Sb x0 x1 x2 x3 c in
  nib (Z.testbit y0 i) (Z.testbit y1 i) (Z.testbit y2 i) (Z.testbit y3 i)
  = sbox (Z.testbit c i) (nib (Z.testbit x0 i) (Z.testbit x1 i) (Z.testbit x2 i) (Z.testbit x3 i)).
Proof.
  intros Hi; unfold Sb.
  repeat first [rewrite Z.lxor_spec | rewrite Z.land_spec | rewrite Z.lor_spec | rewrite not64_spec by assumption].
  destruct (Z.testbit x0 i), (Z.testbit x1 i), (Z.testbit x2 i), (Z.testbit x3 i), (Z.testbit c i); reflexivity.
Qed.

Lemma Lb_spec x0 x1 x2 x3 x4 x5 x6 x7 i :
  let '(y0, y1, y2, y3, y4, y5, y6, y7) := Lb x0 x1 x2 x3 x4 x5 x6 x7 in
  (nib (Z.testbit y0 i) (Z.testbit y1 i) (Z.testbit y2 i) (Z.testbit y3 i), nib (Z.testbit y4 i) (Z.testbit y5 i) (Z.testbit y6 i) (Z.testbit y7 i))
  = mds (nib (Z.testbit x0 i) (Z.testbit x1 i) (Z.testbit x2 i) (Z.testbit x3 i)) (nib (Z.testbit x4 i) (Z.testbit x5 i) (Z.testbit x6 i) (Z.testbit x7 i)).
Proof.
  unfold Lb; rewrite !Z.lxor_spec.
  destruct (Z.testbit x0 i), (Z.testbit x1 i), (Z.testbit x2 i), (Z.testbit x3 i), (Z.testbit x4 i), (Z.testbit x5 i), (Z.testbit x6 i), (Z.testbit x7 i); reflexivity.
Qed.

(** A swap at distance [n] is a change of the index. *)
Definition swap_ok (c n : Z) : bool :=
  forallb (fun k => let i := Z.of_nat k in
    if Z.testbit c i then negb (Z.testbit c (i - n)) && (i + n =? Z.lxor i n) else Z.testbit c (i - n) && (i - n =? Z.lxor i n)) (seq 0 64).

Lemma Wz_spec x c n i : 0 <= n -> swap_ok c n = true -> 0 <= i < 64 -> Z.testbit (Wz x c n) i = Z.testbit x (Z.lxor i n).
Proof.
  intros Hn Hs Hi; unfold Wz; rewrite Z.lor_spec, Z.land_spec, Z.shiftr_spec, SPH_T64_trunc, trunc_spec, Z.shiftl_spec, Z.land_spec by lia.
  unfold swap_ok in Hs; rewrite forallb_forall in Hs; specialize (Hs (Z.to_nat i) ltac:(apply in_seq; lia)); cbv beta zeta in Hs; rewrite Z2Nat.id in Hs by lia.
  rewrite (proj2 (Z.ltb_lt i 64)) by lia; destruct (Z.testbit c i); apply andb_true_iff in Hs as [H1 H2]; apply Z.eqb_eq in H2.
  - rewrite H2; destruct (Z.testbit c (i - n)); [discriminate H1|]; rewrite andb_true_r, andb_false_r; apply orb_false_r.
  - rewrite H1, H2, andb_false_r, andb_true_r; reflexivity.
Qed.

Definition swap_index (ro j : nat) : nat := Nat.lxor j (2 ^ ro).

Lemma swap_index_check : forallb (fun ro => forallb (fun j =>
  let k := swap_index ro j in (k <? 128)%nat
  && if (ro <? 6)%nat then (k / 64 =? j / 64)%nat && (Z.lxor (Z.lxor (Z.of_nat (j mod 64)) 7) (2 ^ Z.of_nat ro) =? Z.lxor (Z.of_nat (k mod 64)) 7)
     else (k / 64 =? 1 - j / 64)%nat && (k mod 64 =? j mod 64)%nat) (seq 0 128)) (seq 0 7) = true.
Proof. vm_compute; reflexivity. Qed.

Lemma swap_index_lt ro j : (ro < 7)%nat -> (j < 128)%nat -> (swap_index ro j < 128)%nat.
Proof.
  intros Hr Hj; pose proof swap_index_check as H; rewrite forallb_forall in H; specialize (H ro ltac:(apply in_seq; lia)); rewrite forallb_forall in H.
  specialize (H j ltac:(apply in_seq; lia)); cbv beta zeta in H; apply andb_true_iff in H as [H _]; now apply Nat.ltb_lt.
Qed.

Lemma position_range p : (p < 64)%nat -> 0 <= Z.lxor (Z.of_nat p) 7 < 64.
Proof. intros Hp; apply (inw_lxor 6); [lia | split; [lia | cbn; lia] | unfold inw; cbn; lia]. Qed.

(** A plane [h], [l] before and after a swap. *)
Lemma W_spec ro h l j : (ro < 7)%nat -> (j < 128)%nat ->
  let (h', l') := W ro (h, l) in
  bit_at (if (j / 64 =? 0)%nat then h' else l') (j mod 64)
  = bit_at (if (swap_index ro j / 64 =? 0)%nat then h else l) (swap_index ro j mod 64).
Proof.
  intros Hr Hj; pose proof swap_index_check as H; rewrite forallb_forall in H; specialize (H ro ltac:(apply in_seq; lia)).
  rewrite forallb_forall in H; specialize (H j ltac:(apply in_seq; lia)); cbv beta zeta in H; apply andb_true_iff in H as [_ H].
  pose proof (Nat.mod_upper_bound j 64 ltac:(lia)) as Hm; pose proof (position_range _ Hm) as Hp.
  assert (Hd : (j / 64 < 2)%nat) by (apply Nat.Div0.div_lt_upper_bound; lia).
  assert (Hcase : forall c n x, n = 2 ^ Z.of_nat ro -> swap_ok c n = true -> (ro < 6)%nat -> bit_at (Wz x c n) (j mod 64) = bit_at x (swap_index ro j mod 64)).
  { intros c n x -> Hs Hlt; rewrite (proj2 (Nat.ltb_lt ro 6) Hlt) in H; apply andb_true_iff in H as [_ H]; apply Z.eqb_eq in H.
    unfold bit_at; rewrite (Wz_spec x c _ _ (Z.pow_nonneg 2 _ ltac:(lia)) Hs Hp); now rewrite H. }
  assert (Hsame : (ro < 6)%nat -> (swap_index ro j / 64 = j / 64)%nat)
    by (intros Hlt; rewrite (proj2 (Nat.ltb_lt ro 6) Hlt) in H; apply andb_true_iff in H as [H _]; now apply Nat.eqb_eq in H).
  destruct ro as [|[|[|[|[|[|ro]]]]]]; cbn [W];
    try (rewrite Hsame by lia; destruct (j / 64 =? 0)%nat; apply Hcase; [reflexivity | vm_compute; reflexivity | lia | reflexivity | vm_compute; reflexivity | lia]).
  assert (ro = 0)%nat as -> by lia; cbn [Nat.ltb Nat.leb] in H; apply andb_true_iff in H as [H1 H2]; apply Nat.eqb_eq in H1, H2; rewrite H1, H2.
  destruct (j / 64)%nat as [|[|d]]; [reflexivity | reflexivity | lia].
Qed.

(** ** A round of the code on the elements *)

Lemma elements_ext (ce co ce' co' : nat -> Z) : (forall j, (j < 128)%nat -> ce j = ce' j /\ co j = co' j) -> elements ce co = elements ce' co'.
Proof.
  intros He; unfold elements; rewrite !flat_map_concat_map; apply (f_equal (@concat Z)), map_ext_in; intros j Hj; apply in_seq in Hj.
  destruct (He j ltac:(lia)) as [-> ->]; reflexivity.
Qed.

Lemma map2_pairs {A B D} (f : A -> B -> D) (a b : nat -> A) (c d : nat -> B) l :
  map2 f (flat_map (fun j => [a j; b j]) l) (flat_map (fun j => [c j; d j]) l) = flat_map (fun j => [f (a j) (c j); f (b j) (d j)]) l.
Proof. induction l as [|j l IH]; [reflexivity|]; cbn [flat_map app map2]; now rewrite IH. Qed.

Lemma mds_pairs (a b : nat -> Z) l : mds_layer (flat_map (fun j => [a j; b j]) l) = flat_map (fun j => [fst (mds (a j) (b j)); snd (mds (a j) (b j))]) l.
Proof. induction l as [|j l IH]; [reflexivity|]; cbn [flat_map app mds_layer]; rewrite IH; now destruct (mds (a j) (b j)). Qed.

Definition half (j : nat) (h l : Z) : Z := if (j / 64 =? 0)%nat then h else l.
Definition code_bits (r : nat) : list bool :=
  flat_map (fun j => [bit_at (half j (Ceven_hi r) (Ceven_lo r)) (j mod 64); bit_at (half j (Codd_hi r) (Codd_lo r)) (j mod 64)]) (seq 0 128).

(** The words of an element. *)
Lemma elements_at s j : (j < 128)%nat ->
  let '(J h0h h0l h1h h1l h2h h2l h3h h3l h4h h4l h5h h5l h6h h6l h7h h7l) := s in
  let at_ h l := bit_at (half j h l) (j mod 64) in
  even_at (at_state s) j = nib (at_ h0h h0l) (at_ h2h h2l) (at_ h4h h4l) (at_ h6h h6l)
  /\ odd_at (at_state s) j = nib (at_ h1h h1l) (at_ h3h h3l) (at_ h5h h5l) (at_ h7h h7l).
Proof.
  intros Hj; destruct s; cbv zeta; unfold even_at, odd_at, at_state, half; assert (Hd : (j / 64 < 2)%nat) by (apply Nat.Div0.div_lt_upper_bound; lia).
  destruct (j / 64)%nat as [|[|d]]; [split; reflexivity | split; reflexivity | lia].
Qed.

Lemma view_S r s : view (S_odd r (S_even r s)) = map2 sbox (code_bits r) (view s).
Proof.
  unfold view, code_bits, elements at 2; rewrite map2_pairs; apply elements_ext; intros j Hj; pose proof (position_range (j mod 64) (Nat.mod_upper_bound j 64 ltac:(lia))) as Hp.
  pose proof (elements_at s j Hj) as Hs; destruct s; cbv zeta in Hs; destruct Hs as [-> ->]; unfold S_even.
  pose proof (Sb_spec h0h h2h h4h h6h (Ceven_hi r) _ Hp) as E1; destruct (Sb h0h h2h h4h h6h _) as [[[? ?] ?] ?].
  pose proof (Sb_spec h0l h2l h4l h6l (Ceven_lo r) _ Hp) as E2; destruct (Sb h0l h2l h4l h6l _) as [[[? ?] ?] ?]; unfold S_odd.
  pose proof (Sb_spec h1h h3h h5h h7h (Codd_hi r) _ Hp) as E3; destruct (Sb h1h h3h h5h h7h _) as [[[? ?] ?] ?].
  pose proof (Sb_spec h1l h3l h5l h7l (Codd_lo r) _ Hp) as E4; destruct (Sb h1l h3l h5l h7l _) as [[[? ?] ?] ?].
  match goal with |- context [at_state ?s] => destruct (elements_at s j Hj) as [-> ->] end; unfold half, bit_at in *; destruct (j / 64 =? 0)%nat; now split.
Qed.

Lemma view_L s : view (L_layer s) = mds_layer (view s).
Proof.
  unfold view, elements at 2; rewrite mds_pairs; apply elements_ext; intros j Hj.
  pose proof (elements_at s j Hj) as Hs; destruct s; cbv zeta in Hs; destruct Hs as [-> ->]; unfold L_layer.
  pose proof (Lb_spec h0h h2h h4h h6h h1h h3h h5h h7h (Z.lxor (Z.of_nat (j mod 64)) 7)) as E1; destruct (Lb h0h h2h h4h h6h h1h h3h h5h h7h) as [[[[[[[? ?] ?] ?] ?] ?] ?] ?].
  pose proof (Lb_spec h0l h2l h4l h6l h1l h3l h5l h7l (Z.lxor (Z.of_nat (j mod 64)) 7)) as E2; destruct (Lb h0l h2l h4l h6l h1l h3l h5l h7l) as [[[[[[[? ?] ?] ?] ?] ?] ?] ?].
  match goal with |- context [at_state ?s] => destruct (elements_at s j Hj) as [-> ->] end; unfold half, bit_at in *; destruct (j / 64 =? 0)%nat; [rewrite <- E1 | rewrite <- E2]; now split.
Qed.

Definition swap_perm (ro : nat) : list nat := flat_map (fun j => [(2 * j)%nat; (2 * swap_index ro j + 1)%nat]) (seq 0 128).

Lemma view_W ro s : (ro < 7)%nat -> view (W_odd ro s) = permute 0 (swap_perm ro) (view s).
Proof.
  intros Hr; assert (E : permute 0 (swap_perm ro) (view s) = elements (even_at (at_state s)) (fun j => odd_at (at_state s) (swap_index ro j))).
  { unfold permute, swap_perm, elements at 1; rewrite !flat_map_concat_map, concat_map, map_map; apply (f_equal (@concat Z)), map_ext_in; intros j Hj; apply in_seq in Hj.
    pose proof (swap_index_lt ro j Hr ltac:(lia)) as Hk.
    cbn [map]; unfold view, elements; rewrite (proj1 (jh_nth_pairs _ _ 128 0 j ltac:(lia))), (proj2 (jh_nth_pairs _ _ 128 0 _ Hk)); reflexivity. }
  rewrite E; unfold view; apply elements_ext; intros j Hj; pose proof (swap_index_lt ro j Hr Hj) as Hk.
  pose proof (elements_at s j Hj) as Hs; pose proof (elements_at s _ Hk) as Hs'; destruct s; cbv zeta in Hs, Hs'; destruct Hs as [-> _]; destruct Hs' as [_ ->]; unfold W_odd.
  pose proof (W_spec ro h1h h1l j Hr Hj) as E1; destruct (W ro (h1h, h1l)); pose proof (W_spec ro h3h h3l j Hr Hj) as E3; destruct (W ro (h3h, h3l)).
  pose proof (W_spec ro h5h h5l j Hr Hj) as E5; destruct (W ro (h5h, h5l)); pose proof (W_spec ro h7h h7l j Hr Hj) as E7; destruct (W ro (h7h, h7l)).
  match goal with |- context [at_state ?s] => destruct (elements_at s j Hj) as [-> ->] end; unfold half; rewrite E1, E3, E5, E7; now split.
Qed.

(** ** The permutation between the two *)

Lemma permute_map {A B} (f : A -> B) d d' p l : f d = d' -> permute d' p (map f l) = map f (permute d p l).
Proof. intros <-; unfold permute; rewrite map_map; apply map_ext; intros i; apply map_nth. Qed.

Lemma permute_permute {A} (d : A) p q l : Forall (fun i => (i < length q)%nat) p -> permute d p (permute d q l) = permute d (permute 0%nat p q) l.
Proof.
  intros Hp; unfold permute; rewrite map_map; apply map_ext_in; intros i Hi; rewrite Forall_forall in Hp.
  rewrite (nth_indep _ d (nth 0 l d)) by (rewrite length_map; now apply Hp); apply (map_nth (fun j => nth j l d)).
Qed.

Lemma permute_map2 {A B D} (f : A -> B -> D) a b p l m : length l = length m -> permute (f a b) p (map2 f l m) = map2 f (permute a p l) (permute b p m).
Proof. intros Hl; unfold permute; induction p as [|i p IH]; [reflexivity|]; cbn [map map2]; now rewrite IH, (nth_map2 f l m a b _ i Hl eq_refl). Qed.

(** Pairs of elements go to pairs. *)
Fixpoint pairs_ok (n : nat) (p : list nat) : bool :=
  match p with
  | a :: b :: p => Nat.even a && (b =? S a)%nat && (b <? n)%nat && pairs_ok n p
  | [] => true
  | _ => false
  end.

Lemma nth_mds l : forall k, (2 * k + 1 < length l)%nat -> nth (2 * k) (mds_layer l) 0 = fst (mds (nth (2 * k) l 0) (nth (2 * k + 1) l 0))
  /\ nth (2 * k + 1) (mds_layer l) 0 = snd (mds (nth (2 * k) l 0) (nth (2 * k + 1) l 0)).
Proof.
  assert (Hind : forall n l, (length l <= n)%nat -> forall k, (2 * k + 1 < length l)%nat ->
    nth (2 * k) (mds_layer l) 0 = fst (mds (nth (2 * k) l 0) (nth (2 * k + 1) l 0)) /\ nth (2 * k + 1) (mds_layer l) 0 = snd (mds (nth (2 * k) l 0) (nth (2 * k + 1) l 0))).
  { induction n as [|n IH]; intros [|a [|b m]] Hl k Hk; cbn [length] in *; try lia; cbn [mds_layer]; destruct (mds a b) as [c d] eqn:E; destruct k as [|k].
    - cbn [Nat.mul Nat.add nth]; rewrite E; now split.
    - replace (2 * S k)%nat with (S (S (2 * k))) by lia; cbn [nth Nat.add]; apply IH; lia. }
  apply (Hind (length l)); lia.
Qed.

Lemma mds_permute l : forall p, pairs_ok (length l) p = true -> mds_layer (permute 0 p l) = permute 0 p (mds_layer l).
Proof.
  assert (Hind : forall n p, (length p <= n)%nat -> pairs_ok (length l) p = true -> mds_layer (permute 0 p l) = permute 0 p (mds_layer l)).
  { induction n as [|n IH]; intros [|a [|b p]] Hl Hp; cbn [length] in Hl; try lia; try reflexivity; [discriminate Hp|].
    cbn [pairs_ok] in Hp; rewrite !andb_true_iff in Hp; destruct Hp as [[[Ha Hb] Hn] Hp]; apply Nat.eqb_eq in Hb as ->; apply Nat.ltb_lt in Hn.
    apply Nat.even_spec in Ha as [k ->]; cbn [permute map mds_layer]; fold (permute 0 p l) (permute 0 p (mds_layer l)).
    destruct (nth_mds l k ltac:(lia)) as [E1 E2]; rewrite Nat.add_1_r in E1, E2; rewrite E1, E2, <- (IH p) by (lia || assumption).
    now destruct (mds (nth (2 * k) l 0) (nth (S (2 * k)) l 0)). }
  intros p; apply (Hind (length p)); lia.
Qed.

(** Where element [i] of the specification is in the code before round [r]. *)
Definition P_index : list nat := P 0%nat 256 (seq 0 256).
Definition next_sigma (r : nat) (s : list nat) : list nat := permute 0%nat (permute 0%nat P_index s) (swap_perm (r mod 7)).
Fixpoint sigma (r : nat) : list nat := match r with O => seq 0 256 | S r => next_sigma r (sigma r) end.

Definition same_nats (p q : list nat) : bool := if list_eq_dec Nat.eq_dec p q then true else false.
Definition same_bits (p q : list bool) : bool := if list_eq_dec Bool.bool_dec p q then true else false.
Definition round_check (r : nat) (s : list nat) (k : list Z) : bool :=
  let t := permute 0%nat P_index s in
  pairs_ok 256 s && same_bits (flat_map nibble_bits k) (permute false s (code_bits r))
  && forallb (fun i => (i <? 256)%nat) (next_sigma r s) && same_nats (permute 0%nat (next_sigma r s) (swap_perm (r mod 7))) t.

Fixpoint rounds_check (n r : nat) (s : list nat) (k : list Z) : bool :=
  match n with
  | O => same_nats s (seq 0 256)
  | S n => round_check r s k && rounds_check n (S r) (next_sigma r s) (R 64 (repeat false 64) k)
  end.

Lemma rounds_checked n : forall r, rounds_check n r (sigma r) (round_constant r) = true ->
  (forall i, (r <= i < r + n)%nat -> round_check i (sigma i) (round_constant i) = true) /\ sigma (r + n) = seq 0 256.
Proof.
  induction n as [|n IH]; intros r; cbn [rounds_check].
  - unfold same_nats; destruct (list_eq_dec _ _ _) as [E|]; [|discriminate]; intros _; rewrite Nat.add_0_r; split; [lia | exact E].
  - intros H; apply andb_true_iff in H as [H1 H2]; change (next_sigma r (sigma r)) with (sigma (S r)) in H2; unfold round_constant in H2 at 1; rewrite <- iter_next in H2.
    destruct (IH (S r) H2) as [G1 G2]; split; [intros i Hi; destruct (Nat.eq_dec i r) as [->|]; [exact H1 | apply G1; lia] | rewrite <- G2; f_equal; lia].
Qed.

Lemma all_rounds : rounds_check 42 0 (sigma 0) (round_constant 0) = true.
Proof. vm_compute; reflexivity. Qed.

Lemma below_forall n p : forallb (fun i => (i <? n)%nat) p = true -> Forall (fun i => (i < n)%nat) p.
Proof. rewrite forallb_forall, Forall_forall; intros H i Hi; now apply Nat.ltb_lt, H. Qed.

Lemma P_permute l : P 0 256 l = permute 0 P_index l.
Proof.
  unfold P; rewrite permute_permute by (apply (below_forall 256); vm_compute; reflexivity).
  rewrite permute_permute by (apply (below_forall 256); vm_compute; reflexivity).
  assert (E : permute 0%nat (permute 0%nat (phi_index 256) (P'_index 256)) (pi_index 256) = P_index) by (vm_compute; reflexivity).
  now rewrite E.
Qed.

Lemma length_pairs {A} (a b : nat -> A) n k : length (flat_map (fun j => [a j; b j]) (seq k n)) = (2 * n)%nat.
Proof. revert k; induction n as [|n IH]; intros k; [reflexivity|]; cbn [seq flat_map app length]; rewrite IH; lia. Qed.

Lemma length_view s : length (view s) = 256%nat.
Proof. apply (length_pairs _ _ 128 0). Qed.

Lemma length_code_bits r : length (code_bits r) = 256%nat.
Proof. apply (length_pairs _ _ 128 0). Qed.

Lemma length_swap_perm ro : length (swap_perm ro) = 256%nat.
Proof. apply (length_pairs _ _ 128 0). Qed.

Lemma pairs_below n p : pairs_ok n p = true -> Forall (fun i => (i < n)%nat) p.
Proof.
  assert (Hind : forall k p, (length p <= k)%nat -> pairs_ok n p = true -> Forall (fun i => (i < n)%nat) p).
  { induction k as [|k IH]; intros [|a [|b q]] Hl Hp; cbn [length] in Hl; try lia; try constructor; cbn [pairs_ok] in Hp; try discriminate Hp;
      rewrite !andb_true_iff in Hp; destruct Hp as [[[_ Hb] Hn] Hp]; apply Nat.eqb_eq in Hb; apply Nat.ltb_lt in Hn; [lia|].
    constructor; [exact Hn | apply IH; [lia | exact Hp]]. }
  apply (Hind (length p)); lia.
Qed.

Lemma permute_default {A} (d d' : A) p l : Forall (fun i => (i < length l)%nat) p -> permute d p l = permute d' p l.
Proof. intros Hp; apply map_ext_in; intros i Hi; rewrite Forall_forall in Hp; now apply nth_indep, Hp. Qed.

Lemma length_mds l n : length l = (2 * n)%nat -> length (mds_layer l) = (2 * n)%nat.
Proof.
  revert l; induction n as [|n IH]; intros l Hl; [now destruct l|]; destruct l as [|a [|b l]]; cbn [length] in Hl; try lia.
  cbn [mds_layer]; destruct (mds a b); cbn [length]; rewrite IH; lia.
Qed.

Lemma length_sigma r : length (sigma r) = 256%nat.
Proof. destruct r; [reflexivity|]; cbn [sigma]; unfold next_sigma, permute; rewrite !length_map; reflexivity. Qed.

(** One round keeps the two in step. *)
Lemma round_step (c k : list bool) (s t sw ix : list nat) (v : list Z) :
  length c = 256%nat -> length v = 256%nat -> length sw = 256%nat -> length s = 256%nat ->
  pairs_ok 256 s = true -> k = permute false s c -> Forall (fun i => (i < 256)%nat) t -> Forall (fun i => (i < 256)%nat) ix ->
  permute 0%nat t sw = permute 0%nat ix s ->
  permute 0 ix (mds_layer (map2 sbox k (permute 0 s v))) = permute 0 t (permute 0 sw (mds_layer (map2 sbox c v))).
Proof.
  intros Hc Hv Hsw Hs Hp -> Ht Hx Et.
  assert (Hl : length (map2 sbox c v) = 256%nat) by (rewrite length_map2, Hc, Hv; reflexivity).
  assert (Hm : length (mds_layer (map2 sbox c v)) = 256%nat) by (apply (length_mds _ 128), Hl).
  rewrite <- permute_map2 by congruence; rewrite (permute_default (sbox false 0) 0) by (rewrite Hl; now apply pairs_below).
  rewrite mds_permute by (now rewrite Hl); rewrite (permute_permute 0 t) by (now rewrite Hsw); rewrite Et; apply permute_permute; now rewrite Hs.
Qed.

Lemma P_index_below : Forall (fun i => (i < 256)%nat) P_index.
Proof. apply below_forall; vm_compute; reflexivity. Qed.

Lemma sigma_next r : sigma (S r) = next_sigma r (sigma r).
Proof. reflexivity. Qed.

Lemma same_nats_eq p q : same_nats p q = true -> p = q.
Proof. unfold same_nats; now destruct (list_eq_dec _ _ _). Qed.

Lemma same_bits_eq p q : same_bits p q = true -> p = q.
Proof. unfold same_bits; now destruct (list_eq_dec _ _ _). Qed.

Lemma round_checked r s k : round_check r s k = true -> pairs_ok 256 s = true /\ flat_map nibble_bits k = permute false s (code_bits r)
  /\ Forall (fun i => (i < 256)%nat) (next_sigma r s) /\ permute 0%nat (next_sigma r s) (swap_perm (r mod 7)) = permute 0%nat P_index s.
Proof.
  unfold round_check; intros Hc; apply andb_true_iff in Hc as [Hc He]; apply andb_true_iff in Hc as [Hc Hn]; apply andb_true_iff in Hc as [Hp Hb].
  split; [exact Hp|]; split; [exact (same_bits_eq _ _ Hb)|]; split; [exact (below_forall _ _ Hn) | exact (same_nats_eq _ _ He)].
Qed.

Lemma all_checked r : (r < 42)%nat -> round_check r (sigma r) (round_constant r) = true.
Proof. intros Hr; apply (proj1 (rounds_checked 42 0 all_rounds)); lia. Qed.

Lemma round_sim r s : (r < 42)%nat -> R 256 (round_bits r) (permute 0 (sigma r) (view s)) = permute 0 (sigma (S r)) (view (SLu r (r mod 7) s)).
Proof.
  intros Hr; destruct (round_checked _ _ _ (all_checked r Hr)) as (Hp & Eb & Hn & Et).
  unfold SLu; rewrite view_W, view_L, view_S by (apply Nat.mod_upper_bound; lia); unfold R; rewrite P_permute, sigma_next; unfold round_bits.
  apply (round_step _ _ _ _ _ _ _ (length_code_bits r) (length_view s) (length_swap_perm (r mod 7)) (length_sigma r) Hp Eb Hn P_index_below Et).
Qed.

Lemma permute_seq n l : length l = n -> permute 0 (seq 0 n) l = l.
Proof.
  intros Hl; unfold permute; rewrite <- Hl; apply (nth_ext _ _ 0 0); [now rewrite length_map, length_seq|]; intros i Hi; rewrite length_map, length_seq in Hi.
  rewrite (nth_indep _ 0 (nth 0 l 0)) by (now rewrite length_map, length_seq); now rewrite (map_nth (fun i => nth i l 0)), seq_nth.
Qed.

(** [E8] as a loop. *)
Lemma E8_loop s : E8 s = fold_left (fun s r => SLu r (r mod 7) s) (seq 0 42) s.
Proof. reflexivity. Qed.

Lemma rounds_sim n : forall r s, (r + n <= 42)%nat ->
  fold_left (fun q r => R 256 (round_bits r) q) (seq r n) (permute 0 (sigma r) (view s))
  = permute 0 (sigma (r + n)) (view (fold_left (fun s r => SLu r (r mod 7) s) (seq r n) s)).
Proof.
  induction n as [|n IH]; intros r s Hr; [now rewrite Nat.add_0_r|]; cbn [seq fold_left].
  rewrite round_sim, IH by lia; do 2 f_equal; lia.
Qed.

Lemma E8_spec s : state_bits (E8 s) = e8 (state_bits s).
Proof.
  assert (G : group (state_bits s) = permute 0 (sigma 0) (view s))
    by (rewrite state_planes, group_planes; symmetry; apply (permute_seq 256), length_view).
  unfold e8; rewrite G, (rounds_sim 42 0 s ltac:(lia)), <- (E8_loop s); rewrite (proj2 (rounds_checked 42 0 all_rounds)), (permute_seq 256) by apply length_view.
  rewrite state_planes; symmetry; apply degroup_planes.
Qed.

(** ** Words, bytes and bits *)

Lemma byte_bits_shift w i : byte_bits (u8 (Z.shiftr w (8 * Z.of_nat i))) = map (fun k => Z.testbit w (8 * Z.of_nat i + 7 - Z.of_nat k)) (seq 0 8).
Proof.
  apply map_ext_in; intros k Hk; apply in_seq in Hk; rewrite u8_trunc, trunc_spec, Z.shiftr_spec by lia; rewrite (proj2 (Z.ltb_lt _ 8)) by lia.
  cbn [andb]; f_equal; lia.
Qed.

Lemma word_bits_enc w : word_bits w = bits_of (sph_enc64le w).
Proof.
  rewrite sph_enc64le_split; change (le_split 8 w) with (map (fun i => u8 (Z.shiftr w (8 * Z.of_nat i))) (seq 0 8)); unfold bits_of.
  rewrite flat_map_concat_map, map_map, (map_ext _ _ (byte_bits_shift w)); reflexivity.
Qed.

Lemma bits_words l : flat_map word_bits l = bits_of (flat_map sph_enc64le l).
Proof.
  induction l as [|w l IH]; [reflexivity|]; cbn [flat_map]; unfold bits_of in *; rewrite flat_map_app, <- IH, word_bits_enc; reflexivity.
Qed.

Lemma byte_of_bits b : inw 8 b -> byte_of (byte_bits b) = b.
Proof.
  intros Hb; assert (H : forallb (fun k => byte_of (byte_bits (Z.of_nat k)) =? Z.of_nat k) (seq 0 256) = true) by (vm_compute; reflexivity).
  rewrite forallb_forall in H; specialize (H (Z.to_nat b) ltac:(apply in_seq; unfold inw in Hb; lia)); apply Z.eqb_eq in H.
  rewrite Z2Nat.id in H by apply Hb; exact H.
Qed.

Lemma length_byte_bits b : length (byte_bits b) = 8%nat.
Proof. reflexivity. Qed.

Lemma length_bits_of l : length (bits_of l) = (8 * length l)%nat.
Proof. induction l as [|b l IH]; [reflexivity|]; unfold bits_of in *; cbn [flat_map length]; rewrite length_app, length_byte_bits, IH; lia. Qed.

Lemma bytes_bits n l : words 8 l -> (n <= length l)%nat -> bytes_of_bits n (bits_of l) = firstn n l.
Proof.
  revert l; induction n as [|n IH]; intros [|b l] Hw Hn; cbn [length] in Hn; try lia; try reflexivity.
  apply Forall_cons_iff in Hw as [Hb Hw]; change (bits_of (b :: l)) with (byte_bits b ++ bits_of l); cbn [bytes_of_bits].
  rewrite firstn_app, skipn_app, length_byte_bits, Nat.sub_diag, firstn_O, app_nil_r, skipn_O.
  rewrite firstn_all2, skipn_all2 by (rewrite length_byte_bits; lia); rewrite byte_of_bits by assumption; cbn [app]; rewrite IH by (assumption || lia); reflexivity.
Qed.

Lemma skipn_bits n l : skipn (8 * n) (bits_of l) = bits_of (skipn n l).
Proof.
  revert l; induction n as [|n IH]; intros l; [reflexivity|]; destruct l as [|b l]; [now rewrite !skipn_nil|].
  replace (8 * S n)%nat with (8 * n + 8)%nat by lia; rewrite <- skipn_skipn; unfold bits_of at 1; cbn [flat_map]; fold (bits_of l).
  rewrite skipn_app, length_byte_bits, Nat.sub_diag, skipn_O, (skipn_all2 (byte_bits b)) by (rewrite length_byte_bits; lia); cbn [app skipn]; apply IH.
Qed.

(** Exclusive or of words, bit by bit. *)
Lemma map2_app {A B D} (f : A -> B -> D) a b c d : length a = length c -> map2 f (a ++ b) (c ++ d) = map2 f a c ++ map2 f b d.
Proof. revert c; induction a as [|x a IH]; intros [|y c] Hl; try discriminate Hl; [reflexivity|]; cbn [app map2]; rewrite IH by (now injection Hl); reflexivity. Qed.

Lemma map2_map_same {A B D E} (f : B -> D -> E) (g : A -> B) (h : A -> D) l : map2 f (map g l) (map h l) = map (fun x => f (g x) (h x)) l.
Proof. induction l as [|x l IH]; [reflexivity|]; cbn [map map2]; now rewrite IH. Qed.

Lemma word_bits_xor x y : map2 xorb (word_bits x) (word_bits y) = word_bits (x .^ y).
Proof. unfold word_bits; rewrite map2_map_same; apply map_ext; intros p; unfold bit_at; now rewrite Z.lxor_spec. Qed.

Lemma bits_xor l : forall m, length l = length m -> map2 xorb (flat_map word_bits l) (flat_map word_bits m) = flat_map word_bits (map2 Z.lxor l m).
Proof.
  induction l as [|x l IH]; intros [|y m] Hl; try discriminate Hl; [reflexivity|]; cbn [flat_map map2].
  rewrite map2_app by reflexivity; rewrite word_bits_xor, IH by (now injection Hl); reflexivity.
Qed.

(** The words of a block, and its bits. *)
Lemma block_bits b : length b = 64%nat -> words 8 b -> bits_of b = flat_map word_bits (read_words sph_dec64le 8 8 b).
Proof. intros Hl Hw; rewrite bits_words, (enc_words64 8) by (assumption || lia); now rewrite firstn_all2 by lia. Qed.

Lemma input1_words b s : WRITE_STATE (INPUT_BUF1 b s) = map2 Z.lxor (WRITE_STATE s) (read_words sph_dec64le 8 8 b ++ repeat 0 8).
Proof. destruct s; cbn -[Z.lxor sph_dec64le skipn]; rewrite !Z.lxor_0_r; reflexivity. Qed.

Lemma input2_words b s : WRITE_STATE (INPUT_BUF2 b s) = map2 Z.lxor (WRITE_STATE s) (repeat 0 8 ++ read_words sph_dec64le 8 8 b).
Proof. destruct s; cbn -[Z.lxor sph_dec64le skipn]; rewrite !Z.lxor_0_r; reflexivity. Qed.

Lemma zero_bits n : repeat false (64 * n) = flat_map word_bits (repeat 0 n).
Proof.
  induction n as [|n IH]; [reflexivity|]; replace (64 * S n)%nat with (64 + 64 * n)%nat by lia; rewrite repeat_app, IH; reflexivity.
Qed.

Lemma jh_process_spec b h bc : length b = 64%nat -> words 8 b -> state_bits (fst (jh_process b (h, bc))) = jh_block b (state_bits h).
Proof.
  intros Hl Hw; unfold jh_process, jh_block, f8; cbn [fst]; unfold state_bits at 1; rewrite input2_words, <- bits_xor by (now destruct (E8 _)).
  fold (state_bits (E8 (INPUT_BUF1 b h))); rewrite E8_spec; unfold state_bits at 1; rewrite input1_words, <- bits_xor by (now destruct h).
  change 512%nat with (64 * 8)%nat; rewrite zero_bits, block_bits, <- !flat_map_app by assumption; reflexivity.
Qed.

(** ** The whole computation *)

Definition read_ctx (c : jh_context) : sctx (jvars * Z) := ctx_map (fun s => (READ_STATE (H_wide s), block_count s)) c.

Lemma jh_read_write s : READ_STATE (WRITE_STATE s) = s.
Proof. now destruct s. Qed.

Lemma jh_write_read l : length l = 16%nat -> WRITE_STATE (READ_STATE l) = l.
Proof. intros L; do 16 (destruct l as [|? l]; [discriminate|]); destruct l; [reflexivity|discriminate]. Qed.

Lemma jh_core_sim c data : read_ctx (jh_core c data) = core 64 jh_process (read_ctx c) data.
Proof.
  unfold jh_core, core; cbn [read_ctx ctx_map ptr]; destruct (_ <? _)%nat; [reflexivity|].
  cbn [read_ctx ctx_map buf st ptr]; destruct (core_loop _ _ _ _ _ _ _) as [b p [h bc]]; unfold read_ctx, ctx_map; cbn [buf ptr st H_wide block_count fst snd].
  now rewrite jh_read_write.
Qed.

Lemma jh_process_local b s : length b = 64%nat -> jh_process (firstn 64 b) s = jh_process b s.
Proof. intros Hb; now rewrite firstn_all2 by lia. Qed.

(** What the context stands for after the bytes [m]. *)
Definition jh_holds (iv : list Z) (c : jh_context) (m : list Z) : Prop :=
  length (H_wide (st c)) = 16%nat /\ ctx_ok 64 64 (read_ctx c) /\ ctx_abs (read_ctx c) = absorb 64 jh_process (READ_STATE iv, 0) m.

Lemma holds_init iv c : length iv = 16%nat -> length (buf c) = 64%nat -> jh_holds iv (jh_init c iv) [].
Proof. intros Hiv Hb; split; [exact Hiv|]; split; [split; [exact Hb | cbn; lia] | reflexivity]. Qed.

Lemma holds_core iv c m data : jh_holds iv c m -> jh_holds iv (jh_core c data) (m ++ data).
Proof.
  intros (Hl & Hok & Ha); split; [unfold jh_core; destruct (_ <? _)%nat; [exact Hl | cbn [st H_wide]; now destruct (fst _)]|].
  rewrite jh_core_sim; destruct (core_refines 64 jh_process ltac:(lia) 64 ltac:(lia) jh_process_local _ data Hok) as [Hok' Ha'].
  split; [exact Hok'|]; rewrite Ha', Ha; symmetry; apply absorb_app; lia.
Qed.

Lemma holds_many iv chunks : forall c m, jh_holds iv c m -> jh_holds iv (fold_left jh_core chunks c) (m ++ concat chunks).
Proof.
  induction chunks as [|d chunks IH]; intros c m Hc; cbn [fold_left concat]; [now rewrite app_nil_r|]; rewrite app_assoc; now apply IH, holds_core.
Qed.

(** The state as bits, and the number of blocks. *)
Lemma absorb_state iv m : words 8 m -> length iv = 16%nat ->
  state_bits (fst (fst (absorb 64 jh_process (READ_STATE iv, 0) m))) = fst (absorb 64 jh_block (flat_map word_bits iv) m).
Proof.
  intros Hw Hl; refine (proj1 (absorb_sim (fun a b => state_bits (fst a) = b) 64 jh_process jh_block _ _ m _ _ Hw _)); [lia | | ].
  - intros blk [h bc] q Hb Hbw <-; now apply jh_process_spec.
  - cbn [fst]; unfold state_bits; now rewrite jh_write_read.
Qed.

Lemma absorb_counts iv m : Z.of_nat (length m) < SIZE_MAX ->
  snd (fst (absorb 64 jh_process (READ_STATE iv, 0) m)) = Z.of_nat (length m / 64).
Proof.
  intros Hm; assert (Hb : forall m, inw 64 (snd (fst (absorb 64 jh_process (READ_STATE iv, 0) m)))).
  { intros d; assert (Hp : inw 64 (snd (READ_STATE iv, 0))) by (unfold inw; cbn; lia); revert Hp; generalize (READ_STATE iv, 0) as s.
    induction d as [d Hd|blk d Hd IH] using (block_ind 64 ltac:(lia)); intros s Hs; [now rewrite absorb_short by lia|].
    rewrite absorb_block by (lia || assumption); apply IH; destruct s; cbn [jh_process snd]; apply SPH_T64_inw. }
  pose proof (absorb_blocks 64 jh_process snd (READ_STATE iv, 0) m ltac:(lia)) as E.
  rewrite (trunc_small 64 (snd (fst _))) in E by (lia || apply Hb); rewrite E by (intros b [h bc]; reflexivity); cbn [snd]; apply trunc_small; [lia|].
  pose proof (Nat.Div0.div_le_upper_bound (length m) 64 (length m) ltac:(lia)); unfold inw, SIZE_MAX in *; lia.
Qed.

(** The padding that [jh_close] makes. *)
Lemma pad_spec m ub n p bc : 0 <= n < 8 -> p = (length m mod 64)%nat -> bc = Z.of_nat (length m / 64) -> Z.of_nat (length m) < SIZE_MAX ->
  let z := 0x80 >> n in
  m ++ (((ub .& SPH_T32 (- z)) .| z) .& 0xFF) :: repeat 0 (if (p =? 0)%nat && (n =? 0) then 47%nat else (111 - p)%nat)
    ++ sph_enc64be (SPH_T64 (bc >> 55)) ++ sph_enc64be (SPH_T64 (SPH_T64 (bc << 9) + (Z.of_nat p << 3) + n)) = jh_pad m ub n.
Proof.
  intros Hn Hp Hbc Hm z; unfold z; rewrite pad_byte by assumption; unfold jh_pad; rewrite <- Hp; do 2 f_equal; f_equal.
  assert (Hl : 8 * Z.of_nat (length m) + n = bc * 512 + Z.of_nat p * 8 + n) by (pose proof (Nat.div_mod_eq (length m) 64); lia).
  rewrite <- be_128, Hl; f_equal; f_equal.
  - f_equal; rewrite !Z.shiftr_div_pow2 by lia; assert (Hp' : 0 <= Z.of_nat p < 64) by (pose proof (Nat.mod_upper_bound (length m) 64); lia).
    change (2 ^ 64) with (512 * 2 ^ 55); rewrite <- Z.div_div by lia; f_equal.
    replace (bc * 512 + Z.of_nat p * 8 + n) with (bc * 512 + (Z.of_nat p * 8 + n)) by lia; rewrite Z.div_add_l, (Z.div_small (_ + _)) by lia; lia.
  - rewrite T64_trunc, !trunc_mod, !Z.shiftl_mul_pow2 by lia; change (2 ^ 9) with 512; change (2 ^ 3) with 8.
    rewrite <- Z.add_assoc, Z.add_mod_idemp_l by lia; f_equal; lia.
Qed.

(** The digest that [jh_close] writes. *)
Lemma jh_close_spec iv c m ub n k d : jh_holds iv c m -> length iv = 16%nat -> flat_map word_bits iv = jh_iv d -> d = 32 * Z.of_nat k -> (k <= 16)%nat ->
  words 8 m -> Z.of_nat (length m) < SIZE_MAX -> 0 <= n < 8 ->
  snd (jh_close c ub n k iv) = jh_spec d m ub n /\ length (buf (fst (jh_close c ub n k iv))) = 64%nat.
Proof.
  intros Hh Hiv Eiv Hd Hk Hw Hm Hn; pose proof Hh as (_ & [Hb Hp] & Ha); unfold ctx_abs in Ha; cbn [read_ctx ctx_map st ptr buf] in Ha, Hb, Hp.
  assert (Hptr : ptr c = (length m mod 64)%nat) by (apply (absorb_rest_ptr 64 jh_process (READ_STATE iv, 0) m (buf c)); [lia | lia | now rewrite <- Ha]).
  assert (Hbc : block_count (st c) = Z.of_nat (length m / 64)) by (rewrite <- (absorb_counts iv m Hm), <- Ha; reflexivity).
  unfold jh_close; cbv zeta; match goal with |- context [jh_core c ?p] => set (pad := p) end; pose proof (holds_core iv c m pad Hh) as (Hl & [Hb' _] & Ha').
  set (c' := jh_core c pad) in *; cbn [fst snd]; split; [|exact Hb'].
  unfold pad in Ha'; rewrite (pad_spec m ub n (ptr c) (block_count (st c)) Hn Hptr Hbc Hm) in Ha'.
  assert (Hwp : words 8 (jh_pad m ub n)).
  { unfold jh_pad; apply words_app; [exact Hw|]; constructor; [rewrite <- pad_byte by assumption; apply u8_inw|].
    apply words_app; [apply words_repeat; unfold inw; lia | apply Forall_rev, le_split_bytes]. }
  pose proof (absorb_state iv _ Hwp Hiv) as Es; rewrite <- Ha', Eiv in Es; cbn [ctx_abs read_ctx ctx_map st fst snd] in Es.
  unfold state_bits in Es; rewrite jh_write_read, bits_words in Es by assumption; unfold jh_spec; rewrite <- Es.
  replace (Z.to_nat (d / 8)) with (4 * k)%nat by (subst d; replace (32 * Z.of_nat k) with (Z.of_nat (4 * k) * 8) by lia; rewrite Z.div_mul, Nat2Z.id by lia; reflexivity).
  assert (Hlen : length (flat_map sph_enc64le (H_wide (st c'))) = 128%nat) by (rewrite (length_flat_map_const _ 8), Hl by reflexivity; reflexivity).
  replace (1024 - 8 * (4 * k))%nat with (8 * (128 - 4 * k))%nat by lia; rewrite skipn_bits, bytes_bits;
    [|apply words_skipn, words_flat_map; auto with word | rewrite length_skipn; lia].
  f_equal; replace (128 - 4 * k)%nat with (4 * (16 - k) + 64)%nat by lia; rewrite <- skipn_skipn; f_equal.
  clear - Hl; generalize dependent (H_wide (st c')); intros l Hl; do 16 (destruct l as [|? l]; [discriminate Hl|]); destruct l; [reflexivity | discriminate Hl].
Qed.

Lemma state_words s : state_bits s = flat_map word_bits (WRITE_STATE s).
Proof. reflexivity. Qed.

(** The initial state, computed by the code. *)
Lemma iv_by_code a b w iv : bits_of a = flat_map word_bits w -> length w = 16%nat -> length b = 64%nat -> words 8 b ->
  WRITE_STATE (fst (jh_process b (READ_STATE w, 0))) = iv -> flat_map word_bits iv = jh_block b (bits_of a).
Proof.
  intros Ew Hl Hb Hz <-; rewrite <- state_words, (jh_process_spec b (READ_STATE w) 0 Hb Hz), state_words, jh_write_read, Ew by assumption; reflexivity.
Qed.

Lemma jh_iv_tables : flat_map word_bits IV224 = jh_iv 224 /\ flat_map word_bits IV256 = jh_iv 256
  /\ flat_map word_bits IV384 = jh_iv 384 /\ flat_map word_bits IV512 = jh_iv 512.
Proof.
  split; [|split; [|split]].
  - apply (iv_by_code ([224 >> 8; 224 .& 255] ++ repeat 0 126) (repeat 0 64) (0xE000 :: repeat 0 15)); [vm_compute; reflexivity | reflexivity | reflexivity | words_dec | vm_compute; reflexivity].
  - apply (iv_by_code ([256 >> 8; 256 .& 255] ++ repeat 0 126) (repeat 0 64) (0x0001 :: repeat 0 15)); [vm_compute; reflexivity | reflexivity | reflexivity | words_dec | vm_compute; reflexivity].
  - apply (iv_by_code ([384 >> 8; 384 .& 255] ++ repeat 0 126) (repeat 0 64) (0x8001 :: repeat 0 15)); [vm_compute; reflexivity | reflexivity | reflexivity | words_dec | vm_compute; reflexivity].
  - apply (iv_by_code ([512 >> 8; 512 .& 255] ++ repeat 0 126) (repeat 0 64) (0x0002 :: repeat 0 15)); [vm_compute; reflexivity | reflexivity | reflexivity | words_dec | vm_compute; reflexivity].
Qed.

(** Init, any updates, close. *)
Lemma jh_run iv c chunks ub n k d : length iv = 16%nat -> flat_map word_bits iv = jh_iv d -> d = 32 * Z.of_nat k -> (k <= 16)%nat ->
  length (buf c) = 64%nat -> words 8 (concat chunks) -> Z.of_nat (length (concat chunks)) < SIZE_MAX -> 0 <= n < 8 ->
  let r := jh_close (fold_left jh_core chunks (jh_init c iv)) ub n k iv in
  snd r = jh_spec d (concat chunks) ub n /\ length (buf (fst r)) = 64%nat.
Proof. intros Hiv Eiv Hd Hk Hb Hw Hm Hn; apply jh_close_spec; auto; exact (holds_many iv chunks _ [] (holds_init iv c Hiv Hb)). Qed.

(** C33: Whatever the context held before [init], and however the message is cut
    into chunks, the four variants return the JH digest of the message with its
    extra bits: the bit-sliced code with its bit swaps computes the S-boxes, the
    linear layer and the permutation of the specification, the table of
    constants is the one that the specification generates, and the initial
    states are those derived from the lengths of the digests. *)
Theorem jh_correct (c : jh_context) (chunks : list (list Z)) (ub n : Z) :
  length (buf c) = 64%nat -> words 8 (concat chunks) -> Z.of_nat (length (concat chunks)) < SIZE_MAX -> 0 <= n < 8 ->
  let m := concat chunks in
  fst (sph_jh224_addbits_and_close (fold_left sph_jh224 chunks (sph_jh224_init c)) ub n) = jh_spec 224 m ub n
  /\ fst (sph_jh256_addbits_and_close (fold_left sph_jh256 chunks (sph_jh256_init c)) ub n) = jh_spec 256 m ub n
  /\ fst (sph_jh384_addbits_and_close (fold_left sph_jh384 chunks (sph_jh384_init c)) ub n) = jh_spec 384 m ub n
  /\ fst (sph_jh512_addbits_and_close (fold_left sph_jh512 chunks (sph_jh512_init c)) ub n) = jh_spec 512 m ub n
  /\ (forall s, E8_small s = E8 s).
Proof.
  intros Hb Hw Hm Hn m; destruct jh_iv_tables as (E1 & E2 & E3 & E4).
  unfold sph_jh224_addbits_and_close, sph_jh256_addbits_and_close, sph_jh384_addbits_and_close, sph_jh512_addbits_and_close; rewrite !let_pair_fst; cbn [fst].
  split; [|split; [|split; [|split]]]; [..|reflexivity].
  - refine (proj1 (jh_run IV224 c chunks ub n 7 224 _ E1 _ _ Hb Hw Hm Hn)); [reflexivity | lia | lia].
  - refine (proj1 (jh_run IV256 c chunks ub n 8 256 _ E2 _ _ Hb Hw Hm Hn)); [reflexivity | lia | lia].
  - refine (proj1 (jh_run IV384 c chunks ub n 12 384 _ E3 _ _ Hb Hw Hm Hn)); [reflexivity | lia | lia].
  - refine (proj1 (jh_run IV512 c chunks ub n 16 512 _ E4 _ _ Hb Hw Hm Hn)); [reflexivity | lia | lia].
Qed.

Lemma jh_correct_witness :
  let c := Ctx (repeat 0xAA 64) 5 (JState [] 7) in
  let chunks := [[1; 2; 3]; repeat 7 70; [9]] in
  fst (sph_jh512_addbits_and_close (fold_left sph_jh512 chunks (sph_jh512_init c)) 0xA0 3) = jh_spec 512 (concat chunks) 0xA0 3.
Proof.
  intros c chunks; refine (proj1 (proj2 (proj2 (proj2 (jh_correct c chunks 0xA0 3 _ _ _ _))))); [reflexivity | words_dec | reflexivity | lia].
Defined.

Lemma length_bytes_of_bits n l : length (bytes_of_bits n l) = n.
Proof. revert l; induction n as [|n IH]; intros l; [reflexivity|]; cbn [bytes_of_bits length]; now rewrite IH. Qed.

Lemma byte_of_inw l : (length l <= 8)%nat -> inw 8 (byte_of l).
Proof.
  intros Hl; unfold byte_of; assert (H : forall k x, inw (Z.of_nat k) x -> inw (Z.of_nat (k + length l)) (fold_left (fun x b => 2 * x + Z.b2z b) l x)).
  { clear Hl; induction l as [|b l IH]; intros k x Hx; cbn [fold_left length]; [now rewrite Nat.add_0_r|].
    rewrite <- Nat.add_succ_comm; apply IH; unfold inw in *; rewrite Nat2Z.inj_succ, Z.pow_succ_r by lia; destruct b; cbn [Z.b2z]; lia. }
  apply (inw_mono (Z.of_nat (length l))); [lia|]; apply (H 0%nat 0); unfold inw; cbn; lia.
Qed.

Lemma bytes_of_bits_words n l : words 8 (bytes_of_bits n l).
Proof. revert l; induction n as [|n IH]; intros l; constructor; [apply byte_of_inw; rewrite length_firstn; lia | apply IH]. Qed.

(** JH-512 behind the common interface. *)
#[export, refine] Instance jh512_hash : StreamHash := {|
  hctx := jh_context;
  hctx_ok c := length (buf c) = 64%nat;
  hinit := sph_jh512_init;
  hupdate := sph_jh512;
  hclose := sph_jh512_close;
  hlen := 64;
  digest m := jh_spec 512 m 0 0
|}.
Proof.
  - intros c H; exact H.
  - intros c chunks H Hw Hm; unfold sph_jh512_close, sph_jh512_addbits_and_close; rewrite let_pair_fst; cbn [fst snd].
    refine (jh_run IV512 c chunks 0 0 16 512 _ _ _ _ H Hw Hm _); [reflexivity | apply jh_iv_tables | lia | lia | lia].
  - intros m; apply length_bytes_of_bits.
  - intros m; apply bytes_of_bits_words.
Defined.
