(* ===== verification/Luffa.v ===== *)
(** * Luffa: model of luffa.c

    Luffa-224/256 with three chaining values of eight words, Luffa-384 with
    four and Luffa-512 with five.  On a 64-bit machine [SPH_LUFFA_PARALLEL] is
    set: [P3], [P4] and [P5] work on two chaining values at a time, one in each
    half of 64-bit words.  The sequential code of the other machines is here too
    ([P3_seq] and so on).  LuffaSpec.v has the specification and the theorems. *)

From Stdlib Require Import ZArith List Lia Bool.
From S2P Require Import Prelude SphTypes Stream.
Import ListNotations.

Open Scope Z_scope.
Open Scope word_scope.

Definition V_INIT : list (list Z) :=
  [[0x6d251e69; 0x44b051e0; 0x4eaa6fb4; 0xdbf78465; 0x6e292011; 0x90152df4; 0xee058139; 0xdef610bb];
   [0xc3b44b95; 0xd9d2f256; 0x70eee9a0; 0xde099fa3; 0x5d9b0557; 0x8fc944b3; 0xcf1ccf0e; 0x746cd581];
   [0xf7efc89d; 0x5dba5781; 0x04016ce5; 0xad659c05; 0x0306194f; 0x666d1836; 0x24aa230a; 0x8b264ae7];
   [0x858075d5; 0x36d79cce; 0xe571f7d7; 0x204b1f67; 0x35870c6a; 0x57e9e923; 0x14bcb808; 0x7cde72ce];
   [0x6c68e9be; 0x5ec41e22; 0xc825b7c7; 0xaffb4363; 0xf5df3999; 0x0fc688f1; 0xb07224cc; 0x03e86cea]].

Definition RC00 : list Z :=
  [0x303994a6; 0xc0e65299; 0x6cc33a12; 0xdc56983e;
   0x1e00108f; 0x7800423d; 0x8f5b7882; 0x96e1db12].

Definition RC04 : list Z :=
  [0xe0337818; 0x441ba90d; 0x7f34d442; 0x9389217f;
   0xe5a8bce6; 0x5274baf4; 0x26889ba7; 0x9a226e9d].

Definition RC10 : list Z :=
  [0xb6de10ed; 0x70f47aae; 0x0707a3d4; 0x1c1e8f51;
   0x707a3d45; 0xaeb28562; 0xbaca1589; 0x40a46f3e].

Definition RC14 : list Z :=
  [0x01685f3d; 0x05a17cf4; 0xbd09caca; 0xf4272b28;
   0x144ae5cc; 0xfaa7ae2b; 0x2e48f1c1; 0xb923c704].

Definition RCW010 : list Z :=
  [0xb6de10ed303994a6; 0x70f47aaec0e65299; 0x0707a3d46cc33a12; 0x1c1e8f51dc56983e;
   0x707a3d451e00108f; 0xaeb285627800423d; 0xbaca15898f5b7882; 0x40a46f3e96e1db12].

Definition RCW014 : list Z :=
  [0x01685f3de0337818; 0x05a17cf4441ba90d; 0xbd09caca7f34d442; 0xf4272b289389217f;
   0x144ae5cce5a8bce6; 0xfaa7ae2b5274baf4; 0x2e48f1c126889ba7; 0xb923c7049a226e9d].

Definition RC20 : list Z :=
  [0xfc20d9d2; 0x34552e25; 0x7ad8818f; 0x8438764a;
   0xbb6de032; 0xedb780c8; 0xd9847356; 0xa2c78434].

Definition RC24 : list Z :=
  [0xe25e72c1; 0xe623bb72; 0x5c58a4a4; 0x1e38e2e7;
   0x78e38b9d; 0x27586719; 0x36eda57f; 0x703aace7].

Definition RC30 : list Z :=
  [0xb213afa5; 0xc84ebe95; 0x4e608a22; 0x56d858fe;
   0x343b138f; 0xd0ec4e3d; 0x2ceb4882; 0xb3ad2208].

Definition RC34 : list Z :=
  [0xe028c9bf; 0x44756f91; 0x7e8fce32; 0x956548be;
   0xfe191be2; 0x3cb226e5; 0x5944a28e; 0xa1c4c355].

Definition RCW230 : list Z :=
  [0xb213afa5fc20d9d2; 0xc84ebe9534552e25; 0x4e608a227ad8818f; 0x56d858fe8438764a;
   0x343b138fbb6de032; 0xd0ec4e3dedb780c8; 0x2ceb4882d9847356; 0xb3ad2208a2c78434].

Definition RCW234 : list Z :=
  [0xe028c9bfe25e72c1; 0x44756f91e623bb72; 0x7e8fce325c58a4a4; 0x956548be1e38e2e7;
   0xfe191be278e38b9d; 0x3cb226e527586719; 0x5944a28e36eda57f; 0xa1c4c355703aace7].

Definition RC40 : list Z :=
  [0xf0d2e9e3; 0xac11d7fa; 0x1bcb66f2; 0x6f2d9bc9;
   0x78602649; 0x8edae952; 0x3b6ba548; 0xedae9520].

Definition RC44 : list Z :=
  [0x5090d577; 0x2d1925ab; 0xb46496ac; 0xd1925ab0;
   0x29131ab6; 0x0fc053c3; 0x3f014f0c; 0xfc053c31].

(** Eight variables [v0 ... v7] with a common prefix. *)
Inductive w8 := V8 (v0 v1 v2 v3 v4 v5 v6 v7 : Z).

Definition M2 (s : w8) : w8 :=
  let '(V8 s0 s1 s2 s3 s4 s5 s6 s7) := s in
  let tmp := s7 in
  V8 tmp (s0 .^ tmp) s1 (s2 .^ tmp) (s3 .^ tmp) s4 s5 s6.

Definition XOR (s1 s2 : w8) : w8 :=
  let '(V8 a0 a1 a2 a3 a4 a5 a6 a7) := s1 in
  let '(V8 b0 b1 b2 b3 b4 b5 b6 b7) := s2 in
  V8 (a0 .^ b0) (a1 .^ b1) (a2 .^ b2) (a3 .^ b3) (a4 .^ b4) (a5 .^ b5) (a6 .^ b6) (a7 .^ b7).

(** [T] is [SPH_T ## width]. *)
Definition SUB_CRUMB_GEN (T : Z -> Z) (a0 a1 a2 a3 : Z) : Z * Z * Z * Z :=
  let tmp := a0 in
  let a0 := a0 .| a1 in
  let a2 := a2 .^ a3 in
  let a1 := T (Z.lnot a1) in
  let a0 := a0 .^ a3 in
  let a3 := a3 .& tmp in
  let a1 := a1 .^ a3 in
  let a3 := a3 .^ a2 in
  let a2 := a2 .& a0 in
  let a0 := T (Z.lnot a0) in
  let a2 := a2 .^ a1 in
  let a1 := a1 .| a3 in
  let tmp := tmp .^ a1 in
  let a3 := a3 .^ a2 in
  let a2 := a2 .& a1 in
  let a1 := a1 .^ a0 in
  let a0 := tmp in
  (a0, a1, a2, a3).

Definition SUB_CRUMB := SUB_CRUMB_GEN SPH_T32.
Definition SUB_CRUMBW := SUB_CRUMB_GEN SPH_T64.

Definition MIX_WORDW (u v : Z) : Z * Z :=
  let v := v .^ u in
  let ul := SPH_T32 u in
  let uh := SPH_T32 (u >> 32) in
  let vl := SPH_T32 v in
  let vh := SPH_T32 (v >> 32) in
  let ul := SPH_ROTL32 ul 2 .^ vl in
  let vl := SPH_ROTL32 vl 14 .^ ul in
  let ul := SPH_ROTL32 ul 10 .^ vl in
  let vl := SPH_ROTL32 vl 1 in
  let uh := SPH_ROTL32 uh 2 .^ vh in
  let vh := SPH_ROTL32 vh 14 .^ uh in
  let uh := SPH_ROTL32 uh 10 .^ vh in
  let vh := SPH_ROTL32 vh 1 in
  (ul .| (uh << 32), vl .| (vh << 32)).

Definition MIX_WORD (u v : Z) : Z * Z :=
  let v := v .^ u in
  let u := SPH_ROTL32 u 2 .^ v in
  let v := SPH_ROTL32 v 14 .^ u in
  let u := SPH_ROTL32 u 10 .^ v in
  let v := SPH_ROTL32 v 1 in
  (u, v).

(** One turn of the loops of eight rounds, with the constants [c0] and [c4]. *)
Definition round_gen (sub : Z -> Z -> Z -> Z -> Z * Z * Z * Z) (mix : Z -> Z -> Z * Z) (c0 c4 : Z) (v : w8) : w8 :=
  let '(V8 v0 v1 v2 v3 v4 v5 v6 v7) := v in
  let '(v0, v1, v2, v3) := sub v0 v1 v2 v3 in
  let '(v5, v6, v7, v4) := sub v5 v6 v7 v4 in
  let '(v0, v4) := mix v0 v4 in
  let '(v1, v5) := mix v1 v5 in
  let '(v2, v6) := mix v2 v6 in
  let '(v3, v7) := mix v3 v7 in
  V8 (v0 .^ c0) v1 v2 v3 (v4 .^ c4) v5 v6 v7.

(** The loops on the words of one chaining value, and on those of two. *)
Definition rounds (RC0 RC4 : list Z) (v : w8) : w8 :=
  fold_left (fun v r => round_gen SUB_CRUMB MIX_WORD (nth r RC0 0) (nth r RC4 0) v) (seq 0 8) v.
Definition roundsW (RCW0 RCW4 : list Z) (w : w8) : w8 :=
  fold_left (fun w r => round_gen SUB_CRUMBW MIX_WORDW (nth r RCW0 0) (nth r RCW4 0) w) (seq 0 8) w.

Definition pack (l h : Z) : Z := l .| (h << 32).
Definition pack8 (l h : w8) : w8 :=
  let '(V8 l0 l1 l2 l3 l4 l5 l6 l7) := l in
  let '(V8 h0 h1 h2 h3 h4 h5 h6 h7) := h in
  V8 (pack l0 h0) (pack l1 h1) (pack l2 h2) (pack l3 h3) (pack l4 h4) (pack l5 h5) (pack l6 h6) (pack l7 h7).
Definition low8 (w : w8) : w8 :=
  let '(V8 w0 w1 w2 w3 w4 w5 w6 w7) := w in
  V8 (SPH_T32 w0) (SPH_T32 w1) (SPH_T32 w2) (SPH_T32 w3) (SPH_T32 w4) (SPH_T32 w5) (SPH_T32 w6) (SPH_T32 w7).
Definition high8 (w : w8) : w8 :=
  let '(V8 w0 w1 w2 w3 w4 w5 w6 w7) := w in
  V8 (SPH_T32 (w0 >> 32)) (SPH_T32 (w1 >> 32)) (SPH_T32 (w2 >> 32)) (SPH_T32 (w3 >> 32))
     (SPH_T32 (w4 >> 32)) (SPH_T32 (w5 >> 32)) (SPH_T32 (w6 >> 32)) (SPH_T32 (w7 >> 32)).

(** Two chaining values through the 64-bit loop. *)
Definition pair_rounds (RCW0 RCW4 : list Z) (v v' : w8) : w8 * w8 :=
  let w := pack8 v v' in
  let w := roundsW RCW0 RCW4 w in
  (low8 w, high8 w).

(** The words of the buffer. *)
Definition read_M (buf : list Z) : w8 :=
  V8 (sph_dec32be (skipn 0 buf)) (sph_dec32be (skipn 4 buf)) (sph_dec32be (skipn 8 buf)) (sph_dec32be (skipn 12 buf))
     (sph_dec32be (skipn 16 buf)) (sph_dec32be (skipn 20 buf)) (sph_dec32be (skipn 24 buf)) (sph_dec32be (skipn 28 buf)).

(** The tweak of chaining value [j]: its last four words rotated. *)
Definition tweak (j : Z) (v : w8) : w8 :=
  let '(V8 v0 v1 v2 v3 v4 v5 v6 v7) := v in
  V8 v0 v1 v2 v3 (SPH_ROTL32 v4 j) (SPH_ROTL32 v5 j) (SPH_ROTL32 v6 j) (SPH_ROTL32 v7 j).

(** An array of eight words. *)
Definition row (a : list Z) : w8 := V8 (nth 0 a 0) (nth 1 a 0) (nth 2 a 0) (nth 3 a 0) (nth 4 a 0) (nth 5 a 0) (nth 6 a 0) (nth 7 a 0).
Definition lane (v : w8) : list Z := let '(V8 v0 v1 v2 v3 v4 v5 v6 v7) := v in [v0; v1; v2; v3; v4; v5; v6; v7].

(** ** Three chaining values *)

Definition st3 : Type := w8 * w8 * w8.
Definition READ_STATE3 (V : list (list Z)) : st3 := (row (nth 0 V []), row (nth 1 V []), row (nth 2 V [])).
Definition WRITE_STATE3 (s : st3) : list (list Z) := let '(V0, V1, V2) := s in [lane V0; lane V1; lane V2].

Definition MI3 (buf : list Z) (s : st3) : st3 :=
  let '(V0, V1, V2) := s in
  let M := read_M buf in
  let a := XOR V0 V1 in
  let a := XOR a V2 in
  let a := M2 a in
  let V0 := XOR a V0 in
  let V0 := XOR M V0 in
  let M := M2 M in
  let V1 := XOR a V1 in
  let V1 := XOR M V1 in
  let M := M2 M in
  let V2 := XOR a V2 in
  let V2 := XOR M V2 in
  (V0, V1, V2).

Definition TWEAK3 (s : st3) : st3 :=
  let '(V0, V1, V2) := s in
  (V0, tweak 1 V1, tweak 2 V2).

Definition P3 (s : st3) : st3 :=
  let '(V0, V1, V2) := TWEAK3 s in
  let (V0, V1) := pair_rounds RCW010 RCW014 V0 V1 in
  let V2 := rounds RC20 RC24 V2 in
  (V0, V1, V2).

Definition P3_seq (s : st3) : st3 :=
  let '(V0, V1, V2) := TWEAK3 s in
  let V0 := rounds RC00 RC04 V0 in
  let V1 := rounds RC10 RC14 V1 in
  let V2 := rounds RC20 RC24 V2 in
  (V0, V1, V2).

Definition XORs3 (s : st3) : w8 := let '(V0, V1, V2) := s in XOR (XOR V0 V1) V2.

Definition luffa3 (sc : sctx (list (list Z))) (data : list Z) : sctx (list (list Z)) :=
  if (length data <? 32 - ptr sc)%nat then
    Ctx (memcpy (buf sc) (ptr sc) data (length data)) (ptr sc + length data) (st sc)
  else
    let r := core_loop 32 (fun b s => P3 (MI3 b s)) (length data) (buf sc) (ptr sc) (READ_STATE3 (st sc)) data in
    Ctx (buf r) (ptr r) (WRITE_STATE3 (st r)).

(** Returns the context and the bytes written to [dst]: in the first turn of
    the loop the buffer holds the end of the message, in the second zeros. *)
Definition luffa3_close (sc : sctx (list (list Z))) (ub n : Z) (out_size_w32 : nat) : sctx (list (list Z)) * list Z :=
  let z := 0x80 >> n in
  let b := upd (buf sc) (ptr sc) (((ub .& SPH_T32 (- z)) .| z) .& 0xFF) in
  let p := S (ptr sc) in
  let b := memset b p 0 (32 - p) in
  let s := READ_STATE3 (st sc) in
  let s := P3 (MI3 b s) in
  let b := memset b 0 0 32 in
  let s := P3 (MI3 b s) in
  let b := memset b 0 0 32 in
  (Ctx b p (st sc), flat_map sph_enc32be (firstn (if (7 <? out_size_w32)%nat then 8 else 7) (lane (XORs3 s)))).

(** ** Four chaining values *)

Definition st4 : Type := w8 * w8 * w8 * w8.
Definition READ_STATE4 (V : list (list Z)) : st4 := (row (nth 0 V []), row (nth 1 V []), row (nth 2 V []), row (nth 3 V [])).
Definition WRITE_STATE4 (s : st4) : list (list Z) := let '(V0, V1, V2, V3) := s in [lane V0; lane V1; lane V2; lane V3].

Definition MI4 (buf : list Z) (s : st4) : st4 :=
  let '(V0, V1, V2, V3) := s in
  let M := read_M buf in
  let a := XOR V0 V1 in
  let b := XOR V2 V3 in
  let a := XOR a b in
  let a := M2 a in
  let V0 := XOR a V0 in
  let V1 := XOR a V1 in
  let V2 := XOR a V2 in
  let V3 := XOR a V3 in
  let b := M2 V0 in
  let b := XOR b V3 in
  let V3 := M2 V3 in
  let V3 := XOR V3 V2 in
  let V2 := M2 V2 in
  let V2 := XOR V2 V1 in
  let V1 := M2 V1 in
  let V1 := XOR V1 V0 in
  let V0 := XOR b M in
  let M := M2 M in
  let V1 := XOR V1 M in
  let M := M2 M in
  let V2 := XOR V2 M in
  let M := M2 M in
  let V3 := XOR V3 M in
  (V0, V1, V2, V3).

Definition TWEAK4 (s : st4) : st4 :=
  let '(V0, V1, V2, V3) := s in
  (V0, tweak 1 V1, tweak 2 V2, tweak 3 V3).

Definition P4 (s : st4) : st4 :=
  let '(V0, V1, V2, V3) := TWEAK4 s in
  let (V0, V1) := pair_rounds RCW010 RCW014 V0 V1 in
  let (V2, V3) := pair_rounds RCW230 RCW234 V2 V3 in
  (V0, V1, V2, V3).

Definition P4_seq (s : st4) : st4 :=
  let '(V0, V1, V2, V3) := TWEAK4 s in
  let V0 := rounds RC00 RC04 V0 in
  let V1 := rounds RC10 RC14 V1 in
  let V2 := rounds RC20 RC24 V2 in
  let V3 := rounds RC30 RC34 V3 in
  (V0, V1, V2, V3).

Definition XORs4 (s : st4) : w8 := let '(V0, V1, V2, V3) := s in XOR (XOR (XOR V0 V1) V2) V3.

Definition luffa4 (sc : sctx (list (list Z))) (data : list Z) : sctx (list (list Z)) :=
  if (length data <? 32 - ptr sc)%nat then
    Ctx (memcpy (buf sc) (ptr sc) data (length data)) (ptr sc + length data) (st sc)
  else
    let r := core_loop 32 (fun b s => P4 (MI4 b s)) (length data) (buf sc) (ptr sc) (READ_STATE4 (st sc)) data in
    Ctx (buf r) (ptr r) (WRITE_STATE4 (st r)).

Definition luffa4_close (sc : sctx (list (list Z))) (ub n : Z) : sctx (list (list Z)) * list Z :=
  let z := 0x80 >> n in
  let b := upd (buf sc) (ptr sc) (((ub .& SPH_T32 (- z)) .| z) .& 0xFF) in
  let p := S (ptr sc) in
  let b := memset b p 0 (32 - p) in
  let s := READ_STATE4 (st sc) in
  let s := P4 (MI4 b s) in
  let b := memset b 0 0 32 in
  let s := P4 (MI4 b s) in
  let out := flat_map sph_enc32be (lane (XORs4 s)) in
  let s := P4 (MI4 b s) in
  let out := out ++ flat_map sph_enc32be (firstn 4 (lane (XORs4 s))) in
  (Ctx b p (st sc), out).

(** ** Five chaining values *)

Definition st5 : Type := w8 * w8 * w8 * w8 * w8.
Definition READ_STATE5 (V : list (list Z)) : st5 := (row (nth 0 V []), row (nth 1 V []), row (nth 2 V []), row (nth 3 V []), row (nth 4 V [])).
Definition WRITE_STATE5 (s : st5) : list (list Z) := let '(V0, V1, V2, V3, V4) := s in [lane V0; lane V1; lane V2; lane V3; lane V4].

Definition MI5 (buf : list Z) (s : st5) : st5 :=
  let '(V0, V1, V2, V3, V4) := s in
  let M := read_M buf in
  let a := XOR V0 V1 in
  let b := XOR V2 V3 in
  let a := XOR a b in
  let a := XOR a V4 in
  let a := M2 a in
  let V0 := XOR a V0 in
  let V1 := XOR a V1 in
  let V2 := XOR a V2 in
  let V3 := XOR a V3 in
  let V4 := XOR a V4 in
  let b := M2 V0 in
  let b := XOR b V1 in
  let V1 := M2 V1 in
  let V1 := XOR V1 V2 in
  let V2 := M2 V2 in
  let V2 := XOR V2 V3 in
  let V3 := M2 V3 in
  let V3 := XOR V3 V4 in
  let V4 := M2 V4 in
  let V4 := XOR V4 V0 in
  let V0 := M2 b in
  let V0 := XOR V0 V4 in
  let V4 := M2 V4 in
  let V4 := XOR V4 V3 in
  let V3 := M2 V3 in
  let V3 := XOR V3 V2 in
  let V2 := M2 V2 in
  let V2 := XOR V2 V1 in
  let V1 := M2 V1 in
  let V1 := XOR V1 b in
  let V0 := XOR V0 M in
  let M := M2 M in
  let V1 := XOR V1 M in
  let M := M2 M in
  let V2 := XOR V2 M in
  let M := M2 M in
  let V3 := XOR V3 M in
  let M := M2 M in
  let V4 := XOR V4 M in
  (V0, V1, V2, V3, V4).

Definition TWEAK5 (s : st5) : st5 :=
  let '(V0, V1, V2, V3, V4) := s in
  (V0, tweak 1 V1, tweak 2 V2, tweak 3 V3, tweak 4 V4).

Definition P5 (s : st5) : st5 :=
  let '(V0, V1, V2, V3, V4) := TWEAK5 s in
  let (V0, V1) := pair_rounds RCW010 RCW014 V0 V1 in
  let (V2, V3) := pair_rounds RCW230 RCW234 V2 V3 in
  let V4 := rounds RC40 RC44 V4 in
  (V0, V1, V2, V3, V4).

Definition P5_seq (s : st5) : st5 :=
  let '(V0, V1, V2, V3, V4) := TWEAK5 s in
  let V0 := rounds RC00 RC04 V0 in
  let V1 := rounds RC10 RC14 V1 in
  let V2 := rounds RC20 RC24 V2 in
  let V3 := rounds RC30 RC34 V3 in
  let V4 := rounds RC40 RC44 V4 in
  (V0, V1, V2, V3, V4).

Definition XORs5 (s : st5) : w8 := let '(V0, V1, V2, V3, V4) := s in XOR (XOR (XOR (XOR V0 V1) V2) V3) V4.

Definition luffa5 (sc : sctx (list (list Z))) (data : list Z) : sctx (list (list Z)) :=
  if (length data <? 32 - ptr sc)%nat then
    Ctx (memcpy (buf sc) (ptr sc) data (length data)) (ptr sc + length data) (st sc)
  else
    let r := core_loop 32 (fun b s => P5 (MI5 b s)) (length data) (buf sc) (ptr sc) (READ_STATE5 (st sc)) data in
    Ctx (buf r) (ptr r) (WRITE_STATE5 (st r)).

Definition luffa5_close (sc : sctx (list (list Z))) (ub n : Z) : sctx (list (list Z)) * list Z :=
  let z := 0x80 >> n in
  let b := upd (buf sc) (ptr sc) (((ub .& SPH_T32 (- z)) .| z) .& 0xFF) in
  let p := S (ptr sc) in
  let b := memset b p 0 (32 - p) in
  let s := READ_STATE5 (st sc) in
  let s := P5 (MI5 b s) in
  let b := memset b 0 0 32 in
  let s := P5 (MI5 b s) in
  let out := flat_map sph_enc32be (lane (XORs5 s)) in
  let s := P5 (MI5 b s) in
  let out := out ++ flat_map sph_enc32be ((lane (XORs5 s))) in
  (Ctx b p (st sc), out).

Definition sph_luffa224_init (cc : sctx (list (list Z))) : sctx (list (list Z)) := Ctx (buf cc) 0 (firstn 3 V_INIT).
Definition sph_luffa224 (cc : sctx (list (list Z))) (data : list Z) := luffa3 cc data.
Definition sph_luffa224_addbits_and_close (cc : sctx (list (list Z))) (ub n : Z) :=
  let (cc, dst) := luffa3_close cc ub n 7 in (dst, sph_luffa224_init cc).
Definition sph_luffa224_close (cc : sctx (list (list Z))) := sph_luffa224_addbits_and_close cc 0 0.

Definition sph_luffa256_init (cc : sctx (list (list Z))) : sctx (list (list Z)) := Ctx (buf cc) 0 (firstn 3 V_INIT).
Definition sph_luffa256 (cc : sctx (list (list Z))) (data : list Z) := luffa3 cc data.
Definition sph_luffa256_addbits_and_close (cc : sctx (list (list Z))) (ub n : Z) :=
  let (cc, dst) := luffa3_close cc ub n 8 in (dst, sph_luffa256_init cc).
Definition sph_luffa256_close (cc : sctx (list (list Z))) := sph_luffa256_addbits_and_close cc 0 0.

Definition sph_luffa384_init (cc : sctx (list (list Z))) : sctx (list (list Z)) := Ctx (buf cc) 0 (firstn 4 V_INIT).
Definition sph_luffa384 (cc : sctx (list (list Z))) (data : list Z) := luffa4 cc data.
Definition sph_luffa384_addbits_and_close (cc : sctx (list (list Z))) (ub n : Z) :=
  let (cc, dst) := luffa4_close cc ub n in (dst, sph_luffa384_init cc).
Definition sph_luffa384_close (cc : sctx (list (list Z))) := sph_luffa384_addbits_and_close cc 0 0.

Definition sph_luffa512_init (cc : sctx (list (list Z))) : sctx (list (list Z)) := Ctx (buf cc) 0 (firstn 5 V_INIT).
Definition sph_luffa512 (cc : sctx (list (list Z))) (data : list Z) := luffa5 cc data.
Definition sph_luffa512_addbits_and_close (cc : sctx (list (list Z))) (ub n : Z) :=
  let (cc, dst) := luffa5_close cc ub n in (dst, sph_luffa512_init cc).
Definition sph_luffa512_close (cc : sctx (list (list Z))) := sph_luffa512_addbits_and_close cc 0 0.
