(* ===== verification/LuffaSpec.v ===== *)
(** * LuffaSpec: Luffa (version 2) and its implementation

    The specification of the hash function: the message injection as a matrix
    over the ring of polynomials with 32-bit coefficients, the permutations
    with their S-box on columns of bits, the generator of the round constants,
    padding and output.  The code of Luffa.v computes it: the Boolean formulas
    of [SUB_CRUMB] are the S-box, the chains of [XOR] and [M2] are the matrices,
    and two chaining values in 64-bit words stay independent. *)

From Stdlib Require Import ZArith List Lia Bool Btauto.
From S2P Require Import Prelude SphTypes Stream HashLib Luffa.
Import ListNotations.

Open Scope Z_scope.
Open Scope word_scope.

(** ** The specification *)

(** Eight words as the coefficients of a polynomial of degree 7; multiplication
    by [x] modulo [x^8 + x^4 + x^3 + x + 1]. *)
Definition xorl (a b : list Z) : list Z := map2 Z.lxor a b.
Definition zero8 : list Z := repeat 0 8.
Definition mulx (a : list Z) : list Z :=
  let c := nth 7 a 0 in
  xorl (0 :: firstn 7 a) (map (fun k : Z => if Z.testbit 0x1b k then c else 0) [0; 1; 2; 3; 4; 5; 6; 7]).
Definition scale (c : Z) (a : list Z) : list Z :=
  fold_left (fun r k => if Z.testbit c (Z.of_nat k) then xorl r (iter k mulx a) else r) (seq 0 5) zero8.

(** The matrices of the message injection; the last column is for the message
    block. *)
Definition mi_matrix (w : nat) : list (list Z) :=
  match w with
  | 3%nat => [[3; 2; 2; 1]; [2; 3; 2; 2]; [2; 2; 3; 4]]
  | 4%nat => [[4; 6; 6; 7; 1]; [7; 4; 6; 6; 2]; [6; 7; 4; 6; 4]; [6; 6; 7; 4; 8]]
  | _ => [[0x0f; 0x08; 0x0a; 0x0a; 0x08; 0x01]; [0x08; 0x0f; 0x08; 0x0a; 0x0a; 0x02]; [0x0a; 0x08; 0x0f; 0x08; 0x0a; 0x04];
          [0x0a; 0x0a; 0x08; 0x0f; 0x08; 0x08]; [0x08; 0x0a; 0x0a; 0x08; 0x0f; 0x10]]
  end.
Definition inject (w : nat) (V : list (list Z)) (M : list Z) : list (list Z) :=
  map (fun r => fold_left xorl (map2 scale r (V ++ [M])) zero8) (mi_matrix w).

(** The 32-bit word with the bits [f]. *)
Definition word_of (f : Z -> bool) : Z := fold_right (fun i x => x .| (Z.b2z (f i) << i)) 0 (map Z.of_nat (seq 0 32)).

(** The S-box on the columns of four words, the first word least significant. *)
Definition luffa_sbox : list Z := [13; 14; 0; 1; 5; 10; 7; 6; 11; 3; 9; 12; 15; 8; 2; 4].
Definition column (a0 a1 a2 a3 i : Z) : Z :=
  Z.b2z (Z.testbit a0 i) + 2 * Z.b2z (Z.testbit a1 i) + 4 * Z.b2z (Z.testbit a2 i) + 8 * Z.b2z (Z.testbit a3 i).
Definition sub_word (a0 a1 a2 a3 k : Z) : Z :=
  word_of (fun i => Z.testbit (nth (Z.to_nat (column a0 a1 a2 a3 i)) luffa_sbox 0) k).
Definition sub_crumb (a0 a1 a2 a3 : Z) : Z * Z * Z * Z :=
  (sub_word a0 a1 a2 a3 0, sub_word a0 a1 a2 a3 1, sub_word a0 a1 a2 a3 2, sub_word a0 a1 a2 a3 3).

Definition mix_word (x y : Z) : Z * Z :=
  let y := y .^ x in
  let x := rotl 32 x 2 .^ y in
  let y := rotl 32 y 14 .^ x in
  let x := rotl 32 x 10 .^ y in
  (x, rotl 32 y 1).

Definition step (c0 c4 : Z) (a : list Z) : list Z :=
  match a with
  | [a0; a1; a2; a3; a4; a5; a6; a7] =>
      let '(a0, a1, a2, a3) := sub_crumb a0 a1 a2 a3 in
      let '(a5, a6, a7, a4) := sub_crumb a5 a6 a7 a4 in
      let (a0, a4) := mix_word a0 a4 in
      let (a1, a5) := mix_word a1 a5 in
      let (a2, a6) := mix_word a2 a6 in
      let (a3, a7) := mix_word a3 a7 in
      [a0 .^ c0; a1; a2; a3; a4 .^ c4; a5; a6; a7]
  | _ => a
  end.

(** The generator of the constants: a 64-bit register that is shifted, with the
    feedback polynomial [c4d6496c55c61c8d], and whose halves are exchanged. *)
Definition generate (t : Z * Z) : Z * Z :=
  let (l, r) := t in
  let x := (l << 32) .| r in
  let x := if Z.testbit x 63 then trunc 64 (x << 1) .^ 0xc4d6496c55c61c8d else trunc 64 (x << 1) in
  (trunc 32 x, x >> 32).
Definition generator_start (j : nat) : Z * Z :=
  nth j [(0x181cca53, 0x380cde06); (0x5b6f0876, 0xf16f8594); (0x7e106ce9, 0x38979cb0); (0xbb62f364, 0x92e93c29); (0x9a025047, 0xcff2a940)] (0, 0).
Definition constant (j k : nat) : Z := snd (iter k generate (generator_start j)).

(** Permutation [j]: the tweak and eight steps. *)
Definition permutation (j : nat) (a : list Z) : list Z :=
  fold_left (fun a r => step (constant j (2 * r + 1)) (constant j (2 * r + 2)) a) (seq 0 8)
    (firstn 4 a ++ map (fun x => rotl 32 x (Z.of_nat j)) (skipn 4 a)).

Definition luffa_block (w : nat) (b : list Z) (V : list (list Z)) : list (list Z) :=
  map2 permutation (seq 0 w) (inject w V (read_words sph_dec32be 4 8 b)).

(** The padding, a blank round, and the output of a round. *)
Definition luffa_pad (m : list Z) (ub n : Z) : list Z := m ++ last_byte ub n :: repeat 0 (31 - length m mod 32).
Definition blank (w : nat) (V : list (list Z)) : list (list Z) := luffa_block w (repeat 0 32) V.
Definition output (V : list (list Z)) : list Z := flat_map sph_enc32be (fold_left xorl V zero8).

Definition luffa_width (d : nat) : nat := if (d <=? 256)%nat then 3 else if (d <=? 384)%nat then 4 else 5.
Definition luffa_spec (d : nat) (m : list Z) (ub n : Z) : list Z :=
  let w := luffa_width d in
  let V := fst (absorb 32 (luffa_block w) (firstn w V_INIT) (luffa_pad m ub n)) in
  let V := blank w V in
  firstn (d / 8) (output V ++ output (blank w V)).

(** ** The S-box *)

Lemma word_of_spec f i : 0 <= i -> Z.testbit (word_of f) i = (i <? 32) && f i.
Proof.
  intros Hi; unfold word_of.
  assert (H : forall n k, Z.testbit (fold_right (fun i x => x .| (Z.b2z (f i) << i)) 0 (map Z.of_nat (seq k n))) i = ((Z.of_nat k <=? i) && (i <? Z.of_nat (k + n))) && f i).
  { induction n as [|n IH]; intros k; cbn [seq map fold_right].
    - rewrite Z.bits_0; destruct (Z.leb_spec (Z.of_nat k) i), (Z.ltb_spec i (Z.of_nat (k + 0))); cbn; lia.
    - rewrite Z.lor_spec, IH, Z.shiftl_spec by lia.
      destruct (Z.eq_dec i (Z.of_nat k)) as [->|Hne].
      + rewrite Z.sub_diag, Z.b2z_bit0; destruct (Z.leb_spec (Z.of_nat (S k)) (Z.of_nat k)), (Z.leb_spec (Z.of_nat k) (Z.of_nat k)), (Z.ltb_spec (Z.of_nat k) (Z.of_nat (k + S n))); cbn; (reflexivity || lia).
      + assert (E : Z.testbit (Z.b2z (f (Z.of_nat k))) (i - Z.of_nat k) = false).
        { destruct (Z.lt_ge_cases i (Z.of_nat k)); [apply Z.testbit_neg_r; lia|]; destruct (f (Z.of_nat k)); [|apply Z.bits_0].
          cbn [Z.b2z]; destruct (i - Z.of_nat k) as [|p|p] eqn:D; [lia | now destruct p | lia]. }
        rewrite E, orb_false_r; f_equal.
        destruct (Z.leb_spec (Z.of_nat (S k)) i), (Z.leb_spec (Z.of_nat k) i), (Z.ltb_spec i (Z.of_nat (S k + n))), (Z.ltb_spec i (Z.of_nat (k + S n))); cbn; (reflexivity || lia). }
  rewrite H; change (Z.of_nat 0) with 0; change (Z.of_nat (0 + 32)) with 32; now rewrite (proj2 (Z.leb_le 0 i) Hi).
Qed.

Lemma word_of_inw f : inw 32 (word_of f).
Proof.
  replace (word_of f) with (trunc 32 (word_of f)); [apply trunc_inw; lia|].
  apply Z.bits_inj'; intros i Hi; rewrite trunc_spec, word_of_spec by lia; now destruct (i <? 32).
Qed.

Lemma T32_lnot x i : 0 <= i < 32 -> Z.testbit (SPH_T32 (Z.lnot x)) i = negb (Z.testbit x i).
Proof. intros Hi; rewrite SPH_T32_trunc, trunc_spec, Z.lnot_spec by lia; now rewrite (proj2 (Z.ltb_lt _ _)) by lia. Qed.

Lemma inw_and w x y : 0 <= w -> inw w x -> inw w y -> inw w (x .& y).
Proof. intros Hw Hx Hy; apply inw_land; [assumption | assumption | unfold inw in Hy; lia]. Qed.

#[local] Hint Resolve inw_and SPH_T32_inw word_of_inw : word.

(** The Boolean formulas are the S-box. *)
Lemma SUB_CRUMB_spec a0 a1 a2 a3 : inw 32 a0 -> inw 32 a1 -> inw 32 a2 -> inw 32 a3 -> SUB_CRUMB a0 a1 a2 a3 = sub_crumb a0 a1 a2 a3.
Proof.
  intros H0 H1 H2 H3; unfold SUB_CRUMB, SUB_CRUMB_GEN, sub_crumb; cbv zeta.
  repeat (apply (f_equal2 pair)); (apply (inw_ext 32); [lia | auto 20 with word | apply word_of_inw |]).
  all: intros i Hi; unfold sub_word; rewrite word_of_spec, (proj2 (Z.ltb_lt i 32)) by lia.
  all: repeat first [rewrite Z.lxor_spec | rewrite Z.lor_spec | rewrite Z.land_spec | rewrite T32_lnot by lia]; unfold column.
  all: destruct (Z.testbit a0 i), (Z.testbit a1 i), (Z.testbit a2 i), (Z.testbit a3 i); reflexivity.
Qed.

Lemma sub_crumb_inw a0 a1 a2 a3 : let '(b0, b1, b2, b3) := sub_crumb a0 a1 a2 a3 in inw 32 b0 /\ inw 32 b1 /\ inw 32 b2 /\ inw 32 b3.
Proof. unfold sub_crumb; refine (conj _ (conj _ (conj _ _))); apply word_of_inw. Qed.

Lemma MIX_WORD_spec u v : MIX_WORD u v = mix_word u v.
Proof. unfold MIX_WORD, mix_word; now rewrite !SPH_ROTL32_rotl. Qed.

Lemma mix_word_inw u v : inw 32 u -> inw 32 v -> let (x, y) := mix_word u v in inw 32 x /\ inw 32 y.
Proof. intros Hu Hv; unfold mix_word; cbv zeta; split; auto with word. Qed.

(** ** Words of 32 bits *)
Definition ok8 (v : w8) : Prop := words 32 (lane v).

Lemma ok8_iff v0 v1 v2 v3 v4 v5 v6 v7 : ok8 (V8 v0 v1 v2 v3 v4 v5 v6 v7) <->
  (inw 32 v0 /\ inw 32 v1 /\ inw 32 v2 /\ inw 32 v3 /\ inw 32 v4 /\ inw 32 v5 /\ inw 32 v6 /\ inw 32 v7).
Proof. unfold ok8, words; cbn; rewrite !Forall_cons_iff; intuition. Qed.

Ltac ok8_split := apply ok8_iff; refine (conj _ (conj _ (conj _ (conj _ (conj _ (conj _ (conj _ _))))))).
Ltac split_words H := apply ok8_iff in H as (? & ? & ? & ? & ? & ? & ? & ?).

Lemma XOR_ok a b : ok8 a -> ok8 b -> ok8 (XOR a b).
Proof. destruct a, b; intros Ha Hb; split_words Ha; split_words Hb; ok8_split; auto with word. Qed.

Lemma M2_ok a : ok8 a -> ok8 (M2 a).
Proof. destruct a; intros Ha; split_words Ha; ok8_split; auto with word. Qed.

Lemma tweak_ok j a : ok8 a -> ok8 (tweak j a).
Proof. destruct a; intros Ha; split_words Ha; ok8_split; auto with word. Qed.

Lemma read_M_ok b : words 8 b -> ok8 (read_M b).
Proof. intros Hb; ok8_split; auto with word. Qed.

Lemma low8_ok w : ok8 (low8 w).
Proof. destruct w; ok8_split; auto with word. Qed.

Lemma high8_ok w : ok8 (high8 w).
Proof. destruct w; ok8_split; auto with word. Qed.

#[local] Hint Resolve XOR_ok M2_ok tweak_ok read_M_ok low8_ok high8_ok : word.

(** ** One chaining value *)
Lemma luffa_round_spec c0 c4 v : inw 32 c0 -> inw 32 c4 -> ok8 v ->
  lane (round_gen SUB_CRUMB MIX_WORD c0 c4 v) = step c0 c4 (lane v) /\ ok8 (round_gen SUB_CRUMB MIX_WORD c0 c4 v).
Proof.
  intros Hc0 Hc4 Hv; destruct v as [v0 v1 v2 v3 v4 v5 v6 v7]; split_words Hv.
  unfold round_gen, step; cbn [lane]; rewrite !SUB_CRUMB_spec by assumption.
  pose proof (sub_crumb_inw v0 v1 v2 v3) as Ha; pose proof (sub_crumb_inw v5 v6 v7 v4) as Hb.
  destruct (sub_crumb v0 v1 v2 v3) as [[[a0 a1] a2] a3], (sub_crumb v5 v6 v7 v4) as [[[a5 a6] a7] a4].
  destruct Ha as (? & ? & ? & ?), Hb as (? & ? & ? & ?).
  pose proof (mix_word_inw a0 a4) as Hm1; pose proof (mix_word_inw a1 a5) as Hm2; pose proof (mix_word_inw a2 a6) as Hm3; pose proof (mix_word_inw a3 a7) as Hm4.
  rewrite MIX_WORD_spec; destruct (mix_word a0 a4); rewrite MIX_WORD_spec; destruct (mix_word a1 a5).
  rewrite MIX_WORD_spec; destruct (mix_word a2 a6); rewrite MIX_WORD_spec; destruct (mix_word a3 a7); split; [reflexivity|].
  ok8_split; try apply inw_lxor; try lia; auto; (apply Hm1 || apply Hm2 || apply Hm3 || apply Hm4); assumption.
Qed.

(** ** Two chaining values in 64-bit words *)
Definition packs (l h w : Z) : Prop := inw 32 l /\ inw 32 h /\ w = pack l h.

Lemma pack_spec l h i : inw 32 l -> 0 <= i -> Z.testbit (pack l h) i = if i <? 32 then Z.testbit l i else Z.testbit h (i - 32).
Proof.
  intros Hl Hi; unfold pack; rewrite Z.lor_spec, Z.shiftl_spec by lia; destruct (Z.ltb_spec i 32).
  - now rewrite (Z.testbit_neg_r h) by lia; rewrite orb_false_r.
  - now rewrite (inw_high 32 l) by (assumption || lia).
Qed.

Section Bitwise.
Context (op : Z -> Z -> Z) (f : bool -> bool -> bool).
Context (op_spec : forall x y i, 0 <= i -> Z.testbit (op x y) i = f (Z.testbit x i) (Z.testbit y i)).
Context (op_inw : forall x y, inw 32 x -> inw 32 y -> inw 32 (op x y)).

Lemma packs_op l h w l' h' w' : packs l h w -> packs l' h' w' -> packs (op l l') (op h h') (op w w').
Proof.
  intros (Hl & Hh & ->) (Hl' & Hh' & ->); split; [|split]; auto.
  apply Z.bits_inj'; intros i Hi; rewrite op_spec, !pack_spec by auto; destruct (Z.ltb_spec i 32); now rewrite op_spec by lia.
Qed.
End Bitwise.

Lemma packs_lxor l h w l' h' w' : packs l h w -> packs l' h' w' -> packs (l .^ l') (h .^ h') (w .^ w').
Proof. apply (packs_op Z.lxor xorb); [intros; apply Z.lxor_spec | auto with word]. Qed.

Lemma packs_lor l h w l' h' w' : packs l h w -> packs l' h' w' -> packs (l .| l') (h .| h') (w .| w').
Proof. apply (packs_op Z.lor orb); [intros; apply Z.lor_spec | auto with word]. Qed.

Lemma packs_land l h w l' h' w' : packs l h w -> packs l' h' w' -> packs (l .& l') (h .& h') (w .& w').
Proof. apply (packs_op Z.land andb); [intros; apply Z.land_spec | auto with word]. Qed.

Lemma packs_lnot l h w : packs l h w -> packs (SPH_T32 (Z.lnot l)) (SPH_T32 (Z.lnot h)) (SPH_T64 (Z.lnot w)).
Proof.
  intros (Hl & Hh & ->); split; [|split]; auto with word; apply Z.bits_inj'; intros i Hi.
  rewrite (pack_spec (SPH_T32 _)), SPH_T64_trunc, trunc_spec, Z.lnot_spec, pack_spec by (auto with word; lia).
  destruct (Z.ltb_spec i 32); rewrite SPH_T32_trunc, trunc_spec, Z.lnot_spec by lia.
  - now destruct (Z.ltb_spec i 64), (Z.ltb_spec i 32); try lia.
  - now destruct (Z.ltb_spec i 64), (Z.ltb_spec (i - 32) 32); try lia.
Qed.

Create HintDb packs.
#[local] Hint Resolve packs_lxor packs_lor packs_land packs_lnot : packs.

Lemma SUB_CRUMBW_packs l0 l1 l2 l3 h0 h1 h2 h3 w0 w1 w2 w3 :
  packs l0 h0 w0 -> packs l1 h1 w1 -> packs l2 h2 w2 -> packs l3 h3 w3 ->
  let '(l0, l1, l2, l3) := SUB_CRUMB l0 l1 l2 l3 in let '(h0, h1, h2, h3) := SUB_CRUMB h0 h1 h2 h3 in
  let '(w0, w1, w2, w3) := SUB_CRUMBW w0 w1 w2 w3 in
  packs l0 h0 w0 /\ packs l1 h1 w1 /\ packs l2 h2 w2 /\ packs l3 h3 w3.
Proof. intros; unfold SUB_CRUMB, SUB_CRUMBW, SUB_CRUMB_GEN; cbv zeta; refine (conj _ (conj _ (conj _ _))); auto 20 with packs. Qed.

Lemma pack_low l h : inw 32 l -> SPH_T32 (pack l h) = l.
Proof.
  intros Hl; apply (inw_ext 32); [lia | auto with word | assumption |]; intros i Hi.
  rewrite SPH_T32_trunc, trunc_spec, pack_spec by (assumption || lia); now destruct (Z.ltb_spec i 32); [|lia].
Qed.

Lemma pack_high l h : inw 32 l -> inw 32 h -> SPH_T32 (pack l h >> 32) = h.
Proof.
  intros Hl Hh; apply (inw_ext 32); [lia | auto with word | assumption |]; intros i Hi.
  rewrite SPH_T32_trunc, trunc_spec, Z.shiftr_spec, pack_spec by (assumption || lia).
  destruct (Z.ltb_spec i 32), (Z.ltb_spec (i + 32) 32); try lia; cbn [andb]; f_equal; lia.
Qed.

Lemma MIX_WORDW_packs lu hu wu lv hv wv : packs lu hu wu -> packs lv hv wv ->
  let (lu, lv) := MIX_WORD lu lv in let (hu, hv) := MIX_WORD hu hv in let (wu, wv) := MIX_WORDW wu wv in
  packs lu hu wu /\ packs lv hv wv.
Proof.
  intros Hu Hv; pose proof (packs_lxor _ _ _ _ _ _ Hv Hu) as Hx; unfold MIX_WORD, MIX_WORDW; cbv zeta.
  destruct Hu as (? & ? & ->), Hx as (? & ? & ->); rewrite !pack_low, !pack_high by assumption.
  split; (split; [|split]); auto with word.
Qed.

Definition packs8 (v v' w : w8) : Prop := Forall2 (fun p x => packs (fst p) (snd p) x) (combine (lane v) (lane v')) (lane w).

Lemma packs8_iff l0 l1 l2 l3 l4 l5 l6 l7 h0 h1 h2 h3 h4 h5 h6 h7 w0 w1 w2 w3 w4 w5 w6 w7 :
  packs8 (V8 l0 l1 l2 l3 l4 l5 l6 l7) (V8 h0 h1 h2 h3 h4 h5 h6 h7) (V8 w0 w1 w2 w3 w4 w5 w6 w7) <->
  (packs l0 h0 w0 /\ packs l1 h1 w1 /\ packs l2 h2 w2 /\ packs l3 h3 w3 /\ packs l4 h4 w4 /\ packs l5 h5 w5 /\ packs l6 h6 w6 /\ packs l7 h7 w7).
Proof. unfold packs8; cbn; rewrite !Forall2_cons_iff; cbn; intuition. Qed.

Lemma round_packs c0 c4 c0' c4' d0 d4 v v' w : packs c0 c0' d0 -> packs c4 c4' d4 -> packs8 v v' w ->
  packs8 (round_gen SUB_CRUMB MIX_WORD c0 c4 v) (round_gen SUB_CRUMB MIX_WORD c0' c4' v') (round_gen SUB_CRUMBW MIX_WORDW d0 d4 w).
Proof.
  intros Hc Hd H; destruct v as [l0 l1 l2 l3 l4 l5 l6 l7], v' as [h0 h1 h2 h3 h4 h5 h6 h7], w as [w0 w1 w2 w3 w4 w5 w6 w7].
  apply packs8_iff in H as (P0 & P1 & P2 & P3 & P4 & P5 & P6 & P7); unfold round_gen.
  pose proof (SUB_CRUMBW_packs _ _ _ _ _ _ _ _ _ _ _ _ P0 P1 P2 P3) as A; pose proof (SUB_CRUMBW_packs _ _ _ _ _ _ _ _ _ _ _ _ P5 P6 P7 P4) as B.
  destruct (SUB_CRUMB l0 l1 l2 l3) as [[[? ?] ?] ?], (SUB_CRUMB h0 h1 h2 h3) as [[[? ?] ?] ?], (SUB_CRUMBW w0 w1 w2 w3) as [[[? ?] ?] ?].
  destruct (SUB_CRUMB l5 l6 l7 l4) as [[[? ?] ?] ?], (SUB_CRUMB h5 h6 h7 h4) as [[[? ?] ?] ?], (SUB_CRUMBW w5 w6 w7 w4) as [[[? ?] ?] ?].
  destruct A as (A0 & A1 & A2 & A3), B as (A5 & A6 & A7 & A4).
  pose proof (MIX_WORDW_packs _ _ _ _ _ _ A0 A4) as M0; pose proof (MIX_WORDW_packs _ _ _ _ _ _ A1 A5) as M1.
  pose proof (MIX_WORDW_packs _ _ _ _ _ _ A2 A6) as M2; pose proof (MIX_WORDW_packs _ _ _ _ _ _ A3 A7) as M3.
  repeat match goal with |- context [MIX_WORD ?a ?b] => destruct (MIX_WORD a b) | |- context [MIX_WORDW ?a ?b] => destruct (MIX_WORDW a b) end.
  apply packs8_iff; intuition auto using packs_lxor.
Qed.

(** The constants of the 64-bit loops are those of the two chaining values. *)
Lemma RCW_packs r : (r < 8)%nat ->
  packs (nth r RC00 0) (nth r RC10 0) (nth r RCW010 0) /\ packs (nth r RC04 0) (nth r RC14 0) (nth r RCW014 0)
  /\ packs (nth r RC20 0) (nth r RC30 0) (nth r RCW230 0) /\ packs (nth r RC24 0) (nth r RC34 0) (nth r RCW234 0).
Proof. intros Hr; do 8 (destruct r as [|r]; [unfold packs, inw; cbn; lia|]); lia. Qed.

Lemma fold_rel {A B D} (R : A -> B -> Prop) (f : A -> D -> A) (g : B -> D -> B) l a b :
  (forall a b x, In x l -> R a b -> R (f a x) (g b x)) -> R a b -> R (fold_left f l a) (fold_left g l b).
Proof. revert a b; induction l as [|x l IH]; intros a b H Hr; cbn; [assumption|]; apply IH; [intros; apply H; cbn; auto | apply H; cbn; auto]. Qed.

Lemma pack8_packs v v' : ok8 v -> ok8 v' -> packs8 v v' (pack8 v v').
Proof. destruct v, v'; intros Hv Hv'; split_words Hv; split_words Hv'; apply packs8_iff; repeat split; unfold inw in *; lia. Qed.

Lemma packs8_unpack v v' w : packs8 v v' w -> low8 w = v /\ high8 w = v'.
Proof.
  destruct v, v', w; intros H; apply packs8_iff in H; unfold packs in H; decompose [and] H; subst; cbn [low8 high8].
  now rewrite !pack_low, !pack_high by assumption.
Qed.

Lemma pair_rounds_spec v v' : ok8 v -> ok8 v' ->
  pair_rounds RCW010 RCW014 v v' = (rounds RC00 RC04 v, rounds RC10 RC14 v')
  /\ pair_rounds RCW230 RCW234 v v' = (rounds RC20 RC24 v, rounds RC30 RC34 v').
Proof.
  intros Hv Hv'; unfold pair_rounds, roundsW; cbv zeta.
  assert (H : forall c0 c0' c4 c4' d0 d4, (forall r, (r < 8)%nat -> packs (nth r c0 0) (nth r c0' 0) (nth r d0 0) /\ packs (nth r c4 0) (nth r c4' 0) (nth r d4 0)) ->
    packs8 (rounds c0 c4 v) (rounds c0' c4' v') (fold_left (fun w r => round_gen SUB_CRUMBW MIX_WORDW (nth r d0 0) (nth r d4 0) w) (seq 0 8) (pack8 v v'))).
  { intros c0 c0' c4 c4' d0 d4 Hc; unfold rounds.
    assert (E : forall l a a' b, (forall x, In x l -> (x < 8)%nat) -> packs8 a a' b ->
      packs8 (fold_left (fun v r => round_gen SUB_CRUMB MIX_WORD (nth r c0 0) (nth r c4 0) v) l a) (fold_left (fun v r => round_gen SUB_CRUMB MIX_WORD (nth r c0' 0) (nth r c4' 0) v) l a')
        (fold_left (fun w r => round_gen SUB_CRUMBW MIX_WORDW (nth r d0 0) (nth r d4 0) w) l b)).
    { induction l as [|x l IH]; intros a a' b Hx Hp; cbn [fold_left]; [assumption|]; apply IH; [intros; apply Hx; cbn; auto|].
      apply round_packs; [apply Hc, Hx; cbn; auto | apply Hc, Hx; cbn; auto | assumption]. }
    apply E; [intros x Hx; apply in_seq in Hx; lia | now apply pack8_packs]. }
  split; (edestruct packs8_unpack as [E1 E2]; [|now rewrite E1, E2]); apply H; intros r Hr; split; apply (RCW_packs r Hr).
Qed.

(** ** The permutations *)
Lemma constants_spec j r : (j < 5)%nat -> (r < 8)%nat ->
  let RC0 := nth j [RC00; RC10; RC20; RC30; RC40] [] in let RC4 := nth j [RC04; RC14; RC24; RC34; RC44] [] in
  nth r RC0 0 = constant j (2 * r + 1) /\ nth r RC4 0 = constant j (2 * r + 2) /\ inw 32 (nth r RC0 0) /\ inw 32 (nth r RC4 0).
Proof.
  intros Hj Hr; do 5 (destruct j as [|j]; [do 8 (destruct r as [|r]; [vm_compute; repeat split; congruence|]); lia|]); lia.
Qed.

Lemma luffa_rounds_spec j v : (j < 5)%nat -> ok8 v ->
  let RC0 := nth j [RC00; RC10; RC20; RC30; RC40] [] in let RC4 := nth j [RC04; RC14; RC24; RC34; RC44] [] in
  lane (rounds RC0 RC4 (tweak (Z.of_nat j) v)) = permutation j (lane v) /\ ok8 (rounds RC0 RC4 (tweak (Z.of_nat j) v)).
Proof.
  intros Hj Hv RC0 RC4; unfold rounds, permutation.
  refine (fold_rel (fun a b => lane a = b /\ ok8 a) _ _ _ _ _ _ _).
  - intros a b r Hr [<- Ha]; apply in_seq in Hr; destruct (constants_spec j r Hj ltac:(lia)) as (E0 & E4 & I0 & I4).
    fold RC0 RC4 in E0, E4, I0, I4; rewrite <- E0, <- E4; now apply luffa_round_spec.
  - split; [|auto with word]; destruct v; cbn [tweak lane firstn skipn map app]; now rewrite !SPH_ROTL32_rotl.
Qed.

Lemma tweak0 v : ok8 v -> tweak 0 v = v.
Proof.
  destruct v; intros Hv; split_words Hv; cbn [tweak]; rewrite !SPH_ROTL32_rotl.
  assert (E : forall x, inw 32 x -> rotl 32 x 0 = x).
  { intros x Hx; unfold rotl; rewrite Z.shiftl_0_r, Z.sub_0_r; replace (x >> 32) with 0 by (symmetry; rewrite Z.shiftr_div_pow2 by lia; apply Z.div_small, Hx).
    rewrite Z.lor_0_r; now apply trunc_small. }
  now rewrite !E by assumption.
Qed.

(** ** The message injection *)
Lemma read_M_words b : lane (read_M b) = read_words sph_dec32be 4 8 b.
Proof. reflexivity. Qed.

Ltac xor_solve := repeat (apply (f_equal2 (@cons Z)); [apply Z.bits_inj'; intros i _; repeat rewrite Z.lxor_spec; rewrite ?Z.bits_0; btauto|]); reflexivity.

Lemma MI3_spec b s : WRITE_STATE3 (MI3 b s) = inject 3 (WRITE_STATE3 s) (read_words sph_dec32be 4 8 b).
Proof.
  rewrite <- read_M_words; unfold MI3; generalize (read_M b); intros M; destruct s as [[V0 V1] V2].
  destruct V0, V1, V2, M. cbn -[Z.lxor].
  repeat (apply (f_equal2 (@cons (list Z)))); [xor_solve..|reflexivity].
Qed.

Lemma MI4_spec b s : WRITE_STATE4 (MI4 b s) = inject 4 (WRITE_STATE4 s) (read_words sph_dec32be 4 8 b).
Proof.
  rewrite <- read_M_words; unfold MI4; generalize (read_M b); intros M; destruct s as [[[V0 V1] V2] V3].
  destruct V0, V1, V2, V3, M; cbn -[Z.lxor].
  repeat (apply (f_equal2 (@cons (list Z)))); [xor_solve..|reflexivity].
Qed.

Lemma MI5_spec b s : WRITE_STATE5 (MI5 b s) = inject 5 (WRITE_STATE5 s) (read_words sph_dec32be 4 8 b).
Proof.
  rewrite <- read_M_words; unfold MI5; generalize (read_M b); intros M; destruct s as [[[[V0 V1] V2] V3] V4].
  destruct V0, V1, V2, V3, V4, M; cbn -[Z.lxor].
  repeat (apply (f_equal2 (@cons (list Z)))); [xor_solve..|reflexivity].
Qed.

(** ** The permutations of the whole state, in pairs and one by one *)
Definition lanes_ok (V : list (list Z)) : Prop := Forall (words 32) V.

Ltac lanes_in H := unfold lanes_ok in H; cbn [WRITE_STATE3 WRITE_STATE4 WRITE_STATE5] in H; repeat (apply Forall_cons_iff in H as [? H]);
  repeat match goal with K : words 32 (lane ?v) |- _ => change (ok8 v) in K end.
Ltac lanes_out := unfold lanes_ok; cbn [WRITE_STATE3 WRITE_STATE4 WRITE_STATE5]; repeat (apply Forall_cons; [|]); [..|apply Forall_nil];
  repeat match goal with |- words 32 (lane ?v) => change (ok8 v) end.

Lemma P3_pairs s : lanes_ok (WRITE_STATE3 s) -> P3 s = P3_seq s.
Proof.
  destruct s as [[V0 V1] V2]; intros H; lanes_in H; unfold P3, P3_seq; cbn [TWEAK3].
  rewrite (proj1 (pair_rounds_spec V0 (tweak 1 V1) ltac:(assumption) ltac:(auto with word))).
  reflexivity.
Qed.

Lemma P3_spec s : lanes_ok (WRITE_STATE3 s) ->
  WRITE_STATE3 (P3 s) = map2 permutation (seq 0 3) (WRITE_STATE3 s) /\ lanes_ok (WRITE_STATE3 (P3 s)).
Proof.
  intros H; rewrite P3_pairs by assumption; destruct s as [[V0 V1] V2]; lanes_in H; unfold P3_seq; cbn [TWEAK3]; cbn [WRITE_STATE3].
  rewrite <- (tweak0 V0) by assumption.
  destruct (luffa_rounds_spec 0 V0 ltac:(lia) ltac:(assumption)) as [E0 K0]; cbn [nth] in E0, K0; change (Z.of_nat 0) with 0 in E0, K0.
  destruct (luffa_rounds_spec 1 V1 ltac:(lia) ltac:(assumption)) as [E1 K1]; cbn [nth] in E1, K1; change (Z.of_nat 1) with 1 in E1, K1.
  destruct (luffa_rounds_spec 2 V2 ltac:(lia) ltac:(assumption)) as [E2 K2]; cbn [nth] in E2, K2; change (Z.of_nat 2) with 2 in E2, K2.
  rewrite E0, E1, E2, tweak0 by assumption; split; [reflexivity|]; rewrite <- E0, <- E1, <- E2; lanes_out; assumption.
Qed.

Lemma MI3_ok b s : words 8 b -> lanes_ok (WRITE_STATE3 s) -> lanes_ok (WRITE_STATE3 (MI3 b s)).
Proof. intros Hb H; destruct s as [[V0 V1] V2]; lanes_in H; unfold MI3; cbv zeta; lanes_out; auto 20 with word. Qed.

Lemma process3_spec b s : words 8 b -> lanes_ok (WRITE_STATE3 s) ->
  WRITE_STATE3 (P3 (MI3 b s)) = luffa_block 3 b (WRITE_STATE3 s) /\ lanes_ok (WRITE_STATE3 (P3 (MI3 b s))).
Proof.
  intros Hb H; destruct (P3_spec (MI3 b s) (MI3_ok b s Hb H)) as [E K]; split; [|exact K].
  now rewrite E, MI3_spec.
Qed.

Lemma P4_pairs s : lanes_ok (WRITE_STATE4 s) -> P4 s = P4_seq s.
Proof.
  destruct s as [[[V0 V1] V2] V3]; intros H; lanes_in H; unfold P4, P4_seq; cbn [TWEAK4].
  rewrite (proj1 (pair_rounds_spec V0 (tweak 1 V1) ltac:(assumption) ltac:(auto with word))).
  now rewrite (proj2 (pair_rounds_spec (tweak 2 V2) (tweak 3 V3) ltac:(auto with word) ltac:(auto with word))).
Qed.

Lemma P4_spec s : lanes_ok (WRITE_STATE4 s) ->
  WRITE_STATE4 (P4 s) = map2 permutation (seq 0 4) (WRITE_STATE4 s) /\ lanes_ok (WRITE_STATE4 (P4 s)).
Proof.
  intros H; rewrite P4_pairs by assumption; destruct s as [[[V0 V1] V2] V3]; lanes_in H; unfold P4_seq; cbn [TWEAK4]; cbn [WRITE_STATE4].
  rewrite <- (tweak0 V0) by assumption.
  destruct (luffa_rounds_spec 0 V0 ltac:(lia) ltac:(assumption)) as [E0 K0]; cbn [nth] in E0, K0; change (Z.of_nat 0) with 0 in E0, K0.
  destruct (luffa_rounds_spec 1 V1 ltac:(lia) ltac:(assumption)) as [E1 K1]; cbn [nth] in E1, K1; change (Z.of_nat 1) with 1 in E1, K1.
  destruct (luffa_rounds_spec 2 V2 ltac:(lia) ltac:(assumption)) as [E2 K2]; cbn [nth] in E2, K2; change (Z.of_nat 2) with 2 in E2, K2.
  destruct (luffa_rounds_spec 3 V3 ltac:(lia) ltac:(assumption)) as [E3 K3]; cbn [nth] in E3, K3; change (Z.of_nat 3) with 3 in E3, K3.
  rewrite E0, E1, E2, E3, tweak0 by assumption; split; [reflexivity|]; rewrite <- E0, <- E1, <- E2, <- E3; lanes_out; assumption.
Qed.

Lemma MI4_ok b s : words 8 b -> lanes_ok (WRITE_STATE4 s) -> lanes_ok (WRITE_STATE4 (MI4 b s)).
Proof. intros Hb H; destruct s as [[[V0 V1] V2] V3]; lanes_in H; unfold MI4; cbv zeta; lanes_out; auto 20 with word. Qed.

Lemma process4_spec b s : words 8 b -> lanes_ok (WRITE_STATE4 s) ->
  WRITE_STATE4 (P4 (MI4 b s)) = luffa_block 4 b (WRITE_STATE4 s) /\ lanes_ok (WRITE_STATE4 (P4 (MI4 b s))).
Proof.
  intros Hb H; destruct (P4_spec (MI4 b s) (MI4_ok b s Hb H)) as [E K]; split; [|exact K].
  now rewrite E, MI4_spec.
Qed.

Lemma P5_pairs s : lanes_ok (WRITE_STATE5 s) -> P5 s = P5_seq s.
Proof.
  destruct s as [[[[V0 V1] V2] V3] V4]; intros H; lanes_in H; unfold P5, P5_seq; cbn [TWEAK5].
  rewrite (proj1 (pair_rounds_spec V0 (tweak 1 V1) ltac:(assumption) ltac:(auto with word))).
  now rewrite (proj2 (pair_rounds_spec (tweak 2 V2) (tweak 3 V3) ltac:(auto with word) ltac:(auto with word))).
Qed.

Lemma P5_spec s : lanes_ok (WRITE_STATE5 s) ->
  WRITE_STATE5 (P5 s) = map2 permutation (seq 0 5) (WRITE_STATE5 s) /\ lanes_ok (WRITE_STATE5 (P5 s)).
Proof.
  intros H; rewrite P5_pairs by assumption; destruct s as [[[[V0 V1] V2] V3] V4]; lanes_in H; unfold P5_seq; cbn [TWEAK5]; cbn [WRITE_STATE5].
  rewrite <- (tweak0 V0) by assumption.
  destruct (luffa_rounds_spec 0 V0 ltac:(lia) ltac:(assumption)) as [E0 K0]; cbn [nth] in E0, K0; change (Z.of_nat 0) with 0 in E0, K0.
  destruct (luffa_rounds_spec 1 V1 ltac:(lia) ltac:(assumption)) as [E1 K1]; cbn [nth] in E1, K1; change (Z.of_nat 1) with 1 in E1, K1.
  destruct (luffa_rounds_spec 2 V2 ltac:(lia) ltac:(assumption)) as [E2 K2]; cbn [nth] in E2, K2; change (Z.of_nat 2) with 2 in E2, K2.
  destruct (luffa_rounds_spec 3 V3 ltac:(lia) ltac:(assumption)) as [E3 K3]; cbn [nth] in E3, K3; change (Z.of_nat 3) with 3 in E3, K3.
  destruct (luffa_rounds_spec 4 V4 ltac:(lia) ltac:(assumption)) as [E4 K4]; cbn [nth] in E4, K4; change (Z.of_nat 4) with 4 in E4, K4.
  rewrite E0, E1, E2, E3, E4, tweak0 by assumption; split; [reflexivity|]; rewrite <- E0, <- E1, <- E2, <- E3, <- E4; lanes_out; assumption.
Qed.

Lemma MI5_ok b s : words 8 b -> lanes_ok (WRITE_STATE5 s) -> lanes_ok (WRITE_STATE5 (MI5 b s)).
Proof. intros Hb H; destruct s as [[[[V0 V1] V2] V3] V4]; lanes_in H; unfold MI5; cbv zeta; lanes_out; auto 20 with word. Qed.

Lemma process5_spec b s : words 8 b -> lanes_ok (WRITE_STATE5 s) ->
  WRITE_STATE5 (P5 (MI5 b s)) = luffa_block 5 b (WRITE_STATE5 s) /\ lanes_ok (WRITE_STATE5 (P5 (MI5 b s))).
Proof.
  intros Hb H; destruct (P5_spec (MI5 b s) (MI5_ok b s Hb H)) as [E K]; split; [|exact K].
  now rewrite E, MI5_spec.
Qed.

(** ** The stream, for any number of chaining values *)
Section Width.
Context (w : nat) {St : Type} (READ : list (list Z) -> St) (WRITE : St -> list (list Z)) (process : list Z -> St -> St).
Context (READ_WRITE : forall s, READ (WRITE s) = s).
Context (WRITE_READ_INIT : WRITE (READ (firstn w V_INIT)) = firstn w V_INIT).
Context (process_spec : forall b s, words 8 b -> lanes_ok (WRITE s) -> WRITE (process b s) = luffa_block w b (WRITE s) /\ lanes_ok (WRITE (process b s))).

Definition luffa_update (sc : sctx (list (list Z))) (data : list Z) : sctx (list (list Z)) :=
  if (length data <? 32 - ptr sc)%nat then
    Ctx (memcpy (buf sc) (ptr sc) data (length data)) (ptr sc + length data) (st sc)
  else
    let r := core_loop 32 process (length data) (buf sc) (ptr sc) (READ (st sc)) data in
    Ctx (buf r) (ptr r) (WRITE (st r)).
Definition luffa_start (c : sctx (list (list Z))) : sctx (list (list Z)) := Ctx (buf c) 0 (firstn w V_INIT).

Lemma luffa_update_sim c data : ctx_map READ (luffa_update c data) = core 32 process (ctx_map READ c) data.
Proof.
  unfold luffa_update, core; cbn [ctx_map ptr]; destruct (_ <? _)%nat; [reflexivity|].
  cbn [ctx_map buf st ptr]; destruct (core_loop _ _ _ _ _ _ _) as [b p s]; unfold ctx_map; cbn [buf ptr st]; now rewrite READ_WRITE.
Qed.

(** The state before the padding and the pending bytes. *)
Lemma luffa_absorbed c chunks : length (buf c) = 32%nat -> words 8 (concat chunks) ->
  let c' := fold_left luffa_update chunks (luffa_start c) in
  let a := absorb 32 (luffa_block w) (firstn w V_INIT) (concat chunks) in
  length (buf c') = 32%nat /\ (ptr c' < 32)%nat /\ ptr c' = (length (concat chunks) mod 32)%nat /\ lanes_ok (WRITE (READ (st c')))
  /\ WRITE (READ (st c')) = fst a /\ firstn (ptr c') (buf c') = snd a.
Proof.
  intros Hb Hw c' a; assert (Hs : ctx_map READ c' = fold_left (core 32 process) chunks (ctx_map READ (luffa_start c))) by (apply fold_left_sim, luffa_update_sim).
  destruct (core_many_refines 32 process ltac:(lia) 32 ltac:(lia) ltac:(intros b s Hl; now rewrite firstn_all2 by lia) chunks (ctx_map READ (luffa_start c))) as [[Hb' Hp'] Ha];
    [split; [exact Hb | cbn; lia]|].
  rewrite <- Hs in Ha, Hb', Hp'; unfold ctx_abs in Ha; cbn [ctx_map st ptr buf fst snd luffa_start firstn app] in Ha, Hb', Hp'.
  assert (Hi : lanes_ok (firstn w V_INIT)) by (assert (K : lanes_ok V_INIT) by (repeat (apply Forall_cons; [words_dec|]); apply Forall_nil); rewrite <- (firstn_skipn w V_INIT) in K; now apply Forall_app in K).
  destruct (absorb_sim (fun s V => WRITE s = V /\ lanes_ok V) 32 process (luffa_block w) (READ (firstn w V_INIT)) (firstn w V_INIT) (concat chunks)) as [[E1 E2] E3];
    [lia | | assumption | split; assumption |].
  { intros blk s V _ Hblk [<- HV]; destruct (process_spec blk s Hblk HV) as [E K]; split; [exact E | now rewrite <- E]. }
  rewrite <- Ha in E1, E3; cbn [fst snd] in E1, E3; fold a in E1, E2, E3.
  split; [exact Hb'|]; split; [exact Hp'|]; split; [|split; [now rewrite E1|split; [exact E1|exact E3]]].
  pose proof (absorb_rest_length 32 (luffa_block w) (firstn w V_INIT) (concat chunks) ltac:(lia)) as E; fold a in E; rewrite <- E, <- E3, length_firstn; lia.
Qed.

(** The padded block and the blank rounds of the close functions. *)
Lemma luffa_final c chunks ub n : length (buf c) = 32%nat -> words 8 (concat chunks) -> 0 <= n < 8 ->
  let c' := fold_left luffa_update chunks (luffa_start c) in
  let z := 0x80 >> n in
  let b := memset (upd (buf c') (ptr c') (((ub .& SPH_T32 (- z)) .| z) .& 0xFF)) (S (ptr c')) 0 (32 - S (ptr c')) in
  let s := process b (READ (st c')) in
  let V := fst (absorb 32 (luffa_block w) (firstn w V_INIT) (luffa_pad (concat chunks) ub n)) in
  let b' := memset b 0 0 32 in
  WRITE (process b' s) = blank w V /\ WRITE (process b' (process b' s)) = blank w (blank w V)
  /\ length b' = 32%nat /\ length (memset b' 0 0 32) = 32%nat.
Proof.
  intros Hb Hw Hn c' z b s V b'; destruct (luffa_absorbed c chunks Hb Hw) as (Hl & Hp & Ep & Hok & Es & Er).
  fold c' in Hl, Hp, Ep, Hok, Es, Er; set (m := concat chunks) in *.
  assert (Eb : b = snd (absorb 32 (luffa_block w) (firstn w V_INIT) m) ++ last_byte ub n :: repeat 0 (31 - length m mod 32)).
  { unfold b; rewrite (pad_buffer (buf c') (ptr c') 32) by lia; unfold z; rewrite pad_byte, <- Er, <- Ep by assumption; do 3 f_equal; lia. }
  assert (Hw8 : words 8 (snd (absorb 32 (luffa_block w) (firstn w V_INIT) m))).
  { refine (proj2 (absorb_inv 32 (luffa_block w) ltac:(lia) (fun _ => True) (firstn w V_INIT) m _ Hw I)); auto. }
  assert (Hbw : words 8 b).
  { rewrite Eb; apply words_app; [exact Hw8|]; constructor; [rewrite <- pad_byte by assumption; apply u8_inw | apply words_repeat; unfold inw; lia]. }
  assert (EV : WRITE s = V /\ lanes_ok V).
  { unfold s, V, luffa_pad; rewrite absorb_tail; [|lia|].
    - destruct (process_spec b (READ (st c')) Hbw Hok) as [E K]; cbn [fst]; rewrite <- Eb, <- Es; split; [exact E | now rewrite <- E].
    - rewrite <- Er, length_firstn; cbn [length]; rewrite repeat_length; lia. }
  assert (Hlb : length b = 32%nat) by (rewrite Eb, length_app, <- Er, length_firstn; cbn [length]; rewrite repeat_length; lia).
  assert (Eb' : b' = repeat 0 32) by (apply memset_zero; exact Hlb).
  assert (Hz : words 8 b') by (rewrite Eb'; apply words_repeat; unfold inw; lia).
  destruct EV as [EV KV]; rewrite <- EV in KV; destruct (process_spec b' s Hz KV) as [E1 K1]; destruct (process_spec b' (process b' s) Hz K1) as [E2 K2].
  split; [|split; [|split]].
  - now rewrite E1, Eb', EV.
  - now rewrite E2, E1, Eb', EV.
  - rewrite Eb'; apply repeat_length.
  - rewrite length_memset; rewrite Eb'; rewrite repeat_length; lia.
Qed.
End Width.

(** ** Digests *)
Lemma output3 s : output (WRITE_STATE3 s) = flat_map sph_enc32be (lane (XORs3 s)).
Proof. destruct s as [[V0 V1] V2]; destruct V0, V1, V2; reflexivity. Qed.

Lemma read_write3 s : READ_STATE3 (WRITE_STATE3 s) = s.
Proof. destruct s as [[[] []] []]; reflexivity. Qed.

Lemma output4 s : output (WRITE_STATE4 s) = flat_map sph_enc32be (lane (XORs4 s)).
Proof. destruct s as [[[V0 V1] V2] V3]; destruct V0, V1, V2, V3; reflexivity. Qed.

Lemma read_write4 s : READ_STATE4 (WRITE_STATE4 s) = s.
Proof. destruct s as [[[[] []] []] []]; reflexivity. Qed.

Lemma output5 s : output (WRITE_STATE5 s) = flat_map sph_enc32be (lane (XORs5 s)).
Proof. destruct s as [[[[V0 V1] V2] V3] V4]; destruct V0, V1, V2, V3, V4; reflexivity. Qed.

Lemma read_write5 s : READ_STATE5 (WRITE_STATE5 s) = s.
Proof. destruct s as [[[[[] []] []] []] []]; reflexivity. Qed.

Section Runs.
Context (c : sctx (list (list Z))) (chunks : list (list Z)) (ub n : Z).
Context (buffer : length (buf c) = 32%nat) (bytes : words 8 (concat chunks)) (n_range : 0 <= n < 8).
Let m := concat chunks.

Lemma luffa3_run k d : d = (32 * k)%nat -> k = 7%nat \/ k = 8%nat ->
  let r := luffa3_close (fold_left luffa3 chunks (Ctx (buf c) 0 (firstn 3 V_INIT))) ub n k in
  snd r = luffa_spec d m ub n /\ length (buf (fst r)) = 32%nat.
Proof.
  intros -> Hk; destruct (luffa_final 3 READ_STATE3 WRITE_STATE3 (fun b s => P3 (MI3 b s)) read_write3 eq_refl process3_spec c chunks ub n buffer bytes n_range) as (E1 & _ & _ & L).
  cbv zeta; split; [|exact L]; unfold luffa_spec, m; replace (luffa_width (32 * k)) with 3%nat by (destruct Hk; subst; reflexivity); cbv zeta.
  rewrite <- E1, output3; change (luffa_update READ_STATE3 WRITE_STATE3 (fun b s => P3 (MI3 b s))) with luffa3; change (luffa_start 3 c) with (Ctx (buf c) 0 (firstn 3 V_INIT)); cbv beta zeta; unfold luffa3_close; cbv zeta; cbn [snd].
  match goal with |- _ = firstn _ (flat_map _ (lane ?v) ++ ?x) => generalize v x end; intros v x.
  destruct v, Hk; subst; reflexivity.
Qed.

Lemma luffa4_run : let r := luffa4_close (fold_left luffa4 chunks (Ctx (buf c) 0 (firstn 4 V_INIT))) ub n in
  snd r = luffa_spec 384 m ub n /\ length (buf (fst r)) = 32%nat.
Proof.
  destruct (luffa_final 4 READ_STATE4 WRITE_STATE4 (fun b s => P4 (MI4 b s)) read_write4 eq_refl process4_spec c chunks ub n buffer bytes n_range) as (E1 & E2 & L & _).
  cbv zeta; split; [|exact L]; unfold luffa_spec, m; change (luffa_width 384) with 4%nat; cbv zeta.
  rewrite <- E2, <- E1, !output4; change (luffa_update READ_STATE4 WRITE_STATE4 (fun b s => P4 (MI4 b s))) with luffa4; change (luffa_start 4 c) with (Ctx (buf c) 0 (firstn 4 V_INIT)); cbv beta zeta; unfold luffa4_close; cbv zeta; cbn [snd].
  match goal with |- _ = firstn _ (flat_map _ (lane ?v) ++ flat_map _ (lane ?x)) => generalize v x end; intros v x.
  destruct v, x; reflexivity.
Qed.
Lemma luffa5_run : let r := luffa5_close (fold_left luffa5 chunks (Ctx (buf c) 0 (firstn 5 V_INIT))) ub n in
  snd r = luffa_spec 512 m ub n /\ length (buf (fst r)) = 32%nat.
Proof.
  destruct (luffa_final 5 READ_STATE5 WRITE_STATE5 (fun b s => P5 (MI5 b s)) read_write5 eq_refl process5_spec c chunks ub n buffer bytes n_range) as (E1 & E2 & L & _).
  cbv zeta; split; [|exact L]; unfold luffa_spec, m; change (luffa_width 512) with 5%nat; cbv zeta.
  rewrite <- E2, <- E1, !output5; change (luffa_update READ_STATE5 WRITE_STATE5 (fun b s => P5 (MI5 b s))) with luffa5; change (luffa_start 5 c) with (Ctx (buf c) 0 (firstn 5 V_INIT)); cbv beta zeta; unfold luffa5_close; cbv zeta; cbn [snd].
  match goal with |- _ = firstn _ (flat_map _ (lane ?v) ++ flat_map _ (lane ?x)) => generalize v x end; intros v x.
  destruct v, x; reflexivity.
Qed.
End Runs.

(** C37: Whatever the context held before [init], and however the message is cut
    into chunks, the four variants return the Luffa digest of the message with
    its extra bits: the Boolean formulas compute the S-box, the sequences of
    [XOR] and [M2] the matrices of the message injection, the tables hold the
    constants of the generator, and the loops on two chaining values in 64-bit
    words compute what the sequential code computes. *)
Theorem luffa_correct (c : sctx (list (list Z))) (chunks : list (list Z)) (ub n : Z) :
  length (buf c) = 32%nat -> words 8 (concat chunks) -> 0 <= n < 8 ->
  let m := concat chunks in
  fst (sph_luffa224_addbits_and_close (fold_left sph_luffa224 chunks (sph_luffa224_init c)) ub n) = luffa_spec 224 m ub n
  /\ fst (sph_luffa256_addbits_and_close (fold_left sph_luffa256 chunks (sph_luffa256_init c)) ub n) = luffa_spec 256 m ub n
  /\ fst (sph_luffa384_addbits_and_close (fold_left sph_luffa384 chunks (sph_luffa384_init c)) ub n) = luffa_spec 384 m ub n
  /\ fst (sph_luffa512_addbits_and_close (fold_left sph_luffa512 chunks (sph_luffa512_init c)) ub n) = luffa_spec 512 m ub n
  /\ (forall s, lanes_ok (WRITE_STATE3 s) -> P3 s = P3_seq s)
  /\ (forall s, lanes_ok (WRITE_STATE4 s) -> P4 s = P4_seq s)
  /\ (forall s, lanes_ok (WRITE_STATE5 s) -> P5 s = P5_seq s).
Proof.
  intros Hb Hw Hn m; unfold sph_luffa224_addbits_and_close, sph_luffa256_addbits_and_close, sph_luffa384_addbits_and_close, sph_luffa512_addbits_and_close; rewrite !let_pair_fst; cbn [fst].
  split; [|split; [|split; [|split; [|split; [exact P3_pairs | split; [exact P4_pairs | exact P5_pairs]]]]]].
  - apply (luffa3_run c chunks ub n Hb Hw Hn 7); auto.
  - apply (luffa3_run c chunks ub n Hb Hw Hn 8); auto.
  - apply (luffa4_run c chunks ub n Hb Hw Hn).
  - apply (luffa5_run c chunks ub n Hb Hw Hn).
Qed.

Lemma luffa_correct_witness :
  let c := Ctx (repeat 0xAA 32) 5 [[1; 2]] in
  let chunks := [[1; 2; 3]; repeat 7 70; [9]] in
  fst (sph_luffa512_addbits_and_close (fold_left sph_luffa512 chunks (sph_luffa512_init c)) 0xA0 3) = luffa_spec 512 (concat chunks) 0xA0 3.
Proof.
  intros c chunks; refine (proj1 (proj2 (proj2 (proj2 (luffa_correct c chunks 0xA0 3 _ _ _))))); [reflexivity | words_dec | lia].
Defined.

(** Luffa-512 behind the common interface. *)
Definition shaped (V : list (list Z)) : Prop := Forall (fun v => length v = 8%nat) V.

Lemma length_xorl a b : length a = 8%nat -> length b = 8%nat -> length (xorl a b) = 8%nat.
Proof. intros Ha Hb; unfold xorl; rewrite length_map2; lia. Qed.

Lemma length_xors V a : shaped V -> length a = 8%nat -> length (fold_left xorl V a) = 8%nat.
Proof. intros HV; revert a; induction HV as [|v V Hv HV IH]; intros a Ha; cbn [fold_left]; [assumption|]; now apply IH, length_xorl. Qed.

Lemma length_scale c a : length a = 8%nat -> length (scale c a) = 8%nat.
Proof.
  intros Ha; assert (Hi : forall k, length (iter k mulx a) = 8%nat).
  { intros k; apply (iter_inv (fun a => length a = 8%nat)); [|assumption]; intros x Hx; unfold mulx; apply length_xorl; [cbn [length]; rewrite length_firstn; lia | reflexivity]. }
  unfold scale; generalize (seq 0 5) as l; assert (Hz : length zero8 = 8%nat) by reflexivity; revert Hz; generalize zero8.
  intros z Hz l; revert z Hz; induction l as [|k l IH]; intros z Hz; cbn [fold_left]; [assumption|]; apply IH; destruct (Z.testbit _ _); [apply length_xorl; auto | assumption].
Qed.

Lemma step_length c0 c4 a : length a = 8%nat -> length (step c0 c4 a) = 8%nat.
Proof.
  intros Ha; do 8 (destruct a as [|? a]; [discriminate Ha|]); destruct a; [|discriminate Ha]; unfold step, sub_crumb.
  repeat match goal with |- context [mix_word ?a ?b] => destruct (mix_word a b) end; reflexivity.
Qed.

Lemma permutation_length j a : length a = 8%nat -> length (permutation j a) = 8%nat.
Proof.
  intros Ha; unfold permutation; assert (H : length (firstn 4 a ++ map (fun x => rotl 32 x (Z.of_nat j)) (skipn 4 a)) = 8%nat) by (rewrite length_app, length_map, length_firstn, length_skipn; lia).
  revert H; generalize (firstn 4 a ++ map (fun x => rotl 32 x (Z.of_nat j)) (skipn 4 a)); generalize (seq 0 8); intros l; induction l as [|r l IH]; intros b Hb; cbn [fold_left]; auto using step_length.
Qed.

Lemma shaped_map2 {A} (f : A -> list Z -> list Z) : (forall x v, length v = 8%nat -> length (f x v) = 8%nat) -> forall l V, shaped V -> shaped (map2 f l V).
Proof.
  intros Hf l V HV; revert l; induction HV as [|v V Hv HV IH]; intros [|x l]; try constructor; [now apply Hf | apply IH].
Qed.

Lemma block_shaped w b V : shaped V -> shaped (luffa_block w b V).
Proof.
  intros HV; apply shaped_map2; [exact permutation_length|]; unfold shaped, inject; apply Forall_map, Forall_forall; intros r _.
  apply length_xors; [|reflexivity]; apply shaped_map2; [exact length_scale|]; apply Forall_app; split; [exact HV|]; constructor; [apply length_read_words | constructor].
Qed.

Lemma length_output V : shaped V -> length (output V) = 32%nat.
Proof. intros HV; unfold output; rewrite (length_flat_map_const _ 4) by reflexivity; rewrite length_xors by (assumption || reflexivity); reflexivity. Qed.

Lemma length_luffa512 m : length (luffa_spec 512 m 0 0) = 64%nat.
Proof.
  unfold luffa_spec; change (luffa_width 512) with 5%nat; cbv zeta.
  assert (H : shaped (fst (absorb 32 (luffa_block 5) (firstn 5 V_INIT) (luffa_pad m 0 0)))).
  { refine (proj1 (absorb_rel (fun V (_ : list (list Z)) => shaped V) 32 (luffa_block 5) (luffa_block 5) _ (firstn 5 V_INIT) _ _ _ _)); [lia | | ].
    - intros; now apply block_shaped.
    - repeat constructor. }
  rewrite length_firstn, length_app, !length_output by (repeat apply block_shaped; exact H); reflexivity.
Qed.

#[export, refine] Instance luffa512_hash : StreamHash := {|
  hctx := sctx (list (list Z));
  hctx_ok c := length (buf c) = 32%nat;
  hinit := sph_luffa512_init;
  hupdate := sph_luffa512;
  hclose := sph_luffa512_close;
  hlen := 64;
  digest m := luffa_spec 512 m 0 0
|}.
Proof.
  - intros c H; exact H.
  - intros c chunks H Hw Hm; unfold sph_luffa512_close, sph_luffa512_addbits_and_close; rewrite let_pair_fst; cbn [fst snd].
    exact (luffa5_run c chunks 0 0 H Hw ltac:(lia)).
  - exact length_luffa512.
  - intros m; unfold luffa_spec, output; cbv zeta; apply words_firstn, words_app; apply words_flat_map; auto with word.
Defined.
