(* ===== verification/Echo.v ===== *)
(** * Echo: model of echo.c

    ECHO-224/256 (blocks of 192 bytes, 8 rounds) and ECHO-384/512 (blocks of
    128 bytes, 10 rounds) with 64-bit words: sixteen 128-bit words in the array
    [W[16][2]], two rounds of the AES on each of them with a counter as key, and
    the layers of the AES again on the words.  EchoSpec.v has the specification
    and the theorems. *)

From Stdlib Require Import ZArith List Lia Bool.
From S2P Require Import Prelude SphTypes Stream HashLib Aes.
Import ListNotations.

Open Scope Z_scope.
Open Scope word_scope.

Definition sph_enc16le (val : Z) : list Z := [u8 val; u8 (val >> 8)].

(** The context: [u.Vb] (8 or 16 words) and the counter. *)
Record echo_state := EState { Vb : list Z; C0 : Z; C1 : Z; C2 : Z; C3 : Z }.
Abbreviation echo_context := (sctx echo_state).

(** [W[16][2]] is the list of its 32 words, [W[i][n]] at [2 * i + n]. *)
Definition INPUT_BLOCK_SMALL (buf : list Z) (sc : echo_state) : list Z :=
  firstn 8 (Vb sc) ++ flat_map (fun u => [sph_dec64le (skipn (16 * u) buf); sph_dec64le (skipn (16 * u + 8) buf)]) (seq 0 12).
Definition INPUT_BLOCK_BIG (buf : list Z) (sc : echo_state) : list Z :=
  firstn 16 (Vb sc) ++ flat_map (fun u => [sph_dec64le (skipn (16 * u) buf); sph_dec64le (skipn (16 * u + 8) buf)]) (seq 0 8).

(** The key after a word. *)
Definition next_key (K : Z * Z * Z * Z) : Z * Z * Z * Z :=
  let '(K0, K1, K2, K3) := K in
  let K0 := SPH_T32 (K0 + 1) in
  if K0 =? 0 then
    let K1 := SPH_T32 (K1 + 1) in
    if K1 =? 0 then
      let K2 := SPH_T32 (K2 + 1) in
      if K2 =? 0 then (K0, K1, K2, SPH_T32 (K3 + 1)) else (K0, K1, K2, K3)
    else (K0, K1, K2, K3)
  else (K0, K1, K2, K3).

(** Two rounds of the AES on a 128-bit word. *)
Definition two_rounds (K : Z * Z * Z * Z) (Wl Wh : Z) : Z * Z :=
  let '(K0, K1, K2, K3) := K in
  let X0 := SPH_T32 Wl in
  let X1 := SPH_T32 (Wl >> 32) in
  let X2 := SPH_T32 Wh in
  let X3 := SPH_T32 (Wh >> 32) in
  let '(Y0, Y1, Y2, Y3) := AES_ROUND_LE X0 X1 X2 X3 K0 K1 K2 K3 in
  let '(X0, X1, X2, X3) := AES_ROUND_NOKEY_LE Y0 Y1 Y2 Y3 in
  (X0 .| (X1 << 32), X2 .| (X3 << 32)).

Definition AES_2ROUNDS (i : nat) (s : list Z * (Z * Z * Z * Z)) : list Z * (Z * Z * Z * Z) :=
  let (W, K) := s in
  let (l, h) := two_rounds K (nth (2 * i) W 0) (nth (2 * i + 1) W 0) in
  (upd (upd W (2 * i) l) (2 * i + 1) h, next_key K).

Definition BIG_SUB_WORDS (s : list Z * (Z * Z * Z * Z)) : list Z * (Z * Z * Z * Z) :=
  let s := AES_2ROUNDS 0 s in
  let s := AES_2ROUNDS 1 s in
  let s := AES_2ROUNDS 2 s in
  let s := AES_2ROUNDS 3 s in
  let s := AES_2ROUNDS 4 s in
  let s := AES_2ROUNDS 5 s in
  let s := AES_2ROUNDS 6 s in
  let s := AES_2ROUNDS 7 s in
  let s := AES_2ROUNDS 8 s in
  let s := AES_2ROUNDS 9 s in
  let s := AES_2ROUNDS 10 s in
  let s := AES_2ROUNDS 11 s in
  let s := AES_2ROUNDS 12 s in
  let s := AES_2ROUNDS 13 s in
  let s := AES_2ROUNDS 14 s in
  AES_2ROUNDS 15 s.

(** The small-footprint form. *)
Definition aes_2rounds_all (s : list Z * (Z * Z * Z * Z)) : list Z * (Z * Z * Z * Z) :=
  fold_left (fun s n => AES_2ROUNDS n s) (seq 0 16) s.

(** [SHIFT_ROW1] and [SHIFT_ROW2] on the words with index [n]. *)
Definition shift1_at (n a b c d : nat) (W : list Z) : list Z :=
  let w i := (2 * i + n)%nat in
  let tmp := nth (w a) W 0 in
  let W := upd W (w a) (nth (w b) W 0) in
  let W := upd W (w b) (nth (w c) W 0) in
  let W := upd W (w c) (nth (w d) W 0) in
  upd W (w d) tmp.
Definition SHIFT_ROW1 (a b c d : nat) (W : list Z) : list Z := shift1_at 1 a b c d (shift1_at 0 a b c d W).

Definition shift2_at (n a b c d : nat) (W : list Z) : list Z :=
  let w i := (2 * i + n)%nat in
  let tmp := nth (w a) W 0 in
  let W := upd W (w a) (nth (w c) W 0) in
  let W := upd W (w c) tmp in
  let tmp := nth (w b) W 0 in
  let W := upd W (w b) (nth (w d) W 0) in
  upd W (w d) tmp.
Definition SHIFT_ROW2 (a b c d : nat) (W : list Z) : list Z := shift2_at 1 a b c d (shift2_at 0 a b c d W).

Definition SHIFT_ROW3 (a b c d : nat) (W : list Z) : list Z := SHIFT_ROW1 d c b a W.

Definition BIG_SHIFT_ROWS (W : list Z) : list Z :=
  let W := SHIFT_ROW1 1 5 9 13 W in
  let W := SHIFT_ROW2 2 6 10 14 W in
  SHIFT_ROW3 3 7 11 15 W.

(** The eight bytes of a word times [x]. *)
Definition xtimes (ab : Z) : Z :=
  SPH_T64 (((ab .& 0x8080808080808080) >> 7) * 27) .^ SPH_T64 ((ab .& 0x7F7F7F7F7F7F7F7F) << 1).

Definition MIX_COLUMN1 (ia ib ic id n : nat) (W : list Z) : list Z :=
  let a := nth (2 * ia + n) W 0 in
  let b := nth (2 * ib + n) W 0 in
  let c := nth (2 * ic + n) W 0 in
  let d := nth (2 * id + n) W 0 in
  let ab := a .^ b in
  let bc := b .^ c in
  let cd := c .^ d in
  let abx := xtimes ab in
  let bcx := xtimes bc in
  let cdx := xtimes cd in
  let W := upd W (2 * ia + n) (abx .^ bc .^ d) in
  let W := upd W (2 * ib + n) (bcx .^ a .^ cd) in
  let W := upd W (2 * ic + n) (cdx .^ ab .^ d) in
  upd W (2 * id + n) (abx .^ bcx .^ cdx .^ ab .^ c).

Definition MIX_COLUMN (a b c d : nat) (W : list Z) : list Z := MIX_COLUMN1 a b c d 1 (MIX_COLUMN1 a b c d 0 W).

Definition mix_column (ia ib ic id : nat) (W : list Z) : list Z := fold_left (fun W n => MIX_COLUMN1 ia ib ic id n W) (seq 0 2) W.

Definition BIG_MIX_COLUMNS (W : list Z) : list Z :=
  let W := MIX_COLUMN 0 1 2 3 W in
  let W := MIX_COLUMN 4 5 6 7 W in
  let W := MIX_COLUMN 8 9 10 11 W in
  MIX_COLUMN 12 13 14 15 W.

Definition BIG_ROUND (s : list Z * (Z * Z * Z * Z)) : list Z * (Z * Z * Z * Z) :=
  let (W, K) := BIG_SUB_WORDS s in
  let W := BIG_SHIFT_ROWS W in
  (BIG_MIX_COLUMNS W, K).

Definition FINAL_SMALL (buf W VV : list Z) : list Z :=
  map (fun u => nth u VV 0 .^ (sph_dec64le (skipn (u * 8) buf) .^ sph_dec64le (skipn (u * 8 + 64) buf) .^ sph_dec64le (skipn (u * 8 + 128) buf)
         .^ nth u W 0 .^ nth (u + 8) W 0 .^ nth (u + 16) W 0 .^ nth (u + 24) W 0)) (seq 0 8).
Definition FINAL_BIG (buf W VV : list Z) : list Z :=
  map (fun u => nth u VV 0 .^ (sph_dec64le (skipn (u * 8) buf) .^ nth u W 0 .^ nth (u + 16) W 0)) (seq 0 16).

Definition COMPRESS_SMALL (buf : list Z) (sc : echo_state) : echo_state :=
  let K := (C0 sc, C1 sc, C2 sc, C3 sc) in
  let W := INPUT_BLOCK_SMALL buf sc in
  let (W, _) := iter 8 BIG_ROUND (W, K) in
  EState (FINAL_SMALL buf W (Vb sc)) (C0 sc) (C1 sc) (C2 sc) (C3 sc).
Definition COMPRESS_BIG (buf : list Z) (sc : echo_state) : echo_state :=
  let K := (C0 sc, C1 sc, C2 sc, C3 sc) in
  let W := INPUT_BLOCK_BIG buf sc in
  let (W, _) := iter 10 BIG_ROUND (W, K) in
  EState (FINAL_BIG buf W (Vb sc)) (C0 sc) (C1 sc) (C2 sc) (C3 sc).

Definition INCR_COUNTER (sc : echo_state) (val : Z) : echo_state :=
  let val := SPH_T32 val in
  let c0 := SPH_T32 (C0 sc + val) in
  if c0 <? val then
    let c1 := SPH_T32 (C1 sc + 1) in
    if c1 =? 0 then
      let c2 := SPH_T32 (C2 sc + 1) in
      if c2 =? 0 then EState (Vb sc) c0 c1 c2 (SPH_T32 (C3 sc + 1)) else EState (Vb sc) c0 c1 c2 (C3 sc)
    else EState (Vb sc) c0 c1 (C2 sc) (C3 sc)
  else EState (Vb sc) c0 (C1 sc) (C2 sc) (C3 sc).

Definition zero_counter (sc : echo_state) : echo_state := EState (Vb sc) 0 0 0 0.

Definition echo_small_init (sc : echo_context) (out_len : Z) : echo_context :=
  Ctx (buf sc) 0 (EState [out_len; 0; out_len; 0; out_len; 0; out_len; 0] 0 0 0 0).
Definition echo_big_init (sc : echo_context) (out_len : Z) : echo_context :=
  Ctx (buf sc) 0 (EState [out_len; 0; out_len; 0; out_len; 0; out_len; 0; out_len; 0; out_len; 0; out_len; 0; out_len; 0] 0 0 0 0).

Definition echo_small_compress := COMPRESS_SMALL.
Definition echo_big_compress := COMPRESS_BIG.

Definition echo_small_core (sc : echo_context) (data : list Z) : echo_context :=
  core 192 (fun b s => echo_small_compress b (INCR_COUNTER s 1536)) sc data.
Definition echo_big_core (sc : echo_context) (data : list Z) : echo_context :=
  core 128 (fun b s => echo_big_compress b (INCR_COUNTER s 1024)) sc data.

(** The close functions return the context, initialised again, and the bytes
    written to [dst]. *)
Definition echo_small_close (sc : echo_context) (ub n : Z) (out_size_w32 : nat) : echo_context * list Z :=
  let b := buf sc in
  let p := ptr sc in
  let elen := (Z.of_nat p << 3) + n in
  let s := INCR_COUNTER (st sc) elen in
  let tmp := sph_enc32le (C0 s) ++ sph_enc32le (C1 s) ++ sph_enc32le (C2 s) ++ sph_enc32le (C3 s) in
  let s := if elen =? 0 then zero_counter s else s in
  let z := 0x80 >> n in
  let b := upd b p (((ub .& SPH_T32 (- z)) .| z) .& 0xFF) in
  let p := S p in
  let b := memset b p 0 (192 - p) in
  let (b, s) :=
    if (192 - 18 <? p)%nat then (memset b 0 0 192, zero_counter (echo_small_compress b s)) else (b, s) in
  let b := memcpy b (192 - 18) (sph_enc16le (Z.of_nat out_size_w32 << 5)) 2 in
  let b := memcpy b (192 - 16) tmp 16 in
  let s := echo_small_compress b s in
  let out := flat_map (fun k => sph_enc64le (nth k (Vb s) 0)) (seq 0 ((out_size_w32 + 1) / 2)) in
  (echo_small_init (Ctx b p s) (Z.of_nat out_size_w32 << 5), firstn (4 * out_size_w32) out).

Definition echo_big_close (sc : echo_context) (ub n : Z) (out_size_w32 : nat) : echo_context * list Z :=
  let b := buf sc in
  let p := ptr sc in
  let elen := (Z.of_nat p << 3) + n in
  let s := INCR_COUNTER (st sc) elen in
  let tmp := sph_enc32le (C0 s) ++ sph_enc32le (C1 s) ++ sph_enc32le (C2 s) ++ sph_enc32le (C3 s) in
  let s := if elen =? 0 then zero_counter s else s in
  let z := 0x80 >> n in
  let b := upd b p (((ub .& SPH_T32 (- z)) .| z) .& 0xFF) in
  let p := S p in
  let b := memset b p 0 (128 - p) in
  let (b, s) :=
    if (128 - 18 <? p)%nat then (memset b 0 0 128, zero_counter (echo_big_compress b s)) else (b, s) in
  let b := memcpy b (128 - 18) (sph_enc16le (Z.of_nat out_size_w32 << 5)) 2 in
  let b := memcpy b (128 - 16) tmp 16 in
  let s := echo_big_compress b s in
  let out := flat_map (fun k => sph_enc64le (nth k (Vb s) 0)) (seq 0 ((out_size_w32 + 1) / 2)) in
  (echo_big_init (Ctx b p s) (Z.of_nat out_size_w32 << 5), firstn (4 * out_size_w32) out).

Definition sph_echo224_init (cc : echo_context) := echo_small_init cc 224.
Definition sph_echo224 (cc : echo_context) (data : list Z) := echo_small_core cc data.
Definition sph_echo224_close (cc : echo_context) := let (cc, dst) := echo_small_close cc 0 0 7 in (dst, cc).
Definition sph_echo224_addbits_and_close (cc : echo_context) (ub n : Z) := let (cc, dst) := echo_small_close cc ub n 7 in (dst, cc).

Definition sph_echo256_init (cc : echo_context) := echo_small_init cc 256.
Definition sph_echo256 (cc : echo_context) (data : list Z) := echo_small_core cc data.
Definition sph_echo256_close (cc : echo_context) := let (cc, dst) := echo_small_close cc 0 0 8 in (dst, cc).
Definition sph_echo256_addbits_and_close (cc : echo_context) (ub n : Z) := let (cc, dst) := echo_small_close cc ub n 8 in (dst, cc).

Definition sph_echo384_init (cc : echo_context) := echo_big_init cc 384.
Definition sph_echo384 (cc : echo_context) (data : list Z) := echo_big_core cc data.
Definition sph_echo384_close (cc : echo_context) := let (cc, dst) := echo_big_close cc 0 0 12 in (dst, cc).
Definition sph_echo384_addbits_and_close (cc : echo_context) (ub n : Z) := let (cc, dst) := echo_big_close cc ub n 12 in (dst, cc).

Definition sph_echo512_init (cc : echo_context) := echo_big_init cc 512.
Definition sph_echo512 (cc : echo_context) (data : list Z) := echo_big_core cc data.
Definition sph_echo512_close (cc : echo_context) := let (cc, dst) := echo_big_close cc 0 0 16 in (dst, cc).
Definition sph_echo512_addbits_and_close (cc : echo_context) (ub n : Z) := let (cc, dst) := echo_big_close cc ub n 16 in (dst, cc).
