(* ===== verification/EchoSpec.v ===== *)
(** * EchoSpec: ECHO and its implementation

    The specification: 128-bit words as sixteen bytes, two rounds of the AES on
    each word with the counter as key, the layers of the AES on the matrix of
    the words, feed-forward, padding and counters.  The code of Echo.v computes
    it: the table rounds, the rotations in place, the multiplication of eight
    bytes at a time and the 128-bit counter in four words. *)

From Stdlib Require Import ZArith List Lia Bool Btauto.
From S2P Require Import Prelude SphTypes Stream HashLib Aes Echo.
Import ListNotations.

Open Scope Z_scope.
Open Scope word_scope.

(** ** The specification *)
Definition xorb16 (a b : list Z) : list Z := map2 Z.lxor a b.

(** Two rounds with the counter and the salt (zero) as keys. *)
Definition aes2 (k : Z) (w : list Z) : list Z := aes_round (aes_round w (le_split 16 k)) (repeat 0 16).
Definition big_sub_words (k : Z) (W : list (list Z)) : list (list Z) :=
  map (fun i => aes2 (k + Z.of_nat i) (nth i W [])) (seq 0 16).

(** MixColumns at each position of four words. *)
Definition big_mix_col (a b c d : list Z) : list (list Z) :=
  map (fun r => map (fun j => nth r (mix_col [nth j a 0; nth j b 0; nth j c 0; nth j d 0]) 0) (seq 0 16)) (seq 0 4).
Definition big_mix_columns (W : list (list Z)) : list (list Z) :=
  flat_map (fun c => big_mix_col (nth (4 * c) W []) (nth (4 * c + 1) W []) (nth (4 * c + 2) W []) (nth (4 * c + 3) W [])) (seq 0 4).

Definition big_round (k : Z) (W : list (list Z)) : list (list Z) := big_mix_columns (shift_rows [] (big_sub_words k W)).

(** The compression function with [v] chaining words, counter [c] and block
    [b]. *)
Definition echo_compress (v rounds : nat) (c : Z) (b : list Z) (V : list (list Z)) : list (list Z) :=
  let S := V ++ map (fun i => firstn 16 (skipn (16 * i) b)) (seq 0 (16 - v)) in
  let W := fold_left (fun W r => big_round (c + 16 * Z.of_nat r) W) (seq 0 rounds) S in
  map (fun i => fold_left xorb16 (map (fun k => xorb16 (nth (i + v * k) S []) (nth (i + v * k) W [])) (seq 0 (16 / v))) (repeat 0 16)) (seq 0 v).

(** The padding: a one, zeros, the length of the digest in 16 bits and that of
    the message in 128 bits, up to a multiple of the block. *)
Definition echo_pad (blen : nat) (d : Z) (m : list Z) (ub n : Z) : list Z :=
  let p := S (length m mod blen) in
  m ++ last_byte ub n :: repeat 0 (if (blen - 18 <? p)%nat then (blen - p) + (blen - 18) else blen - 18 - p)%nat
    ++ le_split 2 d ++ le_split 16 (8 * Z.of_nat (length m) + n).

Definition echo_spec (d : Z) (m : list Z) (ub n : Z) : list Z :=
  let '(v, rounds, blen) := if d <=? 256 then (4, 8, 192)%nat else (8, 10, 128)%nat in
  let L := 8 * Z.of_nat (length m) + n in
  let V := fst (fst (absorb blen (counted blen (echo_compress v rounds) L) (repeat (le_split 16 d) v, 0) (echo_pad blen d m ub n))) in
  firstn (Z.to_nat (d / 8)) (concat V).

(** ** Words as bytes *)
Definition pair (W : list Z) (i : nat) : list Z := sph_enc64le (nth (2 * i) W 0) ++ sph_enc64le (nth (2 * i + 1) W 0).
Definition pairs (k : nat) (W : list Z) : list (list Z) := map (pair W) (seq 0 k).

Lemma enc64_T32 x : sph_enc64le x = sph_enc32le (SPH_T32 x) ++ sph_enc32le (SPH_T32 (x >> 32)).
Proof.
  rewrite sph_enc64le_split, !sph_enc32le_split, T32_trunc, !(le_split_trunc 4 32) by lia; exact (le_split_plus 4 4 x).
Qed.

Lemma enc64_join x y : inw 32 x -> inw 32 y -> sph_enc64le (x .| (y << 32)) = sph_enc32le x ++ sph_enc32le y.
Proof.
  intros Hx Hy; rewrite enc64_T32; f_equal; f_equal.
  - apply (inw_ext 32); [lia | apply SPH_T32_inw | assumption |]; intros i Hi; rewrite SPH_T32_trunc, trunc_spec, Z.lor_spec, Z.shiftl_spec by lia.
    rewrite (Z.testbit_neg_r y), orb_false_r by lia; now rewrite (proj2 (Z.ltb_lt _ _)) by lia.
  - apply (inw_ext 32); [lia | apply SPH_T32_inw | assumption |]; intros i Hi.
    rewrite SPH_T32_trunc, trunc_spec, Z.shiftr_spec, Z.lor_spec, Z.shiftl_spec, (inw_high 32 x) by (assumption || lia); rewrite (proj2 (Z.ltb_lt _ _)) by lia.
    cbn [andb orb]; f_equal; lia.
Qed.

(** ** The words through the AES *)
Lemma two_rounds_spec c x y : let (l, h) := two_rounds (quad c) x y in
  sph_enc64le l ++ sph_enc64le h = aes2 c (sph_enc64le x ++ sph_enc64le y).
Proof.
  unfold two_rounds, aes2; pose proof (quad_bytes c) as Hc; pose proof (quad_words c) as Hw; destruct (quad c) as [[[k0 k1] k2] k3].
  pose proof (aes_round_spec (SPH_T32 x) (SPH_T32 (x >> 32)) (SPH_T32 y) (SPH_T32 (y >> 32)) k0 k1 k2 k3) as E1.
  destruct (AES_ROUND_LE _ _ _ _ k0 k1 k2 k3) as [[[y0 y1] y2] y3].
  pose proof (aes_round_spec y0 y1 y2 y3 0 0 0 0) as E2; pose proof (aes_round_inw y0 y1 y2 y3 0 0 0 0 ltac:(auto with word) ltac:(auto with word) ltac:(auto with word) ltac:(auto with word)) as I2.
  unfold AES_ROUND_NOKEY_LE; destruct (AES_ROUND_LE y0 y1 y2 y3 0 0 0 0) as [[[x0 x1] x2] x3]; cbn [words4] in E1, E2, I2.
  unfold words in I2; rewrite !Forall_cons_iff in I2; destruct I2 as (? & ? & ? & ? & _).
  rewrite !enc64_join by assumption; rewrite Hc in E1; rewrite (enc64_T32 x), (enc64_T32 y).
  change (repeat 0 16) with (flat_map sph_enc32le [0; 0; 0; 0]).
  cbn [flat_map] in E1, E2 |- *; rewrite !app_nil_r in *; rewrite <- !app_assoc in *; now rewrite <- E1, <- E2.
Qed.

Lemma next_key_spec c : next_key (quad c) = quad (c + 1).
Proof.
  rewrite <- quad_add_spec by lia; unfold next_key, quad_add; pose proof (quad_words c) as H; destruct (quad c) as [[[k0 k1] k2] k3].
  replace (SPH_T32 (k0 + 1) <? 1) with (SPH_T32 (k0 + 1) =? 0); [reflexivity|].
  pose proof (SPH_T32_inw (k0 + 1)) as [? ?]; apply eq_iff_eq_true; rewrite Z.eqb_eq, Z.ltb_lt; lia.
Qed.

Lemma sub_words_loop c W k : length W = 32%nat -> (k <= 16)%nat ->
  let r := fold_left (fun s n => AES_2ROUNDS n s) (seq 0 k) (W, quad c) in
  snd r = quad (c + Z.of_nat k) /\ length (fst r) = 32%nat
  /\ forall i, (i < 16)%nat -> pair (fst r) i = if (i <? k)%nat then aes2 (c + Z.of_nat i) (pair W i) else pair W i.
Proof.
  intros HW; induction k as [|k IH]; intros Hk; cbv zeta; [cbn; rewrite Z.add_0_r; auto|].
  destruct (IH ltac:(lia)) as (E1 & E2 & E3); rewrite seq_S, fold_left_app; cbn [fold_left Nat.add].
  destruct (fold_left _ _ _) as [W' K]; cbn [fst snd] in E1, E2, E3; subst K; unfold AES_2ROUNDS.
  pose proof (two_rounds_spec (c + Z.of_nat k) (nth (2 * k) W' 0) (nth (2 * k + 1) W' 0)) as E; destruct (two_rounds _ _ _) as [l h]; cbn [fst snd].
  split; [rewrite next_key_spec; f_equal; lia|]; split; [rewrite !length_upd by (rewrite ?length_upd; lia); assumption|].
  intros i Hi; unfold pair at 1; rewrite !nth_upd by (rewrite ?length_upd; lia).
  destruct (Nat.ltb_spec i (S k)) as [Hlt|Hge].
  - destruct (Nat.eq_dec i k) as [->|Hne].
    + replace (2 * k =? 2 * k + 1)%nat with false by (symmetry; apply Nat.eqb_neq; lia); rewrite !Nat.eqb_refl, E.
      change (sph_enc64le (nth (2 * k) W' 0) ++ sph_enc64le (nth (2 * k + 1) W' 0)) with (pair W' k); rewrite E3 by lia; now rewrite Nat.ltb_irrefl.
    + rewrite !(proj2 (Nat.eqb_neq _ _)) by lia; fold (pair W' i); rewrite E3 by lia; now destruct (Nat.ltb_spec i k); [|lia].
  - rewrite !(proj2 (Nat.eqb_neq _ _)) by lia; fold (pair W' i); rewrite E3 by lia; now destruct (Nat.ltb_spec i k); [lia|].
Qed.

Lemma echo_nth_pairs k W i : (i < k)%nat -> nth i (pairs k W) [] = pair W i.
Proof. intros Hi; unfold pairs; rewrite (nth_indep _ [] (pair W 0)), map_nth, seq_nth by (rewrite ?length_map, ?length_seq; lia); reflexivity. Qed.

Lemma sub_words_spec c W : length W = 32%nat ->
  let r := BIG_SUB_WORDS (W, quad c) in
  pairs 16 (fst r) = big_sub_words c (pairs 16 W) /\ snd r = quad (c + 16) /\ length (fst r) = 32%nat.
Proof.
  intros HW r; destruct (sub_words_loop c W 16 HW ltac:(lia)) as (E1 & E2 & E3).
  change (fold_left _ _ _) with r in E1, E2, E3; split; [|split; assumption].
  unfold pairs at 1, big_sub_words; apply map_ext_in; intros i Hi; apply in_seq in Hi; rewrite E3, echo_nth_pairs by lia; now rewrite (proj2 (Nat.ltb_lt i 16)) by lia.
Qed.

(** ** The rows *)
Lemma shift_rows_spec W : length W = 32%nat -> pairs 16 (BIG_SHIFT_ROWS W) = shift_rows [] (pairs 16 W) /\ length (BIG_SHIFT_ROWS W) = 32%nat.
Proof.
  intros HW; do 32 (destruct W as [|? W]; [discriminate HW|]); destruct W; [|discriminate HW].
  unfold pairs, pair; generalize sph_enc64le; intros enc; split; reflexivity.
Qed.

(** ** Eight products at a time *)
Definition high_bits (x : Z) : Z := (x .& 0x8080808080808080) >> 7.
Definition low_bits (x : Z) : Z := SPH_T64 ((x .& 0x7F7F7F7F7F7F7F7F) << 1).

Ltac byte_bits x := intros i Hi; generalize (Z.testbit_neg_r x); set (f := Z.testbit x); clearbody f; intros Hf; bit_cases i;
  cbn; rewrite ?andb_true_r, ?andb_false_r; (reflexivity || (apply Hf; lia)).

Lemma enc64_high x : sph_enc64le (high_bits x) = map (fun b => b >> 7) (sph_enc64le x).
Proof.
  unfold sph_enc64le, high_bits; cbn [map].
  repeat (apply (f_equal2 (@cons Z)); [|]); try reflexivity;
    (apply (inw_ext 8); [lia | apply u8_inw | apply inw_shiftr; [lia | apply u8_inw | lia]|]; intros i Hi; rewrite ?Z.shiftr_spec, !u8_spec by lia; rewrite ?Z.shiftr_spec, ?Z.land_spec by lia;
     revert i Hi; byte_bits x).
Qed.

Lemma enc64_low x : sph_enc64le (low_bits x) = map (fun b => trunc 8 (b << 1)) (sph_enc64le x).
Proof.
  unfold sph_enc64le, low_bits; cbn [map].
  repeat (apply (f_equal2 (@cons Z)); [|]); try reflexivity;
    (apply (inw_ext 8); [lia | apply u8_inw | apply trunc_inw; lia |]; intros i Hi; rewrite u8_spec, trunc_spec, Z.shiftl_spec by lia; rewrite ?Z.shiftr_spec by lia;
     rewrite SPH_T64_trunc, trunc_spec, Z.shiftl_spec, Z.land_spec by lia).
  all: destruct (Z.eq_dec i 0) as [->|Hne]; [|rewrite u8_spec, ?Z.shiftr_spec by lia; assert (Hi' : 1 <= i < 8) by lia; clear Hi Hne; revert i Hi'; byte_bits x].
  all: rewrite (Z.testbit_neg_r (u8 _)) by lia; cbn; rewrite ?andb_false_r; reflexivity.
Qed.

Lemma lor_shift b t k : 0 <= k -> inw k b -> b .| (t << k) = b + 2 ^ k * t.
Proof.
  intros Hk Hb; rewrite (Z.mul_comm (2 ^ k)), <- Z.shiftl_mul_pow2, <- Z.add_lor_land by lia.
  replace (b .& (t << k)) with 0; [lia|]; symmetry; apply Z.bits_inj'; intros i Hi; rewrite Z.land_spec, Z.shiftl_spec, Z.bits_0 by lia.
  destruct (Z.lt_ge_cases i k); [rewrite (Z.testbit_neg_r t) by lia; apply andb_false_r | now rewrite (inw_high k b) by (assumption || lia)].
Qed.

Lemma le_combine_scale k l : Forall (fun b => inw 8 b /\ inw 8 (k * b)) l -> le_combine (map (Z.mul k) l) = k * le_combine l.
Proof.
  induction 1 as [|b l [Hb Hk] Hl IH]; cbn [map le_combine]; [lia|]; rewrite !lor_shift, IH by (assumption || lia); lia.
Qed.

(** The byte products, and their linearity. *)
Lemma xtime_alt b : inw 8 b -> xtime b = 27 * (b >> 7) .^ trunc 8 (b << 1).
Proof.
  intros Hb; assert (H : forallb (fun b => xtime b =? (27 * (b >> 7) .^ trunc 8 (b << 1))) (map Z.of_nat (seq 0 256)) = true) by (vm_compute; reflexivity).
  apply Z.eqb_eq, (proj1 (forallb_forall _ _) H), in_map_iff; exists (Z.to_nat b); unfold inw in Hb; split; [lia | apply in_seq; lia].
Qed.

Lemma inw_mask w x m : 0 <= w -> inw w m -> inw w (x .& m).
Proof.
  intros Hw Hm; apply inw_bits; [assumption | apply Z.land_nonneg; right; apply Hm|].
  intros i Hi; rewrite Z.land_spec, (inw_high w m) by assumption; apply andb_false_r.
Qed.

Lemma byte_shift7 b : inw 8 b -> inw 8 (b >> 7) /\ inw 8 (27 * (b >> 7)).
Proof.
  intros [H1 H2]; rewrite Z.shiftr_div_pow2 by lia; change (2 ^ 7) with 128; pose proof (Z.div_pos b 128); pose proof (Z.div_lt_upper_bound b 128 2); unfold inw; change (2 ^ 8) with 256 in *; lia.
Qed.

Lemma xtimes_spec x : sph_enc64le (xtimes x) = map xtime (sph_enc64le x).
Proof.
  unfold xtimes; fold (high_bits x) (low_bits x); rewrite enc64_lxor, enc64_low; pose proof (sph_enc64le_bytes x) as Hx.
  assert (Hh : inw 64 (high_bits x)) by (apply inw_shiftr; [lia | apply inw_mask; [lia | unfold inw; lia] | lia]).
  assert (Hs : Forall (fun b => inw 8 b /\ inw 8 (27 * b)) (map (fun b => b >> 7) (sph_enc64le x))) by (apply Forall_map; eapply Forall_impl; [|exact Hx]; exact byte_shift7).
  assert (E : sph_enc64le (SPH_T64 (high_bits x * 27)) = map (Z.mul 27) (map (fun b => b >> 7) (sph_enc64le x))).
  { rewrite sph_enc64le_split, T64_trunc, le_split_trunc by lia.
    rewrite <- (trunc_small 64 (high_bits x)) by (lia || assumption); change 64 with (8 * Z.of_nat 8) at 1; rewrite <- le_combine_split, <- sph_enc64le_split, enc64_high.
    rewrite Z.mul_comm, <- le_combine_scale by exact Hs; apply (le_split_combine (map (Z.mul 27) (map (fun b => b >> 7) (sph_enc64le x)))).
    apply Forall_map; eapply Forall_impl; [|exact Hs]; intros b [_ H]; exact H. }
  rewrite E, map_map; clear - Hx; induction Hx as [|b l Hb Hl IH]; cbn [map map2]; [reflexivity|]; now rewrite IH, xtime_alt by assumption.
Qed.

Lemma trunc_lxor w x y : 0 <= w -> trunc w (x .^ y) = trunc w x .^ trunc w y.
Proof. intros Hw; apply Z.bits_inj'; intros i Hi; rewrite Z.lxor_spec, !trunc_spec, Z.lxor_spec by lia; now destruct (i <? w). Qed.

Lemma xtime_bit b : inw 8 b -> xtime b = trunc 8 (b << 1) .^ (if Z.testbit b 7 then 0x1b else 0).
Proof.
  intros Hb; unfold xtime; destruct (Z.testbit b 7) eqn:E; [reflexivity|]; rewrite Z.lxor_0_r; symmetry; apply trunc_small; [lia|].
  assert (H : inw 7 b).
  { apply inw_bits; [lia | apply Hb |]; intros i Hi; destruct (Z.eq_dec i 7) as [->|]; [assumption | apply (inw_high 8); (assumption || lia)]. }
  rewrite Z.shiftl_mul_pow2 by lia; unfold inw in *; change (2 ^ 7) with 128 in H; change (2 ^ 8) with 256; lia.
Qed.

Ltac xor_ac := apply Z.bits_inj'; intros ? _; repeat rewrite Z.lxor_spec; rewrite ?Z.bits_0; btauto.

Lemma xtime_lxor a b : inw 8 a -> inw 8 b -> xtime (a .^ b) = xtime a .^ xtime b.
Proof.
  intros Ha Hb; rewrite !xtime_bit by auto with word; rewrite Z.shiftl_lxor, trunc_lxor, Z.lxor_spec by lia.
  destruct (Z.testbit a 7), (Z.testbit b 7); cbn [xorb]; xor_ac.
Qed.

Lemma gmul2 a : gmul a 2 = xtime a.
Proof. change (gmul a 2) with (0 .^ xtime a); apply Z.lxor_0_l. Qed.

Lemma gmul3 a : gmul a 3 = a .^ xtime a.
Proof. change (gmul a 3) with (0 .^ a .^ xtime a); now rewrite Z.lxor_0_l. Qed.

(** ** The columns *)
Lemma mix_bytes a b c d : inw 8 a -> inw 8 b -> inw 8 c -> inw 8 d ->
  mix_col [a; b; c; d] = [xtime (a .^ b) .^ (b .^ c) .^ d; xtime (b .^ c) .^ a .^ (c .^ d); xtime (c .^ d) .^ (a .^ b) .^ d;
                          xtime (a .^ b) .^ xtime (b .^ c) .^ xtime (c .^ d) .^ (a .^ b) .^ c].
Proof.
  intros; unfold mix_col; rewrite !gmul2, !gmul3, !xtime_lxor by assumption; repeat (apply (f_equal2 (@cons Z)); [xor_ac|]); reflexivity.
Qed.

Definition mix_rows (a b c d : Z) : list Z :=
  [xtimes (a .^ b) .^ (b .^ c) .^ d; xtimes (b .^ c) .^ a .^ (c .^ d); xtimes (c .^ d) .^ (a .^ b) .^ d;
   xtimes (a .^ b) .^ xtimes (b .^ c) .^ xtimes (c .^ d) .^ (a .^ b) .^ c].

Lemma mix_words a b c d :
  map sph_enc64le (mix_rows a b c d)
  = map (fun r => map (fun j => nth r (mix_col [nth j (sph_enc64le a) 0; nth j (sph_enc64le b) 0; nth j (sph_enc64le c) 0; nth j (sph_enc64le d) 0]) 0) (seq 0 8)) (seq 0 4).
Proof.
  unfold mix_rows; cbn [map]; rewrite !enc64_lxor, !xtimes_spec, !enc64_lxor.
  assert (Hm : forall j, mix_col [nth j (sph_enc64le a) 0; nth j (sph_enc64le b) 0; nth j (sph_enc64le c) 0; nth j (sph_enc64le d) 0] = _)
    by (intros j; apply mix_bytes; apply words_nth; (lia || auto with word)).
  cbn [seq map]; rewrite !Hm; cbn [nth]; unfold sph_enc64le; reflexivity.
Qed.

Lemma map_halves (F : Z -> Z -> Z -> Z -> Z) a a' b b' c c' d d' :
  length a = 8%nat -> length b = 8%nat -> length c = 8%nat -> length d = 8%nat ->
  map (fun j => F (nth j (a ++ a') 0) (nth j (b ++ b') 0) (nth j (c ++ c') 0) (nth j (d ++ d') 0)) (seq 0 16)
  = map (fun j => F (nth j a 0) (nth j b 0) (nth j c 0) (nth j d 0)) (seq 0 8) ++ map (fun j => F (nth j a' 0) (nth j b' 0) (nth j c' 0) (nth j d' 0)) (seq 0 8).
Proof.
  intros Ha Hb Hc Hd; change 16%nat with (8 + 8)%nat; rewrite seq_app, map_app; f_equal.
  - apply map_ext_in; intros j Hj; apply in_seq in Hj; rewrite !app_nth1 by lia; reflexivity.
  - change (seq (0 + 8) 8) with (map (fun j => j + 8)%nat (seq 0 8)); rewrite map_map; apply map_ext_in; intros j Hj.
    rewrite !app_nth2 by lia; rewrite Ha, Hb, Hc, Hd; now replace (j + 8 - 8)%nat with j by lia.
Qed.

Lemma big_mix_words a a' b b' c c' d d' :
  big_mix_col (sph_enc64le a ++ sph_enc64le a') (sph_enc64le b ++ sph_enc64le b') (sph_enc64le c ++ sph_enc64le c') (sph_enc64le d ++ sph_enc64le d')
  = map2 (@app Z) (map sph_enc64le (mix_rows a b c d)) (map sph_enc64le (mix_rows a' b' c' d')).
Proof.
  rewrite !mix_words; unfold big_mix_col; change (seq 0 4) with [0; 1; 2; 3]%nat; cbn [map map2].
  pose proof (fun r => map_halves (fun x y z t => nth r (mix_col [x; y; z; t]) 0) (sph_enc64le a) (sph_enc64le a') (sph_enc64le b) (sph_enc64le b') (sph_enc64le c) (sph_enc64le c')
    (sph_enc64le d) (sph_enc64le d') eq_refl eq_refl eq_refl eq_refl) as H; cbv beta in H; now rewrite !H.
Qed.

#[local] Opaque xtimes.

Lemma mix_columns_spec W : length W = 32%nat -> pairs 16 (BIG_MIX_COLUMNS W) = big_mix_columns (pairs 16 W) /\ length (BIG_MIX_COLUMNS W) = 32%nat.
Proof.
  intros HW; do 32 (destruct W as [|? W]; [discriminate HW|]); destruct W; [|discriminate HW]; split; [|reflexivity].
  unfold big_mix_columns, pairs, pair; cbn [flat_map seq map nth Nat.add Nat.mul]; rewrite !big_mix_words; unfold mix_rows; reflexivity.
Qed.

(** ** Rounds and the whole compression *)
Lemma echo_round_spec c W : length W = 32%nat -> let r := BIG_ROUND (W, quad c) in
  pairs 16 (fst r) = big_round c (pairs 16 W) /\ snd r = quad (c + 16) /\ length (fst r) = 32%nat.
Proof.
  intros HW; unfold BIG_ROUND, big_round; destruct (sub_words_spec c W HW) as (E1 & E2 & E3); destruct (BIG_SUB_WORDS (W, quad c)) as [W1 K]; cbn [fst snd] in *.
  destruct (shift_rows_spec W1 E3) as [E4 E5]; destruct (mix_columns_spec _ E5) as [E6 E7].
  rewrite E6, E4, E1; auto.
Qed.

Lemma iter_rounds {A B K} (f : A * K -> A * K) (g : Z -> B -> B) (key : Z -> K) (abs : A -> B) (ok : A -> Prop) n :
  (forall c W, ok W -> let r := f (W, key c) in abs (fst r) = g c (abs W) /\ snd r = key (c + 16) /\ ok (fst r)) ->
  forall c k W, ok W -> let r := iter n f (W, key (c + 16 * Z.of_nat k)) in
  abs (fst r) = fold_left (fun W r => g (c + 16 * Z.of_nat r) W) (seq k n) (abs W) /\ ok (fst r).
Proof.
  intros Hf; induction n as [|n IH]; intros c k W HW; cbn [iter seq fold_left]; [auto|].
  destruct (Hf (c + 16 * Z.of_nat k) W HW) as (E1 & E2 & E3); destruct (f _) as [W1 K1]; cbn [fst snd] in *; subst K1; rewrite <- E1.
  replace (c + 16 * Z.of_nat k + 16) with (c + 16 * Z.of_nat (S k)) by lia; exact (IH c (S k) W1 E3).
Qed.

Lemma echo_rounds_spec n c W : length W = 32%nat -> let r := iter n BIG_ROUND (W, quad c) in
  pairs 16 (fst r) = fold_left (fun W r => big_round (c + 16 * Z.of_nat r) W) (seq 0 n) (pairs 16 W) /\ length (fst r) = 32%nat.
Proof.
  intros HW; pose proof (iter_rounds BIG_ROUND big_round quad (pairs 16) (fun W => length W = 32%nat) n echo_round_spec c 0 W HW) as H.
  replace (c + 16 * Z.of_nat 0) with c in H by lia; exact H.
Qed.

(** The blocks of the message. *)
Lemma enc_dec64 b i : words 8 b -> (i + 8 <= length b)%nat -> sph_enc64le (sph_dec64le (skipn i b)) = firstn 8 (skipn i b).
Proof. intros Hb Hl; apply (enc_dec 8 sph_dec64le sph_enc64le sph_dec64le_combine sph_enc64le_split); [auto with word | rewrite length_skipn; lia]. Qed.

Lemma xorb16_words a b c d : xorb16 (sph_enc64le a ++ sph_enc64le b) (sph_enc64le c ++ sph_enc64le d) = sph_enc64le (a .^ c) ++ sph_enc64le (b .^ d).
Proof. rewrite !enc64_lxor; reflexivity. Qed.

Lemma fold_xorb16 {A} (x y : A -> Z) l : forall a b,
  fold_left xorb16 (map (fun k => sph_enc64le (x k) ++ sph_enc64le (y k)) l) (sph_enc64le a ++ sph_enc64le b)
  = sph_enc64le (fold_left Z.lxor (map x l) a) ++ sph_enc64le (fold_left Z.lxor (map y l) b).
Proof. induction l as [|k l IH]; intros a b; cbn [map fold_left]; [reflexivity|]; now rewrite xorb16_words, IH. Qed.

(** The feed-forward, on words. *)
Definition fold_word (v : nat) (A B : list Z) (u : nat) : Z :=
  fold_left Z.lxor (map (fun k => nth (u + 2 * v * k) A 0 .^ nth (u + 2 * v * k) B 0) (seq 0 (16 / v))) 0.

Lemma fold_pairs v A B : (v <> 0)%nat -> (16 mod v = 0)%nat ->
  pairs v (map (fold_word v A B) (seq 0 (2 * v)))
  = map (fun i => fold_left xorb16 (map (fun k => xorb16 (nth (i + v * k) (pairs 16 A) []) (nth (i + v * k) (pairs 16 B) [])) (seq 0 (16 / v))) (repeat 0 16)) (seq 0 v).
Proof.
  intros Hv H16; pose proof (Nat.div_mod_eq 16 v) as Hd; unfold pairs at 1; apply map_ext_in; intros i Hi; apply in_seq in Hi.
  assert (Hn : forall u, (u < 2 * v)%nat -> nth u (map (fold_word v A B) (seq 0 (2 * v))) 0 = fold_word v A B u).
  { intros u Hu; rewrite (nth_indep _ 0 (fold_word v A B 0)), map_nth, seq_nth by (rewrite ?length_map, ?length_seq; lia); reflexivity. }
  unfold pair; rewrite !Hn by lia; unfold fold_word; rewrite <- fold_xorb16; f_equal; apply map_ext_in; intros k Hk; apply in_seq in Hk.
  assert (i + v * k < 16)%nat by nia; rewrite !echo_nth_pairs by assumption; unfold pair; rewrite xorb16_words.
  replace (2 * i + 2 * v * k)%nat with (2 * (i + v * k))%nat by lia; replace (2 * i + 1 + 2 * v * k)%nat with (2 * (i + v * k) + 1)%nat by lia; reflexivity.
Qed.

Lemma final_small_words b W sc : length (Vb sc) = 8%nat -> FINAL_SMALL b W (Vb sc) = map (fold_word 4 (INPUT_BLOCK_SMALL b sc) W) (seq 0 (2 * 4)).
Proof.
  unfold INPUT_BLOCK_SMALL; generalize (Vb sc); intros V HV; do 8 (destruct V as [|? V]; [discriminate HV|]); destruct V; [|discriminate HV].
  unfold FINAL_SMALL, fold_word; cbn [seq map flat_map firstn app Nat.mul Nat.add Nat.div Nat.divmod fst Nat.sub nth fold_left].
  repeat (apply (f_equal2 (@cons Z)); [xor_ac|]); reflexivity.
Qed.

Lemma final_big_words b W sc : length (Vb sc) = 16%nat -> FINAL_BIG b W (Vb sc) = map (fold_word 8 (INPUT_BLOCK_BIG b sc) W) (seq 0 (2 * 8)).
Proof.
  unfold INPUT_BLOCK_BIG; generalize (Vb sc); intros V HV; do 16 (destruct V as [|? V]; [discriminate HV|]); destruct V; [|discriminate HV].
  unfold FINAL_BIG, fold_word; cbn [seq map flat_map firstn app Nat.mul Nat.add Nat.div Nat.divmod fst Nat.sub nth fold_left].
  repeat (apply (f_equal2 (@cons Z)); [xor_ac|]); reflexivity.
Qed.

(** The words of the block. *)
Lemma block_pair b i : words 8 b -> (16 * i + 16 <= length b)%nat ->
  sph_enc64le (sph_dec64le (skipn (16 * i) b)) ++ sph_enc64le (sph_dec64le (skipn (16 * i + 8) b)) = firstn 16 (skipn (16 * i) b).
Proof.
  intros Hb Hl; rewrite !enc_dec64 by (assumption || lia); assert (E : forall l : list Z, firstn 16 l = firstn 8 l ++ firstn 8 (skipn 8 l)).
  { intros l; rewrite <- (firstn_skipn 8 (firstn 16 l)), firstn_firstn, skipn_firstn_comm; reflexivity. }
  rewrite E, skipn_skipn; do 3 f_equal; lia.
Qed.

Lemma input_small b sc : length (Vb sc) = 8%nat -> length b = 192%nat -> words 8 b ->
  pairs 16 (INPUT_BLOCK_SMALL b sc) = pairs 4 (Vb sc) ++ map (fun i => firstn 16 (skipn (16 * i) b)) (seq 0 12) /\ length (INPUT_BLOCK_SMALL b sc) = 32%nat.
Proof.
  intros HV Hl Hb; rewrite (map_ext_in (fun i => firstn 16 (skipn (16 * i) b)) (fun i => sph_enc64le (sph_dec64le (skipn (16 * i) b)) ++ sph_enc64le (sph_dec64le (skipn (16 * i + 8) b))))
    by (intros i Hi; apply in_seq in Hi; symmetry; apply block_pair; [assumption | lia]).
  unfold INPUT_BLOCK_SMALL; revert HV; generalize (Vb sc); intros V HV; do 8 (destruct V as [|? V]; [discriminate HV|]); destruct V; [|discriminate HV]; split; reflexivity.
Qed.

Lemma input_big b sc : length (Vb sc) = 16%nat -> length b = 128%nat -> words 8 b ->
  pairs 16 (INPUT_BLOCK_BIG b sc) = pairs 8 (Vb sc) ++ map (fun i => firstn 16 (skipn (16 * i) b)) (seq 0 8) /\ length (INPUT_BLOCK_BIG b sc) = 32%nat.
Proof.
  intros HV Hl Hb; rewrite (map_ext_in (fun i => firstn 16 (skipn (16 * i) b)) (fun i => sph_enc64le (sph_dec64le (skipn (16 * i) b)) ++ sph_enc64le (sph_dec64le (skipn (16 * i + 8) b))))
    by (intros i Hi; apply in_seq in Hi; symmetry; apply block_pair; [assumption | lia]).
  unfold INPUT_BLOCK_BIG; revert HV; generalize (Vb sc); intros V HV; do 16 (destruct V as [|? V]; [discriminate HV|]); destruct V; [|discriminate HV]; split; reflexivity.
Qed.

Definition counter (sc : echo_state) : Z * Z * Z * Z := (C0 sc, C1 sc, C2 sc, C3 sc).

Lemma echo_compress_small_spec b sc c : length (Vb sc) = 8%nat -> length b = 192%nat -> words 8 b -> counter sc = quad c ->
  let r := echo_small_compress b sc in
  pairs 4 (Vb r) = echo_compress 4 8 c b (pairs 4 (Vb sc)) /\ counter r = counter sc /\ length (Vb r) = 8%nat.
Proof.
  intros HV Hl Hb Hc; destruct (input_small b sc HV Hl Hb) as [E1 E2]; unfold echo_small_compress, COMPRESS_SMALL; fold (counter sc); rewrite Hc; cbv zeta.
  destruct (echo_rounds_spec 8 c _ E2) as [E3 E4]; destruct (iter 8 BIG_ROUND _) as [W K]; cbn [fst] in E3, E4; cbn [Vb counter C0 C1 C2 C3].
  split; [|split; [exact Hc | reflexivity]].
  rewrite final_small_words, fold_pairs by (assumption || reflexivity || lia); unfold echo_compress; rewrite E3, E1; reflexivity.
Qed.

Lemma echo_compress_big_spec b sc c : length (Vb sc) = 16%nat -> length b = 128%nat -> words 8 b -> counter sc = quad c ->
  let r := echo_big_compress b sc in
  pairs 8 (Vb r) = echo_compress 8 10 c b (pairs 8 (Vb sc)) /\ counter r = counter sc /\ length (Vb r) = 16%nat.
Proof.
  intros HV Hl Hb Hc; destruct (input_big b sc HV Hl Hb) as [E1 E2]; unfold echo_big_compress, COMPRESS_BIG; fold (counter sc); rewrite Hc; cbv zeta.
  destruct (echo_rounds_spec 10 c _ E2) as [E3 E4]; destruct (iter 10 BIG_ROUND _) as [W K]; cbn [fst] in E3, E4; cbn [Vb counter C0 C1 C2 C3].
  split; [|split; [exact Hc | reflexivity]].
  rewrite final_big_words, fold_pairs by (assumption || reflexivity || lia); unfold echo_compress; rewrite E3, E1; reflexivity.
Qed.

(** ** Counter and stream *)
Lemma incr_spec sc val c : counter sc = quad c -> 0 <= val < 2 ^ 32 -> counter (INCR_COUNTER sc val) = quad (c + val) /\ Vb (INCR_COUNTER sc val) = Vb sc.
Proof.
  intros Hc Hv; rewrite <- quad_add_spec, <- Hc by assumption; unfold INCR_COUNTER, quad_add, counter; cbv zeta.
  assert (E : SPH_T32 val = val) by (rewrite SPH_T32_trunc; apply trunc_small; [lia | exact Hv]); rewrite E.
  destruct (_ <? val); [destruct (_ =? 0); [destruct (_ =? 0)|]|]; split; reflexivity.
Qed.

Section Variant.
Context (blen v rounds : nat) (compress : list Z -> echo_state -> echo_state) (init : echo_context -> Z -> echo_context).
Context (blen_range : (18 <= blen <= 192)%nat).
Context (compress_spec : forall b sc c, length (Vb sc) = (2 * v)%nat -> length b = blen -> words 8 b -> counter sc = quad c ->
  let r := compress b sc in pairs v (Vb r) = echo_compress v rounds c b (pairs v (Vb sc)) /\ counter r = counter sc /\ length (Vb r) = (2 * v)%nat).

Definition process (b : list Z) (s : echo_state) : echo_state := compress b (INCR_COUNTER s (8 * Z.of_nat blen)).

Definition represents (s : echo_state) (a : list (list Z) * Z) : Prop :=
  pairs v (Vb s) = fst a /\ counter s = quad (8 * Z.of_nat blen * snd a) /\ length (Vb s) = (2 * v)%nat.

Lemma echo_process_represents b s a : length b = blen -> words 8 b -> represents s a -> represents (process b s) (full_block blen (echo_compress v rounds) b a).
Proof.
  intros Hl Hb (E1 & E2 & E3); unfold process; destruct (incr_spec s (8 * Z.of_nat blen) _ E2 ltac:(lia)) as [I1 I2].
  set (s1 := INCR_COUNTER s (8 * Z.of_nat blen)) in *; destruct (compress_spec b s1 _ ltac:(now rewrite I2) Hl Hb I1) as (D1 & D2 & D3).
  unfold represents, full_block; cbn [fst snd]; rewrite D1, D2, I1, I2, E1.
  replace (8 * Z.of_nat blen * snd a + 8 * Z.of_nat blen) with (8 * Z.of_nat blen * (snd a + 1)) by lia; auto.
Qed.

(** The context after the message. *)
Lemma echo_absorbed c V0 chunks : length (buf c) = blen -> ptr c = 0%nat -> represents (st c) (V0, 0) -> words 8 (concat chunks) ->
  let c' := fold_left (core blen process) chunks c in
  let a := absorb blen (full_block blen (echo_compress v rounds)) (V0, 0) (concat chunks) in
  length (buf c') = blen /\ (ptr c' < blen)%nat /\ ptr c' = (length (concat chunks) mod blen)%nat /\ represents (st c') (fst a) /\ firstn (ptr c') (buf c') = snd a.
Proof.
  intros Hb Hp Hr Hw c' a.
  destruct (core_many_refines blen process ltac:(lia) blen ltac:(lia) ltac:(intros b s Hl; now rewrite firstn_all2 by lia) chunks c) as [[Hb' Hp'] Ha]; [split; [exact Hb | lia]|].
  fold c' in Hb', Hp', Ha; unfold ctx_abs in Ha; rewrite Hp in Ha; cbn [fst snd firstn app] in Ha.
  destruct (absorb_sim represents blen process (full_block blen (echo_compress v rounds)) (st c) (V0, 0) (concat chunks)) as [E1 E2];
    [lia | intros; now apply echo_process_represents | assumption | assumption |].
  rewrite <- Ha in E1, E2; cbn [fst snd] in E1, E2; fold a in E1, E2.
  split; [exact Hb'|]; split; [exact Hp'|]; split; [|split; assumption].
  apply (absorb_rest_ptr blen (full_block blen (echo_compress v rounds)) (V0, 0) (concat chunks) (buf c')); [lia | lia | symmetry; exact E2].
Qed.

Definition close_with (sc : echo_context) (ub n : Z) (out_size_w32 : nat) : echo_context * list Z :=
  let b := buf sc in
  let p := ptr sc in
  let elen := (Z.of_nat p << 3) + n in
  let s := INCR_COUNTER (st sc) elen in
  let tmp := sph_enc32le (C0 s) ++ sph_enc32le (C1 s) ++ sph_enc32le (C2 s) ++ sph_enc32le (C3 s) in
  let s := if elen =? 0 then zero_counter s else s in
  let z := 0x80 >> n in
  let b := upd b p (((ub .& SPH_T32 (- z)) .| z) .& 0xFF) in
  let p := S p in
  let b := memset b p 0 (blen - p) in
  let (b, s) :=
    if (blen - 18 <? p)%nat then (memset b 0 0 blen, zero_counter (compress b s)) else (b, s) in
  let b := memcpy b (blen - 18) (sph_enc16le (Z.of_nat out_size_w32 << 5)) 2 in
  let b := memcpy b (blen - 16) tmp 16 in
  let s := compress b s in
  let out := flat_map (fun k => sph_enc64le (nth k (Vb s) 0)) (seq 0 ((out_size_w32 + 1) / 2)) in
  (init (Ctx b p s) (Z.of_nat out_size_w32 << 5), firstn (4 * out_size_w32) out).

Lemma fill_end (x e2 e16 : list Z) k : length e2 = 2%nat -> length e16 = 16%nat -> (18 <= k)%nat -> (length x + k = blen)%nat ->
  memcpy (memcpy (x ++ repeat 0 k) (blen - 18) e2 2) (blen - 16) e16 16 = x ++ repeat 0 (k - 18) ++ e2 ++ e16.
Proof.
  intros H2 H16 Hk Hl; set (y := x ++ repeat 0 (k - 18)); assert (Hy : length y = (blen - 18)%nat) by (unfold y; rewrite length_app, repeat_length; lia).
  replace (x ++ repeat 0 k) with (y ++ repeat 0 2 ++ repeat 0 16) by (unfold y; rewrite <- app_assoc, <- !repeat_app; do 2 f_equal; lia).
  rewrite <- Hy; pose proof (memcpy_mid y (repeat 0 2) (repeat 0 16) e2 H2) as E1; cbn [repeat_length length repeat] in E1 |- *; rewrite E1.
  replace (blen - 16)%nat with (length (y ++ e2)) by (rewrite length_app; lia).
  pose proof (memcpy_mid (y ++ e2) (repeat 0 16) [] e16 H16) as E2; rewrite app_nil_r, <- app_assoc in E2; cbn [length repeat] in E2; rewrite E2.
  unfold y; now rewrite app_nil_r, <- !app_assoc.
Qed.

Lemma zero_spec s : counter (zero_counter s) = quad 0 /\ Vb (zero_counter s) = Vb s.
Proof. split; reflexivity. Qed.

Lemma elen_zero p n : 0 <= n -> ((Z.of_nat p << 3) + n =? 0) = ((p =? 0)%nat && (n =? 0)).
Proof.
  intros Hn; rewrite Z.shiftl_mul_pow2 by lia; apply eq_iff_eq_true; rewrite andb_true_iff, !Z.eqb_eq, Nat.eqb_eq; lia.
Qed.

(** The bytes of the words, in order. *)
Lemma concat_pairs W : length W = (2 * v)%nat -> concat (pairs v W) = flat_map (fun k => sph_enc64le (nth k W 0)) (seq 0 (2 * v)).
Proof.
  intros _; unfold pairs; assert (H : forall k, concat (map (pair W) (seq 0 k)) = flat_map (fun k => sph_enc64le (nth k W 0)) (seq 0 (2 * k))); [|apply H].
  induction k as [|k IH]; [reflexivity|]; replace (2 * S k)%nat with (2 * k + 2)%nat by lia; rewrite seq_S, map_app, concat_app, IH, seq_app, flat_map_app.
  f_equal; unfold pair; cbn [map concat seq flat_map Nat.add]; rewrite !app_nil_r; do 3 f_equal; lia.
Qed.

Lemma output_words W out : length W = (2 * v)%nat -> (out <= 4 * v)%nat ->
  firstn (4 * out) (flat_map (fun k => sph_enc64le (nth k W 0)) (seq 0 ((out + 1) / 2))) = firstn (4 * out) (concat (pairs v W)).
Proof.
  intros HW Hout; rewrite concat_pairs by assumption; pose proof (Nat.div_mod_eq (out + 1) 2); pose proof (Nat.mod_upper_bound (out + 1) 2 ltac:(lia)).
  set (k := ((out + 1) / 2)%nat) in *; replace (2 * v)%nat with (k + (2 * v - k))%nat by lia; rewrite seq_app, flat_map_app.
  rewrite firstn_app, (length_flat_map_const _ 8) by reflexivity; rewrite length_seq; replace (4 * out - 8 * k)%nat with 0%nat by lia; now rewrite firstn_O, app_nil_r.
Qed.

Lemma enc_counter s c : counter s = quad c -> sph_enc32le (C0 s) ++ sph_enc32le (C1 s) ++ sph_enc32le (C2 s) ++ sph_enc32le (C3 s) = le_split 16 c.
Proof. intros H; pose proof (quad_bytes c) as E; rewrite <- H in E; unfold counter in E; cbn [flat_map] in E; now rewrite app_nil_r in E. Qed.

(** What [close] writes. *)
Lemma echo_close_spec c V0 chunks ub n out d : length (buf c) = blen -> ptr c = 0%nat -> represents (st c) (V0, 0) -> words 8 (concat chunks) -> 0 <= n < 8 ->
  Z.of_nat out << 5 = d -> (out <= 4 * v)%nat ->
  let r := close_with (fold_left (core blen process) chunks c) ub n out in
  let m := concat chunks in
  let V := fst (fst (absorb blen (counted blen (echo_compress v rounds) (8 * Z.of_nat (length m) + n)) (V0, 0) (echo_pad blen d m ub n))) in
  snd r = firstn (4 * out) (concat V) /\ exists b p s, length b = blen /\ fst r = init (Ctx b p s) d.
Proof.
  intros Hb Hp Hr Hw Hn Hd Hout r m V; destruct (echo_absorbed c V0 chunks Hb Hp Hr Hw) as (Hb' & Hp' & Ep & (R1 & R2 & R3) & Er).
  set (c' := fold_left (core blen process) chunks c) in *; fold m in Ep, R1, R2, R3, Er, Hw.
  set (a := absorb blen (full_block blen (echo_compress v rounds)) (V0, 0) m) in *; set (L := 8 * Z.of_nat (length m) + n) in *.
  pose proof (full_block_count blen (echo_compress v rounds) ltac:(lia) m V0 0) as Eq; fold a in Eq; rewrite Eq, Z.add_0_l in R2.
  set (elen := (Z.of_nat (ptr c') << 3) + n); set (s1 := INCR_COUNTER (st c') elen).
  assert (Hel : elen = 8 * Z.of_nat (ptr c') + n) by (unfold elen; rewrite Z.shiftl_mul_pow2; lia).
  destruct (incr_spec (st c') elen _ R2 ltac:(lia)) as [I1 I2]; fold s1 in I1, I2.
  replace (8 * Z.of_nat blen * Z.of_nat (length m / blen) + elen) with L in I1 by (unfold L; pose proof (Nat.div_mod_eq (length m) blen); lia).
  set (cf := if (length m mod blen =? 0)%nat && (n =? 0) then 0 else L); set (s2 := if elen =? 0 then zero_counter s1 else s1).
  assert (S2 : counter s2 = quad cf /\ pairs v (Vb s2) = fst (fst a) /\ length (Vb s2) = (2 * v)%nat).
  { unfold s2, cf, elen; rewrite elen_zero, <- Ep by lia; destruct ((ptr c' =? 0)%nat && (n =? 0)); [split; [reflexivity|]; change (Vb (zero_counter s1)) with (Vb s1); rewrite I2; auto | rewrite I1, I2; auto]. }
  destruct S2 as (S2a & S2b & S2c); set (lb := last_byte ub n); set (e2 := sph_enc16le (Z.of_nat out << 5)); set (e16 := le_split 16 L).
  assert (Hrest : length (snd a) = ptr c') by (rewrite <- Er, length_firstn; lia).
  assert (Hsw : words 8 (snd a)).
  { refine (proj2 (absorb_inv blen (full_block blen (echo_compress v rounds)) ltac:(lia) (fun _ => True) (V0, 0) m _ Hw I)); auto. }
  assert (Hlb : inw 8 lb) by (unfold lb; rewrite <- pad_byte by assumption; apply u8_inw).
  assert (He2 : e2 = le_split 2 d) by (unfold e2; rewrite Hd; reflexivity).
  assert (Hz : forall k, words 8 (repeat 0 k)) by (intros k; apply words_repeat; unfold inw; lia).
  assert (Hew : words 8 (e2 ++ e16)) by (rewrite He2; apply words_app; apply le_split_bytes).
  pose proof (counted_final blen (echo_compress v rounds) ltac:(lia) V0 m n) as Hfin; fold a L in Hfin; cbv zeta in Hfin; fold cf in Hfin.
  assert (Hpad : memset (upd (buf c') (ptr c') (((ub .& SPH_T32 (- (0x80 >> n))) .| (0x80 >> n)) .& 0xFF)) (S (ptr c')) 0 (blen - S (ptr c')) = (snd a ++ [lb]) ++ repeat 0 (blen - S (ptr c'))).
  { rewrite (pad_buffer (buf c') (ptr c') blen) by assumption; rewrite pad_byte, Er, <- app_assoc by assumption; reflexivity. }
  unfold r, close_with; cbv zeta; fold elen s1; fold s2; rewrite (enc_counter s1 L I1), Hpad; fold e2 e16.
  unfold V, echo_pad; rewrite <- Ep; fold L e16; rewrite <- He2; fold lb; clear r V.
  assert (Hlen : length (snd a ++ [lb]) = S (ptr c')) by (rewrite length_app, Hrest; cbn; lia).
  destruct (Nat.ltb_spec (blen - 18) (S (ptr c'))) as [Hlong|Hshort].
  - set (b1 := (snd a ++ [lb]) ++ repeat 0 (blen - S (ptr c'))); assert (Hl1 : length b1 = blen) by (unfold b1; rewrite length_app, Hlen, repeat_length; lia).
    assert (Hw1 : words 8 b1) by (repeat (apply words_app; auto); constructor; [assumption | constructor]).
    destruct (compress_spec b1 s2 cf S2c Hl1 Hw1 S2a) as (D1 & D2 & D3); set (s3 := zero_counter (compress b1 s2)).
    rewrite (memset_zero b1 blen Hl1), <- (app_nil_l (repeat 0 blen)), fill_end by (reflexivity || (cbn [length]; lia)); cbn [app].
    set (b2 := repeat 0 (blen - 18) ++ e2 ++ e16); assert (Hl2 : length b2 = blen) by (unfold b2; rewrite !length_app, repeat_length; cbn [e2 e16 sph_enc16le le_split length]; lia).
    destruct (compress_spec b2 s3 0 D3 Hl2 ltac:(apply words_app; auto) eq_refl) as (F1 & F2 & F3).
    cbn [fst snd]; rewrite Hd; split; [|eexists _, _, _; split; [exact Hl2 | reflexivity]].
    rewrite output_words by assumption; rewrite F1; do 2 f_equal; change (Vb s3) with (Vb (compress b1 s2)); rewrite D1, S2b.
    replace (lb :: repeat 0 (blen - S (ptr c') + (blen - 18)) ++ e2 ++ e16) with ((lb :: repeat 0 (blen - S (ptr c'))) ++ b2) by (unfold b2; rewrite repeat_app, <- app_comm_cons, <- app_assoc; reflexivity).
    symmetry; unfold b1; rewrite <- app_assoc; refine (proj2 (Hfin _ _ Hn _) Hl2); cbn [length]; rewrite repeat_length, Hrest; lia.
  - rewrite fill_end by (reflexivity || lia); set (b2 := (snd a ++ [lb]) ++ repeat 0 (blen - S (ptr c') - 18) ++ e2 ++ e16).
    assert (Hl2 : length b2 = blen) by (unfold b2; rewrite length_app, Hlen, !length_app, repeat_length; cbn [e2 e16 sph_enc16le le_split length]; lia).
    assert (Hw2 : words 8 b2) by (repeat (apply words_app; auto); constructor; [assumption | constructor]).
    destruct (compress_spec b2 s2 cf S2c Hl2 Hw2 S2a) as (D1 & D2 & D3).
    cbn [fst snd]; rewrite Hd; split; [|eexists _, _, _; split; [exact Hl2 | reflexivity]].
    rewrite output_words by assumption; rewrite D1, S2b; do 2 f_equal; symmetry; unfold b2; rewrite <- app_assoc.
    replace (blen - S (ptr c') - 18)%nat with (blen - 18 - S (ptr c'))%nat by lia.
    refine (proj1 (Hfin _ [] Hn _)); cbn [length app]; rewrite !length_app, repeat_length, Hrest; cbn [e2 e16 sph_enc16le le_split length]; lia.
Qed.
End Variant.

(** ** The four variants *)
Lemma process_small b s : echo_small_compress b (INCR_COUNTER s 1536) = process 192 echo_small_compress b s.
Proof. reflexivity. Qed.

Lemma echo_small_run c chunks ub n out d : length (buf c) = 192%nat -> words 8 (concat chunks) -> 0 <= n < 8 -> (out = 7 \/ out = 8)%nat -> d = 32 * Z.of_nat out ->
  let r := echo_small_close (fold_left echo_small_core chunks (echo_small_init c d)) ub n out in
  snd r = echo_spec d (concat chunks) ub n /\ length (buf (fst r)) = 192%nat.
Proof.
  intros Hb Hw Hn Hout Hd r; subst d; set (d := 32 * Z.of_nat out) in *.
  assert (Hr : represents 192 4 (st (echo_small_init c d)) (repeat (le_split 16 d) 4, 0)) by (unfold d; destruct Hout; subst out; repeat split).
  destruct (echo_close_spec 192 4 8 echo_small_compress echo_small_init ltac:(lia) echo_compress_small_spec (echo_small_init c d) _ chunks ub n out d Hb eq_refl Hr Hw Hn) as [E (b & p & s & Hl & Ef)];
    [unfold d; destruct Hout; subst out; reflexivity | lia |].
  change (close_with 192 echo_small_compress echo_small_init (fold_left (core 192 (process 192 echo_small_compress)) chunks (echo_small_init c d)) ub n out) with r in E, Ef.
  split; [|rewrite Ef; exact Hl]; rewrite E; unfold echo_spec.
  replace (d <=? 256) with true by (unfold d; destruct Hout; subst out; reflexivity); cbv zeta.
  replace (Z.to_nat (d / 8)) with (4 * out)%nat by (unfold d; destruct Hout; subst out; reflexivity); reflexivity.
Qed.

Lemma echo_big_run c chunks ub n out d : length (buf c) = 128%nat -> words 8 (concat chunks) -> 0 <= n < 8 -> (out = 12 \/ out = 16)%nat -> d = 32 * Z.of_nat out ->
  let r := echo_big_close (fold_left echo_big_core chunks (echo_big_init c d)) ub n out in
  snd r = echo_spec d (concat chunks) ub n /\ length (buf (fst r)) = 128%nat.
Proof.
  intros Hb Hw Hn Hout Hd r; subst d; set (d := 32 * Z.of_nat out) in *.
  assert (Hr : represents 128 8 (st (echo_big_init c d)) (repeat (le_split 16 d) 8, 0)) by (unfold d; destruct Hout; subst out; repeat split).
  destruct (echo_close_spec 128 8 10 echo_big_compress echo_big_init ltac:(lia) echo_compress_big_spec (echo_big_init c d) _ chunks ub n out d Hb eq_refl Hr Hw Hn) as [E (b & p & s & Hl & Ef)];
    [unfold d; destruct Hout; subst out; reflexivity | lia |].
  change (close_with 128 echo_big_compress echo_big_init (fold_left (core 128 (process 128 echo_big_compress)) chunks (echo_big_init c d)) ub n out) with r in E, Ef.
  split; [|rewrite Ef; exact Hl]; rewrite E; unfold echo_spec.
  replace (d <=? 256) with false by (unfold d; destruct Hout; subst out; reflexivity); cbv zeta.
  replace (Z.to_nat (d / 8)) with (4 * out)%nat by (unfold d; destruct Hout; subst out; reflexivity); reflexivity.
Qed.

(** C34: Whatever the context held before [init], and however the message is cut
    into chunks, the four variants return the ECHO digest of the message with
    its extra bits: the tables of aes_helper.c compute the rounds of the AES on
    each 128-bit word with the counter as key, the code in place the layers on
    the matrix of the words, and the 128-bit counter of message bits with its
    carries is right in every block, the blocks of padding included; the loops
    of the small-footprint code compute the same. *)
Theorem echo_correct (c c' : echo_context) (chunks : list (list Z)) (ub n : Z) :
  length (buf c) = 192%nat -> length (buf c') = 128%nat -> words 8 (concat chunks) -> 0 <= n < 8 ->
  let m := concat chunks in
  fst (sph_echo224_addbits_and_close (fold_left sph_echo224 chunks (sph_echo224_init c)) ub n) = echo_spec 224 m ub n
  /\ fst (sph_echo256_addbits_and_close (fold_left sph_echo256 chunks (sph_echo256_init c)) ub n) = echo_spec 256 m ub n
  /\ fst (sph_echo384_addbits_and_close (fold_left sph_echo384 chunks (sph_echo384_init c')) ub n) = echo_spec 384 m ub n
  /\ fst (sph_echo512_addbits_and_close (fold_left sph_echo512 chunks (sph_echo512_init c')) ub n) = echo_spec 512 m ub n
  /\ (forall s, BIG_SUB_WORDS s = aes_2rounds_all s) /\ (forall ia ib ic id W, MIX_COLUMN ia ib ic id W = mix_column ia ib ic id W).
Proof.
  intros Hb Hb' Hw Hn m; unfold sph_echo224_addbits_and_close, sph_echo256_addbits_and_close, sph_echo384_addbits_and_close, sph_echo512_addbits_and_close; rewrite !swapped; cbn [fst].
  split; [|split; [|split; [|split; [|split; reflexivity]]]].
  - apply (echo_small_run c chunks ub n 7 224 Hb Hw Hn); auto.
  - apply (echo_small_run c chunks ub n 8 256 Hb Hw Hn); auto.
  - apply (echo_big_run c' chunks ub n 12 384 Hb' Hw Hn); auto.
  - apply (echo_big_run c' chunks ub n 16 512 Hb' Hw Hn); auto.
Qed.

Lemma echo_correct_witness :
  let c := Ctx (repeat 0xAA 128) 5 (EState [1; 2] 3 4 5 6) in
  let chunks := [[1; 2; 3]; repeat 7 270; [9]] in
  fst (sph_echo512_addbits_and_close (fold_left sph_echo512 chunks (sph_echo512_init c)) 0xA0 3) = echo_spec 512 (concat chunks) 0xA0 3.
Proof.
  intros c chunks; refine (proj1 (proj2 (proj2 (proj2 (echo_correct (Ctx (repeat 0xAA 192) 0 (EState [] 0 0 0 0)) c chunks 0xA0 3 _ _ _ _))))); [reflexivity | reflexivity | words_dec | lia].
Defined.

(** ** ECHO-512 behind the common interface *)
Lemma echo_close_shape c ub n : words 8 (snd (echo_big_close c ub n 16)) /\ length (snd (echo_big_close c ub n 16)) = 64%nat.
Proof.
  unfold echo_big_close; cbv zeta; destruct (if (128 - 18 <? S (ptr c))%nat then _ else _) as [b s]; cbn [snd]; split; [apply words_firstn, words_flat_map; auto with word|].
  rewrite length_firstn, (length_flat_map_const _ 8), length_seq by reflexivity; reflexivity.
Qed.

Lemma echo_digest_shape m : words 8 (echo_spec 512 (map u8 m) 0 0) /\ length (echo_spec 512 (map u8 m) 0 0) = 64%nat.
Proof.
  destruct (echo_big_run (Ctx (repeat 0 128) 0 (EState [] 0 0 0 0)) [map u8 m] 0 0 16 512 eq_refl) as [E _]; [cbn [concat]; rewrite app_nil_r; apply words_map; exact u8_inw | lia | auto | reflexivity |].
  cbn [concat] in E; rewrite app_nil_r in E; rewrite <- E; apply echo_close_shape.
Qed.

#[export, refine] Instance echo512_hash : StreamHash := {|
  hctx := echo_context;
  hctx_ok c := length (buf c) = 128%nat;
  hinit := sph_echo512_init;
  hupdate := sph_echo512;
  hclose := sph_echo512_close;
  hlen := 64;
  digest m := echo_spec 512 (map u8 m) 0 0
|}.
Proof.
  - intros c H; exact H.
  - intros c chunks H Hw Hm; unfold sph_echo512_close; rewrite swapped, words_map_u8 by exact Hw; cbn [fst snd].
    apply (echo_big_run c chunks 0 0 16 512 H Hw); [lia | auto | reflexivity].
  - intros m; apply echo_digest_shape.
  - intros m; apply echo_digest_shape.
Defined.
