(* ===== verification/Shavite.v ===== *)
(** * Shavite: model of shavite.c

    SHAvite-3-224/256 (blocks of 64 bytes, 12 rounds) and SHAvite-3-384/512
    (blocks of 128 bytes, 14 rounds) as the unrolled code computes them.  Four
    variables with consecutive numbers ([p0 ... p3], [rk0 ... rk3], [x0 ... x3])
    are one vector [q4].  ShaviteSpec.v has the specification and the theorems. *)

From Stdlib Require Import ZArith List Lia Bool.
From S2P Require Import Prelude SphTypes Stream HashLib Aes.
Import ListNotations.

Open Scope Z_scope.
Open Scope word_scope.

Definition IV224 : list Z :=
  [0x6774F31C; 0x990AE210; 0xC87D4274; 0xC9546371; 0x62B2AEA8; 0x4B5801D8; 0x1B702860; 0x842F3017].

Definition IV256 : list Z :=
  [0x49BB3E47; 0x2674860D; 0xA8B392AC; 0x021AC4E6; 0x409283CF; 0x620E5D86; 0x6D929DCB; 0x96CC2A8B].

Definition IV384 : list Z :=
  [0x83DF1545; 0xF9AAEC13; 0xF4803CB0; 0x11FE1F47; 0xDA6CD269; 0x4F53FCD7; 0x950529A2; 0x97908147;
   0xB0A4D7AF; 0x2B9132BF; 0x226E607D; 0x3C0F8D7C; 0x487B3F0F; 0x04363E22; 0x0155C99C; 0xEC2E20D3].

Definition IV512 : list Z :=
  [0x72FCCDD8; 0x79CA4727; 0x128A077B; 0x40D55AEC; 0xD1901A06; 0x430AE307; 0xB29F5CD1; 0xDF07FBFC;
   0x8E45D73D; 0x681AB538; 0xBDE86578; 0xDD577E47; 0xE275EADE; 0x502D9FCD; 0xB9357178; 0x022A4B9A].

Inductive q4 := Q4 (w0 w1 w2 w3 : Z).

Definition xor4 (a b : q4) : q4 :=
  let '(Q4 a0 a1 a2 a3) := a in let '(Q4 b0 b1 b2 b3) := b in Q4 (a0 .^ b0) (a1 .^ b1) (a2 .^ b2) (a3 .^ b3).

Definition AES_ROUND_NOKEY (x : q4) : q4 :=
  let '(Q4 t0 t1 t2 t3) := x in
  let '(x0, x1, x2, x3) := AES_ROUND_NOKEY_LE t0 t1 t2 t3 in
  Q4 x0 x1 x2 x3.

Definition KEY_EXPAND_ELT (k : q4) : q4 :=
  let '(Q4 k0 k1 k2 k3) := k in
  let '(Q4 k1 k2 k3 k0) := AES_ROUND_NOKEY (Q4 k1 k2 k3 k0) in
  let kt := k0 in
  let k0 := k1 in
  let k1 := k2 in
  let k2 := k3 in
  let k3 := kt in
  Q4 k0 k1 k2 k3.

(** Four words of the message. *)
Definition dec4 (msg : list Z) (off : nat) : q4 :=
  Q4 (sph_dec32le (skipn off msg)) (sph_dec32le (skipn (off + 4) msg)) (sph_dec32le (skipn (off + 8) msg)) (sph_dec32le (skipn (off + 12) msg)).

(** [rk0 ^= rkD; rk1 ^= rkE; rk2 ^= rkF; rk3 ^= rk0]. *)
Definition mix256 (k prev : q4) : q4 :=
  let '(Q4 k0 k1 k2 k3) := k in
  let '(Q4 _ p1 p2 p3) := prev in
  let k0 := k0 .^ p1 in
  let k1 := k1 .^ p2 in
  let k2 := k2 .^ p3 in
  let k3 := k3 .^ k0 in
  Q4 k0 k1 k2 k3.

(** [rk00 ^= rk19; rk01 ^= rk1A; rk02 ^= rk1B; rk03 ^= rk1C]. *)
Definition mix512 (k prev2 prev : q4) : q4 :=
  let '(Q4 k0 k1 k2 k3) := k in
  let '(Q4 _ p1 p2 p3) := prev2 in
  let '(Q4 q0 _ _ _) := prev in
  Q4 (k0 .^ p1) (k1 .^ p2) (k2 .^ p3) (k3 .^ q0).

(** [SPH_T32(~x)]. *)
Definition not32 (x : Z) : Z := SPH_T32 (Z.lnot x).

(** ** The small variants *)

(** The context: [h] and the counter. *)
Record small_state := Small { h : list Z; count0 : Z; count1 : Z }.

(** The variables of [c256]; [rkC ... rkF] are set in round 1. *)
Inductive v256 := S256 (p03 p47 rk03 rk47 rk8B rkCF : q4).

Definition c256_round0 (msg : list Z) (p03 p47 : q4) : v256 :=
  let rk03 := dec4 msg 0 in
  let x := xor4 p47 rk03 in
  let x := AES_ROUND_NOKEY x in
  let rk47 := dec4 msg 16 in
  let x := xor4 x rk47 in
  let x := AES_ROUND_NOKEY x in
  let rk8B := dec4 msg 32 in
  let x := xor4 x rk8B in
  let x := AES_ROUND_NOKEY x in
  let p03 := xor4 p03 x in
  S256 p03 p47 rk03 rk47 rk8B (Q4 0 0 0 0).

Definition c256_round1 (sc : small_state) (msg : list Z) (p03 p47 rk03 rk47 rk8B : q4) : v256 :=
  let rkCF := dec4 msg 48 in
  let x := xor4 p03 rkCF in
  let x := AES_ROUND_NOKEY x in
  let rk03 := KEY_EXPAND_ELT rk03 in
  let rk03 := xor4 rk03 (xor4 rkCF (Q4 (count0 sc) (not32 (count1 sc)) 0 0)) in
  let x := xor4 x rk03 in
  let x := AES_ROUND_NOKEY x in
  let rk47 := KEY_EXPAND_ELT rk47 in
  let rk47 := xor4 rk47 rk03 in
  let x := xor4 x rk47 in
  let x := AES_ROUND_NOKEY x in
  let p47 := xor4 p47 x in
  S256 p03 p47 rk03 rk47 rk8B rkCF.

Definition c256_round2 (s : v256) : v256 :=
  let '(S256 p03 p47 rk03 rk47 rk8B rkCF) := s in
  let rk8B := KEY_EXPAND_ELT rk8B in
  let rk8B := xor4 rk8B rk47 in
  let x := xor4 p47 rk8B in
  let x := AES_ROUND_NOKEY x in
  let rkCF := KEY_EXPAND_ELT rkCF in
  let rkCF := xor4 rkCF rk8B in
  let x := xor4 x rkCF in
  let x := AES_ROUND_NOKEY x in
  let rk03 := mix256 rk03 rkCF in
  let x := xor4 x rk03 in
  let x := AES_ROUND_NOKEY x in
  let p03 := xor4 p03 x in
  S256 p03 p47 rk03 rk47 rk8B rkCF.

Definition c256_round3 (s : v256) : v256 :=
  let '(S256 p03 p47 rk03 rk47 rk8B rkCF) := s in
  let rk47 := mix256 rk47 rk03 in
  let x := xor4 p03 rk47 in
  let x := AES_ROUND_NOKEY x in
  let rk8B := mix256 rk8B rk47 in
  let x := xor4 x rk8B in
  let x := AES_ROUND_NOKEY x in
  let rkCF := mix256 rkCF rk8B in
  let x := xor4 x rkCF in
  let x := AES_ROUND_NOKEY x in
  let p47 := xor4 p47 x in
  S256 p03 p47 rk03 rk47 rk8B rkCF.

Definition c256_round4 (sc : small_state) (s : v256) : v256 :=
  let '(S256 p03 p47 rk03 rk47 rk8B rkCF) := s in
  let rk03 := KEY_EXPAND_ELT rk03 in
  let rk03 := xor4 rk03 rkCF in
  let x := xor4 p47 rk03 in
  let x := AES_ROUND_NOKEY x in
  let rk47 := KEY_EXPAND_ELT rk47 in
  let rk47 := xor4 rk47 rk03 in
  let x := xor4 x rk47 in
  let x := AES_ROUND_NOKEY x in
  let rk8B := KEY_EXPAND_ELT rk8B in
  let rk8B := xor4 rk8B (xor4 rk47 (Q4 0 (count1 sc) (not32 (count0 sc)) 0)) in
  let x := xor4 x rk8B in
  let x := AES_ROUND_NOKEY x in
  let p03 := xor4 p03 x in
  S256 p03 p47 rk03 rk47 rk8B rkCF.

Definition c256_round5 (s : v256) : v256 :=
  let '(S256 p03 p47 rk03 rk47 rk8B rkCF) := s in
  let rkCF := KEY_EXPAND_ELT rkCF in
  let rkCF := xor4 rkCF rk8B in
  let x := xor4 p03 rkCF in
  let x := AES_ROUND_NOKEY x in
  let rk03 := mix256 rk03 rkCF in
  let x := xor4 x rk03 in
  let x := AES_ROUND_NOKEY x in
  let rk47 := mix256 rk47 rk03 in
  let x := xor4 x rk47 in
  let x := AES_ROUND_NOKEY x in
  let p47 := xor4 p47 x in
  S256 p03 p47 rk03 rk47 rk8B rkCF.

Definition c256_round6 (s : v256) : v256 :=
  let '(S256 p03 p47 rk03 rk47 rk8B rkCF) := s in
  let rk8B := mix256 rk8B rk47 in
  let x := xor4 p47 rk8B in
  let x := AES_ROUND_NOKEY x in
  let rkCF := mix256 rkCF rk8B in
  let x := xor4 x rkCF in
  let x := AES_ROUND_NOKEY x in
  let rk03 := KEY_EXPAND_ELT rk03 in
  let rk03 := xor4 rk03 rkCF in
  let x := xor4 x rk03 in
  let x := AES_ROUND_NOKEY x in
  let p03 := xor4 p03 x in
  S256 p03 p47 rk03 rk47 rk8B rkCF.

Definition c256_round7 (sc : small_state) (s : v256) : v256 :=
  let '(S256 p03 p47 rk03 rk47 rk8B rkCF) := s in
  let rk47 := KEY_EXPAND_ELT rk47 in
  let rk47 := xor4 rk47 (xor4 rk03 (Q4 0 0 (count1 sc) (not32 (count0 sc)))) in
  let x := xor4 p03 rk47 in
  let x := AES_ROUND_NOKEY x in
  let rk8B := KEY_EXPAND_ELT rk8B in
  let rk8B := xor4 rk8B rk47 in
  let x := xor4 x rk8B in
  let x := AES_ROUND_NOKEY x in
  let rkCF := KEY_EXPAND_ELT rkCF in
  let rkCF := xor4 rkCF rk8B in
  let x := xor4 x rkCF in
  let x := AES_ROUND_NOKEY x in
  let p47 := xor4 p47 x in
  S256 p03 p47 rk03 rk47 rk8B rkCF.

Definition c256_round8 (s : v256) : v256 :=
  let '(S256 p03 p47 rk03 rk47 rk8B rkCF) := s in
  let rk03 := mix256 rk03 rkCF in
  let x := xor4 p47 rk03 in
  let x := AES_ROUND_NOKEY x in
  let rk47 := mix256 rk47 rk03 in
  let x := xor4 x rk47 in
  let x := AES_ROUND_NOKEY x in
  let rk8B := mix256 rk8B rk47 in
  let x := xor4 x rk8B in
  let x := AES_ROUND_NOKEY x in
  let p03 := xor4 p03 x in
  S256 p03 p47 rk03 rk47 rk8B rkCF.

Definition c256_round9 (s : v256) : v256 :=
  let '(S256 p03 p47 rk03 rk47 rk8B rkCF) := s in
  let rkCF := mix256 rkCF rk8B in
  let x := xor4 p03 rkCF in
  let x := AES_ROUND_NOKEY x in
  let rk03 := KEY_EXPAND_ELT rk03 in
  let rk03 := xor4 rk03 rkCF in
  let x := xor4 x rk03 in
  let x := AES_ROUND_NOKEY x in
  let rk47 := KEY_EXPAND_ELT rk47 in
  let rk47 := xor4 rk47 rk03 in
  let x := xor4 x rk47 in
  let x := AES_ROUND_NOKEY x in
  let p47 := xor4 p47 x in
  S256 p03 p47 rk03 rk47 rk8B rkCF.

Definition c256_round10 (sc : small_state) (s : v256) : v256 :=
  let '(S256 p03 p47 rk03 rk47 rk8B rkCF) := s in
  let rk8B := KEY_EXPAND_ELT rk8B in
  let rk8B := xor4 rk8B rk47 in
  let x := xor4 p47 rk8B in
  let x := AES_ROUND_NOKEY x in
  let rkCF := KEY_EXPAND_ELT rkCF in
  let rkCF := xor4 rkCF (xor4 rk8B (Q4 (count0 sc) 0 0 (not32 (count1 sc)))) in
  let x := xor4 x rkCF in
  let x := AES_ROUND_NOKEY x in
  let rk03 := mix256 rk03 rkCF in
  let x := xor4 x rk03 in
  let x := AES_ROUND_NOKEY x in
  let p03 := xor4 p03 x in
  S256 p03 p47 rk03 rk47 rk8B rkCF.

Definition c256_round11 (s : v256) : v256 :=
  let '(S256 p03 p47 rk03 rk47 rk8B rkCF) := s in
  let rk47 := mix256 rk47 rk03 in
  let x := xor4 p03 rk47 in
  let x := AES_ROUND_NOKEY x in
  let rk8B := mix256 rk8B rk47 in
  let x := xor4 x rk8B in
  let x := AES_ROUND_NOKEY x in
  let rkCF := mix256 rkCF rk8B in
  let x := xor4 x rkCF in
  let x := AES_ROUND_NOKEY x in
  let p47 := xor4 p47 x in
  S256 p03 p47 rk03 rk47 rk8B rkCF.

Definition c256 (msg : list Z) (sc : small_state) : small_state :=
  let w i := nth i (h sc) 0 in
  let p03 := Q4 (w 0%nat) (w 1%nat) (w 2%nat) (w 3%nat) in
  let p47 := Q4 (w 4%nat) (w 5%nat) (w 6%nat) (w 7%nat) in
  let '(S256 p03 p47 rk03 rk47 rk8B _) := c256_round0 msg p03 p47 in
  let s := c256_round1 sc msg p03 p47 rk03 rk47 rk8B in
  let s := c256_round2 s in
  let s := c256_round3 s in
  let s := c256_round4 sc s in
  let s := c256_round5 s in
  let s := c256_round6 s in
  let s := c256_round7 sc s in
  let s := c256_round8 s in
  let s := c256_round9 s in
  let s := c256_round10 sc s in
  let s := c256_round11 s in
  let '(S256 (Q4 p0 p1 p2 p3) (Q4 p4 p5 p6 p7) _ _ _ _) := s in
  Small [w 0%nat .^ p0; w 1%nat .^ p1; w 2%nat .^ p2; w 3%nat .^ p3; w 4%nat .^ p4; w 5%nat .^ p5; w 6%nat .^ p6; w 7%nat .^ p7] (count0 sc) (count1 sc).

Definition shavite_small_init (sc : sctx small_state) (iv : list Z) : sctx small_state := Ctx (buf sc) 0 (Small iv 0 0).

(** A full buffer. *)
Definition small_process (b : list Z) (sc : small_state) : small_state :=
  let c0 := SPH_T32 (count0 sc + 512) in
  let c1 := if c0 =? 0 then SPH_T32 (count1 sc + 1) else count1 sc in
  c256 b (Small (h sc) c0 c1).

Definition shavite_small_core (sc : sctx small_state) (data : list Z) : sctx small_state :=
  core_loop 64 small_process (length data) (buf sc) (ptr sc) (st sc) data.

(** Returns the context and the bytes written to [dst]. *)
Definition shavite_small_close (sc : sctx small_state) (ub n : Z) (out_size_w32 : nat) : sctx small_state * list Z :=
  let b := buf sc in
  let p := ptr sc in
  let s := st sc in
  let c0 := SPH_T32 (count0 s + ((Z.of_nat p << 3) + n)) in
  let s := Small (h s) c0 (count1 s) in
  let c1 := count1 s in
  let z := 0x80 >> n in
  let z := ((ub .& SPH_T32 (- z)) .| z) .& 0xFF in
  let '(b, p, s) :=
    if (p =? 0)%nat && (n =? 0) then
      (memset (upd b 0 0x80) 1 0 53, p, Small (h s) 0 0)
    else if (p <? 54)%nat then
      let b := upd b p z in
      let p := S p in
      (memset b p 0 (54 - p), p, s)
    else
      let b := upd b p z in
      let p := S p in
      let b := memset b p 0 (64 - p) in
      let s := c256 b s in
      (memset b 0 0 54, p, Small (h s) 0 0) in
  let b := memcpy b 54 (sph_enc32le c0) 4 in
  let b := memcpy b 58 (sph_enc32le c1) 4 in
  let b := upd b 62 (u8 (Z.of_nat out_size_w32 << 5)) in
  let b := upd b 63 (u8 (Z.of_nat out_size_w32 >> 3)) in
  let s := c256 b s in
  (Ctx b p s, flat_map (fun u => sph_enc32le (nth u (h s) 0)) (seq 0 out_size_w32)).

(** ** The large variants *)
Record big_state := Big { H : list Z; cnt0 : Z; cnt1 : Z; cnt2 : Z; cnt3 : Z }.

(** The variables of [c512]. *)
Inductive v512 := S512 (p03 p47 p8B pCF rk00 rk04 rk08 rk0C rk10 rk14 rk18 rk1C : q4).

Definition c512_round0 (msg : list Z) (p03 p47 p8B pCF : q4) : v512 :=
  let rk00 := dec4 msg 0 in
  let x := xor4 p47 rk00 in
  let x := AES_ROUND_NOKEY x in
  let rk04 := dec4 msg 16 in
  let x := xor4 x rk04 in
  let x := AES_ROUND_NOKEY x in
  let rk08 := dec4 msg 32 in
  let x := xor4 x rk08 in
  let x := AES_ROUND_NOKEY x in
  let rk0C := dec4 msg 48 in
  let x := xor4 x rk0C in
  let x := AES_ROUND_NOKEY x in
  let p03 := xor4 p03 x in
  let rk10 := dec4 msg 64 in
  let x := xor4 pCF rk10 in
  let x := AES_ROUND_NOKEY x in
  let rk14 := dec4 msg 80 in
  let x := xor4 x rk14 in
  let x := AES_ROUND_NOKEY x in
  let rk18 := dec4 msg 96 in
  let x := xor4 x rk18 in
  let x := AES_ROUND_NOKEY x in
  let rk1C := dec4 msg 112 in
  let x := xor4 x rk1C in
  let x := AES_ROUND_NOKEY x in
  let p8B := xor4 p8B x in
  S512 p03 p47 p8B pCF rk00 rk04 rk08 rk0C rk10 rk14 rk18 rk1C.

(** Rounds 1, 5 and 9. *)
Definition c512_round1 (sc : big_state) (r : nat) (s : v512) : v512 :=
  let '(S512 p03 p47 p8B pCF rk00 rk04 rk08 rk0C rk10 rk14 rk18 rk1C) := s in
  let rk00 := KEY_EXPAND_ELT rk00 in
  let rk00 := xor4 rk00 rk1C in
  let rk00 := if (r =? 0)%nat then xor4 rk00 (Q4 (cnt0 sc) (cnt1 sc) (cnt2 sc) (not32 (cnt3 sc))) else rk00 in
  let x := xor4 p03 rk00 in
  let x := AES_ROUND_NOKEY x in
  let rk04 := KEY_EXPAND_ELT rk04 in
  let rk04 := xor4 rk04 rk00 in
  let rk04 := if (r =? 1)%nat then xor4 rk04 (Q4 (cnt3 sc) (cnt2 sc) (cnt1 sc) (not32 (cnt0 sc))) else rk04 in
  let x := xor4 x rk04 in
  let x := AES_ROUND_NOKEY x in
  let rk08 := KEY_EXPAND_ELT rk08 in
  let rk08 := xor4 rk08 rk04 in
  let x := xor4 x rk08 in
  let x := AES_ROUND_NOKEY x in
  let rk0C := KEY_EXPAND_ELT rk0C in
  let rk0C := xor4 rk0C rk08 in
  let x := xor4 x rk0C in
  let x := AES_ROUND_NOKEY x in
  let pCF := xor4 pCF x in
  let rk10 := KEY_EXPAND_ELT rk10 in
  let rk10 := xor4 rk10 rk0C in
  let x := xor4 p8B rk10 in
  let x := AES_ROUND_NOKEY x in
  let rk14 := KEY_EXPAND_ELT rk14 in
  let rk14 := xor4 rk14 rk10 in
  let x := xor4 x rk14 in
  let x := AES_ROUND_NOKEY x in
  let rk18 := KEY_EXPAND_ELT rk18 in
  let rk18 := xor4 rk18 rk14 in
  let x := xor4 x rk18 in
  let x := AES_ROUND_NOKEY x in
  let rk1C := KEY_EXPAND_ELT rk1C in
  let rk1C := xor4 rk1C rk18 in
  let rk1C := if (r =? 2)%nat then xor4 rk1C (Q4 (cnt2 sc) (cnt3 sc) (cnt0 sc) (not32 (cnt1 sc))) else rk1C in
  let x := xor4 x rk1C in
  let x := AES_ROUND_NOKEY x in
  let p47 := xor4 p47 x in
  S512 p03 p47 p8B pCF rk00 rk04 rk08 rk0C rk10 rk14 rk18 rk1C.

(** Rounds 2, 6 and 10. *)
Definition c512_round2 (s : v512) : v512 :=
  let '(S512 p03 p47 p8B pCF rk00 rk04 rk08 rk0C rk10 rk14 rk18 rk1C) := s in
  let rk00 := mix512 rk00 rk18 rk1C in
  let x := xor4 pCF rk00 in
  let x := AES_ROUND_NOKEY x in
  let rk04 := mix512 rk04 rk1C rk00 in
  let x := xor4 x rk04 in
  let x := AES_ROUND_NOKEY x in
  let rk08 := mix512 rk08 rk00 rk04 in
  let x := xor4 x rk08 in
  let x := AES_ROUND_NOKEY x in
  let rk0C := mix512 rk0C rk04 rk08 in
  let x := xor4 x rk0C in
  let x := AES_ROUND_NOKEY x in
  let p8B := xor4 p8B x in
  let rk10 := mix512 rk10 rk08 rk0C in
  let x := xor4 p47 rk10 in
  let x := AES_ROUND_NOKEY x in
  let rk14 := mix512 rk14 rk0C rk10 in
  let x := xor4 x rk14 in
  let x := AES_ROUND_NOKEY x in
  let rk18 := mix512 rk18 rk10 rk14 in
  let x := xor4 x rk18 in
  let x := AES_ROUND_NOKEY x in
  let rk1C := mix512 rk1C rk14 rk18 in
  let x := xor4 x rk1C in
  let x := AES_ROUND_NOKEY x in
  let p03 := xor4 p03 x in
  S512 p03 p47 p8B pCF rk00 rk04 rk08 rk0C rk10 rk14 rk18 rk1C.

(** Rounds 3, 7 and 11. *)
Definition c512_round3 (s : v512) : v512 :=
  let '(S512 p03 p47 p8B pCF rk00 rk04 rk08 rk0C rk10 rk14 rk18 rk1C) := s in
  let rk00 := KEY_EXPAND_ELT rk00 in
  let rk00 := xor4 rk00 rk1C in
  let x := xor4 p8B rk00 in
  let x := AES_ROUND_NOKEY x in
  let rk04 := KEY_EXPAND_ELT rk04 in
  let rk04 := xor4 rk04 rk00 in
  let x := xor4 x rk04 in
  let x := AES_ROUND_NOKEY x in
  let rk08 := KEY_EXPAND_ELT rk08 in
  let rk08 := xor4 rk08 rk04 in
  let x := xor4 x rk08 in
  let x := AES_ROUND_NOKEY x in
  let rk0C := KEY_EXPAND_ELT rk0C in
  let rk0C := xor4 rk0C rk08 in
  let x := xor4 x rk0C in
  let x := AES_ROUND_NOKEY x in
  let p47 := xor4 p47 x in
  let rk10 := KEY_EXPAND_ELT rk10 in
  let rk10 := xor4 rk10 rk0C in
  let x := xor4 p03 rk10 in
  let x := AES_ROUND_NOKEY x in
  let rk14 := KEY_EXPAND_ELT rk14 in
  let rk14 := xor4 rk14 rk10 in
  let x := xor4 x rk14 in
  let x := AES_ROUND_NOKEY x in
  let rk18 := KEY_EXPAND_ELT rk18 in
  let rk18 := xor4 rk18 rk14 in
  let x := xor4 x rk18 in
  let x := AES_ROUND_NOKEY x in
  let rk1C := KEY_EXPAND_ELT rk1C in
  let rk1C := xor4 rk1C rk18 in
  let x := xor4 x rk1C in
  let x := AES_ROUND_NOKEY x in
  let pCF := xor4 pCF x in
  S512 p03 p47 p8B pCF rk00 rk04 rk08 rk0C rk10 rk14 rk18 rk1C.

(** Rounds 4, 8 and 12. *)
Definition c512_round4 (s : v512) : v512 :=
  let '(S512 p03 p47 p8B pCF rk00 rk04 rk08 rk0C rk10 rk14 rk18 rk1C) := s in
  let rk00 := mix512 rk00 rk18 rk1C in
  let x := xor4 p47 rk00 in
  let x := AES_ROUND_NOKEY x in
  let rk04 := mix512 rk04 rk1C rk00 in
  let x := xor4 x rk04 in
  let x := AES_ROUND_NOKEY x in
  let rk08 := mix512 rk08 rk00 rk04 in
  let x := xor4 x rk08 in
  let x := AES_ROUND_NOKEY x in
  let rk0C := mix512 rk0C rk04 rk08 in
  let x := xor4 x rk0C in
  let x := AES_ROUND_NOKEY x in
  let p03 := xor4 p03 x in
  let rk10 := mix512 rk10 rk08 rk0C in
  let x := xor4 pCF rk10 in
  let x := AES_ROUND_NOKEY x in
  let rk14 := mix512 rk14 rk0C rk10 in
  let x := xor4 x rk14 in
  let x := AES_ROUND_NOKEY x in
  let rk18 := mix512 rk18 rk10 rk14 in
  let x := xor4 x rk18 in
  let x := AES_ROUND_NOKEY x in
  let rk1C := mix512 rk1C rk14 rk18 in
  let x := xor4 x rk1C in
  let x := AES_ROUND_NOKEY x in
  let p8B := xor4 p8B x in
  S512 p03 p47 p8B pCF rk00 rk04 rk08 rk0C rk10 rk14 rk18 rk1C.

Definition c512_round13 (sc : big_state) (s : v512) : v512 :=
  let '(S512 p03 p47 p8B pCF rk00 rk04 rk08 rk0C rk10 rk14 rk18 rk1C) := s in
  let rk00 := KEY_EXPAND_ELT rk00 in
  let rk00 := xor4 rk00 rk1C in
  let x := xor4 p03 rk00 in
  let x := AES_ROUND_NOKEY x in
  let rk04 := KEY_EXPAND_ELT rk04 in
  let rk04 := xor4 rk04 rk00 in
  let x := xor4 x rk04 in
  let x := AES_ROUND_NOKEY x in
  let rk08 := KEY_EXPAND_ELT rk08 in
  let rk08 := xor4 rk08 rk04 in
  let x := xor4 x rk08 in
  let x := AES_ROUND_NOKEY x in
  let rk0C := KEY_EXPAND_ELT rk0C in
  let rk0C := xor4 rk0C rk08 in
  let x := xor4 x rk0C in
  let x := AES_ROUND_NOKEY x in
  let pCF := xor4 pCF x in
  let rk10 := KEY_EXPAND_ELT rk10 in
  let rk10 := xor4 rk10 rk0C in
  let x := xor4 p8B rk10 in
  let x := AES_ROUND_NOKEY x in
  let rk14 := KEY_EXPAND_ELT rk14 in
  let rk14 := xor4 rk14 rk10 in
  let x := xor4 x rk14 in
  let x := AES_ROUND_NOKEY x in
  let rk18 := KEY_EXPAND_ELT rk18 in
  let rk18 := xor4 rk18 (xor4 rk14 (Q4 (cnt1 sc) (cnt0 sc) (cnt3 sc) (not32 (cnt2 sc)))) in
  let x := xor4 x rk18 in
  let x := AES_ROUND_NOKEY x in
  let rk1C := KEY_EXPAND_ELT rk1C in
  let rk1C := xor4 rk1C rk18 in
  let x := xor4 x rk1C in
  let x := AES_ROUND_NOKEY x in
  let p47 := xor4 p47 x in
  S512 p03 p47 p8B pCF rk00 rk04 rk08 rk0C rk10 rk14 rk18 rk1C.

Definition c512 (msg : list Z) (sc : big_state) : big_state :=
  let w i := nth i (H sc) 0 in
  let s := c512_round0 msg (Q4 (w 0%nat) (w 1%nat) (w 2%nat) (w 3%nat)) (Q4 (w 4%nat) (w 5%nat) (w 6%nat) (w 7%nat)) (Q4 (w 8%nat) (w 9%nat) (w 10%nat) (w 11%nat)) (Q4 (w 12%nat) (w 13%nat) (w 14%nat) (w 15%nat)) in
  let s := fold_left (fun s r => c512_round4 (c512_round3 (c512_round2 (c512_round1 sc r s)))) (seq 0 3) s in
  let s := c512_round13 sc s in
  let '(S512 (Q4 p0 p1 p2 p3) (Q4 p4 p5 p6 p7) (Q4 p8 p9 pA pB) (Q4 pC pD pE pF) _ _ _ _ _ _ _ _) := s in
  Big [w 0%nat .^ p8; w 1%nat .^ p9; w 2%nat .^ pA; w 3%nat .^ pB; w 4%nat .^ pC; w 5%nat .^ pD; w 6%nat .^ pE; w 7%nat .^ pF; w 8%nat .^ p0; w 9%nat .^ p1; w 10%nat .^ p2; w 11%nat .^ p3; w 12%nat .^ p4; w 13%nat .^ p5; w 14%nat .^ p6; w 15%nat .^ p7] (cnt0 sc) (cnt1 sc) (cnt2 sc) (cnt3 sc).

Definition shavite_big_init (sc : sctx big_state) (iv : list Z) : sctx big_state := Ctx (buf sc) 0 (Big iv 0 0 0 0).

Definition big_process (b : list Z) (sc : big_state) : big_state :=
  let c0 := SPH_T32 (cnt0 sc + 1024) in
  let sc :=
    if c0 =? 0 then
      let c1 := SPH_T32 (cnt1 sc + 1) in
      if c1 =? 0 then
        let c2 := SPH_T32 (cnt2 sc + 1) in
        if c2 =? 0 then Big (H sc) c0 c1 c2 (SPH_T32 (cnt3 sc + 1)) else Big (H sc) c0 c1 c2 (cnt3 sc)
      else Big (H sc) c0 c1 (cnt2 sc) (cnt3 sc)
    else Big (H sc) c0 (cnt1 sc) (cnt2 sc) (cnt3 sc) in
  c512 b sc.

Definition shavite_big_core (sc : sctx big_state) (data : list Z) : sctx big_state :=
  core_loop 128 big_process (length data) (buf sc) (ptr sc) (st sc) data.

Definition shavite_big_close (sc : sctx big_state) (ub n : Z) (out_size_w32 : nat) : sctx big_state * list Z :=
  let b := buf sc in
  let p := ptr sc in
  let s := st sc in
  let c0 := SPH_T32 (cnt0 s + ((Z.of_nat p << 3) + n)) in
  let s := Big (H s) c0 (cnt1 s) (cnt2 s) (cnt3 s) in
  let c1 := cnt1 s in
  let c2 := cnt2 s in
  let c3 := cnt3 s in
  let z := 0x80 >> n in
  let z := ((ub .& SPH_T32 (- z)) .| z) .& 0xFF in
  let '(b, p, s) :=
    if (p =? 0)%nat && (n =? 0) then
      (memset (upd b 0 0x80) 1 0 109, p, Big (H s) 0 0 0 0)
    else if (p <? 110)%nat then
      let b := upd b p z in
      let p := S p in
      (memset b p 0 (110 - p), p, s)
    else
      let b := upd b p z in
      let p := S p in
      let b := memset b p 0 (128 - p) in
      let s := c512 b s in
      (memset b 0 0 110, p, Big (H s) 0 0 0 0) in
  let b := memcpy b 110 (sph_enc32le c0) 4 in
  let b := memcpy b 114 (sph_enc32le c1) 4 in
  let b := memcpy b 118 (sph_enc32le c2) 4 in
  let b := memcpy b 122 (sph_enc32le c3) 4 in
  let b := upd b 126 (u8 (Z.of_nat out_size_w32 << 5)) in
  let b := upd b 127 (u8 (Z.of_nat out_size_w32 >> 3)) in
  let s := c512 b s in
  (Ctx b p s, flat_map (fun u => sph_enc32le (nth u (H s) 0)) (seq 0 out_size_w32)).

Definition sph_shavite224_init (cc : sctx small_state) := shavite_small_init cc IV224.
Definition sph_shavite224 (cc : sctx small_state) (data : list Z) := shavite_small_core cc data.
Definition sph_shavite224_close (cc : sctx small_state) := let (cc, dst) := shavite_small_close cc 0 0 7 in (dst, shavite_small_init cc IV224).
Definition sph_shavite224_addbits_and_close (cc : sctx small_state) (ub n : Z) := let (cc, dst) := shavite_small_close cc ub n 7 in (dst, shavite_small_init cc IV224).

Definition sph_shavite256_init (cc : sctx small_state) := shavite_small_init cc IV256.
Definition sph_shavite256 (cc : sctx small_state) (data : list Z) := shavite_small_core cc data.
Definition sph_shavite256_close (cc : sctx small_state) := let (cc, dst) := shavite_small_close cc 0 0 8 in (dst, shavite_small_init cc IV256).
Definition sph_shavite256_addbits_and_close (cc : sctx small_state) (ub n : Z) := let (cc, dst) := shavite_small_close cc ub n 8 in (dst, shavite_small_init cc IV256).

Definition sph_shavite384_init (cc : sctx big_state) := shavite_big_init cc IV384.
Definition sph_shavite384 (cc : sctx big_state) (data : list Z) := shavite_big_core cc data.
Definition sph_shavite384_close (cc : sctx big_state) := let (cc, dst) := shavite_big_close cc 0 0 12 in (dst, shavite_big_init cc IV384).
Definition sph_shavite384_addbits_and_close (cc : sctx big_state) (ub n : Z) := let (cc, dst) := shavite_big_close cc ub n 12 in (dst, shavite_big_init cc IV384).

Definition sph_shavite512_init (cc : sctx big_state) := shavite_big_init cc IV512.
Definition sph_shavite512 (cc : sctx big_state) (data : list Z) := shavite_big_core cc data.
Definition sph_shavite512_close (cc : sctx big_state) := let (cc, dst) := shavite_big_close cc 0 0 16 in (dst, shavite_big_init cc IV512).
Definition sph_shavite512_addbits_and_close (cc : sctx big_state) (ub n : Z) := let (cc, dst) := shavite_big_close cc ub n 16 in (dst, shavite_big_init cc IV512).
