(* ===== verification/ShaviteSpec.v ===== *)
(** * ShaviteSpec: SHAvite-3 and its implementation

    The specification: a generalised Feistel network whose round functions are
    rounds of the AES, with subkeys that a key schedule expands from the message
    block and the counter of message bits; padding and initial values.  The
    unrolled code of Shavite.v computes it. *)

From Stdlib Require Import ZArith List Lia Bool.
From S2P Require Import Prelude SphTypes Stream HashLib Aes Shavite.
Import ListNotations.

Open Scope Z_scope.
Open Scope word_scope.

(** ** The specification *)
Definition xorl (a b : list Z) : list Z := map2 Z.lxor a b.
Definition zero16 : list Z := repeat 0 16.
Definition rot (k : list Z) : list Z := skipn 4 k ++ firstn 4 k.
Definition w32 (x : Z) : list Z := le_split 4 x.
Definition compl (x : Z) : Z := trunc 32 (Z.lnot x).

(** Subkeys of 128 bits: the first [n] are the message block; [next j w] makes
    number [j] from the window [w] of the [n] before it. *)
Section Schedule.
Context (n : nat) (next : nat -> list (list Z) -> list Z) (start : list (list Z)).
Definition slide (s : nat * list (list Z)) : nat * list (list Z) := let (j, w) := s in (S j, skipn 1 w ++ [next j w]).
Definition subkey (i : nat) : list Z := nth 0 (snd (iter i slide (n, start))) [].

Context (start_length : length start = n) (n_pos : (0 < n)%nat).

Lemma slide_length i : length (snd (iter i slide (n, start))) = n /\ fst (iter i slide (n, start)) = (n + i)%nat.
Proof.
  induction i as [|i IH]; [cbn; lia|]; rewrite iter_next; destruct (iter i slide _) as [j w]; cbn [fst snd] in IH; cbn [slide fst snd].
  rewrite length_app, length_skipn; cbn; lia.
Qed.

Lemma window_nth j : forall i, (j < n)%nat -> nth j (snd (iter i slide (n, start))) [] = subkey (i + j).
Proof.
  induction j as [|j IH]; intros i Hj; [now rewrite Nat.add_0_r|].
  replace (i + S j)%nat with (S i + j)%nat by lia; rewrite <- IH by lia; rewrite iter_next; destruct (slide_length i) as [Hl _]; destruct (iter i slide _) as [k w]; cbn [slide snd] in *.
  rewrite app_nth1 by (rewrite length_skipn; lia); destruct w; [cbn in Hl; lia | reflexivity].
Qed.

Lemma subkey_start i : (i < n)%nat -> subkey i = nth i start [].
Proof. intros Hi; exact (eq_sym (window_nth i 0 Hi)). Qed.

Lemma subkey_next i : subkey (n + i) = next (n + i) (map (fun j => subkey (i + j)) (seq 0 n)).
Proof.
  replace (n + i)%nat with (S i + (n - 1))%nat at 1 by lia; rewrite <- window_nth by lia; rewrite iter_next; destruct (slide_length i) as [Hl Hf].
  pose proof (fun j => window_nth j i) as Hw; destruct (iter i slide _) as [k w]; cbn [slide fst snd] in *.
  rewrite app_nth2, length_skipn by (rewrite length_skipn; lia); replace (n - 1 - (length w - 1))%nat with 0%nat by lia; cbn [nth]; rewrite Hf; f_equal.
  apply (nth_ext _ _ [] []); [rewrite length_map, length_seq; assumption|]; intros j Hj; rewrite Hw by lia.
  rewrite (nth_indep _ [] (subkey (i + 0))) by (rewrite length_map, length_seq; lia); rewrite (map_nth (fun j => subkey (i + j))), seq_nth by lia; reflexivity.
Qed.
End Schedule.

(** SHAvite-3-256: alternate groups of four subkeys are made by the AES with the
    subkey before as key, and by a linear recurrence on words; four of them
    take in the counter. *)
Definition count256 (c : Z) (j : nat) : option (list Z) :=
  let c0 := trunc 32 c in
  let c1 := trunc 32 (c >> 32) in
  match j with
  | 4%nat => Some (w32 c0 ++ w32 (compl c1) ++ w32 0 ++ w32 0)
  | 14%nat => Some (w32 0 ++ w32 c1 ++ w32 (compl c0) ++ w32 0)
  | 21%nat => Some (w32 0 ++ w32 0 ++ w32 c1 ++ w32 (compl c0))
  | 31%nat => Some (w32 c0 ++ w32 0 ++ w32 0 ++ w32 (compl c1))
  | _ => None
  end.
Definition add_count (t : option (list Z)) (k : list Z) : list Z := match t with Some t => xorl k t | None => k end.
Definition linear256 (a b : list Z) : list Z := xorl a (skipn 4 b ++ xorl (firstn 4 a) (firstn 4 (skipn 4 b))).
Definition next256 (c : Z) (j : nat) (w : list (list Z)) : list Z :=
  let a := nth 0 w [] in
  let b := nth 3 w [] in
  if Nat.odd (j / 4) then aes_round (rot a) (add_count (count256 c j) b) else linear256 a b.

Definition quads (k : nat) (b : list Z) : list (list Z) := map (fun i => firstn 16 (skipn (16 * i) b)) (seq 0 k).
Definition key256 (c : Z) (b : list Z) (i : nat) : list Z := subkey 4 (next256 c) (quads 4 b) i.

(** Three rounds of the AES, and a round of the Feistel network. *)
Definition F256 (K : nat -> list Z) (r : nat) (x : list Z) : list Z :=
  aes_round (aes_round (aes_round (xorl x (K (3 * r)%nat)) (K (3 * r + 1)%nat)) (K (3 * r + 2)%nat)) zero16.
Definition feistel (K : nat -> list Z) (s : list Z * list Z) (r : nat) : list Z * list Z :=
  let (L, R) := s in (R, xorl L (F256 K r R)).
Definition compress256 (c : Z) (b h : list Z) : list Z :=
  let (L, R) := fold_left (feistel (key256 c b)) (seq 0 12) (firstn 16 h, skipn 16 h) in
  xorl h (L ++ R).

(** SHAvite-3-512. *)
Definition count512 (c : Z) (j : nat) : option (list Z) :=
  let '(c0, c1, c2, c3) := quad c in
  match j with
  | 8%nat => Some (w32 c0 ++ w32 c1 ++ w32 c2 ++ w32 (compl c3))
  | 41%nat => Some (w32 c3 ++ w32 c2 ++ w32 c1 ++ w32 (compl c0))
  | 79%nat => Some (w32 c2 ++ w32 c3 ++ w32 c0 ++ w32 (compl c1))
  | 110%nat => Some (w32 c1 ++ w32 c0 ++ w32 c3 ++ w32 (compl c2))
  | _ => None
  end.
Definition linear512 (a b c : list Z) : list Z := xorl a (skipn 4 b ++ firstn 4 c).
Definition next512 (c : Z) (j : nat) (w : list (list Z)) : list Z :=
  let a := nth 0 w [] in
  if Nat.odd (j / 8) then aes_round (rot a) (add_count (count512 c j) (nth 7 w [])) else linear512 a (nth 6 w []) (nth 7 w []).
Definition key512 (c : Z) (b : list Z) (i : nat) : list Z := subkey 8 (next512 c) (quads 8 b) i.

Definition F512 (K : nat -> list Z) (i : nat) (x : list Z) : list Z :=
  aes_round (aes_round (aes_round (aes_round (xorl x (K i)) (K (i + 1)%nat)) (K (i + 2)%nat)) (K (i + 3)%nat)) zero16.
Definition feistel512 (K : nat -> list Z) (s : list Z * list Z * list Z * list Z) (r : nat) : list Z * list Z * list Z * list Z :=
  let '(A, B, C, D) := s in (D, xorl A (F512 K (8 * r) B), B, xorl C (F512 K (8 * r + 4) D)).
Definition compress512 (c : Z) (b h : list Z) : list Z :=
  let '(A, B, C, D) := fold_left (feistel512 (key512 c b)) (seq 0 14) (firstn 16 h, firstn 16 (skipn 16 h), firstn 16 (skipn 32 h), skipn 48 h) in
  xorl h (A ++ B ++ C ++ D).

(** Initial values: the length of the digest compressed into the compression of
    zeros. *)
Definition shavite_iv (comp : Z -> list Z -> list Z -> list Z) (blen hlen : nat) (d : Z) : list Z :=
  comp 0 (le_split 2 d ++ repeat 0 (blen - 2)) (comp 0 (repeat 0 blen) (repeat 0 hlen)).

(** The padding: a one, zeros, the length of the message in [clen] bytes and
    that of the digest in 16 bits. *)
Definition shavite_pad (blen clen : nat) (d : Z) (m : list Z) (ub n : Z) : list Z :=
  let p := S (length m mod blen) in
  let last := (blen - clen - 2)%nat in
  m ++ last_byte ub n :: repeat 0 (if (last <? p)%nat then (blen - p) + last else last - p)%nat
    ++ le_split clen (8 * Z.of_nat (length m) + n) ++ le_split 2 d.

Definition shavite_spec (d : Z) (m : list Z) (ub n : Z) : list Z :=
  let '(comp, blen, clen, hlen) := if d <=? 256 then (compress256, 64, 8, 32)%nat else (compress512, 128, 16, 64)%nat in
  let L := 8 * Z.of_nat (length m) + n in
  let h := fst (fst (absorb blen (counted blen comp L) (shavite_iv comp blen hlen d, 0) (shavite_pad blen clen d m ub n))) in
  firstn (Z.to_nat (d / 8)) h.

(** ** Words and bytes *)
Definition by4 (q : q4) : list Z := let '(Q4 a b c d) := q in flat_map sph_enc32le [a; b; c; d].

Lemma length_by4 q : length (by4 q) = 16%nat.
Proof. now destruct q. Qed.

Lemma by4_xor a b : by4 (xor4 a b) = xorl (by4 a) (by4 b).
Proof. destruct a, b; unfold xor4, by4; cbn [flat_map]; rewrite !enc32_lxor; reflexivity. Qed.

Lemma xorl_assoc a : forall b c, xorl (xorl a b) c = xorl a (xorl b c).
Proof. unfold xorl; induction a as [|x a IH]; intros [|y b] [|z c]; cbn [map2]; [reflexivity..|]; now rewrite IH, Z.lxor_assoc. Qed.

Lemma xorl_zero l n : (length l <= n)%nat -> xorl l (repeat 0 n) = l.
Proof. revert n; unfold xorl; induction l as [|x l IH]; intros [|n] Hl; cbn [length repeat map2] in *; [reflexivity | reflexivity | lia|]; rewrite Z.lxor_0_r, IH by lia; reflexivity. Qed.

Lemma aes_xor s k t : xorl (aes_round s k) t = aes_round s (xorl k t).
Proof. apply xorl_assoc. Qed.

Lemma by4_aes x : by4 (AES_ROUND_NOKEY x) = aes_round (by4 x) zero16.
Proof.
  destruct x as [a b c d]; unfold AES_ROUND_NOKEY, AES_ROUND_NOKEY_LE; pose proof (aes_round_spec a b c d 0 0 0 0) as E; destruct (AES_ROUND_LE a b c d 0 0 0 0) as [[[x0 x1] x2] x3]; exact E.
Qed.

Lemma xorl_zero_l k : length k = 16%nat -> xorl zero16 k = k.
Proof. intros H; do 16 (destruct k as [|? k]; [discriminate H|]); destruct k; [reflexivity | discriminate H]. Qed.

Lemma by4_aes_key x k : by4 (xor4 (AES_ROUND_NOKEY x) k) = aes_round (by4 x) (by4 k).
Proof. rewrite by4_xor, by4_aes, aes_xor, xorl_zero_l by apply length_by4; reflexivity. Qed.

Lemma by4_expand k : by4 (KEY_EXPAND_ELT k) = aes_round (rot (by4 k)) zero16.
Proof.
  destruct k as [a b c d]; transitivity (by4 (AES_ROUND_NOKEY (Q4 b c d a))); [unfold KEY_EXPAND_ELT; now destruct (AES_ROUND_NOKEY _)|].
  rewrite by4_aes; reflexivity.
Qed.

Lemma by4_expand_key k p : by4 (xor4 (KEY_EXPAND_ELT k) p) = aes_round (rot (by4 k)) (by4 p).
Proof. rewrite by4_xor, by4_expand, aes_xor, xorl_zero_l by apply length_by4; reflexivity. Qed.

Lemma by4_expand_count k p t : by4 (xor4 (xor4 (KEY_EXPAND_ELT k) p) t) = aes_round (rot (by4 k)) (xorl (by4 p) (by4 t)).
Proof. now rewrite by4_xor, by4_expand_key, aes_xor. Qed.

Lemma by4_expand_count' k p t : by4 (xor4 (KEY_EXPAND_ELT k) (xor4 p t)) = aes_round (rot (by4 k)) (xorl (by4 p) (by4 t)).
Proof. now rewrite by4_expand_key, by4_xor. Qed.

Lemma by4_mix256 k p : by4 (mix256 k p) = linear256 (by4 k) (by4 p).
Proof. destruct k, p; unfold mix256, by4; cbn [flat_map]; rewrite !enc32_lxor; reflexivity. Qed.

Lemma by4_mix512 k p q : by4 (mix512 k p q) = linear512 (by4 k) (by4 p) (by4 q).
Proof. destruct k, p, q; unfold mix512, by4; cbn [flat_map]; rewrite !enc32_lxor; reflexivity. Qed.

Lemma by4_dec4 msg i : words 8 msg -> (16 * i + 16 <= length msg)%nat -> by4 (dec4 msg (16 * i)) = firstn 16 (skipn (16 * i) msg).
Proof.
  intros Hw Hl; set (m := skipn (16 * i) msg); assert (Hm : (16 <= length m)%nat) by (unfold m; rewrite length_skipn; lia).
  assert (E : dec4 msg (16 * i) = Q4 (sph_dec32le (skipn (4 * 0) m)) (sph_dec32le (skipn (4 * 1) m)) (sph_dec32le (skipn (4 * 2) m)) (sph_dec32le (skipn (4 * 3) m))).
  { unfold dec4, m; rewrite !skipn_skipn; repeat (f_equal; try lia). }
  rewrite E; exact (enc_words32 4 m ltac:(unfold m; auto with word) Hm).
Qed.

Ltac push_bytes := repeat first [rewrite by4_aes_key | rewrite by4_expand_key | rewrite by4_mix256 | rewrite by4_mix512 | rewrite by4_xor | rewrite by4_aes].
#[local] Opaque aes_round.

Lemma not32_compl x : not32 x = compl x.
Proof. unfold not32, compl; now rewrite SPH_T32_trunc. Qed.

Lemma by4_words a b c d : by4 (Q4 a b c d) = w32 a ++ w32 b ++ w32 c ++ w32 d.
Proof. unfold by4, w32; cbn [flat_map]; now rewrite app_nil_r, !sph_enc32le_split. Qed.

(** ** The rounds of [c256] *)
Section Rounds256.
Context (c : Z) (msg : list Z) (L R : list Z) (sc : small_state).
Context (msg_words : words 8 msg) (msg_length : length msg = 64%nat) (counts : count0 sc = trunc 32 c /\ count1 sc = trunc 32 (c >> 32)).

Definition K (i : nat) : list Z := key256 c msg i.
Definition after (r : nat) : list Z * list Z := fold_left (feistel K) (seq 0 r) (L, R).

Lemma after_next r : after (S r) = feistel K (after r) r.
Proof. unfold after; now rewrite seq_S, fold_left_app. Qed.

Lemma K_start i : (i < 4)%nat -> K i = firstn 16 (skipn (16 * i) msg).
Proof.
  intros Hi; unfold K, key256; rewrite subkey_start by (reflexivity || lia); do 4 (destruct i as [|i]; [reflexivity|]); lia.
Qed.

Lemma K_next i : K (4 + i) = next256 c (4 + i) [K (i + 0); K (i + 1); K (i + 2); K (i + 3)].
Proof. unfold K, key256; rewrite subkey_next by (reflexivity || lia); reflexivity. Qed.

Lemma K_odd i : Nat.odd ((4 + i) / 4) = true -> K (4 + i) = aes_round (rot (K i)) (add_count (count256 c (4 + i)) (K (3 + i))).
Proof. intros H; rewrite K_next; unfold next256; rewrite H; cbn [nth]; now rewrite Nat.add_0_r, (Nat.add_comm i 3). Qed.

Lemma K_even i : Nat.odd ((4 + i) / 4) = false -> K (4 + i) = linear256 (K i) (K (3 + i)).
Proof. intros H; rewrite K_next; unfold next256; rewrite H; cbn [nth]; now rewrite Nat.add_0_r, (Nat.add_comm i 3). Qed.

(** Slot [j] holds the last subkey with this index modulo 4. *)
Definition slot (r j : nat) : nat := (3 * r - 1 - (3 * r - 1 - j) mod 4)%nat.
Definition rel256 (r : nat) (s : v256) : Prop :=
  let '(S256 p03 p47 k0 k1 k2 k3) := s in
  (if Nat.even r then (by4 p03, by4 p47) else (by4 p47, by4 p03)) = after r
  /\ by4 k0 = K (slot r 0) /\ by4 k1 = K (slot r 1) /\ by4 k2 = K (slot r 2) /\ by4 k3 = K (slot r 3).

Lemma counter_words : by4 (Q4 (count0 sc) (not32 (count1 sc)) 0 0) = w32 (trunc 32 c) ++ w32 (compl (trunc 32 (c >> 32))) ++ w32 0 ++ w32 0
  /\ by4 (Q4 0 (count1 sc) (not32 (count0 sc)) 0) = w32 0 ++ w32 (trunc 32 (c >> 32)) ++ w32 (compl (trunc 32 c)) ++ w32 0
  /\ by4 (Q4 0 0 (count1 sc) (not32 (count0 sc))) = w32 0 ++ w32 0 ++ w32 (trunc 32 (c >> 32)) ++ w32 (compl (trunc 32 c))
  /\ by4 (Q4 (count0 sc) 0 0 (not32 (count1 sc))) = w32 (trunc 32 c) ++ w32 0 ++ w32 0 ++ w32 (compl (trunc 32 (c >> 32))).
Proof. destruct counts as [-> ->]; rewrite !by4_words, !not32_compl; auto. Qed.

#[local] Opaque K w32 trunc compl.

Ltac subkey_tac i :=
  let E := fresh "EK" in
  first [pose proof (K_odd i eq_refl) as E | pose proof (K_even i eq_refl) as E]; cbn [Nat.add add_count count256] in E; rewrite <- E; clear E.

(** One round: push [by4] to the variables, fold the subkeys. *)
Ltac round_tac round r i0 i1 i2 :=
  let Ef := fresh "Ef" in
  intros [p03 p47 k0 k1 k2 k3] (Ef & E0 & E1 & E2 & E3); cbn [slot Nat.mul Nat.sub Nat.add Nat.modulo Nat.divmod fst snd] in E0, E1, E2, E3; cbn [Nat.even] in Ef;
  destruct counter_words as (W0 & W1 & W2 & W3);
  unfold rel256, round; cbv zeta; rewrite (after_next r), <- Ef; unfold feistel, F256; cbn [Nat.even Nat.mul Nat.add slot Nat.sub Nat.modulo Nat.divmod fst snd];
  push_bytes; rewrite ?W0, ?W1, ?W2, ?W3, ?E0, ?E1, ?E2, ?E3; subkey_tac i0; subkey_tac i1; subkey_tac i2; repeat split; auto.

Lemma round2 s : rel256 2 s -> rel256 3 (c256_round2 s).
Proof. revert s; round_tac c256_round2 2%nat 2%nat 3%nat 4%nat. Qed.
Lemma round3 s : rel256 3 s -> rel256 4 (c256_round3 s).
Proof. revert s; round_tac c256_round3 3%nat 5%nat 6%nat 7%nat. Qed.
Lemma round4 s : rel256 4 s -> rel256 5 (c256_round4 sc s).
Proof. revert s; round_tac c256_round4 4%nat 8%nat 9%nat 10%nat. Qed.
Lemma round5 s : rel256 5 s -> rel256 6 (c256_round5 s).
Proof. revert s; round_tac c256_round5 5%nat 11%nat 12%nat 13%nat. Qed.
Lemma round6 s : rel256 6 s -> rel256 7 (c256_round6 s).
Proof. revert s; round_tac c256_round6 6%nat 14%nat 15%nat 16%nat. Qed.
Lemma round7 s : rel256 7 s -> rel256 8 (c256_round7 sc s).
Proof. revert s; round_tac c256_round7 7%nat 17%nat 18%nat 19%nat. Qed.
Lemma round8 s : rel256 8 s -> rel256 9 (c256_round8 s).
Proof. revert s; round_tac c256_round8 8%nat 20%nat 21%nat 22%nat. Qed.
Lemma round9 s : rel256 9 s -> rel256 10 (c256_round9 s).
Proof. revert s; round_tac c256_round9 9%nat 23%nat 24%nat 25%nat. Qed.
Lemma round10 s : rel256 10 s -> rel256 11 (c256_round10 sc s).
Proof. revert s; round_tac c256_round10 10%nat 26%nat 27%nat 28%nat. Qed.
Lemma round11 s : rel256 11 s -> rel256 12 (c256_round11 s).
Proof. revert s; round_tac c256_round11 11%nat 29%nat 30%nat 31%nat. Qed.

Lemma round0_1 p03 p47 : by4 p03 = L -> by4 p47 = R ->
  rel256 2 (let '(S256 p03 p47 rk03 rk47 rk8B _) := c256_round0 msg p03 p47 in c256_round1 sc msg p03 p47 rk03 rk47 rk8B).
Proof.
  intros EL ER; unfold c256_round0, c256_round1; cbv zeta; destruct counter_words as (W0 & W1 & W2 & W3).
  pose proof (by4_dec4 msg 0 msg_words ltac:(lia)) as D0; pose proof (by4_dec4 msg 1 msg_words ltac:(lia)) as D1; pose proof (by4_dec4 msg 2 msg_words ltac:(lia)) as D2; pose proof (by4_dec4 msg 3 msg_words ltac:(lia)) as D3.
  rewrite <- K_start in D0, D1, D2, D3 by lia; cbn [Nat.mul Nat.add] in D0, D1, D2, D3.
  unfold rel256; rewrite (after_next 1), (after_next 0); change (after 0) with (L, R); unfold feistel, F256; cbn [Nat.even Nat.mul Nat.add slot Nat.sub Nat.modulo Nat.divmod fst snd].
  push_bytes; rewrite ?W0, ?D0, ?D1, ?D2, ?D3, ?EL, ?ER; subkey_tac 0%nat; subkey_tac 1%nat; repeat split; auto.
Qed.

Lemma c256_spec : by4 (Q4 (nth 0 (h sc) 0) (nth 1 (h sc) 0) (nth 2 (h sc) 0) (nth 3 (h sc) 0)) = L -> by4 (Q4 (nth 4 (h sc) 0) (nth 5 (h sc) 0) (nth 6 (h sc) 0) (nth 7 (h sc) 0)) = R ->
  let r := c256 msg sc in
  flat_map sph_enc32le (h r) = xorl (L ++ R) (fst (after 12) ++ snd (after 12)) /\ count0 r = count0 sc /\ count1 r = count1 sc /\ length (h r) = 8%nat.
Proof.
  intros EL ER; pose proof (round0_1 _ _ EL ER) as H; unfold c256; cbv zeta; destruct (c256_round0 msg _ _) as [p03 p47 k0 k1 k2 k3].
  generalize dependent (c256_round1 sc msg p03 p47 k0 k1 k2); intros s H.
  apply round2, round3, round4, round5, round6, round7, round8, round9, round10, round11 in H.
  match goal with |- context [c256_round11 ?t] => generalize dependent (c256_round11 t) end; intros [[p0 p1 p2 p3] [p4 p5 p6 p7] q0 q1 q2 q3] (E & _); cbn [Nat.even] in E; rewrite <- E, <- EL, <- ER.
  cbn [h count0 count1 fst snd]; split; [|auto]; cbn [flat_map by4]; rewrite !enc32_lxor; reflexivity.
Qed.
End Rounds256.

(** ** The rounds of [c512] *)
Section Rounds512.
Context (c : Z) (msg : list Z) (A B C D : list Z) (sc : big_state).
Context (msg_words : words 8 msg) (msg_length : length msg = 128%nat) (counts : (cnt0 sc, cnt1 sc, cnt2 sc, cnt3 sc) = quad c).

Definition K5 (i : nat) : list Z := key512 c msg i.
Definition after5 (r : nat) : list Z * list Z * list Z * list Z := fold_left (feistel512 K5) (seq 0 r) (A, B, C, D).

Lemma after5_next r : after5 (S r) = feistel512 K5 (after5 r) r.
Proof. unfold after5; now rewrite seq_S, fold_left_app. Qed.

Lemma K5_start i : (i < 8)%nat -> K5 i = firstn 16 (skipn (16 * i) msg).
Proof.
  intros Hi; unfold K5, key512; rewrite subkey_start by (reflexivity || lia); do 8 (destruct i as [|i]; [reflexivity|]); lia.
Qed.

Lemma K5_next i : K5 (8 + i) = next512 c (8 + i) [K5 (i + 0); K5 (i + 1); K5 (i + 2); K5 (i + 3); K5 (i + 4); K5 (i + 5); K5 (i + 6); K5 (i + 7)].
Proof. unfold K5, key512; rewrite subkey_next by (reflexivity || lia); reflexivity. Qed.

Definition counter_at (j : nat) : option (list Z) :=
  match j with
  | 8%nat => Some (by4 (Q4 (cnt0 sc) (cnt1 sc) (cnt2 sc) (not32 (cnt3 sc))))
  | 41%nat => Some (by4 (Q4 (cnt3 sc) (cnt2 sc) (cnt1 sc) (not32 (cnt0 sc))))
  | 79%nat => Some (by4 (Q4 (cnt2 sc) (cnt3 sc) (cnt0 sc) (not32 (cnt1 sc))))
  | 110%nat => Some (by4 (Q4 (cnt1 sc) (cnt0 sc) (cnt3 sc) (not32 (cnt2 sc))))
  | _ => None
  end.

Lemma counter_at_spec j : count512 c j = counter_at j.
Proof.
  assert (W : forall x y z t, by4 (Q4 x y z (not32 t)) = w32 x ++ w32 y ++ w32 z ++ w32 (compl t)) by (intros; now rewrite by4_words, not32_compl).
  unfold count512, counter_at; rewrite <- counts; now rewrite !W.
Qed.

Lemma K5_odd i : Nat.odd ((8 + i) / 8) = true -> K5 (8 + i) = aes_round (rot (K5 i)) (add_count (counter_at (8 + i)) (K5 (7 + i))).
Proof. intros H; rewrite K5_next; unfold next512; rewrite H, counter_at_spec; cbn [nth]; now rewrite Nat.add_0_r, (Nat.add_comm i 7). Qed.

Lemma K5_even i : Nat.odd ((8 + i) / 8) = false -> K5 (8 + i) = linear512 (K5 i) (K5 (6 + i)) (K5 (7 + i)).
Proof. intros H; rewrite K5_next; unfold next512; rewrite H; cbn [nth]; now rewrite Nat.add_0_r, (Nat.add_comm i 6), (Nat.add_comm i 7). Qed.

Definition rel512 (r : nat) (s : v512) : Prop :=
  let '(S512 p03 p47 p8B pCF k0 k1 k2 k3 k4 k5 k6 k7) := s in
  match (r mod 4)%nat with
  | 0%nat => (by4 p03, by4 p47, by4 p8B, by4 pCF)
  | 1%nat => (by4 pCF, by4 p03, by4 p47, by4 p8B)
  | 2%nat => (by4 p8B, by4 pCF, by4 p03, by4 p47)
  | _ => (by4 p47, by4 p8B, by4 pCF, by4 p03)
  end = after5 r
  /\ by4 k0 = K5 (8 * (r - 1)) /\ by4 k1 = K5 (8 * (r - 1) + 1) /\ by4 k2 = K5 (8 * (r - 1) + 2) /\ by4 k3 = K5 (8 * (r - 1) + 3)
  /\ by4 k4 = K5 (8 * (r - 1) + 4) /\ by4 k5 = K5 (8 * (r - 1) + 5) /\ by4 k6 = K5 (8 * (r - 1) + 6) /\ by4 k7 = K5 (8 * (r - 1) + 7).

#[local] Opaque K5.

(** A subkey: its bytes are the next ones of the schedule. *)
Ltac subkey_fact i := repeat match goal with H : by4 ?k = K5 _ |- context [by4 ?k] => rewrite H end; symmetry; first [exact (K5_odd i eq_refl) | exact (K5_even i eq_refl)].
Ltac abstract_key e i :=
  let E := fresh "EK" in let j := eval cbv in (8 + i)%nat in
  assert (E : by4 e = K5 j) by (first [rewrite by4_expand_count | rewrite by4_expand_count' | rewrite by4_expand_key | rewrite by4_mix512]; subkey_fact i); generalize dependent e; intros ? E.
Ltac subkey5_tac k i :=
  match goal with
  | |- context [xor4 (xor4 (KEY_EXPAND_ELT k) ?p) (Q4 ?a ?b ?c ?d)] => abstract_key (xor4 (xor4 (KEY_EXPAND_ELT k) p) (Q4 a b c d)) i
  | |- context [xor4 (KEY_EXPAND_ELT k) ?p] => abstract_key (xor4 (KEY_EXPAND_ELT k) p) i
  | |- context [mix512 k ?p ?q] => abstract_key (mix512 k p q) i
  end.

Ltac round5_tac round r i :=
  let Ef := fresh "Ef" in
  intros [p03 p47 p8B pCF k0 k1 k2 k3 k4 k5 k6 k7] (Ef & E0 & E1 & E2 & E3 & E4 & E5 & E6 & E7);
  cbn [Nat.mul Nat.sub Nat.add] in E0, E1, E2, E3, E4, E5, E6, E7; cbn [Nat.modulo Nat.divmod snd Nat.sub] in Ef;
  unfold rel512, round; cbv zeta; cbn [Nat.eqb];
  subkey5_tac k0 i; subkey5_tac k1 (1 + i)%nat; subkey5_tac k2 (2 + i)%nat; subkey5_tac k3 (3 + i)%nat;
  subkey5_tac k4 (4 + i)%nat; subkey5_tac k5 (5 + i)%nat; subkey5_tac k6 (6 + i)%nat; subkey5_tac k7 (7 + i)%nat;
  rewrite (after5_next r), <- Ef; unfold feistel512, F512; cbn [Nat.mul Nat.add Nat.sub Nat.modulo Nat.divmod snd];
  repeat (split; [|assumption]); repeat split; try assumption; push_bytes;
  repeat match goal with H : by4 ?k = K5 _ |- context [by4 ?k] => rewrite H end; reflexivity.

Lemma big_round1 s : rel512 1 s -> rel512 2 (c512_round1 sc 0 s).
Proof. revert s; round5_tac c512_round1 1%nat 0%nat. Qed.
Lemma big_round2 s : rel512 2 s -> rel512 3 (c512_round2 s).
Proof. revert s; round5_tac c512_round2 2%nat 8%nat. Qed.
Lemma big_round3 s : rel512 3 s -> rel512 4 (c512_round3 s).
Proof. revert s; round5_tac c512_round3 3%nat 16%nat. Qed.
Lemma big_round4 s : rel512 4 s -> rel512 5 (c512_round4 s).
Proof. revert s; round5_tac c512_round4 4%nat 24%nat. Qed.
Lemma big_round5 s : rel512 5 s -> rel512 6 (c512_round1 sc 1 s).
Proof. revert s; round5_tac c512_round1 5%nat 32%nat. Qed.
Lemma big_round6 s : rel512 6 s -> rel512 7 (c512_round2 s).
Proof. revert s; round5_tac c512_round2 6%nat 40%nat. Qed.
Lemma big_round7 s : rel512 7 s -> rel512 8 (c512_round3 s).
Proof. revert s; round5_tac c512_round3 7%nat 48%nat. Qed.
Lemma big_round8 s : rel512 8 s -> rel512 9 (c512_round4 s).
Proof. revert s; round5_tac c512_round4 8%nat 56%nat. Qed.
Lemma big_round9 s : rel512 9 s -> rel512 10 (c512_round1 sc 2 s).
Proof. revert s; round5_tac c512_round1 9%nat 64%nat. Qed.
Lemma big_round10 s : rel512 10 s -> rel512 11 (c512_round2 s).
Proof. revert s; round5_tac c512_round2 10%nat 72%nat. Qed.
Lemma big_round11 s : rel512 11 s -> rel512 12 (c512_round3 s).
Proof. revert s; round5_tac c512_round3 11%nat 80%nat. Qed.
Lemma big_round12 s : rel512 12 s -> rel512 13 (c512_round4 s).
Proof. revert s; round5_tac c512_round4 12%nat 88%nat. Qed.
Lemma big_round13 s : rel512 13 s -> rel512 14 (c512_round13 sc s).
Proof. revert s; round5_tac c512_round13 13%nat 96%nat. Qed.

Lemma big_round0 p03 p47 p8B pCF : by4 p03 = A -> by4 p47 = B -> by4 p8B = C -> by4 pCF = D -> rel512 1 (c512_round0 msg p03 p47 p8B pCF).
Proof.
  intros EA EB EC ED; unfold c512_round0; cbv zeta.
  assert (HD : forall i, (i < 8)%nat -> by4 (dec4 msg (16 * i)) = K5 i) by (intros i Hi; rewrite by4_dec4, K5_start by (assumption || lia); reflexivity).
  pose proof (HD 0%nat ltac:(lia)) as D0; pose proof (HD 1%nat ltac:(lia)) as D1; pose proof (HD 2%nat ltac:(lia)) as D2; pose proof (HD 3%nat ltac:(lia)) as D3.
  pose proof (HD 4%nat ltac:(lia)) as D4; pose proof (HD 5%nat ltac:(lia)) as D5; pose proof (HD 6%nat ltac:(lia)) as D6; pose proof (HD 7%nat ltac:(lia)) as D7.
  cbn [Nat.mul Nat.add] in D0, D1, D2, D3, D4, D5, D6, D7; unfold rel512; rewrite (after5_next 0); change (after5 0) with (A, B, C, D).
  unfold feistel512, F512; cbn [Nat.mul Nat.add Nat.sub Nat.modulo Nat.divmod snd]; push_bytes; rewrite D0, D1, D2, D3, D4, D5, D6, D7, EA, EB, EC, ED; repeat split.
Qed.

Definition quad_at (l : list Z) (i : nat) : q4 := Q4 (nth i l 0) (nth (i + 1) l 0) (nth (i + 2) l 0) (nth (i + 3) l 0).

Lemma c512_spec : by4 (quad_at (H sc) 0) = A -> by4 (quad_at (H sc) 4) = B -> by4 (quad_at (H sc) 8) = C -> by4 (quad_at (H sc) 12) = D ->
  let r := c512 msg sc in
  let '(A', B', C', D') := after5 14 in
  flat_map sph_enc32le (H r) = xorl (A ++ B ++ C ++ D) (A' ++ B' ++ C' ++ D') /\ (cnt0 r, cnt1 r, cnt2 r, cnt3 r) = quad c /\ length (H r) = 16%nat.
Proof.
  intros EA EB EC ED; pose proof (big_round0 _ _ _ _ EA EB EC ED) as HR; unfold c512; cbv zeta; unfold quad_at in HR; cbn [Nat.add] in HR.
  generalize dependent (c512_round0 msg (Q4 (nth 0 (H sc) 0) (nth 1 (H sc) 0) (nth 2 (H sc) 0) (nth 3 (H sc) 0)) (Q4 (nth 4 (H sc) 0) (nth 5 (H sc) 0) (nth 6 (H sc) 0) (nth 7 (H sc) 0))
    (Q4 (nth 8 (H sc) 0) (nth 9 (H sc) 0) (nth 10 (H sc) 0) (nth 11 (H sc) 0)) (Q4 (nth 12 (H sc) 0) (nth 13 (H sc) 0) (nth 14 (H sc) 0) (nth 15 (H sc) 0))); intros s HR; cbn [fold_left seq].
  apply big_round1, big_round2, big_round3, big_round4, big_round5, big_round6, big_round7, big_round8, big_round9, big_round10, big_round11, big_round12, big_round13 in HR.
  match goal with |- context [c512_round13 sc ?t] => generalize dependent (c512_round13 sc t) end; intros [[p0 p1 p2 p3] [p4 p5 p6 p7] [p8 p9 pA pB] [pC pD pE pF] ? ? ? ? ? ? ? ?] (E & _).
  change (14 mod 4)%nat with 2%nat in E; cbn [H cnt0 cnt1 cnt2 cnt3]; rewrite <- E, <- EA, <- EB, <- EC, <- ED; split; [|auto].
  unfold quad_at; cbn [flat_map by4 Nat.add]; rewrite !enc32_lxor; reflexivity.
Qed.
End Rounds512.

(** ** The stream, for both sizes *)
Lemma loops_ok {St} blen (p : list Z -> St -> St) chunks c : (0 < blen)%nat -> length (buf c) = blen -> ptr c = 0%nat -> ctx_ok blen blen (fold_left (loop blen p) chunks c).
Proof.
  intros Hl Hb Hp; assert (Hok : ctx_ok blen blen c) by (split; [exact Hb | lia]).
  assert (Hloc : forall b s, length b = blen -> p (firstn blen b) s = p b s) by (intros b s Hlb; now rewrite firstn_all2 by lia).
  rewrite (loops_core blen blen p chunks Hl ltac:(lia) Hloc c Hok); exact (proj1 (core_many_refines blen p Hl blen ltac:(lia) Hloc chunks c Hok)).
Qed.

Section Variant.
Context {St : Type} (blen clen : nat) (comp : Z -> list Z -> list Z -> list Z).
Context (cmp : list Z -> St -> St) (bytes : St -> list Z) (at_count : Z -> St -> Prop) (wf : St -> Prop).
Context (incr zero : St -> St) (add_last : Z -> St -> St) (enc_count : St -> list Z).
Context (sizes : (clen + 2 < blen)%nat).
Context (cmp_spec : forall c b s, at_count c s -> wf s -> length b = blen -> words 8 b -> bytes (cmp b s) = comp c b (bytes s) /\ at_count c (cmp b s) /\ wf (cmp b s)).
Context (incr_spec : forall i s, 0 <= i -> wf s -> at_count (8 * Z.of_nat blen * i) s -> at_count (8 * Z.of_nat blen * (i + 1)) (incr s) /\ bytes (incr s) = bytes s /\ wf (incr s)).
Context (add_spec : forall i e s, 0 <= i -> 0 <= e < 8 * Z.of_nat blen -> wf s -> at_count (8 * Z.of_nat blen * i) s ->
  at_count (8 * Z.of_nat blen * i + e) (add_last e s) /\ bytes (add_last e s) = bytes s /\ wf (add_last e s)).
Context (zero_spec : forall s, wf s -> at_count 0 (zero s) /\ bytes (zero s) = bytes s /\ wf (zero s)).
Context (enc_spec : forall c s, at_count c s -> enc_count s = le_split clen c).

Definition process (b : list Z) (s : St) : St := cmp b (incr s).
Definition represents (s : St) (a : list Z * Z) : Prop := bytes s = fst a /\ 0 <= snd a /\ at_count (8 * Z.of_nat blen * snd a) s /\ wf s.

Lemma shavite_process_represents b s a : length b = blen -> words 8 b -> represents s a -> represents (process b s) (full_block blen comp b a).
Proof.
  intros Hl Hb (E1 & E2 & E3 & E4); destruct (incr_spec (snd a) s E2 E4 E3) as (I1 & I2 & I3); destruct (cmp_spec _ b (incr s) I1 I3 Hl Hb) as (D1 & D2 & D3).
  unfold represents, process, full_block; cbn [fst snd]; rewrite D1, I2, E1; split; [reflexivity|]; split; [lia|]; auto.
Qed.

Definition fill (b : list Z) (e : list Z) (d : Z) : list Z := memcpy b (blen - clen - 2) (e ++ le_split 2 d) (clen + 2).
Definition close_with (sc : sctx St) (ub n d : Z) : list Z * St :=
  let p := ptr sc in
  let b := buf sc in
  let s := add_last ((Z.of_nat p << 3) + n) (st sc) in
  let e := enc_count s in
  let z := ((ub .& SPH_T32 (- (0x80 >> n))) .| (0x80 >> n)) .& 0xFF in
  let last := (blen - clen - 2)%nat in
  let (b, s) :=
    if (p =? 0)%nat && (n =? 0) then (memset (upd b 0 0x80) 1 0 (last - 1), zero s)
    else if (p <? last)%nat then (memset (upd b p z) (S p) 0 (last - S p), s)
    else let b := memset (upd b p z) (S p) 0 (blen - S p) in (memset b 0 0 last, zero (cmp b s)) in
  let b := fill b e d in
  (b, cmp b s).

Lemma shavite_close_spec c V0 chunks ub n d : length (buf c) = blen -> ptr c = 0%nat -> represents (st c) (V0, 0) -> words 8 (concat chunks) -> 0 <= n < 8 ->
  let r := close_with (fold_left (loop blen process) chunks c) ub n d in
  let m := concat chunks in
  bytes (snd r) = fst (fst (absorb blen (counted blen comp (8 * Z.of_nat (length m) + n)) (V0, 0) (shavite_pad blen clen d m ub n)))
  /\ wf (snd r) /\ length (fst r) = blen.
Proof.
  intros Hb Hp Hr Hw Hn r m.
  assert (Hloc : forall b s, length b = blen -> process (firstn blen b) s = process b s) by (intros b s Hl; now rewrite firstn_all2 by lia).
  assert (Hok : ctx_ok blen blen c) by (split; [exact Hb | lia]).
  unfold r; rewrite (loops_core blen blen process chunks ltac:(lia) ltac:(lia) Hloc c Hok); clear r.
  destruct (core_many_refines blen process ltac:(lia) blen ltac:(lia) Hloc chunks c Hok) as [[Hb' Hp'] Ha]; set (c' := fold_left (core blen process) chunks c) in *.
  unfold ctx_abs in Ha; rewrite Hp in Ha; cbn [fst snd firstn app] in Ha; fold m in Ha, Hw.
  destruct (absorb_sim represents blen process (full_block blen comp) (st c) (V0, 0) m) as [(R1 & R2 & R3 & R4) Er];
    [lia | intros; now apply shavite_process_represents | assumption | assumption |]; rewrite <- Ha in R1, R3, R4, Er; cbn [fst snd] in R1, R3, R4, Er.
  set (a := absorb blen (full_block blen comp) (V0, 0) m) in *; set (L := 8 * Z.of_nat (length m) + n) in *.
  assert (Ep : ptr c' = (length m mod blen)%nat) by (apply (absorb_rest_ptr blen (full_block blen comp) (V0, 0) m (buf c')); [lia | lia | symmetry; exact Er]).
  pose proof (full_block_count blen comp ltac:(lia) m V0 0) as Eq; fold a in Eq; rewrite Z.add_0_l in Eq.
  set (elen := (Z.of_nat (ptr c') << 3) + n); assert (Hel : elen = 8 * Z.of_nat (ptr c') + n) by (unfold elen; rewrite Z.shiftl_mul_pow2; lia).
  destruct (add_spec (snd (fst a)) elen (st c') R2 ltac:(lia) R4 R3) as (A1 & A2 & A3); set (s1 := add_last elen (st c')) in *.
  replace (8 * Z.of_nat blen * snd (fst a) + elen) with L in A1 by (rewrite Eq; unfold L; pose proof (Nat.div_mod_eq (length m) blen); lia).
  set (cf := if (length m mod blen =? 0)%nat && (n =? 0) then 0 else L); set (lb := last_byte ub n); set (x := le_split clen L ++ le_split 2 d).
  assert (Hx : length x = (clen + 2)%nat) by (unfold x; rewrite length_app, !length_le_split; lia).
  assert (Hxw : words 8 x) by (apply words_app; apply le_split_bytes).
  assert (Hrest : length (snd a) = ptr c') by (rewrite <- Er, length_firstn; lia).
  assert (Hsw : words 8 (snd a)) by (refine (proj2 (absorb_inv blen (full_block blen comp) ltac:(lia) (fun _ => True) (V0, 0) m _ Hw I)); auto).
  assert (Hlb : inw 8 lb) by (unfold lb; rewrite <- pad_byte by assumption; apply u8_inw).
  assert (Hz : forall k, words 8 (repeat 0 k)) by (intros k; apply words_repeat; unfold inw; lia).
  pose proof (counted_final blen comp ltac:(lia) V0 m n) as Hfin; fold a L in Hfin; cbv zeta in Hfin; fold cf in Hfin.
  unfold close_with; cbv zeta; fold elen s1; rewrite (enc_spec L s1 A1), pad_byte by assumption; fold lb; unfold fill; fold x.
  unfold shavite_pad; cbv zeta; rewrite <- Ep; fold L lb; fold x; set (last := (blen - clen - 2)%nat).
  (* the last block of the message *)
  assert (Hshort : (ptr c' < last)%nat -> forall s, at_count cf s -> bytes s = fst (fst a) -> wf s ->
    let b2 := memcpy (memset (upd (buf c') (ptr c') lb) (S (ptr c')) 0 (last - S (ptr c'))) last x (clen + 2) in
    bytes (cmp b2 s) = fst (fst (absorb blen (counted blen comp L) (V0, 0) (m ++ lb :: repeat 0 (last - S (ptr c')) ++ x))) /\ wf (cmp b2 s) /\ length b2 = blen).
  { intros Hlt s S1 S2 S3 b2; unfold b2; rewrite <- Hx, pad_then, Er by (rewrite ?Hx; unfold last in *; lia); clear b2.
    set (b2 := (snd a ++ [lb]) ++ repeat 0 (last - S (ptr c')) ++ x).
    assert (Hl2 : length b2 = blen) by (unfold b2, last in *; rewrite !length_app, repeat_length, Hrest, Hx; cbn [length]; lia).
    assert (Hw2 : words 8 b2) by (repeat (apply words_app; auto); constructor; [assumption | constructor]).
    destruct (cmp_spec cf b2 s S1 S3 Hl2 Hw2) as (D1 & D2 & D3); split; [|split; assumption]; rewrite D1, S2; symmetry; unfold b2; rewrite <- app_assoc.
    refine (proj1 (Hfin _ [] Hn _)); cbn [length app]; rewrite !length_app, repeat_length, Hrest, Hx; unfold last in *; lia. }
  assert (Ecf : cf = if (ptr c' =? 0)%nat && (n =? 0) then 0 else L) by (unfold cf; now rewrite Ep).
  destruct (Nat.eqb_spec (ptr c') 0) as [E0|E0]; [destruct (Z.eqb_spec n 0) as [En|En]|]; cbn [andb] in Ecf |- *.
  - destruct (zero_spec s1 A3) as (Z1 & Z2 & Z3); rewrite (proj2 (Nat.ltb_ge last (S (ptr c')))) by (unfold last; lia).
    assert (El : lb = 0x80) by (unfold lb, last_byte; rewrite En; change (2 ^ 8 - 2 ^ (8 - 0)) with 0; now rewrite Z.land_0_r).
    pose proof (Hshort ltac:(unfold last; lia) (zero s1) ltac:(now rewrite Ecf) ltac:(now rewrite Z2, A2) Z3) as Hs; rewrite El, E0 in Hs |- *; exact Hs.
  - destruct (Nat.ltb_spec (ptr c') last) as [Hlt|Hge]; [|unfold last in Hge; lia]; rewrite (proj2 (Nat.ltb_ge last (S (ptr c')))) by lia.
    apply (Hshort Hlt s1); [now rewrite Ecf | now rewrite A2 | assumption].
  - destruct (Nat.ltb_spec (ptr c') last) as [Hlt|Hge]; [rewrite (proj2 (Nat.ltb_ge last (S (ptr c')))) by lia; apply (Hshort Hlt s1); [now rewrite Ecf | now rewrite A2 | assumption]|].
    rewrite (proj2 (Nat.ltb_lt last (S (ptr c')))) by lia; rewrite (pad_buffer (buf c') (ptr c') blen), Er by (assumption || lia).
    set (b1 := snd a ++ lb :: repeat 0 (blen - S (ptr c'))); assert (Hl1 : length b1 = blen) by (unfold b1; rewrite length_app, Hrest; cbn [length]; rewrite repeat_length; lia).
    assert (Hw1 : words 8 b1) by (apply words_app; [assumption|]; constructor; [assumption | apply Hz]).
    destruct (cmp_spec L b1 s1 A1 A3 Hl1 Hw1) as (D1 & D2 & D3); destruct (zero_spec _ D3) as (Z1 & Z2 & Z3).
    assert (Eb2 : memcpy (memset b1 0 0 last) last x (clen + 2) = repeat 0 last ++ x).
    { rewrite <- Hx, memcpy_end by (rewrite length_memset; unfold last; lia); f_equal; unfold memset; change last with (0 + last)%nat at 1; rewrite firstn_memcpy by (rewrite ?repeat_length; unfold last; lia).
      cbn [firstn app]; apply firstn_all2; rewrite repeat_length; lia. }
    rewrite Eb2; set (b2 := repeat 0 last ++ x); assert (Hl2 : length b2 = blen) by (unfold b2; rewrite length_app, repeat_length, Hx; unfold last; lia).
    destruct (cmp_spec 0 b2 _ Z1 Z3 Hl2 ltac:(apply words_app; auto)) as (F1 & F2 & F3); split; [|split; assumption].
    cbn [snd]; rewrite F1, Z2, D1, A2, R1; rewrite Ecf in Hfin.
    replace (lb :: repeat 0 (blen - S (ptr c') + last) ++ x) with ((lb :: repeat 0 (blen - S (ptr c'))) ++ b2) by (unfold b2; rewrite repeat_app, <- app_comm_cons, <- app_assoc; reflexivity).
    symmetry; refine (proj2 (Hfin _ _ Hn _) Hl2); cbn [length]; rewrite repeat_length, Hrest; lia.
Qed.
End Variant.

(** ** Both sizes *)
Lemma carry_test k i : 0 <= i -> 0 <= k < 32 -> (trunc 32 (2 ^ k * i + 2 ^ k) <? 2 ^ k) = (trunc 32 (2 ^ k * i + 2 ^ k) =? 0).
Proof.
  intros Hi Hk; rewrite trunc_mod by lia; replace (2 ^ k * i + 2 ^ k) with (2 ^ k * (i + 1)) by ring.
  replace (2 ^ 32) with (2 ^ k * 2 ^ (32 - k)) by (rewrite <- Z.pow_add_r by lia; f_equal; lia).
  pose proof (Z.pow_pos_nonneg 2 k ltac:(lia) ltac:(lia)); pose proof (Z.pow_pos_nonneg 2 (32 - k) ltac:(lia) ltac:(lia)).
  rewrite Z.mul_mod_distr_l by lia; pose proof (Z.mod_pos_bound (i + 1) (2 ^ (32 - k)) ltac:(lia)).
  apply eq_iff_eq_true; rewrite Z.ltb_lt, Z.eqb_eq; set (r := (i + 1) mod 2 ^ (32 - k)) in *; clearbody r; set (P := 2 ^ k) in *; clearbody P.
  destruct (Z.eq_dec r 0) as [->|]; [lia | assert (P <= P * r) by nia; nia].
Qed.

Lemma trunc_add c v : trunc 32 (trunc 32 c + v) = trunc 32 (c + v).
Proof. rewrite !trunc_mod by lia; now rewrite Z.add_mod_idemp_l by lia. Qed.

(** The last, incomplete, block does not carry. *)
Lemma no_carry k i e : 0 <= i -> 0 <= k < 32 -> 0 <= e < 2 ^ k -> (2 ^ k * i + e) / 2 ^ 32 = (2 ^ k * i) / 2 ^ 32.
Proof.
  intros Hi Hk He; replace (2 ^ 32) with (2 ^ k * 2 ^ (32 - k)) by (rewrite <- Z.pow_add_r by lia; f_equal; lia).
  pose proof (Z.pow_pos_nonneg 2 k ltac:(lia) ltac:(lia)); pose proof (Z.pow_pos_nonneg 2 (32 - k) ltac:(lia) ltac:(lia)).
  rewrite <- !Z.div_div by lia; f_equal; rewrite (Z.mul_comm (2 ^ k) i), Z.div_add_l, Z.div_small, Z.div_mul by lia; lia.
Qed.

Lemma size_bytes out : [u8 (Z.of_nat out << 5); u8 (Z.of_nat out >> 3)] = le_split 2 (Z.of_nat out << 5).
Proof. cbn [le_split]; f_equal; f_equal; f_equal; symmetry; change 8 with (5 + 3); rewrite <- Z.shiftr_shiftr, Z.shiftr_shiftl_l, Z.sub_diag, Z.shiftl_0_r by lia; reflexivity. Qed.

Definition small_bytes (s : small_state) : list Z := flat_map sph_enc32le (h s).
Definition small_at (c : Z) (s : small_state) : Prop := count0 s = trunc 32 c /\ count1 s = trunc 32 (c >> 32).
Definition small_wf (s : small_state) : Prop := length (h s) = 8%nat.
Definition small_incr (s : small_state) : small_state :=
  let c0 := SPH_T32 (count0 s + 512) in Small (h s) c0 (if c0 =? 0 then SPH_T32 (count1 s + 1) else count1 s).
Definition small_add (e : Z) (s : small_state) : small_state := Small (h s) (SPH_T32 (count0 s + e)) (count1 s).
Definition small_zero (s : small_state) : small_state := Small (h s) 0 0.
Definition small_enc (s : small_state) : list Z := sph_enc32le (count0 s) ++ sph_enc32le (count1 s).

Lemma compress256_after c b x : compress256 c b x = xorl x (fst (after c b (firstn 16 x) (skipn 16 x) 12) ++ snd (after c b (firstn 16 x) (skipn 16 x) 12)).
Proof.
  unfold compress256, after; assert (E : K c b = key256 c b) by reflexivity; rewrite E; destruct (fold_left (feistel (key256 c b)) (seq 0 12) (firstn 16 x, skipn 16 x)); reflexivity.
Qed.

Lemma small_cmp_spec c b s : small_at c s -> small_wf s -> length b = 64%nat -> words 8 b ->
  small_bytes (c256 b s) = compress256 c b (small_bytes s) /\ small_at c (c256 b s) /\ small_wf (c256 b s).
Proof.
  intros Hc Hwf Hl Hb; destruct (c256_spec c b (firstn 16 (small_bytes s)) (skipn 16 (small_bytes s)) s Hb Hl Hc) as (E1 & E2 & E3 & E4).
  1,2: unfold small_wf in Hwf; unfold small_bytes; destruct (h s) as [|? l]; [discriminate Hwf|]; do 7 (destruct l as [|? l]; [discriminate Hwf|]); destruct l; [reflexivity | discriminate Hwf].
  split; [|split; [unfold small_at; now rewrite E2, E3 | exact E4]].
  unfold small_bytes at 1; rewrite E1, firstn_skipn, compress256_after; reflexivity.
Qed.

Lemma small_incr_spec i s : 0 <= i -> small_wf s -> small_at (8 * Z.of_nat 64 * i) s ->
  small_at (8 * Z.of_nat 64 * (i + 1)) (small_incr s) /\ small_bytes (small_incr s) = small_bytes s /\ small_wf (small_incr s).
Proof.
  intros Hi Hw [H0 H1]; split; [|split; [reflexivity | exact Hw]]; change (8 * Z.of_nat 64) with (2 ^ 9) in *.
  replace (2 ^ 9 * (i + 1)) with (2 ^ 9 * i + 2 ^ 9) by lia; pose proof (proj2 (low_carry (2 ^ 32) (2 ^ 9 * i) (2 ^ 9) ltac:(lia) ltac:(lia))) as E.
  rewrite <- trunc_mod, carry_test, <- !Z.shiftr_div_pow2 in E by lia.
  unfold small_at, small_incr; cbn [count0 count1]; rewrite H0, H1, T32_trunc; change 512 with (2 ^ 9); rewrite !trunc_add, E.
  destruct (_ =? 0); split; auto; now rewrite Z.add_0_r.
Qed.

Lemma small_add_spec i e s : 0 <= i -> 0 <= e < 8 * Z.of_nat 64 -> small_wf s -> small_at (8 * Z.of_nat 64 * i) s ->
  small_at (8 * Z.of_nat 64 * i + e) (small_add e s) /\ small_bytes (small_add e s) = small_bytes s /\ small_wf (small_add e s).
Proof.
  intros Hi He Hw [H0 H1]; split; [|split; [reflexivity | exact Hw]]; change (8 * Z.of_nat 64) with (2 ^ 9) in *.
  unfold small_at, small_add; cbn [count0 count1]; rewrite H0, H1, T32_trunc, trunc_add, !Z.shiftr_div_pow2, no_carry by lia; auto.
Qed.

Lemma small_enc_spec c s : small_at c s -> small_enc s = le_split 8 c.
Proof.
  intros [H0 H1]; unfold small_enc; rewrite H0, H1, !sph_enc32le_split, !(le_split_trunc 4 32) by lia; symmetry; exact (le_split_plus 4 4 c).
Qed.

#[local] Opaque c256 c512.

Lemma fill_small b s out : length b = 64%nat ->
  upd (upd (memcpy (memcpy b 54 (sph_enc32le (count0 s)) 4) 58 (sph_enc32le (count1 s)) 4) 62 (u8 (Z.of_nat out << 5))) 63 (u8 (Z.of_nat out >> 3))
  = fill 64 8 b (small_enc s) (Z.of_nat out << 5).
Proof.
  intros Hl; unfold fill, small_enc; rewrite <- size_bytes; unfold upd.
  pose proof (memcpy_two b (sph_enc32le (count0 s)) (sph_enc32le (count1 s)) 54) as E1; pose proof (memcpy_two b (sph_enc32le (count0 s) ++ sph_enc32le (count1 s)) [u8 (Z.of_nat out << 5)] 54) as E2.
  pose proof (memcpy_two b ((sph_enc32le (count0 s) ++ sph_enc32le (count1 s)) ++ [u8 (Z.of_nat out << 5)]) [u8 (Z.of_nat out >> 3)] 54) as E3.
  cbn [length app sph_enc32le Nat.add] in E1, E2, E3 |- *; rewrite E1, E2, E3 by (rewrite Hl; lia); reflexivity.
Qed.

Abbreviation small_close := (close_with 64 8 c256 small_zero small_add small_enc).

Lemma shavite_small_close_eq c ub n out : length (buf c) = 64%nat -> (ptr c < 64)%nat -> 0 <= n < 8 ->
  let r := shavite_small_close c ub n out in let q := small_close c ub n (Z.of_nat out << 5) in
  snd r = flat_map (fun u => sph_enc32le (nth u (h (snd q)) 0)) (seq 0 out) /\ buf (fst r) = fst q.
Proof.
  intros Hb Hp Hn r q; unfold r, q, shavite_small_close, close_with; cbv zeta; fold (small_add ((Z.of_nat (ptr c) << 3) + n) (st c)); set (s := small_add _ (st c)).
  change (SPH_T32 (count0 (st c) + ((Z.of_nat (ptr c) << 3) + n))) with (count0 s); change (count1 (st c)) with (count1 s); change (h (st c)) with (h s).
  change {| h := h s; count0 := count0 s; count1 := count1 s |} with s; change (64 - 8 - 2)%nat with 54%nat.
  assert (Hu : forall v, length (upd (buf c) (ptr c) v) = 64%nat) by (intros v; rewrite length_upd; lia).
  destruct ((ptr c =? 0)%nat && (n =? 0)) eqn:E0; [|destruct (Nat.ltb_spec (ptr c) 54)].
  - apply andb_true_iff in E0 as [E0 _]; apply Nat.eqb_eq in E0; rewrite fill_small by (rewrite E0 in Hu; rewrite length_memset; rewrite Hu; lia); split; reflexivity.
  - rewrite fill_small by (rewrite length_memset; rewrite Hu; lia); split; reflexivity.
  - assert (Hm : forall v, length (memset (upd (buf c) (ptr c) v) (S (ptr c)) 0 (64 - S (ptr c))) = 64%nat) by (intros v; rewrite length_memset; rewrite Hu; lia).
    rewrite fill_small by (rewrite length_memset; rewrite Hm; lia); split; reflexivity.
Qed.

Lemma firstn_enc32 k l : firstn (4 * k) (flat_map sph_enc32le l) = flat_map sph_enc32le (firstn k l).
Proof.
  revert l; induction k as [|k IH]; intros [|x l]; [reflexivity..|].
  replace (4 * S k)%nat with (length (sph_enc32le x) + 4 * k)%nat by (cbn [sph_enc32le length]; lia).
  cbn [flat_map firstn]; now rewrite firstn_app_2, IH.
Qed.


Lemma output32 l out : (out <= length l)%nat -> flat_map (fun u => sph_enc32le (nth u l 0)) (seq 0 out) = firstn (4 * out) (flat_map sph_enc32le l).
Proof.
  intros Ho; rewrite firstn_enc32; revert l Ho; induction out as [|k IH]; intros l Ho; [reflexivity|].
  rewrite seq_S, flat_map_app, IH by lia; cbn [flat_map]; rewrite app_nil_r, Nat.add_0_l; revert l Ho; clear IH; induction k as [|k IH]; intros [|x l] Ho; cbn [length] in Ho; [lia | cbn; now rewrite ?app_nil_r | lia |].
  cbn [nth]; change (firstn (S (S k)) (x :: l)) with (x :: firstn (S k) l); change (firstn (S k) (x :: l)) with (x :: firstn k l); cbn [flat_map]; rewrite <- app_assoc; f_equal; apply IH; lia.
Qed.

Lemma shavite_small_run c chunks ub n iv out d : length (buf c) = 64%nat -> words 8 (concat chunks) -> 0 <= n < 8 -> (out = 7 \/ out = 8)%nat -> d = 32 * Z.of_nat out ->
  length iv = 8%nat -> flat_map sph_enc32le iv = shavite_iv compress256 64 32 d ->
  let r := shavite_small_close (fold_left shavite_small_core chunks (shavite_small_init c iv)) ub n out in
  snd r = shavite_spec d (concat chunks) ub n /\ length (buf (fst r)) = 64%nat.
Proof.
  intros Hb Hw Hn Hout Hd Hiv Eiv r; set (c' := fold_left shavite_small_core chunks (shavite_small_init c iv)) in *.
  assert (Hr : represents 64 small_bytes small_at small_wf (st (shavite_small_init c iv)) (shavite_iv compress256 64 32 d, 0)) by (rewrite <- Eiv; repeat split; auto; cbn; lia).
  destruct (shavite_close_spec 64 8 compress256 c256 small_bytes small_at small_wf small_incr small_zero small_add small_enc ltac:(lia) small_cmp_spec small_incr_spec small_add_spec
    (fun s H => conj (conj eq_refl eq_refl) (conj eq_refl H)) small_enc_spec (shavite_small_init c iv) _ chunks ub n d Hb eq_refl Hr Hw Hn) as (E1 & E2 & E3).
  change (fold_left (loop 64 (process c256 small_incr)) chunks (shavite_small_init c iv)) with c' in E1, E2, E3.
  destruct (loops_ok 64 (process c256 small_incr) chunks (shavite_small_init c iv) ltac:(lia) Hb eq_refl) as [Hb' Hp'].
  change (fold_left (loop 64 (process c256 small_incr)) chunks (shavite_small_init c iv)) with c' in Hb', Hp'.
  destruct (shavite_small_close_eq c' ub n out Hb' Hp' Hn) as [F1 F2]; replace d with (Z.of_nat out << 5) in E1, E2, E3 by (rewrite Z.shiftl_mul_pow2; lia).
  unfold r; rewrite F1, F2, output32 by (rewrite E2; lia); split; [|exact E3]; fold (small_bytes (snd (small_close c' ub n (Z.of_nat out << 5)))); rewrite E1.
  replace (Z.of_nat out << 5) with d by (rewrite Z.shiftl_mul_pow2; lia); unfold shavite_spec; replace (d <=? 256) with true by (subst d; destruct Hout; subst out; reflexivity).
  cbv zeta; f_equal; subst d; destruct Hout; subst out; reflexivity.
Qed.

(** ** The large variants *)
Definition big_bytes (s : big_state) : list Z := flat_map sph_enc32le (H s).
Definition big_at (c : Z) (s : big_state) : Prop := (cnt0 s, cnt1 s, cnt2 s, cnt3 s) = quad c.
Definition big_wf (s : big_state) : Prop := length (H s) = 16%nat.
Definition big_incr (sc : big_state) : big_state :=
  let c0 := SPH_T32 (cnt0 sc + 1024) in
  if c0 =? 0 then
    let c1 := SPH_T32 (cnt1 sc + 1) in
    if c1 =? 0 then
      let c2 := SPH_T32 (cnt2 sc + 1) in
      if c2 =? 0 then Big (H sc) c0 c1 c2 (SPH_T32 (cnt3 sc + 1)) else Big (H sc) c0 c1 c2 (cnt3 sc)
    else Big (H sc) c0 c1 (cnt2 sc) (cnt3 sc)
  else Big (H sc) c0 (cnt1 sc) (cnt2 sc) (cnt3 sc).
Definition big_add (e : Z) (s : big_state) : big_state := Big (H s) (SPH_T32 (cnt0 s + e)) (cnt1 s) (cnt2 s) (cnt3 s).
Definition big_zero (s : big_state) : big_state := Big (H s) 0 0 0 0.
Definition big_enc (s : big_state) : list Z := sph_enc32le (cnt0 s) ++ sph_enc32le (cnt1 s) ++ sph_enc32le (cnt2 s) ++ sph_enc32le (cnt3 s).

Lemma compress512_after c b x : compress512 c b x =
  let '(A, B, C, D) := after5 c b (firstn 16 x) (firstn 16 (skipn 16 x)) (firstn 16 (skipn 32 x)) (skipn 48 x) 14 in xorl x (A ++ B ++ C ++ D).
Proof. reflexivity. Qed.

Lemma big_cmp_spec c b s : big_at c s -> big_wf s -> length b = 128%nat -> words 8 b ->
  big_bytes (c512 b s) = compress512 c b (big_bytes s) /\ big_at c (c512 b s) /\ big_wf (c512 b s).
Proof.
  intros Hc Hwf Hl Hb; set (x := big_bytes s).
  pose proof (c512_spec c b (firstn 16 x) (firstn 16 (skipn 16 x)) (firstn 16 (skipn 32 x)) (skipn 48 x) s Hb Hl Hc) as E; cbv zeta in E.
  assert (Hx : firstn 16 x ++ firstn 16 (skipn 16 x) ++ firstn 16 (skipn 32 x) ++ skipn 48 x = x).
  { change (skipn 48 x) with (skipn (16 + 32) x); rewrite <- (skipn_skipn 16 32), firstn_skipn; change (skipn 32 x) with (skipn (16 + 16) x).
    rewrite <- (skipn_skipn 16 16), firstn_skipn; apply firstn_skipn. }
  rewrite Hx in E; rewrite compress512_after; fold x.
  destruct (after5 c b (firstn 16 x) (firstn 16 (skipn 16 x)) (firstn 16 (skipn 32 x)) (skipn 48 x) 14) as [[[A B] C] D].
  destruct E as (E1 & E2 & E3); [| | | |split; [exact E1 | split; assumption]].
  all: unfold big_wf in Hwf; unfold x, big_bytes; destruct (H s) as [|? l]; [discriminate Hwf|]; do 15 (destruct l as [|? l]; [discriminate Hwf|]); destruct l; [reflexivity | discriminate Hwf].
Qed.

Lemma big_incr_spec i s : 0 <= i -> big_wf s -> big_at (8 * Z.of_nat 128 * i) s ->
  big_at (8 * Z.of_nat 128 * (i + 1)) (big_incr s) /\ big_bytes (big_incr s) = big_bytes s /\ big_wf (big_incr s).
Proof.
  intros Hi Hw Hq; change (8 * Z.of_nat 128) with (2 ^ 10) in *; unfold big_at in *.
  assert (E : (cnt0 (big_incr s), cnt1 (big_incr s), cnt2 (big_incr s), cnt3 (big_incr s)) = quad_add (2 ^ 10) (cnt0 s, cnt1 s, cnt2 s, cnt3 s)).
  { assert (E0 : SPH_T32 (cnt0 s + 2 ^ 10) = trunc 32 (2 ^ 10 * i + 2 ^ 10)).
    { unfold quad in Hq; assert (E0 : cnt0 s = trunc 32 (2 ^ 10 * i)) by exact (f_equal (fun q => fst (fst (fst q))) Hq); now rewrite E0, T32_trunc, trunc_add. }
    unfold big_incr, quad_add; change 1024 with (2 ^ 10); rewrite E0, carry_test by lia.
    destruct (_ =? 0); [|reflexivity]; destruct (_ =? 0); [|reflexivity]; destruct (_ =? 0); reflexivity. }
  rewrite E, Hq, quad_add_spec by lia; split; [f_equal; lia|]; unfold big_incr, big_bytes, big_wf in *.
  destruct (_ =? 0); [|split; [reflexivity | exact Hw]]; destruct (_ =? 0); [|split; [reflexivity | exact Hw]]; destruct (_ =? 0); split; (reflexivity || exact Hw).
Qed.

Lemma big_add_spec i e s : 0 <= i -> 0 <= e < 8 * Z.of_nat 128 -> big_wf s -> big_at (8 * Z.of_nat 128 * i) s ->
  big_at (8 * Z.of_nat 128 * i + e) (big_add e s) /\ big_bytes (big_add e s) = big_bytes s /\ big_wf (big_add e s).
Proof.
  intros Hi He Hw Hq; split; [|split; [reflexivity | exact Hw]]; change (8 * Z.of_nat 128) with (2 ^ 10) in *.
  unfold big_at in *; rewrite quad_digits in Hq; rewrite quad_digits, no_carry by lia; unfold big_add; cbn [cnt0 cnt1 cnt2 cnt3].
  rewrite T32_trunc, trunc_mod by lia; injection Hq as -> -> -> ->; now rewrite Z.add_mod_idemp_l by lia.
Qed.


Lemma big_enc_spec c s : big_at c s -> big_enc s = le_split 16 c.
Proof. intros Hq; pose proof (quad_bytes c) as E; rewrite <- Hq in E; cbn [flat_map] in E; now rewrite app_nil_r in E. Qed.

Lemma fill_big b s out : length b = 128%nat ->
  upd (upd (memcpy (memcpy (memcpy (memcpy b 110 (sph_enc32le (cnt0 s)) 4) 114 (sph_enc32le (cnt1 s)) 4) 118 (sph_enc32le (cnt2 s)) 4) 122 (sph_enc32le (cnt3 s)) 4)
    126 (u8 (Z.of_nat out << 5))) 127 (u8 (Z.of_nat out >> 3)) = fill 128 16 b (big_enc s) (Z.of_nat out << 5).
Proof.
  intros Hl; unfold fill, big_enc; rewrite <- size_bytes; unfold upd.
  assert (Hk : forall x y kx ky k, length x = kx -> length y = ky -> (110 + kx + ky <= 128)%nat -> k = (110 + kx)%nat -> memcpy (memcpy b 110 x kx) k y ky = memcpy b 110 (x ++ y) (kx + ky)).
  { intros x y kx ky k <- <- Hxy ->; apply memcpy_two; lia. }
  rewrite (Hk _ _ 4 4)%nat, (Hk _ _ (4 + 4) 4)%nat, (Hk _ _ (4 + 4 + 4) 4)%nat, (Hk _ _ (4 + 4 + 4 + 4) 1)%nat, (Hk _ _ (4 + 4 + 4 + 4 + 1) 1)%nat by (reflexivity || lia).
  rewrite <- !app_assoc; reflexivity.
Qed.

Abbreviation big_close := (close_with 128 16 c512 big_zero big_add big_enc).

Lemma shavite_big_close_eq c ub n out : length (buf c) = 128%nat -> (ptr c < 128)%nat -> 0 <= n < 8 ->
  let r := shavite_big_close c ub n out in let q := big_close c ub n (Z.of_nat out << 5) in
  snd r = flat_map (fun u => sph_enc32le (nth u (H (snd q)) 0)) (seq 0 out) /\ buf (fst r) = fst q.
Proof.
  intros Hb Hp Hn r q; unfold r, q, shavite_big_close, close_with; cbv zeta; fold (big_add ((Z.of_nat (ptr c) << 3) + n) (st c)); set (s := big_add _ (st c)).
  change (SPH_T32 (cnt0 (st c) + ((Z.of_nat (ptr c) << 3) + n))) with (cnt0 s); change (cnt1 (st c)) with (cnt1 s); change (cnt2 (st c)) with (cnt2 s); change (cnt3 (st c)) with (cnt3 s); change (H (st c)) with (H s).
  change {| H := H s; cnt0 := cnt0 s; cnt1 := cnt1 s; cnt2 := cnt2 s; cnt3 := cnt3 s |} with s; change (128 - 16 - 2)%nat with 110%nat.
  assert (Hu : forall v, length (upd (buf c) (ptr c) v) = 128%nat) by (intros v; rewrite length_upd; lia).
  destruct ((ptr c =? 0)%nat && (n =? 0)) eqn:E0; [|destruct (Nat.ltb_spec (ptr c) 110)].
  - apply andb_true_iff in E0 as [E0 _]; apply Nat.eqb_eq in E0; rewrite fill_big by (rewrite E0 in Hu; rewrite length_memset; rewrite Hu; lia); split; reflexivity.
  - rewrite fill_big by (rewrite length_memset; rewrite Hu; lia); split; reflexivity.
  - assert (Hm : forall v, length (memset (upd (buf c) (ptr c) v) (S (ptr c)) 0 (128 - S (ptr c))) = 128%nat) by (intros v; rewrite length_memset; rewrite Hu; lia).
    rewrite fill_big by (rewrite length_memset; rewrite Hm; lia); split; reflexivity.
Qed.

Lemma shavite_big_run c chunks ub n iv out d : length (buf c) = 128%nat -> words 8 (concat chunks) -> 0 <= n < 8 -> (out = 12 \/ out = 16)%nat -> d = 32 * Z.of_nat out ->
  length iv = 16%nat -> flat_map sph_enc32le iv = shavite_iv compress512 128 64 d ->
  let r := shavite_big_close (fold_left shavite_big_core chunks (shavite_big_init c iv)) ub n out in
  snd r = shavite_spec d (concat chunks) ub n /\ length (buf (fst r)) = 128%nat.
Proof.
  intros Hb Hw Hn Hout Hd Hiv Eiv r; set (c' := fold_left shavite_big_core chunks (shavite_big_init c iv)) in *.
  assert (Hr : represents 128 big_bytes big_at big_wf (st (shavite_big_init c iv)) (shavite_iv compress512 128 64 d, 0)) by (rewrite <- Eiv; repeat split; auto; cbn; lia).
  destruct (shavite_close_spec 128 16 compress512 c512 big_bytes big_at big_wf big_incr big_zero big_add big_enc ltac:(lia) big_cmp_spec big_incr_spec big_add_spec
    (fun s H => conj eq_refl (conj eq_refl H)) big_enc_spec (shavite_big_init c iv) _ chunks ub n d Hb eq_refl Hr Hw Hn) as (E1 & E2 & E3).
  destruct (loops_ok 128 (process c512 big_incr) chunks (shavite_big_init c iv) ltac:(lia) Hb eq_refl) as [Hb' Hp'].
  change (fold_left (loop 128 (process c512 big_incr)) chunks (shavite_big_init c iv)) with c' in E1, E2, E3, Hb', Hp'.
  destruct (shavite_big_close_eq c' ub n out Hb' Hp' Hn) as [F1 F2]; replace d with (Z.of_nat out << 5) in E1, E2, E3 by (rewrite Z.shiftl_mul_pow2; lia).
  unfold r; rewrite F1, F2, output32 by (rewrite E2; lia); split; [|exact E3]; fold (big_bytes (snd (big_close c' ub n (Z.of_nat out << 5)))); rewrite E1.
  replace (Z.of_nat out << 5) with d by (rewrite Z.shiftl_mul_pow2; lia); unfold shavite_spec; replace (d <=? 256) with false by (subst d; destruct Hout; subst out; reflexivity).
  cbv zeta; f_equal; subst d; destruct Hout; subst out; reflexivity.
Qed.

(** The initial values of the code: two runs of it give them. *)
Definition start256 (d : Z) : small_state := c256 (le_split 2 d ++ repeat 0 62) (c256 (repeat 0 64) (Small (repeat 0 8) 0 0)).
Definition start512 (d : Z) : big_state := c512 (le_split 2 d ++ repeat 0 126) (c512 (repeat 0 128) (Big (repeat 0 16) 0 0 0 0)).

Lemma start256_spec d : small_bytes (start256 d) = shavite_iv compress256 64 32 d.
Proof.
  destruct (small_cmp_spec 0 (repeat 0 64) (Small (repeat 0 8) 0 0)) as (E1 & E2 & E3); [split; reflexivity | reflexivity | reflexivity | apply words_repeat; unfold inw; lia |].
  unfold shavite_iv, start256; change (repeat 0 32) with (small_bytes (Small (repeat 0 8) 0 0)); rewrite <- E1.
  refine (proj1 (small_cmp_spec 0 _ _ E2 E3 _ _)); [reflexivity|]; apply words_app; [apply le_split_bytes | apply words_repeat; unfold inw; lia].
Qed.

Lemma start512_spec d : big_bytes (start512 d) = shavite_iv compress512 128 64 d.
Proof.
  destruct (big_cmp_spec 0 (repeat 0 128) (Big (repeat 0 16) 0 0 0 0)) as (E1 & E2 & E3); [reflexivity | reflexivity | reflexivity | apply words_repeat; unfold inw; lia |].
  unfold shavite_iv, start512; change (repeat 0 64) with (big_bytes (Big (repeat 0 16) 0 0 0 0)); rewrite <- E1.
  refine (proj1 (big_cmp_spec 0 _ _ E2 E3 _ _)); [reflexivity|]; apply words_app; [apply le_split_bytes | apply words_repeat; unfold inw; lia].
Qed.

Lemma shavite_ivs :
  flat_map sph_enc32le IV224 = shavite_iv compress256 64 32 224 /\ flat_map sph_enc32le IV256 = shavite_iv compress256 64 32 256
  /\ flat_map sph_enc32le IV384 = shavite_iv compress512 128 64 384 /\ flat_map sph_enc32le IV512 = shavite_iv compress512 128 64 512.
Proof. rewrite <- !start256_spec, <- !start512_spec; split; [|split; [|split]]; vm_compute; reflexivity. Qed.

(** C36: Whatever the context held before [init], and however the message is cut
    into chunks, the four variants return the SHAvite-3 digest of the message
    with its extra bits: the unrolled rounds, each with its own names for the
    words of the subkeys, expand the message and the counter as the recurrences
    of the specification do and apply the Feistel network to the state; the
    constants [IV224] to [IV512] are the specified initial values; the counter
    of message bits, in two or four words with its carries, is right in every
    block, and zero in one that holds padding only. *)
Theorem shavite_correct (c : sctx small_state) (c' : sctx big_state) (chunks : list (list Z)) (ub n : Z) :
  length (buf c) = 64%nat -> length (buf c') = 128%nat -> words 8 (concat chunks) -> 0 <= n < 8 ->
  let m := concat chunks in
  fst (sph_shavite224_addbits_and_close (fold_left sph_shavite224 chunks (sph_shavite224_init c)) ub n) = shavite_spec 224 m ub n
  /\ fst (sph_shavite256_addbits_and_close (fold_left sph_shavite256 chunks (sph_shavite256_init c)) ub n) = shavite_spec 256 m ub n
  /\ fst (sph_shavite384_addbits_and_close (fold_left sph_shavite384 chunks (sph_shavite384_init c')) ub n) = shavite_spec 384 m ub n
  /\ fst (sph_shavite512_addbits_and_close (fold_left sph_shavite512 chunks (sph_shavite512_init c')) ub n) = shavite_spec 512 m ub n.
Proof.
  intros Hb Hb' Hw Hn m; destruct shavite_ivs as (V1 & V2 & V3 & V4).
  pose proof (shavite_small_run c chunks ub n IV224 7 224 Hb Hw Hn ltac:(auto) eq_refl eq_refl V1) as [E1 _]; pose proof (shavite_small_run c chunks ub n IV256 8 256 Hb Hw Hn ltac:(auto) eq_refl eq_refl V2) as [E2 _].
  pose proof (shavite_big_run c' chunks ub n IV384 12 384 Hb' Hw Hn ltac:(auto) eq_refl eq_refl V3) as [E3 _]; pose proof (shavite_big_run c' chunks ub n IV512 16 512 Hb' Hw Hn ltac:(auto) eq_refl eq_refl V4) as [E4 _].
  exact (conj (eq_trans (closed_fst _ _) E1) (conj (eq_trans (closed_fst _ _) E2) (conj (eq_trans (closed_fst _ _) E3) (eq_trans (closed_fst _ _) E4)))).
Qed.

Lemma shavite_correct_witness :
  let c := Ctx (repeat 0xAA 128) 5 (Big [1; 2] 3 4 5 6) in
  let chunks := [[1; 2; 3]; repeat 7 270; [9]] in
  fst (sph_shavite512_addbits_and_close (fold_left sph_shavite512 chunks (sph_shavite512_init c)) 0xA0 3) = shavite_spec 512 (concat chunks) 0xA0 3.
Proof.
  intros c chunks; refine (proj2 (proj2 (proj2 (shavite_correct (Ctx (repeat 0xAA 64) 0 (Small [] 0 0)) c chunks 0xA0 3 _ _ _ _)))); [reflexivity | reflexivity | words_dec | lia].
Defined.

(** ** SHAvite-3-512 behind the common interface *)
Lemma shavite_close_shape c ub n : words 8 (snd (shavite_big_close c ub n 16)) /\ length (snd (shavite_big_close c ub n 16)) = 64%nat.
Proof.
  unfold shavite_big_close; cbv zeta; destruct (if _ && _ then _ else _) as [[b p] s]; cbn [snd]; split; [apply words_flat_map; auto with word|].
  rewrite (length_flat_map_const _ 4), length_seq by reflexivity; reflexivity.
Qed.

Lemma shavite_digest_shape m : words 8 (shavite_spec 512 (map u8 m) 0 0) /\ length (shavite_spec 512 (map u8 m) 0 0) = 64%nat.
Proof.
  destruct (shavite_big_run (Ctx (repeat 0 128) 0 (Big [] 0 0 0 0)) [map u8 m] 0 0 IV512 16 512 eq_refl) as [E _];
    [cbn [concat]; rewrite app_nil_r; apply words_map; exact u8_inw | lia | auto | reflexivity | reflexivity | apply shavite_ivs |].
  cbn [concat] in E; rewrite app_nil_r in E; rewrite <- E; apply shavite_close_shape.
Qed.

#[export, refine] Instance shavite512_hash : StreamHash := {|
  hctx := sctx big_state;
  hctx_ok c := length (buf c) = 128%nat;
  hinit := sph_shavite512_init;
  hupdate := sph_shavite512;
  hclose := sph_shavite512_close;
  hlen := 64;
  digest m := shavite_spec 512 (map u8 m) 0 0
|}.
Proof.
  - intros c H; exact H.
  - intros c chunks H Hw Hm; rewrite words_map_u8 by exact Hw.
    destruct (shavite_big_run c chunks 0 0 IV512 16 512 H Hw ltac:(lia) ltac:(auto) eq_refl eq_refl (proj2 (proj2 (proj2 shavite_ivs)))) as [E1 E2].
    unfold sph_shavite512_close; rewrite closed_fst, closed_snd; exact (conj E1 E2).
  - intros m; apply shavite_digest_shape.
  - intros m; apply shavite_digest_shape.
Defined.
