(* ===== verification/GroestlSpec.v ===== *)
(** * GroestlSpec: Groestl and its implementation

    The specification: two permutations of a matrix of bytes built from the
    S-box of the AES, shifts of the rows and a circulant matrix over the field
    of 256 elements; the compression function, the output transformation and
    the padding.  The code of Groestl.v, with its tables on columns, computes
    it. *)

From Stdlib Require Import ZArith List Lia Bool.
From S2P Require Import Prelude SphTypes Stream HashLib Aes Groestl.
Import ListNotations.

Open Scope Z_scope.
Open Scope word_scope.

(** ** The specification

    A matrix is the list of its columns, each of eight bytes. *)
Abbreviation matrix := (list (list Z)).
Definition xorc (a b : list Z) : list Z := map2 Z.lxor a b.
Definition xorm (a b : matrix) : matrix := map2 xorc a b.
Definition xor_all (l : list Z) : Z := fold_left Z.lxor l 0.

(** MixBytes: the product with the circulant matrix of [circ]. *)
Definition circ : list Z := [2; 2; 3; 4; 5; 3; 5; 7].
Definition coeff (i k : nat) : Z := nth ((k + 8 - i) mod 8) circ 0.
Definition mix_bytes (c : list Z) : list Z := map (fun i => xor_all (map (fun k => gmul (nth k c 0) (coeff i k)) (seq 0 8))) (seq 0 8).

(** SubBytes and ShiftBytes: row [i] is shifted to the left by [sigma] of [i]. *)
Definition shift_bytes (v : nat) (sigma : list nat) (m : matrix) : matrix :=
  map (fun j => map (fun i => aes_sbox (nth i (nth ((j + nth i sigma 0%nat) mod v)%nat m []) 0)) (seq 0 8)) (seq 0 v).

(** The constants of round [r] in column [j]. *)
Definition const_P (j : nat) (r : Z) : list Z := ((Z.of_nat j << 4) .^ r) :: repeat 0 7.
Definition const_Q (j : nat) (r : Z) : list Z := repeat 0xFF 7 ++ [0xFF .^ (Z.of_nat j << 4) .^ r].

Record permutation := Perm { columns_of : nat; shifts : list nat; constants : nat -> Z -> list Z; rounds_of : nat }.
Definition P512 := Perm 8 [0; 1; 2; 3; 4; 5; 6; 7]%nat const_P 10.
Definition Q512 := Perm 8 [1; 3; 5; 7; 0; 2; 4; 6]%nat const_Q 10.
Definition P1024 := Perm 16 [0; 1; 2; 3; 4; 5; 6; 11]%nat const_P 14.
Definition Q1024 := Perm 16 [1; 3; 5; 11; 0; 2; 4; 6]%nat const_Q 14.

Definition perm_round (p : permutation) (m : matrix) (r : Z) : matrix :=
  let v := columns_of p in
  map mix_bytes (shift_bytes v (shifts p) (xorm m (map (fun j => constants p j r) (seq 0 v)))).
Definition permute (p : permutation) (m : matrix) : matrix := fold_left (perm_round p) (map Z.of_nat (seq 0 (rounds_of p))) m.

Definition columns (v : nat) (l : list Z) : matrix := map (fun j => firstn 8 (skipn (8 * j) l)) (seq 0 v).
Definition groestl_f (P Q : permutation) (b : list Z) (h : matrix) : matrix :=
  let m := columns (columns_of P) b in
  xorm h (xorm (permute P (xorm m h)) (permute Q m)).

(** The initial value is the length of the digest; the padding a one, zeros, and
    the number of blocks on eight bytes. *)
Definition groestl_iv (v : nat) (d : Z) : matrix := columns v (repeat 0 (8 * v - 2) ++ rev (le_split 2 d)).
Definition groestl_pad (blen : nat) (m : list Z) (ub n : Z) : list Z :=
  let p := (length m mod blen)%nat in
  let len := if (p <? blen - 8)%nat then (blen - p)%nat else (2 * blen - p)%nat in
  m ++ last_byte ub n :: repeat 0 (len - 9) ++ rev (le_split 8 (Z.of_nat ((length m + len) / blen))).

Definition groestl_spec (d : Z) (m : list Z) (ub n : Z) : list Z :=
  let '(P, Q) := if d <=? 256 then (P512, Q512) else (P1024, Q1024) in
  let v := columns_of P in
  let h := fst (absorb (8 * v) (groestl_f P Q) (groestl_iv v d) (groestl_pad (8 * v) m ub n)) in
  let out := concat (xorm h (permute P h)) in
  skipn (8 * v - Z.to_nat (d / 8)) out.

(** ** The tables *)
Definition column_ok (T : list Z) (k : nat) (x : Z) : bool :=
  let e := at_T T x in
  let s := aes_sbox x in
  forallb (fun p => fst p =? snd p) (combine (sph_enc64le e) (map (fun i => gmul s (coeff i k)) (seq 0 8))) && (e <? 2 ^ 64) && (0 <=? e).
Definition tables : list (list Z) := [T0; T1; T2; T3; T4; T5; T6; T7].

Lemma columns_ok : forallb (fun k => forallb (column_ok (nth k tables []) k) (map Z.of_nat (seq 0 256))) (seq 0 8) = true.
Proof. vm_compute; reflexivity. Qed.

Lemma column_spec k x : (k < 8)%nat -> 0 <= x < 256 -> 
  sph_enc64le (at_T (nth k tables []) x) = map (fun i => gmul (aes_sbox x) (coeff i k)) (seq 0 8) /\ inw 64 (at_T (nth k tables []) x).
Proof.
  intros Hk Hx; pose proof (proj1 (forallb_forall _ _) columns_ok k ltac:(apply in_seq; lia)) as H; cbv beta in H.
  assert (Hin : In x (map Z.of_nat (seq 0 256))) by (apply in_map_iff; exists (Z.to_nat x); split; [lia | apply in_seq; lia]).
  apply (proj1 (forallb_forall _ _) H) in Hin; unfold column_ok in Hin; cbv zeta in Hin; revert Hin; generalize (at_T (nth k tables []) x); intros e.
  cbn [seq map combine forallb sph_enc64le fst snd]; rewrite !andb_true_iff, !Z.eqb_eq, Z.ltb_lt, Z.leb_le; intros H0; unfold sph_enc64le, inw; intuition congruence.
Qed.

(** Byte [i] of a word. *)
Definition B64 (i : nat) (x : Z) : Z :=
  nth i [B64_0 x; B64_1 x; B64_2 x; B64_3 x; B64_4 x; B64_5 x; B64_6 x; B64_7 x] 0.

Lemma B64_spec i x : (i < 8)%nat -> inw 64 x -> B64 i x = nth i (sph_enc64le x) 0 /\ 0 <= B64 i x < 256.
Proof.
  intros Hi Hx; assert (E7 : B64_7 x = u8 (x >> 56)).
  { unfold B64_7; rewrite u8_trunc, trunc_small; [reflexivity | lia |]; unfold inw in *; rewrite Z.shiftr_div_pow2 by lia; split; [apply Z.div_pos; lia | apply Z.div_lt_upper_bound; lia]. }
  unfold B64; rewrite E7; do 8 (destruct i as [|i]; [split; [reflexivity | apply u8_inw]|]); lia.
Qed.

(** The words [b0] to [b7] give one byte each to a column. *)
Definition gather (a : list Z) (b : list nat) : list Z := map (fun i => aes_sbox (nth i (sph_enc64le (word a (nth i b 0%nat))) 0)) (seq 0 8).

#[local] Opaque gmul aes_sbox T0 T1 T2 T3 T4 T5 T6 T7.

Lemma rstt_spec a b0 b1 b2 b3 b4 b5 b6 b7 : words 64 a ->
  sph_enc64le (RSTT a b0 b1 b2 b3 b4 b5 b6 b7) = mix_bytes (gather a [b0; b1; b2; b3; b4; b5; b6; b7]) /\ inw 64 (RSTT a b0 b1 b2 b3 b4 b5 b6 b7).
Proof.
  intros Ha; assert (Hw : forall i, inw 64 (word a i)) by (intros i; apply words_nth; [lia | assumption]).
  assert (HB : forall k i, (k < 8)%nat -> sph_enc64le (at_T (nth k tables []) (B64 k (word a i))) = map (fun j => gmul (aes_sbox (nth k (sph_enc64le (word a i)) 0)) (coeff j k)) (seq 0 8)
    /\ inw 64 (at_T (nth k tables []) (B64 k (word a i)))).
  { intros k i Hk; destruct (B64_spec k (word a i) Hk (Hw i)) as [E R]; rewrite <- E; apply column_spec; assumption. }
  destruct (HB 0%nat b0 ltac:(lia)) as [E0 I0], (HB 1%nat b1 ltac:(lia)) as [E1 I1], (HB 2%nat b2 ltac:(lia)) as [E2 I2], (HB 3%nat b3 ltac:(lia)) as [E3 I3].
  destruct (HB 4%nat b4 ltac:(lia)) as [E4 I4], (HB 5%nat b5 ltac:(lia)) as [E5 I5], (HB 6%nat b6 ltac:(lia)) as [E6 I6], (HB 7%nat b7 ltac:(lia)) as [E7 I7].
  cbn [nth tables B64] in E0, E1, E2, E3, E4, E5, E6, E7, I0, I1, I2, I3, I4, I5, I6, I7; unfold RSTT; split; [|auto 10 with word].
  rewrite !enc64_lxor, E0, E1, E2, E3, E4, E5, E6, E7; unfold mix_bytes, gather, xor_all; generalize gmul aes_sbox coeff; intros g f c; cbn [map seq nth map2 fold_left]; rewrite !Z.lxor_0_l; reflexivity.
Qed.

Lemma rbtt_rstt : RBTT = RSTT.
Proof. unfold RBTT, RSTT; reflexivity. Qed.

Lemma rbtt_spec a b0 b1 b2 b3 b4 b5 b6 b7 : words 64 a ->
  sph_enc64le (RBTT a b0 b1 b2 b3 b4 b5 b6 b7) = mix_bytes (gather a [b0; b1; b2; b3; b4; b5; b6; b7]) /\ inw 64 (RBTT a b0 b1 b2 b3 b4 b5 b6 b7).
Proof. exact (rstt_spec a b0 b1 b2 b3 b4 b5 b6 b7). Qed.

(** ** Words and columns *)
Abbreviation cols := (map sph_enc64le).

Lemma cols_xor a : forall b, cols (map2 Z.lxor a b) = xorm (cols a) (cols b).
Proof. induction a as [|x a IH]; intros [|y b]; cbn [map map2]; [reflexivity..|]; unfold xorm in *; cbn [map2]; now rewrite IH, enc64_lxor. Qed.

Lemma nth_cols a i : (i < length a)%nat -> nth i (cols a) [] = sph_enc64le (word a i).
Proof. intros Hi; rewrite (nth_indep _ [] (sph_enc64le 0)) by (rewrite length_map; exact Hi); apply map_nth. Qed.

Lemma cols_read v b : words 8 b -> (8 * v <= length b)%nat -> cols (read_words sph_dec64le 8 v b) = columns v b.
Proof.
  intros Hb Hl; unfold read_words, columns; rewrite map_map; apply map_ext_in; intros j Hj; apply in_seq in Hj.
  rewrite Nat.mul_comm; apply (enc_dec 8 sph_dec64le sph_enc64le sph_dec64le_combine sph_enc64le_split); [now apply words_skipn | rewrite length_skipn; lia].
Qed.

(** A round, from the columns that the code names. *)
Definition gathered (v : nat) (sigma : list nat) (a : list Z) : list (list Z) := map (fun j => gather a (map (fun s => (j + s) mod v)%nat sigma)) (seq 0 v).

Lemma gathered_spec v sigma a : length a = v -> (0 < v)%nat -> length sigma = 8%nat -> gathered v sigma a = shift_bytes v sigma (cols a).
Proof.
  intros Ha Hv Hs; unfold gathered, shift_bytes, gather; apply map_ext; intros j; apply map_ext_in; intros i Hi; apply in_seq in Hi.
  rewrite nth_cols by (rewrite Ha; apply Nat.mod_upper_bound; lia); do 4 f_equal.
  rewrite (nth_indep _ 0%nat ((j + 0) mod v)%nat) by (rewrite length_map; lia); apply (map_nth (fun s => (j + s) mod v)%nat).
Qed.

Lemma words_xor a : forall b, words 64 a -> words 64 b -> words 64 (map2 Z.lxor a b).
Proof. induction a as [|x a IH]; intros [|y b] Ha Hb; cbn [map2]; try constructor; inversion Ha; inversion Hb; subst; [auto with word | now apply IH]. Qed.

(** The constants. *)
Definition consts_ok (mac : Z -> Z -> Z) (con : nat -> Z -> list Z) : bool :=
  forallb (fun r => forallb (fun j => let e := mac (16 * Z.of_nat j) r in
    forallb (fun p => fst p =? snd p) (combine (sph_enc64le e) (con j r)) && (length (con j r) =? 8)%nat && (0 <=? e) && (e <? 2 ^ 64)) (seq 0 16)) (map Z.of_nat (seq 0 14)).

Lemma consts : consts_ok PC64 const_P = true /\ consts_ok QC64 const_Q = true.
Proof. split; vm_compute; reflexivity. Qed.

Lemma consts_spec mac con j r : consts_ok mac con = true -> (j < 16)%nat -> 0 <= r < 14 -> sph_enc64le (mac (16 * Z.of_nat j) r) = con j r /\ inw 64 (mac (16 * Z.of_nat j) r).
Proof.
  intros H Hj Hr; unfold consts_ok in H; rewrite forallb_forall in H.
  specialize (H r ltac:(apply in_map_iff; exists (Z.to_nat r); split; [lia | apply in_seq; lia])); rewrite forallb_forall in H; specialize (H j ltac:(apply in_seq; lia)); cbv zeta in H.
  revert H; generalize (mac (16 * Z.of_nat j) r) (con j r); intros e l; rewrite !andb_true_iff, Nat.eqb_eq, Z.leb_le, Z.ltb_lt; intros [[[H Hl] H0] H1]; split; [|split; assumption].
  do 8 (destruct l as [|? l]; [discriminate Hl|]); destruct l; [|discriminate Hl]; cbn [combine sph_enc64le forallb fst snd] in H; rewrite !andb_true_iff, !Z.eqb_eq in H; unfold sph_enc64le; intuition congruence.
Qed.

(** ** Rounds and permutations *)
Definition rstt_at (a : list Z) (b : list nat) : Z :=
  RSTT a (nth 0 b 0%nat) (nth 1 b 0%nat) (nth 2 b 0%nat) (nth 3 b 0%nat) (nth 4 b 0%nat) (nth 5 b 0%nat) (nth 6 b 0%nat) (nth 7 b 0%nat).
Definition table_round (v : nat) (sigma : list nat) (mac : Z -> Z -> Z) (a : list Z) (r : Z) : list Z :=
  let a := map2 Z.lxor a (map (fun j => mac (16 * Z.of_nat j) r) (seq 0 v)) in
  map (fun j => rstt_at a (map (fun s => (j + s) mod v)%nat sigma)) (seq 0 v).

Lemma rounds_table a r : ROUND_SMALL_P a r = table_round 8 (shifts P512) PC64 a r /\ ROUND_SMALL_Q a r = table_round 8 (shifts Q512) QC64 a r
  /\ ROUND_BIG_P a r = table_round 16 (shifts P1024) PC64 a r /\ ROUND_BIG_Q a r = table_round 16 (shifts Q1024) QC64 a r.
Proof.
  unfold ROUND_SMALL_P, ROUND_SMALL_Q, ROUND_BIG_P, ROUND_BIG_Q, table_round, rstt_at; rewrite rbtt_rstt; generalize RSTT PC64 QC64; intros f p q; repeat split.
Qed.

Lemma rstt_at_spec a b : words 64 a -> length b = 8%nat -> sph_enc64le (rstt_at a b) = mix_bytes (gather a b) /\ inw 64 (rstt_at a b).
Proof. intros Ha Hb; do 8 (destruct b as [|? b]; [discriminate Hb|]); destruct b; [|discriminate Hb]; now apply rstt_spec. Qed.

Section Permutation.
Context (p : permutation) (mac : Z -> Z -> Z).
Context (size_ok : (0 < columns_of p <= 16)%nat) (shifts_ok : length (shifts p) = 8%nat) (mac_ok : consts_ok mac (constants p) = true) (rounds_ok : (rounds_of p <= 14)%nat).
Let v := columns_of p.
Abbreviation rnd := (table_round v (shifts p) mac).

Lemma table_round_spec a r : words 64 a -> length a = v -> 0 <= r < 14 ->
  cols (rnd a r) = perm_round p (cols a) r /\ words 64 (rnd a r) /\ length (rnd a r) = v.
Proof.
  intros Ha Hl Hr; unfold perm_round, table_round; fold v; cbv zeta; set (K := map (fun j => mac (16 * Z.of_nat j) r) (seq 0 v)); set (a' := map2 Z.lxor a K).
  assert (HK : cols K = map (fun j => constants p j r) (seq 0 v) /\ words 64 K).
  { unfold K; split; [rewrite map_map; apply map_ext_in | apply Forall_map, Forall_forall]; intros j Hj; apply in_seq in Hj; apply (consts_spec mac (constants p) j r mac_ok); unfold v in *; lia. }
  destruct HK as [HK HKw]; assert (Ha' : words 64 a') by now apply words_xor.
  assert (Hl' : length a' = v) by (unfold a'; rewrite length_map2, Hl; unfold K; rewrite length_map, length_seq; lia).
  rewrite <- HK, <- cols_xor; fold a'; rewrite <- gathered_spec by (assumption || unfold v; lia); unfold gathered.
  assert (Hm : forall j : nat, length (map (fun s => ((j + s) mod v)%nat) (shifts p)) = 8%nat) by (intros j; rewrite length_map; assumption).
  split; [|split; [|rewrite length_map, length_seq; reflexivity]].
  - rewrite !map_map; apply map_ext; intros j; now apply rstt_at_spec.
  - apply Forall_map, Forall_forall; intros j _; now apply rstt_at_spec.
Qed.

Lemma table_rounds_spec rs : forall a, words 64 a -> length a = v -> Forall (fun r => 0 <= r < 14) rs ->
  cols (fold_left rnd rs a) = fold_left (perm_round p) rs (cols a) /\ words 64 (fold_left rnd rs a) /\ length (fold_left rnd rs a) = v.
Proof.
  induction rs as [|r rs IH]; intros a Ha Hl Hr; [auto|]; inversion Hr; subst; destruct (table_round_spec a r) as (E1 & E2 & E3); [assumption..|].
  cbn [fold_left]; rewrite <- E1; now apply IH.
Qed.

Lemma table_permute a : words 64 a -> length a = v ->
  let a' := fold_left rnd (map Z.of_nat (seq 0 (rounds_of p))) a in cols a' = permute p (cols a) /\ words 64 a' /\ length a' = v.
Proof. intros Ha Hl; apply table_rounds_spec; [assumption..|]; apply Forall_map, Forall_forall; intros r Hr; apply in_seq in Hr; lia. Qed.
End Permutation.

#[local] Opaque ROUND_SMALL_P ROUND_SMALL_Q ROUND_BIG_P ROUND_BIG_Q table_round.

Lemma pairs_loop (R R' : list Z -> Z -> list Z) n a : (forall a r, R a r = R' a r) ->
  fold_left (fun a r => R (R a (r + 0)) (r + 1)) (map (fun k => 2 * Z.of_nat k) (seq 0 n)) a = fold_left R' (map Z.of_nat (seq 0 (2 * n))) a.
Proof.
  intros E; induction n as [|n IH]; [reflexivity|]; replace (2 * S n)%nat with (S (S (2 * n))) by lia.
  rewrite !seq_S, !map_app, !fold_left_app, IH; cbn [map fold_left]; rewrite !E; f_equal; [f_equal|]; lia.
Qed.

Lemma perms_table a :
  PERM_SMALL_P a = fold_left (table_round 8 (shifts P512) PC64) (map Z.of_nat (seq 0 10)) a
  /\ PERM_SMALL_Q a = fold_left (table_round 8 (shifts Q512) QC64) (map Z.of_nat (seq 0 10)) a
  /\ PERM_BIG_P a = fold_left (table_round 16 (shifts P1024) PC64) (map Z.of_nat (seq 0 14)) a
  /\ PERM_BIG_Q a = fold_left (table_round 16 (shifts Q1024) QC64) (map Z.of_nat (seq 0 14)) a.
Proof.
  split; [|split; [|split]]; [refine (pairs_loop ROUND_SMALL_P _ 5 a _) | refine (pairs_loop ROUND_SMALL_Q _ 5 a _) | refine (pairs_loop ROUND_BIG_P _ 7 a _) | refine (pairs_loop ROUND_BIG_Q _ 7 a _)];
    intros; apply rounds_table.
Qed.

Definition computes (P : permutation) (f : list Z -> list Z) : Prop :=
  forall a, words 64 a -> length a = columns_of P -> cols (f a) = permute P (cols a) /\ words 64 (f a) /\ length (f a) = columns_of P.

Lemma perms_compute : computes P512 PERM_SMALL_P /\ computes Q512 PERM_SMALL_Q /\ computes P1024 PERM_BIG_P /\ computes Q1024 PERM_BIG_Q.
Proof.
  destruct consts as [HP HQ].
  split; [|split; [|split]]; intros a Ha Hl; destruct (perms_table a) as (E1 & E2 & E3 & E4);
    [rewrite E1; apply (table_permute P512 PC64) | rewrite E2; apply (table_permute Q512 QC64) | rewrite E3; apply (table_permute P1024 PC64) | rewrite E4; apply (table_permute Q1024 QC64)];
    (assumption || reflexivity || (cbn; lia)).
Qed.

#[local] Opaque PERM_SMALL_P PERM_SMALL_Q PERM_BIG_P PERM_BIG_Q.

(** ** Both sizes *)
Lemma skipn_enc64 k : forall l, skipn (8 * k) (flat_map sph_enc64le l) = flat_map sph_enc64le (skipn k l).
Proof.
  induction k as [|k IH]; intros [|x l]; [reflexivity | reflexivity | now rewrite !skipn_nil|].
  replace (8 * S k)%nat with (length (sph_enc64le x) + 8 * k)%nat by (cbn [sph_enc64le length]; lia); cbn [flat_map skipn].
  rewrite skipn_app, skipn_all2 by lia; rewrite Nat.add_comm, Nat.add_sub; apply IH.
Qed.

Lemma words_from (l : list Z) k : map (fun u => nth (u + k) l 0) (seq 0 (length l - k)) = skipn k l.
Proof.
  apply (nth_ext _ _ 0 0); [now rewrite length_map, length_seq, length_skipn|]; rewrite length_map, length_seq; intros i Hi.
  rewrite nth_skipn, (nth_indep _ 0 (nth (0 + k) l 0)), (map_nth (fun u => nth (u + k) l 0)), seq_nth by (rewrite ?length_map, ?length_seq; assumption); f_equal; lia.
Qed.

Lemma output64 l k out : (out + 8 * k <= 8 * length l)%nat ->
  firstn out (skipn (8 * (length l - k) - out) (flat_map (fun u => sph_enc64le (nth (u + k) l 0)) (seq 0 (length l - k)))) = skipn (8 * length l - out) (flat_map sph_enc64le l).
Proof.
  intros Ho; replace (flat_map (fun u => sph_enc64le (nth (u + k) l 0)) (seq 0 (length l - k))) with (flat_map sph_enc64le (map (fun u => nth (u + k) l 0) (seq 0 (length l - k))))
    by (rewrite !flat_map_concat_map, map_map; reflexivity).
  rewrite words_from, <- skipn_enc64, skipn_skipn; replace (8 * (length l - k) - out + 8 * k)%nat with (8 * length l - out)%nat by lia.
  apply firstn_all2; rewrite length_skipn, (length_flat_map_const _ 8) by reflexivity; lia.
Qed.

Section Variant.
Context (P Q : permutation) (permP permQ : list Z -> list Z).
Context (P_ok : computes P permP) (Q_ok : computes Q permQ) (same_size : columns_of Q = columns_of P) (size_ok : (2 <= columns_of P)%nat).
Let v := columns_of P.
Let blen := (8 * v)%nat.

Definition compress (b H : list Z) : list Z :=
  let m := read_words sph_dec64le 8 v b in
  let g := map2 Z.lxor m H in
  let g := permP g in
  let m := permQ m in
  map2 Z.lxor H (map2 Z.lxor g m).
Definition process (b : list Z) (s : groestl_state) : groestl_state := GState (compress b (wide s)) (SPH_T64 (count s + 1)).
Definition represents (s : groestl_state) (h : matrix) : Prop := cols (wide s) = h /\ words 64 (wide s) /\ length (wide s) = v.

Lemma groestl_process_represents b s h : length b = blen -> words 8 b -> represents s h -> represents (process b s) (groestl_f P Q b h).
Proof.
  intros Hl Hb (E & Hw & Hs); unfold represents, process, compress, groestl_f; cbn [wide]; fold v; cbv zeta; set (m := read_words sph_dec64le 8 v b).
  assert (Em : cols m = columns v b) by (apply cols_read; [assumption | unfold blen in *; lia]); assert (Hm : words 64 m) by (apply words_read_words; auto with word).
  assert (Hml : length m = v) by (unfold m, read_words; rewrite length_map, length_seq; reflexivity).
  destruct (P_ok (map2 Z.lxor m (wide s))) as (P1 & P2 & P3); [now apply words_xor | rewrite length_map2, Hml, Hs; apply Nat.min_id|].
  destruct (Q_ok m Hm) as (Q1 & Q2 & Q3); [now rewrite same_size|].
  rewrite !cols_xor, P1, Q1, cols_xor, E, Em; split; [reflexivity|]; split; [auto using words_xor|]; rewrite !length_map2, P3, Q3, same_size, Hs; fold v; lia.
Qed.

Definition close_with (sc : groestl_context) (ub n : Z) (out_len : nat) : groestl_context * list Z :=
  let p := ptr sc in
  let z := 0x80 >> n in
  let pad0 := ((ub .& SPH_T32 (- z)) .| z) .& 0xFF in
  let '(pad_len, k) :=
    if (p <? blen - 8)%nat then (blen - p, SPH_T64 (count (st sc) + 1))%nat
    else (2 * blen - p, SPH_T64 (count (st sc) + 2))%nat in
  let pad := pad0 :: repeat 0 (pad_len - 9) ++ sph_enc64be k in
  let sc := core blen process sc pad in
  let H := map2 Z.lxor (wide (st sc)) (permP (wide (st sc))) in
  let pad := flat_map (fun u => sph_enc64le (nth (u + v / 2) H 0)) (seq 0 (v / 2)) in
  (sc, firstn out_len (skipn (8 * (v / 2) - out_len) pad)).

Lemma pad_blocks len p k : (len mod blen = p)%nat -> (p <= k * blen)%nat -> ((len + (k * blen - p)) / blen = len / blen + k)%nat.
Proof.
  intros Hp Hk; pose proof (Nat.div_mod_eq len blen) as E; rewrite Hp in E; replace (len + (k * blen - p))%nat with (len / blen * blen + k * blen)%nat by lia.
  rewrite <- Nat.mul_add_distr_r; apply Nat.div_mul; unfold blen, v; lia.
Qed.

Lemma groestl_close_spec c h0 chunks ub n out : length (buf c) = blen -> ptr c = 0%nat -> represents (st c) h0 -> count (st c) = 0 -> words 8 (concat chunks) -> 0 <= n < 8 ->
  (v = 2 * (v / 2))%nat -> (out <= 8 * (v / 2))%nat ->
  let r := close_with (fold_left (core blen process) chunks c) ub n out in
  let h := fst (absorb blen (groestl_f P Q) h0 (groestl_pad blen (concat chunks) ub n)) in
  snd r = skipn (blen - out) (concat (xorm h (permute P h))) /\ length (buf (fst r)) = blen.
Proof.
  intros Hb Hp Hr Hc Hw Hn Hv Ho r h; set (m := concat chunks) in *; assert (Hbl : (16 <= blen)%nat) by (unfold blen, v; lia).
  assert (Hloc : forall b s, length b = blen -> process (firstn blen b) s = process b s) by (intros b s Hl; now rewrite firstn_all2 by lia).
  assert (Hok : ctx_ok blen blen c) by (split; [exact Hb | lia]).
  destruct (core_many_refines blen process ltac:(lia) blen ltac:(lia) Hloc chunks c Hok) as [[Hb' Hp'] Ha]; set (c' := fold_left (core blen process) chunks c) in *.
  unfold ctx_abs in Ha; rewrite Hp in Ha; cbn [fst snd firstn app] in Ha; fold m in Ha.
  assert (Ep : ptr c' = (length m mod blen)%nat) by (apply (absorb_rest_ptr blen process (st c) m (buf c')); [lia | lia | now rewrite <- Ha]).
  assert (Ec : trunc 64 (count (st c')) = trunc 64 (Z.of_nat (length m / blen))).
  { pose proof (absorb_blocks blen process count (st c) m ltac:(lia) ltac:(intros; unfold process; cbn [count]; apply SPH_T64_trunc)) as E; rewrite <- Ha, Hc in E; exact E. }
  assert (Hk : forall k, sph_enc64be (SPH_T64 (count (st c') + Z.of_nat k)) = rev (le_split 8 (Z.of_nat (length m / blen + k)))).
  { intros k; rewrite sph_enc64be_rev, sph_enc64le_split, T64_trunc; f_equal.
    replace (trunc 64 (count (st c') + Z.of_nat k)) with (trunc 64 (Z.of_nat (length m / blen + k))); [apply le_split_trunc; lia|].
    rewrite !trunc_mod in * by lia; rewrite Nat2Z.inj_add, <- Z.add_mod_idemp_l, <- Ec, Z.add_mod_idemp_l by lia; reflexivity. }
  set (len := if (ptr c' <? blen - 8)%nat then (blen - ptr c')%nat else (2 * blen - ptr c')%nat).
  set (pad := last_byte ub n :: repeat 0 (len - 9) ++ rev (le_split 8 (Z.of_nat ((length m + len) / blen)))).
  assert (Ecl : close_with c' ub n out = let sc := core blen process c' pad in let H := map2 Z.lxor (wide (st sc)) (permP (wide (st sc))) in
    (sc, firstn out (skipn (8 * (v / 2) - out) (flat_map (fun u => sph_enc64le (nth (u + v / 2) H 0)) (seq 0 (v / 2)))))).
  { unfold close_with, pad, len; cbv zeta; rewrite pad_byte by assumption; destruct (Nat.ltb_spec (ptr c') (blen - 8)).
    - rewrite (Hk 1%nat : sph_enc64be (SPH_T64 (count (st c') + 1)) = _), <- (pad_blocks (length m) (ptr c') 1), Nat.mul_1_l by lia; reflexivity.
    - rewrite (Hk 2%nat : sph_enc64be (SPH_T64 (count (st c') + 2)) = _), <- (pad_blocks (length m) (ptr c') 2) by lia; reflexivity. }
  assert (Epad : groestl_pad blen m ub n = m ++ pad) by (unfold groestl_pad, pad, len; rewrite <- Ep; reflexivity).
  destruct (core_many_refines blen process ltac:(lia) blen ltac:(lia) Hloc (chunks ++ [pad]) c Hok) as [[Hb2 _] Ha2].
  rewrite fold_left_app in Hb2, Ha2; cbn [fold_left] in Hb2, Ha2; fold c' in Hb2, Ha2; set (c2 := core blen process c' pad) in *.
  rewrite concat_app in Ha2; cbn [concat] in Ha2; rewrite app_nil_r in Ha2; fold m in Ha2; unfold ctx_abs in Ha2; rewrite Hp in Ha2; cbn [fst snd firstn app] in Ha2; rewrite <- Epad in Ha2.
  assert (Hpw : words 8 (groestl_pad blen m ub n)).
  { rewrite Epad; apply words_app; [assumption|]; unfold pad; constructor; [rewrite <- pad_byte by assumption; apply u8_inw|].
    apply words_app; [apply words_repeat; unfold inw; lia | apply Forall_rev, le_split_bytes]. }
  destruct (absorb_sim represents blen process (groestl_f P Q) (st c) h0 (groestl_pad blen m ub n)) as [(R1 & R2 & R3) _];
    [lia | intros; now apply groestl_process_represents | assumption | assumption |].
  rewrite <- Ha2 in R1, R2, R3; cbn [fst] in R1, R2, R3; fold h in R1.
  destruct (P_ok (wide (st c2)) R2 R3) as (P1 & P2 & P3).
  unfold r; rewrite Ecl; cbv zeta; fold c2; cbn [fst snd]; split; [|exact Hb2].
  set (H := map2 Z.lxor (wide (st c2)) (permP (wide (st c2)))); assert (HH : length H = v) by (unfold H; rewrite length_map2, P3, R3; apply Nat.min_id).
  pose proof (output64 H (v / 2) out ltac:(lia)) as E; rewrite HH in E; replace (v - v / 2)%nat with (v / 2)%nat in E by lia; rewrite E; fold blen.
  rewrite flat_map_concat_map; unfold H; rewrite cols_xor, P1, R1; reflexivity.
Qed.
End Variant.

Abbreviation small_close_with := (close_with P512 PERM_SMALL_P PERM_SMALL_Q).
Abbreviation big_close_with := (close_with P1024 PERM_BIG_P PERM_BIG_Q).

Lemma groestl_small_close_eq c ub n out : groestl_small_close c ub n out = let q := small_close_with c ub n out in (groestl_small_init (fst q) (Z.of_nat out << 3), snd q).
Proof. unfold groestl_small_close, close_with; cbv zeta; destruct (ptr c <? 56)%nat eqn:E; cbn [columns_of P512 Nat.mul Nat.add Nat.sub]; rewrite E; reflexivity. Qed.

Lemma groestl_big_close_eq c ub n out : groestl_big_close c ub n out = let q := big_close_with c ub n out in (groestl_big_init (fst q) (Z.of_nat out << 3), snd q).
Proof. unfold groestl_big_close, close_with; cbv zeta; destruct (ptr c <? 120)%nat eqn:E; cbn [columns_of P1024 Nat.mul Nat.add Nat.sub]; rewrite E; reflexivity. Qed.

Lemma groestl_small_run c chunks ub n out d : length (buf c) = 64%nat -> words 8 (concat chunks) -> 0 <= n < 8 -> (out = 28 \/ out = 32)%nat -> d = 8 * Z.of_nat out ->
  let r := groestl_small_close (fold_left groestl_small_core chunks (groestl_small_init c d)) ub n out in
  snd r = groestl_spec d (concat chunks) ub n /\ length (buf (fst r)) = 64%nat.
Proof.
  intros Hb Hw Hn Hout Hd r; unfold r; rewrite groestl_small_close_eq; destruct perms_compute as (P1 & P2 & _).
  assert (Hr : represents P512 (st (groestl_small_init c d)) (groestl_iv 8 d)).
  { subst d; destruct Hout; subst out; split; [vm_compute; reflexivity | split; [|reflexivity] | vm_compute; reflexivity | split; [|reflexivity]]; cbn [groestl_small_init st wide]; words_dec. }
  destruct (groestl_close_spec P512 Q512 PERM_SMALL_P PERM_SMALL_Q P1 P2 eq_refl ltac:(cbn; lia) (groestl_small_init c d) _ chunks ub n out Hb eq_refl Hr eq_refl Hw Hn eq_refl) as [E1 E2]; [cbn; lia|].
  change (fold_left (core (8 * columns_of P512) (process P512 PERM_SMALL_P PERM_SMALL_Q)) chunks (groestl_small_init c d)) with (fold_left groestl_small_core chunks (groestl_small_init c d)) in E1, E2.
  cbv zeta; cbn [fst snd]; split; [|exact E2]; rewrite E1; subst d; destruct Hout; subst out; reflexivity.
Qed.

Lemma groestl_big_run c chunks ub n out d : length (buf c) = 128%nat -> words 8 (concat chunks) -> 0 <= n < 8 -> (out = 48 \/ out = 64)%nat -> d = 8 * Z.of_nat out ->
  let r := groestl_big_close (fold_left groestl_big_core chunks (groestl_big_init c d)) ub n out in
  snd r = groestl_spec d (concat chunks) ub n /\ length (buf (fst r)) = 128%nat.
Proof.
  intros Hb Hw Hn Hout Hd r; unfold r; rewrite groestl_big_close_eq; destruct perms_compute as (_ & _ & P1 & P2).
  assert (Hr : represents P1024 (st (groestl_big_init c d)) (groestl_iv 16 d)).
  { subst d; destruct Hout; subst out; split; [vm_compute; reflexivity | split; [|reflexivity] | vm_compute; reflexivity | split; [|reflexivity]]; cbn [groestl_big_init st wide]; words_dec. }
  destruct (groestl_close_spec P1024 Q1024 PERM_BIG_P PERM_BIG_Q P1 P2 eq_refl ltac:(cbn; lia) (groestl_big_init c d) _ chunks ub n out Hb eq_refl Hr eq_refl Hw Hn eq_refl) as [E1 E2]; [cbn; lia|].
  change (fold_left (core (8 * columns_of P1024) (process P1024 PERM_BIG_P PERM_BIG_Q)) chunks (groestl_big_init c d)) with (fold_left groestl_big_core chunks (groestl_big_init c d)) in E1, E2.
  cbv zeta; cbn [fst snd]; split; [|exact E2]; rewrite E1; subst d; destruct Hout; subst out; reflexivity.
Qed.

(** ** The small-footprint code *)
Lemma at_T_rot T T' k x : T' = map (fun t => R64 t k) T -> R64 0 k = 0 -> R64 (at_T T x) k = at_T T' x.
Proof. intros -> H0; unfold at_T; rewrite <- H0 at 2; symmetry; apply (map_nth (fun t => R64 t k)). Qed.

#[local] Transparent T0 T1 T2 T3 T4 T5 T6 T7.
Lemma tables_rotated : T1 = map (fun t => R64 t 8) T0 /\ T2 = map (fun t => R64 t 16) T0 /\ T3 = map (fun t => R64 t 24) T0
  /\ T5 = map (fun t => R64 t 8) T4 /\ T6 = map (fun t => R64 t 16) T4 /\ T7 = map (fun t => R64 t 24) T4.
Proof. vm_compute; auto 10. Qed.
#[local] Opaque T0 T1 T2 T3 T4 T5 T6 T7.

Lemma rstt_small_spec a b0 b1 b2 b3 b4 b5 b6 b7 : RSTT_small a b0 b1 b2 b3 b4 b5 b6 b7 = RSTT a b0 b1 b2 b3 b4 b5 b6 b7.
Proof.
  destruct tables_rotated as (E1 & E2 & E3 & E5 & E6 & E7); unfold RSTT_small, RSTT.
  rewrite (at_T_rot T0 T1 8 _ E1 eq_refl), (at_T_rot T0 T2 16 _ E2 eq_refl), (at_T_rot T0 T3 24 _ E3 eq_refl), (at_T_rot T4 T5 8 _ E5 eq_refl), (at_T_rot T4 T6 16 _ E6 eq_refl), (at_T_rot T4 T7 24 _ E7 eq_refl).
  reflexivity.
Qed.

#[local] Transparent ROUND_BIG_P ROUND_BIG_Q.
Lemma big_loops a r : ROUND_BIG_P_loop a r = ROUND_BIG_P a r /\ ROUND_BIG_Q_loop a r = ROUND_BIG_Q a r.
Proof.
  assert (E : forall b b0 b1 b2 b3 b4 b5 b6 b7, RBTT_small b b0 b1 b2 b3 b4 b5 b6 b7 = RBTT b b0 b1 b2 b3 b4 b5 b6 b7) by (exact rstt_small_spec).
  unfold ROUND_BIG_P_loop, ROUND_BIG_Q_loop, ROUND_BIG_P, ROUND_BIG_Q; cbv zeta; cbn [flat_map app]; rewrite !E; generalize RBTT PC64 QC64; intros f p q; split; reflexivity.
Qed.
#[local] Opaque ROUND_BIG_P ROUND_BIG_Q.

#[local] Transparent PERM_SMALL_P PERM_SMALL_Q.
Lemma small_loops a : PERM_SMALL_P_loop a = PERM_SMALL_P a /\ PERM_SMALL_Q_loop a = PERM_SMALL_Q a.
Proof. split; reflexivity. Qed.
#[local] Opaque PERM_SMALL_P PERM_SMALL_Q.

(** C35: Whatever the context held before [init], and however the message is cut
    into chunks, the four variants return the Groestl digest of the message with
    its extra bits: the eight tables on 64-bit columns compute the S-box of the
    AES, the shifts of the rows and the product with the circulant matrix over
    the field of 256 elements; the padding ends with the number of blocks, the
    second half of the last state is the digest.  The small-footprint code, with
    two tables and rotations, and loops in place of unrolled rounds, computes
    the same. *)
Theorem groestl_correct (c c' : groestl_context) (chunks : list (list Z)) (ub n : Z) :
  length (buf c) = 64%nat -> length (buf c') = 128%nat -> words 8 (concat chunks) -> 0 <= n < 8 ->
  let m := concat chunks in
  fst (sph_groestl224_addbits_and_close (fold_left sph_groestl224 chunks (sph_groestl224_init c)) ub n) = groestl_spec 224 m ub n
  /\ fst (sph_groestl256_addbits_and_close (fold_left sph_groestl256 chunks (sph_groestl256_init c)) ub n) = groestl_spec 256 m ub n
  /\ fst (sph_groestl384_addbits_and_close (fold_left sph_groestl384 chunks (sph_groestl384_init c')) ub n) = groestl_spec 384 m ub n
  /\ fst (sph_groestl512_addbits_and_close (fold_left sph_groestl512 chunks (sph_groestl512_init c')) ub n) = groestl_spec 512 m ub n
  /\ (forall a b0 b1 b2 b3 b4 b5 b6 b7, RSTT_small a b0 b1 b2 b3 b4 b5 b6 b7 = RSTT a b0 b1 b2 b3 b4 b5 b6 b7)
  /\ (forall a r, ROUND_BIG_P_loop a r = ROUND_BIG_P a r /\ ROUND_BIG_Q_loop a r = ROUND_BIG_Q a r)
  /\ (forall a, PERM_SMALL_P_loop a = PERM_SMALL_P a /\ PERM_SMALL_Q_loop a = PERM_SMALL_Q a).
Proof.
  intros Hb Hb' Hw Hn m.
  pose proof (groestl_small_run c chunks ub n 28 224 Hb Hw Hn ltac:(auto) eq_refl) as [E1 _]; pose proof (groestl_small_run c chunks ub n 32 256 Hb Hw Hn ltac:(auto) eq_refl) as [E2 _].
  pose proof (groestl_big_run c' chunks ub n 48 384 Hb' Hw Hn ltac:(auto) eq_refl) as [E3 _]; pose proof (groestl_big_run c' chunks ub n 64 512 Hb' Hw Hn ltac:(auto) eq_refl) as [E4 _].
  unfold sph_groestl224_addbits_and_close, sph_groestl256_addbits_and_close, sph_groestl384_addbits_and_close, sph_groestl512_addbits_and_close; rewrite !swapped; cbn [fst].
  exact (conj E1 (conj E2 (conj E3 (conj E4 (conj rstt_small_spec (conj big_loops small_loops)))))).
Qed.

Lemma groestl_correct_witness :
  let c := Ctx (repeat 0xAA 128) 5 (GState [1; 2] 3) in
  let chunks := [[1; 2; 3]; repeat 7 270; [9]] in
  fst (sph_groestl512_addbits_and_close (fold_left sph_groestl512 chunks (sph_groestl512_init c)) 0xA0 3) = groestl_spec 512 (concat chunks) 0xA0 3.
Proof.
  intros c chunks; refine (proj1 (proj2 (proj2 (proj2 (groestl_correct (Ctx (repeat 0xAA 64) 0 (GState [] 0)) c chunks 0xA0 3 _ _ _ _))))); [reflexivity | reflexivity | words_dec | lia].
Defined.

(** ** Groestl-512 behind the common interface *)
Lemma groestl_close_shape c ub n : words 8 (snd (groestl_big_close c ub n 64)) /\ length (snd (groestl_big_close c ub n 64)) = 64%nat.
Proof.
  unfold groestl_big_close; cbv zeta; destruct (if _ <? _ then _ else _)%nat as [l k]; cbn [snd]; split; [apply words_firstn, words_skipn, words_flat_map; auto with word|].
  rewrite length_firstn, length_skipn, (length_flat_map_const _ 8), length_seq by reflexivity; reflexivity.
Qed.

Lemma groestl_digest_shape m : words 8 (groestl_spec 512 (map u8 m) 0 0) /\ length (groestl_spec 512 (map u8 m) 0 0) = 64%nat.
Proof.
  destruct (groestl_big_run (Ctx (repeat 0 128) 0 (GState [] 0)) [map u8 m] 0 0 64 512 eq_refl) as [E _]; [cbn [concat]; rewrite app_nil_r; apply words_map; exact u8_inw | lia | auto | reflexivity |].
  cbn [concat] in E; rewrite app_nil_r in E; rewrite <- E; apply groestl_close_shape.
Qed.

#[export, refine] Instance groestl512_hash : StreamHash := {|
  hctx := groestl_context;
  hctx_ok c := length (buf c) = 128%nat;
  hinit := sph_groestl512_init;
  hupdate := sph_groestl512;
  hclose := sph_groestl512_close;
  hlen := 64;
  digest m := groestl_spec 512 (map u8 m) 0 0
|}.
Proof.
  - intros c H; exact H.
  - intros c chunks H Hw Hm; unfold sph_groestl512_close; rewrite swapped, words_map_u8 by exact Hw; cbn [fst snd].
    apply (groestl_big_run c chunks 0 0 64 512 H Hw); [lia | auto | reflexivity].
  - intros m; apply groestl_digest_shape.
  - intros m; apply groestl_digest_shape.
Defined.
