(* ===== verification/Uint256.v ===== *)
(** * Uint256: the multi-word integers of uint256.h

    [base_uint<BITS>] is an array [pn] of [WIDTH = BITS/32] unsigned 32-bit
    words, least significant first.  The operators are translated loop by
    loop, for every [WIDTH]; [uint160], [uint256] and [uint512] are the
    instances at 5, 8 and 16 words.  The theorems say that the operators
    implement the arithmetic, the bit operations and the order of the
    integers modulo [2^BITS], and that printing and parsing hexadecimal
    strings round-trip. *)

From Stdlib Require Import ZArith List Lia Bool.
From S2P Require Import Prelude SphTypes.
Import ListNotations.

Open Scope Z_scope.
Open Scope word_scope.

(** Conversions to [unsigned int] and [uint64_t]. *)
Definition u32 (x : Z) : Z := x .& 0xFFFFFFFF.
Definition u64 (x : Z) : Z := x .& 0xFFFFFFFFFFFFFFFF.

(** ** Operators of [base_uint] *)

Definition uint_is_zero (pn : list Z) : bool := forallb (fun x => x =? 0) pn.

Definition uint_lnot (pn : list Z) : list Z := map (fun x => u32 (Z.lnot x)) pn.

(** [int i = 0; while (++pn[i] == 0 && i < WIDTH-1) i++;] *)
Fixpoint uint_incr (pn : list Z) : list Z :=
  match pn with
  | [] => []
  | x :: rest =>
      let x := u32 (x + 1) in
      if (x =? 0) && negb (length rest =? 0)%nat then x :: uint_incr rest else x :: rest
  end.

(** [while (--pn[i] == -1 && i < WIDTH-1) i++;], where [-1] is converted to
    [unsigned int]. *)
Fixpoint uint_decr (pn : list Z) : list Z :=
  match pn with
  | [] => []
  | x :: rest =>
      let x := u32 (x - 1) in
      if (x =? u32 (-1)) && negb (length rest =? 0)%nat then x :: uint_decr rest else x :: rest
  end.

Definition uint_neg (pn : list Z) : list Z := uint_incr (uint_lnot pn).

(** [operator=(uint64_t)] and the constructors from [uint64_t]. *)
Definition uint_of_u64 (WIDTH : nat) (b : Z) : list Z :=
  u32 b :: u32 (b >> 32) :: repeat 0 (WIDTH - 2).

Definition uint_xor (a b : list Z) : list Z := map2 Z.lxor a b.
Definition uint_and (a b : list Z) : list Z := map2 Z.land a b.
Definition uint_or (a b : list Z) : list Z := map2 Z.lor a b.

Definition uint_xor64 (pn : list Z) (b : Z) : list Z :=
  let pn := upd pn 0 (nth 0 pn 0 .^ u32 b) in
  upd pn 1 (nth 1 pn 0 .^ u32 (b >> 32)).

Definition uint_or64 (pn : list Z) (b : Z) : list Z :=
  let pn := upd pn 0 (nth 0 pn 0 .| u32 b) in
  upd pn 1 (nth 1 pn 0 .| u32 (b >> 32)).

(** One iteration of the loop of [operator<<=]; [k] words and [s] bits. *)
Definition shl_step (a : list Z) (k : nat) (s : Z) (pn : list Z) (i : nat) : list Z :=
  let WIDTH := length a in
  let pn := if (i + k + 1 <? WIDTH)%nat && negb (s =? 0)
            then upd pn (i + k + 1) (nth (i + k + 1) pn 0 .| (nth i a 0 >> (32 - s))) else pn in
  if (i + k <? WIDTH)%nat then upd pn (i + k) (nth (i + k) pn 0 .| u32 (nth i a 0 << s)) else pn.

Definition uint_shl (a : list Z) (shift : Z) : list Z :=
  fold_left (shl_step a (Z.to_nat (shift / 32)) (shift mod 32)) (seq 0 (length a))
    (repeat 0 (length a)).

Definition shr_step (a : list Z) (k : nat) (s : Z) (pn : list Z) (i : nat) : list Z :=
  let pn := if (k + 1 <=? i)%nat && negb (s =? 0)
            then upd pn (i - k - 1) (nth (i - k - 1) pn 0 .| u32 (nth i a 0 << (32 - s))) else pn in
  if (k <=? i)%nat then upd pn (i - k) (nth (i - k) pn 0 .| (nth i a 0 >> s)) else pn.

Definition uint_shr (a : list Z) (shift : Z) : list Z :=
  fold_left (shr_step a (Z.to_nat (shift / 32)) (shift mod 32)) (seq 0 (length a))
    (repeat 0 (length a)).

(** The loop of [operator+=], with its 64-bit intermediate sum. *)
Fixpoint add_loop (carry : Z) (a b : list Z) : list Z :=
  match a, b with
  | x :: a', y :: b' =>
      let n := u64 (carry + x + y) in
      (n .& 0xffffffff) :: add_loop (n >> 32) a' b'
  | _, _ => []
  end.

Definition uint_add (a b : list Z) : list Z := add_loop 0 a b.
Definition uint_sub (a b : list Z) : list Z := uint_add a (uint_neg b).
Definition uint_add64 (a : list Z) (b64 : Z) : list Z := uint_add a (uint_of_u64 (length a) b64).
Definition uint_sub64 (a : list Z) (b64 : Z) : list Z :=
  uint_add a (uint_neg (uint_of_u64 (length a) b64)).

(** The comparison loops run from the most significant word down; [n] words
    are left and [tie] is what the function returns after the loop. *)
Fixpoint lt_loop (tie : bool) (n : nat) (a b : list Z) : bool :=
  match n with
  | O => tie
  | S i =>
      if nth i a 0 <? nth i b 0 then true
      else if nth i b 0 <? nth i a 0 then false
      else lt_loop tie i a b
  end.

Fixpoint gt_loop (tie : bool) (n : nat) (a b : list Z) : bool :=
  match n with
  | O => tie
  | S i =>
      if nth i b 0 <? nth i a 0 then true
      else if nth i a 0 <? nth i b 0 then false
      else gt_loop tie i a b
  end.

Definition uint_lt (a b : list Z) : bool := lt_loop false (length a) a b.
Definition uint_le (a b : list Z) : bool := lt_loop true (length a) a b.
Definition uint_gt (a b : list Z) : bool := gt_loop false (length a) a b.
Definition uint_ge (a b : list Z) : bool := gt_loop true (length a) a b.

Definition uint_eq (a b : list Z) : bool :=
  forallb (fun i => nth i a 0 =? nth i b 0) (seq 0 (length a)).

Definition uint_eq64 (a : list Z) (b : Z) : bool :=
  (nth 0 a 0 =? u32 b) && (nth 1 a 0 =? u32 (b >> 32)) && forallb (fun x => x =? 0) (skipn 2 a).

(** [pn[2*n] | (uint64_t)pn[2*n+1] << 32] *)
Definition Get64 (pn : list Z) (n : nat) : Z :=
  nth (2 * n) pn 0 .| u64 (nth (2 * n + 1) pn 0 << 32).

(** ** Bytes and hexadecimal strings *)

(** [(unsigned char * )pn]: the array in little-endian memory. *)
Definition uint_bytes (pn : list Z) : list Z := flat_map sph_enc32le pn.

Definition uint_of_bytes (WIDTH : nat) (bytes : list Z) : list Z :=
  read_words sph_dec32le 4 WIDTH bytes.

(** The constructors from [std::vector<unsigned char>]. *)
Definition uint_of_vch (WIDTH : nat) (vch : list Z) : list Z :=
  if (length vch =? WIDTH * 4)%nat then uint_of_bytes WIDTH vch else uint_of_u64 WIDTH 0.

(** A digit printed by ["%02x"]. *)
Definition hexchar (d : Z) : Z := if d <? 10 then 48 + d else 87 + d.

Definition GetHex (pn : list Z) : list Z :=
  flat_map (fun b => [hexchar (b >> 4); hexchar (b .& 15)]) (rev (uint_bytes pn)).

(** The table [phexdigit]: 0 for every character that is not a digit. *)
Definition phexdigit (c : Z) : Z :=
  if (48 <=? c) && (c <=? 57) then c - 48
  else if (65 <=? c) && (c <=? 70) then c - 55
  else if (97 <=? c) && (c <=? 102) then c - 87
  else 0.

Definition isspace (c : Z) : bool := (c =? 32) || ((9 <=? c) && (c <=? 13)).

Fixpoint skip_spaces (psz : list Z) : list Z :=
  match psz with
  | c :: rest => if isspace c then skip_spaces rest else psz
  | [] => []
  end.

(** [if (psz[0] == '0' && tolower(psz[1]) == 'x') psz += 2;] *)
Definition skip_0x (psz : list Z) : list Z :=
  match psz with
  | c0 :: c1 :: rest => if (c0 =? 48) && ((c1 =? 120) || (c1 =? 88)) then rest else psz
  | _ => psz
  end.

(** [while (phexdigit[(unsigned char)*psz] || *psz == '0') psz++;] *)
Fixpoint hex_prefix (psz : list Z) : list Z :=
  match psz with
  | c :: rest => if negb (phexdigit c =? 0) || (c =? 48) then c :: hex_prefix rest else []
  | [] => []
  end.

(** The last loop: [ds] are the digits left, the last one first. *)
Fixpoint sethex_loop (pend : nat) (ds : list Z) (p1 : nat) (bytes : list Z) : list Z :=
  match ds with
  | [] => bytes
  | d :: ds =>
      if (p1 <? pend)%nat then
        let bytes := upd bytes p1 (phexdigit d) in
        match ds with
        | [] => bytes
        | d2 :: ds =>
            sethex_loop pend ds (p1 + 1) (upd bytes p1 (get bytes p1 .| u8 (phexdigit d2 << 4)))
        end
      else bytes
  end.

(** [SetHex] on a C string without its terminating zero. *)
Definition SetHex (WIDTH : nat) (psz : list Z) : list Z :=
  let digits := hex_prefix (skip_0x (skip_spaces psz)) in
  uint_of_bytes WIDTH
    (sethex_loop (WIDTH * 4) (rev digits) 0 (repeat 0 (WIDTH * 4))).

(** ** The number an array stands for *)

Fixpoint val (pn : list Z) : Z :=
  match pn with
  | [] => 0
  | x :: rest => x + 2 ^ 32 * val rest
  end.

(** The well-formed values of [base_uint<32 * n>]. *)
Definition wf (n : nat) (pn : list Z) : Prop := length pn = n /\ words 32 pn.

(** [2^BITS] *)
Definition modulus (n : nat) : Z := 2 ^ (32 * Z.of_nat n).

Lemma modulus_S n : modulus (S n) = 2 ^ 32 * modulus n.
Proof. unfold modulus; rewrite <- Z.pow_add_r by lia; f_equal; lia. Qed.

Lemma modulus_pos n : 0 < modulus n.
Proof. apply Z.pow_pos_nonneg; lia. Qed.

Lemma modulus_0 : modulus 0 = 1.
Proof. reflexivity. Qed.

Lemma u32_trunc x : u32 x = trunc 32 x.
Proof. reflexivity. Qed.

Lemma u32_mod x : u32 x = x mod 2 ^ 32.
Proof. rewrite u32_trunc; apply trunc_mod; lia. Qed.

Lemma u64_mod x : u64 x = x mod 2 ^ 64.
Proof. change (u64 x) with (trunc 64 x); apply trunc_mod; lia. Qed.

Lemma u32_inw x : inw 32 (u32 x).
Proof. rewrite u32_trunc; auto with word. Qed.

#[export] Hint Resolve u32_inw : word.

Ltac wf_cases H :=
  let Hl := fresh "Hl" in let Hw := fresh "Hw" in
  destruct H as [Hl Hw].

Lemma wf_cons n x l : wf (S n) (x :: l) <-> inw 32 x /\ wf n l.
Proof.
  unfold wf; cbn [length]; split.
  - intros [Hl Hw]; inversion Hw; subst; auto.
  - intros (Hx & Hl & Hw); split; [lia | now constructor].
Qed.

Lemma wf_bound n pn : wf n pn -> 0 <= val pn < modulus n.
Proof.
  revert n; induction pn as [|x l IH]; intros n [Hl Hw].
  - subst; cbn; lia.
  - destruct n as [|n]; [discriminate|].
    destruct (proj1 (wf_cons n x l) (conj Hl Hw)) as [[? ?] Hwf].
    specialize (IH n Hwf); rewrite modulus_S; cbn [val]; nia.
Qed.

Lemma val_mod n pn : wf n pn -> val pn mod modulus n = val pn.
Proof. intros H; apply Z.mod_small, wf_bound, H. Qed.

Lemma val_inj n a b : wf n a -> wf n b -> val a = val b -> a = b.
Proof.
  revert n b; induction a as [|x a IH]; intros n b [La Wa] [Lb Wb] E.
  - destruct b; [reflexivity | cbn in *; lia].
  - destruct b as [|y b]; [cbn in *; lia|].
    destruct n as [|n]; [discriminate|].
    destruct (proj1 (wf_cons n x a) (conj La Wa)) as [[? ?] Ha].
    destruct (proj1 (wf_cons n y b) (conj Lb Wb)) as [[? ?] Hb].
    cbn [val] in E; assert (x = y /\ val a = val b) as [-> Ev] by lia.
    f_equal; now apply (IH n).
Qed.

(** Bit [i] of the number is bit [i mod 32] of word [i / 32]. *)
Lemma val_testbit pn i :
  words 32 pn -> 0 <= i -> Z.testbit (val pn) i = Z.testbit (nth (Z.to_nat (i / 32)) pn 0) (i mod 32).
Proof.
  intros Hw; revert i; induction Hw as [|x l Hx Hl IH]; intros i Hi.
  - cbn [val]; rewrite Z.bits_0; now destruct (Z.to_nat (i / 32)); cbn [nth]; rewrite Z.bits_0.
  - assert (E : val (x :: l) = x .| (val l << 32)).
    { cbn [val]; rewrite Z.mul_comm, <- Z.shiftl_mul_pow2 by lia.
      assert (D : Z.land x (val l << 32) = 0); [|now rewrite Z.add_nocarry_lxor, Z.lxor_lor].
      apply Z.bits_inj'; intros j Hj; rewrite Z.land_spec, Z.bits_0.
      destruct (Z.lt_ge_cases j 32); [rewrite Z.shiftl_spec_low by lia; apply andb_false_r|].
      now rewrite (inw_high 32 x j) by (assumption || lia). }
    rewrite E, Z.lor_spec, Z.shiftl_spec by lia.
    destruct (Z.lt_ge_cases i 32).
    + rewrite Z.div_small, Z.mod_small, (Z.testbit_neg_r (val l)) by lia; apply orb_false_r.
    + rewrite (inw_high 32 x i) by (assumption || lia); cbn [orb]; rewrite IH by lia.
      replace i with (i - 32 + 1 * 32) at 3 4 by lia.
      rewrite Z.div_add, Z.mod_add by lia.
      rewrite Z2Nat.inj_add by (try apply Z.div_pos; lia).
      now rewrite Nat.add_comm.
Qed.

(** ** Arithmetic *)

Lemma add_loop_spec n c a b :
  wf n a -> wf n b -> 0 <= c <= 1 ->
  wf n (add_loop c a b) /\ val (add_loop c a b) = (c + val a + val b) mod modulus n.
Proof.
  revert c b n; induction a as [|x a IH]; intros c b n [La Wa] [Lb Wb] Hc.
  - destruct b; [|cbn in *; lia]; cbn [length] in La; subst n; split; [split; [reflexivity | constructor]|].
    cbn [add_loop val]; rewrite modulus_0, Z.mod_1_r; reflexivity.
  - destruct b as [|y b]; [cbn in *; lia|]; destruct n as [|n]; [discriminate|].
    destruct (proj1 (wf_cons n x a) (conj La Wa)) as [[? ?] Ha].
    destruct (proj1 (wf_cons n y b) (conj Lb Wb)) as [[? ?] Hb].
    cbn [add_loop val]; rewrite u64_mod, Z.mod_small by lia.
    change (c + x + y .& 0xffffffff) with (u32 (c + x + y)).
    rewrite Z.shiftr_div_pow2 by lia; set (s := c + x + y) in *.
    pose proof (Z.div_mod s (2 ^ 32) ltac:(lia)) as E; pose proof (Z.mod_pos_bound s (2 ^ 32)).
    destruct (IH (s / 2 ^ 32) b n Ha Hb ltac:(nia)) as [Hwf ->].
    split; [apply wf_cons; auto with word|].
    rewrite u32_mod, modulus_S.
    replace (c + (x + 2 ^ 32 * val a) + (y + 2 ^ 32 * val b))
      with (s mod 2 ^ 32 + 2 ^ 32 * (s / 2 ^ 32 + val a + val b)) by (unfold s in *; lia).
    rewrite (Z.rem_mul_r _ (2 ^ 32) (modulus n)) by (pose proof (modulus_pos n); lia).
    rewrite (Z.mul_comm (2 ^ 32) (_ + _ + _)), Z.mod_add, Z.div_add, Z.mod_mod by lia.
    now rewrite (Z.div_small (s mod 2 ^ 32)) by lia.
Qed.

Lemma uint_lnot_spec n a :
  wf n a -> wf n (uint_lnot a) /\ val (uint_lnot a) = modulus n - 1 - val a.
Proof.
  intros [La Wa]; split; [split; [unfold uint_lnot; now rewrite length_map | apply words_map; auto with word]|].
  revert n La; induction Wa as [|x a Hx Wa IH]; intros n La; [subst; reflexivity|].
  destruct n as [|n]; [discriminate|]; cbn [uint_lnot map val]; fold (uint_lnot a).
  rewrite (IH n) by (cbn in La; lia); rewrite modulus_S, u32_mod; unfold Z.lnot; unfold inw in Hx.
  replace (Z.pred (- x)) with (2 ^ 32 - 1 - x + (-1) * 2 ^ 32) by lia.
  rewrite Z.mod_add, Z.mod_small by lia; nia.
Qed.

Lemma wf_S_cases n a : wf (S n) a -> exists x l, a = x :: l /\ inw 32 x /\ wf n l.
Proof.
  intros [La Wa]; destruct a as [|x l]; [discriminate|].
  exists x, l; split; [reflexivity | now apply wf_cons].
Qed.

Lemma carry_val n m x v :
  0 < modulus n -> (x + 2 ^ 32 * v) mod (2 ^ 32 * modulus n) = m -> 0 <= x < 2 ^ 32 ->
  m = x + 2 ^ 32 * (v mod modulus n).
Proof.
  intros Hm <- Hx; rewrite Z.rem_mul_r by lia.
  rewrite (Z.mul_comm (2 ^ 32) v), Z.mod_add, Z.div_add, (Z.mod_small x), (Z.div_small x) by lia.
  reflexivity.
Qed.

Lemma uint_incr_spec n a :
  wf (S n) a -> wf (S n) (uint_incr a) /\ val (uint_incr a) = (val a + 1) mod modulus (S n).
Proof.
  revert a; induction n as [|n IH]; intros a Ha; apply wf_S_cases in Ha as (x & l & -> & [? ?] & Hl).
  - destruct Hl as [Hl _]; apply length_zero_iff_nil in Hl as ->; cbn [uint_incr length Nat.eqb negb].
    rewrite andb_false_r; split; [apply wf_cons; split; [auto with word | split; [reflexivity | constructor]]|].
    cbn [val]; rewrite u32_mod, modulus_S, modulus_0, Z.mul_0_r, Z.mul_1_r, !Z.add_0_r; reflexivity.
  - cbn [uint_incr]; rewrite (proj1 Hl); cbn [Nat.eqb negb]; rewrite andb_true_r, modulus_S.
    pose proof (modulus_pos (S n)); rewrite u32_mod; destruct (Z.eqb_spec ((x + 1) mod 2 ^ 32) 0) as [E|E].
    + assert (x = 2 ^ 32 - 1) as -> by (destruct (Z.eq_dec x (2 ^ 32 - 1)); [auto | rewrite Z.mod_small in E; lia]).
      destruct (IH l Hl) as [Hw Hv]; split; [apply wf_cons; rewrite E; split; [split; lia | exact Hw]|].
      rewrite E; cbn [val]; rewrite Hv; symmetry.
      replace (2 ^ 32 - 1 + 2 ^ 32 * val l + 1) with (0 + 2 ^ 32 * (val l + 1)) by lia.
      apply (carry_val (S n)); [assumption | reflexivity | lia].
    + assert (x + 1 < 2 ^ 32) by (destruct (Z.eq_dec x (2 ^ 32 - 1)) as [->|]; [now contradiction E | lia]).
      rewrite Z.mod_small by lia; split; [apply wf_cons; split; [split; lia | exact Hl]|].
      cbn [val]; rewrite Z.mod_small; [lia|]; pose proof (wf_bound _ _ Hl); nia.
Qed.

Lemma uint_decr_spec n a :
  wf (S n) a -> wf (S n) (uint_decr a) /\ val (uint_decr a) = (val a - 1) mod modulus (S n).
Proof.
  revert a; induction n as [|n IH]; intros a Ha; apply wf_S_cases in Ha as (x & l & -> & [? ?] & Hl).
  - destruct Hl as [Hl _]; apply length_zero_iff_nil in Hl as ->; cbn [uint_decr length Nat.eqb negb].
    rewrite andb_false_r; split; [apply wf_cons; split; [auto with word | split; [reflexivity | constructor]]|].
    cbn [val]; rewrite u32_mod, modulus_S, modulus_0, Z.mul_0_r, Z.mul_1_r, !Z.add_0_r; reflexivity.
  - cbn [uint_decr]; rewrite (proj1 Hl); cbn [Nat.eqb negb]; rewrite andb_true_r, modulus_S.
    pose proof (modulus_pos (S n)); rewrite !u32_mod; change (-1 mod 2 ^ 32) with (2 ^ 32 - 1).
    destruct (Z.eq_dec x 0) as [->|Hx].
    + change ((0 - 1) mod 2 ^ 32) with (2 ^ 32 - 1); rewrite Z.eqb_refl.
      destruct (IH l Hl) as [Hw Hv]; split; [apply wf_cons; split; [split; lia | exact Hw]|].
      cbn [val]; rewrite Hv; symmetry.
      replace (0 + 2 ^ 32 * val l - 1) with (2 ^ 32 - 1 + 2 ^ 32 * (val l - 1)) by lia.
      apply (carry_val (S n)); [assumption | reflexivity | lia].
    + rewrite Z.mod_small by lia; destruct (Z.eqb_spec (x - 1) (2 ^ 32 - 1)); [lia|].
      split; [apply wf_cons; split; [split; lia | exact Hl]|].
      cbn [val]; rewrite Z.mod_small; [lia|]; pose proof (wf_bound _ _ Hl); nia.
Qed.

Lemma uint_neg_spec n a :
  wf (S n) a -> wf (S n) (uint_neg a) /\ val (uint_neg a) = (- val a) mod modulus (S n).
Proof.
  intros Ha; destruct (uint_lnot_spec _ _ Ha) as [Hw Hv].
  destruct (uint_incr_spec _ _ Hw) as [Hw' Hv']; split; [exact Hw'|].
  unfold uint_neg; rewrite Hv', Hv.
  replace (modulus (S n) - 1 - val a + 1) with (- val a + 1 * modulus (S n)) by lia.
  apply Z.mod_add; pose proof (modulus_pos (S n)); lia.
Qed.

Lemma uint_of_u64_spec n b :
  inw 64 b -> wf (S (S n)) (uint_of_u64 (S (S n)) b) /\ val (uint_of_u64 (S (S n)) b) = b.
Proof.
  intros Hb; unfold uint_of_u64, inw in *; cbn [Nat.sub]; rewrite Nat.sub_0_r; split.
  - do 2 (apply wf_cons; split; [auto with word|]).
    split; [apply repeat_length | apply words_repeat; auto with word].
  - assert (E : forall k, val (repeat 0 k) = 0) by (induction k as [|k IHk]; cbn [repeat val]; [|rewrite IHk]; reflexivity).
    cbn [val]; rewrite E, !u32_mod, Z.shiftr_div_pow2 by lia.
    pose proof (Z.div_mod b (2 ^ 32)); rewrite (Z.mod_small (b / 2 ^ 32)); [lia|].
    split; [apply Z.div_pos; lia | apply Z.div_lt_upper_bound; lia].
Qed.

(** ** Bit operations *)

(** Two well-formed arrays are equal when their bits are. *)
Lemma val_bits n a x :
  wf n a -> 0 <= x < modulus n ->
  (forall i, 0 <= i < 32 * Z.of_nat n ->
     Z.testbit (nth (Z.to_nat (i / 32)) a 0) (i mod 32) = Z.testbit x i) ->
  val a = x.
Proof.
  intros Ha Hx H; apply (inw_ext (32 * Z.of_nat n)); [lia | exact (wf_bound _ _ Ha) | exact Hx|].
  intros i Hi; rewrite val_testbit by (apply Ha || lia); now apply H.
Qed.

Lemma map2_bits n f (g : bool -> bool -> bool) a b :
  (forall x y i, Z.testbit (f x y) i = g (Z.testbit x i) (Z.testbit y i)) ->
  (forall x y, 0 <= x -> 0 <= y -> 0 <= f x y) -> g false false = false ->
  wf n a -> wf n b -> wf n (map2 f a b) /\ val (map2 f a b) = f (val a) (val b).
Proof.
  intros Hf Hp Hg Ha Hb; pose proof (wf_bound _ _ Ha); pose proof (wf_bound _ _ Hb).
  assert (Hin : forall w x y, 0 <= w -> inw w x -> inw w y -> inw w (f x y)).
  { intros w x y Hw Hx Hy; apply inw_bits; [lia | apply Hp; [apply Hx | apply Hy]|].
    intros i Hi; rewrite Hf, !(inw_high w) by assumption; exact Hg. }
  assert (Hwf : wf n (map2 f a b)).
  { destruct Ha as [La Wa], Hb as [Lb Wb]; split; [rewrite length_map2; lia|].
    apply map2_words; auto; intros; apply Hin; auto; lia. }
  split; [exact Hwf|]; apply (val_bits n); [exact Hwf | apply Hin; try assumption; lia|].
  intros i Hi; rewrite Hf, !val_testbit by (apply Ha || apply Hb || lia).
  rewrite (nth_map2 f a b 0 0 0), Hf; [reflexivity | destruct Ha, Hb; lia|].
  apply Z.bits_inj'; intros j _; now rewrite Hf, !Z.bits_0.
Qed.

Lemma uint_xor_spec n a b : wf n a -> wf n b ->
  wf n (uint_xor a b) /\ val (uint_xor a b) = val a .^ val b.
Proof.
  apply (map2_bits n Z.lxor xorb); [intros; apply Z.lxor_spec | intros; apply Z.lxor_nonneg; tauto | reflexivity].
Qed.

Lemma uint_and_spec n a b : wf n a -> wf n b ->
  wf n (uint_and a b) /\ val (uint_and a b) = val a .& val b.
Proof.
  apply (map2_bits n Z.land andb); [intros; apply Z.land_spec | intros; apply Z.land_nonneg; tauto | reflexivity].
Qed.

Lemma uint_or_spec n a b : wf n a -> wf n b ->
  wf n (uint_or a b) /\ val (uint_or a b) = val a .| val b.
Proof.
  apply (map2_bits n Z.lor orb); [intros; apply Z.lor_spec | intros; apply Z.lor_nonneg; tauto | reflexivity].
Qed.

(** The loops of the shifts: what each word has received from the words
    before [m]. *)
Definition shl_word (a : list Z) (k : nat) (s : Z) (m j : nat) : Z :=
  (if (k + 1 <=? j)%nat && (j - k - 1 <? m)%nat && negb (s =? 0)
   then nth (j - k - 1) a 0 >> (32 - s) else 0)
  .| (if (k <=? j)%nat && (j - k <? m)%nat then u32 (nth (j - k) a 0 << s) else 0).

Definition shr_word (a : list Z) (k : nat) (s : Z) (m j : nat) : Z :=
  (if (j + k + 1 <? m)%nat && negb (s =? 0) then u32 (nth (j + k + 1) a 0 << (32 - s)) else 0)
  .| (if (j + k <? m)%nat then nth (j + k) a 0 >> s else 0).

Ltac nat_cases :=
  repeat match goal with
  | |- context [(?x <=? ?y)%nat] => destruct (Nat.leb_spec x y)
  | |- context [(?x <? ?y)%nat] => destruct (Nat.ltb_spec x y)
  | |- context [(?x =? ?y)%nat] => destruct (Nat.eqb_spec x y)
  end.

Lemma shl_loop a k s m :
  (m <= length a)%nat ->
  let pn := fold_left (shl_step a k s) (seq 0 m) (repeat 0 (length a)) in
  length pn = length a /\ forall j, (j < length a)%nat -> nth j pn 0 = shl_word a k s m j.
Proof.
  induction m as [|m IH]; intros Hm pn.
  - split; [apply repeat_length|]; intros j Hj; unfold pn, shl_word; cbn [seq fold_left].
    rewrite nth_repeat; change (_ <? 0)%nat with false; now rewrite !andb_false_r.
  - unfold pn; rewrite seq_S, fold_left_app; cbn [fold_left Nat.add].
    destruct IH as [IHl IHn]; [lia|].
    generalize dependent (fold_left (shl_step a k s) (seq 0 m) (repeat 0 (length a))).
    intros p IHl IHn; unfold shl_step.
    set (q := if (m + k + 1 <? length a)%nat && negb (s =? 0) then upd p _ _ else p).
    assert (Hq : length q = length a).
    { unfold q; destruct (Nat.ltb_spec (m + k + 1) (length a)); cbn [andb]; [|assumption].
      destruct (negb _); [rewrite length_upd; lia | assumption]. }
    split; [destruct (Nat.ltb_spec (m + k) (length a)); [rewrite length_upd; lia | assumption]|].
    intros j Hj.
    assert (Nq : nth j q 0 = if (j =? m + k + 1)%nat && negb (s =? 0)
                             then nth j p 0 .| (nth m a 0 >> (32 - s)) else nth j p 0).
    { unfold q; destruct (Nat.ltb_spec (m + k + 1) (length a)); cbn [andb].
      - destruct (negb _); [|now rewrite andb_false_r]; rewrite andb_true_r, nth_upd by lia.
        destruct (Nat.eqb_spec j (m + k + 1)); [now subst | reflexivity].
      - destruct (Nat.eqb_spec j (m + k + 1)); [lia | reflexivity]. }
    transitivity (if (j =? m + k)%nat then nth j q 0 .| u32 (nth m a 0 << s) else nth j q 0).
    { destruct (Nat.ltb_spec (m + k) (length a)); [|destruct (Nat.eqb_spec j (m + k)); [lia | reflexivity]].
      rewrite nth_upd by lia; destruct (Nat.eqb_spec j (m + k)); [now subst | reflexivity]. }
    rewrite Nq, IHn by assumption; unfold shl_word; clear IHn Nq Hq.
    destruct (negb (s =? 0)); rewrite ?andb_true_r, ?andb_false_r;
      nat_cases; cbn [andb]; try lia; try reflexivity; rewrite ?Z.lor_0_l, ?Z.lor_0_r;
      repeat match goal with |- context [(j - ?x - ?y)%nat] => replace (j - x - y)%nat with m by lia end;
      repeat match goal with |- context [(j - ?x)%nat] => replace (j - x)%nat with m by lia end;
      reflexivity.
Qed.

Lemma shr_loop a k s m :
  (m <= length a)%nat ->
  let pn := fold_left (shr_step a k s) (seq 0 m) (repeat 0 (length a)) in
  length pn = length a /\ forall j, (j < length a)%nat -> nth j pn 0 = shr_word a k s m j.
Proof.
  induction m as [|m IH]; intros Hm pn.
  - split; [apply repeat_length|]; intros j Hj; unfold pn, shr_word; cbn [seq fold_left].
    rewrite nth_repeat; change (_ <? 0)%nat with false; reflexivity.
  - unfold pn; rewrite seq_S, fold_left_app; cbn [fold_left Nat.add].
    destruct IH as [IHl IHn]; [lia|].
    generalize dependent (fold_left (shr_step a k s) (seq 0 m) (repeat 0 (length a))).
    intros p IHl IHn; unfold shr_step.
    set (q := if (k + 1 <=? m)%nat && negb (s =? 0) then upd p _ _ else p).
    assert (Hq : length q = length a).
    { unfold q; destruct (Nat.leb_spec (k + 1) m); cbn [andb]; [|assumption].
      destruct (negb _); [rewrite length_upd; lia | assumption]. }
    split; [destruct (Nat.leb_spec k m); [rewrite length_upd; lia | assumption]|].
    intros j Hj.
    assert (Nq : nth j q 0 = if (j + k + 1 =? m)%nat && negb (s =? 0)
                             then nth j p 0 .| u32 (nth m a 0 << (32 - s)) else nth j p 0).
    { unfold q; destruct (Nat.leb_spec (k + 1) m); cbn [andb].
      - destruct (negb _); [|now rewrite andb_false_r]; rewrite andb_true_r, nth_upd by lia.
        destruct (Nat.eqb_spec j (m - k - 1)), (Nat.eqb_spec (j + k + 1) m); try lia; now subst j.
      - destruct (Nat.eqb_spec (j + k + 1) m); [lia | reflexivity]. }
    transitivity (if (j + k =? m)%nat then nth j q 0 .| (nth m a 0 >> s) else nth j q 0).
    { destruct (Nat.leb_spec k m); [|destruct (Nat.eqb_spec (j + k) m); [lia | reflexivity]].
      rewrite nth_upd by lia; destruct (Nat.eqb_spec j (m - k)), (Nat.eqb_spec (j + k) m); try lia; now subst j. }
    rewrite Nq, IHn by assumption; unfold shr_word; clear IHn Nq Hq.
    destruct (negb (s =? 0)); rewrite ?andb_true_r, ?andb_false_r;
      nat_cases; cbn [andb]; try lia; try reflexivity; rewrite ?Z.lor_0_l, ?Z.lor_0_r; subst m;
      try reflexivity; try apply Z.lor_comm.
Qed.

(** A bit position of the number, split into word and bit. *)
Lemma word_bit n i : 0 <= i < 32 * Z.of_nat n ->
  exists j r, i = 32 * Z.of_nat j + r /\ 0 <= r < 32 /\ (j < n)%nat
              /\ Z.to_nat (i / 32) = j /\ i mod 32 = r.
Proof.
  intros Hi; exists (Z.to_nat (i / 32)), (i mod 32).
  pose proof (Z.div_mod i 32 ltac:(lia)); pose proof (Z.mod_pos_bound i 32 ltac:(lia)).
  assert (0 <= i / 32 < Z.of_nat n) by (split; [apply Z.div_pos | apply Z.div_lt_upper_bound]; lia).
  repeat split; lia.
Qed.

Lemma val_bit pn (j : nat) r : words 32 pn -> 0 <= r < 32 ->
  Z.testbit (val pn) (32 * Z.of_nat j + r) = Z.testbit (nth j pn 0) r.
Proof.
  intros Hw Hr; rewrite val_testbit by (assumption || lia).
  replace (32 * Z.of_nat j + r) with (r + Z.of_nat j * 32) by lia.
  rewrite Z.div_add, Z.mod_add, Z.div_small, Z.mod_small by lia; do 2 f_equal; lia.
Qed.

Lemma shl_word_bit a k s n j r :
  wf n a -> 0 <= s < 32 -> 0 <= r < 32 -> (j < n)%nat ->
  Z.testbit (shl_word a k s n j) r
  = Z.testbit (val a) (32 * Z.of_nat j + r - (32 * Z.of_nat k + s)).
Proof.
  intros [Hl Hw] Hs Hr Hj; unfold shl_word; rewrite Z.lor_spec.
  pose proof (words_nth 32 a (j - k - 1) ltac:(lia) Hw) as H1.
  assert (Hb : forall i, (i < n)%nat -> forall t, 0 <= t < 32 ->
     Z.testbit (nth i a 0) t = Z.testbit (val a) (32 * Z.of_nat i + t)) by (intros; now rewrite val_bit).
  assert (E1 : Z.testbit (if (k <=? j)%nat && (j - k <? n)%nat then u32 (nth (j - k) a 0 << s) else 0) r
          = (s <=? r) && Z.testbit (val a) (32 * Z.of_nat j + r - (32 * Z.of_nat k + s))).
  { destruct (Nat.ltb_spec (j - k) n); [|lia]; rewrite andb_true_r.
    destruct (Nat.leb_spec k j).
    - rewrite u32_trunc, trunc_spec, Z.shiftl_spec by lia.
      destruct (Z.ltb_spec r 32); [|lia]; destruct (Z.leb_spec s r).
      + rewrite Hb by lia; cbn [andb]; f_equal; lia.
      + apply Z.testbit_neg_r; lia.
    - rewrite Z.bits_0, (Z.testbit_neg_r (val a)) by lia; now rewrite andb_false_r. }
  rewrite E1; clear E1; destruct (Z.leb_spec s r); cbn [andb].
  - transitivity (false || Z.testbit (val a) (32 * Z.of_nat j + r - (32 * Z.of_nat k + s))); [|reflexivity].
    f_equal; destruct (_ && _); [|apply Z.bits_0].
    rewrite Z.shiftr_spec by lia; apply (inw_high 32); auto; lia.
  - rewrite orb_false_r; destruct (Z.eqb_spec s 0); [lia|]; rewrite andb_true_r.
    destruct (Nat.ltb_spec (j - k - 1) n); [|lia]; rewrite andb_true_r.
    destruct (Nat.leb_spec (k + 1) j); [|rewrite Z.bits_0; symmetry; apply Z.testbit_neg_r; lia].
    rewrite Z.shiftr_spec, Hb by lia; f_equal; lia.
Qed.

Lemma shr_word_bit a k s n j r :
  wf n a -> 0 <= s < 32 -> 0 <= r < 32 -> (j < n)%nat ->
  Z.testbit (shr_word a k s n j) r
  = Z.testbit (val a) (32 * Z.of_nat j + r + (32 * Z.of_nat k + s)).
Proof.
  intros Hwf Hs Hr Hj; pose proof Hwf as [Hl Hw]; unfold shr_word; rewrite Z.lor_spec.
  assert (Hb : forall i t, 0 <= t < 32 ->
     Z.testbit (nth i a 0) t = Z.testbit (val a) (32 * Z.of_nat i + t)) by (intros; now rewrite val_bit).
  assert (Hhigh : forall i, (n <= i)%nat -> nth i a 0 = 0) by (intros; apply nth_overflow; lia).
  assert (E1 : Z.testbit (if (j + k <? n)%nat then nth (j + k) a 0 >> s else 0) r
          = (r + s <? 32) && Z.testbit (val a) (32 * Z.of_nat j + r + (32 * Z.of_nat k + s))).
  { transitivity (Z.testbit (nth (j + k) a 0 >> s) r).
    { destruct (Nat.ltb_spec (j + k) n); [reflexivity | now rewrite Hhigh, Z.shiftr_0_l by lia]. }
    rewrite Z.shiftr_spec by lia; destruct (Z.ltb_spec (r + s) 32).
    - rewrite Hb by lia; cbn [andb]; f_equal; lia.
    - apply (inw_high 32); try lia; apply words_nth; auto; lia. }
  rewrite E1; clear E1; destruct (Z.ltb_spec (r + s) 32); cbn [andb].
  - transitivity (false || Z.testbit (val a) (32 * Z.of_nat j + r + (32 * Z.of_nat k + s))); [|reflexivity].
    f_equal; destruct (_ && _); [|apply Z.bits_0].
    rewrite u32_trunc, trunc_spec, Z.shiftl_spec by lia.
    rewrite (Z.testbit_neg_r _ (r - (32 - s))) by lia; apply andb_false_r.
  - rewrite orb_false_r; destruct (Z.eqb_spec s 0); [lia|]; rewrite andb_true_r.
    transitivity (Z.testbit (u32 (nth (j + k + 1) a 0 << (32 - s))) r).
    { destruct (Nat.ltb_spec (j + k + 1) n); [reflexivity | now rewrite Hhigh, Z.shiftl_0_l by lia]. }
    rewrite u32_trunc, trunc_spec, Z.shiftl_spec by lia.
    destruct (Z.ltb_spec r 32); [|lia]; rewrite Hb by lia; cbn [andb]; f_equal; lia.
Qed.

Lemma words_of_nth w l n : length l = n -> (forall j, (j < n)%nat -> inw w (nth j l 0)) -> words w l.
Proof.
  intros <- H; apply Forall_forall; intros x Hx.
  apply (In_nth _ _ 0) in Hx as (j & Hj & <-); auto.
Qed.

Lemma shl_word_inw a k s m j : words 32 a -> 0 <= s < 32 -> inw 32 (shl_word a k s m j).
Proof.
  intros Hw Hs; apply inw_lor; [lia | destruct (_ && _) | destruct (_ && _)]; auto with word.
  apply inw_shiftr; try lia; apply words_nth; auto; lia.
Qed.

Lemma shr_word_inw a k s m j : words 32 a -> 0 <= s < 32 -> inw 32 (shr_word a k s m j).
Proof.
  intros Hw Hs; apply inw_lor; [lia | destruct (_ && _) | destruct (_ <? _)%nat]; auto with word.
  apply inw_shiftr; try lia; apply words_nth; auto; lia.
Qed.

Lemma shift_split shift : 0 <= shift ->
  0 <= shift mod 32 < 32 /\ shift = 32 * Z.of_nat (Z.to_nat (shift / 32)) + shift mod 32.
Proof.
  intros H; pose proof (Z.div_mod shift 32); pose proof (Z.mod_pos_bound shift 32).
  assert (0 <= shift / 32) by (apply Z.div_pos; lia); lia.
Qed.

Lemma uint_shl_spec n a shift :
  wf n a -> 0 <= shift ->
  wf n (uint_shl a shift) /\ val (uint_shl a shift) = (val a << shift) mod modulus n.
Proof.
  intros Ha Hs; pose proof Ha as [La Wa]; destruct (shift_split shift Hs) as [Hs32 Es].
  destruct (shl_loop a (Z.to_nat (shift / 32)) (shift mod 32) (length a) ltac:(lia)) as [Hl Hn].
  fold (uint_shl a shift) in *; rewrite La in *.
  assert (Hwf : wf n (uint_shl a shift)).
  { split; [exact Hl|]; apply (words_of_nth _ _ n); [exact Hl|].
    intros j Hj; rewrite Hn by assumption; now apply shl_word_inw. }
  split; [exact Hwf|]; apply (val_bits n); [exact Hwf | apply Z.mod_pos_bound, modulus_pos|].
  intros i Hi; unfold modulus; rewrite Z.mod_pow2_bits_low, Z.shiftl_spec by lia.
  destruct (word_bit n i Hi) as (j & r & -> & Hr & Hj & -> & ->).
  rewrite Hn, (shl_word_bit _ _ _ n), <- Es by assumption; reflexivity.
Qed.

Lemma uint_shr_spec n a shift :
  wf n a -> 0 <= shift ->
  wf n (uint_shr a shift) /\ val (uint_shr a shift) = val a >> shift.
Proof.
  intros Ha Hs; pose proof Ha as [La Wa]; destruct (shift_split shift Hs) as [Hs32 Es].
  destruct (shr_loop a (Z.to_nat (shift / 32)) (shift mod 32) (length a) ltac:(lia)) as [Hl Hn].
  fold (uint_shr a shift) in *; rewrite La in *.
  assert (Hwf : wf n (uint_shr a shift)).
  { split; [exact Hl|]; apply (words_of_nth _ _ n); [exact Hl|].
    intros j Hj; rewrite Hn by assumption; now apply shr_word_inw. }
  split; [exact Hwf|]; pose proof (wf_bound _ _ Ha).
  apply (val_bits n); [exact Hwf | apply inw_shiftr; (assumption || lia)|].
  intros i Hi; rewrite Z.shiftr_spec by lia.
  destruct (word_bit n i Hi) as (j & r & -> & Hr & Hj & -> & ->).
  rewrite Hn, (shr_word_bit _ _ _ n), <- Es by assumption; reflexivity.
Qed.

(** ** Comparisons *)

Lemma val_snoc l x : val (l ++ [x]) = val l + modulus (length l) * x.
Proof.
  induction l as [|y l IH]; cbn [app val length]; [rewrite modulus_0; lia|].
  rewrite IH, modulus_S; lia.
Qed.

Lemma firstn_S_nth (l : list Z) i : (i < length l)%nat -> firstn (S i) l = firstn i l ++ [nth i l 0].
Proof.
  revert i; induction l as [|x l IH]; intros [|i] Hi; cbn in *; try lia; [reflexivity|].
  f_equal; apply IH; lia.
Qed.

Lemma val_firstn_S l i : (i < length l)%nat ->
  val (firstn (S i) l) = val (firstn i l) + modulus i * nth i l 0.
Proof. intros H; rewrite firstn_S_nth, val_snoc, length_firstn, Nat.min_l by lia; reflexivity. Qed.

Lemma firstn_bound l i : words 32 l -> (i <= length l)%nat -> 0 <= val (firstn i l) < modulus i.
Proof.
  intros Hw Hi; apply wf_bound; split; [rewrite length_firstn; lia | now apply words_firstn].
Qed.

(** The loop compares the numbers made of the words it still has to read. *)
Lemma lt_loop_spec tie i a b :
  words 32 a -> words 32 b -> (i <= length a)%nat -> length a = length b ->
  lt_loop tie i a b = (val (firstn i a) <? val (firstn i b))
                      || ((val (firstn i a) =? val (firstn i b)) && tie).
Proof.
  intros Wa Wb Hi Hl; induction i as [|i IH]; [reflexivity|].
  cbn [lt_loop]; rewrite IH, !val_firstn_S by lia.
  pose proof (firstn_bound a i Wa ltac:(lia)); pose proof (firstn_bound b i Wb ltac:(lia)).
  destruct (Z.ltb_spec (nth i a 0) (nth i b 0)), (Z.ltb_spec (nth i b 0) (nth i a 0)); try lia;
    repeat match goal with |- context [?x <? ?y] => destruct (Z.ltb_spec x y)
                         | |- context [?x =? ?y] => destruct (Z.eqb_spec x y) end; cbn; try nia; reflexivity.
Qed.

Lemma gt_loop_lt tie n a b : gt_loop tie n a b = lt_loop tie n b a.
Proof. induction n as [|n IH]; [reflexivity|]; cbn [gt_loop lt_loop]; now rewrite IH. Qed.

Lemma uint_gt_spec n a b : wf n a -> wf n b -> uint_gt a b = (val b <? val a).
Proof.
  intros [La Wa] [Lb Wb]; unfold uint_gt; rewrite gt_loop_lt, lt_loop_spec by (assumption || lia).
  rewrite !firstn_all2 by lia; now rewrite andb_false_r, orb_false_r.
Qed.

Lemma uint_lt_spec n a b : wf n a -> wf n b -> uint_lt a b = (val a <? val b).
Proof.
  intros [La Wa] [Lb Wb]; unfold uint_lt; rewrite lt_loop_spec by (assumption || lia).
  rewrite !firstn_all2 by lia; now rewrite andb_false_r, orb_false_r.
Qed.

Lemma uint_eq_spec n a b : wf n a -> wf n b -> uint_eq a b = (val a =? val b).
Proof.
  intros Ha Hb; apply eq_iff_eq_true; rewrite Z.eqb_eq; unfold uint_eq; rewrite forallb_forall; split.
  - intros H; f_equal; apply (nth_ext _ _ 0 0); [destruct Ha, Hb; lia|].
    intros i Hi; apply Z.eqb_eq, H, in_seq; lia.
  - intros E i _; apply Z.eqb_eq; f_equal; now apply (val_inj n).
Qed.

Lemma all_zero l : forallb (fun x => x =? 0) l = true <-> l = repeat 0 (length l).
Proof.
  induction l as [|x l IH]; cbn [forallb repeat length]; [tauto|].
  rewrite andb_true_iff, IH, Z.eqb_eq; split; [intros [-> E]; now f_equal | intros E; injection E; auto].
Qed.

Lemma uint_eq64_spec n a b : wf (S (S n)) a -> inw 64 b -> uint_eq64 a b = (val a =? b).
Proof.
  intros Ha Hb; destruct (uint_of_u64_spec n b Hb) as [Hw Hv].
  apply eq_iff_eq_true; rewrite Z.eqb_eq; transitivity (a = uint_of_u64 (S (S n)) b).
  - pose proof Ha as Ha'; apply wf_S_cases in Ha' as (x & a' & -> & _ & Ha').
    apply wf_S_cases in Ha' as (y & l & -> & _ & [Hl _]).
    unfold uint_eq64, uint_of_u64; cbn [nth skipn Nat.sub]; rewrite Nat.sub_0_r.
    rewrite !andb_true_iff, !Z.eqb_eq, all_zero, Hl; split.
    + intros [[-> ->] E]; now rewrite E at 1.
    + intros E; split; [split|].
      * exact (f_equal (fun v => nth 0 v 0) E).
      * exact (f_equal (fun v => nth 1 v 0) E).
      * exact (f_equal (skipn 2) E).
  - rewrite <- Hv at 2; split; [now intros -> | now apply (val_inj (S (S n)))].
Qed.

Lemma uint_is_zero_spec n a : wf n a -> uint_is_zero a = (val a =? 0).
Proof.
  intros [Hl Hw]; apply eq_iff_eq_true; unfold uint_is_zero; rewrite all_zero, Z.eqb_eq.
  assert (E : forall k, val (repeat 0 k) = 0) by (induction k as [|k IHk]; cbn [repeat val]; [|rewrite IHk]; reflexivity).
  split; [intros -> ; apply E|]; intros H; apply (val_inj n); [now split| |now rewrite H, E].
  split; [now rewrite repeat_length | apply words_repeat; auto with word].
Qed.

(** ** Hexadecimal strings *)

(** The number written by hexadecimal digits, last digit first. *)
Fixpoint hexle (ds : list Z) : Z :=
  match ds with
  | [] => 0
  | d :: ds => phexdigit d + 16 * hexle ds
  end.

Lemma phexdigit_range d : 0 <= phexdigit d < 16.
Proof.
  unfold phexdigit.
  destruct (Z.leb_spec 48 d), (Z.leb_spec d 57), (Z.leb_spec 65 d), (Z.leb_spec d 70),
    (Z.leb_spec 97 d), (Z.leb_spec d 102); cbn [andb]; lia.
Qed.

Lemma hexle_nonneg ds : 0 <= hexle ds.
Proof. induction ds as [|d ds IH]; cbn [hexle]; [lia|]; pose proof (phexdigit_range d); lia. Qed.

Lemma u8_mod x : u8 x = x mod 256.
Proof. rewrite u8_trunc; apply (trunc_mod 8); lia. Qed.

Lemma le_split_S k x : le_split (S k) x = x mod 256 :: le_split k (x / 256).
Proof. cbn [le_split]; rewrite u8_mod, Z.shiftr_div_pow2 by lia; reflexivity. Qed.

Lemma le_split_0 k : le_split k 0 = repeat 0 k.
Proof. induction k as [|k IH]; [reflexivity|]; rewrite le_split_S; cbn [repeat]; now f_equal. Qed.

Lemma upd_app (pre : list Z) x rest v : upd (pre ++ x :: rest) (length pre) v = pre ++ v :: rest.
Proof.
  unfold upd, memcpy; rewrite firstn_app, Nat.sub_diag, firstn_all, app_nil_r; cbn [firstn app].
  f_equal; f_equal; rewrite skipn_app, skipn_all2 by lia.
  now replace (length pre + 1 - length pre)%nat with 1%nat by lia.
Qed.

Lemma get_app (pre : list Z) x rest : get (pre ++ x :: rest) (length pre) = x.
Proof. unfold get; rewrite app_nth2, Nat.sub_diag by lia; reflexivity. Qed.

(** The two halves of a byte do not overlap. *)
Lemma nibbles lo hi : 0 <= lo < 16 -> 0 <= hi < 16 -> lo .| u8 (hi << 4) = lo + 16 * hi.
Proof.
  intros Hl Hh; rewrite u8_mod, Z.shiftl_mul_pow2, Z.mod_small by lia.
  rewrite Z.lor_comm, <- (Z.shiftl_mul_pow2 hi 4), <- Z.lxor_lor, <- Z.add_nocarry_lxor,
    Z.shiftl_mul_pow2 by
    (lia || (apply Z.bits_inj'; intros i Hi; rewrite Z.land_spec, Z.bits_0;
             destruct (Z.lt_ge_cases i 4);
             [now rewrite Z.shiftl_spec_low by lia
             | rewrite (inw_high 4 lo) by (unfold inw; lia); apply andb_false_r])).
  lia.
Qed.

Lemma sethex_loop_spec k ds pre :
  sethex_loop (length pre + k) ds (length pre) (pre ++ repeat 0 k) = pre ++ le_split k (hexle ds).
Proof.
  revert ds pre; induction k as [|k IH]; intros ds pre.
  - destruct ds as [|d ds]; [reflexivity|]; cbn [sethex_loop].
    rewrite Nat.add_0_r, Nat.ltb_irrefl; reflexivity.
  - destruct ds as [|d [|d2 ds]]; cbn [sethex_loop hexle].
    + now rewrite le_split_0.
    + pose proof (phexdigit_range d); destruct (Nat.ltb_spec (length pre) (length pre + S k)); [|lia].
      cbn [repeat]; rewrite upd_app, le_split_S, Z.mod_small, Z.div_small, le_split_0 by lia.
      do 2 f_equal; lia.
    + pose proof (phexdigit_range d); pose proof (phexdigit_range d2); pose proof (hexle_nonneg ds).
      destruct (Nat.ltb_spec (length pre) (length pre + S k)); [|lia]; cbn [repeat].
      rewrite upd_app, get_app, upd_app, nibbles, le_split_S by assumption.
      replace (phexdigit d + 16 * (phexdigit d2 + 16 * hexle ds))
        with (phexdigit d + 16 * phexdigit d2 + hexle ds * 256) by lia.
      rewrite Z.mod_add, Z.div_add, Z.mod_small, Z.div_small, Z.add_0_l by lia.
      specialize (IH ds (pre ++ [phexdigit d + 16 * phexdigit d2])).
      rewrite length_app in IH; cbn [length] in IH; rewrite <- !app_assoc in IH; cbn [app] in IH.
      rewrite <- IH; f_equal; lia.
Qed.

Lemma le_split_add m k x : 0 <= x -> le_split (m + k) x = le_split m x ++ le_split k (x / 256 ^ Z.of_nat m).
Proof.
  revert x; induction m as [|m IH]; intros x Hx; [now rewrite Z.div_1_r|].
  cbn [Nat.add]; rewrite !le_split_S; cbn [app]; f_equal; rewrite IH by (apply Z.div_pos; lia).
  f_equal; f_equal; rewrite Z.div_div by (try apply Z.pow_nonzero; lia).
  f_equal; rewrite Nat2Z.inj_succ, Z.pow_succ_r by lia; lia.
Qed.

Lemma read_words_cons n a rest : length a = 4%nat ->
  read_words sph_dec32le 4 (S n) (a ++ rest) = sph_dec32le (a ++ rest) :: read_words sph_dec32le 4 n rest.
Proof.
  intros Ha; unfold read_words; cbn [seq map]; f_equal; rewrite <- seq_shift, map_map.
  apply map_ext; intros i; f_equal; rewrite skipn_app, skipn_all2 by lia.
  cbn [app]; f_equal; lia.
Qed.

Lemma uint_of_bytes_spec n x : 0 <= x ->
  wf n (uint_of_bytes n (le_split (n * 4) x)) /\ val (uint_of_bytes n (le_split (n * 4) x)) = x mod modulus n.
Proof.
  revert x; induction n as [|n IH]; intros x Hx.
  - split; [split; [reflexivity | constructor]|]; rewrite modulus_0, Z.mod_1_r; reflexivity.
  - change (S n * 4)%nat with (4 + n * 4)%nat; rewrite le_split_add by assumption.
    change (256 ^ Z.of_nat 4) with (2 ^ 32).
    unfold uint_of_bytes; rewrite read_words_cons by apply length_le_split; fold (uint_of_bytes n).
    assert (E : sph_dec32le (le_split 4 x ++ le_split (n * 4) (x / 2 ^ 32)) = x mod 2 ^ 32).
    { rewrite sph_dec32le_combine by (rewrite length_app, length_le_split; lia).
      rewrite firstn_app, firstn_all2, length_le_split, firstn_O, app_nil_r by (rewrite length_le_split; lia).
      rewrite le_combine_split; apply (trunc_mod 32); lia. }
    rewrite E; destruct (IH (x / 2 ^ 32)) as [Hw Hv]; [apply Z.div_pos; lia|]; split.
    + apply wf_cons; split; [apply Z.mod_pos_bound; lia | exact Hw].
    + cbn [val]; unfold uint_of_bytes in Hv; rewrite Hv, modulus_S, Z.rem_mul_r by (pose proof (modulus_pos n); lia); lia.
Qed.

(** [SetHex] reads the number written by the digits, modulo [2^BITS]. *)
Lemma SetHex_value n psz :
  wf n (SetHex n psz)
  /\ val (SetHex n psz) = hexle (rev (hex_prefix (skip_0x (skip_spaces psz)))) mod modulus n.
Proof.
  unfold SetHex; rewrite (sethex_loop_spec (n * 4) _ []); cbn [app].
  apply uint_of_bytes_spec, hexle_nonneg.
Qed.

Definition hex_digit (c : Z) : Prop := exists d, 0 <= d < 16 /\ c = hexchar d.

Lemma hexchar_facts d : 0 <= d < 16 ->
  phexdigit (hexchar d) = d /\ isspace (hexchar d) = false
  /\ negb (phexdigit (hexchar d) =? 0) || (hexchar d =? 48) = true
  /\ (hexchar d =? 120) || (hexchar d =? 88) = false.
Proof.
  intros Hd; assert (Hc : 0 <= d < 16) by exact Hd; clear Hd.
  bit_cases d; repeat split; reflexivity.
Qed.

Lemma hex_prefix_digits s rest :
  Forall hex_digit s -> hex_prefix rest = [] -> hex_prefix (s ++ rest) = s.
Proof.
  intros Hs Hr; induction Hs as [|c s (d & Hd & ->) Hs IH]; [exact Hr|]; cbn [app hex_prefix].
  now rewrite (proj1 (proj2 (proj2 (hexchar_facts d Hd)))), IH.
Qed.

Lemma skip_digits s rest : Forall hex_digit s -> (2 <= length s)%nat ->
  skip_0x (skip_spaces (s ++ rest)) = s ++ rest.
Proof.
  intros Hs Hl; destruct s as [|c [|c' s]]; [cbn in Hl; lia | cbn in Hl; lia|].
  inversion Hs as [|? ? (d & Hd & ->) H2]; subst; inversion H2 as [|? ? (d' & Hd' & ->) _]; subst.
  cbn [app skip_spaces]; rewrite (proj1 (proj2 (hexchar_facts d Hd))).
  cbn [skip_0x]; now rewrite (proj2 (proj2 (proj2 (hexchar_facts d' Hd')))), andb_false_r.
Qed.

Lemma byte_digits b : inw 8 b -> 0 <= b >> 4 < 16 /\ 0 <= b .& 15 < 16 /\ (b .& 15) + 16 * (b >> 4) = b.
Proof.
  unfold inw; intros Hb; change 15 with (Z.ones 4); rewrite Z.land_ones, Z.shiftr_div_pow2 by lia.
  pose proof (Z.div_mod b (2 ^ 4)); pose proof (Z.mod_pos_bound b (2 ^ 4)).
  assert (b / 2 ^ 4 < 16) by (apply Z.div_lt_upper_bound; lia).
  assert (0 <= b / 2 ^ 4) by (apply Z.div_pos; lia); lia.
Qed.

Lemma uint_bytes_words a : words 8 (uint_bytes a).
Proof. apply words_flat_map; auto with word. Qed.

Lemma GetHex_digits a : Forall hex_digit (GetHex a).
Proof.
  apply Forall_flat_map, Forall_rev; eapply Forall_impl; [|apply uint_bytes_words].
  intros b Hb; destruct (byte_digits b Hb) as (H1 & H2 & _); repeat constructor; eexists; eauto.
Qed.

Lemma lor_byte b x : inw 8 b -> b .| (x << 8) = b + 256 * x.
Proof.
  intros Hb; assert (D : Z.land b (x << 8) = 0).
  { apply Z.bits_inj'; intros i Hi; rewrite Z.land_spec, Z.bits_0.
    destruct (Z.lt_ge_cases i 8); [rewrite Z.shiftl_spec_low by lia; apply andb_false_r|].
    now rewrite (inw_high 8 b) by (assumption || lia). }
  rewrite <- Z.lxor_lor, <- Z.add_nocarry_lxor, Z.shiftl_mul_pow2 by (assumption || lia); lia.
Qed.

Lemma hexle_bytes l rest : words 8 l ->
  hexle (flat_map (fun b => [hexchar (b .& 15); hexchar (b >> 4)]) l ++ rest)
  = le_combine l + 256 ^ Z.of_nat (length l) * hexle rest.
Proof.
  induction 1 as [|b l Hb Hl IH]; [cbn [flat_map app length le_combine]; rewrite Z.pow_0_r; lia|].
  destruct (byte_digits b Hb) as (H1 & H2 & H3); cbn [flat_map app hexle le_combine length].
  rewrite IH, (proj1 (hexchar_facts _ H1)), (proj1 (hexchar_facts _ H2)).
  rewrite Nat2Z.inj_succ, Z.pow_succ_r by lia.
  rewrite lor_byte by assumption; lia.
Qed.

Lemma rev_GetHex a :
  rev (GetHex a) = flat_map (fun b => [hexchar (b .& 15); hexchar (b >> 4)]) (uint_bytes a).
Proof.
  unfold GetHex; rewrite <- (rev_involutive (uint_bytes a)) at 2; generalize (rev (uint_bytes a)).
  intros l; induction l as [|b l IH]; [reflexivity|]; cbn [flat_map rev]; rewrite flat_map_app, <- IH.
  now rewrite rev_app_distr.
Qed.

Lemma le_combine_app l m : words 8 l ->
  le_combine (l ++ m) = le_combine l + 256 ^ Z.of_nat (length l) * le_combine m.
Proof.
  induction 1 as [|b l Hb Hl IH]; [cbn [app length le_combine]; rewrite Z.pow_0_r; lia|].
  cbn [app le_combine length]; rewrite !lor_byte, IH, Nat2Z.inj_succ, Z.pow_succ_r by (assumption || lia); lia.
Qed.

Lemma le_combine_uint a : words 32 a -> le_combine (uint_bytes a) = val a.
Proof.
  induction 1 as [|x l Hx Hl IH]; [reflexivity|]; unfold uint_bytes in *; cbn [flat_map val].
  rewrite le_combine_app by auto with word; change (length (sph_enc32le x)) with 4%nat.
  rewrite IH, sph_enc32le_split, le_combine_split, trunc_small by (assumption || lia); reflexivity.
Qed.

Lemma GetHex_value n a : wf n a -> hexle (rev (GetHex a)) = val a.
Proof.
  intros [_ Hw]; rewrite rev_GetHex, <- (app_nil_r (flat_map _ _)), hexle_bytes by apply uint_bytes_words.
  cbn [hexle]; rewrite le_combine_uint by assumption; lia.
Qed.

Lemma length_GetHex a : length (GetHex a) = (8 * length a)%nat.
Proof.
  unfold GetHex; rewrite (length_flat_map_const _ 2) by reflexivity.
  rewrite length_rev; unfold uint_bytes; rewrite (length_flat_map_const _ 4) by reflexivity; lia.
Qed.

Lemma skip_spaces_app sp s : forallb isspace sp = true -> skip_spaces (sp ++ s) = skip_spaces s.
Proof.
  induction sp as [|c sp IH]; [reflexivity|]; cbn [forallb app skip_spaces]; intros H.
  apply andb_true_iff in H as [-> H]; auto.
Qed.

(** ** Properties *)

(** C28: The arithmetic operators of [base_uint] ([+=], [-=], unary [-],
    [++], [--], assignment from 64 bits and the mixed 64-bit versions) return
    well-formed arrays that stand for the result modulo [2^BITS], for every
    width of at least two words: carries and borrows go through all words and
    wrap around. *)
Theorem uint_arith_refines (n : nat) (a b : list Z) (c : Z) :
  (2 <= n)%nat -> wf n a -> wf n b -> inw 64 c ->
  Forall (fun '(r, v) => wf n r /\ val r = v mod modulus n)
    [(uint_add a b, val a + val b); (uint_sub a b, val a - val b); (uint_neg a, - val a);
     (uint_incr a, val a + 1); (uint_decr a, val a - 1); (uint_of_u64 n c, c);
     (uint_add64 a c, val a + c); (uint_sub64 a c, val a - c)].
Proof.
  intros Hn Ha Hb Hc; destruct n as [|[|n]]; [lia | lia|].
  destruct (uint_of_u64_spec n c Hc) as [Hw Hv]; destruct (uint_neg_spec _ _ Hb) as [Hnb Vnb].
  destruct (uint_neg_spec _ _ Hw) as [Hnw Vnw].
  unfold uint_sub, uint_add64, uint_sub64, uint_add; rewrite (proj1 Ha).
  assert (Sum : forall x y z, wf (S (S n)) y -> val y = z mod modulus (S (S n)) -> wf (S (S n)) x ->
     wf (S (S n)) (add_loop 0 x y) /\ val (add_loop 0 x y) = (val x + z) mod modulus (S (S n))).
  { intros x y z Hy Ey Hx; destruct (add_loop_spec _ 0 x y Hx Hy ltac:(lia)) as [? ->].
    split; [assumption|]; rewrite Ey, Z.add_0_l, Zplus_mod_idemp_r; reflexivity. }
  pose proof (val_mod _ _ Hb); pose proof (val_mod _ _ Hw).
  assert (Hcm : c mod modulus (S (S n)) = c) by congruence.
  rewrite Hv in Vnw.
  repeat (apply Forall_cons; [|]); [..|constructor].
  - apply (Sum a b (val b)); auto.
  - apply (Sum a (uint_neg b) (- val b)); auto.
  - now apply uint_neg_spec.
  - now apply uint_incr_spec.
  - now apply uint_decr_spec.
  - split; congruence.
  - apply (Sum a _ c); auto; congruence.
  - apply (Sum a _ (- c)); auto.
Qed.

Lemma uint_arith_refines_witness :
  val (uint_sub (uint_of_u64 8 0) (uint_of_u64 8 1)) = 2 ^ 256 - 1.
Proof.
  pose proof (uint_arith_refines 8 (uint_of_u64 8 0) (uint_of_u64 8 1) 0) as H.
  assert (H0 : wf 8 (uint_of_u64 8 0)) by (split; [reflexivity | words_dec]).
  assert (H1 : wf 8 (uint_of_u64 8 1)) by (split; [reflexivity | words_dec]).
  specialize (H ltac:(lia) H0 H1 ltac:(unfold inw; lia)).
  exact (proj2 (Forall_inv (Forall_inv_tail H))).
Defined.

(** The bit operators compute the bit operations of the numbers: [~] is
    the complement in [BITS] bits, [<<=] and [>>=] shift across the words by
    any amount, [<<=] dropping what leaves the top word; a shift by [BITS] or
    more gives zero. *)
Theorem uint_bits_refines (n : nat) (a b : list Z) (shift : Z) :
  wf n a -> wf n b -> 0 <= shift ->
  Forall (fun '(r, v) => wf n r /\ val r = v)
    [(uint_lnot a, modulus n - 1 - val a); (uint_xor a b, val a .^ val b);
     (uint_and a b, val a .& val b); (uint_or a b, val a .| val b);
     (uint_shl a shift, (val a << shift) mod modulus n); (uint_shr a shift, val a >> shift)].
Proof.
  intros Ha Hb Hs; repeat (apply Forall_cons; [|]); [..|constructor];
    (apply uint_lnot_spec || apply uint_xor_spec || apply uint_and_spec || apply uint_or_spec
     || apply uint_shl_spec || apply uint_shr_spec); assumption.
Qed.

Lemma uint_bits_refines_witness :
  let a := map Z.of_nat (seq 1 8) in
  val (uint_shl a 77) = (val a << 77) mod 2 ^ 256 /\ val (uint_shr a 300) = 0.
Proof.
  intros a; assert (Ha : wf 8 a) by (split; [reflexivity | words_dec]).
  pose proof (uint_bits_refines 8 a a 77 Ha Ha ltac:(lia)) as H.
  pose proof (uint_bits_refines 8 a a 300 Ha Ha ltac:(lia)) as H'.
  do 4 apply Forall_inv_tail in H; do 5 apply Forall_inv_tail in H'.
  split; [exact (proj2 (Forall_inv H))|].
  etransitivity; [exact (proj2 (Forall_inv H')) | vm_compute; reflexivity].
Defined.

(** The comparison operators, which scan the words from the most
    significant one, decide the order of the numbers; [==] and [!=] decide
    equality, also against a 64-bit number, and [operator!] decides zero. *)
Theorem uint_compare_refines (n : nat) (a b : list Z) (c : Z) :
  (2 <= n)%nat -> wf n a -> wf n b -> inw 64 c ->
  uint_lt a b = (val a <? val b) /\ uint_le a b = (val a <=? val b)
  /\ uint_gt a b = (val b <? val a) /\ uint_ge a b = (val b <=? val a)
  /\ uint_eq a b = (val a =? val b) /\ uint_eq64 a c = (val a =? c)
  /\ uint_is_zero a = (val a =? 0).
Proof.
  intros Hn Ha Hb Hc; pose proof Ha as [La Wa]; pose proof Hb as [Lb Wb].
  unfold uint_lt, uint_le, uint_gt, uint_ge; rewrite !gt_loop_lt, !lt_loop_spec by (assumption || lia).
  rewrite !firstn_all2 by lia.
  rewrite !andb_true_r, !andb_false_r, !orb_false_r.
  split; [reflexivity|]; split; [apply eq_iff_eq_true; rewrite orb_true_iff, Z.ltb_lt, Z.eqb_eq, Z.leb_le; lia|].
  split; [reflexivity|]; split; [apply eq_iff_eq_true; rewrite orb_true_iff, Z.ltb_lt, Z.eqb_eq, Z.leb_le; lia|].
  split; [now apply (uint_eq_spec n)|]; split; [|now apply (uint_is_zero_spec n)].
  destruct n as [|[|n]]; [lia | lia | now apply (uint_eq64_spec n)].
Qed.

Lemma uint_compare_refines_witness :
  let a := map Z.of_nat (seq 1 8) in let b := uint_incr a in
  uint_lt a b = true /\ uint_ge a b = false.
Proof.
  intros a b.
  destruct (uint_compare_refines 8 a b 0) as (E1 & _ & _ & E2 & _);
    [lia | split; [reflexivity | words_dec] | split; [reflexivity | words_dec] | unfold inw; lia|].
  rewrite E1, E2; vm_compute; split; reflexivity.
Defined.

(** [SetHex] inverts [GetHex]: the printed form of every value, after any
    white space and with or without a ["0x"] prefix, and followed by any text
    that does not begin with a digit, reads back as the value.  [GetHex]
    prints the 2 * WIDTH * 4 digits of the number, and on any string [SetHex]
    gives a well-formed value, the number written by the digits modulo
    [2^BITS]. *)
Theorem uint_hex_roundtrip (n : nat) (a sp rest psz : list Z) :
  (1 <= n)%nat -> wf n a -> forallb isspace sp = true -> hex_prefix rest = [] ->
  SetHex n (sp ++ GetHex a ++ rest) = a
  /\ SetHex n (sp ++ [48; 120] ++ GetHex a ++ rest) = a
  /\ length (GetHex a) = (8 * n)%nat /\ hexle (rev (GetHex a)) = val a
  /\ wf n (SetHex n psz)
  /\ val (SetHex n psz) = hexle (rev (hex_prefix (skip_0x (skip_spaces psz)))) mod modulus n.
Proof.
  intros Hn Ha Hsp Hr; pose proof (GetHex_digits a) as Hd; pose proof (length_GetHex a) as Hl.
  rewrite (proj1 Ha) in Hl.
  assert (Hv : hexle (rev (hex_prefix (GetHex a ++ rest))) mod modulus n = val a).
  { rewrite hex_prefix_digits, (GetHex_value n a Ha) by assumption; now apply val_mod. }
  split; [|split; [|split; [assumption | split; [now apply (GetHex_value n) | apply SetHex_value]]]].
  - destruct (SetHex_value n (sp ++ GetHex a ++ rest)) as [Hw E]; apply (val_inj n); [assumption.. |].
    rewrite E, skip_spaces_app, skip_digits by (assumption || lia); exact Hv.
  - destruct (SetHex_value n (sp ++ [48; 120] ++ GetHex a ++ rest)) as [Hw E].
    apply (val_inj n); [assumption.. |]; rewrite E, skip_spaces_app by assumption; exact Hv.
Qed.

Lemma uint_hex_roundtrip_witness :
  let a := map Z.of_nat (seq 1 8) in SetHex 8 ([32; 9] ++ [48; 120] ++ GetHex a ++ [10]) = a.
Proof.
  refine (proj1 (proj2 (uint_hex_roundtrip 8 (map Z.of_nat (seq 1 8)) [32; 9] [10] []
    ltac:(lia) _ eq_refl eq_refl))); split; [reflexivity | words_dec].
Defined.
