(* ===== verification/X11.v ===== *)
(** * X11: the block hash of hashblock.h

    [Hash9] chains eleven 512-bit hash functions, each over the 64-byte
    digest of the one before it, and keeps the first 256 bits.  The chain is
    a client of the interface [StreamHash]: it is modelled and verified for
    any implementations of the interface, then instantiated with the ten
    verified ones.  SIMD stays a parameter. *)

From Stdlib Require Import ZArith List Lia Bool.
From S2P Require Import Prelude SphTypes Stream CubeHash Keccak KeccakSpec Blake BlakeSpec Skein SkeinSpec Bmw BmwSpec.
From S2P Require Import Jh JhSpec LuffaSpec Echo EchoSpec Shavite ShaviteSpec Groestl GroestlSpec.
Import ListNotations.

Open Scope Z_scope.

(** [sph_xxx512_init(&ctx); sph_xxx512(&ctx, data, len);
    sph_xxx512_close(&ctx, &hash[i])]: the bytes written to [hash[i]] and the
    context left behind. *)
Definition hash_stage (F : StreamHash) (ctx : hctx) (data : list Z) : list Z * hctx :=
  let ctx := hinit ctx in
  let ctx := hupdate ctx data in
  hclose ctx.

(** [uint512::pn], sixteen 32-bit words in little-endian memory, and
    [trim256]: its first [uint256::WIDTH = 8] words. *)
Definition pn512 (bytes : list Z) : list Z := read_words sph_dec32le 4 16 bytes.

Definition trim256 (pn : list Z) : list Z := map (fun i => nth i pn 0) (seq 0 8).

Section Chain.
Context (blake bmw groestl skein jh keccak luffa cubehash shavite simd echo : StreamHash).

(** The eleven local contexts, uninitialised. *)
Record x11_contexts := Contexts {
  ctx_blake : @hctx blake;
  ctx_bmw : @hctx bmw;
  ctx_groestl : @hctx groestl;
  ctx_skein : @hctx skein;
  ctx_jh : @hctx jh;
  ctx_keccak : @hctx keccak;
  ctx_luffa : @hctx luffa;
  ctx_cubehash : @hctx cubehash;
  ctx_shavite : @hctx shavite;
  ctx_simd : @hctx simd;
  ctx_echo : @hctx echo
}.

(** [Hash9(pbegin, pend)] on the bytes from [pbegin] to [pend]: the words of
    the returned [uint256]. *)
Definition Hash9 (c : x11_contexts) (data : list Z) : list Z :=
  let (hash0, _) := hash_stage blake (ctx_blake c) data in
  let (hash1, _) := hash_stage bmw (ctx_bmw c) (firstn 64 hash0) in
  let (hash2, _) := hash_stage groestl (ctx_groestl c) (firstn 64 hash1) in
  let (hash3, _) := hash_stage skein (ctx_skein c) (firstn 64 hash2) in
  let (hash4, _) := hash_stage jh (ctx_jh c) (firstn 64 hash3) in
  let (hash5, _) := hash_stage keccak (ctx_keccak c) (firstn 64 hash4) in
  let (hash6, _) := hash_stage luffa (ctx_luffa c) (firstn 64 hash5) in
  let (hash7, _) := hash_stage cubehash (ctx_cubehash c) (firstn 64 hash6) in
  let (hash8, _) := hash_stage shavite (ctx_shavite c) (firstn 64 hash7) in
  let (hash9, _) := hash_stage simd (ctx_simd c) (firstn 64 hash8) in
  let (hash10, _) := hash_stage echo (ctx_echo c) (firstn 64 hash9) in
  trim256 (pn512 hash10).

(** ** Specification: composition of the digests, first 32 bytes *)
Definition x11_digest (m : list Z) : list Z :=
  @digest echo (@digest simd (@digest shavite (@digest cubehash (@digest luffa
    (@digest keccak (@digest jh (@digest skein (@digest groestl (@digest bmw
      (@digest blake m)))))))))).

Definition x11_spec (m : list Z) : list Z := firstn 32 (x11_digest m).

(** The contexts have the sizes of their C types. *)
Record contexts_ok (c : x11_contexts) : Prop := {
  ok_blake : hctx_ok (ctx_blake c);
  ok_bmw : hctx_ok (ctx_bmw c);
  ok_groestl : hctx_ok (ctx_groestl c);
  ok_skein : hctx_ok (ctx_skein c);
  ok_jh : hctx_ok (ctx_jh c);
  ok_keccak : hctx_ok (ctx_keccak c);
  ok_luffa : hctx_ok (ctx_luffa c);
  ok_cubehash : hctx_ok (ctx_cubehash c);
  ok_shavite : hctx_ok (ctx_shavite c);
  ok_simd : hctx_ok (ctx_simd c);
  ok_echo : hctx_ok (ctx_echo c)
}.

(** Every stage has a 512-bit digest. *)
Definition all_512 : Prop :=
  @hlen blake = 64%nat /\ @hlen bmw = 64%nat /\ @hlen groestl = 64%nat /\ @hlen skein = 64%nat
  /\ @hlen jh = 64%nat /\ @hlen keccak = 64%nat /\ @hlen luffa = 64%nat /\ @hlen cubehash = 64%nat
  /\ @hlen shavite = 64%nat /\ @hlen simd = 64%nat /\ @hlen echo = 64%nat.

Lemma stage_spec (F : StreamHash) c data :
  hctx_ok c -> words 8 data -> Z.of_nat (length data) < SIZE_MAX ->
  fst (hash_stage F c data) = digest data.
Proof.
  intros Hc Hw Hl; pose proof (hclose_correct c [data] Hc) as H.
  cbn [concat fold_left] in H; rewrite app_nil_r in H; now apply H.
Qed.

(** A stage over the digest of the stage before it. *)
Lemma stage_next (F G : StreamHash) c m :
  hctx_ok c -> @hlen F = 64%nat ->
  fst (hash_stage G c (firstn 64 (@digest F m))) = @digest G (@digest F m).
Proof.
  intros Hc Hl; rewrite firstn_all2 by (rewrite digest_length; lia).
  apply stage_spec; [assumption | apply digest_bytes | rewrite digest_length, Hl; reflexivity].
Qed.

Lemma enc_dec_word l : words 8 l -> (4 <= length l)%nat -> sph_enc32le (sph_dec32le l) = firstn 4 l.
Proof.
  intros Hw Hl; rewrite sph_dec32le_combine, sph_enc32le_split by assumption.
  assert (E : length (firstn 4 l) = 4%nat) by (rewrite length_firstn; lia).
  rewrite <- E at 1; apply le_split_combine; auto with word.
Qed.

Lemma enc_dec_words n l : words 8 l -> (4 * n <= length l)%nat ->
  flat_map sph_enc32le (read_words sph_dec32le 4 n l) = firstn (4 * n) l.
Proof.
  intros Hw; induction n as [|n IH]; intros Hl; [reflexivity|].
  unfold read_words in *; rewrite seq_S, map_app, flat_map_app, IH by lia; cbn [map flat_map Nat.add].
  rewrite app_nil_r, enc_dec_word by (auto with word || rewrite length_skipn; lia).
  replace (4 * S n)%nat with (4 * n + 4)%nat by lia.
  now rewrite <- (firstn_skipn (4 * n) (firstn (4 * n + 4) l)), firstn_firstn, Nat.min_l,
    <- firstn_skipn_comm by lia.
Qed.

(** The low 256 bits of the little-endian number are the first 32 bytes. *)
Lemma trim256_bytes l : length l = 64%nat -> words 8 l ->
  flat_map sph_enc32le (trim256 (pn512 l)) = firstn 32 l.
Proof.
  intros Hl Hw; change (trim256 (pn512 l)) with (read_words sph_dec32le 4 8 l).
  apply (enc_dec_words 8); [assumption | lia].
Qed.

Lemma let_fst {A B C} (p : A * B) (f : A -> C) : (let (a, _) := p in f a) = f (fst p).
Proof. now destruct p. Qed.

(** C38: On every message of fewer than [SIZE_MAX] bytes the words returned by
    [Hash9] are, as bytes, the first 32 bytes of the composition of the
    eleven digests in the order blake, bmw, groestl, skein, jh, keccak, luffa,
    cubehash, shavite, simd, echo: the chain passes each digest whole to the
    next function, and the result does not depend on what the uninitialised
    contexts held. *)
Theorem x11_correct (c : x11_contexts) (data : list Z) :
  all_512 -> contexts_ok c -> words 8 data -> Z.of_nat (length data) < SIZE_MAX ->
  flat_map sph_enc32le (Hash9 c data) = x11_spec data
  /\ length (Hash9 c data) = 8%nat.
Proof.
  intros (L1 & L2 & L3 & L4 & L5 & L6 & L7 & L8 & L9 & L10 & L11) [] Hw Hl.
  unfold Hash9, x11_spec, x11_digest; rewrite !let_fst.
  rewrite (stage_spec blake), !stage_next by assumption.
  split; [|reflexivity].
  apply trim256_bytes; [now rewrite digest_length | apply digest_bytes].
Qed.
End Chain.

(** ** The chain with the verified functions

    CubeHash stands in for SIMD. *)
Definition sample_contexts :
  x11_contexts blake512_hash bmw512_hash groestl512_hash skein512_hash jh512_hash keccak512_hash luffa512_hash
    cubehash512_hash shavite512_hash cubehash512_hash echo512_hash :=
  @Contexts blake512_hash bmw512_hash groestl512_hash skein512_hash jh512_hash keccak512_hash luffa512_hash
    cubehash512_hash shavite512_hash cubehash512_hash echo512_hash
    (repeat 0xAA 128, Ctx (repeat 0xAA 128) 7 (BState [] [] 1 2))
    (Ctx (repeat 0xAA 128) 7 (Bmw.Bmw [] 3))
    (Ctx (repeat 0xAA 128) 7 (GState [] 1))
    (Ctx (repeat 0xAA 64) 7 (Sk 1 2 3 4 5 6 7 8 9))
    (Ctx (repeat 0xAA 64) 7 (JState [] 3))
    (Ctx (repeat 0xAA 144) 7 (KState [] 0))
    (Ctx (repeat 0xAA 32) 7 [])
    (Ctx (repeat 0xAA 32) 7 [])
    (Ctx (repeat 0xAA 128) 7 (Big [] 1 2 3 4))
    (Ctx (repeat 0xAA 32) 7 [])
    (Ctx (repeat 0xAA 128) 7 (EState [] 1 2 3 4)).

Lemma x11_correct_witness :
  flat_map sph_enc32le (Hash9 _ _ _ _ _ _ _ _ _ _ _ sample_contexts (repeat 0x5A 80))
  = x11_spec blake512_hash bmw512_hash groestl512_hash skein512_hash jh512_hash keccak512_hash luffa512_hash
      cubehash512_hash shavite512_hash cubehash512_hash echo512_hash (repeat 0x5A 80).
Proof.
  refine (proj1 (x11_correct _ _ _ _ _ _ _ _ _ _ _ sample_contexts (repeat 0x5A 80) _ _ _ _)).
  - repeat split.
  - constructor; repeat split.
  - words_dec.
  - reflexivity.
Defined.
