(* ===== verification/Containers.v ===== *)
(** * Containers: the bounded containers of mruset.h and limitedmap.h

    [mruset] pairs a set with the queue of its elements in insertion order;
    [limitedmap] pairs a map with a multimap from values to its entries.
    Each component's invariant says that the two views agree; the theorems
    show that every operation keeps it, what each operation does to the
    abstract container, and how many elements the containers hold. *)

From stdpp Require Import gmap list sorting.

(** ** mruset *)

Section Mruset.
Context {T : Type} `{Countable T}.

Record mruset := Mru { mset : gset T; queue : list T; nMaxSize : nat }.

Definition mruset_new (nMaxSizeIn : nat) : mruset := Mru ∅ [] nMaxSizeIn.

(** [set.erase(queue.front()); queue.pop_front();] *)
Definition mru_pop (m : mruset) : mruset :=
  match queue m with
  | x :: q => Mru (mset m ∖ {[x]}) q (nMaxSize m)
  | [] => m
  end.

Definition mru_insert (m : mruset) (x : T) : mruset * bool :=
  if decide (x ∈ mset m) then (m, false)
  else
    let m1 := Mru ({[x]} ∪ mset m) (queue m) (nMaxSize m) in
    let m1 := if negb (nMaxSize m =? 0) && (length (queue m) =? nMaxSize m)
              then mru_pop m1 else m1 in
    (Mru (mset m1) (queue m1 ++ [x]) (nMaxSize m1), true).

(** [while (queue.size() > s) { set.erase(queue.front()); queue.pop_front(); }];
    each iteration removes an element, so the queue's length is fuel enough. *)
Fixpoint mru_shrink (fuel s : nat) (m : mruset) : mruset :=
  match fuel with
  | O => m
  | S fuel => if s <? length (queue m) then mru_shrink fuel s (mru_pop m) else m
  end.

Definition mru_set_max_size (m : mruset) (s : nat) : mruset :=
  let m := if s =? 0 then m else mru_shrink (length (queue m)) s m in
  Mru (mset m) (queue m) s.

Definition mru_count (m : mruset) (k : T) : nat := if decide (k ∈ mset m) then 1 else 0.
Definition mru_size (m : mruset) : nat := size (mset m).

(** The two views agree and the bound holds. *)
Definition mru_wf (m : mruset) : Prop :=
  NoDup (queue m) ∧ mset m = list_to_set (queue m)
  ∧ (nMaxSize m ≠ 0 → length (queue m) ≤ nMaxSize m).

(** The container seen from outside: the list of its elements, oldest first. *)
Definition keep_last (n : nat) (l : list T) : list T :=
  if n =? 0 then l else drop (length l - n) l.

Inductive mru_op := OpInsert (x : T) | OpMaxSize (s : nat).

Definition mru_step (m : mruset) (o : mru_op) : mruset :=
  match o with
  | OpInsert x => fst (mru_insert m x)
  | OpMaxSize s => mru_set_max_size m s
  end.

Definition fifo_step (a : list T * nat) (o : mru_op) : list T * nat :=
  match o with
  | OpInsert x => (if decide (x ∈ a.1) then a.1 else keep_last a.2 (a.1 ++ [x]), a.2)
  | OpMaxSize s => (keep_last s a.1, s)
  end.

Lemma mru_mem m x : mru_wf m → x ∈ mset m ↔ x ∈ queue m.
Proof. intros (_ & -> & _). by rewrite elem_of_list_to_set. Qed.

Lemma NoDup_snoc (l : list T) x : NoDup l → x ∉ l → NoDup (l ++ [x]).
Proof.
  intros Hl Hx. apply NoDup_app. split_and!; [done| |apply NoDup_singleton].
  intros y Hy ->%list_elem_of_singleton. done.
Qed.

Lemma mru_pop_wf m :
  mru_wf m → mru_wf (mru_pop m) ∧ queue (mru_pop m) = drop 1 (queue m)
             ∧ nMaxSize (mru_pop m) = nMaxSize m.
Proof.
  intros (Hnd & Hs & Hb). unfold mru_pop. destruct m as [ms q n]; simpl in *.
  destruct q as [|x q]; simpl in *; [done|]. apply NoDup_cons in Hnd as [Hx Hnd].
  split_and!; [|done|done]. split_and!; simpl; [done| |intros Hn; specialize (Hb Hn); lia].
  subst ms. set_solver.
Qed.

Lemma mru_shrink_spec fuel s m :
  mru_wf m → length (queue m) ≤ fuel →
  let m' := mru_shrink fuel s m in
  mru_wf m' ∧ queue m' = drop (length (queue m) - s) (queue m).
Proof.
  revert m. induction fuel as [|fuel IH]; intros m Hwf Hf; simpl.
  { split; [done|]. by destruct (queue m); simpl in *; [|lia]. }
  destruct (Nat.ltb_spec s (length (queue m))) as [Hlt|Hge].
  - destruct (mru_pop_wf m Hwf) as (Hwf' & Hq & _).
    destruct (IH (mru_pop m) Hwf') as [? Hd]; [rewrite Hq, length_drop; lia|].
    split; [done|]. rewrite Hd, Hq, drop_drop, length_drop. f_equal; lia.
  - split; [done|]. by replace (length (queue m) - s) with 0 by lia.
Qed.

Lemma mru_insert_spec m x :
  mru_wf m →
  mru_wf (fst (mru_insert m x)) ∧ nMaxSize (fst (mru_insert m x)) = nMaxSize m
  ∧ queue (fst (mru_insert m x))
    = (if decide (x ∈ queue m) then queue m else keep_last (nMaxSize m) (queue m ++ [x])).
Proof.
  intros Hwf. pose proof (mru_mem m x Hwf) as Hm. unfold mru_insert.
  destruct (decide (x ∈ mset m)) as [Hin|Hin]; [by rewrite decide_True by tauto|].
  rewrite decide_False by tauto. destruct Hwf as (Hnd & Hs & Hb). simpl.
  unfold keep_last. rewrite length_app; simpl.
  destruct (Nat.eqb_spec (nMaxSize m) 0) as [Hz|Hz]; simpl.
  - split_and!; [|done|done]. split_and!; simpl; [|set_solver|lia].
    apply NoDup_snoc; tauto.
  - specialize (Hb Hz). destruct (Nat.eqb_spec (length (queue m)) (nMaxSize m)) as [Hf|Hf].
    + destruct m as [ms [|y q] n]; simpl in *; [lia|]. apply NoDup_cons in Hnd as [Hy Hnd].
      split_and!; [|done|]; [split_and!; simpl|].
      * apply NoDup_snoc; [done|]. intros ?; apply Hin, Hm. by right.
      * subst ms. apply leibniz_equiv. set_solver.
      * rewrite length_app; simpl. lia.
      * unfold mru_pop; simpl. by replace (S (length q + 1) - n) with 1 by lia.
    + split_and!; [|done|]; [split_and!; simpl; [|set_solver|rewrite length_app; simpl; lia]|].
      * apply NoDup_snoc; tauto.
      * simpl. by replace (length (queue m) + 1 - nMaxSize m) with 0 by lia.
Qed.

Lemma mru_max_size_spec m s :
  mru_wf m → mru_wf (mru_set_max_size m s)
             ∧ queue (mru_set_max_size m s) = keep_last s (queue m).
Proof.
  intros Hwf. unfold mru_set_max_size, keep_last. destruct (Nat.eqb_spec s 0) as [->|Hs]; simpl.
  - split; [|done]. destruct Hwf as (? & ? & _). by split_and!.
  - destruct (mru_shrink_spec (length (queue m)) s m Hwf ltac:(lia)) as [(Hnd & Hset & _) Hq].
    split; [|done]. split_and!; simpl; [done|done|]. intros _. rewrite Hq, length_drop. lia.
Qed.

Lemma mru_step_spec m o :
  mru_wf m →
  mru_wf (mru_step m o)
  ∧ (queue (mru_step m o), nMaxSize (mru_step m o)) = fifo_step (queue m, nMaxSize m) o.
Proof.
  intros Hwf. destruct o as [x|s]; simpl.
  - destruct (mru_insert_spec m x Hwf) as (? & -> & ->). done.
  - destruct (mru_max_size_spec m s Hwf) as [? Hq]. split; [done|]. by rewrite <- Hq.
Qed.

(** Starting from an empty [mruset], any sequence of insertions and
    changes of the bound keeps the set and the queue in agreement, within the
    bound, and behaves as a first-in first-out buffer of distinct elements:
    inserting a present element changes nothing (its age is not refreshed), a
    new element goes last and the oldest one leaves when the bound is reached,
    lowering the bound keeps the newest elements, and a bound of zero keeps
    everything. *)
Theorem mruset_refines_fifo (n : nat) (ops : list mru_op) :
  let m := fold_left mru_step ops (mruset_new n) in
  let a := fold_left fifo_step ops ([], n) in
  mru_wf m ∧ queue m = a.1 ∧ nMaxSize m = a.2
  ∧ mru_size m = length a.1 ∧ (a.2 ≠ 0 → mru_size m ≤ a.2)
  ∧ ∀ x, mru_count m x = if decide (x ∈ a.1) then 1 else 0.
Proof.
  assert (Hgen : ∀ m, mru_wf m →
    let m' := fold_left mru_step ops m in
    mru_wf m' ∧ (queue m', nMaxSize m') = fold_left fifo_step ops (queue m, nMaxSize m)).
  { induction ops as [|o ops IH]; intros m Hwf; simpl; [done|].
    destruct (mru_step_spec m o Hwf) as [Hwf' <-]. by apply IH. }
  intros m a. destruct (Hgen (mruset_new n)) as [Hwf Ha].
  { split_and!; simpl; [constructor|done|lia]. }
  fold m in Hwf. change ((queue m, nMaxSize m) = a) in Ha.
  assert (Hq : queue m = a.1) by by rewrite <- Ha.
  assert (Hn : nMaxSize m = a.2) by by rewrite <- Ha.
  assert (Hsz : mru_size m = length a.1).
  { destruct Hwf as (Hnd & Hs & _). unfold mru_size. by rewrite Hs, size_list_to_set, Hq. }
  split_and!; [done..| |].
  - rewrite Hsz, <- Hq, <- Hn. apply Hwf.
  - intros x. unfold mru_count. pose proof (mru_mem m x Hwf) as Hm. rewrite Hq in Hm.
    repeat case_decide; tauto.
Qed.
End Mruset.
Arguments mruset T {_ _}.
Arguments mru_op : clear implicits.

(** ** limitedmap

    The multimap [rmap] orders entries by value, equal values in insertion
    order; an iterator into [map] is the entry's key.  Where the code
    dereferences [rmap.begin()] of an empty multimap the result is undefined
    and the model returns [None]; so does the failed [assert(0)]. *)
Section Limitedmap.
Context {K : Type} `{Countable K}.

Record limitedmap := Lmap { lmap : gmap K Z; rmap : list (Z * K); lMaxSize : nat }.

Definition limitedmap_new (nMaxSizeIn : nat) : limitedmap := Lmap ∅ [] nMaxSizeIn.

(** [rmap.insert(make_pair(v, it))]: after the entries with the same value. *)
Fixpoint rmap_insert (v : Z) (k : K) (r : list (Z * K)) : list (Z * K) :=
  match r with
  | [] => [(v, k)]
  | (v', k') :: r' => if bool_decide (v < v')%Z then (v, k) :: r else (v', k') :: rmap_insert v k r'
  end.

(** [map.erase(rmap.begin()->second); rmap.erase(rmap.begin());] *)
Definition lm_evict (m : limitedmap) : option limitedmap :=
  match rmap m with
  | [] => None
  | (_, k) :: r => Some (Lmap (delete k (lmap m)) r (lMaxSize m))
  end.

Definition lm_insert (m : limitedmap) (k : K) (v : Z) : option limitedmap :=
  match lmap m !! k with
  | Some _ => Some m
  | None =>
      let m1 := Lmap (<[k:=v]> (lmap m)) (rmap m) (lMaxSize m) in
      m2 ← (if negb (lMaxSize m =? 0) && (size (lmap m1) =? lMaxSize m)
            then lm_evict m1 else Some m1);
      Some (Lmap (lmap m2) (rmap_insert v k (rmap m2)) (lMaxSize m2))
  end.

(** The loop over [rmap.equal_range(v)]: the entry of [k] among those of
    value [v] is removed; [None] when it is not there. *)
Fixpoint rmap_erase (v : Z) (k : K) (r : list (Z * K)) : option (list (Z * K)) :=
  match r with
  | [] => None
  | (v', k') :: r' =>
      if bool_decide (v' = v ∧ k' = k) then Some r'
      else r'' ← rmap_erase v k r'; Some ((v', k') :: r'')
  end.

Definition lm_erase (m : limitedmap) (k : K) : option limitedmap :=
  match lmap m !! k with
  | None => Some m
  | Some v => r ← rmap_erase v k (rmap m); Some (Lmap (delete k (lmap m)) r (lMaxSize m))
  end.

Definition lm_update (m : limitedmap) (k : K) (v : Z) : option limitedmap :=
  match lmap m !! k with
  | None => Some m
  | Some v0 =>
      r ← rmap_erase v0 k (rmap m);
      Some (Lmap (<[k:=v]> (lmap m)) (rmap_insert v k r) (lMaxSize m))
  end.

(** [while (map.size() > s) ...], with fuel for one eviction per entry. *)
Fixpoint lm_shrink (fuel s : nat) (m : limitedmap) : option limitedmap :=
  match fuel with
  | O => Some m
  | S fuel => if s <? size (lmap m) then m' ← lm_evict m; lm_shrink fuel s m' else Some m
  end.

Definition lm_set_max_size (m : limitedmap) (s : nat) : option limitedmap :=
  m' ← (if s =? 0 then Some m else lm_shrink (size (lmap m)) s m);
  Some (Lmap (lmap m') (rmap m') s).

(** The multimap lists the entries of the map, smallest value first. *)
Definition value_le (a b : Z * K) : Prop := (a.1 ≤ b.1)%Z.

Definition lm_wf (m : limitedmap) : Prop :=
  rmap m ≡ₚ prod_swap <$> map_to_list (lmap m) ∧ Sorted value_le (rmap m).

Lemma rmap_insert_perm v k r : rmap_insert v k r ≡ₚ (v, k) :: r.
Proof.
  induction r as [|[v' k'] r IH]; simpl; [done|]. case_bool_decide; [done|].
  rewrite IH. constructor.
Qed.

Lemma rmap_insert_sorted v k r : Sorted value_le r → Sorted value_le (rmap_insert v k r).
Proof.
  induction 1 as [|[v' k'] r Hr IH Hd]; simpl; [by repeat constructor|].
  case_bool_decide; [repeat constructor; [done..|by unfold value_le; simpl; lia]|].
  constructor; [done|]. destruct r as [|[v2 k2] r]; simpl; [constructor; unfold value_le; simpl; lia|].
  inversion_clear Hd. case_bool_decide; constructor; [unfold value_le; simpl; lia|done].
Qed.

Lemma rmap_erase_spec v k r :
  (v, k) ∈ r → Sorted value_le r →
  ∃ r', rmap_erase v k r = Some r' ∧ r ≡ₚ (v, k) :: r' ∧ Sorted value_le r'.
Proof.
  intros Hin Hs. apply Sorted_StronglySorted in Hs; [|intros [] [] []; unfold value_le; simpl; lia].
  enough (∃ r', rmap_erase v k r = Some r' ∧ r ≡ₚ (v, k) :: r' ∧ StronglySorted value_le r')
    as (r' & ? & ? & ?%StronglySorted_Sorted) by eauto.
  induction Hs as [|[v' k'] r Hs IH Hall]; simpl; [by apply not_elem_of_nil in Hin|].
  case_bool_decide as Hd; [destruct Hd as [-> ->]; eauto|].
  apply elem_of_cons in Hin as [[= -> ->]|Hin]; [tauto|].
  destruct (IH Hin) as (r' & -> & Hp & Hs'). exists ((v', k') :: r'); simpl.
  split_and!; [done| |].
  - rewrite Hp. constructor.
  - constructor; [done|]. rewrite Hp in Hall. by inversion Hall.
Qed.

Lemma lm_wf_lookup m v k : lm_wf m → (v, k) ∈ rmap m ↔ lmap m !! k = Some v.
Proof.
  intros [Hp _]. rewrite Hp, list_elem_of_fmap. split.
  - intros ([k' v'] & [= -> ->] & Hin). by apply elem_of_map_to_list.
  - intros Hk. exists (k, v). split; [done|]. by apply elem_of_map_to_list.
Qed.

Lemma lm_wf_size m : lm_wf m → length (rmap m) = size (lmap m).
Proof. intros [Hp _]. by rewrite Hp, length_fmap, length_map_to_list. Qed.

Lemma lm_wf_insert (mm : gmap K Z) r k v n :
  lm_wf (Lmap mm r n) → mm !! k = None → lm_wf (Lmap (<[k:=v]> mm) (rmap_insert v k r) n).
Proof.
  intros [Hp Hs] Hk. split; simpl in *; [|by apply rmap_insert_sorted].
  rewrite rmap_insert_perm, map_to_list_insert by done. simpl. by rewrite Hp.
Qed.

Lemma lm_wf_delete (mm : gmap K Z) r k v n :
  lm_wf (Lmap mm r n) → mm !! k = Some v → ∀ r', r ≡ₚ (v, k) :: r' → Sorted value_le r' →
  lm_wf (Lmap (delete k mm) r' n).
Proof.
  intros [Hp Hs] Hk r' Hr Hs'. split; simpl in *; [|done].
  apply (Permutation_cons_inv (a := (v, k))). rewrite <- Hr, Hp.
  rewrite <- (insert_delete_id mm k v Hk) at 1. rewrite map_to_list_insert by apply lookup_delete_eq. done.
Qed.

(** What [insert] does when the key is new. *)
Lemma lm_insert_spec m k v :
  lm_wf m → lmap m !! k = None →
  if negb (lMaxSize m =? 0) && (S (size (lmap m)) =? lMaxSize m) then
    match rmap m with
    | [] => lm_insert m k v = None
    | (v0, k0) :: _ =>
        lmap m !! k0 = Some v0 ∧ (∀ k' v', lmap m !! k' = Some v' → (v0 ≤ v')%Z)
        ∧ ∃ m', lm_insert m k v = Some m' ∧ lm_wf m' ∧ lMaxSize m' = lMaxSize m
                ∧ lmap m' = <[k:=v]> (delete k0 (lmap m))
    end
  else ∃ m', lm_insert m k v = Some m' ∧ lm_wf m' ∧ lMaxSize m' = lMaxSize m
             ∧ lmap m' = <[k:=v]> (lmap m).
Proof.
  intros Hwf Hk. unfold lm_insert. rewrite Hk. cbn [lmap]. rewrite map_size_insert_None by done.
  destruct m as [mm r n]; cbn [lmap rmap lMaxSize] in *.
  destruct (negb (n =? 0) && (S (size mm) =? n)).
  - unfold lm_evict; simpl. destruct r as [|[v0 k0] r]; simpl; [done|].
    assert (Hk0 : mm !! k0 = Some v0) by (apply (lm_wf_lookup _ _ _ Hwf); by left).
    split_and!; [done| |].
    { intros k' v' Hk'. apply (lm_wf_lookup _ _ _ Hwf) in Hk'; simpl in Hk'.
      destruct Hwf as [_ Hs]; simpl in Hs.
      apply Sorted_StronglySorted in Hs; [|intros [] [] []; unfold value_le; simpl; lia].
      inversion_clear Hs as [|? ? _ Hall]. apply elem_of_cons in Hk' as [[= -> ->]|Hin]; [done|].
      rewrite Forall_forall in Hall. apply (Hall _ Hin). }
    assert (Hne : k ≠ k0) by congruence. eexists. split_and!; [done| |done|].
    + simpl. rewrite delete_insert_ne by done. apply lm_wf_insert; [|rewrite lookup_delete_ne; done].
      apply (lm_wf_delete mm ((v0, k0) :: r) k0 v0 n Hwf Hk0 r); [done|].
      destruct Hwf as [_ Hs]. by inversion Hs.
    + simpl. by rewrite delete_insert_ne.
  - eexists. split_and!; [done| |done|done]. simpl. by apply lm_wf_insert.
Qed.

Lemma lm_erase_spec m k :
  lm_wf m → ∃ m', lm_erase m k = Some m' ∧ lm_wf m' ∧ lMaxSize m' = lMaxSize m
                  ∧ lmap m' = delete k (lmap m).
Proof.
  intros Hwf. unfold lm_erase. destruct (lmap m !! k) as [v|] eqn:Hk.
  - destruct (rmap_erase_spec v k (rmap m)) as (r' & -> & Hp & Hs);
      [by apply lm_wf_lookup|apply Hwf|].
    eexists. split_and!; [done| |done|done]. destruct m. by eapply lm_wf_delete.
  - exists m. split_and!; [done..|]. by rewrite delete_id.
Qed.

Lemma lm_update_spec m k v :
  lm_wf m → ∃ m', lm_update m k v = Some m' ∧ lm_wf m' ∧ lMaxSize m' = lMaxSize m
                  ∧ lmap m' = alter (λ _, v) k (lmap m).
Proof.
  intros Hwf. unfold lm_update. destruct (lmap m !! k) as [v0|] eqn:Hk.
  - destruct (rmap_erase_spec v0 k (rmap m)) as (r' & -> & Hp & Hs);
      [by apply lm_wf_lookup|apply Hwf|].
    eexists. split_and!; [done| |done|].
    + simpl. rewrite <- insert_delete_eq. apply lm_wf_insert; [|apply lookup_delete_eq].
      destruct m. by eapply lm_wf_delete.
    + simpl. apply map_eq; intros i. destruct (decide (i = k)) as [->|].
      * by rewrite lookup_insert_eq, lookup_alter_eq, Hk.
      * by rewrite lookup_insert_ne, lookup_alter_ne.
  - exists m. split_and!; [done..|]. apply map_eq; intros i. destruct (decide (i = k)) as [->|].
    + by rewrite lookup_alter_eq, Hk.
    + by rewrite lookup_alter_ne.
Qed.

Inductive lm_op := LInsert (k : K) (v : Z) | LErase (k : K) | LUpdate (k : K) (v : Z).

Definition lm_step (m : limitedmap) (o : lm_op) : option limitedmap :=
  match o with
  | LInsert k v => lm_insert m k v
  | LErase k => lm_erase m k
  | LUpdate k v => lm_update m k v
  end.

Fixpoint lm_run (m : limitedmap) (ops : list lm_op) : option limitedmap :=
  match ops with
  | [] => Some m
  | o :: ops => m' ← lm_step m o; lm_run m' ops
  end.

Definition lm_bounded (m : limitedmap) : Prop := lMaxSize m = 0 ∨ size (lmap m) < lMaxSize m.

Lemma lm_step_bounded m o :
  lMaxSize m ≠ 1 → lm_wf m → lm_bounded m →
  ∃ m', lm_step m o = Some m' ∧ lm_wf m' ∧ lMaxSize m' = lMaxSize m ∧ lm_bounded m'.
Proof.
  intros H1 Hwf Hb. unfold lm_bounded in *. destruct o as [k v|k|k v]; simpl.
  - destruct (lmap m !! k) as [v0|] eqn:Hk; [unfold lm_insert; rewrite Hk; eauto|].
    pose proof (lm_insert_spec m k v Hwf Hk) as Hi. destruct (negb _ && _) eqn:Hc.
    + apply andb_prop in Hc as [Hc1 Hc2%Nat.eqb_eq]. apply negb_true_iff, Nat.eqb_neq in Hc1.
      pose proof (lm_wf_size m Hwf) as Hsz. destruct (rmap m) as [|[v0 k0] r]; simpl in *; [lia|].
      destruct Hi as (Hk0 & _ & m' & ? & ? & Hn & Hm). exists m'; split_and!; [done..|]. right. rewrite Hn, Hm.
      rewrite map_size_insert_None by (rewrite lookup_delete_ne; [done|congruence]).
      rewrite map_size_delete, Hk0. simpl. lia.
    + destruct Hi as (m' & ? & ? & Hn & Hm). exists m'; split_and!; [done..|]. rewrite Hn, Hm.
      rewrite map_size_insert_None by done. apply andb_false_iff in Hc as [Hc|Hc].
      * apply negb_false_iff, Nat.eqb_eq in Hc. by left.
      * apply Nat.eqb_neq in Hc. destruct Hb; [by left|right; lia].
  - destruct (lm_erase_spec m k Hwf) as (m' & ? & ? & Hn & Hm). exists m'; split_and!; [done..|]. rewrite Hn, Hm.
    destruct Hb; [by left|right]. rewrite map_size_delete. destruct (lmap m !! k); simpl; lia.
  - destruct (lm_update_spec m k v Hwf) as (m' & ? & ? & Hn & Hm). exists m'; split_and!; [done..|]. rewrite Hn, Hm.
    rewrite <- !size_dom, dom_alter_L by done. by rewrite size_dom.
Qed.

Lemma lm_run_bounded m ops :
  lMaxSize m ≠ 1 → lm_wf m → lm_bounded m →
  ∃ m', lm_run m ops = Some m' ∧ lm_wf m' ∧ lMaxSize m' = lMaxSize m ∧ lm_bounded m'.
Proof.
  revert m. induction ops as [|o ops IH]; intros m H1 Hwf Hb; simpl; [by eauto|].
  destruct (lm_step_bounded m o H1 Hwf Hb) as (m' & -> & Hwf' & Hn & Hb'). simpl.
  destruct (IH m') as (m2 & ? & ? & ? & ?); [congruence|done..|]. exists m2. split_and!; congruence.
Qed.

Lemma lm_new_wf n : lm_wf (limitedmap_new n).
Proof. split; simpl; [by rewrite map_to_list_empty|constructor]. Qed.

(** A [limitedmap] made with the bound [n] and used through [insert],
    [erase] and [update] never reaches an undefined operation or the
    [assert(0)], keeps the map and the value-ordered multimap in agreement,
    and holds at most [n - 1] entries ([n = 0] is no bound), provided [n] is
    not 1.  With the bound 1 the first insertion dereferences the beginning of
    an empty multimap.  When an insertion evicts, it removes the entry of the
    smallest value among those present before, and never the new one. *)
Theorem limitedmap_bound (n : nat) (ops : list lm_op) (k : K) (v : Z) :
  n ≠ 1 →
  lm_insert (limitedmap_new 1) k v = None
  ∧ ∃ m, lm_run (limitedmap_new n) ops = Some m ∧ lm_wf m
         ∧ (n ≠ 0 → size (lmap m) ≤ n - 1)
         ∧ (lmap m !! k = None →
            ∃ m', lm_insert m k v = Some m' ∧ lmap m' !! k = Some v
                  ∧ (lmap m' = <[k:=v]> (lmap m)
                     ∨ ∃ k0 v0, lmap m !! k0 = Some v0 ∧ lmap m' = <[k:=v]> (delete k0 (lmap m))
                                ∧ ∀ k' v', lmap m !! k' = Some v' → (v0 ≤ v')%Z)).
Proof.
  intros Hn. split.
  { unfold lm_insert; cbn [lmap limitedmap_new lMaxSize rmap].
    by rewrite lookup_empty, map_size_insert_None, map_size_empty by apply lookup_empty. }
  destruct (lm_run_bounded (limitedmap_new n) ops Hn (lm_new_wf n)) as (m & Hr & Hwf & Hmax & Hb).
  { destruct n; [by left|right; simpl; rewrite map_size_empty; lia]. }
  simpl in Hmax. exists m. split_and!; [done..| |].
  { intros Hz. destruct Hb as [|Hb]; [congruence|]. lia. }
  intros Hk. pose proof (lm_insert_spec m k v Hwf Hk) as Hi.
  destruct (lm_step_bounded m (LInsert k v)) as (m' & Hm' & _); [congruence|done..|].
  simpl in Hm'. exists m'. rewrite Hm' in Hi. destruct (negb _ && _).
  - destruct (rmap m) as [|[v0 k0] r]; [done|]. destruct Hi as (Hk0 & Hmin & m2 & [= <-] & _ & _ & E).
    split_and!; [done|by rewrite E, lookup_insert_eq|]. right. exists k0, v0. done.
  - destruct Hi as (m2 & [= <-] & _ & _ & E). split_and!; [done|by rewrite E, lookup_insert_eq|by left].
Qed.

Lemma lm_evict_spec m :
  lm_wf m → size (lmap m) ≠ 0 →
  ∃ m', lm_evict m = Some m' ∧ lm_wf m' ∧ lmap m' ⊆ lmap m ∧ S (size (lmap m')) = size (lmap m).
Proof.
  intros Hwf Hsz. pose proof (lm_wf_size m Hwf) as Hl. unfold lm_evict.
  destruct m as [mm [|[v0 k0] r] n]; simpl in *; [lia|].
  assert (Hk0 : mm !! k0 = Some v0) by (apply (lm_wf_lookup _ _ _ Hwf); by left).
  eexists. split_and!; [done| |apply delete_subseteq|].
  - apply (lm_wf_delete mm ((v0, k0) :: r) k0 v0 n Hwf Hk0 r); [done|].
    destruct Hwf as [_ Hs]. by inversion Hs.
  - simpl. rewrite map_size_delete, Hk0. simpl. lia.
Qed.

Lemma lm_shrink_spec fuel s m :
  lm_wf m → size (lmap m) ≤ s + fuel →
  ∃ m', lm_shrink fuel s m = Some m' ∧ lm_wf m' ∧ lmap m' ⊆ lmap m
        ∧ size (lmap m') = Nat.min s (size (lmap m)).
Proof.
  revert m. induction fuel as [|fuel IH]; intros m Hwf Hf; simpl.
  { exists m. split_and!; [done..|lia]. }
  destruct (Nat.ltb_spec s (size (lmap m))) as [Hlt|Hge].
  - destruct (lm_evict_spec m Hwf) as (m1 & -> & Hwf1 & Hsub & Hsz); [lia|]. simpl.
    destruct (IH m1 Hwf1) as (m2 & Hr & Hwf2 & Hsub2 & Hsz2); [lia|].
    exists m2. split_and!; [exact Hr|done|by etrans|lia].
  - exists m. split_and!; [done..|lia].
Qed.

Lemma lm_inserts_grow m kvs :
  lm_wf m → lMaxSize m ≤ size (lmap m) → NoDup kvs.*1 → (∀ k, k ∈ kvs.*1 → lmap m !! k = None) →
  ∃ m', lm_run m ((λ kv, LInsert kv.1 kv.2) <$> kvs) = Some m'
        ∧ size (lmap m') = size (lmap m) + length kvs.
Proof.
  revert m. induction kvs as [|[k v] kvs IH]; intros m Hwf Hb Hnd Hnew; simpl in *.
  { exists m. split; [done|lia]. }
  apply NoDup_cons in Hnd as [Hk Hnd]. assert (Hmk : lmap m !! k = None) by (apply Hnew; by left).
  pose proof (lm_insert_spec m k v Hwf Hmk) as Hi.
  replace (S (size (lmap m)) =? lMaxSize m) with false in Hi by (symmetry; apply Nat.eqb_neq; lia).
  rewrite andb_false_r in Hi. destruct Hi as (m' & -> & Hwf' & Hn & Hm). simpl.
  destruct (IH m') as (m2 & Hr & Hsz); [done| |done| |].
  - rewrite Hn, Hm, map_size_insert_None by done. lia.
  - intros k' Hk'. rewrite Hm, lookup_insert_ne; [apply Hnew; by right|]. intros ->. done.
  - exists m2. split; [exact Hr|]. rewrite Hsz, Hm, map_size_insert_None by done. lia.
Qed.
(** [max_size(s)] keeps [s] entries, and when it had to remove some or the
    map already had [s] of them the bound is not enforced any more: the test
    [map.size() == nMaxSize] after an insertion never holds again, and
    inserting [j] new keys grows the map to [s + j] entries. *)
Theorem limitedmap_bound_lost (m : limitedmap) (s : nat) (kvs : list (K * Z)) :
  lm_wf m → s ≠ 0 → s ≤ size (lmap m) → NoDup kvs.*1 → (∀ k, k ∈ kvs.*1 → lmap m !! k = None) →
  ∃ m1 m2, lm_set_max_size m s = Some m1 ∧ lMaxSize m1 = s ∧ size (lmap m1) = s
           ∧ lm_run m1 ((λ kv, LInsert kv.1 kv.2) <$> kvs) = Some m2
           ∧ size (lmap m2) = s + length kvs.
Proof.
  intros Hwf Hs0 Hle Hnd Hnew. unfold lm_set_max_size.
  replace (s =? 0) with false by (symmetry; by apply Nat.eqb_neq).
  destruct (lm_shrink_spec (size (lmap m)) s m Hwf) as (m1 & -> & Hwf1 & Hsub & Hsz); [lia|].
  rewrite Nat.min_l in Hsz by done. simpl.
  destruct (lm_inserts_grow (Lmap (lmap m1) (rmap m1) s) kvs) as (m2 & Hr & Hsz2); simpl.
  - exact Hwf1.
  - lia.
  - done.
  - intros k Hk. specialize (Hnew k Hk). by eapply lookup_weaken_None.
  - eexists _, m2. split_and!; [done|done|exact Hsz|exact Hr|]. rewrite Hsz2. simpl. lia.
Qed.
End Limitedmap.
Arguments limitedmap K {_ _}.

Lemma limitedmap_bound_witness :
  ∃ m, lm_run (limitedmap_new 3) [LInsert 1 10%Z; LInsert 2 20%Z; LInsert 3 5%Z] = Some m
       ∧ size (lmap m) ≤ 2.
Proof.
  destruct (limitedmap_bound 3 [LInsert 1 10%Z; LInsert 2 20%Z; LInsert 3 5%Z] 7 0%Z) as [_ (m & Hr & _ & Hs & _)];
    [lia|]. exists m. split; [exact Hr|apply Hs; lia].
Defined.

(** Three entries, the bound set to three, two more entries. *)
Lemma limitedmap_bound_lost_witness :
  ∃ m m1 m2, lm_run (limitedmap_new 0) [LInsert 1 10%Z; LInsert 2 20%Z; LInsert 3 5%Z] = Some m
          ∧ lm_set_max_size m 3 = Some m1 ∧ lMaxSize m1 = 3
          ∧ lm_run m1 [LInsert 4 1%Z; LInsert 5 2%Z] = Some m2 ∧ size (lmap m2) = 5.
Proof.
  destruct (lm_run_bounded (limitedmap_new 0) [LInsert 1 10%Z; LInsert 2 20%Z; LInsert 3 5%Z])
    as (m & Hr & Hwf & _); [done|apply lm_new_wf|by left|].
  assert (Hm : lmap m = <[3:=5%Z]> (<[2:=20%Z]> (<[1:=10%Z]> ∅))).
  { vm_compute in Hr. injection Hr as <-. vm_compute. reflexivity. }
  destruct (limitedmap_bound_lost m 3 [(4, 1%Z); (5, 2%Z)] Hwf) as (m1 & m2 & H1 & H2 & H3 & H4 & H5).
  - done.
  - rewrite Hm. vm_compute. lia.
  - apply NoDup_ListNoDup. simpl. repeat constructor; simpl; lia.
  - intros k Hk. rewrite Hm. repeat (apply elem_of_cons in Hk as [->|Hk]; [reflexivity|]). by apply not_elem_of_nil in Hk.
  - exists m, m1, m2. split_and!; [exact Hr|exact H1|exact H2|exact H4|exact H5].
Defined.
