(* ===== verification/Bloom.v ===== *)
(** * Bloom: MurmurHash3 (hash.cpp) and the Bloom filter (bloom.cpp)

    The filter is a vector of bytes used as a bit array, with the flags
    [isFull] and [isEmpty] that short-cut the operations.  The main theorem is
    that the filter has no false negatives, whatever the order of insertions
    and recomputations of the flags. *)

From Stdlib Require Import ZArith List Lia Bool.
From S2P Require Import Prelude SphTypes Uint256.
Import ListNotations.

Open Scope Z_scope.
Open Scope word_scope.

(** ** MurmurHash3 *)

Definition ROTL32 (x r : Z) : Z := u32 (x << r) .| (x >> (32 - r)).

Definition c1 : Z := 0xcc9e2d51.
Definition c2 : Z := 0x1b873593.

Definition mix_k1 (k1 : Z) : Z := u32 (ROTL32 (u32 (k1 * c1)) 15 * c2).

(** The loop over the 4-byte blocks, read in little-endian order. *)
Definition murmur_body (h1 : Z) (blocks : list Z) : Z :=
  fold_left (fun h1 k1 =>
    let h1 := h1 .^ mix_k1 k1 in
    let h1 := ROTL32 h1 13 in
    u32 (h1 * 5 + 0xe6546b64)) blocks h1.

(** The switch on the number of remaining bytes, with its fall-throughs. *)
Definition murmur_tail (h1 : Z) (tail : list Z) : Z :=
  let k1 := 0 in
  let k1 := if (3 <=? length tail)%nat then k1 .^ (get tail 2 << 16) else k1 in
  let k1 := if (2 <=? length tail)%nat then k1 .^ (get tail 1 << 8) else k1 in
  if (1 <=? length tail)%nat then h1 .^ mix_k1 (k1 .^ get tail 0) else h1.

Definition murmur_final (h1 : Z) : Z :=
  let h1 := h1 .^ (h1 >> 16) in
  let h1 := u32 (h1 * 0x85ebca6b) in
  let h1 := h1 .^ (h1 >> 13) in
  let h1 := u32 (h1 * 0xc2b2ae35) in
  h1 .^ (h1 >> 16).

Definition MurmurHash3 (nHashSeed : Z) (vDataToHash : list Z) : Z :=
  let nblocks := (length vDataToHash / 4)%nat in
  let h1 := murmur_body nHashSeed (read_words sph_dec32le 4 nblocks vDataToHash) in
  let h1 := murmur_tail h1 (skipn (nblocks * 4) vDataToHash) in
  let h1 := h1 .^ u32 (Z.of_nat (length vDataToHash)) in
  murmur_final h1.

(** Published values of MurmurHash3_x86_32. *)
Example murmur_kat :
  MurmurHash3 0 [] = 0 /\ MurmurHash3 1 [] = 0x514E28B7 /\ MurmurHash3 0xffffffff [] = 0x81F16F39
  /\ MurmurHash3 0 [0xff; 0xff; 0xff; 0xff] = 0x76293B50
  /\ MurmurHash3 0x5082EDEE [0x21; 0x43; 0x65; 0x87] = 0x2362F9DE
  /\ MurmurHash3 0 [0x21; 0x43; 0x65] = 0x7E4A8634 /\ MurmurHash3 0 [0x21; 0x43] = 0xA0F7B07A
  /\ MurmurHash3 0 [0x21] = 0x72661CF4.
Proof. vm_compute; repeat split. Qed.

(** ** The filter *)

Record CBloomFilter := Bloom {
  vData : list Z;
  isFull : bool;
  isEmpty : bool;
  nHashFuncs : Z;
  nTweak : Z;
  nFlags : Z
}.

Definition MAX_BLOOM_FILTER_SIZE : Z := 36000.
Definition MAX_HASH_FUNCS : Z := 50.

(** [bit_mask[i]] *)
Definition bit_mask (i : Z) : Z := nth (Z.to_nat i) [0x01; 0x02; 0x04; 0x08; 0x10; 0x20; 0x40; 0x80] 0.

(** [CBloomFilter::Hash]; the divisor [vData.size() * 8] is zero, and the
    C++ undefined, for an empty vector. *)
Definition bloom_Hash (f : CBloomFilter) (nHashNum : Z) (vDataToHash : list Z) : option Z :=
  let d := Z.of_nat (length (vData f)) * 8 in
  if d =? 0 then None
  else Some (MurmurHash3 (u32 (nHashNum * 0xFBA4C795 + nTweak f)) vDataToHash mod d).

Definition set_vData (f : CBloomFilter) (v : list Z) : CBloomFilter :=
  Bloom v (isFull f) (isEmpty f) (nHashFuncs f) (nTweak f) (nFlags f).

Definition set_flags (f : CBloomFilter) (full empty : bool) : CBloomFilter :=
  Bloom (vData f) full empty (nHashFuncs f) (nTweak f) (nFlags f).

(** [for (i = 0; i < nHashFuncs; i++)]; [n] hash functions are left. *)
Fixpoint insert_loop (n : nat) (i : Z) (vKey : list Z) (f : CBloomFilter) : option CBloomFilter :=
  match n with
  | O => Some f
  | S n =>
      match bloom_Hash f i vKey with
      | None => None
      | Some nIndex =>
          let j := Z.to_nat (nIndex >> 3) in
          insert_loop n (i + 1) vKey
            (set_vData f (upd (vData f) j (get (vData f) j .| bit_mask (7 .& nIndex))))
      end
  end.

Definition bloom_insert (f : CBloomFilter) (vKey : list Z) : option CBloomFilter :=
  if isFull f then Some f
  else match insert_loop (Z.to_nat (nHashFuncs f)) 0 vKey f with
       | None => None
       | Some f => Some (set_flags f (isFull f) false)
       end.

Fixpoint contains_loop (n : nat) (i : Z) (vKey : list Z) (f : CBloomFilter) : option bool :=
  match n with
  | O => Some true
  | S n =>
      match bloom_Hash f i vKey with
      | None => None
      | Some nIndex =>
          if get (vData f) (Z.to_nat (nIndex >> 3)) .& bit_mask (7 .& nIndex) =? 0
          then Some false
          else contains_loop n (i + 1) vKey f
      end
  end.

Definition bloom_contains (f : CBloomFilter) (vKey : list Z) : option bool :=
  if isFull f then Some true
  else if isEmpty f then Some false
  else contains_loop (Z.to_nat (nHashFuncs f)) 0 vKey f.

(** [insert] and [contains] of a [uint256], through its bytes. *)
Definition bloom_insert256 (f : CBloomFilter) (hash : list Z) : option CBloomFilter :=
  bloom_insert f (uint_bytes hash).
Definition bloom_contains256 (f : CBloomFilter) (hash : list Z) : option bool :=
  bloom_contains f (uint_bytes hash).

Definition IsWithinSizeConstraints (f : CBloomFilter) : bool :=
  (Z.of_nat (length (vData f)) <=? MAX_BLOOM_FILTER_SIZE) && (nHashFuncs f <=? MAX_HASH_FUNCS).

Definition UpdateEmptyFull (f : CBloomFilter) : CBloomFilter :=
  let full := forallb (fun b => b =? 0xff) (vData f) in
  let empty := forallb (fun b => b =? 0) (vData f) in
  set_flags f full empty.

(** The filter of the constructor, for the size and the number of functions
    it computed in floating point. *)
Definition bloom_new (size : nat) (nHashFuncsIn nTweakIn nFlagsIn : Z) : CBloomFilter :=
  Bloom (repeat 0 size) false false nHashFuncsIn nTweakIn nFlagsIn.

(** ** The bits of the filter *)

Definition bit_at (v : list Z) (n : Z) : bool := Z.testbit (get v (Z.to_nat (n >> 3))) (7 .& n).

Lemma index_split n : 0 <= n -> 0 <= 7 .& n < 8 /\ 7 .& n = n mod 8 /\ Z.of_nat (Z.to_nat (n >> 3)) = n / 8.
Proof.
  intros Hn; rewrite Z.land_comm; change 7 with (Z.ones 3) at 1 2 3; rewrite Z.land_ones, Z.shiftr_div_pow2 by lia.
  change (2 ^ 3) with 8; pose proof (Z.mod_pos_bound n 8); rewrite Z2Nat.id by (apply Z.div_pos; lia); lia.
Qed.

Lemma bit_mask_pow i : 0 <= i < 8 -> bit_mask i = 2 ^ i.
Proof. intros Hi; assert (H : 0 <= i < 8) by exact Hi; clear Hi; bit_cases i; reflexivity. Qed.

Lemma land_bit x i : 0 <= i -> (x .& 2 ^ i =? 0) = negb (Z.testbit x i).
Proof.
  intros Hi; destruct (Z.testbit x i) eqn:E; cbn [negb].
  - apply Z.eqb_neq; intros H; apply (f_equal (fun y => Z.testbit y i)) in H.
    now rewrite Z.land_spec, Z.pow2_bits_true, E, Z.bits_0 in H by lia.
  - apply Z.eqb_eq, Z.bits_inj'; intros j Hj; rewrite Z.land_spec, Z.bits_0.
    destruct (Z.eq_dec i j) as [->|]; [now rewrite E | rewrite Z.pow2_bits_false by lia; apply andb_false_r].
Qed.

(** Setting a bit: it is set afterwards, the others are unchanged. *)
Lemma set_bit v n m :
  0 <= n < 8 * Z.of_nat (length v) -> 0 <= m ->
  let j := Z.to_nat (n >> 3) in
  bit_at (upd v j (get v j .| bit_mask (7 .& n))) m = (m =? n) || bit_at v m.
Proof.
  intros Hn Hm j; destruct (index_split n) as (Hr & Er & Ej); [lia|]; destruct (index_split m Hm) as (Hr' & Er' & Ej').
  assert (Hj : (j < length v)%nat).
  { apply Nat2Z.inj_lt; unfold j; rewrite Ej; apply Z.div_lt_upper_bound; lia. }
  unfold bit_at, get; rewrite nth_upd, bit_mask_pow by assumption.
  pose proof (Z.div_mod n 8 ltac:(lia)); pose proof (Z.div_mod m 8 ltac:(lia)).
  destruct (Nat.eqb_spec (Z.to_nat (m >> 3)) j) as [E|E]; [rewrite E|].
  - rewrite Z.lor_spec; fold j in Ej; rewrite E, Ej in Ej'.
    destruct (Z.eqb_spec m n) as [->|Hne]; cbn [orb]; [rewrite Z.pow2_bits_true by lia; apply orb_true_r|].
    rewrite Z.pow2_bits_false by lia; apply orb_false_r.
  - destruct (Z.eqb_spec m n) as [->|]; [now contradiction E | reflexivity].
Qed.

(** The position of hash function [i] for a key: it does not depend on the
    contents of the filter. *)
Definition position (f : CBloomFilter) (i : Z) (key : list Z) : Z :=
  MurmurHash3 (u32 (i * 0xFBA4C795 + nTweak f)) key mod (Z.of_nat (length (vData f)) * 8).

Lemma bloom_Hash_position f i key :
  vData f <> [] -> bloom_Hash f i key = Some (position f i key)
  /\ 0 <= position f i key < 8 * Z.of_nat (length (vData f)).
Proof.
  intros Hv; assert (0 < Z.of_nat (length (vData f))) by (destruct (vData f); [easy | cbn; lia]).
  unfold bloom_Hash, position; destruct (Z.eqb_spec (Z.of_nat (length (vData f)) * 8) 0); [lia|].
  split; [reflexivity|]; rewrite (Z.mul_comm 8); apply Z.mod_pos_bound; lia.
Qed.

(** All positions of a key among the first [n] functions are set. *)
Definition bits_set (f : CBloomFilter) (key : list Z) : Prop :=
  forall i, 0 <= i < nHashFuncs f -> bit_at (vData f) (position f i key) = true.

(** [f'] is [f] with more bits set. *)
Definition grows (f f' : CBloomFilter) : Prop :=
  length (vData f') = length (vData f) /\ nHashFuncs f' = nHashFuncs f /\ nTweak f' = nTweak f
  /\ (forall m, 0 <= m -> bit_at (vData f) m = true -> bit_at (vData f') m = true).

Lemma grows_position f f' i key : grows f f' -> position f' i key = position f i key.
Proof. intros (E1 & _ & E2 & _); unfold position; now rewrite E1, E2. Qed.

Lemma grows_bits f f' key : vData f <> [] -> grows f f' -> bits_set f key -> bits_set f' key.
Proof.
  intros Hv Hg Hb i Hi; rewrite (grows_position f f') by assumption; destruct Hg as (_ & En & _ & Hm).
  apply Hm; [apply bloom_Hash_position; assumption | apply Hb; lia].
Qed.

Lemma grows_trans f g h : grows f g -> grows g h -> grows f h.
Proof. intros (? & ? & ? & ?) (? & ? & ? & ?); repeat split; try congruence; auto. Qed.

Lemma insert_loop_spec n i key f :
  vData f <> [] -> 0 <= i ->
  exists f', insert_loop n i key f = Some f' /\ grows f f'
    /\ isFull f' = isFull f
    /\ (forall j, i <= j < i + Z.of_nat n -> bit_at (vData f') (position f j key) = true).
Proof.
  revert i f; induction n as [|n IH]; intros i f Hv Hi.
  { exists f; cbn; repeat split; auto; lia. }
  destruct (bloom_Hash_position f i key Hv) as [E Hp]; cbn [insert_loop]; rewrite E.
  set (p := position f i key) in *; set (j := Z.to_nat (p >> 3)).
  set (f1 := set_vData f (upd (vData f) j (get (vData f) j .| bit_mask (7 .& p)))).
  assert (Hj : (j < length (vData f))%nat).
  { destruct (index_split p) as (_ & _ & Ej); [lia|]; apply Nat2Z.inj_lt; unfold j; rewrite Ej.
    apply Z.div_lt_upper_bound; lia. }
  assert (Hg : grows f f1).
  { repeat split; [apply length_upd, Hj|]; intros m Hm Hb; unfold f1; cbn [vData set_vData].
    unfold j; rewrite set_bit, Hb by (assumption || lia); apply orb_true_r. }
  assert (Hv1 : vData f1 <> []).
  { intros H; apply (f_equal (@length Z)) in H; rewrite (proj1 Hg) in H; now destruct (vData f). }
  destruct (IH (i + 1) f1 Hv1) as (f' & Er & Hg' & Hf & Hb); [lia|].
  exists f'; split; [exact Er|]; split; [now apply (grows_trans f f1)|]; split; [exact Hf|].
  intros k Hk; destruct (Z.eq_dec k i) as [->|Hne].
  - apply Hg'; [lia|]; unfold f1; cbn [vData set_vData]; unfold j.
    rewrite set_bit by (assumption || lia); fold p; rewrite Z.eqb_refl; reflexivity.
  - rewrite <- (grows_position f f1) by assumption; apply Hb; lia.
Qed.

Lemma contains_loop_spec n i key f :
  vData f <> [] -> 0 <= i ->
  contains_loop n i key f
  = Some (forallb (fun j => bit_at (vData f) (position f (i + Z.of_nat j) key)) (seq 0 n)).
Proof.
  intros Hv; revert i; induction n as [|n IH]; intros i Hi; [reflexivity|].
  destruct (bloom_Hash_position f i key Hv) as [E Hp]; cbn [contains_loop seq forallb]; rewrite E.
  destruct (index_split (position f i key)) as (Hr & _); [lia|].
  rewrite bit_mask_pow, land_bit by lia; cbn [Z.of_nat]; rewrite Z.add_0_r.
  change (Z.testbit _ _) with (bit_at (vData f) (position f i key)).
  destruct (bit_at _ (position f i key)); cbn [negb andb]; [|reflexivity].
  rewrite IH by lia; f_equal; rewrite <- seq_shift.
  generalize (seq 0 n); intros l; induction l as [|k l IHl]; [reflexivity|]; cbn [forallb map]; rewrite IHl.
  do 3 f_equal; lia.
Qed.

Lemma contains_bits f key :
  vData f <> [] -> bits_set f key -> (isEmpty f = false \/ isFull f = true) ->
  bloom_contains f key = Some true.
Proof.
  intros Hv Hb Hf; unfold bloom_contains; destruct (isFull f); [reflexivity|].
  destruct (isEmpty f); [now destruct Hf|]; rewrite contains_loop_spec by (assumption || lia); f_equal.
  apply forallb_forall; intros j Hj; apply in_seq in Hj; apply Hb; lia.
Qed.

(** ** Sequences of operations *)

Inductive bloom_op := BInsert (key : list Z) | BUpdateEmptyFull.

Definition bloom_step (f : CBloomFilter) (o : bloom_op) : option CBloomFilter :=
  match o with
  | BInsert key => bloom_insert f key
  | BUpdateEmptyFull => Some (UpdateEmptyFull f)
  end.

Fixpoint bloom_run (f : CBloomFilter) (ops : list bloom_op) : option CBloomFilter :=
  match ops with
  | [] => Some f
  | o :: ops => match bloom_step f o with None => None | Some f => bloom_run f ops end
  end.

(** A filter with bytes and functions, whose full flag is only up when all
    bits are set. *)
Definition bloom_ok (f : CBloomFilter) : Prop :=
  vData f <> [] /\ 0 < nHashFuncs f
  /\ (isFull f = true -> forallb (fun b => b =? 0xff) (vData f) = true).

(** A key the filter must report. *)
Definition bloom_has (f : CBloomFilter) (key : list Z) : Prop :=
  bits_set f key /\ (isEmpty f = false \/ isFull f = true).

Lemma all_ones f key :
  vData f <> [] -> forallb (fun b => b =? 0xff) (vData f) = true -> bits_set f key.
Proof.
  intros Hv Ha i Hi; destruct (bloom_Hash_position f i key Hv) as [_ Hp].
  destruct (index_split (position f i key)) as (Hr & _ & Ej); [lia|].
  unfold bit_at, get; rewrite forallb_forall in Ha.
  assert (E : nth (Z.to_nat (position f i key >> 3)) (vData f) 0 = 0xff).
  { apply Z.eqb_eq, Ha, nth_In, Nat2Z.inj_lt; rewrite Ej; apply Z.div_lt_upper_bound; lia. }
  rewrite E; change 0xff with (Z.ones 8); rewrite Z.testbit_ones_nonneg by lia; apply Z.ltb_lt; lia.
Qed.

Lemma bits_not_empty f key :
  vData f <> [] -> 0 < nHashFuncs f -> bits_set f key -> forallb (fun b => b =? 0) (vData f) = false.
Proof.
  intros Hv Hn Hb; destruct (forallb _ _) eqn:E; [|reflexivity].
  specialize (Hb 0 ltac:(lia)); unfold bit_at, get in Hb; rewrite forallb_forall in E.
  destruct (nth_in_or_default (Z.to_nat (position f 0 key >> 3)) (vData f) 0) as [H | H].
  - apply E, Z.eqb_eq in H; rewrite H, Z.bits_0 in Hb; discriminate.
  - rewrite H, Z.bits_0 in Hb; discriminate.
Qed.

Lemma bloom_insert_spec f key :
  bloom_ok f ->
  exists f', bloom_insert f key = Some f' /\ bloom_ok f' /\ bloom_has f' key
             /\ (forall k, bloom_has f k -> bloom_has f' k).
Proof.
  intros (Hv & Hn & Hf); unfold bloom_insert; destruct (isFull f) eqn:Ef.
  { exists f; repeat split; auto using all_ones. }
  destruct (insert_loop_spec (Z.to_nat (nHashFuncs f)) 0 key f Hv ltac:(lia)) as (f1 & -> & Hg & Ef1 & Hb).
  exists (set_flags f1 (isFull f1) false); split; [reflexivity|].
  assert (Hg' : grows f (set_flags f1 (isFull f1) false)) by exact Hg; pose proof Hg' as (El & En & _).
  split; [|split].
  - repeat split; cbn [vData nHashFuncs isFull set_flags] in *; [|lia | congruence].
    intros H; apply Hv, length_zero_iff_nil; rewrite <- El, H; reflexivity.
  - split; [|left; reflexivity]; intros i Hi; rewrite (grows_position f) by assumption; apply Hb; lia.
  - intros k [Hk _]; split; [now apply (grows_bits f) | left; reflexivity].
Qed.

Lemma bloom_update_spec f :
  bloom_ok f -> bloom_ok (UpdateEmptyFull f) /\ (forall k, bloom_has f k -> bloom_has (UpdateEmptyFull f) k).
Proof.
  intros (Hv & Hn & Hf); split; [repeat split; auto|].
  intros k [Hk _]; split; [exact Hk|]; left; exact (bits_not_empty f k Hv Hn Hk).
Qed.

Lemma bloom_run_spec ops f key :
  bloom_ok f -> In (BInsert key) ops \/ bloom_has f key ->
  exists f', bloom_run f ops = Some f' /\ bloom_ok f' /\ bloom_has f' key.
Proof.
  revert f; induction ops as [|o ops IH]; intros f Hok Hk; cbn [bloom_run].
  { destruct Hk as [[]|Hk]; eauto. }
  destruct o as [k|]; cbn [bloom_step].
  - destruct (bloom_insert_spec f k Hok) as (f1 & -> & Hok1 & Hhas & Hkeep); apply IH; [assumption|].
    destruct Hk as [[E|Hin]|Hk]; [injection E as -> | |]; auto.
  - destruct (bloom_update_spec f Hok) as [Hok1 Hkeep]; apply IH; [assumption|].
    destruct Hk as [[E|Hin]|Hk]; [discriminate | |]; auto.
Qed.

(** The Bloom filter has no false negatives: in any sequence of
    insertions and recomputations of the full and empty flags, on a filter
    with at least one byte and one hash function, every operation is defined
    and every inserted key is reported afterwards, also when the filter has
    become full.  (A filter without bytes divides by zero instead, and one
    without hash functions is reported empty.) *)
Theorem bloom_no_false_negative (f : CBloomFilter) (ops : list bloom_op) (key : list Z) :
  vData f <> [] -> 0 < nHashFuncs f -> isFull f = false -> In (BInsert key) ops ->
  exists f', bloom_run f ops = Some f' /\ bloom_contains f' key = Some true.
Proof.
  intros Hv Hn Hf Hin; destruct (bloom_run_spec ops f key) as (f' & Hr & (Hv' & _ & _) & Hb & He);
    [repeat split; congruence | now left|].
  exists f'; split; [exact Hr | now apply contains_bits].
Qed.

Lemma bloom_no_false_negative_witness :
  exists f', bloom_run (bloom_new 8 5 0 0) [BInsert [1; 2]; BUpdateEmptyFull; BInsert [3]] = Some f'
             /\ bloom_contains f' [1; 2] = Some true.
Proof.
  apply (bloom_no_false_negative (bloom_new 8 5 0 0)); [discriminate | reflexivity | reflexivity | left; reflexivity].
Defined.

(** A filter without bytes whose full flag is down, which is what a
    deserialised filter is before [UpdateEmptyFull], makes [insert] and
    [contains] divide by zero; after [UpdateEmptyFull] the flag is up and both
    are defined. *)
Theorem bloom_empty_vector (f : CBloomFilter) (key : list Z) :
  vData f = [] -> 0 < nHashFuncs f -> isFull f = false -> isEmpty f = false ->
  bloom_insert f key = None /\ bloom_contains f key = None
  /\ bloom_insert (UpdateEmptyFull f) key = Some (UpdateEmptyFull f)
  /\ bloom_contains (UpdateEmptyFull f) key = Some true.
Proof.
  intros Hv Hn Hf He; unfold bloom_insert, bloom_contains, UpdateEmptyFull; rewrite Hf, He, Hv.
  destruct (Z.to_nat (nHashFuncs f)) eqn:E; [lia|]; cbn [insert_loop contains_loop].
  unfold bloom_Hash; rewrite Hv; cbn; auto.
Qed.

Lemma bloom_empty_vector_witness :
  bloom_contains (bloom_new 0 1 0 0) [1] = None.
Proof. apply (bloom_empty_vector (bloom_new 0 1 0 0) [1]); reflexivity. Defined.
