(* ===== verification/Merkle.v ===== *)
(** * Merkle: the Merkle tree of a block (main.h, [CBlock])

    [BuildMerkleTree] lays the levels of the tree one after the other in the
    vector [vMerkleTree], a cache inside the block; [GetMerkleBranch] picks the
    siblings of a transaction from it and [CheckMerkleBranch] folds them back
    to the root.  The hash of two hashes (double SHA-256, from OpenSSL) is a
    parameter; where a theorem needs it to be free of collisions, that is an
    explicit hypothesis. *)

From Stdlib Require Import ZArith List Lia Bool Arith PeanoNat.
From S2P Require Import Prelude.
Import ListNotations.

Open Scope nat_scope.

Section Merkle.
Context {T : Type} (zero : T) (Hash2 : T -> T -> T).

(** The hashes of the transactions and the cached tree. *)
Record merkle_block := MBlock { vtx : list T; vMerkleTree : list T }.

(** [for (int i = 0; i < nSize; i += 2)]: [k] iterations are left. *)
Fixpoint level_loop (k i nSize j : nat) (tree : list T) : list T :=
  match k with
  | O => tree
  | S k =>
      let i2 := Nat.min (i + 1) (nSize - 1) in
      level_loop k (i + 2) nSize j
        (tree ++ [Hash2 (nth (j + i) tree zero) (nth (j + i2) tree zero)])
  end.

(** [for (int nSize = vtx.size(); nSize > 1; nSize = (nSize + 1) / 2)]; the
    size decreases in each iteration, so [vtx.size()] is fuel enough. *)
Fixpoint build_loop (fuel nSize j : nat) (tree : list T) : list T :=
  match fuel with
  | O => tree
  | S fuel =>
      if 1 <? nSize then
        let tree := level_loop ((nSize + 1) / 2) 0 nSize j tree in
        build_loop fuel ((nSize + 1) / 2) (j + nSize) tree
      else tree
  end.

Definition BuildMerkleTree (b : merkle_block) : merkle_block * T :=
  let tree := vtx b in
  let tree := build_loop (length (vtx b)) (length (vtx b)) 0 tree in
  (MBlock (vtx b) tree, last tree zero).

Fixpoint branch_loop (fuel nSize j : nat) (nIndex : Z) (tree : list T) : list T :=
  match fuel with
  | O => []
  | S fuel =>
      if 1 <? nSize then
        let i := Z.min (Z.lxor nIndex 1) (Z.of_nat nSize - 1) in
        nth (j + Z.to_nat i) tree zero
        :: branch_loop fuel ((nSize + 1) / 2) (j + nSize) (Z.shiftr nIndex 1) tree
      else []
  end.

Definition GetMerkleBranch (b : merkle_block) (nIndex : Z) : merkle_block * list T :=
  let b := match vMerkleTree b with [] => fst (BuildMerkleTree b) | _ => b end in
  (b, branch_loop (length (vtx b)) (length (vtx b)) 0 nIndex (vMerkleTree b)).

Fixpoint check_loop (hash : T) (vMerkleBranch : list T) (nIndex : Z) : T :=
  match vMerkleBranch with
  | [] => hash
  | otherside :: rest =>
      let hash := if Z.eqb (Z.land nIndex 1) 0 then Hash2 hash otherside else Hash2 otherside hash in
      check_loop hash rest (Z.shiftr nIndex 1)
  end.

Definition CheckMerkleBranch (hash : T) (vMerkleBranch : list T) (nIndex : Z) : T :=
  if Z.eqb nIndex (-1) then zero else check_loop hash vMerkleBranch nIndex.

(** ** The levels of the tree *)

Fixpoint next_level (l : list T) : list T :=
  match l with
  | a :: b :: l' => Hash2 a b :: next_level l'
  | [a] => [Hash2 a a]
  | [] => []
  end.

(** The levels above [l], one after the other. *)
Fixpoint levels (fuel : nat) (l : list T) : list T :=
  match fuel with
  | O => []
  | S fuel => if 1 <? length l then next_level l ++ levels fuel (next_level l) else []
  end.

Fixpoint merkle_root (fuel : nat) (l : list T) : T :=
  match fuel with
  | O => last l zero
  | S fuel => if 1 <? length l then merkle_root fuel (next_level l) else last l zero
  end.

(** Induction two elements at a time. *)
Lemma pair_ind (P : list T -> Prop) :
  P [] -> (forall a, P [a]) -> (forall a b l, P l -> P (a :: b :: l)) -> forall l, P l.
Proof.
  intros H0 H1 H2 l; enough (P l /\ forall a, P (a :: l)) by tauto.
  induction l as [|b l [IH1 IH2]]; split; auto.
Qed.

Lemma length_next l : length (next_level l) = (length l + 1) / 2.
Proof.
  induction l as [|a|a b l IH] using pair_ind; [reflexivity..|].
  cbn [next_level length]; rewrite IH; replace (S (S (length l)) + 1) with (length l + 1 + 1 * 2) by lia.
  rewrite Nat.div_add by lia; lia.
Qed.

Lemma next_shrinks l : 1 < length l -> 0 < length (next_level l) < length l.
Proof.
  intros H; rewrite length_next; split; [apply Nat.div_str_pos; lia | apply Nat.Div0.div_lt_upper_bound; lia].
Qed.

Lemma nth_middle_app (pre l rest : list T) i :
  i < length l -> nth (length pre + i) (pre ++ l ++ rest) zero = nth i l zero.
Proof. intros H; rewrite app_nth2 by lia; rewrite app_nth1 by lia; f_equal; lia. Qed.

Lemma level_loop_spec l done pre out :
  Nat.Even (length done) ->
  level_loop ((length l + 1) / 2) (length done) (length done + length l) (length pre)
    (pre ++ done ++ l ++ out)
  = pre ++ done ++ l ++ out ++ next_level l.
Proof.
  revert done out; induction l as [|a|a b l IH] using pair_ind; intros done out He.
  - cbn [length Nat.add next_level]; change (1 / 2) with 0; cbn [level_loop]; now rewrite app_nil_r.
  - cbn [length next_level]; change ((1 + 1) / 2) with 1; cbn [level_loop].
    replace (Nat.min (length done + 1) (length done + 1 - 1)) with (length done) by lia.
    assert (E1 : nth (length pre + length done) (pre ++ done ++ [a] ++ out) zero = a).
    { rewrite app_assoc, <- length_app, app_nth2, Nat.sub_diag by lia; reflexivity. }
    rewrite E1, <- !app_assoc; reflexivity.
  - cbn [length next_level].
    replace ((S (S (length l)) + 1) / 2) with (S ((length l + 1) / 2)); cycle 1.
    { replace (S (S (length l)) + 1) with (length l + 1 + 1 * 2) by lia; rewrite Nat.div_add; lia. }
    cbn [level_loop].
    replace (Nat.min (length done + 1) (length done + S (S (length l)) - 1)) with (length done + 1) by lia.
    assert (E1 : nth (length pre + length done) (pre ++ done ++ (a :: b :: l) ++ out) zero = a).
    { rewrite app_assoc, <- length_app, app_nth2, Nat.sub_diag by lia; reflexivity. }
    assert (E2 : nth (length pre + (length done + 1)) (pre ++ done ++ (a :: b :: l) ++ out) zero = b).
    { rewrite Nat.add_assoc, app_assoc, <- length_app, app_nth2 by lia.
      replace (_ + 1 - _) with 1 by lia; reflexivity. }
    rewrite E1, E2.
    specialize (IH (done ++ [a; b]) (out ++ [Hash2 a b])).
    rewrite length_app in IH; cbn [length] in IH.
    replace (length done + S (S (length l))) with (length done + 2 + length l) by lia.
    replace ((pre ++ done ++ (a :: b :: l) ++ out) ++ [Hash2 a b])
      with (pre ++ (done ++ [a; b]) ++ l ++ out ++ [Hash2 a b]) by (rewrite <- !app_assoc; reflexivity).
    rewrite IH by (destruct He as [x Hx]; exists (x + 1); lia).
    rewrite <- !app_assoc; reflexivity.
Qed.

Lemma build_loop_spec fuel l pre :
  build_loop fuel (length l) (length pre) (pre ++ l) = pre ++ l ++ levels fuel l.
Proof.
  revert l pre; induction fuel as [|fuel IH]; intros l pre; cbn [build_loop levels].
  { now rewrite app_nil_r. }
  destruct (1 <? length l); [|now rewrite app_nil_r].
  pose proof (level_loop_spec l [] pre [] ltac:(exists 0; reflexivity)) as E.
  rewrite !app_nil_r in E; cbn [length app Nat.add] in E; rewrite E, <- length_next, <- length_app.
  rewrite app_assoc, IH, <- !app_assoc; reflexivity.
Qed.

Lemma last_app (l m : list T) : m <> [] -> last (l ++ m) zero = last m zero.
Proof.
  intros Hm; induction l as [|x l IH]; [reflexivity|]; cbn [app last].
  destruct (l ++ m) eqn:E; [apply app_eq_nil in E as [_ ->]; now contradiction Hm | exact IH].
Qed.

Lemma last_levels fuel l : l <> [] -> last (l ++ levels fuel l) zero = merkle_root fuel l.
Proof.
  revert l; induction fuel as [|fuel IH]; intros l Hl; cbn [levels merkle_root]; [now rewrite app_nil_r|].
  destruct (Nat.ltb_spec 1 (length l)) as [H|H]; [|now rewrite app_nil_r].
  assert (next_level l <> []) by (pose proof (next_shrinks l H); destruct (next_level l); cbn in *; [lia | easy]).
  rewrite last_app, IH by (try assumption; now destruct (next_level l)); reflexivity.
Qed.

(** The sibling of position [i] in a level. *)
Definition sibling (l : list T) (i : nat) : T := nth (Nat.min (Nat.lxor i 1) (length l - 1)) l zero.

Fixpoint branch (fuel : nat) (l : list T) (i : nat) : list T :=
  match fuel with
  | O => []
  | S fuel => if 1 <? length l then sibling l i :: branch fuel (next_level l) (i / 2) else []
  end.

Definition join (i : nat) (x other : T) : T := if Nat.even i then Hash2 x other else Hash2 other x.

Lemma even_cases (i : nat) : exists k, i = 2 * k \/ i = 2 * k + 1.
Proof. exists (i / 2); pose proof (Nat.div_mod_eq i 2); pose proof (Nat.mod_upper_bound i 2); lia. Qed.

Lemma lxor1 k : Nat.lxor (2 * k) 1 = 2 * k + 1 /\ Nat.lxor (2 * k + 1) 1 = 2 * k.
Proof.
  split; apply Nat.bits_inj; intros [|n]; rewrite Nat.lxor_spec;
    rewrite ?Nat.testbit_even_0, ?Nat.testbit_odd_0, ?Nat.testbit_even_succ', ?Nat.testbit_odd_succ';
    try reflexivity; change (Nat.testbit 1 (S n)) with (Nat.testbit 0 n); rewrite Nat.bits_0; apply xorb_false_r.
Qed.

Lemma even_double k : Nat.even (2 * k) = true /\ Nat.even (2 * k + 1) = false.
Proof. now rewrite Nat.even_even, Nat.even_odd. Qed.

Lemma half_double k : 2 * k / 2 = k /\ (2 * k + 1) / 2 = k.
Proof.
  replace (2 * k + 1) with (1 + k * 2) by lia; rewrite Nat.div_add by lia.
  rewrite (Nat.mul_comm 2 k), Nat.div_mul by lia; split; reflexivity.
Qed.

(** The hash over a pair of siblings is the parent. *)
Lemma nth_next l k :
  2 * k < length l ->
  nth k (next_level l) zero = Hash2 (nth (2 * k) l zero) (nth (Nat.min (2 * k + 1) (length l - 1)) l zero).
Proof.
  revert k; induction l as [|a|a b l IH] using pair_ind; intros k Hk; cbn [length] in Hk; [lia| |].
  - replace k with 0 by lia; reflexivity.
  - destruct k as [|k].
    + cbn [next_level nth length]; replace (Nat.min (2 * 0 + 1) (S (S (length l)) - 1)) with 1 by lia; reflexivity.
    + cbn [next_level nth length]; rewrite IH by lia.
      replace (2 * S k) with (S (S (2 * k))) by lia.
      replace (Nat.min (S (S (2 * k)) + 1) (S (S (length l)) - 1))
        with (S (S (Nat.min (2 * k + 1) (length l - 1)))) by lia; reflexivity.
Qed.

Lemma join_next l i : i < length l -> join i (nth i l zero) (sibling l i) = nth (i / 2) (next_level l) zero.
Proof.
  intros Hi; destruct (even_cases i) as [k [-> | ->]]; destruct (lxor1 k) as [L1 L2];
    destruct (even_double k) as [V1 V2]; destruct (half_double k) as [D1 D2]; unfold join, sibling.
  - rewrite V1, D1, L1, nth_next by lia; reflexivity.
  - rewrite V2, D2, L2, nth_next by lia; f_equal; f_equal; lia.
Qed.

Lemma half_lt l i : 1 < length l -> i < length l -> i / 2 < length (next_level l).
Proof.
  intros H1 Hi; rewrite length_next; apply Nat.Div0.div_lt_upper_bound.
  pose proof (Nat.div_mod_eq (length l + 1) 2); pose proof (Nat.mod_upper_bound (length l + 1) 2); lia.
Qed.

Fixpoint check (h : T) (br : list T) (i : nat) : T :=
  match br with
  | [] => h
  | s :: br => check (join i h s) br (i / 2)
  end.

Lemma check_branch fuel l i :
  i < length l -> length l <= fuel + 1 -> check (nth i l zero) (branch fuel l i) i = merkle_root fuel l.
Proof.
  revert l i; induction fuel as [|fuel IH]; intros l i Hi Hf; cbn [branch merkle_root check].
  - destruct l as [|a [|]]; cbn [length] in *; try lia; replace i with 0 by lia; reflexivity.
  - destruct (Nat.ltb_spec 1 (length l)) as [H|H]; cbn [check].
    + rewrite join_next by assumption; apply IH; [now apply half_lt | pose proof (next_shrinks l H); lia].
    + destruct l as [|a [|]]; cbn [length] in *; try lia; replace i with 0 by lia; reflexivity.
Qed.

(** ** The loops over [Z] indices *)

Lemma Zlxor_nat i : Z.lxor (Z.of_nat i) 1 = Z.of_nat (Nat.lxor i 1).
Proof.
  assert (E : forall z, Z.lxor (2 * z) 1 = (2 * z + 1)%Z).
  { intros z; symmetry; apply Z.add_nocarry_lxor; change 1%Z with (Z.ones 1); rewrite Z.land_ones by lia.
    rewrite Z.pow_1_r, Z.mul_comm; apply Z.mod_mul; lia. }
  destruct (even_cases i) as [k [-> | ->]]; destruct (lxor1 k) as [L1 L2]; rewrite ?L1, ?L2.
  - rewrite Nat2Z.inj_mul, E; lia.
  - rewrite Nat2Z.inj_add, Nat2Z.inj_mul; cbn [Z.of_nat]; rewrite <- E, Z.lxor_assoc, Z.lxor_nilpotent.
    apply Z.lxor_0_r.
Qed.

Lemma Zshiftr_nat i : Z.shiftr (Z.of_nat i) 1 = Z.of_nat (i / 2).
Proof. rewrite Z.shiftr_div_pow2 by lia; symmetry; apply (Nat2Z.inj_div i 2). Qed.

Lemma Zland_nat i : Z.eqb (Z.land (Z.of_nat i) 1) 0 = Nat.even i.
Proof.
  change 1%Z with (Z.ones 1); rewrite Z.land_ones by lia.
  rewrite Z.pow_1_r; destruct (even_cases i) as [k [-> | ->]]; destruct (even_double k) as [V1 V2]; rewrite ?V1, ?V2.
  - replace (Z.of_nat (2 * k)) with (Z.of_nat k * 2)%Z by lia; rewrite Z.mod_mul by lia; reflexivity.
  - replace (Z.of_nat (2 * k + 1)) with (1 + Z.of_nat k * 2)%Z by lia; rewrite Z.mod_add by lia; reflexivity.
Qed.

Lemma check_loop_nat h br i : check_loop h br (Z.of_nat i) = check h br i.
Proof.
  revert h i; induction br as [|s br IH]; intros h i; [reflexivity|]; cbn [check_loop check].
  rewrite Zland_nat, Zshiftr_nat, IH; reflexivity.
Qed.

Lemma branch_loop_spec fuel l pre i :
  branch_loop fuel (length l) (length pre) (Z.of_nat i) (pre ++ l ++ levels fuel l) = branch fuel l i.
Proof.
  revert l pre i; induction fuel as [|fuel IH]; intros l pre i; cbn [branch_loop branch levels]; [reflexivity|].
  destruct (Nat.ltb_spec 1 (length l)) as [H|H]; [|reflexivity]; f_equal.
  - rewrite Zlxor_nat; unfold sibling.
    replace (Z.to_nat (Z.min (Z.of_nat (Nat.lxor i 1)) (Z.of_nat (length l) - 1)))
      with (Nat.min (Nat.lxor i 1) (length l - 1)) by lia.
    apply nth_middle_app; lia.
  - rewrite Zshiftr_nat, <- length_next, <- length_app, (app_assoc pre l); apply IH.
Qed.

(** ** Properties *)

Lemma BuildMerkleTree_spec b :
  vMerkleTree (fst (BuildMerkleTree b)) = vtx b ++ levels (length (vtx b)) (vtx b)
  /\ snd (BuildMerkleTree b) = merkle_root (length (vtx b)) (vtx b).
Proof.
  pose proof (build_loop_spec (length (vtx b)) (vtx b) []) as E; cbn [length app] in E.
  unfold BuildMerkleTree; cbn [fst snd vMerkleTree]; rewrite E; split; [reflexivity|].
  destruct (vtx b) eqn:Eb; [reflexivity|]; rewrite <- Eb; apply last_levels; congruence.
Qed.

(** The cache is empty or holds the tree of the transactions. *)
Definition cache_ok (b : merkle_block) : Prop :=
  vMerkleTree b = [] \/ vMerkleTree b = vMerkleTree (fst (BuildMerkleTree b)).

Lemma GetMerkleBranch_spec b i :
  cache_ok b -> i < length (vtx b) ->
  snd (GetMerkleBranch b (Z.of_nat i)) = branch (length (vtx b)) (vtx b) i
  /\ cache_ok (fst (GetMerkleBranch b (Z.of_nat i))).
Proof.
  intros Hc Hi; destruct (BuildMerkleTree_spec b) as [Et _].
  pose proof (branch_loop_spec (length (vtx b)) (vtx b) [] i) as E; cbn [length app] in E.
  assert (Hne : vMerkleTree (fst (BuildMerkleTree b)) <> []).
  { rewrite Et; destruct (vtx b); cbn in *; [lia | easy]. }
  unfold GetMerkleBranch; destruct Hc as [Hc | Hc]; rewrite Hc.
  - cbn [fst snd vtx vMerkleTree BuildMerkleTree]; split; [rewrite <- E; now f_equal | right; reflexivity].
  - destruct (vMerkleTree (fst (BuildMerkleTree b))) eqn:Ev; [now contradiction Hne|].
    cbn [fst snd]; rewrite Hc, <- E; split; [f_equal; congruence | right; congruence].
Qed.

(** For every block and every transaction of it, folding the branch that
    [GetMerkleBranch] returns over the transaction's hash gives the root that
    [BuildMerkleTree] returns, for any number of transactions (odd levels
    included) and any hash function, whether the tree was cached or not; the
    index -1 gives zero. *)
Theorem merkle_branch_correct (b : merkle_block) (i : nat) :
  cache_ok b -> i < length (vtx b) ->
  CheckMerkleBranch (nth i (vtx b) zero) (snd (GetMerkleBranch b (Z.of_nat i))) (Z.of_nat i)
  = snd (BuildMerkleTree b)
  /\ cache_ok (fst (GetMerkleBranch b (Z.of_nat i)))
  /\ CheckMerkleBranch (nth i (vtx b) zero) (snd (GetMerkleBranch b (Z.of_nat i))) (-1) = zero.
Proof.
  intros Hc Hi; destruct (GetMerkleBranch_spec b i Hc Hi) as [-> Hc'].
  destruct (BuildMerkleTree_spec b) as [_ ->]; unfold CheckMerkleBranch.
  destruct (Z.eqb_spec (Z.of_nat i) (-1)); [lia|]; rewrite check_loop_nat.
  split; [apply check_branch; lia | split; [exact Hc' | reflexivity]].
Qed.

(** Hashes of two hashes that collide are equal componentwise. *)
Definition collision_free : Prop :=
  forall a b c d, Hash2 a b = Hash2 c d -> a = c /\ b = d.

Lemma check_sound fuel l i h br :
  collision_free -> i < length l -> length l <= fuel + 1 -> length br = length (branch fuel l i) ->
  check h br i = merkle_root fuel l -> h = nth i l zero /\ br = branch fuel l i.
Proof.
  intros Hcf; revert l i h br; induction fuel as [|fuel IH]; intros l i h br Hi Hf Hl Hr;
    cbn [branch merkle_root length] in *.
  - destruct br; [|discriminate]; destruct l as [|a [|]]; cbn [length] in *; try lia.
    replace i with 0 by lia; split; [exact Hr | reflexivity].
  - destruct (Nat.ltb_spec 1 (length l)) as [H|H].
    + destruct br as [|s br]; [discriminate|]; cbn [check length] in *.
      destruct (IH (next_level l) (i / 2) (join i h s) br) as [Ej ->];
        [now apply half_lt | pose proof (next_shrinks l H); lia | lia | exact Hr|].
      rewrite <- join_next in Ej by assumption; unfold join in Ej.
      destruct (Nat.even i); apply Hcf in Ej as [-> ->]; split; reflexivity.
    + destruct br; [|discriminate]; destruct l as [|a [|]]; cbn [length] in *; try lia.
      replace i with 0 by lia; split; [exact Hr | reflexivity].
Qed.

(** C30: With a collision-free hash, a branch of the right length that checks
    against a block's root proves membership: the hash it was checked for is
    the hash of the transaction at that index, and the branch is the one
    [GetMerkleBranch] returns. *)
Theorem merkle_branch_sound (b : merkle_block) (i : nat) (h : T) (br : list T) :
  collision_free -> cache_ok b -> i < length (vtx b) ->
  length br = length (snd (GetMerkleBranch b (Z.of_nat i))) ->
  CheckMerkleBranch h br (Z.of_nat i) = snd (BuildMerkleTree b) ->
  h = nth i (vtx b) zero /\ br = snd (GetMerkleBranch b (Z.of_nat i)).
Proof.
  intros Hcf Hc Hi; destruct (GetMerkleBranch_spec b i Hc Hi) as [-> _].
  destruct (BuildMerkleTree_spec b) as [_ ->]; unfold CheckMerkleBranch.
  destruct (Z.eqb_spec (Z.of_nat i) (-1)); [lia|]; rewrite check_loop_nat.
  apply check_sound; assumption || lia.
Qed.

Lemma next_injective l l' :
  collision_free -> length l = length l' -> next_level l = next_level l' -> l = l'.
Proof.
  intros Hcf; revert l'; induction l as [|a|a b l IH] using pair_ind; intros l' Hl E.
  - now destruct l'.
  - destruct l' as [|a' [|]]; try discriminate; injection E as E; now apply Hcf in E as [-> _].
  - destruct l' as [|a' [|b' l']]; try discriminate; cbn [next_level] in E; injection E as E1 E2.
    apply Hcf in E1 as [-> ->]; f_equal; f_equal; apply IH; [cbn in Hl; lia | exact E2].
Qed.

Lemma root_injective fuel l l' :
  collision_free -> length l = length l' -> length l <= fuel + 1 ->
  merkle_root fuel l = merkle_root fuel l' -> l = l'.
Proof.
  intros Hcf; revert l l'; induction fuel as [|fuel IH]; intros l l' Hl Hf E; cbn [merkle_root] in E.
  - destruct l as [|a [|]], l' as [|a' [|]]; cbn [length] in *; try lia; [reflexivity | now f_equal].
  - rewrite <- Hl in E; destruct (Nat.ltb_spec 1 (length l)) as [H|H].
    + apply (next_injective l l' Hcf Hl), IH; [now rewrite !length_next, Hl | pose proof (next_shrinks l H); lia | exact E].
    + destruct l as [|a [|]], l' as [|a' [|]]; cbn [length] in *; try lia; [reflexivity | now f_equal].
Qed.

Lemma next_duplicate l a : Nat.even (length l) = true -> next_level (l ++ [a]) = next_level (l ++ [a; a]).
Proof.
  induction l as [|x|x y l IH] using pair_ind; intros He; [reflexivity | discriminate|].
  cbn [app next_level]; f_equal; now apply IH.
Qed.

Lemma root_fuel f1 f2 l : length l <= f1 + 1 -> length l <= f2 + 1 -> merkle_root f1 l = merkle_root f2 l.
Proof.
  revert f2 l; induction f1 as [|f1 IH]; intros [|f2] l H1 H2; cbn [merkle_root]; try reflexivity.
  - destruct (Nat.ltb_spec 1 (length l)); [lia | reflexivity].
  - destruct (Nat.ltb_spec 1 (length l)); [lia | reflexivity].
  - destruct (Nat.ltb_spec 1 (length l)) as [H|H]; [|reflexivity].
    pose proof (next_shrinks l H); apply IH; lia.
Qed.

(** With a collision-free hash the root commits to the list of
    transactions among lists of the same length.  Across lengths it does not:
    repeating the last transaction of a list of odd length (more than one)
    leaves the root unchanged, which is why [CheckBlock] refuses duplicates. *)
Theorem merkle_root_binding (b b' : merkle_block) (l : list T) (a : T) :
  collision_free -> length (vtx b) = length (vtx b') ->
  snd (BuildMerkleTree b) = snd (BuildMerkleTree b') -> l <> [] -> Nat.even (length l) = true ->
  vtx b = vtx b'
  /\ snd (BuildMerkleTree (MBlock (l ++ [a]) [])) = snd (BuildMerkleTree (MBlock (l ++ [a; a]) [])).
Proof.
  intros Hcf Hl E Hne He; destruct (BuildMerkleTree_spec b) as [_ E1], (BuildMerkleTree_spec b') as [_ E2]; split.
  - apply (root_injective (length (vtx b))); [assumption | assumption | lia | congruence].
  - destruct (BuildMerkleTree_spec (MBlock (l ++ [a]) [])) as [_ ->].
    destruct (BuildMerkleTree_spec (MBlock (l ++ [a; a]) [])) as [_ ->]; cbn [vtx].
    rewrite !length_app; cbn [length]; rewrite Nat.add_1_r, Nat.add_succ_r, Nat.add_1_r; cbn [merkle_root].
    assert (0 < length l) by (destruct l; [easy | cbn; lia]).
    rewrite !length_app; cbn [length]; rewrite !(proj2 (Nat.ltb_lt 1 _)) by lia.
    rewrite next_duplicate by assumption.
    transitivity (merkle_root (S (length l)) (next_level (l ++ [a; a]))); [|reflexivity].
    apply root_fuel; rewrite length_next, length_app; cbn [length]; apply Nat.Div0.div_le_upper_bound; lia.
Qed.
End Merkle.

(** ** Instances

    Binary trees are a hash without collisions. *)
Inductive htree := HLeaf (n : nat) | HNode (l r : htree).

Lemma HNode_free : collision_free HNode.
Proof. intros a b c d E; injection E; auto. Qed.

Definition sample_block : @merkle_block htree := MBlock (map HLeaf [1; 2; 3; 4; 5]) [].

Lemma merkle_branch_correct_witness :
  CheckMerkleBranch (HLeaf 0) HNode (HLeaf 5) (snd (GetMerkleBranch (HLeaf 0) HNode sample_block 4)) 4
  = snd (BuildMerkleTree (HLeaf 0) HNode sample_block).
Proof.
  apply (merkle_branch_correct (HLeaf 0) HNode sample_block 4); [left; reflexivity | cbn; lia].
Defined.

Lemma merkle_branch_sound_witness :
  HLeaf 3 = nth 2 (vtx sample_block) (HLeaf 0).
Proof.
  apply (merkle_branch_sound (HLeaf 0) HNode sample_block 2 (HLeaf 3)
           [HLeaf 4; HNode (HLeaf 1) (HLeaf 2); HNode (HNode (HLeaf 5) (HLeaf 5)) (HNode (HLeaf 5) (HLeaf 5))]
           HNode_free); [left; reflexivity | cbn; lia | reflexivity | reflexivity].
Defined.

Lemma merkle_root_binding_witness :
  snd (BuildMerkleTree (HLeaf 0) HNode (MBlock [HLeaf 1; HLeaf 2; HLeaf 3] []))
  = snd (BuildMerkleTree (HLeaf 0) HNode (MBlock [HLeaf 1; HLeaf 2; HLeaf 3; HLeaf 3] [])).
Proof.
  apply (merkle_root_binding (HLeaf 0) HNode sample_block sample_block [HLeaf 1; HLeaf 2] (HLeaf 3) HNode_free);
    reflexivity || discriminate.
Defined.
