(* ===== verification/Serialize.v ===== *)
(** * Serialize: the serialization templates and streams of serialize.h

    A [codec] is what the templates [Serialize], [Unserialize] and
    [GetSerializeSize] are for one type; the templates for vectors, strings and
    pairs are functions on codecs.  Reading happens on [CDataStream], a vector
    with a read position; an exception is [None].  The law [codec_ok] says
    that reading inverts writing at any position of a stream and that the
    announced size is the number of bytes written. *)

From Stdlib Require Import ZArith List Lia Bool.
From S2P Require Import Prelude SphTypes Uint256.
Import ListNotations.

Open Scope Z_scope.
Open Scope word_scope.

(** ** CDataStream *)

Record CDataStream := DataStream { vch : list Z; nReadPos : Z }.

Definition size_of (l : list Z) : Z := Z.of_nat (length l).

Definition ds_write (s : CDataStream) (pch : list Z) : CDataStream :=
  DataStream (vch s ++ pch) (nReadPos s).

(** [read(pch, nSize)]: the bytes read; reading past the end throws. *)
Definition ds_read (nSize : Z) (s : CDataStream) : option (list Z * CDataStream) :=
  let nReadPosNext := u32 (nReadPos s + nSize) in
  let pch := firstn (Z.to_nat nSize) (skipn (Z.to_nat (nReadPos s)) (vch s)) in
  if size_of (vch s) <=? nReadPosNext then
    if size_of (vch s) <? nReadPosNext then None
    else Some (pch, DataStream [] 0)
  else Some (pch, DataStream (vch s) nReadPosNext).

Definition ds_ignore (nSize : Z) (s : CDataStream) : option CDataStream :=
  let nReadPosNext := u32 (nReadPos s + nSize) in
  if size_of (vch s) <=? nReadPosNext then
    if size_of (vch s) <? nReadPosNext then None else Some (DataStream [] 0)
  else Some (DataStream (vch s) nReadPosNext).

Definition ds_rewind (n : Z) (s : CDataStream) : option CDataStream :=
  if nReadPos s <? n then None else Some (DataStream (vch s) (nReadPos s - n)).

Definition ds_compact (s : CDataStream) : CDataStream :=
  DataStream (skipn (Z.to_nat (nReadPos s)) (vch s)) 0.

(** The bytes from [begin()] to [end()]. *)
Definition remaining (s : CDataStream) : list Z := skipn (Z.to_nat (nReadPos s)) (vch s).

(** Computations that read from a stream and may throw. *)
Definition reader (A : Type) : Type := CDataStream -> option (A * CDataStream).

Definition rret {A} (a : A) : reader A := fun s => Some (a, s).
Definition rthrow {A} : reader A := fun _ => None.
Definition rbind {A B} (r : reader A) (k : A -> reader B) : reader B :=
  fun s => match r s with None => None | Some (a, s) => k a s end.

Declare Scope reader_scope.
Notation "x <- r ;; k" := (rbind r (fun x => k)) (at level 62, r at next level, right associativity) : reader_scope.
Open Scope reader_scope.

(** ** Basic types *)

(** A value read as [unsigned] and converted to the signed type. *)
Definition to_signed (w x : Z) : Z := if x <? 2 ^ (w - 1) then x else x - 2 ^ w.

(** [WRITEDATA] and [READDATA] of an integer of [k] bytes. *)
Definition write_int (k : nat) (x : Z) : list Z := le_split k x.
Definition read_uint (k : nat) : reader Z :=
  b <- ds_read (Z.of_nat k) ;; rret (le_combine b).
Definition read_sint (k : nat) : reader Z :=
  b <- ds_read (Z.of_nat k) ;; rret (to_signed (8 * Z.of_nat k) (le_combine b)).

(** ** Compact sizes *)

Definition MAX_SIZE : Z := 0x02000000.

Definition GetSizeOfCompactSize (nSize : Z) : Z :=
  if nSize <? 253 then 1
  else if nSize <=? 0xFFFF then 3
  else if nSize <=? 0xFFFFFFFF then 5
  else 9.

Definition WriteCompactSize (nSize : Z) : list Z :=
  if nSize <? 253 then write_int 1 nSize
  else if nSize <=? 0xFFFF then write_int 1 253 ++ write_int 2 nSize
  else if nSize <=? 0xFFFFFFFF then write_int 1 254 ++ write_int 4 nSize
  else write_int 1 255 ++ write_int 8 nSize.

Definition ReadCompactSize : reader Z :=
  chSize <- read_uint 1 ;;
  nSizeRet <- (if chSize <? 253 then rret chSize
               else if chSize =? 253 then read_uint 2
               else if chSize =? 254 then read_uint 4
               else read_uint 8) ;;
  if MAX_SIZE <? nSizeRet then rthrow else rret nSizeRet.

(** ** Codecs *)

(** [dec old] is [Unserialize] into an object that holds [old]; [sizeof] is the
    size of the C++ object, which bounds the allocation steps. *)
Record codec (A : Type) := Codec {
  enc : A -> list Z;
  dec : A -> reader A;
  ser_size : A -> Z;
  sizeof : Z
}.
Arguments Codec {A} &. Arguments enc {A}. Arguments dec {A}. Arguments ser_size {A}. Arguments sizeof {A}.

Definition uint_codec (k : nat) : codec Z :=
  Codec (write_int k) (fun _ => read_uint k) (fun _ => Z.of_nat k) (Z.of_nat k).
Definition sint_codec (k : nat) : codec Z :=
  Codec (write_int k) (fun _ => read_sint k) (fun _ => Z.of_nat k) (Z.of_nat k).

(** [char f=a; WRITEDATA(s, f)] and [char f; READDATA(s, f); a=f]. *)
Definition bool_codec : codec bool :=
  Codec (fun a => write_int 1 (if a then 1 else 0))
        (fun _ => f <- read_sint 1 ;; rret (negb (f =? 0))) (fun _ => 1) 1.

(** [base_uint::Serialize] and [Unserialize] of [n] words. *)
Definition base_uint_codec (n : nat) : codec (list Z) :=
  Codec uint_bytes (fun _ => b <- ds_read (4 * Z.of_nat n) ;; rret (uint_of_bytes n b))
        (fun _ => 4 * Z.of_nat n) (4 * Z.of_nat n).

(** [std::string], and [std::vector<unsigned char>] (also [CScript]). *)
Definition string_codec : codec (list Z) :=
  Codec (fun str => WriteCompactSize (size_of str) ++ str)
        (fun _ => nSize <- ReadCompactSize ;;
                  if nSize =? 0 then rret [] else ds_read nSize)
        (fun str => u32 (GetSizeOfCompactSize (size_of str) + size_of str)) 32.

Fixpoint bytes_loop (fuel : nat) (i nSize : Z) (v : list Z) : reader (list Z) :=
  match fuel with
  | O => rret v
  | S fuel =>
      if i <? nSize then
        let blk := Z.min (nSize - i) (1 + 4999999) in
        b <- ds_read blk ;; bytes_loop fuel (i + blk) nSize (v ++ b)
      else rret v
  end.

Definition bytes_codec : codec (list Z) :=
  Codec (fun v => WriteCompactSize (size_of v) ++ v)
        (fun _ => nSize <- ReadCompactSize ;; bytes_loop (Z.to_nat nSize) 0 nSize [])
        (fun v => u32 (GetSizeOfCompactSize (size_of v) + size_of v)) 24.

(** [std::vector<T>] of a class type; [dflt] is the object [resize] makes. *)
Section Vector.
Context {A : Type} (c : codec A) (dflt : A).

Fixpoint elems_loop (n : nat) : reader (list A) :=
  match n with
  | O => rret []
  | S n => x <- dec c dflt ;; xs <- elems_loop n ;; rret (x :: xs)
  end.

Fixpoint vector_loop (fuel : nat) (nMid nSize : Z) (v : list A) : reader (list A) :=
  match fuel with
  | O => rret v
  | S fuel =>
      if nMid <? nSize then
        let i := nMid in
        let nMid := u32 (nMid + 5000000 / sizeof c) in
        let nMid := if nSize <? nMid then nSize else nMid in
        xs <- elems_loop (Z.to_nat (nMid - i)) ;; vector_loop fuel nMid nSize (v ++ xs)
      else rret v
  end.

Definition vector_codec : codec (list A) :=
  Codec (fun v => WriteCompactSize (Z.of_nat (length v)) ++ flat_map (enc c) v)
        (fun _ => nSize <- ReadCompactSize ;; vector_loop (Z.to_nat nSize) 0 nSize [])
        (fun v => fold_left (fun n x => u32 (n + ser_size c x)) v (GetSizeOfCompactSize (Z.of_nat (length v))))
        24.
End Vector.

Definition pair_codec {A B} (c : codec A) (d : codec B) : codec (A * B) :=
  Codec (fun p => enc c (fst p) ++ enc d (snd p))
        (fun old => x <- dec c (fst old) ;; y <- dec d (snd old) ;; rret (x, y))
        (fun p => u32 (ser_size c (fst p) + ser_size d (snd p))) (sizeof c + sizeof d).

(** ** Laws of readers *)

(** A stream as the program makes them: a vector of bytes shorter than 2 GiB. *)
Definition ds_ok (s : CDataStream) : Prop :=
  0 <= nReadPos s <= size_of (vch s) /\ size_of (vch s) < 2 ^ 31 /\ words 8 (vch s).

(** [r] reads [bs] as [a], whatever follows. *)
Definition reads {A} (r : reader A) (a : A) (bs : list Z) : Prop :=
  forall s rest, ds_ok s -> remaining s = bs ++ rest ->
  exists s', r s = Some (a, s') /\ ds_ok s' /\ remaining s' = rest.

(** What [r] returns depends only on the bytes it consumes. *)
Definition local {A} (r : reader A) : Prop :=
  forall s a s', ds_ok s -> r s = Some (a, s') ->
  exists used, remaining s = used ++ remaining s' /\ ds_ok s' /\ reads r a used.

Lemma size_of_app l m : size_of (l ++ m) = size_of l + size_of m.
Proof. unfold size_of; rewrite length_app; lia. Qed.

Lemma size_of_nonneg l : 0 <= size_of l.
Proof. unfold size_of; lia. Qed.

Lemma remaining_size s : ds_ok s -> size_of (remaining s) = size_of (vch s) - nReadPos s.
Proof. intros [H _]; unfold remaining, size_of in *; rewrite length_skipn; lia. Qed.

Lemma u32_small x : 0 <= x < 2 ^ 32 -> u32 x = x.
Proof. intros; rewrite u32_mod; now apply Z.mod_small. Qed.

Lemma firstn_app_exact {A} (l m : list A) n : length l = n -> firstn n (l ++ m) = l.
Proof. intros <-; rewrite firstn_app, Nat.sub_diag, firstn_all, firstn_O; apply app_nil_r. Qed.

Lemma skipn_app_exact {A} (l m : list A) n : length l = n -> skipn n (l ++ m) = m.
Proof. intros <-; rewrite skipn_app, Nat.sub_diag, skipn_all; reflexivity. Qed.

Lemma ds_read_reads n bs : n = size_of bs -> reads (ds_read n) bs bs.
Proof.
  intros -> s rest Hok Hr; pose proof (remaining_size s Hok) as Hs; rewrite Hr, size_of_app in Hs.
  pose proof (size_of_nonneg rest); pose proof (size_of_nonneg bs); pose proof Hok as ([? ?] & ? & ?).
  unfold ds_read; rewrite u32_small by lia; fold (remaining s); rewrite Hr.
  rewrite firstn_app_exact by (unfold size_of; lia).
  destruct (Z.leb_spec (size_of (vch s)) (nReadPos s + size_of bs)).
  - destruct (Z.ltb_spec (size_of (vch s)) (nReadPos s + size_of bs)); [lia|].
    eexists; split; [reflexivity|]; split; [split; [cbn; lia | split; [cbn; lia | constructor]]|].
    assert (size_of rest = 0) by lia; destruct rest; [reflexivity | unfold size_of in *; cbn in *; lia].
  - eexists; split; [reflexivity|]; split; [split; cbn [nReadPos vch]; [lia | now split]|].
    unfold remaining in *; cbn [nReadPos vch].
    rewrite Z2Nat.inj_add, Nat.add_comm, <- skipn_skipn, Hr by lia; apply skipn_app_exact; unfold size_of; lia.
Qed.

Lemma ds_read_local n : 0 <= n <= 2 ^ 31 -> local (ds_read n).
Proof.
  intros Hn s b s' Hok E; pose proof (remaining_size s Hok) as Hs; pose proof Hok as ([? ?] & ? & ?).
  assert (Hle : n <= size_of (remaining s)).
  { unfold ds_read in E; rewrite u32_small in E by lia.
    destruct (Z.leb_spec (size_of (vch s)) (nReadPos s + n)); [|lia].
    destruct (Z.ltb_spec (size_of (vch s)) (nReadPos s + n)); [discriminate | lia]. }
  set (bs := firstn (Z.to_nat n) (remaining s)).
  assert (Hbs : n = size_of bs) by (unfold bs, size_of in *; rewrite length_firstn; lia).
  pose proof (ds_read_reads n bs Hbs) as Hr.
  destruct (Hr s (skipn (Z.to_nat n) (remaining s)) Hok) as (s2 & E2 & Hok2 & Hrem).
  { unfold bs; now rewrite firstn_skipn. }
  rewrite E in E2; injection E2 as -> ->; exists bs; split; [|split; [assumption | exact Hr]].
  rewrite Hrem; unfold bs; now rewrite firstn_skipn.
Qed.

Lemma reads_ret {A} (a : A) : reads (rret a) a [].
Proof. intros s rest Hok Hr; exists s; auto. Qed.

Lemma reads_bind {A B} (r : reader A) (k : A -> reader B) a b bs1 bs2 :
  reads r a bs1 -> reads (k a) b bs2 -> reads (rbind r k) b (bs1 ++ bs2).
Proof.
  intros H1 H2 s rest Hok Hr; rewrite <- app_assoc in Hr.
  destruct (H1 s _ Hok Hr) as (s1 & E1 & Hok1 & Hr1); unfold rbind; rewrite E1; exact (H2 s1 rest Hok1 Hr1).
Qed.

Lemma local_ret {A} (a : A) : local (rret a).
Proof. intros s a' s' Hok [= <- <-]; exists []; split; [reflexivity | split; [assumption | apply reads_ret]]. Qed.

Lemma local_throw {A} : local (@rthrow A).
Proof. intros s a s' _; discriminate. Qed.

Lemma local_bind {A B} (r : reader A) (k : A -> reader B) :
  local r -> (forall a, local (k a)) -> local (rbind r k).
Proof.
  intros Hr Hk s b s' Hok E; unfold rbind in E.
  destruct (r s) as [[a s1]|] eqn:E1; [|discriminate].
  destruct (Hr s a s1 Hok E1) as (u1 & R1 & Hok1 & H1); destruct (Hk a s1 b s' Hok1 E) as (u2 & R2 & Hok2 & H2).
  exists (u1 ++ u2); split; [now rewrite <- app_assoc, <- R2|]; split; [assumption|].
  exact (reads_bind r k a b u1 u2 H1 H2).
Qed.

Lemma local_bind_post {A B} (P : A -> Prop) (r : reader A) (k : A -> reader B) :
  local r -> (forall s a s', ds_ok s -> r s = Some (a, s') -> P a) -> (forall a, P a -> local (k a)) ->
  local (rbind r k).
Proof.
  intros Hr HP Hk s b s' Hok E; unfold rbind in E.
  destruct (r s) as [[a s1]|] eqn:E1; [|discriminate]; specialize (HP s a s1 Hok E1).
  destruct (Hr s a s1 Hok E1) as (u1 & R1 & Hok1 & H1); destruct (Hk a HP s1 b s' Hok1 E) as (u2 & R2 & Hok2 & H2).
  exists (u1 ++ u2); split; [now rewrite <- app_assoc, <- R2|]; split; [assumption|].
  exact (reads_bind r k a b u1 u2 H1 H2).
Qed.

Lemma local_if {A} (b : bool) (r1 r2 : reader A) : local r1 -> local r2 -> local (if b then r1 else r2).
Proof. now destruct b. Qed.

Create HintDb ser.
#[export] Hint Resolve local_ret local_throw local_bind local_if : ser.

(** ** Integers *)

Lemma length_write_int k x : length (write_int k x) = k.
Proof. apply length_le_split. Qed.

Lemma read_uint_reads k x : inw (8 * Z.of_nat k) x -> reads (read_uint k) x (write_int k x).
Proof.
  intros Hx; rewrite <- (app_nil_r (write_int k x)).
  refine (reads_bind _ _ _ _ _ _ (ds_read_reads _ (write_int k x) _) _).
  - unfold size_of; now rewrite length_write_int.
  - unfold write_int; rewrite le_combine_split, trunc_small by (assumption || lia); apply reads_ret.
Qed.

Lemma to_signed_wrap w x : 0 < w -> - 2 ^ (w - 1) <= x < 2 ^ (w - 1) -> to_signed w (x mod 2 ^ w) = x.
Proof.
  intros Hw Hx; unfold to_signed; assert (E : 2 ^ w = 2 * 2 ^ (w - 1)).
  { rewrite <- Z.pow_succ_r by lia; f_equal; lia. }
  destruct (Z.lt_ge_cases x 0).
  - replace (x mod 2 ^ w) with (x + 2 ^ w).
    + destruct (Z.ltb_spec (x + 2 ^ w) (2 ^ (w - 1))); lia.
    + symmetry; rewrite <- (Z.mod_add x 1), Z.mul_1_l by lia; apply Z.mod_small; lia.
  - rewrite Z.mod_small by lia; destruct (Z.ltb_spec x (2 ^ (w - 1))); lia.
Qed.

Lemma read_sint_reads k x :
  (0 < k)%nat -> - 2 ^ (8 * Z.of_nat k - 1) <= x < 2 ^ (8 * Z.of_nat k - 1) ->
  reads (read_sint k) x (write_int k x).
Proof.
  intros Hk Hx; rewrite <- (app_nil_r (write_int k x)).
  refine (reads_bind _ _ _ _ _ _ (ds_read_reads _ (write_int k x) _) _).
  - unfold size_of; now rewrite length_write_int.
  - unfold write_int; rewrite le_combine_split, trunc_mod, to_signed_wrap by lia; apply reads_ret.
Qed.

Lemma read_uint_local k : (k <= 8)%nat -> local (read_uint k).
Proof. intros; apply local_bind; [apply ds_read_local; lia | auto with ser]. Qed.

Lemma read_sint_local k : (k <= 8)%nat -> local (read_sint k).
Proof. intros; apply local_bind; [apply ds_read_local; lia | auto with ser]. Qed.

#[export] Hint Extern 2 (local (read_uint _)) => (apply read_uint_local; lia) : ser.
#[export] Hint Extern 2 (local (read_sint _)) => (apply read_sint_local; lia) : ser.

(** ** Compact sizes *)

Lemma ReadCompactSize_reads n : 0 <= n <= MAX_SIZE -> reads ReadCompactSize n (WriteCompactSize n).
Proof.
  unfold MAX_SIZE; intros Hn.
  assert (Hlast : reads (if MAX_SIZE <? n then rthrow else rret n) n []).
  { unfold MAX_SIZE; destruct (Z.ltb_spec 0x02000000 n); [lia | apply reads_ret]. }
  unfold WriteCompactSize, ReadCompactSize; destruct (Z.ltb_spec n 253).
  - rewrite <- (app_nil_r (write_int 1 n)).
    apply (reads_bind _ _ n); [apply read_uint_reads; unfold inw; lia|].
    replace (n <? 253) with true by (symmetry; apply Z.ltb_lt; lia).
    exact (reads_bind _ _ n _ [] [] (reads_ret n) Hlast).
  - destruct (Z.leb_spec n 0xFFFF).
    + apply (reads_bind _ _ 253); [apply read_uint_reads; unfold inw; lia|]; change (253 <? 253) with false.
      rewrite <- (app_nil_r (write_int 2 n)).
      refine (reads_bind _ _ n _ _ _ _ Hlast); apply read_uint_reads; unfold inw; lia.
    + destruct (Z.leb_spec n 0xFFFFFFFF); [|lia].
      apply (reads_bind _ _ 254); [apply read_uint_reads; unfold inw; lia|]; change (254 <? 253) with false.
      rewrite <- (app_nil_r (write_int 4 n)).
      refine (reads_bind _ _ n _ _ _ _ Hlast); apply read_uint_reads; unfold inw; lia.
Qed.

Lemma ReadCompactSize_local : local ReadCompactSize.
Proof.
  apply local_bind; [auto with ser|]; intros ch; apply local_bind; [|auto with ser].
  repeat apply local_if; auto with ser.
Qed.
#[export] Hint Resolve ReadCompactSize_local : ser.

Lemma ds_read_bytes n s b s' : ds_ok s -> ds_read n s = Some (b, s') -> words 8 b.
Proof.
  intros (_ & _ & Hw) E; unfold ds_read in E.
  destruct (_ <=? _); [destruct (_ <? _); [discriminate|]|]; injection E as <- _; auto with word.
Qed.

Lemma read_uint_nonneg k s x s' : ds_ok s -> read_uint k s = Some (x, s') -> 0 <= x.
Proof.
  intros Hok; unfold read_uint, rbind; destruct (ds_read _ s) as [[b s1]|] eqn:E; [|discriminate].
  intros [= <- _]; apply (le_combine_inw b), (ds_read_bytes _ _ _ _ Hok E).
Qed.

(** The sizes read are bounded. *)
Lemma ReadCompactSize_bound s n s' : ds_ok s -> ReadCompactSize s = Some (n, s') -> 0 <= n <= MAX_SIZE.
Proof.
  intros Hok; unfold ReadCompactSize, rbind; destruct (read_uint 1 s) as [[ch s1]|] eqn:E1; [|discriminate].
  pose proof (read_uint_nonneg _ _ _ _ Hok E1).
  assert (Hok1 : ds_ok s1) by (destruct (read_uint_local 1 ltac:(lia) s ch s1 Hok E1) as (? & _ & ? & _); assumption).
  destruct ((if ch <? 253 then rret ch else _) s1) as [[n' s2]|] eqn:E2; [|discriminate].
  assert (0 <= n').
  { destruct (ch <? 253); [injection E2 as <- _; assumption|].
    destruct (ch =? 253); [|destruct (ch =? 254)]; apply read_uint_nonneg in E2; assumption. }
  destruct (Z.ltb_spec MAX_SIZE n'); [discriminate | intros [= <- _]; lia].
Qed.

Lemma size_compact n : 0 <= n -> size_of (WriteCompactSize n) = GetSizeOfCompactSize n.
Proof.
  intros; unfold size_of, WriteCompactSize, GetSizeOfCompactSize.
  destruct (n <? 253); [reflexivity|]; destruct (n <=? 0xFFFF); [reflexivity|].
  destruct (n <=? 0xFFFFFFFF); reflexivity.
Qed.

(** ** Laws of codecs *)

(** [fresh] says what the object read into must hold where the code does not
    overwrite it; [valid] is the range of the type. *)
Class codec_ok {A} (c : codec A) (fresh valid : A -> Prop) : Prop := {
  codec_roundtrip : forall old a, fresh old -> valid a -> reads (dec c old) a (enc c a);
  codec_local : forall old, local (dec c old);
  codec_bytes : forall a, valid a -> words 8 (enc c a);
  codec_size : forall a, valid a -> ser_size c a = size_of (enc c a) mod 2 ^ 32;
  codec_sizeof : 0 < sizeof c <= 5000000
}.

Definition anyv {A} (a : A) : Prop := True.
Definition urange (k : nat) (x : Z) : Prop := inw (8 * Z.of_nat k) x.
Definition srange (k : nat) (x : Z) : Prop := - 2 ^ (8 * Z.of_nat k - 1) <= x < 2 ^ (8 * Z.of_nat k - 1).

Lemma mod32_small n : 0 <= n < 2 ^ 32 -> n = n mod 2 ^ 32.
Proof. intros; symmetry; now apply Z.mod_small. Qed.

Lemma size_write_int k x : size_of (write_int k x) = Z.of_nat k.
Proof. unfold size_of; now rewrite length_write_int. Qed.

#[export] Instance uint_codec_ok k : (0 < k <= 8)%nat -> codec_ok (uint_codec k) anyv (urange k).
Proof.
  intros Hk; constructor; cbn [enc dec ser_size sizeof uint_codec]; intros.
  - now apply read_uint_reads.
  - apply read_uint_local; lia.
  - apply le_split_bytes.
  - rewrite size_write_int; apply mod32_small; lia.
  - lia.
Qed.

#[export] Instance sint_codec_ok k : (0 < k <= 8)%nat -> codec_ok (sint_codec k) anyv (srange k).
Proof.
  intros Hk; constructor; cbn [enc dec ser_size sizeof sint_codec]; intros.
  - apply read_sint_reads; [lia | assumption].
  - apply read_sint_local; lia.
  - apply le_split_bytes.
  - rewrite size_write_int; apply mod32_small; lia.
  - lia.
Qed.

#[export] Instance bool_codec_ok : codec_ok bool_codec anyv anyv.
Proof.
  constructor; cbn [enc dec ser_size sizeof bool_codec].
  - intros _ a _ _; rewrite <- (app_nil_r (write_int 1 _)).
    apply (reads_bind _ _ (if a then 1 else 0)); [apply read_sint_reads; [lia | destruct a; cbn; lia]|].
    destruct a; apply reads_ret.
  - auto with ser.
  - intros; apply le_split_bytes.
  - intros; reflexivity.
  - lia.
Qed.

Lemma uint_of_uint_bytes n a : wf n a -> uint_of_bytes n (uint_bytes a) = a.
Proof.
  intros Ha; destruct Ha as [Hl Hw].
  assert (E : uint_bytes a = le_split (n * 4) (val a)).
  { rewrite <- (le_split_combine (uint_bytes a)), le_combine_uint by auto using uint_bytes_words.
    f_equal; unfold uint_bytes; rewrite (length_flat_map_const _ 4) by reflexivity; lia. }
  pose proof (wf_bound n a (conj Hl Hw)) as Hb.
  destruct (uint_of_bytes_spec n (val a)) as [Hwf Hv]; [lia|].
  rewrite E; apply (val_inj n); [assumption | now split | rewrite Hv; apply val_mod; now split].
Qed.

Lemma size_uint_bytes n a : wf n a -> size_of (uint_bytes a) = 4 * Z.of_nat n.
Proof.
  intros [Hl _]; unfold size_of, uint_bytes; rewrite (length_flat_map_const _ 4) by reflexivity; lia.
Qed.

#[export] Instance base_uint_codec_ok n : (0 < n <= 16)%nat -> codec_ok (base_uint_codec n) anyv (wf n).
Proof.
  intros Hn; constructor; cbn [enc dec ser_size sizeof base_uint_codec].
  - intros _ a _ Ha; rewrite <- (app_nil_r (uint_bytes a)).
    refine (reads_bind _ _ _ _ _ _ (ds_read_reads _ (uint_bytes a) _) _);
      [now rewrite (size_uint_bytes n) | rewrite uint_of_uint_bytes by assumption; apply reads_ret].
  - intros _; apply local_bind; [apply ds_read_local; lia | auto with ser].
  - intros a _; apply uint_bytes_words.
  - intros a Ha; rewrite (size_uint_bytes n) by assumption; apply mod32_small; lia.
  - lia.
Qed.

(** ** Strings and byte vectors *)

Definition short_bytes (v : list Z) : Prop := words 8 v /\ size_of v <= MAX_SIZE.

Lemma compact_bytes n : words 8 (WriteCompactSize n).
Proof.
  unfold WriteCompactSize; destruct (n <? 253); [apply le_split_bytes|].
  destruct (n <=? 0xFFFF); [|destruct (n <=? 0xFFFFFFFF)]; apply words_app; apply le_split_bytes.
Qed.

Lemma size_with_compact v :
  u32 (GetSizeOfCompactSize (size_of v) + size_of v) = size_of (WriteCompactSize (size_of v) ++ v) mod 2 ^ 32.
Proof. rewrite u32_mod, size_of_app, size_compact by apply size_of_nonneg; reflexivity. Qed.

#[export] Instance string_codec_ok : codec_ok string_codec anyv short_bytes.
Proof.
  constructor; cbn [enc dec ser_size sizeof string_codec].
  - intros _ v _ [Hw Hs]; pose proof (size_of_nonneg v).
    apply (reads_bind _ _ (size_of v)); [apply ReadCompactSize_reads; lia|].
    destruct (Z.eqb_spec (size_of v) 0) as [E|E].
    + destruct v; [apply reads_ret | unfold size_of in E; cbn in E; lia].
    + now apply ds_read_reads.
  - intros _; apply (local_bind_post (fun n => 0 <= n <= MAX_SIZE)); [auto with ser | apply ReadCompactSize_bound|].
    unfold MAX_SIZE; intros n Hn; apply local_if; [auto with ser | apply ds_read_local; lia].
  - intros v [Hw _]; apply words_app; [apply compact_bytes | assumption].
  - intros v _; apply size_with_compact.
  - lia.
Qed.

Lemma bytes_loop_reads fuel i nSize v bs :
  nSize - i = size_of bs -> size_of bs <= Z.of_nat fuel -> nSize <= MAX_SIZE -> 0 <= i ->
  reads (bytes_loop fuel i nSize v) (v ++ bs) bs.
Proof.
  unfold MAX_SIZE; revert i v bs; induction fuel as [|fuel IH]; intros i v bs Hs Hf Hm Hi; cbn [bytes_loop].
  { destruct bs; [rewrite app_nil_r; apply reads_ret | unfold size_of in Hf; cbn in Hf; lia]. }
  destruct (Z.ltb_spec i nSize).
  - set (blk := Z.min (nSize - i) (1 + 4999999)).
    pose proof (firstn_skipn (Z.to_nat blk) bs) as E.
    assert (H1 : size_of (firstn (Z.to_nat blk) bs) = blk) by (unfold size_of in *; rewrite length_firstn; lia).
    assert (H2 : size_of (skipn (Z.to_nat blk) bs) = size_of bs - blk) by (unfold size_of in *; rewrite length_skipn; lia).
    rewrite <- E at 2; apply (reads_bind _ _ (firstn (Z.to_nat blk) bs)); [now apply ds_read_reads|].
    replace (v ++ bs) with ((v ++ firstn (Z.to_nat blk) bs) ++ skipn (Z.to_nat blk) bs)
      by (rewrite <- app_assoc, E; reflexivity).
    apply IH; lia.
  - destruct bs; [rewrite app_nil_r; apply reads_ret | unfold size_of in Hs; cbn in Hs; lia].
Qed.

Lemma bytes_loop_local fuel i nSize v : local (bytes_loop fuel i nSize v).
Proof.
  revert i v; induction fuel as [|fuel IH]; intros i v; cbn [bytes_loop]; [auto with ser|].
  destruct (Z.ltb_spec i nSize); [|auto with ser].
  apply local_bind; [apply ds_read_local; lia | intros; apply IH].
Qed.

#[export] Instance bytes_codec_ok : codec_ok bytes_codec anyv short_bytes.
Proof.
  constructor; cbn [enc dec ser_size sizeof bytes_codec].
  - intros _ v _ [Hw Hs]; pose proof (size_of_nonneg v).
    apply (reads_bind _ _ (size_of v)); [apply ReadCompactSize_reads; lia|].
    apply (bytes_loop_reads _ 0 _ []); lia.
  - intros _; apply local_bind; [auto with ser | intros; apply bytes_loop_local].
  - intros v [Hw _]; apply words_app; [apply compact_bytes | assumption].
  - intros v _; apply size_with_compact.
  - lia.
Qed.

(** ** Vectors and pairs *)

Section VectorLaws.
Context {A : Type} (c : codec A) (dflt : A) (fresh valid : A -> Prop).
Context (Hc : codec_ok c fresh valid) (Hd : fresh dflt).

Definition short_vector (v : list A) : Prop := Forall valid v /\ Z.of_nat (length v) <= MAX_SIZE.

Lemma elems_loop_reads v : Forall valid v -> reads (elems_loop c dflt (length v)) v (flat_map (enc c) v).
Proof.
  induction 1 as [|x v Hx Hv IH]; cbn [length elems_loop flat_map]; [apply reads_ret|].
  apply (reads_bind _ _ x); [now apply codec_roundtrip|].
  rewrite <- (app_nil_r (flat_map _ _)); apply (reads_bind _ _ v); [exact IH | apply reads_ret].
Qed.

Lemma elems_loop_local n : local (elems_loop c dflt n).
Proof.
  induction n as [|n IH]; cbn [elems_loop]; [auto with ser|].
  apply local_bind; [apply (codec_local (codec_ok := Hc)) | auto with ser].
Qed.

Lemma vector_loop_reads fuel nMid nSize v0 v :
  Forall valid v -> nSize - nMid = Z.of_nat (length v) -> Z.of_nat (length v) <= Z.of_nat fuel ->
  nSize <= MAX_SIZE -> 0 <= nMid -> reads (vector_loop c dflt fuel nMid nSize v0) (v0 ++ v) (flat_map (enc c) v).
Proof.
  unfold MAX_SIZE; revert nMid v0 v; induction fuel as [|fuel IH]; intros nMid v0 v Hv Hs Hf Hm Hi; cbn [vector_loop].
  { destruct v; [rewrite app_nil_r; apply reads_ret | cbn in Hf; lia]. }
  destruct (Z.ltb_spec nMid nSize); [|destruct v; [rewrite app_nil_r; apply reads_ret | cbn in Hs; lia]].
  pose proof (codec_sizeof (codec_ok := Hc)) as Hsz.
  assert (Hch : 1 <= 5000000 / sizeof c <= 5000000).
  { split; [apply Z.div_le_lower_bound; lia | apply Z.div_le_upper_bound; nia]. }
  rewrite u32_small by lia; set (m := if nSize <? nMid + 5000000 / sizeof c then nSize else _).
  assert (Hmm : nMid < m <= nSize) by (unfold m; destruct (Z.ltb_spec nSize (nMid + 5000000 / sizeof c)); lia).
  set (k := Z.to_nat (m - nMid)); pose proof (firstn_skipn k v) as E.
  assert (Hk : length (firstn k v) = k) by (rewrite length_firstn; unfold k; lia).
  rewrite <- E in Hv; rewrite <- E at 2; rewrite flat_map_app.
  apply Forall_app in Hv as [Hv1 Hv2].
  apply (reads_bind _ _ (firstn k v)); [rewrite <- Hk at 1; now apply elems_loop_reads|].
  replace (v0 ++ v) with ((v0 ++ firstn k v) ++ skipn k v) by (rewrite <- app_assoc, E; reflexivity).
  apply IH; try assumption; rewrite ?length_skipn; unfold k; lia.
Qed.

Lemma vector_loop_local fuel nMid nSize v : local (vector_loop c dflt fuel nMid nSize v).
Proof.
  revert nMid v; induction fuel as [|fuel IH]; intros nMid v; cbn [vector_loop]; [auto with ser|].
  destruct (nMid <? nSize); [|auto with ser].
  apply local_bind; [apply elems_loop_local | intros; apply IH].
Qed.

Lemma vector_size v n : Forall valid v ->
  fold_left (fun n x => u32 (n + ser_size c x)) v (n mod 2 ^ 32)
  = (n + size_of (flat_map (enc c) v)) mod 2 ^ 32.
Proof.
  intros Hv; revert n; induction Hv as [|x v Hx Hv IH]; intros n; cbn [fold_left flat_map].
  - f_equal; unfold size_of; cbn; lia.
  - rewrite u32_mod, (codec_size (codec_ok := Hc)), <- Zplus_mod, IH, size_of_app by assumption; f_equal; lia.
Qed.

Lemma vector_codec_ok : codec_ok (vector_codec c dflt) anyv short_vector.
Proof using Hc Hd.
  constructor; cbn [enc dec ser_size sizeof vector_codec].
  - intros _ v _ [Hv Hs]; apply (reads_bind _ _ (Z.of_nat (length v))); [apply ReadCompactSize_reads; lia|].
    apply (vector_loop_reads _ 0 _ []); try assumption; lia.
  - intros _; apply local_bind; [auto with ser | intros; apply vector_loop_local].
  - intros v [Hv _]; apply words_app; [apply compact_bytes|].
    induction Hv as [|x v Hx Hv IH]; [constructor|]; cbn [flat_map].
    apply words_app; [now apply (codec_bytes (codec_ok := Hc)) | exact IH].
  - intros v [Hv _]; rewrite size_of_app, size_compact by lia; rewrite <- vector_size by assumption.
    f_equal; apply mod32_small; unfold GetSizeOfCompactSize.
    destruct (_ <? _); [|destruct (_ <=? _); [|destruct (_ <=? _)]]; lia.
  - lia.
Qed.
End VectorLaws.

#[export] Instance pair_codec_ok {A B} (c : codec A) (d : codec B) f1 v1 f2 v2 :
  codec_ok c f1 v1 -> codec_ok d f2 v2 -> sizeof c + sizeof d <= 5000000 ->
  codec_ok (pair_codec c d) (fun p => f1 (fst p) /\ f2 (snd p)) (fun p => v1 (fst p) /\ v2 (snd p)).
Proof.
  intros Hc Hd Hs; constructor; cbn [enc dec ser_size sizeof pair_codec].
  - intros [x0 y0] [x y] [Fx Fy] [Vx Vy]; cbn [fst snd] in *.
    apply (reads_bind _ _ x); [now apply (codec_roundtrip (codec_ok := Hc))|].
    rewrite <- (app_nil_r (enc d y)).
    apply (reads_bind _ _ y); [now apply (codec_roundtrip (codec_ok := Hd)) | apply reads_ret].
  - intros; apply local_bind; [apply (codec_local (codec_ok := Hc))|].
    intros; apply local_bind; [apply (codec_local (codec_ok := Hd)) | auto with ser].
  - intros [x y] [Vx Vy]; apply words_app;
      [now apply (codec_bytes (codec_ok := Hc)) | now apply (codec_bytes (codec_ok := Hd))].
  - intros [x y] [Vx Vy]; cbn [fst snd] in *.
    rewrite u32_mod, (codec_size (codec_ok := Hc)), (codec_size (codec_ok := Hd)), size_of_app by assumption.
    now rewrite <- Zplus_mod.
  - pose proof (codec_sizeof (codec_ok := Hc)); pose proof (codec_sizeof (codec_ok := Hd)); lia.
Qed.

(** ** Streams *)

(** A value written at the end of a stream whose other bytes have been read is
    what is read next. *)
Lemma stream_roundtrip {A} (c : codec A) fresh valid (Hc : codec_ok c fresh valid) s old a :
  fresh old -> valid a -> ds_ok (ds_write s (enc c a)) -> remaining s = [] -> 0 <= nReadPos s <= size_of (vch s) ->
  exists s', dec c old (ds_write s (enc c a)) = Some (a, s') /\ ds_ok s' /\ remaining s' = [].
Proof.
  intros Hf Hv Hok Hr Hp; apply (codec_roundtrip (codec_ok := Hc) old a Hf Hv); [assumption|].
  unfold remaining, ds_write in *; cbn [vch nReadPos]; rewrite skipn_app, Hr.
  replace (Z.to_nat (nReadPos s) - length (vch s))%nat with 0%nat by (unfold size_of in Hp; lia).
  cbn [skipn app]; now rewrite app_nil_r.
Qed.

(** A strict prefix of an encoding always throws. *)
Lemma truncated_throws {A} (c : codec A) fresh valid (Hc : codec_ok c fresh valid) s old a missing :
  fresh old -> valid a -> ds_ok s -> size_of (enc c a) < 2 ^ 31 ->
  enc c a = remaining s ++ missing -> missing <> [] -> dec c old s = None.
Proof.
  intros Hf Hv Hok Hsz He Hm; destruct (dec c old s) as [[a' s']|] eqn:E; [|reflexivity].
  destruct (codec_local (codec_ok := Hc) old s a' s' Hok E) as (used & Hr & Hok' & Hreads).
  set (t := DataStream (enc c a) 0).
  assert (Ht : ds_ok t).
  { split; [unfold t; cbn; pose proof (size_of_nonneg (enc c a)); lia|]; split; [exact Hsz|].
    now apply (codec_bytes (codec_ok := Hc)). }
  destruct (codec_roundtrip (codec_ok := Hc) old a Hf Hv t [] Ht) as (t1 & E1 & _ & R1).
  { unfold remaining, t; cbn [vch nReadPos Z.to_nat skipn]; now rewrite app_nil_r. }
  destruct (Hreads t (remaining s' ++ missing) Ht) as (t2 & E2 & _ & R2).
  { unfold remaining at 1, t; cbn [vch nReadPos Z.to_nat skipn]; rewrite He, Hr; now rewrite app_assoc. }
  rewrite E1 in E2; injection E2 as _ ->; rewrite R1 in R2; symmetry in R2; apply app_eq_nil in R2; tauto.
Qed.
