(* ===== verification/Transaction.v ===== *)
(** * Transaction: transactions, blocks and their wire format (main.h)

    The classes [COutPoint], [CTxIn], [CTxOut], [CTransaction], [CMerkleTx],
    [CDiskTxPos], [CTxIndex] and [CBlock] with their [IMPLEMENT_SERIALIZE]
    bodies as codecs, their predicates, and the context-free checks of
    [CTransaction::CheckTransaction] (main.cpp). *)

From Stdlib Require Import ZArith List Lia Bool Permutation.
From S2P Require Import Prelude SphTypes Uint256 Serialize.
Import ListNotations.

Open Scope Z_scope.
Open Scope word_scope.
Open Scope reader_scope.

(** ** Data *)

Record COutPoint := OutPoint { op_hash : list Z; op_n : Z }.

Record CTxIn := TxIn { prevout : COutPoint; scriptSig : list Z; nSequence : Z }.

Record CTxOut := TxOut { nValue : Z; scriptPubKey : list Z }.

Record CTransaction := Tx {
  tx_nVersion : Z;
  tx_nTime : Z;
  vin : list CTxIn;
  vout : list CTxOut;
  nLockTime : Z;
  strTxComment : list Z;
  nProdTypeID : Z
}.

Record CDiskTxPos := DiskTxPos { nFile : Z; nBlockPos : Z; nTxPos : Z }.

Record CTxIndex := TxIndex { pos : CDiskTxPos; vSpent : list CDiskTxPos }.

Record CMerkleTx := MerkleTx {
  mtx : CTransaction;
  hashBlock : list Z;
  vMerkleBranch : list (list Z);
  nIndex : Z
}.

Record CBlock := Block {
  bl_nVersion : Z;
  hashPrevBlock : list Z;
  hashMerkleRoot : list Z;
  bl_nTime : Z;
  nBits : Z;
  nNonce : Z;
  bl_vtx : list CTransaction;
  vchBlockSig : list Z
}.

(** Default values, as the constructors make them; [now] and [version] are the
    adjusted time and the version that [CTransaction::SetNull] chooses. *)
Definition null_hash : list Z := uint_of_u64 8 0.
Definition COutPoint_null : COutPoint := OutPoint null_hash 0xFFFFFFFF.
Definition CTxIn_null : CTxIn := TxIn COutPoint_null [] 0xFFFFFFFF.
Definition CTxOut_null : CTxOut := TxOut (-1) [].
Definition CTransaction_null (now version : Z) : CTransaction := Tx version now [] [] 0 [] 0.
Definition CDiskTxPos_null : CDiskTxPos := DiskTxPos 0xFFFFFFFF 0 0.

(** ** Predicates *)

Definition outpoint_IsNull (o : COutPoint) : bool := uint_eq64 (op_hash o) 0 && (op_n o =? 0xFFFFFFFF).
Definition outpoint_eq (a b : COutPoint) : bool := uint_eq (op_hash a) (op_hash b) && (op_n a =? op_n b).
Definition outpoint_lt (a b : COutPoint) : bool :=
  uint_lt (op_hash a) (op_hash b) || (uint_eq (op_hash a) (op_hash b) && (op_n a <? op_n b)).

Definition txin_IsFinal (i : CTxIn) : bool := nSequence i =? 0xFFFFFFFF.

Definition txout_IsEmpty (o : CTxOut) : bool := (nValue o =? 0) && (length (scriptPubKey o) =? 0)%nat.

Definition IsCoinBase (tx : CTransaction) : bool :=
  (length (vin tx) =? 1)%nat && outpoint_IsNull (prevout (nth 0 (vin tx) CTxIn_null))
  && (1 <=? length (vout tx))%nat.

Definition IsCoinStake (tx : CTransaction) : bool :=
  (0 <? length (vin tx))%nat && negb (outpoint_IsNull (prevout (nth 0 (vin tx) CTxIn_null)))
  && (2 <=? length (vout tx))%nat && txout_IsEmpty (nth 0 (vout tx) CTxOut_null).

Definition IsProofOfStake (b : CBlock) : bool :=
  (1 <? length (bl_vtx b))%nat && IsCoinStake (nth 1 (bl_vtx b) (CTransaction_null 0 1)).

Definition COIN : Z := 100000000.
Definition CENT : Z := 1000000.
Definition MAX_MONEY : Z := 10000000 * COIN.
Definition MoneyRange (v : Z) : bool := (0 <=? v) && (v <=? MAX_MONEY).

(** Arithmetic of [int64_t]. *)
Definition i64_add (a b : Z) : Z := to_signed 64 ((a + b) mod 2 ^ 64).
Definition i64_sub (a b : Z) : Z := to_signed 64 ((a - b) mod 2 ^ 64).
Definition i64_mul (a b : Z) : Z := to_signed 64 ((a * b) mod 2 ^ 64).

(** [GetValueOut]; [None] is the exception. *)
Fixpoint value_out_loop (nValueOut : Z) (outs : list CTxOut) : option Z :=
  match outs with
  | [] => Some nValueOut
  | o :: outs =>
      let nValueOut := i64_add nValueOut (nValue o) in
      if negb (MoneyRange (nValue o)) || negb (MoneyRange nValueOut) then None
      else value_out_loop nValueOut outs
  end.

Definition GetValueOut (tx : CTransaction) : option Z := value_out_loop 0 (vout tx).

(** [IsFinal], with the best height and the adjusted time it reads when the
    arguments are zero. *)
Definition LOCKTIME_THRESHOLD : Z := 500000000.

Definition IsFinal (nBestHeight adjustedTime : Z) (tx : CTransaction) (nBlockHeight nBlockTime : Z) : bool :=
  if nLockTime tx =? 0 then true
  else
    let nBlockHeight := if nBlockHeight =? 0 then nBestHeight else nBlockHeight in
    let nBlockTime := if nBlockTime =? 0 then adjustedTime else nBlockTime in
    if nLockTime tx <? (if nLockTime tx <? LOCKTIME_THRESHOLD then nBlockHeight else nBlockTime) then true
    else forallb txin_IsFinal (vin tx).

(** ** Codecs of the classes *)

(** [READWRITE(FLATDATA( *this ))]: the 36 bytes of the object. *)
Definition outpoint_codec : codec COutPoint :=
  Codec (fun o => uint_bytes (op_hash o) ++ write_int 4 (op_n o))
        (fun _ => b <- ds_read 36 ;;
                  rret (OutPoint (uint_of_bytes 8 b) (le_combine (skipn 32 b))))
        (fun _ => 36) 36.

Definition disktxpos_codec : codec CDiskTxPos :=
  Codec (fun p => write_int 4 (nFile p) ++ write_int 4 (nBlockPos p) ++ write_int 4 (nTxPos p))
        (fun _ => b <- ds_read 12 ;;
                  rret (DiskTxPos (le_combine (firstn 4 b)) (le_combine (firstn 4 (skipn 4 b)))
                          (le_combine (skipn 8 b))))
        (fun _ => 12) 12.

Definition txin_codec : codec CTxIn :=
  Codec (fun i => enc outpoint_codec (prevout i) ++ enc bytes_codec (scriptSig i)
                  ++ enc (uint_codec 4) (nSequence i))
        (fun old => p <- dec outpoint_codec (prevout old) ;;
                    sc <- dec bytes_codec (scriptSig old) ;;
                    sq <- dec (uint_codec 4) (nSequence old) ;;
                    rret (TxIn p sc sq))
        (fun i => u32 (u32 (ser_size outpoint_codec (prevout i) + ser_size bytes_codec (scriptSig i))
                       + ser_size (uint_codec 4) (nSequence i)))
        72.

Definition txout_codec : codec CTxOut :=
  Codec (fun o => enc (sint_codec 8) (nValue o) ++ enc bytes_codec (scriptPubKey o))
        (fun old => v <- dec (sint_codec 8) (nValue old) ;;
                    sc <- dec bytes_codec (scriptPubKey old) ;;
                    rret (TxOut v sc))
        (fun o => u32 (ser_size (sint_codec 8) (nValue o) + ser_size bytes_codec (scriptPubKey o)))
        32.

Definition vin_codec : codec (list CTxIn) := vector_codec txin_codec CTxIn_null.
Definition vout_codec : codec (list CTxOut) := vector_codec txout_codec CTxOut_null.

(** The comment and the productivity type exist from version 2 on; reading a
    transaction of an older version leaves those fields as they were. *)
Definition tx_codec : codec CTransaction :=
  Codec (fun t => enc (sint_codec 4) (tx_nVersion t) ++ enc (uint_codec 4) (tx_nTime t)
                  ++ enc vin_codec (vin t) ++ enc vout_codec (vout t)
                  ++ enc (uint_codec 4) (nLockTime t)
                  ++ (if 2 <=? tx_nVersion t
                      then enc string_codec (strTxComment t) ++ enc (uint_codec 4) (nProdTypeID t)
                      else []))
        (fun old => ver <- dec (sint_codec 4) (tx_nVersion old) ;;
                    tm <- dec (uint_codec 4) (tx_nTime old) ;;
                    ins <- dec vin_codec (vin old) ;;
                    outs <- dec vout_codec (vout old) ;;
                    lock <- dec (uint_codec 4) (nLockTime old) ;;
                    if 2 <=? ver then
                      com <- dec string_codec (strTxComment old) ;;
                      pt <- dec (uint_codec 4) (nProdTypeID old) ;;
                      rret (Tx ver tm ins outs lock com pt)
                    else rret (Tx ver tm ins outs lock (strTxComment old) (nProdTypeID old)))
        (fun t =>
           let s := ser_size (sint_codec 4) (tx_nVersion t) in
           let s := u32 (s + ser_size (uint_codec 4) (tx_nTime t)) in
           let s := u32 (s + ser_size vin_codec (vin t)) in
           let s := u32 (s + ser_size vout_codec (vout t)) in
           let s := u32 (s + ser_size (uint_codec 4) (nLockTime t)) in
           if 2 <=? tx_nVersion t then
             let s := u32 (s + ser_size string_codec (strTxComment t)) in
             u32 (s + ser_size (uint_codec 4) (nProdTypeID t))
           else s)
        104.

Definition vtx_codec (dflt : CTransaction) : codec (list CTransaction) := vector_codec tx_codec dflt.

(** [nType & (SER_GETHASH|SER_BLOCKHEADERONLY)] *)
Definition SER_NETWORK : Z := 1.
Definition SER_DISK : Z := 2.
Definition SER_GETHASH : Z := 4.
Definition SER_BLOCKHEADERONLY : Z := 0x20000.
Definition header_only (nType : Z) : bool := negb (nType .& (SER_GETHASH .| SER_BLOCKHEADERONLY) =? 0).

Definition hash_codec : codec (list Z) := base_uint_codec 8.

Definition block_codec (nType : Z) (dflt : CTransaction) : codec CBlock :=
  Codec (fun b => enc (sint_codec 4) (bl_nVersion b) ++ enc hash_codec (hashPrevBlock b)
                  ++ enc hash_codec (hashMerkleRoot b) ++ enc (uint_codec 4) (bl_nTime b)
                  ++ enc (uint_codec 4) (nBits b) ++ enc (uint_codec 4) (nNonce b)
                  ++ (if header_only nType then []
                      else enc (vtx_codec dflt) (bl_vtx b) ++ enc bytes_codec (vchBlockSig b)))
        (fun old => ver <- dec (sint_codec 4) (bl_nVersion old) ;;
                    prev <- dec hash_codec (hashPrevBlock old) ;;
                    root <- dec hash_codec (hashMerkleRoot old) ;;
                    tm <- dec (uint_codec 4) (bl_nTime old) ;;
                    bits <- dec (uint_codec 4) (nBits old) ;;
                    nonce <- dec (uint_codec 4) (nNonce old) ;;
                    if header_only nType then rret (Block ver prev root tm bits nonce [] [])
                    else
                      txs <- dec (vtx_codec dflt) (bl_vtx old) ;;
                      sg <- dec bytes_codec (vchBlockSig old) ;;
                      rret (Block ver prev root tm bits nonce txs sg))
        (fun b =>
           let s := ser_size (sint_codec 4) (bl_nVersion b) in
           let s := u32 (s + ser_size hash_codec (hashPrevBlock b)) in
           let s := u32 (s + ser_size hash_codec (hashMerkleRoot b)) in
           let s := u32 (s + ser_size (uint_codec 4) (bl_nTime b)) in
           let s := u32 (s + ser_size (uint_codec 4) (nBits b)) in
           let s := u32 (s + ser_size (uint_codec 4) (nNonce b)) in
           if header_only nType then s
           else
             let s := u32 (s + ser_size (vtx_codec dflt) (bl_vtx b)) in
             u32 (s + ser_size bytes_codec (vchBlockSig b)))
        176.

(** [nVersion] in [CTxIndex] is the version of the format, passed down by the
    stream, which reading overwrites and forgets. *)
Definition txindex_codec (nType nVersion : Z) : codec CTxIndex :=
  Codec (fun x => (if nType .& SER_GETHASH =? 0 then enc (sint_codec 4) nVersion else [])
                  ++ enc disktxpos_codec (pos x)
                  ++ enc (vector_codec disktxpos_codec CDiskTxPos_null) (vSpent x))
        (fun old => _ <- (if nType .& SER_GETHASH =? 0 then dec (sint_codec 4) nVersion else rret nVersion) ;;
                    p <- dec disktxpos_codec (pos old) ;;
                    v <- dec (vector_codec disktxpos_codec CDiskTxPos_null) (vSpent old) ;;
                    rret (TxIndex p v))
        (fun x => let s := if nType .& SER_GETHASH =? 0 then ser_size (sint_codec 4) nVersion else 0 in
                  let s := u32 (s + ser_size disktxpos_codec (pos x)) in
                  u32 (s + ser_size (vector_codec disktxpos_codec CDiskTxPos_null) (vSpent x)))
        40.

Definition merkletx_codec : codec CMerkleTx :=
  Codec (fun x => enc tx_codec (mtx x) ++ enc hash_codec (hashBlock x)
                  ++ enc (vector_codec hash_codec null_hash) (vMerkleBranch x)
                  ++ enc (sint_codec 4) (nIndex x))
        (fun old => t <- dec tx_codec (mtx old) ;;
                    hb <- dec hash_codec (hashBlock old) ;;
                    br <- dec (vector_codec hash_codec null_hash) (vMerkleBranch old) ;;
                    i <- dec (sint_codec 4) (nIndex old) ;;
                    rret (MerkleTx t hb br i))
        (fun x => let s := ser_size tx_codec (mtx x) in
                  let s := u32 (s + ser_size hash_codec (hashBlock x)) in
                  let s := u32 (s + ser_size (vector_codec hash_codec null_hash) (vMerkleBranch x)) in
                  u32 (s + ser_size (sint_codec 4) (nIndex x)))
        176.

(** ** CheckTransaction *)

(** The reasons for which the code rejects, in its order, and the score it
    gives to the peer. *)
Inductive tx_reject :=
  | VinEmpty | VoutEmpty | SizeLimits | EmptyOutput | NegativeValue | ValueTooHigh | TotalOutOfRange
  | DuplicateInput | CoinbaseScriptSize | NullPrevout | CommentTooBig | CommentNotSupported.

Definition reject_dos (r : tx_reject) : Z :=
  match r with
  | VinEmpty | VoutEmpty | NullPrevout | CommentTooBig => 10
  | DuplicateInput => 0
  | _ => 100
  end.

Definition MAX_BLOCK_SIZE : Z := 250000.
Definition MAX_TX_COMMENT_LEN : Z := 512.

(** The loop over the outputs. *)
Fixpoint check_outputs (special : bool) (nValueOut : Z) (outs : list CTxOut) : option tx_reject :=
  match outs with
  | [] => None
  | o :: outs =>
      if txout_IsEmpty o && negb special then Some EmptyOutput
      else if nValue o <? 0 then Some NegativeValue
      else if MAX_MONEY <? nValue o then Some ValueTooHigh
      else
        let nValueOut := i64_add nValueOut (nValue o) in
        if negb (MoneyRange nValueOut) then Some TotalOutOfRange
        else check_outputs special nValueOut outs
  end.

(** The loop over the inputs, with the set of the outpoints seen. *)
Fixpoint duplicate_input (seen : list COutPoint) (ins : list CTxIn) : bool :=
  match ins with
  | [] => false
  | i :: ins => existsb (outpoint_eq (prevout i)) seen || duplicate_input (prevout i :: seen) ins
  end.

(** [None] is acceptance. *)
Definition CheckTransaction (tx : CTransaction) : option tx_reject :=
  if (length (vin tx) =? 0)%nat then Some VinEmpty
  else if (length (vout tx) =? 0)%nat then Some VoutEmpty
  else if MAX_BLOCK_SIZE <? ser_size tx_codec tx then Some SizeLimits
  else match check_outputs (IsCoinBase tx || IsCoinStake tx) 0 (vout tx) with
  | Some r => Some r
  | None =>
      if duplicate_input [] (vin tx) then Some DuplicateInput
      else
        let sig := length (scriptSig (nth 0 (vin tx) CTxIn_null)) in
        let bad :=
          if IsCoinBase tx then
            if (sig <? 2)%nat || (100 <? sig)%nat then Some CoinbaseScriptSize else None
          else if existsb (fun i => outpoint_IsNull (prevout i)) (vin tx) then Some NullPrevout else None in
        match bad with
        | Some r => Some r
        | None =>
            if 2 <=? tx_nVersion tx then
              if MAX_TX_COMMENT_LEN <? u32 (size_of (strTxComment tx)) then Some CommentTooBig else None
            else if 0 <? size_of (strTxComment tx) then Some CommentNotSupported else None
        end
  end.

(** ** Laws of the codecs *)

Definition outpoint_valid (o : COutPoint) : Prop := wf 8 (op_hash o) /\ urange 4 (op_n o).
Definition txin_valid (i : CTxIn) : Prop :=
  outpoint_valid (prevout i) /\ short_bytes (scriptSig i) /\ urange 4 (nSequence i).
Definition txout_valid (o : CTxOut) : Prop := srange 8 (nValue o) /\ short_bytes (scriptPubKey o).

(** Fields a transaction of version 1 does not carry have their defaults. *)
Definition tx_fresh (t : CTransaction) : Prop := strTxComment t = [] /\ nProdTypeID t = 0.
Definition tx_valid (t : CTransaction) : Prop :=
  srange 4 (tx_nVersion t) /\ urange 4 (tx_nTime t) /\ short_vector txin_valid (vin t)
  /\ short_vector txout_valid (vout t) /\ urange 4 (nLockTime t)
  /\ short_bytes (strTxComment t) /\ urange 4 (nProdTypeID t)
  /\ (tx_nVersion t < 2 -> tx_fresh t).

Definition disktxpos_valid (p : CDiskTxPos) : Prop :=
  urange 4 (nFile p) /\ urange 4 (nBlockPos p) /\ urange 4 (nTxPos p).
Definition txindex_valid (x : CTxIndex) : Prop :=
  disktxpos_valid (pos x) /\ short_vector disktxpos_valid (vSpent x).
Definition merkletx_valid (x : CMerkleTx) : Prop :=
  tx_valid (mtx x) /\ wf 8 (hashBlock x) /\ short_vector (wf 8) (vMerkleBranch x) /\ srange 4 (nIndex x).
Definition block_valid (nType : Z) (b : CBlock) : Prop :=
  srange 4 (bl_nVersion b) /\ wf 8 (hashPrevBlock b) /\ wf 8 (hashMerkleRoot b) /\ urange 4 (bl_nTime b)
  /\ urange 4 (nBits b) /\ urange 4 (nNonce b) /\ short_vector tx_valid (bl_vtx b)
  /\ short_bytes (vchBlockSig b) /\ (header_only nType = true -> bl_vtx b = [] /\ vchBlockSig b = []).

#[export] Instance u4_ok : codec_ok (uint_codec 4) anyv (urange 4).
Proof. apply uint_codec_ok; lia. Qed.
#[export] Instance i4_ok : codec_ok (sint_codec 4) anyv (srange 4).
Proof. apply sint_codec_ok; lia. Qed.
#[export] Instance i8_ok : codec_ok (sint_codec 8) anyv (srange 8).
Proof. apply sint_codec_ok; lia. Qed.
#[export] Instance hash_ok : codec_ok hash_codec anyv (wf 8).
Proof. apply base_uint_codec_ok; lia. Qed.

(** Reading one field of an object. *)
Lemma reads_field {A B} (c : codec A) fresh valid (Hc : codec_ok c fresh valid) old a (k : A -> reader B) b bs :
  fresh old -> valid a -> reads (k a) b bs -> reads (x <- dec c old ;; k x) b (enc c a ++ bs).
Proof. intros Hf Hv Hk; apply (reads_bind _ _ a); [now apply (codec_roundtrip (codec_ok := Hc)) | exact Hk]. Qed.

Lemma reads_last {A B} (c : codec A) fresh valid (Hc : codec_ok c fresh valid) old a (k : A -> reader B) b :
  fresh old -> valid a -> k a = rret b -> reads (x <- dec c old ;; k x) b (enc c a).
Proof.
  intros Hf Hv Hk; rewrite <- (app_nil_r (enc c a)); eapply reads_field; eauto; rewrite Hk; apply reads_ret.
Qed.

Lemma local_field {A B} (c : codec A) fresh valid (Hc : codec_ok c fresh valid) old (k : A -> reader B) :
  (forall a, local (k a)) -> local (x <- dec c old ;; k x).
Proof. intros Hk; apply local_bind; [apply (codec_local (codec_ok := Hc)) | exact Hk]. Qed.

Lemma size_field {A} (c : codec A) fresh valid (Hc : codec_ok c fresh valid) s a bs :
  s = size_of bs mod 2 ^ 32 -> valid a -> u32 (s + ser_size c a) = size_of (bs ++ enc c a) mod 2 ^ 32.
Proof.
  intros -> Hv; rewrite u32_mod, (codec_size (codec_ok := Hc)), size_of_app by assumption.
  now rewrite <- Zplus_mod.
Qed.

(** One field after the other. *)
Ltac fields :=
  first [ eapply reads_field; [typeclasses eauto | exact I || assumption | assumption |]
        | eapply reads_last; [typeclasses eauto | exact I || assumption | assumption |]
        | reflexivity ].

Ltac locals := repeat (first [apply local_ret | eapply local_field; [typeclasses eauto |]; intros]).

Lemma bytes_field {A} (c : codec A) fresh valid (Hc : codec_ok c fresh valid) a bs :
  valid a -> words 8 bs -> words 8 (enc c a ++ bs).
Proof. intros; apply words_app; [now apply (codec_bytes (codec_ok := Hc)) | assumption]. Qed.

Lemma bytes_last {A} (c : codec A) fresh valid (Hc : codec_ok c fresh valid) a : valid a -> words 8 (enc c a).
Proof. apply (codec_bytes (codec_ok := Hc)). Qed.

Lemma size_first {A} (c : codec A) fresh valid (Hc : codec_ok c fresh valid) a :
  valid a -> ser_size c a = size_of (enc c a) mod 2 ^ 32.
Proof. apply (codec_size (codec_ok := Hc)). Qed.

Ltac bytes_of :=
  repeat first [ eapply bytes_field; [typeclasses eauto | assumption |]
               | eapply bytes_last; [typeclasses eauto | assumption] ].

(** The size of fields written one after the other, from the last one. *)
Ltac sizes_of :=
  repeat rewrite app_assoc;
  repeat (eapply size_field; [typeclasses eauto | | assumption]);
  eapply size_first; [typeclasses eauto | assumption].

Lemma outpoint_split o : outpoint_valid o ->
  let b := uint_bytes (op_hash o) ++ write_int 4 (op_n o) in
  uint_of_bytes 8 b = op_hash o /\ le_combine (skipn 32 b) = op_n o /\ size_of b = 36.
Proof.
  intros [Hh Hn] b; pose proof (size_uint_bytes 8 _ Hh) as Hs; unfold size_of in Hs.
  assert (Hl : length (uint_bytes (op_hash o)) = 32%nat) by lia.
  split; [|split].
  - transitivity (uint_of_bytes 8 (uint_bytes (op_hash o))); [|now apply uint_of_uint_bytes].
    unfold uint_of_bytes, read_words, b.
    apply map_ext_in; intros i Hi; apply in_seq in Hi.
    rewrite !sph_dec32le_combine by (rewrite length_skipn, ?length_app, ?length_write_int; lia).
    f_equal; rewrite skipn_app, firstn_app, length_skipn.
    replace (4 - _)%nat with 0%nat by lia; now rewrite firstn_O, app_nil_r.
  - unfold b; rewrite skipn_app_exact by assumption; unfold write_int.
    rewrite le_combine_split; apply trunc_small; [lia | exact Hn].
  - unfold b; rewrite size_of_app, size_write_int; unfold size_of; lia.
Qed.

#[export] Instance outpoint_ok : codec_ok outpoint_codec anyv outpoint_valid.
Proof.
  constructor; cbn [enc dec ser_size sizeof outpoint_codec].
  - intros _ o _ Ho; destruct (outpoint_split o Ho) as (E1 & E2 & E3).
    rewrite <- (app_nil_r (uint_bytes _ ++ _)).
    apply (reads_bind _ _ (uint_bytes (op_hash o) ++ write_int 4 (op_n o))).
    + apply ds_read_reads; now rewrite E3.
    + rewrite E1, E2; destruct o; apply reads_ret.
  - intros _; apply local_bind; [apply ds_read_local; lia | auto with ser].
  - intros o _; apply words_app; [apply uint_bytes_words | apply le_split_bytes].
  - intros o Ho; destruct (outpoint_split o Ho) as (_ & _ & ->); reflexivity.
  - lia.
Qed.

#[export] Instance txin_ok : codec_ok txin_codec anyv txin_valid.
Proof.
  constructor; cbn [enc dec ser_size sizeof txin_codec].
  - intros old [p sc sq] _ (Hp & Hs & Hq); cbn [prevout scriptSig nSequence] in *; repeat fields.
  - intros; locals.
  - intros [p sc sq] (Hp & Hs & Hq); cbn [prevout scriptSig nSequence] in *; bytes_of.
  - intros [p sc sq] (Hp & Hs & Hq); cbn [prevout scriptSig nSequence] in *; sizes_of.
  - lia.
Qed.

#[export] Instance txout_ok : codec_ok txout_codec anyv txout_valid.
Proof.
  constructor; cbn [enc dec ser_size sizeof txout_codec].
  - intros old [v sc] _ (Hv & Hs); cbn [nValue scriptPubKey] in *; repeat fields.
  - intros; locals.
  - intros [v sc] (Hv & Hs); cbn [nValue scriptPubKey] in *; bytes_of.
  - intros [v sc] (Hv & Hs); cbn [nValue scriptPubKey] in *; sizes_of.
  - lia.
Qed.

#[export] Instance vin_ok : codec_ok vin_codec anyv (short_vector txin_valid).
Proof. exact (vector_codec_ok txin_codec CTxIn_null anyv txin_valid txin_ok I). Qed.

#[export] Instance vout_ok : codec_ok vout_codec anyv (short_vector txout_valid).
Proof. exact (vector_codec_ok txout_codec CTxOut_null anyv txout_valid txout_ok I). Qed.

#[local] Opaque txin_codec txout_codec vin_codec vout_codec outpoint_codec bytes_codec string_codec
  uint_codec sint_codec base_uint_codec hash_codec.

#[export] Instance tx_ok : codec_ok tx_codec tx_fresh tx_valid.
Proof.
  constructor; cbn [enc dec ser_size sizeof tx_codec].
  - intros old [ver tm ins outs lk com pt] [Fc Fp] (Hv & Ht & Hi & Ho & Hl & Hc & Hp & Hd).
    cbn [tx_nVersion tx_nTime vin vout nLockTime strTxComment nProdTypeID] in *.
    do 4 fields; destruct (Z.leb_spec 2 ver) as [H|H]; [repeat fields|].
    + eapply reads_field; [typeclasses eauto | exact I | assumption |].
      unfold tx_fresh in Hd; cbn [strTxComment nProdTypeID] in Hd.
      rewrite Fc, Fp; destruct (Hd H) as [-> ->]; apply reads_ret.
  - intros old; locals; destruct (2 <=? _); locals.
  - intros [ver tm ins outs lk com pt] (Hv & Ht & Hi & Ho & Hl & Hc & Hp & Hd).
    cbn [tx_nVersion tx_nTime vin vout nLockTime strTxComment nProdTypeID] in *.
    destruct (2 <=? ver); rewrite ?app_nil_r; bytes_of.
  - intros [ver tm ins outs lk com pt] (Hv & Ht & Hi & Ho & Hl & Hc & Hp & Hd).
    cbn [tx_nVersion tx_nTime vin vout nLockTime strTxComment nProdTypeID] in *.
    destruct (2 <=? ver); rewrite ?app_nil_r; sizes_of.
  - lia.
Qed.

#[local] Opaque tx_codec.

Lemma vtx_ok dflt : tx_fresh dflt -> codec_ok (vtx_codec dflt) anyv (short_vector tx_valid).
Proof. exact (vector_codec_ok tx_codec dflt tx_fresh tx_valid tx_ok). Qed.

#[local] Opaque vtx_codec.

Lemma block_ok nType dflt : tx_fresh dflt -> codec_ok (block_codec nType dflt) anyv (block_valid nType).
Proof.
  intros Hd; pose proof (vtx_ok dflt Hd) as Hvtx; constructor; cbn [enc dec ser_size sizeof block_codec].
  - intros old [ver pv rt tm bt nc txs sg] _ (H1 & H2 & H3 & H4 & H5 & H6 & H7 & H8 & H9).
    cbn [bl_nVersion hashPrevBlock hashMerkleRoot bl_nTime nBits nNonce bl_vtx vchBlockSig] in *.
    do 5 fields; destruct (header_only nType); [|repeat fields].
    eapply reads_field; [typeclasses eauto | exact I | assumption |].
    destruct (H9 eq_refl) as [-> ->]; apply reads_ret.
  - intros old; locals; destruct (header_only nType); locals.
  - intros [ver pv rt tm bt nc txs sg] (H1 & H2 & H3 & H4 & H5 & H6 & H7 & H8 & H9).
    cbn [bl_nVersion hashPrevBlock hashMerkleRoot bl_nTime nBits nNonce bl_vtx vchBlockSig] in *.
    destruct (header_only nType); rewrite ?app_nil_r; bytes_of.
  - intros [ver pv rt tm bt nc txs sg] (H1 & H2 & H3 & H4 & H5 & H6 & H7 & H8 & H9).
    cbn [bl_nVersion hashPrevBlock hashMerkleRoot bl_nTime nBits nNonce bl_vtx vchBlockSig] in *.
    destruct (header_only nType); rewrite ?app_nil_r; sizes_of.
  - lia.
Qed.

Lemma le_combine_int k x : urange k x -> le_combine (write_int k x) = x.
Proof. intros H; unfold write_int; rewrite le_combine_split; apply trunc_small; [lia | exact H]. Qed.

#[export] Instance disktxpos_ok : codec_ok disktxpos_codec anyv disktxpos_valid.
Proof.
  constructor; cbn [enc dec ser_size sizeof disktxpos_codec].
  - intros _ [f b t] _ (Hf & Hb & Ht); cbn [nFile nBlockPos nTxPos] in *.
    set (bs := write_int 4 f ++ write_int 4 b ++ write_int 4 t); rewrite <- (app_nil_r bs).
    apply (reads_bind _ _ bs).
    + apply ds_read_reads; unfold bs; rewrite !size_of_app, !size_write_int; reflexivity.
    + assert (E1 : firstn 4 bs = write_int 4 f) by (apply firstn_app_exact, length_write_int).
      assert (E2 : skipn 4 bs = write_int 4 b ++ write_int 4 t) by (apply skipn_app_exact, length_write_int).
      assert (E3 : skipn 8 bs = write_int 4 t).
      { change 8%nat with (4 + 4)%nat; rewrite <- skipn_skipn, E2; apply skipn_app_exact, length_write_int. }
      rewrite E1, E2, E3, firstn_app_exact, !le_combine_int by (assumption || apply length_write_int); apply reads_ret.
  - intros _; apply local_bind; [apply ds_read_local; lia | auto with ser].
  - intros p _; repeat apply words_app; apply le_split_bytes.
  - intros p _; rewrite !size_of_app, !size_write_int; reflexivity.
  - lia.
Qed.

#[export] Instance vspent_ok :
  codec_ok (vector_codec disktxpos_codec CDiskTxPos_null) anyv (short_vector disktxpos_valid).
Proof. exact (vector_codec_ok _ _ anyv disktxpos_valid disktxpos_ok I). Qed.

#[export] Instance branch_ok : codec_ok (vector_codec hash_codec null_hash) anyv (short_vector (wf 8)).
Proof. exact (vector_codec_ok _ _ anyv (wf 8) hash_ok I). Qed.

#[local] Opaque disktxpos_codec vector_codec.

Lemma txindex_ok nType nVersion :
  srange 4 nVersion -> codec_ok (txindex_codec nType nVersion) anyv txindex_valid.
Proof.
  intros Hver; constructor; cbn [enc dec ser_size sizeof txindex_codec].
  - intros old [p v] _ (Hp & Hv); cbn [pos vSpent] in *; destruct (nType .& SER_GETHASH =? 0); cbn [app].
    + apply (reads_bind _ _ nVersion); [eapply codec_roundtrip; [exact I | assumption]|]; repeat fields.
    + refine (reads_bind _ _ nVersion _ [] _ (reads_ret _) _); repeat fields.
  - intros old; apply local_bind; [destruct (_ =? 0); [apply codec_local | auto with ser]|]; intros; locals.
  - intros [p v] (Hp & Hv); cbn [pos vSpent] in *; destruct (_ =? 0); cbn [app]; bytes_of.
  - intros [p v] (Hp & Hv); cbn [pos vSpent] in *; destruct (_ =? 0); cbn [app]; [sizes_of|].
    eapply size_field; [typeclasses eauto | | assumption].
    rewrite Z.add_0_l, u32_mod, (size_first _ _ _ disktxpos_ok), Z.mod_mod by (assumption || lia); reflexivity.
  - lia.
Qed.

Lemma merkletx_ok :
  codec_ok merkletx_codec (fun x => tx_fresh (mtx x)) merkletx_valid.
Proof.
  constructor; cbn [enc dec ser_size sizeof merkletx_codec].
  - intros old [t hb br i] Hf (Ht & Hh & Hb & Hi); cbn [mtx hashBlock vMerkleBranch nIndex] in *; repeat fields.
  - intros; locals.
  - intros [t hb br i] (Ht & Hh & Hb & Hi); cbn [mtx hashBlock vMerkleBranch nIndex] in *; bytes_of.
  - intros [t hb br i] (Ht & Hh & Hb & Hi); cbn [mtx hashBlock vMerkleBranch nIndex] in *; sizes_of.
  - lia.
Qed.

(** ** Properties of the wire format *)

(** C24: What is written to a stream is what is read back.  A transaction (of
    version 1 or 2), a wallet transaction with its Merkle branch, a transaction
    index entry and a block, written after everything else in a stream was
    read, are read back unchanged, the stream is empty afterwards, and
    [GetSerializeSize] is the number of bytes written.  In the header-only
    and hash modes a block reads back as its header. *)
Theorem wire_roundtrip (s : CDataStream) (t : CTransaction) (m : CMerkleTx) (x : CTxIndex) (b : CBlock)
    (nType nVersion now version : Z) (oldm : CMerkleTx) (oldx : CTxIndex) (oldb : CBlock) :
  let dflt := CTransaction_null now version in
  let fits bs := remaining s = [] /\ 0 <= nReadPos s <= size_of (vch s) /\ ds_ok (ds_write s bs) in
  let read_back {A} (c : codec A) (old a : A) :=
    fits (enc c a) ->
    (exists s', dec c old (ds_write s (enc c a)) = Some (a, s') /\ remaining s' = [])
    /\ ser_size c a = size_of (enc c a) in
  srange 4 nVersion -> tx_fresh (mtx oldm) ->
  (tx_valid t -> read_back tx_codec dflt t)
  /\ (merkletx_valid m -> read_back merkletx_codec oldm m)
  /\ (txindex_valid x -> read_back (txindex_codec nType nVersion) oldx x)
  /\ (block_valid nType b -> read_back (block_codec nType dflt) oldb b).
Proof.
  intros dflt fits read_back Hver Hm.
  assert (Hgen : forall A (c : codec A) fresh valid old a,
    codec_ok c fresh valid -> fresh old -> valid a -> read_back A c old a).
  { intros A c fresh valid old a Hc Hf Hv (Hr & Hp & Hok).
    destruct (stream_roundtrip c fresh valid Hc s old a Hf Hv Hok Hr Hp) as (s' & E & _ & Hrem).
    split; [eauto|]; rewrite (codec_size (codec_ok := Hc)) by assumption; apply Z.mod_small.
    destruct Hok as (_ & Hsz & _); cbn [vch ds_write] in Hsz; rewrite size_of_app in Hsz.
    pose proof (size_of_nonneg (vch s)); pose proof (size_of_nonneg (enc c a)); lia. }
  assert (Hd : tx_fresh dflt) by (split; reflexivity).
  split; [|split; [|split]]; intros Hv.
  - exact (Hgen _ _ _ _ _ _ tx_ok Hd Hv).
  - exact (Hgen _ _ _ _ _ _ merkletx_ok Hm Hv).
  - exact (Hgen _ _ _ _ _ _ (txindex_ok nType nVersion Hver) I Hv).
  - exact (Hgen _ _ _ _ _ _ (block_ok nType dflt Hd) I Hv).
Qed.

(** C39: Truncated input is refused: reading any strict prefix of the encoding
    of a valid transaction or block throws, whatever the object read into
    held; nothing is read as something else. *)
Theorem wire_truncated (s : CDataStream) (t old : CTransaction) (b oldb : CBlock) (nType now version : Z)
    (missing : list Z) :
  let dflt := CTransaction_null now version in
  ds_ok s -> missing <> [] ->
  (tx_valid t -> tx_fresh old -> enc tx_codec t = remaining s ++ missing ->
   size_of (enc tx_codec t) < 2 ^ 31 -> dec tx_codec old s = None)
  /\ (block_valid nType b -> enc (block_codec nType dflt) b = remaining s ++ missing ->
      size_of (enc (block_codec nType dflt) b) < 2 ^ 31 -> dec (block_codec nType dflt) oldb s = None).
Proof.
  intros dflt Hok Hm; split; intros.
  - now apply (truncated_throws tx_codec _ _ tx_ok s old t missing).
  - apply (truncated_throws _ _ _ (block_ok nType dflt (conj eq_refl eq_refl)) s oldb b missing); auto; exact I.
Qed.

(** A coinbase and a user transaction of version 2 with a comment. *)
Definition sample_tx : CTransaction :=
  Tx 2 1432620187 [TxIn (OutPoint (map Z.of_nat (seq 1 8)) 3) [0x51; 0x52] 7]
     [TxOut 5000 [0x76]; TxOut 0 [0x6a]] 0 [104; 105] 1.

Lemma sample_tx_valid : tx_valid sample_tx.
Proof.
  unfold tx_valid, sample_tx, srange, urange, short_vector, short_bytes, inw, MAX_SIZE, size_of; cbn.
  repeat match goal with
  | |- _ /\ _ => split
  | |- Forall _ [] => constructor
  | |- Forall _ (_ :: _) => constructor
  | |- txin_valid _ => repeat split
  | |- txout_valid _ => repeat split
  | |- words 8 _ => words_dec
  | |- words 32 _ => words_dec
  end; unfold MAX_SIZE; cbn; try lia; try words_dec.
Qed.

Lemma wire_roundtrip_witness :
  exists s', dec tx_codec (CTransaction_null 5 1) (ds_write (DataStream [] 0) (enc tx_codec sample_tx))
             = Some (sample_tx, s') /\ remaining s' = [].
Proof.
  destruct (wire_roundtrip (DataStream [] 0) sample_tx
    (MerkleTx (CTransaction_null 0 1) null_hash [] 0) (TxIndex CDiskTxPos_null [])
    (Block 6 null_hash null_hash 0 0 0 [] []) 1 60000 5 1
    (MerkleTx (CTransaction_null 0 1) null_hash [] 0) (TxIndex CDiskTxPos_null [])
    (Block 6 null_hash null_hash 0 0 0 [] [])) as [H _].
  - unfold srange; cbn; lia.
  - split; reflexivity.
  - apply H; [exact sample_tx_valid|].
    split; [reflexivity|]; split; [cbn; lia|]; split; [|split]; vm_compute; try easy.
    repeat constructor; easy.
Defined.

Lemma wire_truncated_witness :
  dec tx_codec (CTransaction_null 0 1) (DataStream (firstn 40 (enc tx_codec sample_tx)) 0) = None.
Proof.
  refine (proj1 (wire_truncated (DataStream (firstn 40 (enc tx_codec sample_tx)) 0) sample_tx
    (CTransaction_null 0 1) (Block 6 null_hash null_hash 0 0 0 [] []) (Block 6 null_hash null_hash 0 0 0 [] [])
    1 0 1 (skipn 40 (enc tx_codec sample_tx)) _ _) sample_tx_valid (conj eq_refl eq_refl) _ _);
    [split; [|split]; vm_compute; try easy; repeat constructor; easy | vm_compute; discriminate
    | vm_compute; reflexivity | vm_compute; reflexivity].
Defined.

(** ** CheckTransaction *)

Definition sum_values (outs : list CTxOut) : Z := fold_right (fun o s => nValue o + s) 0 outs.

Lemma i64_add_range a b : - 2 ^ 63 <= a + b < 2 ^ 63 -> i64_add a b = a + b.
Proof. intros H; unfold i64_add; now apply (to_signed_wrap 64). Qed.

Lemma MoneyRange_iff v : MoneyRange v = true <-> 0 <= v <= MAX_MONEY.
Proof. unfold MoneyRange; rewrite andb_true_iff, !Z.leb_le; tauto. Qed.

Definition outputs_ok (special : bool) (acc : Z) (outs : list CTxOut) : Prop :=
  Forall (fun o => 0 <= nValue o <= MAX_MONEY /\ (txout_IsEmpty o = true -> special = true)) outs
  /\ acc + sum_values outs <= MAX_MONEY.

Lemma sum_nonneg P outs : Forall (fun o => 0 <= nValue o <= MAX_MONEY /\ P o) outs -> 0 <= sum_values outs.
Proof.
  induction 1 as [|o outs [Ho _] _ IH]; [reflexivity|].
  cbn [sum_values fold_right]; fold (sum_values outs); lia.
Qed.

Lemma check_outputs_iff special acc outs :
  0 <= acc <= MAX_MONEY -> check_outputs special acc outs = None <-> outputs_ok special acc outs.
Proof.
  unfold outputs_ok; revert acc; induction outs as [|o outs IH]; intros acc Ha.
  { cbn [check_outputs sum_values fold_right]; split; [intros _ | reflexivity].
    split; [apply Forall_nil | lia]. }
  cbn [check_outputs sum_values fold_right]; fold (sum_values outs).
  rewrite Forall_cons_iff; destruct (txout_IsEmpty o && negb special) eqn:E1.
  { apply andb_true_iff in E1 as [E1 E2]; split; [discriminate|]; intros [[[_ H] _] _].
    rewrite (H E1) in E2; discriminate. }
  destruct (Z.ltb_spec (nValue o) 0); [split; [discriminate | intros [[[? _] _] _]; lia]|].
  destruct (Z.ltb_spec MAX_MONEY (nValue o)); [split; [discriminate | intros [[[? _] _] _]; lia]|].
  assert (MAX_MONEY = 10 ^ 15) as HM by reflexivity.
  rewrite i64_add_range by lia; destruct (MoneyRange (acc + nValue o)) eqn:E2; cbn [negb].
  - apply MoneyRange_iff in E2; rewrite IH by assumption.
    split; intros [H1 H2].
    + split; [split; [split; [lia|] | exact H1] | lia].
      intros He; rewrite He in E1; destruct special; [reflexivity | discriminate].
    + split; [tauto | lia].
  - split; [discriminate|]; intros [[_ H1] H2]; apply sum_nonneg in H1.
    assert (MoneyRange (acc + nValue o) = true) by (apply MoneyRange_iff; lia); congruence.
Qed.

Lemma outpoint_eq_iff a b : outpoint_valid a -> outpoint_valid b -> outpoint_eq a b = true <-> a = b.
Proof.
  intros [Ha _] [Hb _]; unfold outpoint_eq; rewrite andb_true_iff, (uint_eq_spec 8), !Z.eqb_eq by assumption.
  destruct a as [h k], b as [h' k']; cbn [op_hash op_n] in *; split.
  - intros [E ->]; f_equal; now apply (val_inj 8).
  - intros [= -> ->]; auto.
Qed.

(** What an accepted transaction is. *)
Definition script_size_ok (tx : CTransaction) : Prop :=
  2 <= size_of (scriptSig (nth 0 (vin tx) CTxIn_null)) <= 100.

Definition tx_acceptable (tx : CTransaction) : Prop :=
  vin tx <> [] /\ vout tx <> [] /\ size_of (enc tx_codec tx) <= MAX_BLOCK_SIZE
  /\ outputs_ok (IsCoinBase tx || IsCoinStake tx) 0 (vout tx)
  /\ NoDup (map prevout (vin tx))
  /\ (IsCoinBase tx = true -> script_size_ok tx)
  /\ (IsCoinBase tx = false -> Forall (fun i => outpoint_IsNull (prevout i) = false) (vin tx))
  /\ (if 2 <=? tx_nVersion tx then size_of (strTxComment tx) <= MAX_TX_COMMENT_LEN else strTxComment tx = []).

Lemma duplicate_input_iff seen ins :
  Forall outpoint_valid seen -> Forall (fun i => outpoint_valid (prevout i)) ins -> NoDup seen ->
  duplicate_input seen ins = false <-> NoDup (seen ++ map prevout ins).
Proof.
  intros Hs Hi; revert seen Hs; induction Hi as [|i ins Hv Hi IH]; intros seen Hs Hnd; cbn [duplicate_input map].
  { rewrite app_nil_r; tauto. }
  assert (E : existsb (outpoint_eq (prevout i)) seen = true <-> In (prevout i) seen).
  { rewrite existsb_exists; rewrite Forall_forall in Hs; split.
    - intros (x & Hx & E); apply outpoint_eq_iff in E; [now subst | assumption | auto].
    - intros Hin; exists (prevout i); split; [assumption | now apply outpoint_eq_iff]. }
  assert (Hcomm : NoDup (seen ++ prevout i :: map prevout ins)
                  <-> NoDup ((prevout i :: seen) ++ map prevout ins)).
  { pose proof (Permutation_middle seen (map prevout ins) (prevout i)) as P.
    split; apply Permutation_NoDup; [symmetry|]; exact P. }
  rewrite orb_false_iff, Hcomm; destruct (existsb _ seen).
  - split; [intros [? _]; discriminate|]; cbn [app]; intros H; inversion_clear H as [|? ? Hn _].
    contradiction Hn; apply in_or_app; left; now apply E.
  - assert (Hn : ~ In (prevout i) seen) by (rewrite <- E; discriminate).
    rewrite IH; [tauto | now constructor | now constructor].
Qed.

(** A transaction whose check is a conjunction of tests. *)
Lemma reject_if {A} (b : bool) (r : A) (k : option A) :
  (if b then Some r else k) = None <-> b = false /\ k = None.
Proof. destruct b; [split; [discriminate | intros [? _]; discriminate] | tauto]. Qed.

Lemma reject_match {A} (o k : option A) :
  match o with Some r => Some r | None => k end = None <-> o = None /\ k = None.
Proof. destruct o; [split; [discriminate | intros [? _]; discriminate] | tauto]. Qed.

Lemma length_eqb_0 {A} (l : list A) : (length l =? 0)%nat = false <-> l <> [].
Proof. rewrite Nat.eqb_neq, length_zero_iff_nil; reflexivity. Qed.

Lemma existsb_false {A} (f : A -> bool) l : existsb f l = false <-> Forall (fun x => f x = false) l.
Proof.
  induction l as [|x l IH]; cbn [existsb]; [split; auto|].
  rewrite orb_false_iff, Forall_cons_iff; tauto.
Qed.

Lemma sig_size_iff tx :
  let sig := length (scriptSig (nth 0 (vin tx) CTxIn_null)) in
  (sig <? 2)%nat || (100 <? sig)%nat = false <-> script_size_ok tx.
Proof. intros sig; unfold script_size_ok, size_of; rewrite orb_false_iff, !Nat.ltb_ge; subst sig; lia. Qed.

Lemma comment_iff tx : size_of (strTxComment tx) < 2 ^ 32 ->
  (if 2 <=? tx_nVersion tx then
     if MAX_TX_COMMENT_LEN <? u32 (size_of (strTxComment tx)) then Some CommentTooBig else None
   else if 0 <? size_of (strTxComment tx) then Some CommentNotSupported else None) = None
  <-> (if 2 <=? tx_nVersion tx then size_of (strTxComment tx) <= MAX_TX_COMMENT_LEN else strTxComment tx = []).
Proof.
  intros Hc; pose proof (size_of_nonneg (strTxComment tx)).
  rewrite u32_mod, Z.mod_small by lia; destruct (2 <=? tx_nVersion tx); rewrite reject_if, Z.ltb_ge; [tauto|].
  unfold size_of; rewrite <- length_zero_iff_nil; split; [intros [? _] | split]; auto; lia.
Qed.

Lemma acceptable_iff tx :
  tx_valid tx -> size_of (enc tx_codec tx) < 2 ^ 32 -> size_of (strTxComment tx) < 2 ^ 32 ->
  CheckTransaction tx = None <-> tx_acceptable tx.
Proof.
  intros Hv Hsz Hc; unfold CheckTransaction, tx_acceptable.
  pose proof (size_of_nonneg (enc tx_codec tx)).
  rewrite reject_if, reject_if, reject_if, reject_match, reject_if, reject_match.
  rewrite !length_eqb_0, Z.ltb_ge, (codec_size (codec_ok := tx_ok)), Z.mod_small by (assumption || lia).
  rewrite check_outputs_iff by (unfold MAX_MONEY, COIN; lia).
  rewrite duplicate_input_iff; [|constructor| |constructor].
  2:{ destruct Hv as (_ & _ & [Hi _] & _); eapply Forall_impl; [|exact Hi]; intros i (? & _); assumption. }
  cbn [app]; rewrite comment_iff by assumption.
  destruct (IsCoinBase tx); rewrite reject_if, ?sig_size_iff, ?existsb_false; intuition discriminate.
Qed.

(** The exception of [GetValueOut] and the loop of [CheckTransaction]. *)
Lemma value_out_sum special acc outs :
  0 <= acc <= MAX_MONEY -> outputs_ok special acc outs ->
  value_out_loop acc outs = Some (acc + sum_values outs).
Proof.
  revert acc; induction outs as [|o outs IH]; intros acc Ha [Hf Hs]; cbn [value_out_loop sum_values fold_right] in *.
  { now rewrite Z.add_0_r. }
  fold (sum_values outs) in *; apply Forall_cons_iff in Hf as [[Ho _] Hf].
  assert (MAX_MONEY = 10 ^ 15) as HM by reflexivity; pose proof (sum_nonneg _ _ Hf).
  rewrite i64_add_range by lia.
  rewrite (proj2 (MoneyRange_iff (nValue o)) Ho), (proj2 (MoneyRange_iff (acc + nValue o))) by lia.
  cbn [negb orb]; rewrite IH; [f_equal; lia | lia |]; split; [exact Hf | lia].
Qed.

Lemma coinbase_not_coinstake tx : IsCoinBase tx = true -> IsCoinStake tx = false.
Proof.
  unfold IsCoinBase, IsCoinStake; rewrite !andb_true_iff; intros [[_ ->] _].
  now rewrite andb_false_r.
Qed.

(** C22: [CheckTransaction] decides well-formedness: it accepts a transaction
    exactly when it has inputs and outputs, fits in a block, every output
    value and the total are in the money range with no overflow on the way,
    only coinbase and coinstake transactions have an empty output, no
    outpoint is spent twice, a coinbase has a script of 2 to 100 bytes, other
    transactions have no null input, and the comment is at most 512 bytes
    (none before version 2).  Then [GetValueOut] does not throw and returns
    the exact sum of the outputs, at most [MAX_MONEY]; and no transaction is
    both a coinbase and a coinstake. *)
Theorem CheckTransaction_iff (tx : CTransaction) :
  tx_valid tx -> size_of (enc tx_codec tx) < 2 ^ 32 ->
  (CheckTransaction tx = None <-> tx_acceptable tx)
  /\ (CheckTransaction tx = None ->
      GetValueOut tx = Some (sum_values (vout tx)) /\ 0 <= sum_values (vout tx) <= MAX_MONEY)
  /\ (IsCoinBase tx && IsCoinStake tx = false).
Proof.
  intros Hv Hsz.
  assert (Hc : size_of (strTxComment tx) < 2 ^ 32).
  { destruct Hv as (_ & _ & _ & _ & _ & [_ Hb] & _); unfold MAX_SIZE in Hb; lia. }
  pose proof (acceptable_iff tx Hv Hsz Hc) as Hacc; split; [exact Hacc | split].
  - intros Hok; apply Hacc in Hok as (_ & _ & _ & Ho & _).
    assert (0 <= 0 <= MAX_MONEY) as H0 by (unfold MAX_MONEY, COIN; lia).
    split; [exact (value_out_sum _ _ _ H0 Ho)|].
    destruct Ho as [Hf Hs]; pose proof (sum_nonneg _ _ Hf); lia.
  - destruct (IsCoinBase tx) eqn:E; [now rewrite (coinbase_not_coinstake tx E) | reflexivity].
Qed.

Lemma CheckTransaction_iff_witness :
  CheckTransaction sample_tx = None /\ tx_acceptable sample_tx /\ GetValueOut sample_tx = Some 5000.
Proof.
  destruct (CheckTransaction_iff sample_tx sample_tx_valid) as (H1 & H2 & _); [vm_compute; reflexivity|].
  assert (H : CheckTransaction sample_tx = None) by (vm_compute; reflexivity).
  split; [exact H|]; split; [now apply H1 | exact (proj1 (H2 H))].
Defined.
