(* ===== verification/BigNum.v ===== *)
(** * BigNum: the wrapper of OpenSSL's big integers (bignum.h)

    [CBigNum] is a [BIGNUM] of OpenSSL with conversions written in this
    program.  A [BIGNUM] is identified with the integer it stands for; the
    functions of OpenSSL that the code calls are the operations of the class
    [BN_lib], and what their manual says of them are the laws [BN_laws].
    Byte lists are in memory order: the MPI format of OpenSSL is big-endian
    with the sign in the top bit, the [vch] format of scripts is its reverse. *)

From Stdlib Require Import ZArith List Lia Bool.
From S2P Require Import Prelude SphTypes Uint256.
Import ListNotations.

Open Scope Z_scope.
Open Scope word_scope.

(** ** The MPI format *)

Definition be_combine (d : list Z) : Z := le_combine (rev d).

(** The number of bytes of a magnitude. *)
Definition nbytes (z : Z) : nat := if z =? 0 then 0 else Z.to_nat (Z.log2 z / 8 + 1).

(** The magnitude, most significant byte first, without leading zeros. *)
Definition magnitude (z : Z) : list Z := rev (le_split (nbytes z) z).

(** The number in big-endian format, where the most significant bit signals a
    negative number and a magnitude with that bit set is prefixed with a
    null byte. *)
Definition mpi_body (z : Z) : list Z :=
  match magnitude (Z.abs z) with
  | [] => []
  | t :: r =>
      if t .& 0x80 =? 0 then (if z <? 0 then t .| 0x80 else t) :: r
      else (if z <? 0 then 0x80 else 0) :: t :: r
  end.

Definition mpi_value (d : list Z) : Z :=
  match d with
  | [] => 0
  | t :: r => if t .& 0x80 =? 0 then be_combine d else - be_combine (t .& 0x7F :: r)
  end.

(** The length in four bytes, big-endian. *)
Definition mpi_header (nSize : Z) : list Z :=
  [(nSize >> 24) .& 0xFF; (nSize >> 16) .& 0xFF; (nSize >> 8) .& 0xFF; nSize .& 0xFF].

(** ** OpenSSL *)

Class BN_lib := {
  BN_mpi2bn : list Z -> Z;
  BN_bn2mpi : Z -> list Z;
  BN_set_word : Z -> Z;
  BN_get_word : Z -> Z;
  BN_add : Z -> Z -> Z;
  BN_sub : Z -> Z -> Z;
  BN_mul : Z -> Z -> Z;
  BN_div : Z -> Z -> option Z;
  BN_cmp : Z -> Z -> Z;
  BN_lshift : Z -> Z -> Z
}.

(** The documentation of those functions. *)
Class BN_laws (L : BN_lib) : Prop := {
  mpi2bn_law d : words 8 d -> Z.of_nat (length d) < 2 ^ 31 ->
    BN_mpi2bn (mpi_header (Z.of_nat (length d)) ++ d) = mpi_value d;
  bn2mpi_law z : Z.log2 (Z.abs z) < 2 ^ 31 ->
    BN_bn2mpi z = mpi_header (Z.of_nat (length (mpi_body z))) ++ mpi_body z;
  set_word_law w : 0 <= w < 2 ^ 64 -> BN_set_word w = w;
  get_word_law z : BN_get_word z = if Z.abs z <? 2 ^ 64 then Z.abs z else 2 ^ 64 - 1;
  add_law a b : BN_add a b = a + b;
  sub_law a b : BN_sub a b = a - b;
  mul_law a b : BN_mul a b = a * b;
  div_law a b : BN_div a b = if b =? 0 then None else Some (Z.quot a b);
  cmp_law a b : BN_cmp a b = match a ?= b with Lt => -1 | Eq => 0 | Gt => 1 end;
  lshift_law a n : 0 <= n -> BN_lshift a n = a * 2 ^ n
}.

(** An implementation, to show that the laws can hold. *)
#[export] Instance BN_ideal : BN_lib := {
  BN_mpi2bn m := mpi_value (skipn 4 m);
  BN_bn2mpi z := mpi_header (Z.of_nat (length (mpi_body z))) ++ mpi_body z;
  BN_set_word w := w;
  BN_get_word z := if Z.abs z <? 2 ^ 64 then Z.abs z else 2 ^ 64 - 1;
  BN_add := Z.add;
  BN_sub := Z.sub;
  BN_mul := Z.mul;
  BN_div a b := if b =? 0 then None else Some (Z.quot a b);
  BN_cmp a b := match a ?= b with Lt => -1 | Eq => 0 | Gt => 1 end;
  BN_lshift a n := a * 2 ^ n
}.

#[export] Instance BN_ideal_laws : BN_laws BN_ideal.
Proof. now constructor. Qed.

(** ** CBigNum *)

Section CBigNum.
Context {L : BN_lib}.

(** The loop shared by the setters: the bytes [cs], most significant first,
    without leading zeros and with the sign. *)
Fixpoint mpi_loop (fNegative fLeadingZeroes : bool) (cs : list Z) : list Z :=
  match cs with
  | [] => []
  | c :: cs =>
      if fLeadingZeroes then
        if c =? 0 then mpi_loop fNegative true cs
        else if negb (c .& 0x80 =? 0) then (if fNegative then 0x80 else 0) :: c :: mpi_loop fNegative false cs
        else (if fNegative then c .| 0x80 else c) :: mpi_loop fNegative false cs
      else c :: mpi_loop fNegative false cs
  end.

(** [c = (n >> 56) & 0xff; n <<= 8] *)
Fixpoint shift_bytes (k : nat) (n : Z) : list Z :=
  match k with
  | O => []
  | S k => ((n >> 56) .& 0xFF) :: shift_bytes k (u64 (n << 8))
  end.

Definition from_mpi (p : list Z) : Z := BN_mpi2bn (mpi_header (u32 (Z.of_nat (length p))) ++ p).

Definition setint64 (sn : Z) : Z :=
  let fNegative := sn <? 0 in
  let n := if fNegative then u64 (u64 (- (sn + 1)) + 1) else sn in
  from_mpi (mpi_loop fNegative true (shift_bytes 8 n)).

Definition setuint64 (n : Z) : Z := from_mpi (mpi_loop false true (shift_bytes 8 n)).

Definition setuint256 (n : list Z) : Z := from_mpi (mpi_loop false true (rev (uint_bytes n))).

(** [CBigNum(int)], [CBigNum(long)] and the shorter signed types. *)
Definition CBigNum_int (n : Z) : Z := if 0 <=? n then BN_set_word n else setint64 n.

(** The magnitude without its sign bit, least significant byte first. *)
Definition unsigned_bytes (z : Z) : list Z :=
  match skipn 4 (BN_bn2mpi z) with
  | [] => []
  | t :: r => rev (t .& 0x7F :: r)
  end.

(** The loop over [i < k] and [j >= 4] that fills an object of [k] zero bytes. *)
Definition fill_bytes (k : nat) (v : list Z) : list Z := firstn k v ++ repeat 0 (k - length v).

Definition getuint64 (z : Z) : Z :=
  if Z.of_nat (length (BN_bn2mpi z)) <? 4 then 0
  else le_combine (fill_bytes 8 (unsigned_bytes z)).

Definition getuint256 (z : Z) : list Z :=
  if Z.of_nat (length (BN_bn2mpi z)) <? 4 then uint_of_u64 8 0
  else uint_of_bytes 8 (fill_bytes 32 (unsigned_bytes z)).

Definition setvch (vch : list Z) : Z := from_mpi (rev vch).

Definition getvch (z : Z) : list Z :=
  let vch := BN_bn2mpi z in
  if Z.of_nat (length vch) <=? 4 then [] else rev (skipn 4 vch).

Definition INT_MAX : Z := 2147483647.
Definition INT_MIN : Z := -2147483648.

Definition getint (z : Z) : Z :=
  let n := BN_get_word z in
  if negb (z <? 0) then if INT_MAX <? n then INT_MAX else n
  else if INT_MAX <? n then INT_MIN else - n.

Definition SetCompact (nCompact : Z) : Z :=
  let nSize := nCompact >> 24 in
  let vch := repeat 0 (Z.to_nat (4 + nSize)) in
  let vch := upd vch 3 nSize in
  let vch := if 1 <=? nSize then upd vch 4 ((nCompact >> 16) .& 0xFF) else vch in
  let vch := if 2 <=? nSize then upd vch 5 ((nCompact >> 8) .& 0xFF) else vch in
  let vch := if 3 <=? nSize then upd vch 6 ((nCompact >> 0) .& 0xFF) else vch in
  BN_mpi2bn vch.

Definition GetCompact (z : Z) : Z :=
  let vch := BN_bn2mpi z in
  let nSize := u32 (Z.of_nat (length vch) - 4) in
  let nCompact := u32 (nSize << 24) in
  let nCompact := if 1 <=? nSize then nCompact .| (nth 4 vch 0 << 16) else nCompact in
  let nCompact := if 2 <=? nSize then nCompact .| (nth 5 vch 0 << 8) else nCompact in
  if 3 <=? nSize then nCompact .| (nth 6 vch 0 << 0) else nCompact.

(** Operators. *)
Definition bn_lt (a b : Z) : bool := BN_cmp a b <? 0.
Definition bn_le (a b : Z) : bool := BN_cmp a b <=? 0.
Definition bn_gt (a b : Z) : bool := 0 <? BN_cmp a b.
Definition bn_ge (a b : Z) : bool := 0 <=? BN_cmp a b.
Definition bn_eq (a b : Z) : bool := BN_cmp a b =? 0.
Definition bn_ne (a b : Z) : bool := negb (BN_cmp a b =? 0).

End CBigNum.

(** ** Bytes *)

Lemma byte_all (f : Z -> bool) :
  forallb f (map Z.of_nat (seq 0 256)) = true -> forall t, inw 8 t -> f t = true.
Proof.
  intros H t Ht; rewrite forallb_forall in H; apply H, in_map_iff.
  exists (Z.to_nat t); unfold inw in Ht; rewrite Z2Nat.id, in_seq by lia; split; [reflexivity | lia].
Qed.

Lemma byte_sign t : inw 8 t -> (t .& 0x80 =? 0) = (t <? 128).
Proof.
  intros Ht; apply eqb_prop, (byte_all (fun t => eqb (t .& 0x80 =? 0) (t <? 128))); [reflexivity | exact Ht].
Qed.

Lemma byte_low t : t .& 0x7F = t mod 128.
Proof. exact (Z.land_ones t 7 ltac:(lia)). Qed.

Lemma byte_set_sign t : inw 8 t -> t < 128 -> t .| 0x80 = t + 128.
Proof.
  intros Ht Hs.
  pose proof (byte_all (fun t => implb (t <? 128) (t .| 0x80 =? t + 128)) eq_refl t Ht) as H; cbn beta in H.
  rewrite (proj2 (Z.ltb_lt _ _) Hs) in H; now apply Z.eqb_eq.
Qed.

(** ** Big-endian numbers *)

Lemma be_cons t r : words 8 r -> be_combine (t :: r) = t * 256 ^ Z.of_nat (length r) + be_combine r.
Proof.
  intros Hr; unfold be_combine; cbn [rev]; rewrite le_combine_app by now apply Forall_rev.
  rewrite length_rev; cbn [le_combine]; rewrite Z.shiftl_0_l, Z.lor_0_r; lia.
Qed.

Lemma be_bound d : words 8 d -> 0 <= be_combine d < 256 ^ Z.of_nat (length d).
Proof.
  intros Hd; apply Forall_rev in Hd; pose proof (le_combine_inw _ Hd) as H; unfold be_combine, inw in *.
  rewrite length_rev, Z.pow_mul_r in H by lia; exact H.
Qed.

Lemma be_repeat n : be_combine (repeat 0 n) = 0.
Proof.
  induction n as [|n IH]; [reflexivity|]; cbn [repeat]; rewrite be_cons, IH by (apply words_repeat; auto with word); lia.
Qed.

Lemma be_app d e : words 8 d -> words 8 e ->
  be_combine (d ++ e) = be_combine d * 256 ^ Z.of_nat (length e) + be_combine e.
Proof.
  intros Hd He; unfold be_combine; rewrite rev_app_distr, le_combine_app by now apply Forall_rev.
  rewrite length_rev; lia.
Qed.

Lemma pow256 k : 0 <= k -> 256 ^ k = 2 ^ (8 * k).
Proof. intros; now rewrite Z.pow_mul_r by lia. Qed.

Lemma pow256_pos k : 0 <= k -> 0 < 256 ^ k.
Proof. intros; apply Z.pow_pos_nonneg; lia. Qed.

Lemma nbytes_unique z k : 256 ^ Z.of_nat k <= z < 256 ^ Z.of_nat (S k) -> nbytes z = S k.
Proof.
  intros Hz; pose proof (pow256_pos (Z.of_nat k) ltac:(lia)); rewrite !pow256 in Hz by lia.
  unfold nbytes; destruct (Z.eqb_spec z 0); [lia|].
  assert (8 * Z.of_nat k <= Z.log2 z < 8 * Z.of_nat (S k)) as Hl.
  { split; [apply Z.log2_le_pow2 | apply Z.log2_lt_pow2]; lia. }
  replace (Z.log2 z / 8) with (Z.of_nat k); [lia|].
  apply Z.div_unique with (Z.log2 z - 8 * Z.of_nat k); lia.
Qed.

Lemma nbytes_range z : 0 < z -> exists k, nbytes z = S k /\ 256 ^ Z.of_nat k <= z < 256 ^ Z.of_nat (S k).
Proof.
  intros Hz; pose proof (Z.log2_nonneg z); pose proof (Z.log2_spec z Hz).
  exists (Z.to_nat (Z.log2 z / 8)).
  assert (256 ^ Z.of_nat (Z.to_nat (Z.log2 z / 8)) <= z < 256 ^ Z.of_nat (S (Z.to_nat (Z.log2 z / 8)))) as Hr.
  { pose proof (Z.div_pos (Z.log2 z) 8 ltac:(lia) ltac:(lia)).
    rewrite !pow256, Nat2Z.inj_succ, Z2Nat.id by lia.
    pose proof (Z.div_mod (Z.log2 z) 8 ltac:(lia)); pose proof (Z.mod_pos_bound (Z.log2 z) 8 ltac:(lia)).
    split.
    - apply Z.le_trans with (2 ^ Z.log2 z); [apply Z.pow_le_mono_r|]; lia.
    - apply Z.lt_le_trans with (2 ^ Z.succ (Z.log2 z)); [|apply Z.pow_le_mono_r]; lia. }
  split; [now apply nbytes_unique | exact Hr].
Qed.

Lemma magnitude_spec z : 0 <= z -> words 8 (magnitude z) /\ be_combine (magnitude z) = z.
Proof.
  intros Hz; split; [apply Forall_rev, le_split_bytes|].
  unfold magnitude, be_combine; rewrite rev_involutive, le_combine_split, trunc_mod by lia.
  apply Z.mod_small; destruct (Z.eq_dec z 0) as [-> | Hn]; [cbn; lia|].
  destruct (nbytes_range z) as (k & -> & Hk); [lia|]; rewrite <- pow256 by lia; lia.
Qed.

Lemma magnitude_be c r : inw 8 c -> c <> 0 -> words 8 r -> magnitude (be_combine (c :: r)) = c :: r.
Proof.
  intros Hc Hn Hr; unfold inw in Hc; pose proof (be_bound r Hr).
  pose proof (pow256_pos (Z.of_nat (length r)) ltac:(lia)).
  assert (E : nbytes (be_combine (c :: r)) = length (c :: r)).
  { apply (nbytes_unique _ (length r)); rewrite be_cons, Nat2Z.inj_succ, Z.pow_succ_r by (assumption || lia).
    change (2 ^ 8) with 256 in Hc; split; nia. }
  unfold magnitude; rewrite E; unfold be_combine; rewrite <- (length_rev (c :: r)), le_split_combine.
  - apply rev_involutive.
  - apply Forall_rev; constructor; assumption.
Qed.

(** The magnitude of a positive number starts with a non-zero byte. *)
Lemma magnitude_pos z : 0 < z ->
  exists t r, magnitude z = t :: r /\ 0 < t < 256 /\ words 8 r /\ z = t * 256 ^ Z.of_nat (length r) + be_combine r.
Proof.
  intros Hz; destruct (nbytes_range z Hz) as (k & Hk & Hr); destruct (magnitude_spec z) as [Hw Hv]; [lia|].
  assert (Hl : length (magnitude z) = S k) by (unfold magnitude; rewrite length_rev, length_le_split; exact Hk).
  destruct (magnitude z) as [|t r]; [discriminate|]; inversion_clear Hw as [|? ? Ht Hwr].
  rewrite be_cons in Hv by assumption; exists t, r; repeat split; auto; unfold inw in Ht; try lia.
  pose proof (be_bound r Hwr); injection Hl as Hl; rewrite Hl in *; nia.
Qed.

(** ** The MPI format and its inverse *)

(** The two shapes of a non-empty MPI body: the sign in a free top bit, or in
    a byte of its own. *)
Lemma mpi_body_shape z : z <> 0 ->
  exists t r, words 8 (t :: r) /\ 0 < t < 256 /\ Z.abs z = t * 256 ^ Z.of_nat (length r) + be_combine r
  /\ mpi_body z = if t <? 128 then (if z <? 0 then t + 128 else t) :: r
                  else (if z <? 0 then 128 else 0) :: t :: r.
Proof.
  intros Hz; destruct (magnitude_pos (Z.abs z)) as (t & r & E & Ht & Hr & Hv); [lia|].
  assert (Hb : inw 8 t) by (unfold inw; lia).
  exists t, r; split; [now constructor|]; split; [assumption|]; split; [assumption|].
  unfold mpi_body; rewrite E, byte_sign by assumption; destruct (Z.ltb_spec t 128); [|reflexivity].
  now rewrite byte_set_sign.
Qed.

Lemma mpi_body_bytes z : words 8 (mpi_body z).
Proof.
  destruct (Z.eq_dec z 0) as [-> | Hz]; [constructor|].
  destruct (mpi_body_shape z Hz) as (t & r & Hw & Ht & _ & ->); inversion_clear Hw as [|? ? Hb Hr].
  destruct (Z.ltb_spec t 128), (z <? 0); repeat constructor; auto; unfold inw; lia.
Qed.

(** The value of a body with its sign split off. *)
Lemma mpi_value_cons t r : inw 8 t -> words 8 r ->
  mpi_value (t :: r) = (if t <? 128 then 1 else -1) * (t mod 128 * 256 ^ Z.of_nat (length r) + be_combine r).
Proof.
  intros Ht Hr; unfold mpi_value; rewrite byte_sign, byte_low, !be_cons by assumption.
  unfold inw in Ht; destruct (Z.ltb_spec t 128); [rewrite (Z.mod_small t) by lia|]; lia.
Qed.

Lemma mpi_value_body z : mpi_value (mpi_body z) = z.
Proof.
  destruct (Z.eq_dec z 0) as [-> | Hz]; [reflexivity|]; pose proof (mpi_body_bytes z) as Hb.
  destruct (mpi_body_shape z Hz) as (t & r & Hw & Ht & Hv & E); rewrite E in *.
  inversion_clear Hw as [|? ? Htb Hr].
  destruct (Z.ltb_spec t 128); inversion_clear Hb as [|? ? Hx _]; rewrite mpi_value_cons by (assumption || now constructor).
  - destruct (Z.ltb_spec z 0).
    + replace (t + 128 <? 128) with false by (symmetry; apply Z.ltb_ge; lia).
      replace ((t + 128) mod 128) with t by (apply Z.mod_unique with 1; lia); lia.
    + replace (t <? 128) with true by (symmetry; apply Z.ltb_lt; lia); rewrite Z.mod_small by lia; lia.
  - rewrite be_cons by assumption.
    destruct (Z.ltb_spec z 0); cbn [Z.ltb Z.compare Pos.compare Pos.compare_cont].
    + change (128 mod 128) with 0; lia.
    + change (0 mod 128) with 0; lia.
Qed.

Lemma mpi_value_bound d : words 8 d -> Z.abs (mpi_value d) <= 2 ^ (8 * Z.of_nat (length d)).
Proof.
  intros Hd; destruct d as [|t r]; [cbn; lia|]; inversion_clear Hd as [|? ? Ht Hr].
  rewrite mpi_value_cons, <- pow256 by (assumption || lia); cbn [length].
  rewrite Nat2Z.inj_succ, Z.pow_succ_r by lia.
  pose proof (be_bound r Hr); pose proof (Z.mod_pos_bound t 128 ltac:(lia)).
  pose proof (pow256_pos (Z.of_nat (length r)) ltac:(lia)).
  assert (0 <= t mod 128 * 256 ^ Z.of_nat (length r) + be_combine r <= 256 * 256 ^ Z.of_nat (length r)) by nia.
  destruct (t <? 128); lia.
Qed.

(** The number of bytes: one bit more than the magnitude. *)
Lemma length_mpi_body z : z <> 0 -> Z.of_nat (length (mpi_body z)) = (Z.log2 (Z.abs z) + 1) / 8 + 1.
Proof.
  intros Hz; destruct (mpi_body_shape z Hz) as (t & r & Hw & Ht & Hv & ->); inversion_clear Hw as [|? ? _ Hr].
  pose proof (be_bound r Hr) as Hb; set (k := Z.of_nat (length r)) in *; assert (0 <= k) by lia.
  pose proof (pow256_pos k ltac:(lia)) as Hp.
  assert (Hl : forall lo hi, 2 ^ lo <= t < 2 ^ hi -> 0 <= lo < hi -> lo + 8 * k <= Z.log2 (Z.abs z) < hi + 8 * k).
  { intros lo hi Hth Hlo.
    split; [apply Z.log2_le_pow2 | apply Z.log2_lt_pow2]; try lia; rewrite Z.pow_add_r, <- pow256 by lia; nia. }
  destruct (Z.ltb_spec t 128).
  - replace ((Z.log2 (Z.abs z) + 1) / 8) with k; [cbn [length]; unfold k; lia|].
    specialize (Hl 0 7 ltac:(lia) ltac:(lia)); apply Z.div_unique with (Z.log2 (Z.abs z) + 1 - 8 * k); lia.
  - replace ((Z.log2 (Z.abs z) + 1) / 8) with (k + 1); [cbn [length]; unfold k; lia|].
    specialize (Hl 7 8 ltac:(lia) ltac:(lia)); apply Z.div_unique with (Z.log2 (Z.abs z) + 1 - 8 * (k + 1)); lia.
Qed.

Lemma mpi_minimal d : words 8 d -> (length (mpi_body (mpi_value d)) <= length d)%nat.
Proof.
  intros Hd; destruct (Z.eq_dec (mpi_value d) 0) as [-> | Hz]; [cbn; lia|].
  apply Nat2Z.inj_le; rewrite length_mpi_body by assumption.
  destruct d as [|t r]; [cbn in Hz; lia|]; inversion_clear Hd as [|? ? Ht Hr].
  pose proof (be_bound r Hr) as Hb; rewrite mpi_value_cons in * by assumption.
  set (k := Z.of_nat (length r)) in *; pose proof (pow256_pos k ltac:(lia)) as Hp.
  set (s := t mod 128 * 256 ^ k + be_combine r) in *.
  pose proof (Z.mod_pos_bound t 128 ltac:(lia)); assert (0 <= s) by (unfold s; nia).
  assert (Hs : Z.abs ((if t <? 128 then 1 else -1) * s) = s) by (destruct (t <? 128); lia); rewrite Hs.
  assert (Z.log2 s < 7 + 8 * k) as Hl.
  { apply Z.log2_lt_pow2; [destruct (t <? 128); lia|]; rewrite Z.pow_add_r, <- pow256 by lia; unfold s; nia. }
  cbn [length]; rewrite Nat2Z.inj_succ; fold k.
  assert ((Z.log2 s + 1) / 8 < k + 1) by (apply Z.div_lt_upper_bound; lia); lia.
Qed.

(** ** Conversions *)

Lemma mpi_header_length n : length (mpi_header n) = 4%nat.
Proof. reflexivity. Qed.

Lemma mpi_loop_rest neg cs : mpi_loop neg false cs = cs.
Proof. induction cs as [|c cs IH]; [reflexivity | cbn [mpi_loop]; now rewrite IH]. Qed.

Lemma mpi_loop_spec neg cs : words 8 cs ->
  mpi_loop neg true cs = mpi_body ((if neg then -1 else 1) * be_combine cs).
Proof.
  induction 1 as [|c cs Hc Hcs IH]; [now destruct neg|]; cbn [mpi_loop]; rewrite !mpi_loop_rest.
  destruct (Z.eqb_spec c 0) as [-> | Hn].
  { rewrite IH, be_cons by assumption; do 2 f_equal. }
  assert (Hp : 0 < be_combine (c :: cs)).
  { rewrite be_cons by assumption; pose proof (be_bound cs Hcs).
    pose proof (pow256_pos (Z.of_nat (length cs)) ltac:(lia)); unfold inw in Hc; nia. }
  unfold mpi_body; set (z := (if neg then -1 else 1) * be_combine (c :: cs)).
  replace (Z.abs z) with (be_combine (c :: cs)) by (unfold z; destruct neg; lia).
  rewrite magnitude_be by assumption.
  replace (z <? 0) with neg; [destruct (c .& 0x80 =? 0); reflexivity|].
  unfold z; destruct neg; symmetry; [apply Z.ltb_lt | apply Z.ltb_ge]; lia.
Qed.

Lemma shift_bytes_spec k n : 0 <= n < 256 ^ Z.of_nat k -> (k <= 8)%nat ->
  be_combine (shift_bytes k (n * 256 ^ (8 - Z.of_nat k))) = n
  /\ words 8 (shift_bytes k (n * 256 ^ (8 - Z.of_nat k))) /\ length (shift_bytes k (n * 256 ^ (8 - Z.of_nat k))) = k.
Proof.
  revert n; induction k as [|k IH]; intros n Hn Hk.
  { split; [cbn in *; lia | split; [constructor | reflexivity]]. }
  set (K := Z.of_nat k); replace (Z.of_nat (S k)) with (K + 1) in * by lia.
  assert (0 <= K <= 7) as HK by lia.
  set (P := 256 ^ (8 - (K + 1))); assert (HP : 256 ^ (8 - K) = 256 * P).
  { unfold P; rewrite <- Z.pow_succ_r by lia; f_equal; lia. }
  assert (HQ : P * 256 ^ K = 2 ^ 56).
  { unfold P; rewrite <- Z.pow_add_r by lia; replace (8 - (K + 1) + K) with 7 by lia; reflexivity. }
  rewrite Z.pow_add_r, Z.pow_1_r in Hn by lia; pose proof (pow256_pos K ltac:(lia)).
  assert (0 < P) by (apply pow256_pos; lia).
  pose proof (Z.div_mod n (256 ^ K) ltac:(lia)) as Hdm; pose proof (Z.mod_pos_bound n (256 ^ K) ltac:(lia)).
  set (q := n / 256 ^ K) in *; set (m := n mod 256 ^ K) in *.
  assert (0 <= q < 256) as Hq by (split; [apply Z.div_pos | apply Z.div_lt_upper_bound]; lia).
  clearbody q m.
  assert (E1 : ((n * P) >> 56) .& 0xFF = q).
  { rewrite Z.shiftr_div_pow2 by lia; change 0xFF with (Z.ones 8); rewrite Z.land_ones by lia.
    replace (n * P / 2 ^ 56) with q; [apply Z.mod_small; lia|].
    apply Z.div_unique with (m * P); [left; rewrite <- HQ; split; nia|].
    rewrite <- HQ; transitivity ((256 ^ K * q + m) * P); [f_equal; exact Hdm | ring]. }
  assert (E2 : u64 ((n * P) << 8) = m * 256 ^ (8 - K)).
  { rewrite u64_mod, Z.shiftl_mul_pow2, HP by lia; symmetry.
    apply Z.mod_unique with q; [left; change (2 ^ 64) with (2 ^ 56 * 256); rewrite <- HQ; split; nia|].
    change (2 ^ 64) with (2 ^ 56 * 256); change (2 ^ 8) with 256; rewrite <- HQ.
    transitivity ((256 ^ K * q + m) * P * 256); [do 2 f_equal; exact Hdm | ring]. }
  cbn [shift_bytes]; fold P; rewrite E1, E2; destruct (IH m) as (V & W & Len); [exact H1 | lia |].
  fold K in V, W, Len; rewrite be_cons, V, Len by assumption.
  split; [fold K; lia | split; [constructor; [unfold inw; lia | assumption] | cbn [length]; now rewrite Len]].
Qed.

Lemma le_repeat n : le_combine (repeat 0 n) = 0.
Proof. induction n as [|n IH]; [reflexivity | cbn [repeat le_combine]; now rewrite IH]. Qed.

Lemma fill_bytes_spec k v : words 8 v ->
  words 8 (fill_bytes k v) /\ le_combine (fill_bytes k v) = le_combine v mod 256 ^ Z.of_nat k.
Proof.
  intros Hv; unfold fill_bytes; split; [apply words_app; [now apply words_firstn | apply words_repeat; auto with word]|].
  rewrite le_combine_app, le_repeat by now apply words_firstn.
  destruct (Nat.le_ge_cases k (length v)).
  - replace (le_combine v) with (le_combine (firstn k v ++ skipn k v)) by now rewrite firstn_skipn.
    rewrite le_combine_app by now apply words_firstn.
    pose proof (le_combine_inw _ (words_firstn 8 k v Hv)) as Hb; unfold inw in Hb.
    rewrite length_firstn, Nat.min_l, <- pow256 in * by lia.
    rewrite Z.mul_0_r, Z.add_0_r; apply Z.mod_unique with (le_combine (skipn k v)); [left; exact Hb | lia].
  - rewrite firstn_all2 by lia; pose proof (le_combine_inw v Hv) as Hb; unfold inw in Hb.
    rewrite Z.mul_0_r, Z.add_0_r, Z.mod_small; [reflexivity|]; rewrite <- pow256 in Hb by lia.
    split; [apply Hb|]; apply Z.lt_le_trans with (1 := proj2 Hb), Z.pow_le_mono_r; lia.
Qed.

Section Laws.
Context {L : BN_lib} {HL : BN_laws L}.

(** Numbers whose length fits the four-byte header. *)
Definition bn_small (z : Z) : Prop := Z.log2 (Z.abs z) < 2 ^ 31 - 1.

Lemma mpi_body_short z : bn_small z -> Z.of_nat (length (mpi_body z)) < 2 ^ 31.
Proof.
  intros Hz; destruct (Z.eq_dec z 0) as [-> | Hn]; [cbn; lia|]; unfold bn_small in Hz.
  rewrite length_mpi_body by assumption; pose proof (Z.log2_nonneg (Z.abs z)).
  assert ((Z.log2 (Z.abs z) + 1) / 8 <= 2 ^ 28) by (apply Z.div_le_upper_bound; lia); lia.
Qed.

Lemma bn_small_below z n : 0 <= n < 2 ^ 31 - 1 -> Z.abs z <= 2 ^ n -> bn_small z.
Proof.
  intros Hn Hz; unfold bn_small; apply Z.le_lt_trans with (Z.log2 (2 ^ n)); [now apply Z.log2_le_mono|].
  rewrite Z.log2_pow2; lia.
Qed.

Lemma from_mpi_spec p : words 8 p -> Z.of_nat (length p) < 2 ^ 31 -> from_mpi p = mpi_value p.
Proof.
  intros Hp Hl; unfold from_mpi; rewrite u32_mod, Z.mod_small by lia; now apply mpi2bn_law.
Qed.

Lemma from_mpi_loop neg cs : words 8 cs -> Z.of_nat (length cs) <= 2 ^ 24 ->
  from_mpi (mpi_loop neg true cs) = (if neg then -1 else 1) * be_combine cs.
Proof.
  intros Hcs Hl; rewrite mpi_loop_spec by assumption.
  rewrite from_mpi_spec, mpi_value_body; [reflexivity | apply mpi_body_bytes |].
  apply mpi_body_short, (bn_small_below _ (8 * Z.of_nat (length cs))); [lia|].
  pose proof (be_bound cs Hcs) as Hb; rewrite pow256 in Hb by lia; destruct neg; lia.
Qed.

Lemma bn2mpi_body z : bn_small z -> skipn 4 (BN_bn2mpi z) = mpi_body z.
Proof. intros Hz; rewrite bn2mpi_law by (unfold bn_small in Hz; lia); reflexivity. Qed.

Lemma bn2mpi_length z : bn_small z -> length (BN_bn2mpi z) = (4 + length (mpi_body z))%nat.
Proof. intros Hz; rewrite bn2mpi_law by (unfold bn_small in Hz; lia); reflexivity. Qed.

Lemma shift_bytes_8 n : 0 <= n < 2 ^ 64 ->
  be_combine (shift_bytes 8 n) = n /\ words 8 (shift_bytes 8 n) /\ length (shift_bytes 8 n) = 8%nat.
Proof.
  intros Hn; pose proof (shift_bytes_spec 8 n) as H; change (256 ^ (8 - Z.of_nat 8)) with 1 in H.
  rewrite Z.mul_1_r in H; apply H; lia.
Qed.

Lemma setint64_spec sn : - 2 ^ 63 <= sn < 2 ^ 63 -> setint64 sn = sn.
Proof.
  intros Hs; unfold setint64.
  set (n := if sn <? 0 then u64 (u64 (- (sn + 1)) + 1) else sn).
  assert (Hn : n = Z.abs sn).
  { unfold n; destruct (Z.ltb_spec sn 0); [rewrite !u64_mod, (Z.mod_small (- (sn + 1))), Z.mod_small|]; lia. }
  destruct (shift_bytes_8 n) as (V & W & Len); [lia|].
  rewrite from_mpi_loop, V, Hn by (assumption || lia); destruct (Z.ltb_spec sn 0); lia.
Qed.

Lemma setuint64_spec n : 0 <= n < 2 ^ 64 -> setuint64 n = n.
Proof.
  intros Hs; unfold setuint64; destruct (shift_bytes_8 n) as (V & W & Len); [lia|].
  rewrite from_mpi_loop, V by (assumption || lia); lia.
Qed.

Lemma setuint256_spec n : wf 8 n -> setuint256 n = val n.
Proof.
  intros [Hl Hw]; unfold setuint256.
  rewrite from_mpi_loop; [|apply Forall_rev, uint_bytes_words|].
  - unfold be_combine; rewrite rev_involutive, le_combine_uint by assumption; lia.
  - rewrite length_rev; unfold uint_bytes; rewrite (length_flat_map_const _ 4) by reflexivity; lia.
Qed.

Lemma CBigNum_int_spec n : - 2 ^ 63 <= n < 2 ^ 63 -> CBigNum_int n = n.
Proof.
  intros Hn; unfold CBigNum_int; destruct (Z.leb_spec 0 n); [apply set_word_law | apply setint64_spec]; lia.
Qed.

Lemma getvch_spec z : bn_small z -> getvch z = rev (mpi_body z).
Proof.
  intros Hz; unfold getvch; rewrite bn2mpi_length, bn2mpi_body by assumption.
  destruct (Z.leb_spec (Z.of_nat (4 + length (mpi_body z))) 4); [|reflexivity].
  destruct (mpi_body z); [reflexivity | cbn [length] in *; lia].
Qed.

Lemma setvch_spec v : words 8 v -> Z.of_nat (length v) < 2 ^ 31 -> setvch v = mpi_value (rev v).
Proof. intros; apply from_mpi_spec; [now apply Forall_rev | now rewrite length_rev]. Qed.

Lemma setvch_getvch z : bn_small z -> setvch (getvch z) = z.
Proof.
  intros Hz; rewrite getvch_spec, setvch_spec, rev_involutive by
    (assumption || apply Forall_rev, mpi_body_bytes || rewrite length_rev; now apply mpi_body_short).
  apply mpi_value_body.
Qed.

Lemma unsigned_bytes_spec z : bn_small z -> words 8 (unsigned_bytes z) /\ le_combine (unsigned_bytes z) = Z.abs z.
Proof.
  intros Hz; unfold unsigned_bytes; rewrite bn2mpi_body by assumption.
  pose proof (mpi_body_bytes z) as Hb; pose proof (mpi_value_body z) as Hv.
  destruct (mpi_body z) as [|t r]; [cbn in Hv; subst z; split; [constructor | reflexivity]|].
  inversion_clear Hb as [|? ? Ht Hr]; rewrite mpi_value_cons in Hv by assumption.
  rewrite byte_low; pose proof (Z.mod_pos_bound t 128 ltac:(lia)) as Hm.
  split; [apply Forall_rev; constructor; [unfold inw; lia | assumption]|].
  fold (be_combine (t mod 128 :: r)); rewrite be_cons by assumption.
  pose proof (be_bound r Hr); pose proof (pow256_pos (Z.of_nat (length r)) ltac:(lia)).
  rewrite <- Hv; assert (0 <= t mod 128 * 256 ^ Z.of_nat (length r) + be_combine r) by nia.
  destruct (t <? 128); lia.
Qed.

Lemma getuint64_spec z : bn_small z -> getuint64 z = Z.abs z mod 2 ^ 64.
Proof.
  intros Hz; unfold getuint64; rewrite bn2mpi_length by assumption.
  destruct (Z.ltb_spec (Z.of_nat (4 + length (mpi_body z))) 4); [lia|].
  destruct (unsigned_bytes_spec z Hz) as [Hb Hv].
  rewrite (proj2 (fill_bytes_spec 8 _ Hb)), Hv; reflexivity.
Qed.

Lemma bn_lt_spec a b : bn_lt a b = (a <? b).
Proof. unfold bn_lt, Z.ltb; rewrite cmp_law; now destruct (a ?= b). Qed.
Lemma bn_gt_spec a b : bn_gt a b = (b <? a).
Proof. unfold bn_gt, Z.ltb; rewrite cmp_law, (Z.compare_antisym b a); now destruct (b ?= a). Qed.
Lemma bn_le_spec a b : bn_le a b = (a <=? b).
Proof. unfold bn_le, Z.leb at 2; rewrite cmp_law; now destruct (a ?= b). Qed.

Lemma getuint256_spec z : bn_small z -> wf 8 (getuint256 z) /\ val (getuint256 z) = Z.abs z mod 2 ^ 256.
Proof.
  intros Hz; unfold getuint256; rewrite bn2mpi_length by assumption.
  destruct (Z.ltb_spec (Z.of_nat (4 + length (mpi_body z))) 4); [lia|].
  destruct (unsigned_bytes_spec z Hz) as [Hb Hv]; destruct (fill_bytes_spec 32 _ Hb) as [Hf Hc].
  assert (Hlen : length (fill_bytes 32 (unsigned_bytes z)) = (8 * 4)%nat).
  { unfold fill_bytes; rewrite length_app, length_firstn, repeat_length; lia. }
  rewrite <- (le_split_combine _ Hf), Hlen, Hc, Hv; change (256 ^ Z.of_nat 32) with (2 ^ 256).
  pose proof (Z.mod_pos_bound (Z.abs z) (2 ^ 256) ltac:(lia)) as Hm.
  destruct (uint_of_bytes_spec 8 (Z.abs z mod 2 ^ 256)) as [W V]; [lia|].
  split; [exact W|]; rewrite V; apply Z.mod_small; exact Hm.
Qed.

Lemma getint_spec z : getint z = Z.max INT_MIN (Z.min INT_MAX z).
Proof.
  unfold getint; rewrite get_word_law; unfold INT_MAX, INT_MIN.
  destruct (Z.ltb_spec (Z.abs z) (2 ^ 64)), (Z.ltb_spec z 0); cbn [negb];
    match goal with |- context [?a <? ?b] => destruct (Z.ltb_spec a b) end; lia.
Qed.

(** ** Compact form *)

Ltac bytes_of_list :=
  cbn [app]; repeat (apply Forall_cons; [solve [auto]|]); first [apply Forall_nil | apply words_repeat; auto with word].


(** What the 32 bits mean: a size in bytes, a sign and a mantissa of 23 bits. *)
Definition compact_value (c : Z) : Z :=
  let n := c / 2 ^ 24 in
  let m := c mod 2 ^ 23 in
  (if (c / 2 ^ 23) mod 2 =? 0 then 1 else -1) * (if 3 <=? n then m * 256 ^ (n - 3) else m / 256 ^ (3 - n)).

Definition mpi_size (z : Z) : Z := Z.of_nat (length (mpi_body z)).

Definition compact_mantissa (z : Z) : Z :=
  let n := mpi_size z in if 3 <=? n then Z.abs z / 256 ^ (n - 3) else Z.abs z * 256 ^ (3 - n).

Lemma header_small n : 0 <= n < 256 -> mpi_header n = [0; 0; 0; n].
Proof.
  intros Hn; unfold mpi_header; rewrite !Z.shiftr_div_pow2 by lia.
  rewrite !(Z.div_small n) by lia; cbn [Z.land]; repeat f_equal.
  change 0xFF with (Z.ones 8); rewrite Z.land_ones by lia; now apply Z.mod_small.
Qed.

Lemma byte_at c k : 0 <= k -> (c >> k) .& 0xFF = (c / 2 ^ k) mod 256.
Proof. intros; change 0xFF with (Z.ones 8); now rewrite Z.land_ones, Z.shiftr_div_pow2 by lia. Qed.

(** The bytes of the mantissa, as many as the size leaves. *)
Lemma SetCompact_body c : 0 <= c < 2 ^ 32 ->
  let n := c / 2 ^ 24 in
  SetCompact c = mpi_value (firstn (Z.to_nat n)
    ([(c / 2 ^ 16) mod 256; (c / 2 ^ 8) mod 256; c mod 256] ++ repeat 0 (Z.to_nat (n - 3)))).
Proof.
  intros Hc n; assert (Hn : 0 <= n < 256) by (unfold n; split; [apply Z.div_pos | apply Z.div_lt_upper_bound]; lia).
  unfold SetCompact; rewrite !byte_at, Z.pow_0_r, Z.div_1_r by lia; rewrite Z.shiftr_div_pow2 by lia; fold n.
  assert (Hb : forall x, inw 8 (x mod 256)) by (intros x; apply (Z.mod_pos_bound x 256); lia).
  rewrite <- mpi2bn_law; [| apply words_firstn; bytes_of_list
    | rewrite length_firstn; lia].
  destruct (Z.leb_spec 3 n) as [H3|H3].
  - replace (Z.to_nat (4 + n)) with (7 + Z.to_nat (n - 3))%nat by lia.
    rewrite !(proj2 (Z.leb_le _ _)) by lia; rewrite firstn_all2 by (rewrite length_app, repeat_length; cbn [length]; lia).
    rewrite length_app, repeat_length; cbn [length]; replace (Z.of_nat (3 + Z.to_nat (n - 3))) with n by lia.
    now rewrite header_small.
  - assert (n = 0 \/ n = 1 \/ n = 2) as [E | [E | E]] by lia; rewrite E; reflexivity.
Qed.

Lemma mod_2_23 c : c mod 2 ^ 23 = (c / 2 ^ 16) mod 128 * 2 ^ 16 + (c / 2 ^ 8) mod 256 * 2 ^ 8 + c mod 256.
Proof. Z.div_mod_to_equations; lia. Qed.

Lemma sign_byte c : ((c / 2 ^ 16) mod 256 <? 128) = ((c / 2 ^ 23) mod 2 =? 0).
Proof.
  apply eq_iff_eq_true; rewrite Z.ltb_lt, Z.eqb_eq; Z.div_mod_to_equations; lia.
Qed.

Lemma SetCompact_spec c : 0 <= c < 2 ^ 32 -> SetCompact c = compact_value c.
Proof.
  intros Hc; rewrite SetCompact_body by assumption; unfold compact_value; set (n := c / 2 ^ 24).
  assert (Hn : 0 <= n < 256) by (unfold n; split; [apply Z.div_pos | apply Z.div_lt_upper_bound]; lia).
  assert (Hb : forall x, inw 8 (x mod 256)) by (intros x; apply (Z.mod_pos_bound x 256); lia).
  assert (H128 : forall x, x mod 256 mod 128 = x mod 128) by (intros; Z.div_mod_to_equations; lia).
  pose proof (mod_2_23 c) as Hm; pose proof (Hb c) as B0; pose proof (Hb (c / 2 ^ 8)) as B1; unfold inw in B0, B1.
  destruct (Z.leb_spec 3 n) as [H3|H3].
  - rewrite firstn_all2 by (rewrite length_app, repeat_length; cbn [length]; lia).
    cbn [app]; rewrite mpi_value_cons, sign_byte, H128; auto;
      [| bytes_of_list].
    rewrite !be_cons, be_repeat by (bytes_of_list).
    cbn [length]; rewrite repeat_length, !Nat2Z.inj_succ, !Z.pow_succ_r, Z2Nat.id by lia.
    rewrite Hm; f_equal; ring.
  - assert (n = 0 \/ n = 1 \/ n = 2) as [E | [E | E]] by lia; rewrite E.
    + change (firstn _ _) with (@nil Z); cbn [mpi_value].
      change (256 ^ (3 - 0)) with (2 ^ 24); rewrite (Z.div_small (c mod 2 ^ 23)); [now rewrite Z.mul_0_r|].
      pose proof (Z.mod_pos_bound c (2 ^ 23) ltac:(lia)); lia.
    + change (firstn _ _) with [(c / 2 ^ 16) mod 256].
      rewrite mpi_value_cons, sign_byte, H128 by (auto; constructor); f_equal.
      change (256 ^ (3 - 1)) with (2 ^ 16); rewrite Hm; cbn [length be_combine rev le_combine]; rewrite Z.pow_0_r.
      change (be_combine []) with 0.
      apply Z.div_unique with ((c / 2 ^ 8) mod 256 * 2 ^ 8 + c mod 256); [left|]; lia.
    + change (firstn _ _) with [(c / 2 ^ 16) mod 256; (c / 2 ^ 8) mod 256].
      rewrite mpi_value_cons, sign_byte, H128, be_cons by (auto; bytes_of_list); f_equal.
      change (256 ^ (3 - 2)) with (2 ^ 8); rewrite Hm; cbn [length]; rewrite Z.pow_0_r, Z.pow_1_r.
      change (be_combine []) with 0.
      apply Z.div_unique with (c mod 256); [left|]; lia.
Qed.

Lemma mpi_body_be z : z <> 0 ->
  0 < mpi_size z /\ Z.abs z < 128 * 256 ^ (mpi_size z - 1)
  /\ be_combine (mpi_body z) = Z.abs z + (if z <? 0 then 128 * 256 ^ (mpi_size z - 1) else 0).
Proof.
  intros Hz; pose proof (mpi_body_bytes z) as Hb; pose proof (mpi_value_body z) as Hv.
  unfold mpi_size; destruct (mpi_body z) as [|t r]; [cbn in Hv; lia|].
  inversion_clear Hb as [|? ? Ht Hr]; rewrite mpi_value_cons in Hv by assumption; rewrite be_cons by assumption.
  replace (Z.of_nat (length (t :: r)) - 1) with (Z.of_nat (length r)) by (cbn [length]; lia).
  pose proof (be_bound r Hr); pose proof (pow256_pos (Z.of_nat (length r)) ltac:(lia)).
  set (M := 256 ^ Z.of_nat (length r)) in *; set (b := be_combine r) in *.
  pose proof (Z.mod_pos_bound t 128 ltac:(lia)); pose proof (Z.div_mod t 128 ltac:(lia)); unfold inw in Ht.
  assert (0 <= t mod 128 * M + b < 128 * M) by nia.
  split; [cbn [length]; lia|]; destruct (Z.ltb_spec t 128).
  - rewrite (Z.mod_small t) in * by lia; destruct (Z.ltb_spec z 0); lia.
  - replace (t / 128) with 1 in * by (apply Z.div_unique with (t - 128); lia).
    destruct (Z.ltb_spec z 0); nia.
Qed.

(** The top three bytes of a byte string, zeros for those it has not. *)
Definition top3 (d : list Z) : Z := nth 0 d 0 * 2 ^ 16 + nth 1 d 0 * 2 ^ 8 + nth 2 d 0.

Lemma top3_be d : words 8 d ->
  let n := Z.of_nat (length d) in
  top3 d = if 3 <=? n then be_combine d / 256 ^ (n - 3) else be_combine d * 256 ^ (3 - n).
Proof.
  intros Hd n; unfold n; clear n.
  destruct d as [|a [|b [|c r]]].
  - reflexivity.
  - rewrite be_cons by constructor; change (be_combine []) with 0; unfold top3; cbn [nth length].
    change (256 ^ Z.of_nat 0) with 1; change (3 <=? Z.of_nat 1) with false; cbn iota.
    change (256 ^ (3 - Z.of_nat 1)) with (2 ^ 16); lia.
  - inversion_clear Hd as [|? ? _ Hd']; rewrite !be_cons by (assumption || constructor).
    change (be_combine []) with 0; unfold top3; cbn [nth length].
    change (256 ^ Z.of_nat 0) with 1; change (256 ^ Z.of_nat 1) with (2 ^ 8); change (3 <=? Z.of_nat 2) with false.
    cbn iota; change (256 ^ (3 - Z.of_nat 2)) with (2 ^ 8); lia.
  - inversion_clear Hd as [|? ? _ Hd1]; inversion_clear Hd1 as [|? ? Hb Hd2]; inversion_clear Hd2 as [|? ? Hc Hr].
    rewrite !be_cons by (repeat (apply Forall_cons; [assumption|]); assumption).
    cbn [length]; rewrite (proj2 (Z.leb_le _ _)) by lia; unfold top3; cbn [nth].
    rewrite !Nat2Z.inj_succ, !Z.pow_succ_r by lia.
    replace (Z.succ (Z.succ (Z.succ (Z.of_nat (length r)))) - 3) with (Z.of_nat (length r)) by lia.
    pose proof (be_bound r Hr) as Hbr; apply Z.div_unique with (be_combine r); [left; exact Hbr | ring].
Qed.

(** The bits of the size and of the three bytes do not overlap. *)
Lemma lor_add_low a b k : 0 <= k -> 0 <= b < 2 ^ k -> (a << k) .| b = a * 2 ^ k + b.
Proof.
  intros Hk Hb; rewrite <- Z.shiftl_mul_pow2, Z.add_nocarry_lxor, Z.lxor_lor by
    (assumption || (apply Z.bits_inj'; intros i Hi; rewrite Z.land_spec, Z.bits_0;
     destruct (Z.lt_ge_cases i k); [now rewrite Z.shiftl_spec_low |
     rewrite (inw_high k b i) by (assumption || lia); apply andb_false_r])).
  reflexivity.
Qed.

Lemma compact_bits n a b c : inw 8 n -> inw 8 a -> inw 8 b -> inw 8 c ->
  (((n << 24) .| (a << 16)) .| (b << 8)) .| (c << 0) = n * 2 ^ 24 + a * 2 ^ 16 + b * 2 ^ 8 + c.
Proof.
  unfold inw; intros Hn Ha Hb Hc; rewrite Z.shiftl_0_r.
  rewrite (lor_add_low n (a << 16)) by (rewrite ?Z.shiftl_mul_pow2 by lia; lia).
  rewrite (Z.shiftl_mul_pow2 a) by lia.
  replace (n * 2 ^ 24 + a * 2 ^ 16) with ((n * 2 ^ 8 + a) << 16) by (rewrite Z.shiftl_mul_pow2 by lia; lia).
  rewrite lor_add_low by (rewrite ?Z.shiftl_mul_pow2 by lia; lia); rewrite (Z.shiftl_mul_pow2 b) by lia.
  replace ((n * 2 ^ 8 + a) * 2 ^ 16 + b * 2 ^ 8) with (((n * 2 ^ 8 + a) * 2 ^ 8 + b) << 8)
    by (rewrite Z.shiftl_mul_pow2 by lia; lia).
  rewrite lor_add_low by lia; rewrite Z.shiftl_mul_pow2 by lia; lia.
Qed.

Lemma GetCompact_top z : bn_small z -> mpi_size z < 256 ->
  GetCompact z = mpi_size z * 2 ^ 24 + top3 (mpi_body z).
Proof.
  intros Hz Hs; unfold GetCompact; rewrite bn2mpi_length by assumption.
  rewrite bn2mpi_law by (unfold bn_small in Hz; lia).
  replace (Z.of_nat (4 + length (mpi_body z)) - 4) with (mpi_size z) by (unfold mpi_size; lia).
  assert (0 <= mpi_size z) by (unfold mpi_size; lia).
  rewrite !u32_mod, (Z.mod_small (mpi_size z)), Z.mod_small by (rewrite ?Z.shiftl_mul_pow2 by lia; lia).
  rewrite !app_nth2 by (rewrite mpi_header_length; lia); cbn [mpi_header length Nat.sub].
  assert (Hn : forall i, inw 8 (nth i (mpi_body z) 0)) by (intros; apply words_nth; [lia | apply mpi_body_bytes]).
  assert (Hout : forall i, mpi_size z <= Z.of_nat i -> nth i (mpi_body z) 0 = 0).
  { intros i Hi; apply nth_overflow; unfold mpi_size in Hi; lia. }
  assert (E : forall (i : Z) x s, (if i <=? mpi_size z then x .| s else x) = x .| (if i <=? mpi_size z then s else 0)).
  { intros; destruct (_ <=? _); [reflexivity | now rewrite Z.lor_0_r]. }
  rewrite !E; unfold top3; rewrite !Z.add_assoc, <- compact_bits by (auto; unfold inw; lia).
  repeat f_equal; match goal with |- (if ?b then _ else _) = _ => destruct b eqn:Hb end; try reflexivity;
    apply Z.leb_gt in Hb; rewrite Hout by lia; reflexivity.
Qed.

Lemma GetCompact_spec z : bn_small z -> mpi_size z < 256 -> z <> 0 ->
  GetCompact z = mpi_size z * 2 ^ 24 + (if z <? 0 then 2 ^ 23 else 0) + compact_mantissa z
  /\ 0 <= compact_mantissa z < 2 ^ 23.
Proof.
  intros Hz Hs Hn; rewrite GetCompact_top, (top3_be (mpi_body z) (mpi_body_bytes z)) by assumption.
  destruct (mpi_body_be z Hn) as (Hp & Hlt & Hb); fold (mpi_size z); unfold compact_mantissa; rewrite Hb.
  destruct (Z.leb_spec 3 (mpi_size z)) as [H3|H3].
  - set (k := mpi_size z - 3) in *; replace (mpi_size z - 1) with (2 + k) in * by lia.
    rewrite Z.pow_add_r in * by lia; change (256 ^ 2) with (2 ^ 16) in *.
    pose proof (pow256_pos k ltac:(lia)).
    split; [|split; [apply Z.div_pos; lia | apply Z.div_lt_upper_bound; lia]].
    destruct (z <? 0); rewrite <- Z.add_assoc; f_equal.
    + replace (128 * (2 ^ 16 * 256 ^ k)) with (2 ^ 23 * 256 ^ k) by ring; rewrite Z.div_add by lia; lia.
    + now rewrite Z.add_0_r.
  - assert (mpi_size z = 1 \/ mpi_size z = 2) as [E | E] by lia; rewrite E in *.
    + change (256 ^ (1 - 1)) with 1 in *; change (256 ^ (3 - 1)) with (2 ^ 16); destruct (z <? 0); lia.
    + change (256 ^ (2 - 1)) with (2 ^ 8) in *; change (256 ^ (3 - 2)) with (2 ^ 8); destruct (z <? 0); lia.
Qed.

(** The truncated magnitude has the same length in bits. *)
Lemma truncated_log2 s k : 0 < s -> 0 <= k <= Z.log2 s -> Z.log2 (s / 2 ^ k * 2 ^ k) = Z.log2 s.
Proof.
  intros Hs Hk; apply Z.log2_unique; [apply Z.log2_nonneg|].
  pose proof (Z.log2_spec s Hs) as [Hlo Hhi]; assert (0 < 2 ^ k) by (apply Z.pow_pos_nonneg; lia).
  split.
  - replace (Z.log2 s) with (Z.log2 s - k + k) by lia; rewrite Z.pow_add_r by lia.
    apply Z.mul_le_mono_nonneg_r; [lia|]; apply Z.div_le_lower_bound; [lia|].
    rewrite <- Z.pow_add_r by lia; replace (k + (Z.log2 s - k)) with (Z.log2 s) by lia; exact Hlo.
  - apply Z.le_lt_trans with s; [rewrite Z.mul_comm; apply Z.mul_div_le; lia | exact Hhi].
Qed.

Definition compact_kept (z : Z) : Z :=
  let n := mpi_size z in if 3 <=? n then Z.abs z / 256 ^ (n - 3) * 256 ^ (n - 3) else Z.abs z.

Lemma size_log2 z : z <> 0 -> 8 * mpi_size z - 9 <= Z.log2 (Z.abs z) < 8 * mpi_size z - 1.
Proof.
  intros Hz; unfold mpi_size; rewrite length_mpi_body by assumption; pose proof (Z.log2_nonneg (Z.abs z)).
  Z.div_mod_to_equations; lia.
Qed.

Lemma compact_kept_log2 z : z <> 0 -> 0 < compact_kept z <= Z.abs z /\ Z.log2 (compact_kept z) = Z.log2 (Z.abs z).
Proof.
  intros Hz; pose proof (size_log2 z Hz); unfold compact_kept; destruct (Z.leb_spec 3 (mpi_size z)); [|lia].
  rewrite pow256 by lia; assert (E := truncated_log2 (Z.abs z) (8 * (mpi_size z - 3)) ltac:(lia) ltac:(lia)).
  split; [|exact E].
  assert (0 < 2 ^ (8 * (mpi_size z - 3))) by (apply Z.pow_pos_nonneg; lia).
  split; [|rewrite Z.mul_comm; apply Z.mul_div_le; lia].
  destruct (Z.lt_ge_cases 0 (Z.abs z / 2 ^ (8 * (mpi_size z - 3)) * 2 ^ (8 * (mpi_size z - 3)))); [assumption|].
  rewrite Z.log2_nonpos in E by assumption; lia.
Qed.

Lemma mpi_size_log2 z y : z <> 0 -> y <> 0 -> Z.log2 (Z.abs y) = Z.log2 (Z.abs z) -> mpi_size y = mpi_size z.
Proof. intros Hz Hy E; unfold mpi_size; now rewrite !length_mpi_body, E by assumption. Qed.

(** Expanding a compact form gives the number with its low bytes cleared. *)
Lemma SetGetCompact z : bn_small z -> mpi_size z < 256 -> z <> 0 ->
  SetCompact (GetCompact z) = Z.sgn z * compact_kept z.
Proof.
  intros Hz Hs Hn; destruct (GetCompact_spec z Hz Hs Hn) as [E Hm]; destruct (mpi_body_be z Hn) as (Hp & _).
  set (n := mpi_size z) in *; set (m := compact_mantissa z) in *; set (c := GetCompact z) in *.
  set (b := if z <? 0 then 1 else 0); assert (Hb : c = n * 2 ^ 24 + b * 2 ^ 23 + m).
  { rewrite E; unfold b; destruct (z <? 0); lia. }
  assert (0 <= b <= 1) by (unfold b; destruct (z <? 0); lia).
  rewrite SetCompact_spec by lia; unfold compact_value.
  replace (c / 2 ^ 24) with n by (apply Z.div_unique with (b * 2 ^ 23 + m); lia).
  replace (c mod 2 ^ 23) with m by (apply Z.mod_unique with (2 * n + b); lia).
  replace (c / 2 ^ 23) with (n * 2 + b) by (apply Z.div_unique with m; lia).
  replace ((n * 2 + b) mod 2) with b by (apply Z.mod_unique with n; lia).
  replace (Z.sgn z) with (if b =? 0 then 1 else -1) by (unfold b; destruct (Z.ltb_spec z 0); cbn; lia).
  f_equal; unfold m, compact_mantissa, compact_kept; fold n; destruct (Z.leb_spec 3 n); [reflexivity|].
  apply Z.div_mul; assert (0 < 256 ^ (3 - n)) by (apply pow256_pos; lia); lia.
Qed.

Lemma GetSetGetCompact z : bn_small z -> mpi_size z < 256 -> z <> 0 ->
  GetCompact (SetCompact (GetCompact z)) = GetCompact z.
Proof.
  intros Hz Hs Hn; rewrite (SetGetCompact z) by assumption; destruct (compact_kept_log2 z Hn) as [Hk El].
  set (y := Z.sgn z * compact_kept z); assert (Ha : Z.abs y = compact_kept z) by (unfold y; lia).
  assert (Hy : y <> 0) by lia; assert (Hsz : mpi_size y = mpi_size z) by (apply mpi_size_log2; congruence).
  assert (Hys : bn_small y) by (unfold bn_small in *; now rewrite Ha, El).
  rewrite (proj1 (GetCompact_spec z Hz Hs Hn)), (proj1 (GetCompact_spec y Hys ltac:(lia) Hy)), Hsz.
  replace (y <? 0) with (z <? 0) by (apply eq_iff_eq_true; rewrite !Z.ltb_lt; unfold y; lia).
  f_equal; unfold compact_mantissa; rewrite Hsz, Ha; unfold compact_kept.
  destruct (Z.leb_spec 3 (mpi_size z)); [|reflexivity].
  apply Z.div_mul; assert (0 < 256 ^ (mpi_size z - 3)) by (apply pow256_pos; lia); lia.
Qed.

End Laws.

(** ** Properties *)

(** The conversions of [CBigNum] lose nothing: any number written as a
    byte vector is read back, and [getvch] is the shortest vector of its value; 64-bit
    integers, [int]s and [uint256]s convert to the number they stand for and
    back ([getuint64] and [getuint256] keep the low bits of the magnitude);
    [getint] saturates at the bounds of [int].  Holds for every library that
    behaves as OpenSSL documents. *)
Theorem bignum_conversions (L : BN_lib) (HL : BN_laws L) (z n sn : Z) (v a : list Z) :
  bn_small z -> 0 <= n < 2 ^ 64 -> - 2 ^ 63 <= sn < 2 ^ 63 -> wf 8 a ->
  words 8 v -> Z.of_nat (length v) < 2 ^ 27 ->
  setvch (getvch z) = z
  /\ (length (getvch (setvch v)) <= length v)%nat /\ setvch (getvch (setvch v)) = setvch v
  /\ setint64 sn = sn /\ CBigNum_int sn = sn
  /\ setuint64 n = n /\ getuint64 (setuint64 n) = n
  /\ setuint256 a = val a /\ getuint256 (setuint256 a) = a
  /\ val (getuint256 z) = Z.abs z mod 2 ^ 256
  /\ getint z = Z.max INT_MIN (Z.min INT_MAX z).
Proof.
  intros Hz Hn Hsn Ha Hv Hl.
  assert (Hsv : bn_small (setvch v)).
  { rewrite setvch_spec by (assumption || lia); apply (bn_small_below _ (8 * Z.of_nat (length v))); [lia|].
    rewrite <- (length_rev v); apply mpi_value_bound, Forall_rev, Hv. }
  split; [now apply setvch_getvch|].
  split; [rewrite getvch_spec, setvch_spec, length_rev by (assumption || lia);
          rewrite <- (length_rev v); apply mpi_minimal, Forall_rev, Hv|].
  split; [now apply setvch_getvch|].
  split; [now apply setint64_spec|]; split; [now apply CBigNum_int_spec|].
  rewrite setuint64_spec, setuint256_spec by assumption; split; [reflexivity|].
  assert (bn_small n) by (apply (bn_small_below _ 64); lia).
  split; [rewrite getuint64_spec by assumption; rewrite Z.mod_small; lia|]; split; [reflexivity|].
  pose proof (wf_bound 8 a Ha) as Hb; change (modulus 8) with (2 ^ 256) in Hb.
  assert (Hsa : bn_small (val a)) by (apply (bn_small_below _ 256); lia).
  destruct (getuint256_spec (val a) Hsa) as [W V].
  split; [apply (val_inj 8); [assumption | assumption | rewrite V, Z.mod_small; lia]|].
  split; [now apply getuint256_spec | apply getint_spec].
Qed.

Lemma bignum_conversions_witness :
  setvch (getvch (-129)) = -129 /\ setint64 (- 2 ^ 63) = - 2 ^ 63 /\ getint (-129) = -129.
Proof.
  destruct (bignum_conversions BN_ideal BN_ideal_laws (-129) 255 (- 2 ^ 63) [0; 0; 128] (uint_of_u64 8 77))
    as (H1 & _ & _ & H2 & _ & _ & _ & _ & _ & _ & H3);
    [reflexivity | lia | lia | split; [reflexivity | words_dec] | words_dec | reflexivity |].
  split; [exact H1 | split; [exact H2 | exact H3]].
Defined.

(** The compact form of a target ([nBits]): [SetCompact] reads a size, a
    sign and a 23-bit mantissa; [GetCompact] keeps the sign and the three most
    significant bytes, so that expanding it again clears the low bytes, never
    exceeds the number and loses less than one part in 2^15; and compacting
    again gives the same 32 bits, so a target survives any number of
    conversions. *)
Theorem compact_roundtrip (L : BN_lib) (HL : BN_laws L) (z c : Z) :
  z <> 0 -> Z.abs z < 2 ^ 2039 -> 0 <= c < 2 ^ 32 ->
  SetCompact c = compact_value c
  /\ 0 <= GetCompact z < 2 ^ 32
  /\ GetCompact (SetCompact (GetCompact z)) = GetCompact z
  /\ SetCompact (GetCompact z) = Z.sgn z * compact_kept z
  /\ compact_kept z <= Z.abs z < compact_kept z + compact_kept z / 2 ^ 15 + 1.
Proof.
  intros Hn Hz Hc.
  assert (Hs : bn_small z) by (apply (bn_small_below _ 2039); lia).
  pose proof (size_log2 z Hn) as Hl; assert (Z.log2 (Z.abs z) < 2039) by (apply Z.log2_lt_pow2; lia).
  assert (Hsz : mpi_size z < 256) by lia.
  split; [now apply SetCompact_spec|].
  destruct (GetCompact_spec z Hs Hsz Hn) as [E Hm]; destruct (mpi_body_be z Hn) as (Hp & _).
  split; [rewrite E; destruct (z <? 0); lia|].
  split; [now apply GetSetGetCompact|]; split; [now apply SetGetCompact|].
  destruct (compact_kept_log2 z Hn) as [Hk El]; split; [apply Hk|].
  unfold compact_kept in *; destruct (Z.leb_spec 3 (mpi_size z)) as [H3|H3];
    [|pose proof (Z.div_pos (Z.abs z) (2 ^ 15) ltac:(lia) ltac:(lia)); lia].
  set (P := 256 ^ (mpi_size z - 3)) in *; assert (0 < P) by (apply pow256_pos; lia).
  pose proof (Z.div_mod (Z.abs z) P ltac:(lia)); pose proof (Z.mod_pos_bound (Z.abs z) P ltac:(lia)).
  assert (P * 2 ^ 15 <= Z.abs z / P * P).
  { apply Z.le_trans with (2 ^ Z.log2 (Z.abs z)); [|rewrite <- El; apply Z.log2_spec; lia].
    unfold P; rewrite pow256, <- Z.pow_add_r by lia; apply Z.pow_le_mono_r; lia. }
  assert (P <= Z.abs z / P * P / 2 ^ 15) by (apply Z.div_le_lower_bound; lia); lia.
Qed.

Lemma compact_roundtrip_witness :
  SetCompact 0x1d00ffff = 0xffff * 256 ^ 26
  /\ GetCompact (SetCompact (GetCompact (2 ^ 236 - 1))) = GetCompact (2 ^ 236 - 1).
Proof.
  destruct (compact_roundtrip BN_ideal BN_ideal_laws (2 ^ 236 - 1) 0x1d00ffff) as (H1 & _ & H2 & _);
    [lia | vm_compute; reflexivity | lia |].
  split; [exact H1 | exact H2].
Defined.
