(* ===== verification/Script.v ===== *)
(** * Script: the script language of transactions (script.h, script.cpp)

    Scripts are byte lists.  This file has the opcodes, the instruction
    decoder [GetOp] and the writers [operator<<], the scans over a script
    (push-only, canonical pushes, signature counts, [FindAndDelete]) and the
    recognition of standard outputs ([Solver], [ExtractDestination] and
    [SetDestination]).  An iterator [pc] is the list of the bytes from [pc]
    to [end()].  Loops over a script have as fuel the number of its bytes:
    every instruction takes at least one. *)

From Stdlib Require Import ZArith List Lia Bool.
From S2P Require Import Prelude SphTypes Uint256 Serialize BigNum.
Import ListNotations.

Open Scope Z_scope.
Open Scope word_scope.

(** ** Opcodes *)

Inductive opcodetype :=
  | OP_0 | OP_PUSHDATA1 | OP_PUSHDATA2 | OP_PUSHDATA4 | OP_1NEGATE | OP_RESERVED | OP_1 | OP_2 | OP_3 | OP_4
  | OP_5 | OP_6 | OP_7 | OP_8 | OP_9 | OP_10 | OP_11 | OP_12 | OP_13 | OP_14 | OP_15 | OP_16 | OP_NOP | OP_VER
  | OP_IF | OP_NOTIF | OP_VERIF | OP_VERNOTIF | OP_ELSE | OP_ENDIF | OP_VERIFY | OP_RETURN | OP_TOALTSTACK
  | OP_FROMALTSTACK | OP_2DROP | OP_2DUP | OP_3DUP | OP_2OVER | OP_2ROT | OP_2SWAP | OP_IFDUP | OP_DEPTH
  | OP_DROP | OP_DUP | OP_NIP | OP_OVER | OP_PICK | OP_ROLL | OP_ROT | OP_SWAP | OP_TUCK | OP_CAT | OP_SUBSTR
  | OP_LEFT | OP_RIGHT | OP_SIZE | OP_INVERT | OP_AND | OP_OR | OP_XOR | OP_EQUAL | OP_EQUALVERIFY
  | OP_RESERVED1 | OP_RESERVED2 | OP_1ADD | OP_1SUB | OP_2MUL | OP_2DIV | OP_NEGATE | OP_ABS | OP_NOT
  | OP_0NOTEQUAL | OP_ADD | OP_SUB | OP_MUL | OP_DIV | OP_MOD | OP_LSHIFT | OP_RSHIFT | OP_BOOLAND | OP_BOOLOR
  | OP_NUMEQUAL | OP_NUMEQUALVERIFY | OP_NUMNOTEQUAL | OP_LESSTHAN | OP_GREATERTHAN | OP_LESSTHANOREQUAL
  | OP_GREATERTHANOREQUAL | OP_MIN | OP_MAX | OP_WITHIN | OP_RIPEMD160 | OP_SHA1 | OP_SHA256 | OP_HASH160
  | OP_HASH256 | OP_CODESEPARATOR | OP_CHECKSIG | OP_CHECKSIGVERIFY | OP_CHECKMULTISIG | OP_CHECKMULTISIGVERIFY
  | OP_NOP1 | OP_NOP2 | OP_NOP3 | OP_NOP4 | OP_NOP5 | OP_NOP6 | OP_NOP7 | OP_NOP8 | OP_NOP9 | OP_NOP10
  | OP_SMALLDATA | OP_SMALLINTEGER | OP_PUBKEYS | OP_PUBKEYHASH | OP_PUBKEY | OP_INVALIDOPCODE.

(** The value of an enumerator. *)
Definition op_byte (op : opcodetype) : Z :=
  match op with
  | OP_0 => 0x00 | OP_PUSHDATA1 => 0x4c | OP_PUSHDATA2 => 0x4d | OP_PUSHDATA4 => 0x4e | OP_1NEGATE => 0x4f
  | OP_RESERVED => 0x50 | OP_1 => 0x51 | OP_2 => 0x52 | OP_3 => 0x53 | OP_4 => 0x54 | OP_5 => 0x55
  | OP_6 => 0x56 | OP_7 => 0x57 | OP_8 => 0x58 | OP_9 => 0x59 | OP_10 => 0x5a | OP_11 => 0x5b | OP_12 => 0x5c
  | OP_13 => 0x5d | OP_14 => 0x5e | OP_15 => 0x5f | OP_16 => 0x60 | OP_NOP => 0x61 | OP_VER => 0x62
  | OP_IF => 0x63 | OP_NOTIF => 0x64 | OP_VERIF => 0x65 | OP_VERNOTIF => 0x66 | OP_ELSE => 0x67
  | OP_ENDIF => 0x68 | OP_VERIFY => 0x69 | OP_RETURN => 0x6a | OP_TOALTSTACK => 0x6b | OP_FROMALTSTACK => 0x6c
  | OP_2DROP => 0x6d | OP_2DUP => 0x6e | OP_3DUP => 0x6f | OP_2OVER => 0x70 | OP_2ROT => 0x71
  | OP_2SWAP => 0x72 | OP_IFDUP => 0x73 | OP_DEPTH => 0x74 | OP_DROP => 0x75 | OP_DUP => 0x76 | OP_NIP => 0x77
  | OP_OVER => 0x78 | OP_PICK => 0x79 | OP_ROLL => 0x7a | OP_ROT => 0x7b | OP_SWAP => 0x7c | OP_TUCK => 0x7d
  | OP_CAT => 0x7e | OP_SUBSTR => 0x7f | OP_LEFT => 0x80 | OP_RIGHT => 0x81 | OP_SIZE => 0x82
  | OP_INVERT => 0x83 | OP_AND => 0x84 | OP_OR => 0x85 | OP_XOR => 0x86 | OP_EQUAL => 0x87
  | OP_EQUALVERIFY => 0x88 | OP_RESERVED1 => 0x89 | OP_RESERVED2 => 0x8a | OP_1ADD => 0x8b | OP_1SUB => 0x8c
  | OP_2MUL => 0x8d | OP_2DIV => 0x8e | OP_NEGATE => 0x8f | OP_ABS => 0x90 | OP_NOT => 0x91
  | OP_0NOTEQUAL => 0x92 | OP_ADD => 0x93 | OP_SUB => 0x94 | OP_MUL => 0x95 | OP_DIV => 0x96 | OP_MOD => 0x97
  | OP_LSHIFT => 0x98 | OP_RSHIFT => 0x99 | OP_BOOLAND => 0x9a | OP_BOOLOR => 0x9b | OP_NUMEQUAL => 0x9c
  | OP_NUMEQUALVERIFY => 0x9d | OP_NUMNOTEQUAL => 0x9e | OP_LESSTHAN => 0x9f | OP_GREATERTHAN => 0xa0
  | OP_LESSTHANOREQUAL => 0xa1 | OP_GREATERTHANOREQUAL => 0xa2 | OP_MIN => 0xa3 | OP_MAX => 0xa4
  | OP_WITHIN => 0xa5 | OP_RIPEMD160 => 0xa6 | OP_SHA1 => 0xa7 | OP_SHA256 => 0xa8 | OP_HASH160 => 0xa9
  | OP_HASH256 => 0xaa | OP_CODESEPARATOR => 0xab | OP_CHECKSIG => 0xac | OP_CHECKSIGVERIFY => 0xad
  | OP_CHECKMULTISIG => 0xae | OP_CHECKMULTISIGVERIFY => 0xaf | OP_NOP1 => 0xb0 | OP_NOP2 => 0xb1
  | OP_NOP3 => 0xb2 | OP_NOP4 => 0xb3 | OP_NOP5 => 0xb4 | OP_NOP6 => 0xb5 | OP_NOP7 => 0xb6 | OP_NOP8 => 0xb7
  | OP_NOP9 => 0xb8 | OP_NOP10 => 0xb9 | OP_SMALLDATA => 0xf9 | OP_SMALLINTEGER => 0xfa | OP_PUBKEYS => 0xfb
  | OP_PUBKEYHASH => 0xfd | OP_PUBKEY => 0xfe | OP_INVALIDOPCODE => 0xff
  end.

(** The [switch] on a byte; the bytes that are no enumerator all take the
    default branch, as [OP_INVALIDOPCODE] does. *)
Definition op_of (opcode : Z) : opcodetype :=
  match opcode with
  | 0x00 => OP_0 | 0x4c => OP_PUSHDATA1 | 0x4d => OP_PUSHDATA2 | 0x4e => OP_PUSHDATA4 | 0x4f => OP_1NEGATE
  | 0x50 => OP_RESERVED | 0x51 => OP_1 | 0x52 => OP_2 | 0x53 => OP_3 | 0x54 => OP_4 | 0x55 => OP_5
  | 0x56 => OP_6 | 0x57 => OP_7 | 0x58 => OP_8 | 0x59 => OP_9 | 0x5a => OP_10 | 0x5b => OP_11 | 0x5c => OP_12
  | 0x5d => OP_13 | 0x5e => OP_14 | 0x5f => OP_15 | 0x60 => OP_16 | 0x61 => OP_NOP | 0x62 => OP_VER
  | 0x63 => OP_IF | 0x64 => OP_NOTIF | 0x65 => OP_VERIF | 0x66 => OP_VERNOTIF | 0x67 => OP_ELSE
  | 0x68 => OP_ENDIF | 0x69 => OP_VERIFY | 0x6a => OP_RETURN | 0x6b => OP_TOALTSTACK | 0x6c => OP_FROMALTSTACK
  | 0x6d => OP_2DROP | 0x6e => OP_2DUP | 0x6f => OP_3DUP | 0x70 => OP_2OVER | 0x71 => OP_2ROT
  | 0x72 => OP_2SWAP | 0x73 => OP_IFDUP | 0x74 => OP_DEPTH | 0x75 => OP_DROP | 0x76 => OP_DUP | 0x77 => OP_NIP
  | 0x78 => OP_OVER | 0x79 => OP_PICK | 0x7a => OP_ROLL | 0x7b => OP_ROT | 0x7c => OP_SWAP | 0x7d => OP_TUCK
  | 0x7e => OP_CAT | 0x7f => OP_SUBSTR | 0x80 => OP_LEFT | 0x81 => OP_RIGHT | 0x82 => OP_SIZE
  | 0x83 => OP_INVERT | 0x84 => OP_AND | 0x85 => OP_OR | 0x86 => OP_XOR | 0x87 => OP_EQUAL
  | 0x88 => OP_EQUALVERIFY | 0x89 => OP_RESERVED1 | 0x8a => OP_RESERVED2 | 0x8b => OP_1ADD | 0x8c => OP_1SUB
  | 0x8d => OP_2MUL | 0x8e => OP_2DIV | 0x8f => OP_NEGATE | 0x90 => OP_ABS | 0x91 => OP_NOT
  | 0x92 => OP_0NOTEQUAL | 0x93 => OP_ADD | 0x94 => OP_SUB | 0x95 => OP_MUL | 0x96 => OP_DIV | 0x97 => OP_MOD
  | 0x98 => OP_LSHIFT | 0x99 => OP_RSHIFT | 0x9a => OP_BOOLAND | 0x9b => OP_BOOLOR | 0x9c => OP_NUMEQUAL
  | 0x9d => OP_NUMEQUALVERIFY | 0x9e => OP_NUMNOTEQUAL | 0x9f => OP_LESSTHAN | 0xa0 => OP_GREATERTHAN
  | 0xa1 => OP_LESSTHANOREQUAL | 0xa2 => OP_GREATERTHANOREQUAL | 0xa3 => OP_MIN | 0xa4 => OP_MAX
  | 0xa5 => OP_WITHIN | 0xa6 => OP_RIPEMD160 | 0xa7 => OP_SHA1 | 0xa8 => OP_SHA256 | 0xa9 => OP_HASH160
  | 0xaa => OP_HASH256 | 0xab => OP_CODESEPARATOR | 0xac => OP_CHECKSIG | 0xad => OP_CHECKSIGVERIFY
  | 0xae => OP_CHECKMULTISIG | 0xaf => OP_CHECKMULTISIGVERIFY | 0xb0 => OP_NOP1 | 0xb1 => OP_NOP2
  | 0xb2 => OP_NOP3 | 0xb3 => OP_NOP4 | 0xb4 => OP_NOP5 | 0xb5 => OP_NOP6 | 0xb6 => OP_NOP7 | 0xb7 => OP_NOP8
  | 0xb8 => OP_NOP9 | 0xb9 => OP_NOP10 | 0xf9 => OP_SMALLDATA | 0xfa => OP_SMALLINTEGER | 0xfb => OP_PUBKEYS
  | 0xfd => OP_PUBKEYHASH | 0xfe => OP_PUBKEY
  | _ => OP_INVALIDOPCODE
  end.

Definition MAX_SCRIPT_ELEMENT_SIZE : Z := 520.
Definition MAX_OP_RETURN_RELAY : Z := 48.

Definition valtype := list Z.
Definition zlen {A} (l : list A) : Z := Z.of_nat (length l).

(** ** Reading instructions *)

(** The size of an immediate operand, and the rest of the script. *)
Definition push_size (opcode : Z) (pc : list Z) : option (Z * list Z) :=
  if opcode <? op_byte OP_PUSHDATA1 then Some (opcode, pc)
  else if opcode =? op_byte OP_PUSHDATA1 then
    match pc with n :: pc => Some (n, pc) | _ => None end
  else if opcode =? op_byte OP_PUSHDATA2 then
    match pc with a :: b :: pc => Some (le_combine [a; b], pc) | _ => None end
  else
    match pc with a :: b :: c :: d :: pc => Some (le_combine [a; b; c; d], pc) | _ => None end.

(** [GetOp2]: the opcode, the operand and the next position; [None] is
    [false].  Then [opcodeRet] is [OP_INVALIDOPCODE] and the operand empty. *)
Definition GetOp (pc : list Z) : option (Z * valtype * list Z) :=
  match pc with
  | [] => None
  | opcode :: pc =>
      if opcode <=? op_byte OP_PUSHDATA4 then
        match push_size opcode pc with
        | None => None
        | Some (nSize, pc) =>
            if zlen pc <? nSize then None
            else Some (opcode, firstn (Z.to_nat nSize) pc, skipn (Z.to_nat nSize) pc)
        end
      else Some (opcode, [], pc)
  end.

(** ** Writing instructions *)

(** What [operator<<] appends for an opcode, a byte vector and an integer. *)
Definition push_op (op : opcodetype) : list Z := [op_byte op].

Definition push_data (b : valtype) : list Z :=
  (if zlen b <? op_byte OP_PUSHDATA1 then [u8 (zlen b)]
   else if zlen b <=? 0xFF then [op_byte OP_PUSHDATA1; u8 (zlen b)]
   else if zlen b <=? 0xFFFF then op_byte OP_PUSHDATA2 :: le_split 2 (zlen b)
   else op_byte OP_PUSHDATA4 :: le_split 4 (zlen b)) ++ b.

(** [operator<<(const uint160&)] *)
Definition push_uint160 (h : valtype) : list Z := u8 20 :: h.

Section PushInt.
Context {L : BN_lib}.

Definition push_int64 (n : Z) : list Z :=
  if (n =? -1) || ((1 <=? n) && (n <=? 16)) then [u8 (n + (op_byte OP_1 - 1))]
  else push_data (getvch (CBigNum_int n)).
End PushInt.

Definition DecodeOP_N (opcode : Z) : Z :=
  if opcode =? op_byte OP_0 then 0 else opcode - (op_byte OP_1 - 1).

Definition EncodeOP_N (n : Z) : Z := if n =? 0 then op_byte OP_0 else op_byte OP_1 + n - 1.

(** ** Scans *)

Fixpoint push_only_loop (fuel : nat) (pc : list Z) : bool :=
  match fuel, pc with
  | _, [] => true
  | O, _ => false
  | S fuel, _ =>
      match GetOp pc with
      | None => false
      | Some (opcode, _, pc) => if op_byte OP_16 <? opcode then false else push_only_loop fuel pc
      end
  end.

Definition IsPushOnly (script : list Z) : bool := push_only_loop (length script) script.

(** The tests on one push. *)
Definition canonical_push (opcode : Z) (data : valtype) : bool :=
  if (opcode <? op_byte OP_PUSHDATA1) && (op_byte OP_0 <? opcode) && ((zlen data =? 1) && (nth 0 data 0 <=? 16))
  then false
  else if (opcode =? op_byte OP_PUSHDATA1) && (zlen data <? op_byte OP_PUSHDATA1) then false
  else if (opcode =? op_byte OP_PUSHDATA2) && (zlen data <=? 0xFF) then false
  else if (opcode =? op_byte OP_PUSHDATA4) && (zlen data <=? 0xFFFF) then false
  else true.

Fixpoint canonical_loop (fuel : nat) (pc : list Z) : bool :=
  match fuel, pc with
  | _, [] => true
  | O, _ => false
  | S fuel, _ =>
      match GetOp pc with
      | None => false
      | Some (opcode, data, pc) =>
          if op_byte OP_16 <? opcode then canonical_loop fuel pc
          else if canonical_push opcode data then canonical_loop fuel pc else false
      end
  end.

Definition HasCanonicalPushes (script : list Z) : bool := canonical_loop (length script) script.

Fixpoint sigop_loop (fuel : nat) (fAccurate : bool) (lastOpcode n : Z) (pc : list Z) : Z :=
  match fuel, pc with
  | S fuel, _ :: _ =>
      match GetOp pc with
      | None => n
      | Some (opcode, _, pc) =>
          let n :=
            if (opcode =? op_byte OP_CHECKSIG) || (opcode =? op_byte OP_CHECKSIGVERIFY) then u32 (n + 1)
            else if (opcode =? op_byte OP_CHECKMULTISIG) || (opcode =? op_byte OP_CHECKMULTISIGVERIFY) then
              if fAccurate && (op_byte OP_1 <=? lastOpcode) && (lastOpcode <=? op_byte OP_16)
              then u32 (n + DecodeOP_N lastOpcode)
              else u32 (n + 20)
            else n in
          sigop_loop fuel fAccurate opcode n pc
      end
  | _, _ => n
  end.

Definition GetSigOpCount (fAccurate : bool) (script : list Z) : Z :=
  sigop_loop (length script) fAccurate (op_byte OP_INVALIDOPCODE) 0 script.

Definition IsPayToScriptHash (script : list Z) : bool :=
  (zlen script =? 23) && (nth 0 script 0 =? op_byte OP_HASH160) && (nth 1 script 0 =? 0x14)
  && (nth 22 script 0 =? op_byte OP_EQUAL).

(** The last item a push-only script pushes; [None] is [return 0]. *)
Fixpoint last_push_loop (fuel : nat) (data : valtype) (pc : list Z) : option valtype :=
  match fuel, pc with
  | _, [] => Some data
  | O, _ => None
  | S fuel, _ =>
      match GetOp pc with
      | None => None
      | Some (opcode, data, pc) => if op_byte OP_16 <? opcode then None else last_push_loop fuel data pc
      end
  end.

(** [GetSigOpCount(const CScript& scriptSig)] *)
Definition GetSigOpCount_P2SH (script scriptSig : list Z) : Z :=
  if negb (IsPayToScriptHash script) then GetSigOpCount true script
  else match last_push_loop (length scriptSig) [] scriptSig with
  | None => 0
  | Some data => GetSigOpCount true data
  end.

(** [memcmp(&pc[0], &b[0], b.size()) == 0] with enough bytes left. *)
Fixpoint starts_with (b pc : list Z) : bool :=
  match b, pc with
  | [], _ => true
  | _, [] => false
  | x :: b, y :: pc => (x =? y) && starts_with b pc
  end.

(** The inner loop: erase [b] at [pc] as long as it is there. *)
Fixpoint erase_loop (fuel : nat) (b : list Z) (nFound : Z) (pc : list Z) : Z * list Z :=
  match fuel with
  | O => (nFound, pc)
  | S fuel =>
      if starts_with b pc then erase_loop fuel b (nFound + 1) (skipn (length b) pc) else (nFound, pc)
  end.

(** The outer loop: the bytes of the instruction after the erased ones are
    kept. *)
Fixpoint delete_loop (fuel : nat) (b : list Z) (nFound : Z) (pc : list Z) : Z * list Z :=
  let (nFound, pc) := erase_loop (length pc) b nFound pc in
  match fuel with
  | O => (nFound, pc)
  | S fuel =>
      match GetOp pc with
      | None => (nFound, pc)
      | Some (_, _, next) =>
          let (nFound, tail) := delete_loop fuel b nFound next in
          (nFound, firstn (length pc - length next) pc ++ tail)
      end
  end.

Definition FindAndDelete (script b : list Z) : Z * list Z :=
  match b with
  | [] => (0, script)
  | _ => delete_loop (length script) b 0 script
  end.

(** ** Hash functions *)

(** OpenSSL's digests. *)
Class hash_lib := {
  SHA256 : list Z -> list Z;
  SHA1 : list Z -> list Z;
  RIPEMD160 : list Z -> list Z
}.

Class hash_laws (H : hash_lib) : Prop := {
  SHA256_bytes v : words 8 v -> words 8 (SHA256 v) /\ length (SHA256 v) = 32%nat;
  SHA1_bytes v : words 8 v -> words 8 (SHA1 v) /\ length (SHA1 v) = 20%nat;
  RIPEMD160_bytes v : words 8 v -> words 8 (RIPEMD160 v) /\ length (RIPEMD160 v) = 20%nat
}.

(** A toy instance that satisfies the laws. *)
Definition toy_digest (k : nat) (v : list Z) : list Z := le_split k (7 + fold_right (fun b s => b + 31 * s) 0 v).

#[export] Instance toy_hash : hash_lib := {
  SHA256 := toy_digest 32;
  SHA1 := toy_digest 20;
  RIPEMD160 := toy_digest 20
}.

#[export] Instance toy_hash_laws : hash_laws toy_hash.
Proof. constructor; intros; split; first [apply le_split_bytes | apply length_le_split]. Qed.

Section Hashes.
Context {H : hash_lib}.

(** [Hash] of util.h, as the memory of a [uint256], and [Hash160]. *)
Definition Hash (v : list Z) : list Z := uint_of_bytes 8 (SHA256 (SHA256 v)).
Definition Hash160 (v : list Z) : list Z := uint_of_bytes 5 (RIPEMD160 (SHA256 v)).
End Hashes.

(** ** Standard outputs *)

Inductive txnouttype := TX_NONSTANDARD | TX_PUBKEY | TX_PUBKEYHASH | TX_SCRIPTHASH | TX_MULTISIG | TX_NULL_DATA.

(** [CTxDestination]; a stealth address is kept as its encoding. *)
Inductive CTxDestination :=
  | CNoDestination
  | CKeyID (hash : list Z)
  | CScriptID (hash : list Z)
  | CStealthAddress (raw : list Z).

(** The multimap of templates, in the order of its keys. *)
Definition mTemplates : list (txnouttype * list Z) :=
  [ (TX_PUBKEY, map op_byte [OP_PUBKEY; OP_CHECKSIG]);
    (TX_PUBKEYHASH, map op_byte [OP_DUP; OP_HASH160; OP_PUBKEYHASH; OP_EQUALVERIFY; OP_CHECKSIG]);
    (TX_MULTISIG, map op_byte [OP_SMALLINTEGER; OP_PUBKEYS; OP_SMALLINTEGER; OP_CHECKMULTISIG]);
    (TX_NULL_DATA, map op_byte [OP_RETURN]);
    (TX_NULL_DATA, map op_byte [OP_RETURN; OP_SMALLDATA]);
    (TX_NULL_DATA, map op_byte [OP_RETURN; OP_SMALLDATA; OP_RETURN; OP_SMALLDATA]) ].

(** The keys of an [OP_PUBKEYS] parameter.  When [GetOp] fails it leaves
    [OP_INVALIDOPCODE] and an empty operand, which no parameter matches. *)
Fixpoint pubkeys_loop (fuel : nat) (opcode1 : Z) (vch1 : valtype) (pc1 : list Z) (vSolutions : list valtype)
  : Z * valtype * list Z * list valtype :=
  match fuel with
  | O => (opcode1, vch1, pc1, vSolutions)
  | S fuel =>
      if (33 <=? zlen vch1) && (zlen vch1 <=? 120) then
        let vSolutions := vSolutions ++ [vch1] in
        match GetOp pc1 with
        | None => (op_byte OP_INVALIDOPCODE, [], [], vSolutions)
        | Some (opcode1, vch1, pc1) => pubkeys_loop fuel opcode1 vch1 pc1 vSolutions
        end
      else (opcode1, vch1, pc1, vSolutions)
  end.

Definition list_eqb (a b : list Z) : bool := (length a =? length b)%nat && starts_with a b.

(** The other parameters: the solutions after the step, or [None] for [break]. *)
Definition match_param (opcode1 opcode2 : Z) (vch1 vch2 : valtype) (vSolutions : list valtype)
  : option (list valtype) :=
  if opcode2 =? op_byte OP_PUBKEY then
    if (zlen vch1 <? 33) || (120 <? zlen vch1) then None else Some (vSolutions ++ [vch1])
  else if opcode2 =? op_byte OP_PUBKEYHASH then
    if negb (zlen vch1 =? 20) then None else Some (vSolutions ++ [vch1])
  else if opcode2 =? op_byte OP_SMALLINTEGER then
    if (opcode1 =? op_byte OP_0) || ((op_byte OP_1 <=? opcode1) && (opcode1 <=? op_byte OP_16))
    then Some (vSolutions ++ [[u8 (DecodeOP_N opcode1)]]) else None
  else if opcode2 =? op_byte OP_SMALLDATA then
    if MAX_OP_RETURN_RELAY <? zlen vch1 then None else Some vSolutions
  else if negb (opcode1 =? opcode2) || negb (list_eqb vch1 vch2) then None
  else Some vSolutions.

(** The comparison of a script with a template. *)
Fixpoint match_loop (fuel : nat) (pc1 pc2 : list Z) (vSolutions : list valtype) : option (list valtype) :=
  match fuel with
  | O => None
  | S fuel =>
      match pc1, pc2 with
      | [], [] => Some vSolutions
      | _, _ =>
          match GetOp pc1, GetOp pc2 with
          | Some (opcode1, vch1, pc1), Some (opcode2, vch2, pc2) =>
              if opcode2 =? op_byte OP_PUBKEYS then
                let '(opcode1, vch1, pc1, vSolutions) := pubkeys_loop (S (length pc1)) opcode1 vch1 pc1 vSolutions in
                match GetOp pc2 with
                | None => None
                | Some (opcode2, vch2, pc2) =>
                    match match_param opcode1 opcode2 vch1 vch2 vSolutions with
                    | None => None
                    | Some vSolutions => match_loop fuel pc1 pc2 vSolutions
                    end
                end
              else
                match match_param opcode1 opcode2 vch1 vch2 vSolutions with
                | None => None
                | Some vSolutions => match_loop fuel pc1 pc2 vSolutions
                end
          | _, _ => None
          end
      end
  end.

Definition multisig_ok (vSolutions : list valtype) : bool :=
  let m := nth 0 (nth 0 vSolutions []) 0 in
  let n := nth 0 (last vSolutions []) 0 in
  negb ((m <? 1) || (n <? 1) || (n <? m) || negb (zlen vSolutions - 2 =? n)).

Fixpoint scan_templates (script : list Z) (templates : list (txnouttype * list Z))
  : bool * txnouttype * list valtype :=
  match templates with
  | [] => (false, TX_NONSTANDARD, [])
  | (t, script2) :: templates =>
      match match_loop (S (length script)) script script2 [] with
      | None => scan_templates script templates
      | Some vSolutions =>
          match t with
          | TX_MULTISIG => (multisig_ok vSolutions, t, vSolutions)
          | _ => (true, t, vSolutions)
          end
      end
  end.

Definition Solver (scriptPubKey : list Z) : bool * txnouttype * list valtype :=
  if IsPayToScriptHash scriptPubKey then (true, TX_SCRIPTHASH, [firstn 20 (skipn 2 scriptPubKey)])
  else scan_templates scriptPubKey mTemplates.

Section Destinations.
Context {H : hash_lib}.

Definition PubKey_IsValid (vchPubKey : valtype) : bool := (zlen vchPubKey =? 33) || (zlen vchPubKey =? 65).

Definition ExtractDestination (scriptPubKey : list Z) : option CTxDestination :=
  let '(ok, whichType, vSolutions) := Solver scriptPubKey in
  let v0 := nth 0 vSolutions [] in
  if negb ok then None
  else match whichType with
  | TX_PUBKEY => if negb (PubKey_IsValid v0) then None else Some (CKeyID (Hash160 v0))
  | TX_PUBKEYHASH => Some (CKeyID (uint_of_vch 5 v0))
  | TX_SCRIPTHASH => Some (CScriptID (uint_of_vch 5 v0))
  | _ => None
  end.

(** [CScriptVisitor]: the script it leaves and what it returns. *)
Definition SetDestination (dest : CTxDestination) : list Z * bool :=
  match dest with
  | CNoDestination => ([], false)
  | CKeyID keyID =>
      (push_op OP_DUP ++ push_op OP_HASH160 ++ push_uint160 (uint_bytes keyID)
       ++ push_op OP_EQUALVERIFY ++ push_op OP_CHECKSIG, true)
  | CScriptID scriptID =>
      (push_op OP_HASH160 ++ push_uint160 (uint_bytes scriptID) ++ push_op OP_EQUAL, true)
  | CStealthAddress _ => ([], false)
  end.

(** [ScriptSigArgsExpected] *)
Definition ScriptSigArgsExpected (t : txnouttype) (vSolutions : list valtype) : Z :=
  match t with
  | TX_NONSTANDARD | TX_NULL_DATA => -1
  | TX_PUBKEY => 1
  | TX_PUBKEYHASH => 2
  | TX_MULTISIG =>
      if (zlen vSolutions <? 1) || (zlen (nth 0 vSolutions []) <? 1) then -1
      else nth 0 (nth 0 vSolutions []) 0 + 1
  | TX_SCRIPTHASH => 1
  end.
End Destinations.

Definition IsStandard (scriptPubKey : list Z) : bool :=
  let '(ok, whichType, vSolutions) := Solver scriptPubKey in
  if negb ok then false
  else match whichType with
  | TX_MULTISIG =>
      let m := nth 0 (nth 0 vSolutions []) 0 in
      let n := nth 0 (last vSolutions []) 0 in
      if (n <? 1) || (3 <? n) then false else if (m <? 1) || (n <? m) then false else true
  | TX_NONSTANDARD => false
  | _ => true
  end.

(** ** The decoder *)

Lemma op_byte_range op : 0 <= op_byte op <= 255.
Proof. destruct op; cbn; lia. Qed.

Lemma op_of_byte op : op_of (op_byte op) = op.
Proof. now destruct op. Qed.

Lemma zlen_nonneg {A} (l : list A) : 0 <= zlen l.
Proof. unfold zlen; lia. Qed.

Lemma zlen_app {A} (l m : list A) : zlen (l ++ m) = zlen l + zlen m.
Proof. unfold zlen; rewrite length_app; lia. Qed.

Lemma push_size_suffix opcode pc n rest :
  push_size opcode pc = Some (n, rest) -> exists used, pc = used ++ rest /\ (length used <= 4)%nat.
Proof.
  unfold push_size; intros E; destruct (_ <? _); [injection E as <- <-; exists []; split; [reflexivity | cbn; lia]|].
  destruct (_ =? _); [destruct pc as [|a pc]; [discriminate|]; injection E as <- <-; exists [a]; cbn; split; [reflexivity | lia]|].
  destruct (_ =? _).
  - destruct pc as [|a [|b pc]]; try discriminate; injection E as <- <-; exists [a; b]; cbn; split; [reflexivity | lia].
  - destruct pc as [|a [|b [|c [|d pc]]]]; try discriminate.
    injection E as <- <-; exists [a; b; c; d]; cbn; split; [reflexivity | lia].
Qed.

(** An instruction takes at least its opcode, and the operand comes from the
    script. *)
Lemma GetOp_suffix pc op v rest : GetOp pc = Some (op, v, rest) ->
  exists used, pc = used ++ rest /\ (0 < length used)%nat /\ exists pre, used = pre ++ v /\ nth 0 used 0 = op.
Proof.
  destruct pc as [|b pc]; [discriminate|]; cbn [GetOp]; destruct (_ <=? _).
  - destruct (push_size b pc) as [[n pc']|] eqn:E; [|discriminate].
    destruct (_ <? _); [discriminate|]; intros Heq.
    assert (b = op /\ firstn (Z.to_nat n) pc' = v /\ skipn (Z.to_nat n) pc' = rest) as (<- & <- & <-) by
      (inversion Heq; auto).
    destruct (push_size_suffix _ _ _ _ E) as (used & -> & _).
    exists ((b :: used) ++ firstn (Z.to_nat n) pc'); cbn [app length nth].
    split; [now rewrite <- app_assoc, firstn_skipn|]; split; [lia|].
    exists (b :: used); now cbn [app].
  - intros Heq; assert (b = op /\ [] = v /\ pc = rest) as (<- & <- & <-) by (inversion Heq; auto).
    exists [b]; cbn; split; [reflexivity|]; split; [lia|]; exists [b]; auto.
Qed.

Lemma GetOp_shorter pc op v rest : GetOp pc = Some (op, v, rest) -> (length rest < length pc)%nat.
Proof.
  intros E; destruct (GetOp_suffix _ _ _ _ E) as (used & -> & Hu & _); rewrite length_app; lia.
Qed.

Lemma GetOp_bytes pc op v rest : words 8 pc -> GetOp pc = Some (op, v, rest) ->
  inw 8 op /\ words 8 v /\ words 8 rest.
Proof.
  intros Hb E; destruct (GetOp_suffix _ _ _ _ E) as (used & -> & Hu & pre & -> & <-).
  apply Forall_app in Hb as [Hu' Hr]; split; [apply words_nth; [lia | exact Hu']|].
  apply Forall_app in Hu' as [_ Hv]; now split.
Qed.

(** The prefix byte of a push. *)
Definition push_opcode (b : valtype) : Z := nth 0 (push_data b) 0.

Lemma u8_small x : 0 <= x < 256 -> u8 x = x.
Proof. intros; rewrite u8_trunc; apply trunc_small; [lia | unfold inw; lia]. Qed.

Lemma take_data (b rest : list Z) (n : Z) : n = zlen b ->
  (zlen (b ++ rest) <? n) = false
  /\ firstn (Z.to_nat n) (b ++ rest) = b /\ skipn (Z.to_nat n) (b ++ rest) = rest.
Proof.
  intros ->; rewrite zlen_app; pose proof (zlen_nonneg rest); split; [apply Z.ltb_ge; lia|].
  unfold zlen; rewrite Nat2Z.id, firstn_app, skipn_app, Nat.sub_diag, firstn_all, skipn_all; cbn [firstn skipn app].
  now rewrite app_nil_r.
Qed.

Lemma GetOp_data opcode pc n b rest :
  opcode <= op_byte OP_PUSHDATA4 -> push_size opcode pc = Some (n, b ++ rest) -> n = zlen b ->
  GetOp (opcode :: pc) = Some (opcode, b, rest).
Proof.
  intros Ho E Hn; cbn [GetOp]; rewrite (proj2 (Z.leb_le _ _) Ho), E.
  destruct (take_data b rest n Hn) as (-> & -> & ->); reflexivity.
Qed.

Lemma GetOp_push b rest : zlen b < 2 ^ 32 -> GetOp (push_data b ++ rest) = Some (push_opcode b, b, rest).
Proof.
  intros Hb; pose proof (zlen_nonneg b); unfold push_opcode, push_data.
  destruct (Z.ltb_spec (zlen b) (op_byte OP_PUSHDATA1)) as [H1|H1]; cbn [op_byte] in H1.
  { rewrite u8_small by lia; cbn [app nth]; apply (GetOp_data _ _ (zlen b)); [cbn; lia | | reflexivity].
    unfold push_size; now rewrite (proj2 (Z.ltb_lt _ _)) by (cbn; lia). }
  destruct (Z.leb_spec (zlen b) 0xFF) as [H2|H2].
  { rewrite u8_small by lia; cbn [app nth]; apply (GetOp_data _ _ (zlen b)); [cbn; lia | reflexivity | reflexivity]. }
  destruct (Z.leb_spec (zlen b) 0xFFFF) as [H3|H3]; cbn [app nth].
  - apply (GetOp_data _ _ (le_combine (le_split 2 (zlen b)))); [cbn; lia | reflexivity |].
    rewrite le_combine_split; apply trunc_small; unfold inw; cbn; lia.
  - apply (GetOp_data _ _ (le_combine (le_split 4 (zlen b)))); [cbn; lia | reflexivity |].
    rewrite le_combine_split; apply trunc_small; unfold inw; cbn; lia.
Qed.

Lemma GetOp_op op rest : op_byte OP_PUSHDATA4 < op_byte op -> GetOp (push_op op ++ rest) = Some (op_byte op, [], rest).
Proof. intros Ho; cbn [push_op app GetOp]; now rewrite (proj2 (Z.leb_gt _ _) Ho). Qed.

(** ** Scripts as lists of instructions *)

(** [parses script l ok]: reading [script] to its end or to the first failure of
    [GetOp] yields the instructions [l]; [ok] tells whether the end was reached. *)
Inductive parses : list Z -> list (Z * valtype) -> bool -> Prop :=
  | parses_end : parses [] [] true
  | parses_error pc : pc <> [] -> GetOp pc = None -> parses pc [] false
  | parses_step pc op v rest l ok : GetOp pc = Some (op, v, rest) -> parses rest l ok ->
      parses pc ((op, v) :: l) ok.

Lemma parses_total pc : exists l ok, parses pc l ok.
Proof.
  induction pc as [pc IH] using (induction_ltof1 _ (@length Z)); unfold ltof in IH.
  destruct pc as [|b pc]; [exists [], true; constructor|].
  destruct (GetOp (b :: pc)) as [[[op v] rest]|] eqn:E; [|exists [], false; constructor; congruence].
  destruct (IH rest (GetOp_shorter _ _ _ _ E)) as (l & ok & Hp).
  exists ((op, v) :: l), ok; now apply (parses_step _ _ _ rest).
Qed.

Lemma parses_det pc l ok l' ok' : parses pc l ok -> parses pc l' ok' -> l = l' /\ ok = ok'.
Proof.
  intros H; revert l' ok'; induction H as [|pc Hn E|pc op v rest l ok E H IH]; intros l' ok' H'.
  - inversion H' as [|? Hn E|? ? ? ? ? ? E]; subst; [auto | congruence | discriminate].
  - inversion H' as [|? ? ?|? ? ? ? ? ? E']; subst; [congruence | auto | congruence].
  - inversion H' as [|? Hn E'|? op' v' rest' l'' ok'' E' H'']; subst; [discriminate | congruence |].
    assert ((op, v, rest) = (op', v', rest')) as Heq by congruence.
    assert (op = op' /\ v = v' /\ rest = rest') as (<- & <- & <-) by (inversion Heq; auto).
    destruct (IH l'' ok' H'') as [-> ->]; auto.
Qed.

(** What the scans compute on the instructions. *)
Definition pushes_only (l : list (Z * valtype)) : bool := forallb (fun i => fst i <=? op_byte OP_16) l.

Definition canonical_instrs (l : list (Z * valtype)) : bool :=
  forallb (fun i => (op_byte OP_16 <? fst i) || canonical_push (fst i) (snd i)) l.

Definition sigop_weight (fAccurate : bool) (lastOpcode opcode : Z) : Z :=
  match op_of opcode with
  | OP_CHECKSIG | OP_CHECKSIGVERIFY => 1
  | OP_CHECKMULTISIG | OP_CHECKMULTISIGVERIFY =>
      if fAccurate && (op_byte OP_1 <=? lastOpcode) && (lastOpcode <=? op_byte OP_16)
      then lastOpcode - op_byte OP_1 + 1 else 20
  | _ => 0
  end.

Fixpoint sigops (fAccurate : bool) (lastOpcode : Z) (l : list (Z * valtype)) : Z :=
  match l with
  | [] => 0
  | (op, _) :: l => sigop_weight fAccurate lastOpcode op + sigops fAccurate op l
  end.

(** The body of a loop over the instructions. *)
Lemma parses_nonempty pc op v rest : GetOp pc = Some (op, v, rest) -> exists b t, pc = b :: t.
Proof. destruct pc as [|b t]; [discriminate | eauto]. Qed.


Lemma push_only_parses pc l ok fuel : parses pc l ok -> (length pc <= fuel)%nat ->
  push_only_loop fuel pc = ok && pushes_only l.
Proof.
  intros H; revert fuel; induction H as [|pc Hn E|pc op v rest l ok E H IH]; intros fuel Hf.
  - now destruct fuel.
  - destruct pc as [|b pc]; [congruence|]; destruct fuel; [cbn in Hf; lia|]; cbn [push_only_loop]; now rewrite E.
  - destruct (parses_nonempty _ _ _ _ E) as (b & t & ->); pose proof (GetOp_shorter _ _ _ _ E).
    destruct fuel; [cbn in Hf; lia|]; cbn [push_only_loop]; rewrite E, IH by lia.
    cbn [pushes_only forallb fst]; rewrite Z.ltb_antisym; destruct (op <=? _), ok; cbn; reflexivity.
Qed.

Lemma canonical_parses pc l ok fuel : parses pc l ok -> (length pc <= fuel)%nat ->
  canonical_loop fuel pc = ok && canonical_instrs l.
Proof.
  intros H; revert fuel; induction H as [|pc Hn E|pc op v rest l ok E H IH]; intros fuel Hf.
  - now destruct fuel.
  - destruct pc as [|b pc]; [congruence|]; destruct fuel; [cbn in Hf; lia|]; cbn [canonical_loop]; now rewrite E.
  - destruct (parses_nonempty _ _ _ _ E) as (b & t & ->); pose proof (GetOp_shorter _ _ _ _ E).
    destruct fuel; [cbn in Hf; lia|]; cbn [canonical_loop]; rewrite E, IH by lia.
    cbn [canonical_instrs forallb fst snd]; fold (canonical_instrs l).
    destruct (_ <? op), (canonical_push op v), ok; reflexivity.
Qed.

(** The chain of comparisons is the [switch] on the opcode. *)
Lemma sigop_step acc lastOpcode op n : inw 8 op ->
  (if (op =? op_byte OP_CHECKSIG) || (op =? op_byte OP_CHECKSIGVERIFY) then u32 (n + 1)
   else if (op =? op_byte OP_CHECKMULTISIG) || (op =? op_byte OP_CHECKMULTISIGVERIFY) then
     if acc && (op_byte OP_1 <=? lastOpcode) && (lastOpcode <=? op_byte OP_16)
     then u32 (n + DecodeOP_N lastOpcode) else u32 (n + 20)
   else n) = if sigop_weight acc lastOpcode op =? 0 then n else u32 (n + sigop_weight acc lastOpcode op).
Proof.
  intros Hop.
  assert (Hw : sigop_weight acc lastOpcode op =
    if (op =? op_byte OP_CHECKSIG) || (op =? op_byte OP_CHECKSIGVERIFY) then 1
    else if (op =? op_byte OP_CHECKMULTISIG) || (op =? op_byte OP_CHECKMULTISIGVERIFY) then
      if acc && (op_byte OP_1 <=? lastOpcode) && (lastOpcode <=? op_byte OP_16)
      then lastOpcode - op_byte OP_1 + 1 else 20
    else 0).
  { unfold sigop_weight.
    set (w := if acc && _ && _ then _ else _); clearbody w.
    pose proof (byte_all (fun op => match op_of op with
      | OP_CHECKSIG | OP_CHECKSIGVERIFY => (op =? op_byte OP_CHECKSIG) || (op =? op_byte OP_CHECKSIGVERIFY)
      | OP_CHECKMULTISIG | OP_CHECKMULTISIGVERIFY =>
          negb ((op =? op_byte OP_CHECKSIG) || (op =? op_byte OP_CHECKSIGVERIFY))
          && ((op =? op_byte OP_CHECKMULTISIG) || (op =? op_byte OP_CHECKMULTISIGVERIFY))
      | _ => negb ((op =? op_byte OP_CHECKSIG) || (op =? op_byte OP_CHECKSIGVERIFY))
          && negb ((op =? op_byte OP_CHECKMULTISIG) || (op =? op_byte OP_CHECKMULTISIGVERIFY))
      end) eq_refl op Hop) as Hc; cbn beta in Hc.
    destruct (op_of op), ((op =? op_byte OP_CHECKSIG) || (op =? op_byte OP_CHECKSIGVERIFY)),
      ((op =? op_byte OP_CHECKMULTISIG) || (op =? op_byte OP_CHECKMULTISIGVERIFY)); easy. }
  rewrite Hw; destruct (_ || _); [reflexivity|]; destruct (_ || _); [|reflexivity].
  destruct (acc && (op_byte OP_1 <=? lastOpcode)) eqn:E1; cbn [andb]; [|reflexivity].
  destruct (lastOpcode <=? op_byte OP_16) eqn:E2; [|reflexivity].
  apply andb_true_iff in E1 as [_ E1]; apply Z.leb_le in E1; cbn [op_byte] in *.
  unfold DecodeOP_N; cbn [op_byte].
  destruct (Z.eqb_spec lastOpcode 0); [lia|]; destruct (Z.eqb_spec (lastOpcode - 81 + 1) 0); [lia | do 2 f_equal; lia].
Qed.

Lemma sigop_weight_range acc lastOpcode op : 0 <= sigop_weight acc lastOpcode op <= 20.
Proof.
  unfold sigop_weight; destruct (op_of op); try lia; destruct acc; cbn [andb]; try lia;
  destruct (Z.leb_spec (op_byte OP_1) lastOpcode), (Z.leb_spec lastOpcode (op_byte OP_16)); cbn [andb op_byte] in *; lia.
Qed.

Lemma sigop_parses acc pc l ok fuel lastOpcode n : parses pc l ok -> words 8 pc -> (length pc <= fuel)%nat ->
  0 <= n < 2 ^ 32 -> sigop_loop fuel acc lastOpcode n pc = (n + sigops acc lastOpcode l) mod 2 ^ 32.
Proof.
  intros H; revert fuel lastOpcode n.
  induction H as [|pc Hn E|pc op v rest l ok E H IH]; intros fuel lastOpcode n Hb Hf Hr.
  - destruct fuel; cbn [sigop_loop sigops]; rewrite Z.add_0_r, Z.mod_small; lia.
  - cbn [sigops]; rewrite Z.add_0_r, Z.mod_small by lia.
    destruct pc as [|b pc]; [congruence|]; destruct fuel; [reflexivity|]; cbn [sigop_loop]; now rewrite E.
  - destruct (parses_nonempty _ _ _ _ E) as (b & t & ->); pose proof (GetOp_shorter _ _ _ _ E).
    destruct (GetOp_bytes _ _ _ _ Hb E) as (Ho & _ & Hrb).
    destruct fuel; [cbn in Hf; lia|]; cbn [sigop_loop sigops]; rewrite E, sigop_step by assumption.
    pose proof (sigop_weight_range acc lastOpcode op).
    destruct (Z.eqb_spec (sigop_weight acc lastOpcode op) 0) as [Hz|Hz].
    + rewrite IH, Hz by (assumption || lia); f_equal; lia.
    + rewrite u32_mod, IH by (assumption || lia || (apply Z.mod_pos_bound; lia)).
      rewrite Zplus_mod_idemp_l; f_equal; lia.
Qed.

(** ** Writing and reading *)

(** What a script is written from with [operator<<]. *)
Inductive item := Push (b : valtype) | Op (op : opcodetype).

Definition item_bytes (i : item) : list Z := match i with Push b => push_data b | Op op => push_op op end.
Definition item_instr (i : item) : Z * valtype :=
  match i with Push b => (push_opcode b, b) | Op op => (op_byte op, []) end.
Definition item_valid (i : item) : Prop :=
  match i with Push b => zlen b < 2 ^ 32 | Op op => op_byte OP_PUSHDATA4 < op_byte op end.

Lemma GetOp_item i rest : item_valid i ->
  GetOp (item_bytes i ++ rest) = Some (fst (item_instr i), snd (item_instr i), rest).
Proof. destruct i; intros Hv; [now apply GetOp_push | now apply GetOp_op]. Qed.

Lemma parses_items items : Forall item_valid items ->
  parses (flat_map item_bytes items) (map item_instr items) true.
Proof.
  induction 1 as [|i items Hi Hitems IH]; [constructor|]; cbn [flat_map map].
  rewrite (surjective_pairing (item_instr i)); eapply parses_step; [now apply GetOp_item | exact IH].
Qed.

(** A written push is canonical unless it is one byte that has an opcode. *)
Lemma canonical_written b : zlen b < 2 ^ 32 ->
  (op_byte OP_16 <? push_opcode b) || canonical_push (push_opcode b) b
  = negb ((zlen b =? 1) && (nth 0 b 0 <=? 16)).
Proof.
  intros Hb; pose proof (zlen_nonneg b); unfold push_opcode, push_data, canonical_push.
  destruct (Z.ltb_spec (zlen b) (op_byte OP_PUSHDATA1)) as [H1|H1]; cbn [op_byte] in *.
  { rewrite u8_small by lia; cbn [app nth].
    rewrite (proj2 (Z.ltb_ge 0x60 (zlen b))), (proj2 (Z.ltb_lt (zlen b) 0x4c)) by lia.
    rewrite (proj2 (Z.eqb_neq (zlen b) 0x4c)), (proj2 (Z.eqb_neq (zlen b) 0x4d)),
      (proj2 (Z.eqb_neq (zlen b) 0x4e)) by lia; cbn [orb andb].
    destruct (Z.eqb_spec (zlen b) 1) as [E|E]; [rewrite E|]; cbn [andb Z.ltb Z.compare];
      [destruct (_ <=? 16) | rewrite andb_false_r]; reflexivity. }
  rewrite (proj2 (Z.eqb_neq (zlen b) 1)) by lia; cbn [andb negb].
  destruct (Z.leb_spec (zlen b) 0xFF) as [H2|H2]; [|destruct (Z.leb_spec (zlen b) 0xFFFF) as [H3|H3]]; cbn [app nth].
  all: reflexivity.
Qed.

(** Every script is a sequence of instructions, and writing and reading
    agree.  Any byte string parses in one way, to its end or to the first
    ill-formed push.  A script written with [operator<<] parses back to
    exactly the opcodes and data written.  [IsPushOnly],
    [HasCanonicalPushes] and [GetSigOpCount] decide, on the parsed
    instructions, what their names say; a written script has canonical
    pushes unless it pushes a single byte that has an opcode of its own. *)
Theorem script_reading (script : list Z) (items : list item) (fAccurate : bool) :
  words 8 script -> Forall item_valid items ->
  parses (flat_map item_bytes items) (map item_instr items) true
  /\ (exists l ok, parses script l ok
      /\ (forall l' ok', parses script l' ok' -> l' = l /\ ok' = ok)
      /\ IsPushOnly script = ok && pushes_only l
      /\ HasCanonicalPushes script = ok && canonical_instrs l
      /\ GetSigOpCount fAccurate script = sigops fAccurate (op_byte OP_INVALIDOPCODE) l mod 2 ^ 32)
  /\ HasCanonicalPushes (flat_map item_bytes items)
     = forallb (fun i => match i with
                         | Push b => negb ((zlen b =? 1) && (nth 0 b 0 <=? 16))
                         | Op op => (op_byte OP_16 <? op_byte op) || canonical_push (op_byte op) []
                         end) items.
Proof.
  intros Hs Hi; pose proof (parses_items items Hi) as Hp; split; [exact Hp|]; split.
  - destruct (parses_total script) as (l & ok & Hl); exists l, ok; split; [exact Hl|]; split.
    { intros l' ok' Hl'; destruct (parses_det _ _ _ _ _ Hl Hl'); auto. }
    split; [now apply push_only_parses|]; split; [now apply canonical_parses|].
    unfold GetSigOpCount; rewrite (sigop_parses fAccurate _ l ok) by (assumption || lia); reflexivity.
  - unfold HasCanonicalPushes; rewrite (canonical_parses _ _ _ _ Hp (le_n _)); cbn [andb].
    clear Hp; induction Hi as [|i items Hv Hi IH]; [reflexivity|].
    cbn [map canonical_instrs forallb]; fold (canonical_instrs (map item_instr items)); rewrite IH; f_equal.
    destruct i as [b|op]; cbn [item_instr fst snd item_valid] in *; [now apply canonical_written | reflexivity].
Qed.

Lemma script_reading_witness :
  HasCanonicalPushes (flat_map item_bytes [Push [1; 2; 3]; Op OP_DUP; Push [7]]) = false
  /\ parses (flat_map item_bytes [Push [1; 2; 3]; Op OP_DUP; Push [7]]) [(3, [1; 2; 3]); (0x76, []); (1, [7])] true.
Proof.
  destruct (script_reading [0x51] [Push [1; 2; 3]; Op OP_DUP; Push [7]] true) as (H1 & _ & H2);
    [words_dec | repeat (apply Forall_cons; [vm_compute; reflexivity|]); apply Forall_nil |].
  split; [exact H2 | exact H1].
Defined.

(** ** Recognising outputs *)

(** A template without [OP_PUBKEYS], against the instructions. *)
Fixpoint match_instrs (ops : list opcodetype) (l : list (Z * valtype)) (vSolutions : list valtype)
  : option (list valtype) :=
  match ops, l with
  | [], [] => Some vSolutions
  | op :: ops, (o, v) :: l =>
      match match_param o (op_byte op) v [] vSolutions with
      | None => None
      | Some vSolutions => match_instrs ops l vSolutions
      end
  | _, _ => None
  end.

Definition plain_param (op : opcodetype) : Prop := op_byte OP_PUSHDATA4 < op_byte op /\ op <> OP_PUBKEYS.

Lemma match_loop_instrs ops : Forall plain_param ops -> forall fuel pc sols sols',
  match_loop fuel pc (map op_byte ops) sols = Some sols' ->
  exists l, parses pc l true /\ match_instrs ops l sols = Some sols'.
Proof.
  induction 1 as [|op ops [Hop Hnk] Hops IH]; intros fuel pc sols sols' E.
  - destruct fuel; [discriminate|]; cbn [match_loop map] in E.
    destruct pc as [|b pc]; [exists []; split; [constructor | exact E]|].
    change (GetOp []) with (@None (Z * valtype * list Z)) in E; destruct (GetOp (b :: pc)) as [[[? ?] ?]|]; discriminate.
  - destruct fuel; [discriminate|]; cbn [match_loop map] in E.
    change (op_byte op :: map op_byte ops) with (push_op op ++ map op_byte ops) in E.
    rewrite GetOp_op in E by assumption.
    assert (Hk : (op_byte op =? op_byte OP_PUBKEYS) = false).
    { apply Z.eqb_neq; intros Heq; apply Hnk; rewrite <- (op_of_byte op), Heq; reflexivity. }
    rewrite Hk in E; destruct pc as [|b pc]; [discriminate|]; cbn [push_op app] in E.
    destruct (GetOp (b :: pc)) as [[[o v] rest]|] eqn:Eg; [|discriminate].
    destruct (match_param o (op_byte op) v [] sols) as [sols1|] eqn:Em; [|discriminate].
    destruct (IH _ _ _ _ E) as (l & Hl & Hm); exists ((o, v) :: l).
    split; [now apply (parses_step _ _ _ rest) | cbn [match_instrs]; now rewrite Em].
Qed.

Lemma starts_with_eq a b : (length a = length b) -> starts_with a b = true <-> a = b.
Proof.
  revert b; induction a as [|x a IH]; intros [|y b] Hl; cbn [length starts_with] in *; try discriminate; [tauto|].
  rewrite andb_true_iff, Z.eqb_eq, IH by lia; split; [intros [-> ->] | intros [= -> ->]]; auto.
Qed.

Lemma list_eqb_eq a b : list_eqb a b = true <-> a = b.
Proof.
  unfold list_eqb; rewrite andb_true_iff, Nat.eqb_eq; split.
  - intros [Hl Hs]; now apply starts_with_eq.
  - intros ->; split; [reflexivity | now apply starts_with_eq].
Qed.

(** A parameter that stands for itself. *)
Lemma match_literal o op v sols sols' :
  match op with OP_PUBKEY | OP_PUBKEYHASH | OP_SMALLINTEGER | OP_SMALLDATA => False | _ => True end ->
  match_param o (op_byte op) v [] sols = Some sols' -> o = op_byte op /\ v = [] /\ sols' = sols.
Proof.
  intros Hop E; unfold match_param in E.
  assert (Hne : forall op', (match op' with OP_PUBKEY | OP_PUBKEYHASH | OP_SMALLINTEGER | OP_SMALLDATA => True | _ => False end) ->
    (op_byte op =? op_byte op') = false).
  { intros op' Hop'; apply Z.eqb_neq; intros Heq; assert (op = op') by (rewrite <- (op_of_byte op), Heq, op_of_byte; reflexivity).
    subst op'; now destruct op. }
  rewrite !Hne in E by exact I; destruct (Z.eqb_spec o (op_byte op)); [|discriminate].
  destruct (list_eqb v []) eqn:El; [|discriminate]; apply list_eqb_eq in El.
  cbn [negb orb] in E; split; [assumption | split; [assumption | congruence]].
Qed.

Definition p2pkh_instrs (o : Z) (keyID : valtype) : list (Z * valtype) :=
  [(op_byte OP_DUP, []); (op_byte OP_HASH160, []); (o, keyID); (op_byte OP_EQUALVERIFY, []); (op_byte OP_CHECKSIG, [])].

Definition p2pk_instrs (o : Z) (pubkey : valtype) : list (Z * valtype) := [(o, pubkey); (op_byte OP_CHECKSIG, [])].

Ltac match_lit E :=
  match type of E with
  | match match_param ?o _ ?v [] ?sols with _ => _ end = Some _ =>
      destruct (match_param o _ v [] sols) eqn:?; [|discriminate E];
      match goal with Hm : match_param o _ v [] sols = Some _ |- _ =>
        apply match_literal in Hm; [destruct Hm as (-> & -> & ->) | exact I] end
  end.

Lemma match_p2pkh l sols :
  match_instrs [OP_DUP; OP_HASH160; OP_PUBKEYHASH; OP_EQUALVERIFY; OP_CHECKSIG] l [] = Some sols ->
  exists o v, l = p2pkh_instrs o v /\ sols = [v] /\ zlen v = 20.
Proof.
  intros E; destruct l as [|[o1 v1] l]; [discriminate|]; cbn [match_instrs] in E; match_lit E.
  destruct l as [|[o2 v2] l]; [discriminate|]; match_lit E.
  destruct l as [|[o v] l]; [discriminate|]; unfold match_param at 1 in E.
  change (op_byte OP_PUBKEYHASH =? op_byte OP_PUBKEY) with false in E; rewrite Z.eqb_refl in E; cbn iota in E.
  destruct (Z.eqb_spec (zlen v) 20) as [Hv|]; [|discriminate]; cbn [negb app] in E.
  destruct l as [|[o4 v4] l]; [discriminate|]; match_lit E.
  destruct l as [|[o5 v5] l]; [discriminate|]; match_lit E.
  destruct l; [|discriminate]; exists o, v; repeat split; [congruence | assumption].
Qed.

Lemma match_p2pk l sols :
  match_instrs [OP_PUBKEY; OP_CHECKSIG] l [] = Some sols ->
  exists o v, l = p2pk_instrs o v /\ sols = [v] /\ 33 <= zlen v <= 120.
Proof.
  intros E; destruct l as [|[o v] l]; [discriminate|]; cbn [match_instrs] in E; unfold match_param at 1 in E.
  rewrite Z.eqb_refl in E; destruct (Z.ltb_spec (zlen v) 33); [discriminate|].
  destruct (Z.ltb_spec 120 (zlen v)); [discriminate|]; cbn [orb app] in E.
  destruct l as [|[o5 v5] l]; [discriminate|]; match_lit E.
  destruct l; [|discriminate]; exists o, v; repeat split; (congruence || lia).
Qed.

Lemma uint_bytes_split n a : wf n a -> uint_bytes a = le_split (n * 4) (val a).
Proof.
  intros [Hl Hw]; rewrite <- (le_split_combine (uint_bytes a)), le_combine_uint by auto using uint_bytes_words.
  f_equal; unfold uint_bytes; rewrite (length_flat_map_const _ 4) by reflexivity; lia.
Qed.

Lemma uint_vch_bytes v : words 8 v -> length v = 20%nat ->
  wf 5 (uint_of_vch 5 v) /\ uint_bytes (uint_of_vch 5 v) = v.
Proof.
  intros Hv Hl; unfold uint_of_vch; rewrite Hl, Nat.eqb_refl.
  pose proof (le_combine_inw v Hv) as Hb; rewrite Hl in Hb; unfold inw in Hb.
  destruct (uint_of_bytes_spec 5 (le_combine v)) as [W V]; [lia|].
  change (5 * 4)%nat with 20%nat in W, V; rewrite <- Hl, le_split_combine in W, V by assumption.
  split; [exact W|]; rewrite (uint_bytes_split 5) by assumption; rewrite V, Z.mod_small by exact Hb.
  change (5 * 4)%nat with 20%nat; rewrite <- Hl; now apply le_split_combine.
Qed.

Lemma uint_bytes_vch h : wf 5 h -> length (uint_bytes h) = 20%nat /\ uint_of_vch 5 (uint_bytes h) = h.
Proof.
  intros Hh; assert (Hl : length (uint_bytes h) = 20%nat).
  { destruct Hh as [Hl _]; unfold uint_bytes; rewrite (length_flat_map_const _ 4) by reflexivity; lia. }
  split; [exact Hl|]; unfold uint_of_vch; rewrite Hl, Nat.eqb_refl; now apply (uint_of_uint_bytes 5).
Qed.

(** A list of twenty bytes between fixed ones. *)
Ltac split20 v Hl := do 20 (destruct v as [|? v]; [discriminate Hl|]); destruct v; [|discriminate Hl].

Lemma Solver_p2pkh v : length v = 20%nat ->
  Solver (push_op OP_DUP ++ push_op OP_HASH160 ++ push_uint160 v ++ push_op OP_EQUALVERIFY ++ push_op OP_CHECKSIG)
  = (true, TX_PUBKEYHASH, [v]).
Proof. intros Hl; split20 v Hl; reflexivity. Qed.

Lemma Solver_p2sh v : length v = 20%nat ->
  Solver (push_op OP_HASH160 ++ push_uint160 v ++ push_op OP_EQUAL) = (true, TX_SCRIPTHASH, [v]).
Proof. intros Hl; split20 v Hl; reflexivity. Qed.

Lemma p2sh_shape script : IsPayToScriptHash script = true ->
  length (firstn 20 (skipn 2 script)) = 20%nat
  /\ script = push_op OP_HASH160 ++ push_uint160 (firstn 20 (skipn 2 script)) ++ push_op OP_EQUAL.
Proof.
  unfold IsPayToScriptHash; rewrite !andb_true_iff, !Z.eqb_eq; intros [[[Hl H0] H1] H22].
  assert (Hl' : length script = 23%nat) by (unfold zlen in Hl; lia); clear Hl.
  destruct script as [|a [|b v]]; try discriminate; injection Hl' as Hl'.
  cbn [nth] in H0, H1, H22; subst a b; cbn [skipn].
  split; [rewrite length_firstn; lia|].
  rewrite <- (firstn_skipn 20 v) at 1; cbn [push_op push_uint160 app]; do 3 f_equal.
  assert (length (skipn 20 v) = 1%nat) by (rewrite length_skipn; lia).
  rewrite <- (firstn_skipn 20 v), app_nth2 in H22 by (rewrite length_firstn; lia).
  rewrite length_firstn, Nat.min_l in H22 by lia; cbn [Nat.sub] in H22.
  destruct (skipn 20 v) as [|x [|]]; try discriminate; cbn [nth] in H22; now subst x.
Qed.

Lemma Solver_scan script ok t sols : IsPayToScriptHash script = false -> Solver script = (ok, t, sols) ->
  match t with
  | TX_PUBKEY => exists o v, parses script (p2pk_instrs o v) true /\ sols = [v] /\ 33 <= zlen v <= 120
  | TX_PUBKEYHASH => exists o v, parses script (p2pkh_instrs o v) true /\ sols = [v] /\ zlen v = 20
  | TX_SCRIPTHASH => False
  | _ => True
  end.
Proof.
  unfold Solver; intros -> E; cbn [scan_templates mTemplates] in E.
  destruct (match_loop _ script (map op_byte [OP_PUBKEY; OP_CHECKSIG]) []) as [s1|] eqn:E1.
  { apply match_loop_instrs in E1; [|repeat (apply Forall_cons; [split; [cbn; lia | discriminate]|]); apply Forall_nil].
    destruct E1 as (l & Hl & Hm); apply match_p2pk in Hm as (o & v & -> & -> & Hv).
    inversion E; subst; eauto. }
  destruct (match_loop _ script (map op_byte [OP_DUP; OP_HASH160; OP_PUBKEYHASH; OP_EQUALVERIFY; OP_CHECKSIG]) []) as [s2|] eqn:E2.
  { apply match_loop_instrs in E2; [|repeat (apply Forall_cons; [split; [cbn; lia | discriminate]|]); apply Forall_nil].
    destruct E2 as (l & Hl & Hm); apply match_p2pkh in Hm as (o & v & -> & -> & Hv).
    inversion E; subst; eauto. }
  repeat match type of E with
  | match match_loop ?f ?a ?b ?c with _ => _ end = _ => destruct (match_loop f a b c)
  end; inversion E; subst; exact I.
Qed.

(** C29: Addresses and output scripts correspond.  The script that pays to a
    key or script hash is recognised as such, with that hash
    ([ExtractDestination] inverts [SetDestination]); and an address is read
    only from a script that really pays to it: a pay-to-script-hash address
    only from the one script that [SetDestination] makes, a key address only
    from the five instructions of pay-to-pubkey-hash with that hash, or from
    the push of a public key with that hash followed by [OP_CHECKSIG]. *)
Theorem destination_roundtrip (H : hash_lib) (h script : list Z) (d : CTxDestination) :
  wf 5 h -> words 8 script ->
  ExtractDestination (fst (SetDestination (CKeyID h))) = Some (CKeyID h)
  /\ ExtractDestination (fst (SetDestination (CScriptID h))) = Some (CScriptID h)
  /\ (ExtractDestination script = Some d ->
      match d with
      | CScriptID _ => script = fst (SetDestination d)
      | CKeyID k =>
          (exists o v, parses script (p2pkh_instrs o v) true /\ zlen v = 20 /\ k = uint_of_vch 5 v)
          \/ (exists o pk, parses script (p2pk_instrs o pk) true /\ PubKey_IsValid pk = true /\ k = Hash160 pk)
      | _ => False
      end).
Proof.
  intros Hh Hs; destruct (uint_bytes_vch h Hh) as [Hl Hv]; split; [|split].
  - unfold ExtractDestination, SetDestination; cbn [fst]; rewrite Solver_p2pkh by assumption; cbn [nth negb]; now rewrite Hv.
  - unfold ExtractDestination, SetDestination; cbn [fst]; rewrite Solver_p2sh by assumption; cbn [nth negb]; now rewrite Hv.
  - unfold ExtractDestination; destruct (Solver script) as [[ok t] sols] eqn:E.
    destruct ok; cbn [negb]; [|discriminate]; destruct (IsPayToScriptHash script) eqn:Ep.
    + unfold Solver in E; rewrite Ep in E; pose proof (f_equal snd E) as Es; pose proof (f_equal (fun p => snd (fst p)) E) as Et.
      cbn [fst snd] in Es, Et; subst t sols; cbn [nth]; intros Heq.
      assert (d = CScriptID (uint_of_vch 5 (firstn 20 (skipn 2 script)))) as -> by congruence.
      destruct (p2sh_shape script Ep) as [Hl2 Hsh]; cbn [SetDestination fst].
      rewrite (proj2 (uint_vch_bytes _ (words_firstn 8 20 _ (words_skipn 8 2 _ Hs)) Hl2)); exact Hsh.
    + pose proof (Solver_scan script true t sols Ep E) as Hsc; destruct t; try discriminate; [| |contradiction].
      * destruct Hsc as (o & v & Hp & -> & Hz); cbn [nth]; destruct (PubKey_IsValid v) eqn:Ev; [|discriminate].
        cbn [negb]; intros [= <-]; right; eauto.
      * destruct Hsc as (o & v & Hp & -> & Hz); cbn [nth]; intros [= <-]; left; eauto.
Qed.

Lemma destination_roundtrip_witness :
  ExtractDestination (fst (SetDestination (CKeyID [1; 2; 3; 4; 5]))) = Some (CKeyID [1; 2; 3; 4; 5])
  /\ ExtractDestination (fst (SetDestination (CScriptID [1; 2; 3; 4; 5]))) = Some (CScriptID [1; 2; 3; 4; 5]).
Proof.
  destruct (destination_roundtrip toy_hash [1; 2; 3; 4; 5] [] CNoDestination) as (H1 & H2 & _);
    [split; [reflexivity | words_dec] | constructor |].
  split; [exact H1 | exact H2].
Defined.
