(* ===== verification/Interp.v ===== *)
(** * Interp: the script interpreter (script.cpp)

    [EvalScript] and [VerifyScript].  The stack is a list with its top, the
    back of the vector, first.  Returning [false] and throwing (the code
    catches everything and returns [false]) are [None].  The check of a signature
    against the transaction is a parameter here; SigHash models it. *)

From Stdlib Require Import ZArith List Lia Bool.
From S2P Require Import Prelude SphTypes Uint256 Serialize BigNum Script.
Import ListNotations.

Open Scope Z_scope.
Open Scope word_scope.

(** ** Values *)

Definition vchFalse : valtype := [].
Definition vchTrue : valtype := [1].
Definition of_bool (b : bool) : valtype := if b then vchTrue else vchFalse.

(** Negative zero, [0x80] in the last byte only, is false. *)
Fixpoint CastToBool (vch : valtype) : bool :=
  match vch with
  | [] => false
  | b :: rest =>
      if b =? 0 then CastToBool rest
      else match rest with [] => negb (b =? 0x80) | _ => true end
  end.

Definition nMaxNumSize : Z := 4.

(** ** Canonical signatures and keys *)

(** [CompareBigEndian] (key.cpp): leading bytes of the longer string, then
    byte by byte. *)
Fixpoint skip_zeros (n : nat) (c : list Z) : option (list Z) :=
  match n, c with
  | S n, b :: c => if b =? 0 then skip_zeros n c else None
  | _, _ => Some c
  end.

Fixpoint compare_bytes (c1 c2 : list Z) : Z :=
  match c1, c2 with
  | a :: c1, b :: c2 => if b <? a then 1 else if a <? b then -1 else compare_bytes c1 c2
  | _, _ => 0
  end.

Definition CompareBigEndian (c1 c2 : list Z) : Z :=
  match skip_zeros (length c1 - length c2) c1 with
  | None => 1
  | Some c1 =>
      match skip_zeros (length c2 - length c1) c2 with
      | None => -1
      | Some c2 => compare_bytes c1 c2
      end
  end.

Definition vchMaxModOrder : list Z :=
  [0xFF;0xFF;0xFF;0xFF;0xFF;0xFF;0xFF;0xFF; 0xFF;0xFF;0xFF;0xFF;0xFF;0xFF;0xFF;0xFE;
   0xBA;0xAE;0xDC;0xE6;0xAF;0x48;0xA0;0x3B; 0xBF;0xD2;0x5E;0x8C;0xD0;0x36;0x41;0x40].

Definition vchMaxModHalfOrder : list Z :=
  [0x7F;0xFF;0xFF;0xFF;0xFF;0xFF;0xFF;0xFF; 0xFF;0xFF;0xFF;0xFF;0xFF;0xFF;0xFF;0xFF;
   0x5D;0x57;0x6E;0x73;0x57;0xA4;0x50;0x1D; 0xDF;0xE9;0x2F;0x46;0x68;0x1B;0x20;0xA0].

Definition CheckSignatureElement (vch : list Z) (half : bool) : bool :=
  (0 <? CompareBigEndian vch [])
  && (CompareBigEndian vch (if half then vchMaxModHalfOrder else vchMaxModOrder) <=? 0).

Definition IsCanonicalPubKey (vchPubKey : valtype) : bool :=
  if zlen vchPubKey <? 33 then false
  else if nth 0 vchPubKey 0 =? 0x04 then zlen vchPubKey =? 65
  else if (nth 0 vchPubKey 0 =? 0x02) || (nth 0 vchPubKey 0 =? 0x03) then zlen vchPubKey =? 33
  else false.

Definition SIGHASH_ALL : Z := 1.
Definition SIGHASH_NONE : Z := 2.
Definition SIGHASH_SINGLE : Z := 3.
Definition SIGHASH_ANYONECANPAY : Z := 0x80.

(** The tests on one of the two integers: its type byte is before its length,
    at [off - 2]. *)
Definition canonical_integer (vchSig : valtype) (off len : nat) : bool :=
  if negb (nth (off - 2) vchSig 0 =? 0x02) then false
  else if (len =? 0)%nat then false
  else if negb (nth off vchSig 0 .& 0x80 =? 0) then false
  else if (1 <? len)%nat && (nth off vchSig 0 =? 0) && (nth (S off) vchSig 0 .& 0x80 =? 0) then false
  else true.

Definition IsCanonicalSignature (vchSig : valtype) : bool :=
  let size := length vchSig in
  if (size <? 9)%nat then false
  else if (73 <? size)%nat then false
  else
    let nHashType := nth (size - 1) vchSig 0 .& 0x7F in
    if (nHashType <? SIGHASH_ALL) || (SIGHASH_SINGLE <? nHashType) then false
    else if negb (nth 0 vchSig 0 =? 0x30) then false
    else if negb (nth 1 vchSig 0 =? Z.of_nat (size - 3)) then false
    else
      let nLenR := Z.to_nat (nth 3 vchSig 0) in
      if (size <=? 5 + nLenR)%nat then false
      else
        let nLenS := Z.to_nat (nth (5 + nLenR) vchSig 0) in
        if negb (nLenR + nLenS + 7 =? size)%nat then false
        else if negb (canonical_integer vchSig 4 nLenR) then false
        else if negb (canonical_integer vchSig (6 + nLenR) nLenS) then false
        else CheckSignatureElement (firstn nLenS (skipn (6 + nLenR) vchSig)) true.

(** ** The machine *)

Record evalstate := EvalState {
  stack : list valtype;
  altstack : list valtype;
  vfExec : list bool;
  nOpCount : Z;
  codehash : list Z
}.

Definition set_stack (st : evalstate) (s : list valtype) : evalstate :=
  EvalState s (altstack st) (vfExec st) (nOpCount st) (codehash st).
Definition set_exec (st : evalstate) (e : list bool) : evalstate :=
  EvalState (stack st) (altstack st) e (nOpCount st) (codehash st).
Definition set_alt (st : evalstate) (s a : list valtype) : evalstate :=
  EvalState s a (vfExec st) (nOpCount st) (codehash st).
Definition set_count (st : evalstate) (n : Z) : evalstate :=
  EvalState (stack st) (altstack st) (vfExec st) n (codehash st).
Definition set_codehash (st : evalstate) (c : list Z) : evalstate :=
  EvalState (stack st) (altstack st) (vfExec st) (nOpCount st) c.

Definition is_disabled (op : opcodetype) : bool :=
  match op with
  | OP_CAT | OP_SUBSTR | OP_LEFT | OP_RIGHT | OP_INVERT | OP_AND | OP_OR | OP_XOR | OP_2MUL | OP_2DIV
  | OP_MUL | OP_DIV | OP_MOD | OP_LSHIFT | OP_RSHIFT => true
  | _ => false
  end.

Section EvalScript.
Context {L : BN_lib} {H : hash_lib}.

(** [CheckSig(vchSig, vchPubKey, scriptCode, txTo, nIn, nHashType)] for the
    transaction, input and hash type of the whole evaluation. *)
Context (CheckSig : valtype -> valtype -> list Z -> bool).

Definition CastToBigNum (vch : valtype) : option Z :=
  if nMaxNumSize <? zlen vch then None else Some (setvch (getvch (setvch vch))).

Definition bn_of_bool (b : bool) : Z := CBigNum_int (if b then 1 else 0).

(** The numeric operators; the disabled ones cannot be reached. *)
Definition numeric1 (op : opcodetype) (bn : Z) : Z :=
  match op with
  | OP_1ADD => BN_add bn (CBigNum_int 1)
  | OP_1SUB => BN_sub bn (CBigNum_int 1)
  | OP_NEGATE => - bn
  | OP_ABS => if bn_lt bn (CBigNum_int 0) then - bn else bn
  | OP_NOT => bn_of_bool (bn_eq bn (CBigNum_int 0))
  | _ => bn_of_bool (bn_ne bn (CBigNum_int 0))
  end.

Definition numeric2 (op : opcodetype) (bn1 bn2 : Z) : Z :=
  match op with
  | OP_ADD => BN_add bn1 bn2
  | OP_SUB => BN_sub bn1 bn2
  | OP_BOOLAND => bn_of_bool (bn_ne bn1 (CBigNum_int 0) && bn_ne bn2 (CBigNum_int 0))
  | OP_BOOLOR => bn_of_bool (bn_ne bn1 (CBigNum_int 0) || bn_ne bn2 (CBigNum_int 0))
  | OP_NUMEQUAL | OP_NUMEQUALVERIFY => bn_of_bool (bn_eq bn1 bn2)
  | OP_NUMNOTEQUAL => bn_of_bool (bn_ne bn1 bn2)
  | OP_LESSTHAN => bn_of_bool (bn_lt bn1 bn2)
  | OP_GREATERTHAN => bn_of_bool (bn_gt bn1 bn2)
  | OP_LESSTHANOREQUAL => bn_of_bool (bn_le bn1 bn2)
  | OP_GREATERTHANOREQUAL => bn_of_bool (bn_ge bn1 bn2)
  | OP_MIN => if bn_lt bn1 bn2 then bn1 else bn2
  | _ => if bn_gt bn1 bn2 then bn1 else bn2
  end.

Definition hash_op (op : opcodetype) (vch : valtype) : valtype :=
  match op with
  | OP_RIPEMD160 => RIPEMD160 vch
  | OP_SHA1 => SHA1 vch
  | OP_SHA256 => SHA256 vch
  | OP_HASH160 => uint_bytes (Hash160 vch)
  | _ => uint_bytes (Hash vch)
  end.

(** The test of one signature against one key. *)
Definition check_one (scriptCode : list Z) (vchSig vchPubKey : valtype) : bool :=
  IsCanonicalSignature vchSig && IsCanonicalPubKey vchPubKey && CheckSig vchSig vchPubKey scriptCode.

Definition drop_signature (scriptCode : list Z) (vchSig : valtype) : list Z :=
  snd (FindAndDelete scriptCode (push_data vchSig)).

(** The [...VERIFY] variants pop the result or fail. *)
Definition push_result (verify fSuccess : bool) (st : evalstate) (s : list valtype) : option evalstate :=
  if verify then if fSuccess then Some (set_stack st s) else None
  else Some (set_stack st (of_bool fSuccess :: s)).

(** The loop of [OP_CHECKMULTISIG]. *)
Fixpoint multisig_loop (scriptCode : list Z) (keys sigs : list valtype) : bool :=
  match sigs with
  | [] => true
  | vchSig :: sigs' =>
      match keys with
      | [] => false
      | vchPubKey :: keys =>
          let sigs := if check_one scriptCode vchSig vchPubKey then sigs' else sigs in
          if (length keys <? length sigs)%nat then false else multisig_loop scriptCode keys sigs
      end
  end.

Definition checkmultisig (verify : bool) (st : evalstate) : option evalstate :=
  let s := stack st in
  if zlen s <? 1 then None
  else match CastToBigNum (nth 0 s []) with None => None | Some bnKeys =>
  let nKeysCount := getint bnKeys in
  if (nKeysCount <? 0) || (20 <? nKeysCount) then None
  else
    let st := set_count st (nOpCount st + nKeysCount) in
    if 201 <? nOpCount st then None
    else
      let i := 2 + nKeysCount in
      if zlen s <? i then None
      else match CastToBigNum (nth (Z.to_nat (i - 1)) s []) with None => None | Some bnSigs =>
      let nSigsCount := getint bnSigs in
      if (nSigsCount <? 0) || (nKeysCount <? nSigsCount) then None
      else
        let isig := i + 1 in
        let i := isig + nSigsCount in
        if zlen s <? i then None
        else
          let keys := firstn (Z.to_nat nKeysCount) (skipn 1 s) in
          let sigs := firstn (Z.to_nat nSigsCount) (skipn (Z.to_nat (isig - 1)) s) in
          let scriptCode := fold_left drop_signature sigs (codehash st) in
          push_result verify (multisig_loop scriptCode keys sigs) st (skipn (Z.to_nat i) s)
      end
  end.

(** One case of the [switch]: [fExec] is the value before the instruction, [pc]
    the position after it. *)
Definition exec (op : opcodetype) (fExec : bool) (pc : list Z) (st : evalstate) : option evalstate :=
  let s := stack st in
  match op with
  | OP_1NEGATE | OP_1 | OP_2 | OP_3 | OP_4 | OP_5 | OP_6 | OP_7 | OP_8 | OP_9 | OP_10 | OP_11 | OP_12
  | OP_13 | OP_14 | OP_15 | OP_16 =>
      Some (set_stack st (getvch (CBigNum_int (op_byte op - (op_byte OP_1 - 1))) :: s))
  | OP_NOP | OP_NOP1 | OP_NOP2 | OP_NOP3 | OP_NOP4 | OP_NOP5 | OP_NOP6 | OP_NOP7 | OP_NOP8 | OP_NOP9
  | OP_NOP10 => Some st
  | OP_IF | OP_NOTIF =>
      if fExec then
        match s with
        | vch :: s =>
            let fValue := match op with OP_NOTIF => negb (CastToBool vch) | _ => CastToBool vch end in
            Some (set_exec (set_stack st s) (fValue :: vfExec st))
        | [] => None
        end
      else Some (set_exec st (false :: vfExec st))
  | OP_ELSE => match vfExec st with e :: es => Some (set_exec st (negb e :: es)) | [] => None end
  | OP_ENDIF => match vfExec st with _ :: es => Some (set_exec st es) | [] => None end
  | OP_VERIFY =>
      match s with vch :: s => if CastToBool vch then Some (set_stack st s) else None | [] => None end
  | OP_RETURN => None
  | OP_TOALTSTACK => match s with vch :: s => Some (set_alt st s (vch :: altstack st)) | [] => None end
  | OP_FROMALTSTACK =>
      match altstack st with vch :: a => Some (set_alt st (vch :: s) a) | [] => None end
  | OP_2DROP => match s with _ :: _ :: s => Some (set_stack st s) | _ => None end
  | OP_2DUP => match s with x2 :: x1 :: _ => Some (set_stack st (x2 :: x1 :: s)) | _ => None end
  | OP_3DUP => match s with x3 :: x2 :: x1 :: _ => Some (set_stack st (x3 :: x2 :: x1 :: s)) | _ => None end
  | OP_2OVER => match s with _ :: _ :: x2 :: x1 :: _ => Some (set_stack st (x2 :: x1 :: s)) | _ => None end
  | OP_2ROT =>
      match s with
      | x6 :: x5 :: x4 :: x3 :: x2 :: x1 :: s => Some (set_stack st (x2 :: x1 :: x6 :: x5 :: x4 :: x3 :: s))
      | _ => None
      end
  | OP_2SWAP => match s with x4 :: x3 :: x2 :: x1 :: s => Some (set_stack st (x2 :: x1 :: x4 :: x3 :: s)) | _ => None end
  | OP_IFDUP => match s with vch :: _ => Some (if CastToBool vch then set_stack st (vch :: s) else st) | [] => None end
  | OP_DEPTH => Some (set_stack st (getvch (CBigNum_int (zlen s)) :: s))
  | OP_DROP => match s with _ :: s => Some (set_stack st s) | [] => None end
  | OP_DUP => match s with vch :: _ => Some (set_stack st (vch :: s)) | [] => None end
  | OP_NIP => match s with x2 :: _ :: s => Some (set_stack st (x2 :: s)) | _ => None end
  | OP_OVER => match s with _ :: x1 :: _ => Some (set_stack st (x1 :: s)) | _ => None end
  | OP_PICK | OP_ROLL =>
      match s with
      | top :: _ :: _ =>
          match CastToBigNum top with
          | None => None
          | Some bn =>
              let n := getint bn in
              let s := skipn 1 s in
              if (n <? 0) || (zlen s <=? n) then None
              else
                let n := Z.to_nat n in
                let vch := nth n s [] in
                let s := match op with OP_ROLL => firstn n s ++ skipn (S n) s | _ => s end in
                Some (set_stack st (vch :: s))
          end
      | _ => None
      end
  | OP_ROT => match s with x3 :: x2 :: x1 :: s => Some (set_stack st (x1 :: x3 :: x2 :: s)) | _ => None end
  | OP_SWAP => match s with x2 :: x1 :: s => Some (set_stack st (x1 :: x2 :: s)) | _ => None end
  | OP_TUCK => match s with x2 :: x1 :: s => Some (set_stack st (x2 :: x1 :: x2 :: s)) | _ => None end
  | OP_SIZE => match s with vch :: _ => Some (set_stack st (getvch (CBigNum_int (zlen vch)) :: s)) | [] => None end
  | OP_EQUAL | OP_EQUALVERIFY =>
      match s with
      | vch2 :: vch1 :: s =>
          push_result (match op with OP_EQUALVERIFY => true | _ => false end) (list_eqb vch1 vch2) st s
      | _ => None
      end
  | OP_1ADD | OP_1SUB | OP_NEGATE | OP_ABS | OP_NOT | OP_0NOTEQUAL =>
      match s with
      | vch :: s =>
          match CastToBigNum vch with
          | None => None
          | Some bn => Some (set_stack st (getvch (numeric1 op bn) :: s))
          end
      | [] => None
      end
  | OP_ADD | OP_SUB | OP_BOOLAND | OP_BOOLOR | OP_NUMEQUAL | OP_NUMEQUALVERIFY | OP_NUMNOTEQUAL | OP_LESSTHAN
  | OP_GREATERTHAN | OP_LESSTHANOREQUAL | OP_GREATERTHANOREQUAL | OP_MIN | OP_MAX =>
      match s with
      | vch2 :: vch1 :: s =>
          match CastToBigNum vch1, CastToBigNum vch2 with
          | Some bn1, Some bn2 =>
              let out := getvch (numeric2 op bn1 bn2) in
              match op with
              | OP_NUMEQUALVERIFY => if CastToBool out then Some (set_stack st s) else None
              | _ => Some (set_stack st (out :: s))
              end
          | _, _ => None
          end
      | _ => None
      end
  | OP_WITHIN =>
      match s with
      | vch3 :: vch2 :: vch1 :: s =>
          match CastToBigNum vch1, CastToBigNum vch2, CastToBigNum vch3 with
          | Some bn1, Some bn2, Some bn3 =>
              Some (set_stack st (of_bool (bn_le bn2 bn1 && bn_lt bn1 bn3) :: s))
          | _, _, _ => None
          end
      | _ => None
      end
  | OP_RIPEMD160 | OP_SHA1 | OP_SHA256 | OP_HASH160 | OP_HASH256 =>
      match s with vch :: s => Some (set_stack st (hash_op op vch :: s)) | [] => None end
  | OP_CODESEPARATOR => Some (set_codehash st pc)
  | OP_CHECKSIG | OP_CHECKSIGVERIFY =>
      match s with
      | vchPubKey :: vchSig :: s =>
          let scriptCode := drop_signature (codehash st) vchSig in
          push_result (match op with OP_CHECKSIGVERIFY => true | _ => false end)
                      (check_one scriptCode vchSig vchPubKey) st s
      | _ => None
      end
  | OP_CHECKMULTISIG => checkmultisig false st
  | OP_CHECKMULTISIGVERIFY => checkmultisig true st
  | _ => None
  end.

(** An instruction that has been read: the tests, its effect, the size limits. *)
Definition instr (opcode : Z) (vchPushValue : valtype) (pc : list Z) (st : evalstate) : option evalstate :=
  let fExec := negb (existsb negb (vfExec st)) in
  if MAX_SCRIPT_ELEMENT_SIZE <? zlen vchPushValue then None
  else
    let st := if op_byte OP_16 <? opcode then set_count st (nOpCount st + 1) else st in
    if (op_byte OP_16 <? opcode) && (201 <? nOpCount st) then None
    else if is_disabled (op_of opcode) then None
    else
      match
        (if fExec && ((0 <=? opcode) && (opcode <=? op_byte OP_PUSHDATA4))
         then Some (set_stack st (vchPushValue :: stack st))
         else if fExec || ((op_byte OP_IF <=? opcode) && (opcode <=? op_byte OP_ENDIF))
         then exec (op_of opcode) fExec pc st
         else Some st)
      with
      | None => None
      | Some st => if 1000 <? zlen (stack st) + zlen (altstack st) then None else Some st
      end.

Definition eval_step (st : evalstate) (pc : list Z) : option (evalstate * list Z) :=
  match GetOp pc with
  | None => None
  | Some (opcode, vchPushValue, pc) =>
      match instr opcode vchPushValue pc st with
      | None => None
      | Some st => Some (st, pc)
      end
  end.

Fixpoint eval_loop (fuel : nat) (pc : list Z) (st : evalstate) : option evalstate :=
  match pc with
  | [] => Some st
  | _ =>
      match fuel with
      | O => None
      | S fuel => match eval_step st pc with None => None | Some (st, pc) => eval_loop fuel pc st end
      end
  end.

(** The stack after the evaluation, or [None] for [false]. *)
Definition EvalScript (stack0 : list valtype) (script : list Z) : option (list valtype) :=
  if 10000 <? zlen script then None
  else match eval_loop (length script) script (EvalState stack0 [] [] 0 script) with
  | None => None
  | Some st => match vfExec st with [] => Some (stack st) | _ => None end
  end.

Definition top_true (s : list valtype) : bool := match s with [] => false | v :: _ => CastToBool v end.

Definition VerifyScript (scriptSig scriptPubKey : list Z) : bool :=
  match EvalScript [] scriptSig with
  | None => false
  | Some stackCopy =>
      match EvalScript stackCopy scriptPubKey with
      | None => false
      | Some s =>
          if negb (top_true s) then false
          else if IsPayToScriptHash scriptPubKey then
            if negb (IsPushOnly scriptSig) then false
            else match stackCopy with
            | [] => false
            | pubKeySerialized :: stackCopy =>
                match EvalScript stackCopy pubKeySerialized with
                | None => false
                | Some s => top_true s
                end
            end
          else true
      end
  end.

End EvalScript.

(** ** Termination *)

Section Loop.
Context {L : BN_lib} {H : hash_lib} (CheckSig : valtype -> valtype -> list Z -> bool).

Lemma eval_step_shorter st pc st' pc' : eval_step CheckSig st pc = Some (st', pc') -> (length pc' < length pc)%nat.
Proof.
  unfold eval_step; destruct (GetOp pc) as [[[op v] rest]|] eqn:E; [|discriminate].
  destruct (instr _ op v rest st); [|discriminate]; intros Heq.
  assert (rest = pc') as <- by (inversion Heq; reflexivity); exact (GetOp_shorter _ _ _ _ E).
Qed.

(** The evaluation of [pc] with as much fuel as it can use. *)
Definition eval (pc : list Z) (st : evalstate) : option evalstate := eval_loop CheckSig (length pc) pc st.

(** More fuel than bytes changes nothing. *)
Lemma eval_loop_fuel n m pc st : (length pc <= n)%nat -> (length pc <= m)%nat ->
  eval_loop CheckSig n pc st = eval_loop CheckSig m pc st.
Proof.
  revert m pc st; induction n as [|n IH]; intros m pc st Hn Hm; destruct pc as [|b pc]; try (cbn in Hn; lia);
    destruct m; try (cbn in Hm; lia); try reflexivity.
  cbn [eval_loop]; destruct (eval_step CheckSig st (b :: pc)) as [[st' pc']|] eqn:E; [|reflexivity].
  apply eval_step_shorter in E; apply IH; cbn [length] in *; lia.
Qed.

Lemma eval_cons pc st : pc <> [] ->
  eval pc st = match eval_step CheckSig st pc with None => None | Some (st, pc) => eval pc st end.
Proof.
  intros Hn; unfold eval; destruct pc as [|b pc]; [congruence|]; cbn [eval_loop length].
  destruct (eval_step CheckSig st (b :: pc)) as [[st' pc']|] eqn:E; [|reflexivity].
  apply eval_step_shorter in E; apply eval_loop_fuel; cbn [length] in E; lia.
Qed.

(** The machine as a transition relation. *)
Inductive reaches : evalstate -> list Z -> evalstate -> list Z -> Prop :=
  | reaches_refl st pc : reaches st pc st pc
  | reaches_step st pc st1 pc1 st2 pc2 :
      eval_step CheckSig st pc = Some (st1, pc1) -> reaches st1 pc1 st2 pc2 -> reaches st pc st2 pc2.

Lemma eval_reaches pc st st' : eval pc st = Some st' <-> reaches st pc st' [].
Proof.
  split.
  - remember (length pc) as n eqn:Hn; revert pc st Hn; induction n as [n IH] using lt_wf_ind; intros pc st Hn E.
    destruct pc as [|b pc]; [injection E as <-; constructor|]; rewrite eval_cons in E by discriminate.
    destruct (eval_step CheckSig st (b :: pc)) as [[st1 pc1]|] eqn:Es; [|discriminate].
    eapply reaches_step; [exact Es|]; pose proof (eval_step_shorter _ _ _ _ Es).
    eapply IH; [|reflexivity | exact E]; lia.
  - intros Hr; remember [] as pc' eqn:Hpc; induction Hr as [st pc|st pc st1 pc1 st2 pc2 Es Hr IH]; [now subst|].
    destruct pc as [|b pc]; [discriminate|]; rewrite eval_cons, Es by discriminate; now apply IH.
Qed.

Lemma eval_item i rest st : item_valid i ->
  eval (item_bytes i ++ rest) st =
  match instr CheckSig (fst (item_instr i)) (snd (item_instr i)) rest st with
  | None => None
  | Some st => eval rest st
  end.
Proof.
  intros Hi; rewrite eval_cons.
  - unfold eval_step; rewrite GetOp_item by assumption; now destruct (instr _ _ _ rest st).
  - pose proof (GetOp_item i rest Hi) as E; intros Hn; rewrite Hn in E; discriminate.
Qed.

End Loop.

(** ** Bounds *)

Section Invariant.
Context {L : BN_lib} {HL : BN_laws L} {H : hash_lib} {HH : hash_laws H}.
Context (CheckSig : valtype -> valtype -> list Z -> bool).

Definition elem_ok (v : valtype) : Prop := words 8 v /\ zlen v <= MAX_SCRIPT_ELEMENT_SIZE.

(** What holds between two instructions. *)
Definition body_ok (st : evalstate) : Prop :=
  Forall elem_ok (stack st) /\ Forall elem_ok (altstack st) /\ 0 <= nOpCount st <= 201.

Definition state_ok (st : evalstate) : Prop := body_ok st /\ zlen (stack st) + zlen (altstack st) <= 1000.

Lemma bn_vch_ok z : Z.abs z <= 2 ^ 64 -> elem_ok (getvch z).
Proof.
  intros Hz; assert (Hs : bn_small z) by (apply (bn_small_below z 64); lia).
  rewrite getvch_spec by assumption; split; [apply Forall_rev, mpi_body_bytes|].
  unfold zlen; rewrite length_rev; destruct (Z.eq_dec z 0) as [-> | Hn]; [cbn; unfold MAX_SCRIPT_ELEMENT_SIZE; lia|].
  pose proof (size_log2 z Hn) as Hl; unfold mpi_size in Hl; unfold MAX_SCRIPT_ELEMENT_SIZE.
  assert (Z.log2 (Z.abs z) <= 64) by (exact (Z.log2_le_mono _ (2 ^ 64) Hz)); lia.
Qed.

Lemma CastToBigNum_spec v z : elem_ok v -> CastToBigNum v = Some z ->
  z = mpi_value (rev v) /\ Z.abs z <= 2 ^ 32.
Proof.
  intros [Hv _]; unfold CastToBigNum, nMaxNumSize, zlen; destruct (Z.ltb_spec 4 (Z.of_nat (length v))); [discriminate|].
  pose proof (mpi_value_bound (rev v) (Forall_rev Hv)) as Hb; rewrite length_rev in Hb.
  assert (Hb' : Z.abs (mpi_value (rev v)) <= 2 ^ 32).
  { apply Z.le_trans with (1 := Hb), Z.pow_le_mono_r; lia. }
  rewrite (setvch_spec v) by (assumption || lia).
  rewrite setvch_getvch by (apply (bn_small_below _ 32); lia); intros [= <-]; auto.
Qed.

Lemma of_bool_ok b : elem_ok (of_bool b).
Proof. destruct b; split; [words_dec | cbn; unfold MAX_SCRIPT_ELEMENT_SIZE; lia | constructor | cbn; unfold MAX_SCRIPT_ELEMENT_SIZE; lia]. Qed.

Lemma bn_of_bool_spec (b : bool) : bn_of_bool b = if b then 1 else 0.
Proof. unfold bn_of_bool; rewrite CBigNum_int_spec by (destruct b; lia); now destruct b. Qed.

Lemma numeric1_bound op z : Z.abs z <= 2 ^ 32 -> Z.abs (numeric1 op z) <= 2 ^ 64.
Proof.
  intros Hz; unfold numeric1; rewrite ?add_law, ?sub_law, ?CBigNum_int_spec by lia; rewrite ?bn_of_bool_spec.
  destruct op; try lia; repeat match goal with |- context [if ?b then _ else _] => destruct b end; lia.
Qed.

Lemma numeric2_bound op a b : Z.abs a <= 2 ^ 32 -> Z.abs b <= 2 ^ 32 -> Z.abs (numeric2 op a b) <= 2 ^ 64.
Proof.
  intros Ha Hb; unfold numeric2; rewrite ?add_law, ?sub_law, ?bn_of_bool_spec.
  destruct op; try lia; repeat match goal with |- context [if ?b then _ else _] => destruct b end; lia.
Qed.

Lemma uint_bytes_ok n a : wf n a -> (n <= 130)%nat -> elem_ok (uint_bytes a).
Proof.
  intros Ha Hn; split; [apply uint_bytes_words|]; unfold zlen; fold (size_of (uint_bytes a)).
  rewrite (size_uint_bytes n) by assumption; unfold MAX_SCRIPT_ELEMENT_SIZE; lia.
Qed.

Lemma uint_of_bytes_wf n v : words 8 v -> length v = (n * 4)%nat -> wf n (uint_of_bytes n v).
Proof.
  intros Hv Hl; rewrite <- (le_split_combine v Hv), Hl; apply uint_of_bytes_spec.
  apply (le_combine_inw v Hv).
Qed.

Lemma hash_op_ok op v : elem_ok v -> elem_ok (hash_op op v).
Proof.
  intros [Hv _]; pose proof (SHA256_bytes v Hv) as [H1 L1]; pose proof (SHA256_bytes _ H1) as [H2 L2].
  pose proof (RIPEMD160_bytes _ H1) as [H3 L3]; pose proof (RIPEMD160_bytes _ Hv) as [H4 L4].
  pose proof (SHA1_bytes _ Hv) as [H5 L5].
  assert (elem_ok (uint_bytes (Hash v))) by (apply (uint_bytes_ok 8); [now apply uint_of_bytes_wf | lia]).
  assert (elem_ok (uint_bytes (Hash160 v))) by (apply (uint_bytes_ok 5); [now apply uint_of_bytes_wf | lia]).
  unfold hash_op; destruct op; try assumption; split; try assumption; unfold zlen, MAX_SCRIPT_ELEMENT_SIZE; lia.
Qed.

Lemma push_result_ok verify b st s st' :
  Forall elem_ok s -> body_ok st -> push_result verify b st s = Some st' -> body_ok st'.
Proof.
  intros Hs (_ & Ha & Hc); unfold push_result; destruct verify; [destruct b; [|discriminate]|]; intros [= <-].
  - split; [exact Hs | split; [exact Ha | exact Hc]].
  - split; [constructor; [apply of_bool_ok | exact Hs] | split; [exact Ha | exact Hc]].
Qed.

Lemma Forall_skipn {A} (P : A -> Prop) n l : Forall P l -> Forall P (skipn n l).
Proof. intros Hl; rewrite <- (firstn_skipn n l) in Hl; now apply Forall_app in Hl. Qed.

Lemma Forall_firstn {A} (P : A -> Prop) n l : Forall P l -> Forall P (firstn n l).
Proof. intros Hl; rewrite <- (firstn_skipn n l) in Hl; now apply Forall_app in Hl. Qed.

Lemma checkmultisig_ok verify st st' : body_ok st -> checkmultisig CheckSig verify st = Some st' -> body_ok st'.
Proof.
  intros (Hs & Ha & Hc); unfold checkmultisig; cbn [stack altstack nOpCount set_count codehash].
  destruct (_ <? 1); [discriminate|]; destruct (CastToBigNum (nth 0 (stack st) [])) as [z|]; [|discriminate].
  destruct (Z.ltb_spec (getint z) 0), (Z.ltb_spec 20 (getint z)); try discriminate; cbn [orb].
  destruct (Z.ltb_spec 201 (nOpCount st + getint z)); [discriminate|].
  destruct (_ <? _); [discriminate|]; destruct (CastToBigNum _) as [z2|]; [|discriminate].
  destruct (_ || _); [discriminate|]; destruct (_ <? _); [discriminate|].
  apply push_result_ok; [now apply Forall_skipn|]; split; [exact Hs | split; [exact Ha | cbn [nOpCount set_count]; lia]].
Qed.

(** Splitting a hypothesis [E : ... = Some st'] on what it tests. *)
Ltac split_match E :=
  repeat match type of E with
  | context [match ?x with _ => _ end] => destruct x eqn:?; try discriminate E
  end.

Lemma numbers_ok op v z : elem_ok v -> CastToBigNum v = Some z -> elem_ok (getvch (numeric1 op z)).
Proof. intros Hv E; apply bn_vch_ok, numeric1_bound; exact (proj2 (CastToBigNum_spec v z Hv E)). Qed.

Lemma numbers2_ok op v z w y : elem_ok v -> CastToBigNum v = Some z -> elem_ok w -> CastToBigNum w = Some y ->
  elem_ok (getvch (numeric2 op z y)).
Proof.
  intros Hv E Hw E'; apply bn_vch_ok, numeric2_bound;
    [exact (proj2 (CastToBigNum_spec v z Hv E)) | exact (proj2 (CastToBigNum_spec w y Hw E'))].
Qed.

Lemma int_vch_ok n : - 2 ^ 63 <= n < 2 ^ 63 -> elem_ok (getvch (CBigNum_int n)).
Proof. intros Hn; rewrite CBigNum_int_spec by assumption; apply bn_vch_ok; lia. Qed.

Lemma nth_ok n s : Forall elem_ok s -> elem_ok (nth n s []).
Proof.
  intros Hs; destruct (Nat.lt_ge_cases n (length s)) as [Hn|Hn].
  - rewrite Forall_forall in Hs; now apply Hs, nth_In.
  - rewrite nth_overflow by assumption; exact (of_bool_ok false).
Qed.

Lemma roll_ok n s : Forall elem_ok s -> Forall elem_ok (firstn n s ++ skipn (S n) s).
Proof. intros Hs; apply Forall_app; split; [now apply Forall_firstn | now apply Forall_skipn]. Qed.

Ltac elem_solve :=
  match goal with
  | |- elem_ok (of_bool _) => apply of_bool_ok
  | |- elem_ok (hash_op _ _) => apply hash_op_ok; assumption
  | |- elem_ok (nth _ _ _) => apply nth_ok; cbn [skipn]; stack_ok
  | |- Forall elem_ok (firstn _ _ ++ skipn _ _) => apply roll_ok; cbn [skipn]; stack_ok
  | |- Forall elem_ok (skipn _ _) => cbn [skipn]; stack_ok
  | E : CastToBigNum ?v = Some ?a |- elem_ok (getvch (numeric1 _ ?a)) => apply (numbers_ok _ v a); assumption
  | Ea : CastToBigNum ?v = Some ?a, Eb : CastToBigNum ?w = Some ?b |- elem_ok (getvch (numeric2 _ ?a ?b)) =>
      apply (numbers2_ok _ v a w b); assumption
  | Hv : elem_ok ?v |- elem_ok (getvch (CBigNum_int (zlen ?v))) =>
      apply int_vch_ok; pose proof (zlen_nonneg v); destruct Hv; unfold MAX_SCRIPT_ELEMENT_SIZE in *; lia
  | |- elem_ok (getvch (CBigNum_int _)) => apply int_vch_ok; cbn [op_byte]; lia
  | |- _ => assumption
  end
with stack_ok :=
  repeat match goal with
  | Hf : Forall _ (_ :: _) |- _ => apply Forall_cons_iff in Hf as [? Hf]
  | |- Forall _ (_ :: _) => apply Forall_cons
  end; elem_solve.

Lemma Some_inj {A} (x y : A) : Some x = Some y -> x = y.
Proof. now intros [= ->]. Qed.

Lemma exec_ok op fExec pc st st' :
  state_ok st -> exec CheckSig op fExec pc st = Some st' -> body_ok st'.
Proof.
  intros [(Hs & Ha & Hc) Hlen] E; assert (Hb : body_ok st) by (split; [exact Hs | split; [exact Ha | exact Hc]]).
  pose proof (zlen_nonneg (altstack st)); pose proof (zlen_nonneg (stack st)).
  destruct op; cbn [exec] in E; try discriminate E;
    first [ now apply checkmultisig_ok in E
          | split_match E;
            first [ apply push_result_ok in E; [exact E | stack_ok | exact Hb]
                  | apply Some_inj in E; subst st'; exact Hb
                  | apply Some_inj in E; subst st'; split; [|split]; cbn [stack altstack nOpCount set_stack set_exec set_alt set_codehash];
                    [| |exact Hc]; stack_ok ] ].
Qed.

Lemma instr_ok op v pc st st' :
  words 8 v -> state_ok st -> instr CheckSig op v pc st = Some st' -> state_ok st'.
Proof.
  intros Hv ((Hs & Ha & Hc) & Hlen) E; unfold instr in E.
  destruct (Z.ltb_spec MAX_SCRIPT_ELEMENT_SIZE (zlen v)); [discriminate|].
  set (st1 := if op_byte OP_16 <? op then set_count st (nOpCount st + 1) else st) in E.
  destruct ((op_byte OP_16 <? op) && (201 <? nOpCount st1)) eqn:Ec; [discriminate|].
  assert (H1 : state_ok st1).
  { unfold st1 in *; destruct (op_byte OP_16 <? op); [|split; [split; [exact Hs | split; [exact Ha | exact Hc]] | exact Hlen]].
    cbn [andb] in Ec; apply Z.ltb_ge in Ec; cbn [nOpCount set_count] in Ec.
    split; [split; [exact Hs | split; [exact Ha | cbn [nOpCount set_count]; lia]] | exact Hlen]. }
  clearbody st1; destruct (is_disabled (op_of op)); [discriminate|].
  set (r := if _ && _ then _ else _) in E; assert (Hr : forall st2, r = Some st2 -> body_ok st2).
  { unfold r; intros st2 E2; destruct H1 as [(Hs1 & Ha1 & Hc1) Hl1].
    match type of E2 with (if ?b then _ else if ?c then _ else _) = _ => destruct b; [|destruct c] end.
    - apply Some_inj in E2; subst st2; split; [|split; [exact Ha1 | exact Hc1]].
      cbn [stack set_stack]; apply Forall_cons; [now split | exact Hs1].
    - apply exec_ok in E2; [exact E2 | split; [split; [exact Hs1 | split; [exact Ha1 | exact Hc1]] | exact Hl1]].
    - apply Some_inj in E2; subst st2; split; [exact Hs1 | split; [exact Ha1 | exact Hc1]]. }
  clearbody r; destruct r as [st2|]; [|discriminate]; specialize (Hr st2 eq_refl).
  destruct (Z.ltb_spec 1000 (zlen (stack st2) + zlen (altstack st2))); [discriminate|].
  apply Some_inj in E; subst st'; split; [exact Hr | lia].
Qed.

Lemma reaches_ok st pc st' pc' : reaches CheckSig st pc st' pc' -> words 8 pc -> state_ok st -> state_ok st' /\ words 8 pc'.
Proof.
  induction 1 as [st pc|st pc st1 pc1 st2 pc2 Es Hr IH]; intros Hb Hok; [now split|].
  unfold eval_step in Es; destruct (GetOp pc) as [[[op v] rest]|] eqn:Eg; [|discriminate].
  destruct (GetOp_bytes _ _ _ _ Hb Eg) as (_ & Hv & Hrest).
  destruct (instr CheckSig op v rest st) as [st3|] eqn:Ei; [|discriminate].
  apply Some_inj in Es; assert (st3 = st1) as -> by exact (f_equal fst Es).
  assert (rest = pc1) as -> by exact (f_equal snd Es).
  apply IH; [exact Hrest | exact (instr_ok _ _ _ _ _ Hv Hok Ei)].
Qed.

Lemma init_ok s0 script : Forall elem_ok s0 -> zlen s0 <= 1000 -> state_ok (EvalState s0 [] [] 0 script).
Proof.
  intros Hs Hl; split; [split; [exact Hs | split; [constructor | cbn [nOpCount]; lia]]|].
  cbn [stack altstack]; change (zlen (@nil valtype)) with 0; lia.
Qed.

(** C20: The interpreter as a machine.  [EvalScript] always terminates, and
    returns true with a stack exactly when the machine, started on that
    script of at most 10000 bytes, reaches the end of the script with no
    open conditional and that stack.  In every state on the way the two
    stacks hold at most 1000 elements together, no element is longer than 520 bytes, and
    at most 201 operations have been counted, whatever the script and the
    outcome of the signature checks. *)
Theorem EvalScript_machine (s0 : list valtype) (script : list Z) :
  words 8 script -> Forall elem_ok s0 -> zlen s0 <= 1000 ->
  (forall s, EvalScript CheckSig s0 script = Some s <->
     zlen script <= 10000 /\ exists st, reaches CheckSig (EvalState s0 [] [] 0 script) script st []
                                        /\ vfExec st = [] /\ stack st = s)
  /\ (forall st pc, reaches CheckSig (EvalState s0 [] [] 0 script) script st pc ->
        zlen (stack st) + zlen (altstack st) <= 1000
        /\ Forall (fun v => words 8 v /\ zlen v <= 520) (stack st ++ altstack st)
        /\ 0 <= nOpCount st <= 201).
Proof.
  intros Hb Hs Hl; split.
  - intros s; unfold EvalScript; fold (eval CheckSig script (EvalState s0 [] [] 0 script)).
    destruct (Z.ltb_spec 10000 (zlen script)) as [Hz|Hz]; [split; [discriminate | intros [? _]; lia]|].
    split.
    + destruct (eval CheckSig script _) as [st|] eqn:E; [|discriminate]; apply eval_reaches in E.
      destruct (vfExec st) eqn:Ev; [|discriminate]; intros Hst; apply Some_inj in Hst.
      split; [lia|]; exists st; auto.
    + intros (_ & st & Hr & Ev & <-); apply eval_reaches in Hr; now rewrite Hr, Ev.
  - intros st pc Hr; destruct (reaches_ok _ _ _ _ Hr Hb (init_ok s0 script Hs Hl)) as [[(Ho & Ha & Hc) Hz] _].
    split; [exact Hz | split; [|exact Hc]]; apply Forall_app; split; [exact Ho | exact Ha].
Qed.

End Invariant.

(** The script [2 3 OP_ADD 5 OP_NUMEQUAL]. *)
Lemma EvalScript_machine_witness :
  EvalScript (L := BN_ideal) (H := toy_hash) (fun _ _ _ => false) [] [0x52; 0x53; 0x93; 0x55; 0x9c] = Some [[1]]
  /\ exists st, reaches (L := BN_ideal) (H := toy_hash) (fun _ _ _ => false)
       (EvalState [] [] [] 0 [0x52; 0x53; 0x93; 0x55; 0x9c]) [0x52; 0x53; 0x93; 0x55; 0x9c] st [] /\ stack st = [[1]].
Proof.
  destruct (EvalScript_machine (L := BN_ideal) (H := toy_hash) (fun _ _ _ => false) [] [0x52; 0x53; 0x93; 0x55; 0x9c])
    as [H1 _]; [words_dec | constructor | vm_compute; discriminate |].
  assert (E : EvalScript (L := BN_ideal) (H := toy_hash) (fun _ _ _ => false) [] [0x52; 0x53; 0x93; 0x55; 0x9c] = Some [[1]])
    by (vm_compute; reflexivity).
  split; [exact E|]; apply H1 in E as (_ & st & Hr & _ & Hst); exists st; split; [exact Hr | exact Hst].
Defined.

(** ** Standard spends *)

(** A string that no instruction of a script starts with. *)
Inductive no_match (b : list Z) : list Z -> Prop :=
  | no_match_end : no_match b []
  | no_match_step pc op v next : starts_with b pc = false -> GetOp pc = Some (op, v, next) ->
      no_match b next -> no_match b pc.

Lemma delete_loop_id b pc n fuel : b <> [] -> no_match b pc -> (length pc <= fuel)%nat ->
  delete_loop fuel b n pc = (n, pc).
Proof.
  intros Hb Hm; revert fuel; induction Hm as [|pc op v next Hs Eg Hm IH]; intros fuel Hf.
  { destruct fuel; reflexivity. }
  assert (He : erase_loop (length pc) b n pc = (n, pc)) by (destruct pc; cbn [length erase_loop]; [reflexivity | now rewrite Hs]).
  pose proof (GetOp_shorter _ _ _ _ Eg); destruct fuel; [lia|].
  cbn [delete_loop]; rewrite He, Eg, IH by lia; f_equal.
  destruct (GetOp_suffix _ _ _ _ Eg) as (used & -> & _).
  replace (length (used ++ next) - length next)%nat with (length used) by (rewrite length_app; lia).
  now rewrite firstn_app, Nat.sub_diag, firstn_all, app_nil_r.
Qed.

Lemma FindAndDelete_id script b : b <> [] -> no_match b script -> FindAndDelete script b = (0, script).
Proof. intros Hb Hm; unfold FindAndDelete; destruct b; [congruence|]; now apply delete_loop_id. Qed.

Definition p2pkh (h : valtype) : list Z :=
  flat_map item_bytes [Op OP_DUP; Op OP_HASH160; Push h; Op OP_EQUALVERIFY; Op OP_CHECKSIG].
Definition p2sh (h : valtype) : list Z := flat_map item_bytes [Op OP_HASH160; Push h; Op OP_EQUAL].

(** These are the scripts that [SetDestination] makes. *)
Lemma p2pkh_destination h : wf 5 h -> fst (SetDestination (CKeyID h)) = p2pkh (uint_bytes h).
Proof.
  intros Hh; destruct (uint_bytes_vch h Hh) as [Hl _]; cbn [SetDestination fst]; set (v := uint_bytes h) in *; clearbody v.
  split20 v Hl; reflexivity.
Qed.

Lemma p2sh_destination h : wf 5 h -> fst (SetDestination (CScriptID h)) = p2sh (uint_bytes h).
Proof.
  intros Hh; destruct (uint_bytes_vch h Hh) as [Hl _]; cbn [SetDestination fst]; set (v := uint_bytes h) in *; clearbody v.
  split20 v Hl; reflexivity.
Qed.

Lemma drop_signature_p2pkh h sig : length h = 20%nat -> 9 <= zlen sig <= 73 -> zlen sig <> 20 ->
  drop_signature (p2pkh h) sig = p2pkh h.
Proof.
  intros Hl Hs Hn; unfold drop_signature; rewrite FindAndDelete_id; [reflexivity | |].
  - unfold push_data; rewrite (proj2 (Z.ltb_lt _ _)) by (cbn; lia); discriminate.
  - unfold push_data; rewrite (proj2 (Z.ltb_lt _ _)), u8_small by (cbn; lia); cbn [app].
    assert (Hb : forall x t, zlen sig <> x -> starts_with (zlen sig :: sig) (x :: t) = false).
    { intros x t Hx; cbn [starts_with]; now rewrite (proj2 (Z.eqb_neq _ _) Hx). }
    split20 h Hl; unfold p2pkh.
    do 5 (eapply no_match_step; [apply Hb; cbn; lia | reflexivity |]); apply no_match_end.
Qed.

Section Spends.
Context {L : BN_lib} {HL : BN_laws L} {H : hash_lib} {HH : hash_laws H}.
Context (CheckSig : valtype -> valtype -> list Z -> bool).

Lemma canonical_size sig : IsCanonicalSignature sig = true -> 9 <= zlen sig <= 73.
Proof.
  unfold IsCanonicalSignature, zlen; destruct (Nat.ltb_spec (length sig) 9); [discriminate|].
  destruct (Nat.ltb_spec 73 (length sig)); [discriminate | intros _; lia].
Qed.

Lemma check_one_p2pkh h sig pk : length h = 20%nat -> zlen sig <> 20 ->
  check_one CheckSig (drop_signature (p2pkh h) sig) sig pk = check_one CheckSig (p2pkh h) sig pk.
Proof.
  intros Hl Hn; unfold check_one; destruct (IsCanonicalSignature sig) eqn:E; [|reflexivity].
  now rewrite drop_signature_p2pkh by (assumption || now apply canonical_size).
Qed.

(** A push while no conditional is open. *)
Lemma instr_push v pc s n c : zlen v <= 520 -> zlen s < 1000 ->
  instr CheckSig (push_opcode v) v pc (EvalState s [] [] n c) = Some (EvalState (v :: s) [] [] n c).
Proof.
  intros Hv Hs; pose proof (zlen_nonneg v); unfold instr; cbn [vfExec existsb negb].
  unfold MAX_SCRIPT_ELEMENT_SIZE; rewrite (proj2 (Z.ltb_ge _ _)) by lia.
  assert (Hop : 0 <= push_opcode v <= op_byte OP_PUSHDATA4).
  { unfold push_opcode, push_data; destruct (Z.ltb_spec (zlen v) (op_byte OP_PUSHDATA1)); cbn [op_byte] in *.
    - rewrite u8_small by lia; cbn; lia.
    - destruct (_ <=? _); [cbn; lia|]; destruct (_ <=? _); cbn; lia. }
  rewrite (proj2 (Z.ltb_ge (op_byte OP_16) _)) by (cbn [op_byte] in *; lia); cbn [andb].
  assert (Hd : is_disabled (op_of (push_opcode v)) = false).
  { pose proof (byte_all (fun o => implb (o <=? 0x4e) (negb (is_disabled (op_of o)))) eq_refl (push_opcode v)) as Hall.
    cbn beta in Hall; cbn [op_byte] in Hop; rewrite (proj2 (Z.leb_le (push_opcode v) 0x4e)) in Hall by lia.
    destruct (is_disabled _); [|reflexivity]; discriminate Hall; unfold inw; lia. }
  rewrite Hd, (proj2 (Z.leb_le 0 _)), (proj2 (Z.leb_le _ (op_byte OP_PUSHDATA4))) by lia.
  cbn [andb stack altstack set_stack vfExec nOpCount codehash].
  change (zlen (@nil valtype)) with 0; unfold zlen in *; cbn [length].
  rewrite (proj2 (Z.ltb_ge _ _)) by lia; reflexivity.
Qed.

Lemma eval_pushes vs rest s n c : Forall (fun v => zlen v <= 520) vs -> zlen s + zlen vs <= 1000 ->
  eval CheckSig (flat_map push_data vs ++ rest) (EvalState s [] [] n c)
  = eval CheckSig rest (EvalState (rev vs ++ s) [] [] n c).
Proof.
  intros Hv; revert s; induction Hv as [|v vs Hv Hvs IH]; intros s Hs; [reflexivity|].
  cbn [flat_map rev]; rewrite <- !app_assoc; change (push_data v) with (item_bytes (Push v)).
  unfold zlen in Hs; cbn [length] in Hs.
  rewrite eval_item by (cbn [item_valid]; lia); cbn [item_instr fst snd].
  rewrite instr_push by (assumption || (unfold zlen; lia)); rewrite IH by (unfold zlen; cbn [length]; lia); reflexivity.
Qed.

Lemma EvalScript_pushes vs : Forall (fun v => zlen v <= 520) vs -> zlen vs <= 1000 ->
  zlen (flat_map push_data vs) <= 10000 ->
  EvalScript CheckSig [] (flat_map push_data vs) = Some (rev vs).
Proof.
  intros Hv Hn Hl; unfold EvalScript; rewrite (proj2 (Z.ltb_ge _ _)) by lia.
  fold (eval CheckSig (flat_map push_data vs) (EvalState [] [] [] 0 (flat_map push_data vs))).
  pose proof (eval_pushes vs [] [] 0 (flat_map push_data vs) Hv) as E; rewrite !app_nil_r in E.
  rewrite E by (change (zlen (@nil valtype)) with 0; lia); reflexivity.
Qed.

Lemma pushes_are_push_only vs : Forall (fun v => zlen v <= 520) vs -> IsPushOnly (flat_map push_data vs) = true.
Proof.
  intros Hv; unfold IsPushOnly.
  assert (Hp : parses (flat_map push_data vs) (map (fun v => (push_opcode v, v)) vs) true).
  { replace (flat_map push_data vs) with (flat_map item_bytes (map Push vs)) by (rewrite flat_map_concat_map, map_map, <- flat_map_concat_map; reflexivity).
    replace (map (fun v => (push_opcode v, v)) vs) with (map item_instr (map Push vs)) by now rewrite map_map.
    apply parses_items, Forall_map; eapply Forall_impl; [|exact Hv]; cbn [item_valid]; intros; lia. }
  rewrite (push_only_parses _ _ _ _ Hp (le_n _)); cbn [andb]; unfold pushes_only.
  apply forallb_forall; intros i Hi; apply in_map_iff in Hi as (v & <- & Hin); cbn [fst].
  rewrite Forall_forall in Hv; specialize (Hv v Hin); pose proof (zlen_nonneg v).
  apply Z.leb_le; unfold push_opcode, push_data; destruct (Z.ltb_spec (zlen v) (op_byte OP_PUSHDATA1)); cbn [op_byte] in *.
  - rewrite u8_small by lia; cbn; lia.
  - destruct (_ <=? _); [cbn; lia|]; destruct (_ <=? _); cbn; lia.
Qed.


(** An operation while no conditional is open. *)
Lemma instr_exec op pc s a n c : op_byte OP_16 < op_byte op -> is_disabled op = false -> 0 <= n < 201 ->
  instr CheckSig (op_byte op) [] pc (EvalState s a [] n c) =
  match exec CheckSig op true pc (EvalState s a [] (n + 1) c) with
  | None => None
  | Some st => if 1000 <? zlen (stack st) + zlen (altstack st) then None else Some st
  end.
Proof.
  intros Hop Hd Hn; unfold instr; cbn [vfExec existsb negb]; change (zlen []) with 0.
  rewrite (proj2 (Z.ltb_ge MAX_SCRIPT_ELEMENT_SIZE 0)) by (unfold MAX_SCRIPT_ELEMENT_SIZE; lia).
  rewrite (proj2 (Z.ltb_lt _ _) Hop); cbn [andb nOpCount set_count].
  rewrite (proj2 (Z.ltb_ge 201 _)), op_of_byte, Hd by lia.
  rewrite (proj2 (Z.leb_gt (op_byte op) (op_byte OP_PUSHDATA4))) by (cbn [op_byte] in *; lia).
  rewrite andb_false_r; cbn [andb orb stack altstack vfExec codehash]; reflexivity.
Qed.

(** One item of a script written with [operator<<]. *)
Lemma eval_items i items st : item_valid i ->
  eval CheckSig (flat_map item_bytes (i :: items)) st =
  match instr CheckSig (fst (item_instr i)) (snd (item_instr i)) (flat_map item_bytes items) st with
  | None => None
  | Some st => eval CheckSig (flat_map item_bytes items) st
  end.
Proof. intros Hi; cbn [flat_map]; now apply eval_item. Qed.

Lemma limit_ok (s : list valtype) : zlen s <= 1000 -> (1000 <? zlen s + zlen (@nil valtype)) = false.
Proof. intros Hs; change (zlen (@nil valtype)) with 0; apply Z.ltb_ge; lia. Qed.

Ltac run_op :=
  rewrite eval_items by (cbn; lia); cbn [item_instr fst snd];
  rewrite instr_exec by (cbn; (reflexivity || lia)); cbn [exec stack altstack push_result]; unfold push_result, set_stack; cbn [stack altstack vfExec nOpCount codehash];
  rewrite ?limit_ok by (unfold zlen in *; cbn [length]; lia); cbn beta iota.

Ltac run_push :=
  rewrite eval_items by (cbn [item_valid]; unfold zlen; lia); cbn [item_instr fst snd];
  rewrite instr_push by (unfold zlen in *; cbn [length]; lia); cbn beta iota.

Lemma eval_p2pkh h sig pk rest c : length h = 20%nat -> zlen rest <= 996 ->
  eval CheckSig (p2pkh h) (EvalState (pk :: sig :: rest) [] [] 0 c) =
  if list_eqb (uint_bytes (Hash160 pk)) h
  then Some (EvalState (of_bool (check_one CheckSig (drop_signature c sig) sig pk) :: rest) [] [] 4 c) else None.
Proof.
  intros Hl Hr; unfold p2pkh; run_op; run_op; run_push.
  rewrite eval_items by (cbn; lia); cbn [item_instr fst snd].
  rewrite instr_exec by (cbn; (reflexivity || lia)); cbn [exec stack altstack hash_op]; unfold push_result, set_stack; cbn [stack altstack vfExec nOpCount codehash].
  destruct (list_eqb _ h); [|reflexivity]; cbn [stack altstack].
  rewrite limit_ok by (unfold zlen in *; cbn [length]; lia); cbn beta iota; run_op; reflexivity.
Qed.

Lemma eval_p2sh h v rest c : length h = 20%nat -> zlen rest <= 996 ->
  eval CheckSig (p2sh h) (EvalState (v :: rest) [] [] 0 c) =
  Some (EvalState (of_bool (list_eqb (uint_bytes (Hash160 v)) h) :: rest) [] [] 2 c).
Proof. intros Hl Hr; unfold p2sh; run_op; run_push; run_op; reflexivity. Qed.

Lemma EvalScript_p2pkh h sig pk rest : length h = 20%nat -> zlen rest <= 996 ->
  EvalScript CheckSig (pk :: sig :: rest) (p2pkh h) =
  if list_eqb (uint_bytes (Hash160 pk)) h
  then Some (of_bool (check_one CheckSig (drop_signature (p2pkh h) sig) sig pk) :: rest) else None.
Proof.
  intros Hl Hr; unfold EvalScript; rewrite (proj2 (Z.ltb_ge 10000 (zlen (p2pkh h)))) by (split20 h Hl; cbn; lia).
  fold (eval CheckSig (p2pkh h) (EvalState (pk :: sig :: rest) [] [] 0 (p2pkh h))).
  rewrite eval_p2pkh by assumption; now destruct (list_eqb _ h).
Qed.

Lemma EvalScript_p2sh h v rest : length h = 20%nat -> zlen rest <= 996 ->
  EvalScript CheckSig (v :: rest) (p2sh h) = Some (of_bool (list_eqb (uint_bytes (Hash160 v)) h) :: rest).
Proof.
  intros Hl Hr; unfold EvalScript; rewrite (proj2 (Z.ltb_ge 10000 (zlen (p2sh h)))) by (split20 h Hl; cbn; lia).
  fold (eval CheckSig (p2sh h) (EvalState (v :: rest) [] [] 0 (p2sh h))); now rewrite eval_p2sh by assumption.
Qed.

Lemma top_true_of_bool b s : top_true (of_bool b :: s) = b.
Proof. now destruct b. Qed.

(** C23: Spending the standard outputs.  A pay-to-pubkey-hash output of [h] is
    spent by pushing a signature and a public key exactly when the key hashes
    to [h], both are in canonical form, and the signature is valid for the
    output script.  A pay-to-script-hash output of [h] is spent by pushing some
    values and a script exactly when that script hashes to [h] and evaluates
    to true on those values. *)
Theorem standard_spends (h sig pk redeem : valtype) (vs : list valtype) :
  length h = 20%nat -> zlen sig <= 520 -> zlen sig <> 20 -> zlen pk <= 520 ->
  Forall (fun v => zlen v <= 520) (vs ++ [redeem]) -> zlen vs <= 996 ->
  zlen (flat_map push_data (vs ++ [redeem])) <= 10000 ->
  VerifyScript CheckSig (push_data sig ++ push_data pk) (p2pkh h)
    = list_eqb (uint_bytes (Hash160 pk)) h
      && (IsCanonicalSignature sig && IsCanonicalPubKey pk && CheckSig sig pk (p2pkh h))
  /\ VerifyScript CheckSig (flat_map push_data (vs ++ [redeem])) (p2sh h)
    = list_eqb (uint_bytes (Hash160 redeem)) h
      && match EvalScript CheckSig (rev vs) redeem with Some s => top_true s | None => false end.
Proof.
  intros Hl Hs Hs20 Hp Hvs Hn Hlen; split.
  - unfold VerifyScript; replace (push_data sig ++ push_data pk) with (flat_map push_data [sig; pk])
      by (cbn [flat_map]; now rewrite app_nil_r).
    assert (Hlong : forall v, zlen v <= 520 -> zlen (push_data v) <= 525).
    { intros v Hv; unfold push_data; rewrite zlen_app.
      destruct (_ <? _); [|destruct (_ <=? _); [|destruct (_ <=? _)]];
        match goal with |- zlen ?l + _ <= _ => assert (zlen l <= 5) by (unfold zlen; cbn [length le_split]; lia) end; lia. }
    rewrite EvalScript_pushes; [| repeat constructor; assumption | cbn; lia
      | cbn [flat_map]; rewrite app_nil_r, zlen_app; pose proof (Hlong sig Hs); pose proof (Hlong pk Hp); lia].
    cbn [rev app]; rewrite EvalScript_p2pkh by (assumption || (cbn; lia)).
    destruct (list_eqb (uint_bytes (Hash160 pk)) h); [|reflexivity]; cbn [andb].
    rewrite top_true_of_bool, check_one_p2pkh by assumption; fold (check_one CheckSig (p2pkh h) sig pk).
    assert (E : IsPayToScriptHash (p2pkh h) = false) by (split20 h Hl; reflexivity).
    rewrite E; now destruct (check_one CheckSig (p2pkh h) sig pk).
  - unfold VerifyScript; rewrite EvalScript_pushes; [| assumption | unfold zlen in *; rewrite length_app; cbn [length]; lia | assumption].
    rewrite rev_app_distr; cbn [rev app].
    rewrite EvalScript_p2sh by (assumption || (unfold zlen in *; rewrite length_rev; lia)).
    rewrite top_true_of_bool, pushes_are_push_only by assumption.
    assert (E : IsPayToScriptHash (p2sh h) = true) by (split20 h Hl; reflexivity).
    rewrite E; now destruct (list_eqb (uint_bytes (Hash160 redeem)) h).
Qed.

End Spends.

(** The redeem script [OP_1] with the toy hash. *)
Lemma standard_spends_witness :
  VerifyScript (L := BN_ideal) (H := toy_hash) (fun _ _ _ => true)
    (flat_map push_data [[0x51]]) (p2sh (uint_bytes (Hash160 (H := toy_hash) [0x51]))) = true.
Proof.
  destruct (standard_spends (L := BN_ideal) (H := toy_hash) (fun _ _ _ => true)
    (uint_bytes (Hash160 (H := toy_hash) [0x51])) [0x30] [0x02] [0x51] []) as [_ E];
    [reflexivity | vm_compute; discriminate | vm_compute; discriminate | vm_compute; discriminate
    | repeat constructor; vm_compute; discriminate | vm_compute; discriminate | vm_compute; discriminate |].
  exact (eq_trans E eq_refl).
Defined.
