(* ===== verification/SigHash.v ===== *)
(** * SigHash: what signatures sign, and the signature cache (script.cpp)

    [SignatureHash], [CSignatureCache], [CheckSig] and [VerifySignature]: the
    interpreter of Interp applied to transactions.  OpenSSL's elliptic curve
    functions are parameters. *)

From Stdlib Require Import ZArith List Lia Bool Sorted.
From S2P Require Import Prelude SphTypes Uint256 Serialize BigNum Transaction Script Interp.
Import ListNotations.

Open Scope Z_scope.
Open Scope word_scope.

(** ** OpenSSL *)

(** Whether a public key parses, and the result of a verification (1 good, 0
    bad, -1 error) of a signature under the key that was parsed. *)
Class ec_lib := {
  o2i_ECPublicKey : list Z -> bool;
  ECDSA_verify : list Z -> list Z -> list Z -> Z
}.

(** A toy instance: a signature is the key followed by the hash. *)
#[export] Instance toy_ec : ec_lib := {
  o2i_ECPublicKey pk := (length pk =? 33)%nat;
  ECDSA_verify hash sig pk := if list_eqb sig (pk ++ hash) then 1 else 0
}.

(** ** SignatureHash *)

Definition blank_script (i : CTxIn) : CTxIn := TxIn (prevout i) [] (nSequence i).
Definition set_script (i : CTxIn) (s : list Z) : CTxIn := TxIn (prevout i) s (nSequence i).
Definition zero_sequence (i : CTxIn) : CTxIn := TxIn (prevout i) (scriptSig i) 0.

(** [for (i ...) if (i != nIn) vin[i].nSequence = 0] *)
Definition zero_others (nIn : nat) (vin : list CTxIn) : list CTxIn :=
  map (fun p => if (fst p =? nIn)%nat then snd p else zero_sequence (snd p)) (combine (seq 0 (length vin)) vin).

(** The inputs with the scripts of the others blanked. *)
Definition sign_inputs (scriptCode : list Z) (nIn : nat) (vin : list CTxIn) : list CTxIn :=
  let vin := map blank_script vin in
  upd vin nIn (set_script (nth nIn vin CTxIn_null) scriptCode).

Definition with_io (tx : CTransaction) (ins : list CTxIn) (outs : list CTxOut) : CTransaction :=
  Tx (tx_nVersion tx) (tx_nTime tx) ins outs (nLockTime tx) (strTxComment tx) (nProdTypeID tx).

(** The transaction that is hashed; [None] is [return 1]. *)
Definition sign_tx (scriptCode : list Z) (txTo : CTransaction) (nIn : nat) (nHashType : Z) : option CTransaction :=
  if (length (vin txTo) <=? nIn)%nat then None
  else
    let scriptCode := snd (FindAndDelete scriptCode (push_op OP_CODESEPARATOR)) in
    let ins := sign_inputs scriptCode nIn (vin txTo) in
    let outs := vout txTo in
    match
      (if nHashType .& 0x1F =? SIGHASH_NONE then Some (zero_others nIn ins, [])
       else if nHashType .& 0x1F =? SIGHASH_SINGLE then
         if (length outs <=? nIn)%nat then None
         else Some (zero_others nIn ins, map (fun _ => CTxOut_null) (firstn nIn outs) ++ [nth nIn outs CTxOut_null])
       else Some (ins, outs))
    with
    | None => None
    | Some (ins, outs) =>
        let ins := if nHashType .& SIGHASH_ANYONECANPAY =? 0 then ins else [nth nIn ins CTxIn_null] in
        Some (with_io txTo ins outs)
    end.

(** [ss << txTmp << nHashType] *)
Definition sign_bytes (tx : CTransaction) (nHashType : Z) : list Z := enc tx_codec tx ++ write_int 4 nHashType.

Section SignatureHash.
Context {H : hash_lib}.

Definition SignatureHash (scriptCode : list Z) (txTo : CTransaction) (nIn : nat) (nHashType : Z) : list Z :=
  match sign_tx scriptCode txTo nIn nHashType with
  | None => uint_of_u64 8 1
  | Some txTmp => Hash (sign_bytes txTmp nHashType)
  end.

(** [CTransaction::GetHash] *)
Definition tx_GetHash (tx : CTransaction) : list Z := Hash (enc tx_codec tx).

End SignatureHash.

(** ** CSignatureCache *)

Record sigdata := SigData { sd_hash : list Z; sd_sig : valtype; sd_key : valtype }.

(** [std::vector] and tuple comparison. *)
Fixpoint vch_lt (a b : list Z) : bool :=
  match a, b with
  | _, [] => false
  | [], _ => true
  | x :: a, y :: b => (x <? y) || ((x =? y) && vch_lt a b)
  end.

Definition sigdata_lt (a b : sigdata) : bool :=
  uint_lt (sd_hash a) (sd_hash b)
  || (negb (uint_lt (sd_hash b) (sd_hash a))
      && (vch_lt (sd_sig a) (sd_sig b)
          || (negb (vch_lt (sd_sig b) (sd_sig a)) && vch_lt (sd_key a) (sd_key b)))).

Definition sigdata_eq (a b : sigdata) : bool :=
  list_eqb (sd_hash a) (sd_hash b) && list_eqb (sd_sig a) (sd_sig b) && list_eqb (sd_key a) (sd_key b).

(** [std::set], as its elements in order. *)
Definition cache_Get (setValid : list sigdata) (k : sigdata) : bool := existsb (sigdata_eq k) setValid.

Fixpoint set_insert (setValid : list sigdata) (k : sigdata) : list sigdata :=
  match setValid with
  | [] => [k]
  | x :: rest => if sigdata_lt x k then x :: set_insert rest k else if sigdata_lt k x then k :: setValid else setValid
  end.

(** Erase [lower_bound(randomHash, unused, unused)], or the first element. *)
Fixpoint erase_lower_bound (setValid : list sigdata) (k : sigdata) : option (list sigdata) :=
  match setValid with
  | [] => None
  | x :: rest =>
      if sigdata_lt x k then match erase_lower_bound rest k with None => None | Some r => Some (x :: r) end
      else Some rest
  end.

Definition evict (setValid : list sigdata) (randomHash : list Z) : list sigdata :=
  match erase_lower_bound setValid (SigData randomHash [] []) with
  | Some r => r
  | None => skipn 1 setValid
  end.

(** The loop; [rand i] is the [i]-th call of [GetRandHash]. *)
Fixpoint evict_loop (fuel : nat) (rand : nat -> list Z) (nMaxCacheSize : Z) (setValid : list sigdata) : list sigdata :=
  match fuel with
  | O => setValid
  | S fuel =>
      if nMaxCacheSize <? zlen setValid then evict_loop fuel (fun i => rand (S i)) nMaxCacheSize (evict setValid (rand O))
      else setValid
  end.

Definition cache_Set (rand : nat -> list Z) (nMaxCacheSize : Z) (setValid : list sigdata) (k : sigdata) : list sigdata :=
  if nMaxCacheSize <=? 0 then setValid
  else set_insert (evict_loop (length setValid) rand nMaxCacheSize setValid) k.

(** ** CheckSig *)

Section CheckSig.
Context {H : hash_lib} {EC : ec_lib}.

(** [key.SetPubKey(vchPubKey) && key.Verify(sighash, vchSig)] *)
Definition key_verifies (k : sigdata) : bool :=
  o2i_ECPublicKey (sd_key k) && (ECDSA_verify (uint_bytes (sd_hash k)) (sd_sig k) (sd_key k) =? 1).

(** What is looked up and verified, or [None] when the hash types disagree. *)
Definition sig_query (vchSig vchPubKey : valtype) (scriptCode : list Z) (txTo : CTransaction) (nIn : nat)
    (nHashType : Z) : option sigdata :=
  match vchSig with
  | [] => None
  | _ =>
      let back := last vchSig 0 in
      if nHashType =? 0 then Some (SigData (SignatureHash scriptCode txTo nIn back) (removelast vchSig) vchPubKey)
      else if negb (nHashType =? back) then None
      else Some (SigData (SignatureHash scriptCode txTo nIn nHashType) (removelast vchSig) vchPubKey)
  end.

(** [CheckSig] with the cache it reads and writes. *)
Definition CheckSig (rand : nat -> list Z) (nMaxCacheSize : Z) (signatureCache : list sigdata)
    (vchSig vchPubKey : valtype) (scriptCode : list Z) (txTo : CTransaction) (nIn : nat) (nHashType : Z)
  : bool * list sigdata :=
  match sig_query vchSig vchPubKey scriptCode txTo nIn nHashType with
  | None => (false, signatureCache)
  | Some k =>
      if cache_Get signatureCache k then (true, signatureCache)
      else if negb (key_verifies k) then (false, signatureCache)
      else (true, cache_Set rand nMaxCacheSize signatureCache k)
  end.

(** The same without a cache: what the interpreter is given. *)
Definition CheckSig_nocache (txTo : CTransaction) (nIn : nat) (nHashType : Z) (vchSig vchPubKey : valtype)
    (scriptCode : list Z) : bool :=
  match sig_query vchSig vchPubKey scriptCode txTo nIn nHashType with
  | None => false
  | Some k => key_verifies k
  end.

Definition VerifySignature {L : BN_lib} (txFrom txTo : CTransaction) (nIn : nat) (nHashType : Z) : bool :=
  let txin := nth nIn (vin txTo) CTxIn_null in
  if Z.of_nat (length (vout txFrom)) <=? op_n (prevout txin) then false
  else
    let txout := nth (Z.to_nat (op_n (prevout txin))) (vout txFrom) CTxOut_null in
    if negb (uint_eq (op_hash (prevout txin)) (tx_GetHash txFrom)) then false
    else VerifyScript (CheckSig_nocache txTo nIn nHashType) (scriptSig txin) (scriptPubKey txout).

End CheckSig.

(** ** The order of the cache *)

Lemma lt_loop_trans n a b c : lt_loop false n a b = true -> lt_loop false n b c = true -> lt_loop false n a c = true.
Proof.
  induction n as [|i IH]; cbn [lt_loop]; [discriminate|].
  destruct (Z.ltb_spec (nth i a 0) (nth i b 0)), (Z.ltb_spec (nth i b 0) (nth i a 0)),
    (Z.ltb_spec (nth i b 0) (nth i c 0)), (Z.ltb_spec (nth i c 0) (nth i b 0)),
    (Z.ltb_spec (nth i a 0) (nth i c 0)), (Z.ltb_spec (nth i c 0) (nth i a 0)); try lia; auto; discriminate.
Qed.

Lemma lt_loop_irrefl n a : lt_loop false n a a = false.
Proof. induction n as [|i IH]; cbn [lt_loop]; [reflexivity | now rewrite Z.ltb_irrefl]. Qed.

Lemma lt_loop_total n a b : lt_loop false n a b = false -> lt_loop false n b a = false ->
  forall i, (i < n)%nat -> nth i a 0 = nth i b 0.
Proof.
  induction n as [|n IH]; cbn [lt_loop]; [lia|].
  destruct (Z.ltb_spec (nth n a 0) (nth n b 0)), (Z.ltb_spec (nth n b 0) (nth n a 0)); try discriminate.
  intros Ha Hb i Hi; destruct (Nat.eq_dec i n) as [-> | Hne]; [lia | apply (IH Ha Hb); lia].
Qed.

Lemma vch_lt_irrefl a : vch_lt a a = false.
Proof. induction a as [|x a IH]; [reflexivity|]; cbn [vch_lt]; now rewrite Z.ltb_irrefl, Z.eqb_refl, IH. Qed.

Lemma vch_lt_trans a b c : vch_lt a b = true -> vch_lt b c = true -> vch_lt a c = true.
Proof.
  revert b c; induction a as [|x a IH]; intros [|y b] [|z c]; cbn [vch_lt]; try discriminate; [reflexivity|].
  rewrite !orb_true_iff, !andb_true_iff, !Z.ltb_lt, !Z.eqb_eq.
  intros [H1|[-> H1]] [H2|[-> H2]]; [left; lia | auto | auto | right; split; [reflexivity | eauto]].
Qed.

Lemma vch_lt_total a b : vch_lt a b = false -> vch_lt b a = false -> a = b.
Proof.
  revert b; induction a as [|x a IH]; intros [|y b]; cbn [vch_lt]; try discriminate; [reflexivity|].
  rewrite !orb_false_iff, !Z.ltb_ge, !andb_false_iff, !Z.eqb_neq; intros [H1 H2] [H3 H4].
  assert (x = y) by lia; subst; destruct H2 as [?|H2], H4 as [?|H4]; try lia; now rewrite (IH b).
Qed.

(** [uint256] objects, of eight words. *)
Definition sd_ok (k : sigdata) : Prop := length (sd_hash k) = 8%nat.

Lemma sigdata_lt_irrefl a : sigdata_lt a a = false.
Proof. unfold sigdata_lt, uint_lt; now rewrite lt_loop_irrefl, !vch_lt_irrefl. Qed.

Lemma hash_total a b : length a = 8%nat -> length b = 8%nat -> uint_lt a b = false -> uint_lt b a = false -> a = b.
Proof.
  unfold uint_lt; intros La Lb; rewrite La, Lb; intros H1 H2; apply (nth_ext _ _ 0 0); [congruence|].
  rewrite La; now apply lt_loop_total.
Qed.

(** The order is lexicographic. *)
Lemma sigdata_lt_spec a b : sd_ok a -> sd_ok b ->
  sigdata_lt a b = true <->
  uint_lt (sd_hash a) (sd_hash b) = true
  \/ sd_hash a = sd_hash b /\ (vch_lt (sd_sig a) (sd_sig b) = true
      \/ sd_sig a = sd_sig b /\ vch_lt (sd_key a) (sd_key b) = true).
Proof.
  unfold sd_ok, sigdata_lt; intros La Lb.
  rewrite orb_true_iff, andb_true_iff, orb_true_iff, andb_true_iff, !negb_true_iff.
  destruct (uint_lt (sd_hash a) (sd_hash b)) eqn:E1; [tauto|].
  split; (intros [?|[H1 H2]]; [discriminate|right]).
  - split; [now apply hash_total|]; destruct H2 as [?|[H2 H3]]; [auto|].
    destruct (vch_lt (sd_sig a) (sd_sig b)) eqn:E2; [auto | right; split; [now apply vch_lt_total | exact H3]].
  - rewrite H1 in *; split; [exact E1|]; destruct H2 as [?|[H2 H3]]; [auto|].
    rewrite H2 in *; right; split; [apply vch_lt_irrefl | exact H3].
Qed.

Lemma sigdata_lt_trans a b c : sd_ok a -> sd_ok b -> sd_ok c ->
  sigdata_lt a b = true -> sigdata_lt b c = true -> sigdata_lt a c = true.
Proof.
  intros La Lb Lc; rewrite !sigdata_lt_spec by assumption.
  assert (Ht : uint_lt (sd_hash a) (sd_hash b) = true -> uint_lt (sd_hash b) (sd_hash c) = true ->
               uint_lt (sd_hash a) (sd_hash c) = true).
  { unfold uint_lt; rewrite La, Lb; apply lt_loop_trans. }
  pose proof (vch_lt_trans (sd_sig a) (sd_sig b) (sd_sig c)); pose proof (vch_lt_trans (sd_key a) (sd_key b) (sd_key c)).
  intros [H1|[E1 [H1|[F1 H1]]]] [H2|[E2 [H2|[F2 H2]]]]; rewrite ?E1, ?E2, ?F1, ?F2 in *; intuition.
Qed.

Lemma sigdata_lt_total a b : sd_ok a -> sd_ok b -> sigdata_lt a b = false -> sigdata_lt b a = false -> a = b.
Proof.
  intros La Lb H1 H2; apply not_true_iff_false in H1, H2; rewrite sigdata_lt_spec in H1, H2 by assumption.
  assert (E1 : sd_hash a = sd_hash b) by (apply hash_total; [exact La | exact Lb | |]; apply not_true_iff_false; tauto).
  assert (E2 : sd_sig a = sd_sig b) by (apply vch_lt_total; apply not_true_iff_false; intros ?; intuition).
  assert (E3 : sd_key a = sd_key b) by (apply vch_lt_total; apply not_true_iff_false; intros ?; intuition).
  destruct a, b; cbn in *; congruence.
Qed.

(** The elements of a [std::set]: in strictly increasing order. *)
Definition increasing (l : list sigdata) : Prop := StronglySorted (fun a b => sigdata_lt a b = true) l.

Lemma set_insert_in l k x : In x (set_insert l k) -> x = k \/ In x l.
Proof.
  induction l as [|y l IH]; cbn [set_insert]; [intros [<- | []]; auto|].
  destruct (sigdata_lt y k); [|destruct (sigdata_lt k y)]; cbn [In]; [|intros [<- | ?]; auto | auto].
  intros [<- | Hx]; [auto|]; destruct (IH Hx); auto.
Qed.

Lemma set_insert_sorted l k : sd_ok k -> Forall sd_ok l -> increasing l ->
  increasing (set_insert l k) /\ In k (set_insert l k).
Proof.
  intros Hk; induction l as [|x l IH]; intros Hok Hs; cbn [set_insert].
  { split; [repeat constructor | now left]. }
  apply Forall_cons_iff in Hok as [Hx Hok]; apply StronglySorted_inv in Hs as [Hs Hall].
  destruct (sigdata_lt x k) eqn:E1; [|destruct (sigdata_lt k x) eqn:E2].
  - destruct (IH Hok Hs) as [IH1 IH2]; split; [|now right]; constructor; [exact IH1|].
    rewrite Forall_forall in *; intros y Hy; apply set_insert_in in Hy as [-> | Hy]; auto.
  - split; [|now left]; constructor; [now constructor|]; constructor; [exact E2|].
    rewrite Forall_forall in *; intros y Hy; apply (sigdata_lt_trans k x y); auto.
  - split; [now constructor | left; now apply sigdata_lt_total].
Qed.

(** What is left after an eviction is the set without some elements. *)
Inductive sublist : list sigdata -> list sigdata -> Prop :=
| sub_nil : sublist [] []
| sub_skip x r l : sublist r l -> sublist r (x :: l)
| sub_keep x r l : sublist r l -> sublist (x :: r) (x :: l).

#[local] Hint Constructors sublist : core.

Lemma sublist_refl l : sublist l l.
Proof. induction l; auto. Qed.

Lemma sublist_trans a b c : sublist a b -> sublist b c -> sublist a c.
Proof.
  intros Hab Hbc; revert a Hab; induction Hbc as [|x b c Hbc IH|x b c Hbc IH]; intros a Hab; auto.
  inversion Hab; subst; auto.
Qed.

Lemma sublist_in r l x : sublist r l -> In x r -> In x l.
Proof. induction 1; cbn [In]; intuition. Qed.

Lemma sublist_sorted r l : sublist r l -> increasing l -> increasing r.
Proof.
  induction 1 as [|x r l Hs IH|x r l Hs IH]; intros Hl; [constructor | |];
    apply StronglySorted_inv in Hl as [Hl Hx]; [now apply IH|].
  constructor; [now apply IH|]; apply Forall_forall; intros y Hy; apply (proj1 (Forall_forall _ _) Hx); now apply (sublist_in r).
Qed.

Lemma sublist_Forall (P : sigdata -> Prop) r l : sublist r l -> Forall P l -> Forall P r.
Proof. rewrite !Forall_forall; intros Hs Hl x Hx; apply Hl; now apply (sublist_in r). Qed.

Lemma erase_lower_bound_sub l k r : erase_lower_bound l k = Some r -> sublist r l /\ length l = S (length r).
Proof.
  revert r; induction l as [|x l IH]; intros r; cbn [erase_lower_bound]; [discriminate|].
  destruct (sigdata_lt x k).
  - destruct (erase_lower_bound l k) as [r'|]; [|discriminate]; intros [= <-]; destruct (IH r' eq_refl) as [Hi Hl].
    split; [auto | cbn [length]; lia].
  - intros [= <-]; split; [constructor; apply sublist_refl | reflexivity].
Qed.

Lemma evict_sub l h : sublist (evict l h) l /\ length (evict l h) = (length l - 1)%nat.
Proof.
  unfold evict; destruct (erase_lower_bound l _) as [r|] eqn:E.
  - destruct (erase_lower_bound_sub _ _ _ E); split; [assumption | lia].
  - split; [|apply length_skipn]; destruct l as [|x l]; [constructor | constructor; apply sublist_refl].
Qed.

Lemma evict_loop_sub fuel rand n l : (length l <= fuel)%nat -> 0 <= n ->
  sublist (evict_loop fuel rand n l) l /\ zlen (evict_loop fuel rand n l) <= n.
Proof.
  revert rand l; induction fuel as [|fuel IH]; intros rand l Hf Hn; cbn [evict_loop].
  { split; [apply sublist_refl | unfold zlen; lia]. }
  destruct (Z.ltb_spec n (zlen l)); [|split; [apply sublist_refl | lia]].
  destruct (evict_sub l (rand O)) as [Hi Hl]; unfold zlen in *.
  destruct (IH (fun i => rand (S i)) (evict l (rand O))) as [Hi' Hz]; [lia | lia | split; [|exact Hz]].
  now apply (sublist_trans _ (evict l (rand O))).
Qed.

Lemma length_set_insert l k : zlen (set_insert l k) <= zlen l + 1.
Proof.
  unfold zlen; induction l as [|x l Hl]; cbn [set_insert]; [cbn; lia|].
  destruct (sigdata_lt x k); [|destruct (sigdata_lt k x)]; cbn [length] in *; lia.
Qed.

(** ** The cache is transparent *)

Section Cache.
Context {H : hash_lib} {EC : ec_lib}.

Lemma sigdata_eq_eq a b : sigdata_eq a b = true <-> a = b.
Proof.
  unfold sigdata_eq; rewrite !andb_true_iff, !list_eqb_eq; destruct a, b; cbn [sd_hash sd_sig sd_key]; split.
  - now intros [[-> ->] ->].
  - intros E; injection E as -> -> ->; auto.
Qed.

(** What holds of the cache at every time: it is a set of verified
    signatures, at most one more than the limit. *)
Record cache_ok (nMaxCacheSize : Z) (cache : list sigdata) : Prop := {
  co_verified : Forall (fun k => key_verifies k = true) cache;
  co_hashes : Forall sd_ok cache;
  co_sorted : increasing cache;
  co_size : zlen cache <= nMaxCacheSize + 1
}.

Lemma SignatureHash_length code tx nIn ht : length (SignatureHash code tx nIn ht) = 8%nat.
Proof. unfold SignatureHash, Hash; destruct (sign_tx _ _ _ _); reflexivity. Qed.

Lemma sig_query_ok vchSig vchPubKey code tx nIn ht k : sig_query vchSig vchPubKey code tx nIn ht = Some k -> sd_ok k.
Proof.
  unfold sig_query; destruct vchSig; [discriminate|]; cbv zeta.
  destruct (ht =? 0); [|destruct (negb _); [discriminate|]]; intros E; injection E as <-; apply SignatureHash_length.
Qed.

Lemma cache_Set_ok rand n l k : key_verifies k = true -> sd_ok k -> 0 <= n -> cache_ok n l ->
  cache_ok n (cache_Set rand n l k) /\ (0 < n -> In k (cache_Set rand n l k)).
Proof.
  intros Hk Hd Hn [Hv Ho Hs Hz]; unfold cache_Set; destruct (Z.leb_spec n 0); [split; [now split | lia]|].
  destruct (evict_loop_sub (length l) rand n l (le_n _) Hn) as [Hi Hb]; set (l' := evict_loop _ _ _ _) in *; clearbody l'.
  destruct (set_insert_sorted l' k Hd (sublist_Forall _ _ _ Hi Ho) (sublist_sorted _ _ Hi Hs)) as [S1 S2].
  split; [|auto]; split; [| |exact S1 | pose proof (length_set_insert l' k); lia].
  - rewrite Forall_forall in *; intros x Hx; apply set_insert_in in Hx as [-> | Hx]; [exact Hk|].
    now apply Hv, (sublist_in l').
  - rewrite Forall_forall in *; intros x Hx; apply set_insert_in in Hx as [-> | Hx]; [exact Hd|].
    now apply Ho, (sublist_in l').
Qed.

(** One call of [CheckSig]: what it is asked, and the random numbers it draws. *)
Record sig_call := SigCall {
  c_sig : valtype; c_key : valtype; c_code : list Z; c_tx : CTransaction; c_in : nat; c_type : Z;
  c_rand : nat -> list Z
}.

Definition call_query (c : sig_call) : option sigdata :=
  sig_query (c_sig c) (c_key c) (c_code c) (c_tx c) (c_in c) (c_type c).

Definition call_cached (nMaxCacheSize : Z) (cache : list sigdata) (c : sig_call) : bool * list sigdata :=
  CheckSig (c_rand c) nMaxCacheSize cache (c_sig c) (c_key c) (c_code c) (c_tx c) (c_in c) (c_type c).

Definition call_nocache (c : sig_call) : bool :=
  CheckSig_nocache (c_tx c) (c_in c) (c_type c) (c_sig c) (c_key c) (c_code c).

(** A sequence of calls, by any threads: each holds the lock. *)
Fixpoint run_calls (nMaxCacheSize : Z) (cache : list sigdata) (calls : list sig_call) : list bool * list sigdata :=
  match calls with
  | [] => ([], cache)
  | c :: calls =>
      let (r, cache) := call_cached nMaxCacheSize cache c in
      let (rs, cache) := run_calls nMaxCacheSize cache calls in
      (r :: rs, cache)
  end.

Lemma call_ok n cache c : 0 <= n -> cache_ok n cache ->
  let r := call_cached n cache c in
  fst r = call_nocache c /\ cache_ok n (snd r)
  /\ (forall k, call_query c = Some k -> fst r = true -> 0 < n -> cache_Get (snd r) k = true).
Proof.
  intros Hn Hc; unfold call_cached, call_nocache, call_query, CheckSig, CheckSig_nocache; cbv zeta.
  destruct (sig_query _ _ _ _ _ _) as [k|] eqn:Eq; [|split; [reflexivity | split; [exact Hc | discriminate]]].
  apply sig_query_ok in Eq; destruct (cache_Get cache k) eqn:Eg; cbn [fst snd].
  - pose proof Eg as Eg'; apply existsb_exists in Eg' as (x & Hx & Ex); apply sigdata_eq_eq in Ex; subst x.
    pose proof (proj1 (Forall_forall _ _) (co_verified _ _ Hc) k Hx) as Hk; cbv beta in Hk; rewrite Hk.
    split; [reflexivity | split; [exact Hc | intros ? [= <-]; auto]].
  - destruct (key_verifies k) eqn:Ek; cbn [negb fst snd]; [|split; [reflexivity | split; [exact Hc | discriminate]]].
    destruct (cache_Set_ok (c_rand c) n cache k Ek Eq Hn Hc) as [H1 H2].
    split; [reflexivity | split; [exact H1|]]; intros ? [= <-] _ Hp; apply existsb_exists; exists k.
    split; [auto | now apply sigdata_eq_eq].
Qed.

Lemma calls_ok n calls : 0 <= n -> forall cache, cache_ok n cache ->
  fst (run_calls n cache calls) = map call_nocache calls /\ cache_ok n (snd (run_calls n cache calls)).
Proof.
  intros Hn; induction calls as [|c calls IH]; intros cache Hc; cbn [run_calls]; [now split|].
  destruct (call_ok n cache c Hn Hc) as (E & Hc' & _).
  destruct (call_cached n cache c) as [r cache']; cbn [fst snd] in *; specialize (IH cache' Hc').
  destruct (run_calls n cache' calls) as [rs cache'']; cbn [fst snd map] in *; destruct IH as [-> ?]; now subst r.
Qed.

(** C21: The signature cache is transparent: whatever calls of [CheckSig] are
    made, in whatever order and with whatever random evictions, starting from
    the empty cache, every answer is the one the verification without a cache
    gives.  After them the cache is a set, in the strict order of [std::set],
    of verified signatures, at most one more than its limit; and when a next
    call accepts a signature, the cache, if it has room at all, answers for
    it from then on. *)
Theorem signature_cache_transparent (nMaxCacheSize : Z) (calls : list sig_call) :
  0 <= nMaxCacheSize ->
  let cache := snd (run_calls nMaxCacheSize [] calls) in
  fst (run_calls nMaxCacheSize [] calls) = map call_nocache calls
  /\ Forall (fun k => key_verifies k = true) cache
  /\ StronglySorted (fun a b => sigdata_lt a b = true) cache
  /\ zlen cache <= nMaxCacheSize + 1
  /\ (forall c k, call_query c = Some k -> call_nocache c = true -> 0 < nMaxCacheSize ->
        cache_Get (snd (call_cached nMaxCacheSize cache c)) k = true).
Proof.
  intros Hn cache; assert (H0 : cache_ok nMaxCacheSize []).
  { split; [constructor | constructor | constructor | change (zlen (@nil sigdata)) with 0; lia]. }
  destruct (calls_ok nMaxCacheSize calls Hn [] H0) as [E Hc]; fold cache in Hc.
  split; [exact E|]; split; [apply Hc|]; split; [apply Hc|]; split; [apply Hc|].
  intros c k Hq Ha Hp; destruct (call_ok nMaxCacheSize cache c Hn Hc) as (Er & _ & Hk); apply Hk; congruence.
Qed.

End Cache.

Lemma signature_cache_transparent_witness :
  let c := SigCall [7; 1] (repeat 2 33) [0x51] sample_tx 0 0 (fun _ => null_hash) in
  fst (run_calls (H := toy_hash) (EC := toy_ec) 1 [] [c; c]) = map (call_nocache (H := toy_hash) (EC := toy_ec)) [c; c].
Proof.
  intros c; exact (proj1 (signature_cache_transparent (H := toy_hash) (EC := toy_ec) 1 [c; c] ltac:(lia))).
Defined.

(** ** What a signature commits to *)

Lemma map_upd {A B} (f : A -> B) (l : list A) n v d :
  (n < length l)%nat -> f v = f (nth n l d) -> map f (upd l n v) = map f l.
Proof.
  intros Hn Hf; apply (nth_ext _ _ (f d) (f d)); rewrite !length_map, length_upd by assumption; [reflexivity|].
  intros i Hi; rewrite !map_nth, nth_upd by assumption; destruct (Nat.eqb_spec i n) as [-> | _]; auto.
Qed.

Lemma Forall_upd {A} (P : A -> Prop) (l : list A) n v : (n < length l)%nat -> Forall P l -> P v -> Forall P (upd l n v).
Proof.
  intros Hn Hl Hv; rewrite Forall_forall; intros x Hx; apply (In_nth _ _ v) in Hx as (i & Hi & <-).
  rewrite length_upd in Hi by assumption; rewrite nth_upd by assumption.
  destruct (Nat.eqb_spec i n); [assumption|]; rewrite Forall_forall in Hl; now apply Hl, nth_In.
Qed.

(** [FindAndDelete] only removes bytes. *)
Lemma erase_loop_sub fuel b n pc : let pc' := snd (erase_loop fuel b n pc) in
  (length pc' <= length pc)%nat /\ incl pc' pc.
Proof.
  revert n pc; induction fuel as [|fuel IH]; intros n pc; cbn [erase_loop snd]; [split; [lia | apply incl_refl]|].
  destruct (starts_with b pc); [|split; [cbn; lia | apply incl_refl]].
  destruct (IH (n + 1) (skipn (length b) pc)) as [Hl Hi]; split; [rewrite length_skipn in Hl; lia|].
  eapply incl_tran; [exact Hi|]; intros x Hx; rewrite <- (firstn_skipn (length b) pc); apply in_or_app; now right.
Qed.

Lemma delete_loop_sub fuel b n pc : let pc' := snd (delete_loop fuel b n pc) in
  (length pc' <= length pc)%nat /\ incl pc' pc.
Proof.
  revert n pc; induction fuel as [|fuel IH]; intros n pc; cbn [delete_loop].
  { pose proof (erase_loop_sub (length pc) b n pc) as He; destruct (erase_loop (length pc) b n pc); exact He. }
  pose proof (erase_loop_sub (length pc) b n pc) as He; destruct (erase_loop (length pc) b n pc) as [n1 pc1].
  cbn [snd] in He; destruct (GetOp pc1) as [[[op v] next]|] eqn:Eg; [|exact He].
  specialize (IH n1 next); destruct (delete_loop fuel b n1 next) as [n2 tail]; cbn [snd] in *.
  destruct (GetOp_suffix _ _ _ _ Eg) as (used & Hpc & _); destruct He as [Hl1 Hi1], IH as [Hl2 Hi2]; rewrite Hpc in *.
  replace (length (used ++ next) - length next)%nat with (length used) by (rewrite length_app; lia).
  rewrite firstn_app, Nat.sub_diag, firstn_all, firstn_O, app_nil_r; split.
  - rewrite !length_app in *; lia.
  - apply incl_app; intros x Hx; apply Hi1, in_or_app; auto.
Qed.

Lemma FindAndDelete_short script b : short_bytes script -> short_bytes (snd (FindAndDelete script b)).
Proof.
  intros [Hb Hl]; assert (Hsub : (length (snd (FindAndDelete script b)) <= length script)%nat
    /\ incl (snd (FindAndDelete script b)) script).
  { unfold FindAndDelete; destruct b; [split; [cbn; lia | apply incl_refl] | apply delete_loop_sub]. }
  destruct Hsub as [Hs Hi]; split; [|unfold size_of in *; lia].
  unfold words in *; rewrite Forall_forall in *; auto.
Qed.

(** Two valid objects whose encodings agree are equal, whatever follows. *)
Lemma codec_inj {A} (c : codec A) fresh valid (Hc : codec_ok c fresh valid) old a b x y :
  fresh old -> valid a -> valid b -> words 8 x -> words 8 y -> size_of (enc c a ++ x) < 2 ^ 31 ->
  enc c a ++ x = enc c b ++ y -> a = b /\ x = y.
Proof.
  intros Hf Ha Hb Hx Hy Hs E; set (s := DataStream (enc c a ++ x) 0).
  assert (Hok : ds_ok s).
  { split; [cbn [nReadPos vch s]; pose proof (size_of_nonneg (enc c a ++ x)); lia|]; split; [exact Hs|].
    apply words_app; [now apply (codec_bytes (codec_ok := Hc)) | exact Hx]. }
  destruct (codec_roundtrip (codec_ok := Hc) old a Hf Ha s x Hok eq_refl) as (s1 & E1 & _ & R1).
  destruct (codec_roundtrip (codec_ok := Hc) old b Hf Hb s y Hok E) as (s2 & E2 & _ & R2).
  assert (Heq : Some (a, s1) = Some (b, s2)) by congruence.
  assert (a = b /\ s1 = s2) as [-> <-] by (split; congruence); split; [reflexivity | congruence].
Qed.

Definition signed_input (i : CTxIn) : COutPoint * Z := (prevout i, nSequence i).

(** Everything in a transaction but the scripts of its inputs. *)
Definition signed_part (t : CTransaction) :=
  (tx_nVersion t, tx_nTime t, map signed_input (vin t), vout t, (nLockTime t, strTxComment t, nProdTypeID t)).

Lemma sign_inputs_part code nIn ins : (nIn < length ins)%nat ->
  map signed_input (sign_inputs code nIn ins) = map signed_input ins
  /\ length (sign_inputs code nIn ins) = length ins.
Proof.
  intros Hn; unfold sign_inputs; rewrite length_upd, length_map by (rewrite length_map; exact Hn).
  split; [|reflexivity]; rewrite (map_upd _ _ _ _ CTxIn_null) by (rewrite ?length_map; auto).
  rewrite map_map; apply map_ext; reflexivity.
Qed.

(** The script that is hashed for the input being signed. *)
Definition signed_code (code : list Z) : list Z := snd (FindAndDelete code (push_op OP_CODESEPARATOR)).

(** The scripts of the inputs: the code at the input being signed, nothing
    elsewhere. *)
Lemma sign_inputs_script code nIn ins i : (nIn < length ins)%nat ->
  scriptSig (nth i (sign_inputs code nIn ins) CTxIn_null) = if (i =? nIn)%nat then code else [].
Proof.
  intros Hn; unfold sign_inputs; destruct (Nat.ltb_spec i (length ins)) as [Hi|Hi].
  - rewrite nth_upd by (now rewrite length_map).
    destruct (Nat.eqb_spec i nIn); [reflexivity|].
    change CTxIn_null with (blank_script CTxIn_null); now rewrite map_nth.
  - rewrite nth_overflow by (now rewrite length_upd; rewrite length_map).
    destruct (Nat.eqb_spec i nIn); [lia | reflexivity].
Qed.

Lemma sign_inputs_inj code code' nIn nIn' ins ins' : (nIn < length ins)%nat -> (nIn' < length ins')%nat ->
  sign_inputs code nIn ins = sign_inputs code' nIn' ins' -> code = code' /\ (nIn = nIn' \/ code = []).
Proof.
  intros Hn Hn' E.
  assert (Hs : forall i, (if (i =? nIn)%nat then code else []) = if (i =? nIn')%nat then code' else []).
  { intros i; rewrite <- (sign_inputs_script code nIn ins i Hn), <- (sign_inputs_script code' nIn' ins' i Hn'), E; reflexivity. }
  pose proof (Hs nIn) as H1; pose proof (Hs nIn') as H2; rewrite Nat.eqb_refl in H1, H2.
  rewrite Nat.eqb_sym in H2; destruct (Nat.eqb_spec nIn nIn'); [auto|]; split; [congruence | now right].
Qed.

Lemma sign_inputs_valid code nIn ins : (nIn < length ins)%nat -> short_bytes code ->
  short_vector txin_valid ins -> short_vector txin_valid (sign_inputs code nIn ins).
Proof.
  intros Hn Hc [Hv Hl]; split; [|rewrite (proj2 (sign_inputs_part code nIn ins Hn)); exact Hl].
  assert (Hb : Forall txin_valid (map blank_script ins)).
  { apply Forall_map; eapply Forall_impl; [|exact Hv]; intros i (Ho & _ & Hs).
    split; [exact Ho | split; [split; [constructor | cbn; unfold MAX_SIZE; lia] | exact Hs]]. }
  apply Forall_upd; [now rewrite length_map | exact Hb|].
  assert (Hi : txin_valid (nth nIn (map blank_script ins) CTxIn_null)).
  { rewrite Forall_forall in Hb; apply Hb, nth_In; now rewrite length_map. }
  destruct Hi as (Ho & _ & Hs); split; [exact Ho | split; [exact Hc | exact Hs]].
Qed.

(** The hash types that sign all inputs and outputs. *)
Definition signs_all (nHashType : Z) : Prop :=
  nHashType .& 0x1F <> SIGHASH_NONE /\ nHashType .& 0x1F <> SIGHASH_SINGLE
  /\ nHashType .& SIGHASH_ANYONECANPAY = 0 /\ srange 4 nHashType.

Definition all_tx (code : list Z) (tx : CTransaction) (nIn : nat) : CTransaction :=
  with_io tx (sign_inputs (signed_code code) nIn (vin tx)) (vout tx).

Lemma sign_tx_all code tx nIn ht : signs_all ht -> (nIn < length (vin tx))%nat ->
  sign_tx code tx nIn ht = Some (all_tx code tx nIn).
Proof.
  intros (H1 & H2 & H3 & _) Hn; unfold sign_tx, all_tx.
  rewrite (proj2 (Nat.leb_gt _ _)) by assumption.
  now rewrite (proj2 (Z.eqb_neq _ _) H1), (proj2 (Z.eqb_neq _ _) H2), H3.
Qed.

Lemma all_tx_valid code tx nIn : tx_valid tx -> short_bytes code -> (nIn < length (vin tx))%nat ->
  tx_valid (all_tx code tx nIn) /\ signed_part (all_tx code tx nIn) = signed_part tx.
Proof.
  intros (H1 & H2 & H3 & H4 & H5 & H6 & H7 & H8) Hc Hn; split.
  - unfold tx_valid, all_tx, with_io, tx_fresh; cbn [tx_nVersion tx_nTime vin vout nLockTime strTxComment nProdTypeID].
    split; [exact H1|]; split; [exact H2|]; split; [|exact (conj H4 (conj H5 (conj H6 (conj H7 H8))))].
    apply sign_inputs_valid; [exact Hn | now apply FindAndDelete_short | exact H3].
  - unfold signed_part, all_tx, with_io; cbn [tx_nVersion tx_nTime vin vout nLockTime strTxComment nProdTypeID].
    now rewrite (proj1 (sign_inputs_part _ _ _ Hn)).
Qed.

Section Binding.
Context {H : hash_lib}.

(** C25: A signature with hash type [SIGHASH_ALL] commits to the whole
    transaction and to the script it is for: two signature hashes agree only if
    the transactions agree in everything but the input scripts (version, time,
    outpoints and sequence numbers of all inputs, outputs, lock time, comment,
    productivity type), in the hash type and in the script code without its
    [OP_CODESEPARATOR]s, and are for the same input unless that code is empty,
    or else a collision of the double SHA-256 is at hand.  Nothing else is
    signed: when all these agree, whatever the scripts of the inputs, the
    hashes agree.  An input that does not exist, or [SIGHASH_SINGLE] without a
    matching output, gives the constant hash 1 whatever the transaction. *)
Theorem signature_hash_binding (code code' : list Z) (tx tx' : CTransaction) (nIn nIn' : nat) (ht ht' : Z) :
  tx_valid tx -> tx_valid tx' -> short_bytes code -> short_bytes code' ->
  (nIn < length (vin tx))%nat -> (nIn' < length (vin tx'))%nat -> signs_all ht -> signs_all ht' ->
  size_of (sign_bytes (all_tx code tx nIn) ht) < 2 ^ 31 ->
  (SignatureHash code tx nIn ht = SignatureHash code' tx' nIn' ht' ->
     (signed_part tx = signed_part tx' /\ ht = ht' /\ signed_code code = signed_code code'
      /\ (nIn = nIn' \/ signed_code code = [])) \/ (exists x y, x <> y /\ Hash x = Hash y))
  /\ (signed_part tx = signed_part tx' -> signed_code code = signed_code code' ->
      SignatureHash code tx nIn ht = SignatureHash code' tx' nIn ht)
  /\ (forall n, (length (vin tx) <= n)%nat -> SignatureHash code tx n ht = uint_of_u64 8 1)
  /\ (forall t n, t .& 0x1F = SIGHASH_SINGLE -> (length (vout tx) <= n)%nat ->
        SignatureHash code tx n t = uint_of_u64 8 1).
Proof.
  intros Hv Hv' Hc Hc' Hn Hn' Hht Hht' Hsz.
  destruct (all_tx_valid code tx nIn Hv Hc Hn) as [Ha Hp]; destruct (all_tx_valid code' tx' nIn' Hv' Hc' Hn') as [Ha' Hp'].
  split; [|split; [|split]].
  - unfold SignatureHash; rewrite !sign_tx_all by assumption; intros E.
    destruct (list_eq_dec Z.eq_dec (sign_bytes (all_tx code tx nIn) ht) (sign_bytes (all_tx code' tx' nIn') ht')) as [Eb|Eb];
      [left | right; eauto].
    destruct (codec_inj tx_codec _ _ tx_ok (CTransaction_null 0 1) _ _ _ _ (conj eq_refl eq_refl) Ha Ha'
      (le_split_bytes 4 ht) (le_split_bytes 4 ht') Hsz Eb) as [Et Eh].
    split; [rewrite <- Hp, <- Hp', Et; reflexivity|]; split.
    2: { exact (sign_inputs_inj _ _ _ _ _ _ Hn Hn' (f_equal vin Et)). }
    apply (f_equal le_combine) in Eh; unfold write_int in Eh; rewrite !le_combine_split, !trunc_mod in Eh by lia.
    destruct Hht as (_ & _ & _ & Hr), Hht' as (_ & _ & _ & Hr'); unfold srange in Hr, Hr'.
    apply (f_equal (to_signed 32)) in Eh; change (8 * Z.of_nat 4) with 32 in *.
    now rewrite !to_signed_wrap in Eh by lia.
  - intros E Ec; unfold SignatureHash.
    assert (El : length (vin tx) = length (vin tx')).
    { apply (f_equal (fun p => length (snd (fst (fst p))))) in E; unfold signed_part in E; cbn [fst snd] in E.
      now rewrite !length_map in E. }
    rewrite !sign_tx_all by (assumption || lia); do 2 f_equal; unfold all_tx, with_io.
    rewrite Ec; injection E as E1 E2 E3 E4 E5 E6 E7; rewrite E1, E2, E4, E5, E6, E7; f_equal.
    unfold sign_inputs; assert (Em : map blank_script (vin tx) = map blank_script (vin tx')).
    { replace (map blank_script (vin tx)) with (map (fun p => TxIn (fst p) [] (snd p)) (map signed_input (vin tx)))
        by (rewrite map_map; apply map_ext; reflexivity).
      rewrite E3, map_map; apply map_ext; reflexivity. }
    now rewrite Em.
  - intros n Hl; unfold SignatureHash, sign_tx; now rewrite (proj2 (Nat.leb_le _ _) Hl).
  - intros t n Ht Hl; unfold SignatureHash, sign_tx; destruct (_ <=? n)%nat; [reflexivity|].
    now rewrite Ht, (proj2 (Nat.leb_le _ _) Hl).
Qed.

End Binding.

Lemma signature_hash_binding_witness :
  SignatureHash (H := toy_hash) [0x51] sample_tx 5 SIGHASH_ALL = uint_of_u64 8 1
  /\ SignatureHash (H := toy_hash) [0x51] sample_tx 0 SIGHASH_ALL
     = SignatureHash (H := toy_hash) [0x51] (with_io sample_tx [blank_script (nth 0 (vin sample_tx) CTxIn_null)] (vout sample_tx)) 0 SIGHASH_ALL.
Proof.
  assert (Hall : signs_all SIGHASH_ALL) by (repeat split; vm_compute; discriminate || reflexivity).
  assert (Hs : short_bytes [0x51]) by (split; [words_dec | vm_compute; discriminate]).
  assert (Hv : tx_valid (with_io sample_tx [blank_script (nth 0 (vin sample_tx) CTxIn_null)] (vout sample_tx))).
  { pose proof sample_tx_valid as (H1 & H2 & [H3 H3'] & H4 & H5 & H6 & H7 & H8).
    split; [exact H1|]; split; [exact H2|]; split; [|exact (conj H4 (conj H5 (conj H6 (conj H7 H8))))].
    split; [|exact H3']; constructor; [|constructor]; apply Forall_inv in H3 as (Ho & _ & Hq).
    split; [exact Ho | split; [split; [constructor | vm_compute; discriminate] | exact Hq]]. }
  destruct (signature_hash_binding (H := toy_hash) [0x51] [0x51] sample_tx
    (with_io sample_tx [blank_script (nth 0 (vin sample_tx) CTxIn_null)] (vout sample_tx)) 0 0 SIGHASH_ALL SIGHASH_ALL
    sample_tx_valid Hv Hs Hs) as (_ & H2 & H3 & _); [cbn; lia | cbn; lia | exact Hall | exact Hall | vm_compute; reflexivity |].
  split; [apply H3; cbn; lia | now apply H2].
Defined.
