(* ===== verification/BlockIndex.v ===== *)
(** * BlockIndex: CBlockIndex and the hash of a block (main.h, main.cpp)

    The in-memory index entry of a block, its flags, its construction from a
    block, the median time of the last eleven blocks and the trust of a
    block.  A chain is the list of the entries from one block back to the
    genesis block: [pprev] is the tail of the list, [NULL] for one entry. *)

From Stdlib Require Import ZArith List Lia Bool Permutation Sorted.
From S2P Require Import Prelude SphTypes Uint256 Serialize BigNum Transaction Script.
Import ListNotations.

Open Scope Z_scope.
Open Scope word_scope.

Record CBlockIndex := BlockIndex {
  bi_hash : list Z;
  bi_nFile : Z;
  bi_nBlockPos : Z;
  bi_nChainTrust : list Z;
  bi_nHeight : Z;
  bi_nMint : Z;
  bi_nMoneySupply : Z;
  bi_nFlags : Z;
  bi_nStakeModifier : Z;
  bi_nStakeModifierChecksum : Z;
  bi_prevoutStake : COutPoint;
  bi_nStakeTime : Z;
  bi_hashProof : list Z;
  bi_nVersion : Z;
  bi_hashMerkleRoot : list Z;
  bi_nTime : Z;
  bi_nBits : Z;
  bi_nNonce : Z
}.

Definition BLOCK_PROOF_OF_STAKE : Z := 1.
Definition BLOCK_STAKE_ENTROPY : Z := 2.
Definition BLOCK_STAKE_MODIFIER : Z := 4.

(** The default constructor; [phashBlock] is [NULL] there. *)
Definition CBlockIndex_null : CBlockIndex :=
  BlockIndex [] 0 0 null_hash 0 0 0 0 0 0 COutPoint_null 0 null_hash 0 null_hash 0 0 0.

Definition bi_IsProofOfStake (b : CBlockIndex) : bool := negb (bi_nFlags b .& BLOCK_PROOF_OF_STAKE =? 0).
Definition bi_IsProofOfWork (b : CBlockIndex) : bool := bi_nFlags b .& BLOCK_PROOF_OF_STAKE =? 0.
Definition bi_GetStakeEntropyBit (b : CBlockIndex) : Z := (bi_nFlags b .& BLOCK_STAKE_ENTROPY) >> 1.
Definition GeneratedStakeModifier (b : CBlockIndex) : bool := negb (bi_nFlags b .& BLOCK_STAKE_MODIFIER =? 0).

(** Field updates. *)
Definition set_flags (b : CBlockIndex) (f : Z) : CBlockIndex :=
  BlockIndex (bi_hash b) (bi_nFile b) (bi_nBlockPos b) (bi_nChainTrust b) (bi_nHeight b) (bi_nMint b)
    (bi_nMoneySupply b) f (bi_nStakeModifier b) (bi_nStakeModifierChecksum b) (bi_prevoutStake b) (bi_nStakeTime b)
    (bi_hashProof b) (bi_nVersion b) (bi_hashMerkleRoot b) (bi_nTime b) (bi_nBits b) (bi_nNonce b).
Definition set_place (b : CBlockIndex) (hash trust : list Z) (height : Z) (proof : list Z) : CBlockIndex :=
  BlockIndex hash (bi_nFile b) (bi_nBlockPos b) trust height (bi_nMint b)
    (bi_nMoneySupply b) (bi_nFlags b) (bi_nStakeModifier b) (bi_nStakeModifierChecksum b) (bi_prevoutStake b)
    (bi_nStakeTime b) proof (bi_nVersion b) (bi_hashMerkleRoot b) (bi_nTime b) (bi_nBits b) (bi_nNonce b).
Definition set_modifier (b : CBlockIndex) (modifier : Z) : CBlockIndex :=
  BlockIndex (bi_hash b) (bi_nFile b) (bi_nBlockPos b) (bi_nChainTrust b) (bi_nHeight b) (bi_nMint b)
    (bi_nMoneySupply b) (bi_nFlags b) modifier (bi_nStakeModifierChecksum b) (bi_prevoutStake b) (bi_nStakeTime b)
    (bi_hashProof b) (bi_nVersion b) (bi_hashMerkleRoot b) (bi_nTime b) (bi_nBits b) (bi_nNonce b).
Definition set_checksum (b : CBlockIndex) (checksum : Z) : CBlockIndex :=
  BlockIndex (bi_hash b) (bi_nFile b) (bi_nBlockPos b) (bi_nChainTrust b) (bi_nHeight b) (bi_nMint b)
    (bi_nMoneySupply b) (bi_nFlags b) (bi_nStakeModifier b) checksum (bi_prevoutStake b) (bi_nStakeTime b)
    (bi_hashProof b) (bi_nVersion b) (bi_hashMerkleRoot b) (bi_nTime b) (bi_nBits b) (bi_nNonce b).
Definition set_money (b : CBlockIndex) (mint supply : Z) : CBlockIndex :=
  BlockIndex (bi_hash b) (bi_nFile b) (bi_nBlockPos b) (bi_nChainTrust b) (bi_nHeight b) mint
    supply (bi_nFlags b) (bi_nStakeModifier b) (bi_nStakeModifierChecksum b) (bi_prevoutStake b) (bi_nStakeTime b)
    (bi_hashProof b) (bi_nVersion b) (bi_hashMerkleRoot b) (bi_nTime b) (bi_nBits b) (bi_nNonce b).

Definition SetProofOfStake (b : CBlockIndex) : CBlockIndex := set_flags b (bi_nFlags b .| BLOCK_PROOF_OF_STAKE).

(** [None] is the result [false]. *)
Definition SetStakeEntropyBit (b : CBlockIndex) (nEntropyBit : Z) : option CBlockIndex :=
  if 1 <? nEntropyBit then None
  else Some (set_flags b (bi_nFlags b .| (if nEntropyBit =? 0 then 0 else BLOCK_STAKE_ENTROPY))).

Definition SetStakeModifier (b : CBlockIndex) (nModifier : Z) (fGeneratedStakeModifier : bool) : CBlockIndex :=
  let b := set_modifier b nModifier in
  if fGeneratedStakeModifier then set_flags b (bi_nFlags b .| BLOCK_STAKE_MODIFIER) else b.

(** [CBlockIndex(nFile, nBlockPos, block)] *)
Definition index_of_block (nFileIn nBlockPosIn : Z) (block : CBlock) : CBlockIndex :=
  let b := BlockIndex [] nFileIn nBlockPosIn null_hash 0 0 0 0 0 0 COutPoint_null 0 null_hash
             (bl_nVersion block) (hashMerkleRoot block) (bl_nTime block) (nBits block) (nNonce block) in
  if IsProofOfStake block then
    let coinstake := nth 1 (bl_vtx block) (CTransaction_null 0 1) in
    let b := SetProofOfStake b in
    BlockIndex (bi_hash b) (bi_nFile b) (bi_nBlockPos b) (bi_nChainTrust b) (bi_nHeight b) (bi_nMint b)
      (bi_nMoneySupply b) (bi_nFlags b) (bi_nStakeModifier b) (bi_nStakeModifierChecksum b)
      (prevout (nth 0 (vin coinstake) CTxIn_null)) (tx_nTime coinstake)
      (bi_hashProof b) (bi_nVersion b) (bi_hashMerkleRoot b) (bi_nTime b) (bi_nBits b) (bi_nNonce b)
  else b.

(** ** Median time *)

Definition nMedianTimeSpan : nat := 11.

Definition GetMedianTimePast (chain : list CBlockIndex) : Z :=
  let pmedian := sort_by Z.leb (rev (map bi_nTime (firstn nMedianTimeSpan chain))) in
  nth (length pmedian / 2) pmedian 0.

(** ** Versions *)

Fixpoint super_majority_loop (nToCheck : nat) (minVersion nRequired nFound : Z) (pstart : list CBlockIndex) : Z :=
  match nToCheck, pstart with
  | S nToCheck, b :: pprev =>
      if nFound <? nRequired
      then super_majority_loop nToCheck minVersion nRequired (if minVersion <=? bi_nVersion b then nFound + 1 else nFound) pprev
      else nFound
  | _, _ => nFound
  end.

Definition IsSuperMajority (minVersion : Z) (pstart : list CBlockIndex) (nRequired : Z) (nToCheck : nat) : bool :=
  nRequired <=? super_majority_loop nToCheck minVersion nRequired 0 pstart.

(** ** Block hashes and trust *)

Definition LAUNCH_TIME : Z := 1432620000.
Definition LAST_X11_TIME : Z := LAUNCH_TIME + 10 * 24 * 60 * 60.

Section Hashes.
Context {H : hash_lib} (Hash9 : list Z -> list Z).

(** The eighty bytes from [BEGIN(nVersion)] to [END(nNonce)] are the encoding
    of the header. *)
Definition header_bytes (b : CBlock) : list Z := enc (block_codec SER_GETHASH (CTransaction_null 0 1)) b.

(** [Hash9] is the X11 hash of hashblock.h. *)
Definition block_GetHash (b : CBlock) : list Z :=
  if LAST_X11_TIME <? bl_nTime b then Hash (header_bytes b) else Hash9 (header_bytes b).

Definition block_GetStakeEntropyBit (b : CBlock) : Z := Get64 (block_GetHash b) 0 .& 1.
End Hashes.

Section Trust.
Context {L : BN_lib}.

(** [None] is a division by zero, which throws. *)
Definition GetBlockTrust (b : CBlockIndex) : option (list Z) :=
  let bnTarget := SetCompact (bi_nBits b) in
  if bn_le bnTarget (CBigNum_int 0) then Some (uint_of_u64 8 0)
  else option_map getuint256 (BN_div (BN_lshift (CBigNum_int 1) 256) (BN_add bnTarget (CBigNum_int 1))).
End Trust.

(** ** Trust: laws *)

Section TrustLaws.
Context {L : BN_lib} {HL : BN_laws L}.

(** The trust of a block is the expected number of hashes to meet its
    target, and zero for a target that is not positive. *)
Lemma GetBlockTrust_spec b : SetCompact (bi_nBits b) < 2 ^ 256 ->
  exists t, GetBlockTrust b = Some t /\ wf 8 t
    /\ val t = if SetCompact (bi_nBits b) <=? 0 then 0 else 2 ^ 256 / (SetCompact (bi_nBits b) + 1).
Proof.
  intros Ht; unfold GetBlockTrust; rewrite bn_le_spec, !CBigNum_int_spec by lia.
  destruct (Z.leb_spec (SetCompact (bi_nBits b)) 0) as [Hn|Hp].
  - exists (uint_of_u64 8 0); split; [reflexivity|]; split; [split; [reflexivity | words_dec] | reflexivity].
  - rewrite lshift_law, add_law, div_law by lia; rewrite (proj2 (Z.eqb_neq _ 0)) by lia; cbn [option_map].
    rewrite Z.mul_1_l, Z.quot_div_nonneg by lia; set (t := SetCompact (bi_nBits b)) in *; clearbody t.
    assert (Hq : 0 <= 2 ^ 256 / (t + 1) < 2 ^ 256).
    { split; [apply Z.div_pos; lia | apply Z.div_lt_upper_bound; lia]. }
    destruct (getuint256_spec (2 ^ 256 / (t + 1))) as [W V]; [apply (bn_small_below _ 256); lia|].
    eexists; split; [reflexivity|]; split; [exact W|]; rewrite V, Z.abs_eq, Z.mod_small by lia; reflexivity.
Qed.
End TrustLaws.

(** ** Median time: laws *)

(** The times of the window. *)
Definition window_times (chain : list CBlockIndex) : list Z := map bi_nTime (firstn nMedianTimeSpan chain).

Lemma median_sorted l : StronglySorted (fun x y => Z.leb x y = true) (sort_by Z.leb l).
Proof. apply sort_by_sorted; lia. Qed.

Lemma median_perm chain : Permutation (sort_by Z.leb (rev (window_times chain))) (window_times chain).
Proof. rewrite sort_by_perm; symmetry; apply Permutation_rev. Qed.

Lemma length_window chain : chain <> [] -> (0 < length (window_times chain) <= 11)%nat.
Proof.
  intros Hne; unfold window_times, nMedianTimeSpan; rewrite length_map, length_firstn.
  destruct chain; [congruence|]; cbn [length]; lia.
Qed.

(** The median is at least [v] exactly when at most half of the window,
    rounded down, is below [v]. *)
Lemma median_count chain v : chain <> [] ->
  v <= GetMedianTimePast chain <-> (count (fun x => x <? v)%Z (window_times chain) <= length (window_times chain) / 2)%nat.
Proof.
  intros Hne; unfold GetMedianTimePast; fold (window_times chain); cbv zeta.
  pose proof (median_perm chain) as Hp; pose proof (Permutation_length Hp) as El; pose proof (length_window chain Hne).
  rewrite (sorted_nth_count _ _ v (median_sorted _)), (count_perm _ _ _ Hp), El; [reflexivity|].
  rewrite El; apply Nat.div_lt; lia.
Qed.

Lemma window_times_cons b chain : chain <> [] ->
  exists rest, window_times (b :: chain) = bi_nTime b :: rest /\ (length (window_times chain) <= S (length rest))%nat
    /\ forall p : Z -> bool, (count p rest <= count p (window_times chain))%nat.
Proof.
  intros Hne; exists (map bi_nTime (firstn 10 chain)); split; [reflexivity|]; unfold window_times, nMedianTimeSpan.
  split; [rewrite !length_map, !length_firstn; lia|]; intros p.
  replace (firstn 10 chain) with (firstn 10 (firstn 11 chain)) by now rewrite firstn_firstn.
  rewrite <- (firstn_skipn 10 (firstn 11 chain)) at 2; rewrite map_app, count_app; lia.
Qed.

(** A block accepted after its chain is later than the median of the chain. *)
Inductive timed_chain : list CBlockIndex -> Prop :=
| timed_genesis b : timed_chain [b]
| timed_next b chain : timed_chain chain -> GetMedianTimePast chain < bi_nTime b -> timed_chain (b :: chain).

Lemma median_step b chain : chain <> [] -> GetMedianTimePast chain <= bi_nTime b ->
  GetMedianTimePast chain <= GetMedianTimePast (b :: chain).
Proof.
  intros Hne Hb; apply median_count; [discriminate|].
  destruct (window_times_cons b chain Hne) as (rest & E & Hl & Hc); rewrite E; cbn [length].
  pose proof (proj1 (median_count chain (GetMedianTimePast chain) Hne) (Z.le_refl _)) as Hm.
  set (m := GetMedianTimePast chain) in *; specialize (Hc (fun x => (x <? m)%Z)).
  assert (Ht : count (fun x => (x <? m)%Z) (bi_nTime b :: rest) = count (fun x => (x <? m)%Z) rest).
  { unfold count; cbn [filter]; now rewrite (proj2 (Z.ltb_ge _ _) Hb). }
  rewrite Ht; pose proof (Nat.Div0.div_le_mono (length (window_times chain)) (S (length rest)) 2 Hl); lia.
Qed.

(** The median time past is the time of one of the last eleven blocks, at
    most half of them are earlier and at most half are later; along a chain
    whose blocks are each later than the median before them it never
    decreases, so no block may be dated before the median of any earlier
    point of its chain. *)
Theorem median_time_monotone (early : list CBlockIndex) (later : list CBlockIndex) :
  early <> [] -> timed_chain (later ++ early) ->
  let m := GetMedianTimePast early in
  In m (window_times early)
  /\ (count (fun x => x <? m)%Z (window_times early) <= length (window_times early) / 2)%nat
  /\ (count (fun x => m <? x)%Z (window_times early) <= length (window_times early) / 2)%nat
  /\ m <= GetMedianTimePast (later ++ early)
  /\ Forall (fun b => m < bi_nTime b) later.
Proof.
  intros Hne Ht m; split; [|split; [now apply median_count; [|lia] | split]].
  - apply (Permutation_in _ (median_perm early)); unfold m, GetMedianTimePast; fold (window_times early); cbv zeta.
    apply nth_In, Nat.div_lt; [|lia]; rewrite (Permutation_length (median_perm early)); apply length_window, Hne.
  - pose proof (length_window early Hne) as Hlen.
    assert (H : ~ (m + 1 <= GetMedianTimePast early)) by (unfold m; lia).
    rewrite median_count in H by assumption.
    assert (E : (count (fun x => x <? m + 1)%Z (window_times early) + count (fun x => m <? x)%Z (window_times early)
            = length (window_times early))%nat).
    { unfold count; clear; induction (window_times early) as [|x l IH]; [reflexivity|]; cbn [filter length].
      destruct (Z.ltb_spec x (m + 1)), (Z.ltb_spec m x); cbn [length]; lia. }
    pose proof (Nat.div_mod_eq (length (window_times early)) 2).
    pose proof (Nat.mod_upper_bound (length (window_times early)) 2 ltac:(lia)); lia.
  - enough (G : m <= GetMedianTimePast (later ++ early) /\ Forall (fun b => m < bi_nTime b) later) by exact G.
    induction later as [|b later IH]; cbn [app] in *; [split; [lia | constructor]|].
    assert (Hne' : later ++ early <> []) by (destruct later; [assumption | discriminate]).
    inversion Ht as [b0 E|b0 c Hc Hb E]; subst; [congruence|]; destruct (IH Hc) as [H1 H2].
    pose proof (median_step b _ Hne' ltac:(lia)); split; [lia|]; constructor; [lia | assumption].
Qed.

Definition at_time (t : Z) : CBlockIndex := BlockIndex [] 0 0 null_hash 0 0 0 0 0 0 COutPoint_null 0 null_hash 0 null_hash t 0 0.

Lemma median_time_monotone_witness :
  let early := map at_time [50; 40; 30] in let later := map at_time [46; 45; 44] in
  GetMedianTimePast early = 40 /\ GetMedianTimePast early <= GetMedianTimePast (later ++ early).
Proof.
  intros early later; split; [vm_compute; reflexivity|].
  destruct (median_time_monotone early later) as (_ & _ & _ & E & _); [discriminate | | exact E].
  do 5 (apply timed_next; [|vm_compute; reflexivity]); apply timed_genesis.
Defined.
