(* ===== verification/Stake.v ===== *)
(** * Stake: block rewards (main.cpp)

    The functions of main.cpp that walk the chain of block indexes: the
    turbo multiplier and the reward of a proof-of-stake block, with the cache
    of signing addresses.  A chain is the list of
    the block indexes from [pindex] back to the genesis block, so that [pprev]
    is the tail and is [NULL] on a list of one element. *)

From Stdlib Require Import ZArith List Lia Bool.
From S2P Require Import Prelude SphTypes Uint256 Serialize BigNum Transaction Script BlockIndex.
Import ListNotations.

Open Scope Z_scope.
Open Scope word_scope.

(** ** Addresses *)

Record CBitcoinAddress := BitcoinAddress { ad_nVersion : Z; ad_vchData : list Z }.

Definition PUBKEY_ADDRESS : Z := 63.
Definition SCRIPT_ADDRESS : Z := 28.
Definition PUBKEY_ADDRESS_TEST : Z := 125.
Definition SCRIPT_ADDRESS_TEST : Z := 196.

(** [CBitcoinAddress(const CTxDestination&)], for destinations that
    [ExtractDestination] makes; others leave the default address. *)
Definition address_of (fTestNet : bool) (d : CTxDestination) : CBitcoinAddress :=
  match d with
  | CKeyID id => BitcoinAddress (if fTestNet then PUBKEY_ADDRESS_TEST else PUBKEY_ADDRESS) (uint_bytes id)
  | CScriptID id => BitcoinAddress (if fTestNet then SCRIPT_ADDRESS_TEST else SCRIPT_ADDRESS) (uint_bytes id)
  | _ => BitcoinAddress 0 []
  end.

(** [operator==], by [CompareTo]. *)
Definition address_eq (a b : CBitcoinAddress) : bool :=
  (ad_nVersion a =? ad_nVersion b) && list_eqb (ad_vchData a) (ad_vchData b).

(** [mapTurboAddress] *)
Definition turbo_map := list (list Z * CBitcoinAddress).

Fixpoint turbo_find (m : turbo_map) (h : list Z) : option CBitcoinAddress :=
  match m with
  | [] => None
  | (k, a) :: m => if list_eqb k h then Some a else turbo_find m h
  end.

(** ** Turbo multiplier *)

Definition nTargetSpacing : Z := 120.
Definition nTargetSpacing2 : Z := 300.
Definition nSpacing2Time : Z := 1442210400.
Definition nTurboLookback : Z := 2 * 24 * 60 * 60.
Definition nTurboDuration : Z := 30 * 24 * 60 * 60.
Definition nTurboEndTime : Z := 1432620187 + nTurboDuration.
Definition nTurbo2_TIME : Z := 1433113200.
Definition MAX_TURBO_MULTIPLIER : Z := 288.
Definition MAX_TURBO_FRACTION_INV : Z := 5.

Definition spacing_used (nTime : Z) : Z := if nTime <? nSpacing2Time then nTargetSpacing else nTargetSpacing2.

Section Turbo.
Context {H : hash_lib} (fTestNet : bool).

(** [block.ReadFromDisk(pindexPrev, true)], by the hash of the index. *)
Context (ReadFromDisk : list Z -> CBlock).

(** The address a block was signed with: the destination of [vtx[1].vout[1]]. *)
Definition signing_address (blockHash : list Z) : option CBitcoinAddress :=
  let block := ReadFromDisk blockHash in
  let txout := nth 1 (vout (nth 1 (bl_vtx block) (CTransaction_null 0 1))) CTxOut_null in
  match ExtractDestination (scriptPubKey txout) with
  | None => None
  | Some sigaddr => Some (address_of fTestNet sigaddr)
  end.

(** The lookup with the cache: the address, or [None] for [return -5], and the
    cache afterwards. *)
Definition block_address (mapTurboAddress : turbo_map) (blockHash : list Z) : option CBitcoinAddress * turbo_map :=
  match turbo_find mapTurboAddress blockHash with
  | Some a => (Some a, mapTurboAddress)
  | None =>
      match signing_address blockHash with
      | Some a => (Some a, (blockHash, a) :: mapTurboAddress)
      | None => (None, mapTurboAddress)
      end
  end.

(** Either an early [return], or the two counts, which are [int]s: at most the
    number of blocks in the lookback. *)
Inductive turbo_result := Return (r : Z) | Counts (turbo_count block_count : Z).

Fixpoint turbo_loop (address : CBitcoinAddress) (lookbackTime allowedSpacing : Z) (chain : list CBlockIndex)
    (mapTurboAddress : turbo_map) (turbo_count block_count time_last : Z) : turbo_result * turbo_map :=
  match chain with
  | [] => (Return (-6), mapTurboAddress)
  | pindexPrev :: pprev =>
      match pprev with
      | [] => (Counts turbo_count block_count, mapTurboAddress)
      | _ =>
          if bi_nTime pindexPrev <? lookbackTime then (Counts turbo_count block_count, mapTurboAddress)
          else
            let block_count := block_count + 1 in
            let loop := turbo_loop address lookbackTime allowedSpacing pprev in
            if bi_IsProofOfStake pindexPrev then
              match block_address mapTurboAddress (bi_hash pindexPrev) with
              | (None, m) => (Return (-5), m)
              | (Some blockAddress, m) =>
                  if address_eq blockAddress address then
                    if time_last - bi_nTime pindexPrev <? allowedSpacing then (Return 0, m)
                    else loop m (turbo_count + 1) block_count (bi_nTime pindexPrev)
                  else loop m turbo_count block_count time_last
              end
            else loop mapTurboAddress turbo_count block_count time_last
      end
  end.

Definition multiplier_of (txTime turbo_count block_count : Z) : Z :=
  let found_ratio := Z.quot block_count turbo_count in
  if found_ratio <? MAX_TURBO_FRACTION_INV then MAX_TURBO_MULTIPLIER
  else
    let multiplier := Z.quot (turbo_count * MAX_TURBO_MULTIPLIER * MAX_TURBO_FRACTION_INV) block_count in
    if (nTurbo2_TIME <=? txTime) && (0 <? turbo_count) && (multiplier =? 0) then 1 else multiplier.

(** The multiplier and the cache; the chain starts with [pindex], which is
    never [NULL]. *)
Definition GetTurboStakeMultiplier (address : CBitcoinAddress) (txTime : Z) (chain : list CBlockIndex)
    (mapTurboAddress : turbo_map) : Z * turbo_map :=
  if nTurboEndTime <? txTime then (1, mapTurboAddress)
  else match chain with
  | [] | [_] => (-4, mapTurboAddress)
  | pindex :: _ =>
      let allowedSpacing := spacing_used (bi_nTime pindex) - 2 in
      match turbo_loop address (txTime - nTurboLookback) allowedSpacing chain mapTurboAddress 1 1 txTime with
      | (Return r, m) => (r, m)
      | (Counts turbo_count block_count, m) => (multiplier_of txTime turbo_count block_count, m)
      end
  end.

(** ** Rewards *)

Definition MAX_MINT_PROOF_OF_STAKE : Z := 10 * CENT.
Definition nPoSFixedRewardTime : Z := 1437804000.
Definition nPoSBigRewardTime : Z := 1442210400.
Definition nPoSTrueInflationSupply : Z := 9060000 * COIN.
Definition nPoSTrueInflationShift : Z := 24.

Definition base_reward (nCoinAge : Z) (pindexPrev : CBlockIndex) : Z :=
  if bi_nTime pindexPrev <? nPoSFixedRewardTime then Z.quot nCoinAge COIN * Z.quot MAX_MINT_PROOF_OF_STAKE 365
  else if bi_nTime pindexPrev <? nPoSBigRewardTime then 1 * COIN
  else if bi_nMoneySupply pindexPrev <? nPoSTrueInflationSupply then 10 * COIN
  else bi_nMoneySupply pindexPrev >> nPoSTrueInflationShift.

Definition GetProofOfStakeReward (nCoinAge : Z) (address : CBitcoinAddress) (nTime : Z) (chain : list CBlockIndex)
    (mapTurboAddress : turbo_map) : Z * turbo_map :=
  let nSubsidy := base_reward nCoinAge (nth 0 chain CBlockIndex_null) in
  let (nMultiplier, m) := GetTurboStakeMultiplier address nTime chain mapTurboAddress in
  let nSubsidy :=
    if nMultiplier <? 1 then 0
    else if 1 <? nMultiplier then i64_mul nSubsidy nMultiplier
    else nSubsidy in
  (nSubsidy, m).

(** ** Filling the cache *)

(** The search for the last turbo block. *)
Fixpoint find_turbo (chain : list CBlockIndex) : list CBlockIndex :=
  match chain with
  | pindex :: ((_ :: _) as pprev) =>
      if (bi_nTime pindex <=? nTurboEndTime) && bi_IsProofOfStake pindex then chain else find_turbo pprev
  | _ => chain
  end.

Fixpoint fill_loop (chain : list CBlockIndex) (m : turbo_map) : Z * turbo_map :=
  match chain with
  | pindex :: ((_ :: _) as pprev) =>
      if bi_IsProofOfStake pindex then
        match block_address m (bi_hash pindex) with
        | (None, m) => (4, m)
        | (Some _, m) => fill_loop pprev m
        end
      else fill_loop pprev m
  | _ => (0, m)
  end.

(** From [pindexLastTurbo] when it is set, or [pindexBest]; a chain is [[]] for
    [NULL]. *)
Definition FillMapTurboAddress (lastTurbo best : list CBlockIndex) (m : turbo_map) : Z * turbo_map :=
  let chain := match lastTurbo with [] => best | _ => lastTurbo end in
  match chain with
  | [] => (1, m)
  | [_] => (2, m)
  | pindex :: _ =>
      let chain :=
        if (nTurboEndTime <? bi_nTime pindex) || negb (bi_IsProofOfStake pindex) then find_turbo chain else chain in
      match chain with
      | [] | [_] => (3, m)
      | _ => fill_loop chain m
      end
  end.

End Turbo.

(** ** What the multiplier is *)

Section TurboSpec.
Context {H : hash_lib} (fTestNet : bool) (ReadFromDisk : list Z -> CBlock).

Abbreviation signer := (signing_address fTestNet ReadFromDisk).

(** The blocks that are counted: back from [pindex], without the genesis block,
    as long as they are in the lookback. *)
Fixpoint window (lookbackTime : Z) (chain : list CBlockIndex) : list CBlockIndex :=
  match chain with
  | b :: ((_ :: _) as pprev) => if bi_nTime b <? lookbackTime then [] else b :: window lookbackTime pprev
  | _ => []
  end.

(** Those staked by an address. *)
Definition staked_by (address : CBitcoinAddress) (b : CBlockIndex) : bool :=
  bi_IsProofOfStake b && match signer (bi_hash b) with Some a => address_eq a address | None => false end.

Definition own_times (address : CBitcoinAddress) (blocks : list CBlockIndex) : list Z :=
  map bi_nTime (filter (staked_by address) blocks).

(** Consecutive times, latest first, at least [gap] apart. *)
Fixpoint spaced (gap t : Z) (times : list Z) : bool :=
  match times with
  | [] => true
  | u :: times => (gap <=? t - u) && spaced gap u times
  end.

Definition readable (b : CBlockIndex) : Prop := bi_IsProofOfStake b = true -> signer (bi_hash b) <> None.

(** A cache that agrees with the disk. *)
Definition cache_ok (m : turbo_map) : Prop := forall h a, turbo_find m h = Some a -> signer h = Some a.

Lemma block_address_ok m h : cache_ok m ->
  fst (block_address fTestNet ReadFromDisk m h) = signer h /\ cache_ok (snd (block_address fTestNet ReadFromDisk m h)).
Proof.
  intros Hm; unfold block_address; destruct (turbo_find m h) as [a|] eqn:E; [split; [now rewrite (Hm h a E) | exact Hm]|].
  destruct (signer h) as [a|] eqn:Ea; [|now split]; split; [reflexivity|]; cbn [snd].
  intros h' a'; cbn [turbo_find]; destruct (list_eqb h h') eqn:Eh; [|apply Hm].
  apply list_eqb_eq in Eh; subst h'; intros [= <-]; exact Ea.
Qed.

Lemma own_times_cons address b w :
  own_times address (b :: w) = if staked_by address b then bi_nTime b :: own_times address w else own_times address w.
Proof. unfold own_times; cbn [filter]; now destruct (staked_by address b). Qed.

Lemma window_cons look b rest : rest <> [] ->
  window look (b :: rest) = if bi_nTime b <? look then [] else b :: window look rest.
Proof. now destruct rest. Qed.

Lemma turbo_loop_cons address look gap b rest m tc bc tl : rest <> [] ->
  turbo_loop fTestNet ReadFromDisk address look gap (b :: rest) m tc bc tl =
  if bi_nTime b <? look then (Counts tc bc, m)
  else if bi_IsProofOfStake b then
    match block_address fTestNet ReadFromDisk m (bi_hash b) with
    | (None, m) => (Return (-5), m)
    | (Some blockAddress, m) =>
        if address_eq blockAddress address then
          if tl - bi_nTime b <? gap then (Return 0, m)
          else turbo_loop fTestNet ReadFromDisk address look gap rest m (tc + 1) (bc + 1) (bi_nTime b)
        else turbo_loop fTestNet ReadFromDisk address look gap rest m tc (bc + 1) tl
    end
  else turbo_loop fTestNet ReadFromDisk address look gap rest m tc (bc + 1) tl.
Proof. intros Hr; cbn [turbo_loop]; now destruct rest. Qed.

(** What is to be shown of a run of the loop over the blocks [w]. *)
Definition run_ok address gap (r : turbo_result * turbo_map) (w : list CBlockIndex) tc bc tl : Prop :=
  cache_ok (snd r)
  /\ match fst r with
     | Return c => c = 0 \/ c = -5
     | Counts t b => b = bc + Z.of_nat (length w) /\ tc <= t <= tc + Z.of_nat (length w)
     end
  /\ (Forall readable w ->
      fst r = if spaced gap tl (own_times address w)
              then Counts (tc + Z.of_nat (length (own_times address w))) (bc + Z.of_nat (length w)) else Return 0).

(** A block that is not the staker's. *)
Lemma run_ok_other address gap r b w tc bc tl :
  staked_by address b = false -> run_ok address gap r w tc (bc + 1) tl -> run_ok address gap r (b :: w) tc bc tl.
Proof.
  intros Hs (H1 & H2 & H3); unfold run_ok; rewrite own_times_cons, Hs; cbn [length].
  split; [exact H1|]; split; [destruct (fst r); [exact H2 | lia]|].
  intros Hd; apply Forall_cons_iff in Hd as [_ Hd]; rewrite (H3 Hd).
  destruct (spaced _ _ _); [f_equal; lia | reflexivity].
Qed.

(** A block of the staker, at a sufficient distance. *)
Lemma run_ok_own address gap r b w tc bc tl :
  staked_by address b = true -> gap <= tl - bi_nTime b ->
  run_ok address gap r w (tc + 1) (bc + 1) (bi_nTime b) -> run_ok address gap r (b :: w) tc bc tl.
Proof.
  intros Hs Hg (H1 & H2 & H3); unfold run_ok; rewrite own_times_cons, Hs; cbn [length spaced].
  rewrite (proj2 (Z.leb_le _ _) Hg); cbn [andb].
  split; [exact H1|]; split; [destruct (fst r); [exact H2 | lia]|].
  intros Hd; apply Forall_cons_iff in Hd as [_ Hd]; rewrite (H3 Hd).
  destruct (spaced _ _ _); [f_equal; lia | reflexivity].
Qed.

Lemma turbo_loop_ok address look gap chain m tc bc tl :
  chain <> [] -> cache_ok m ->
  run_ok address gap (turbo_loop fTestNet ReadFromDisk address look gap chain m tc bc tl) (window look chain) tc bc tl.
Proof.
  revert m tc bc tl; induction chain as [|b chain IH]; intros m tc bc tl Hne Hm; [congruence|].
  assert (Hstop : run_ok address gap (Counts tc bc, m) [] tc bc tl).
  { split; [exact Hm|]; cbn [fst length own_times filter map spaced]; rewrite !Z.add_0_r; split; [lia | reflexivity]. }
  assert (chain = [] \/ chain <> []) as [-> | Hr] by (destruct chain; [now left | now right]); [exact Hstop|].
  specialize (fun m tc bc tl => IH m tc bc tl Hr).
  rewrite turbo_loop_cons, window_cons by assumption; destruct (bi_nTime b <? look); [exact Hstop|].
  destruct (bi_IsProofOfStake b) eqn:Ep.
  - destruct (block_address_ok m (bi_hash b) Hm) as [Ea Hm'].
    destruct (block_address fTestNet ReadFromDisk m (bi_hash b)) as [oa m']; cbn [fst snd] in Ea, Hm'; subst oa.
    destruct (signer (bi_hash b)) as [a|] eqn:Es.
    + destruct (address_eq a address) eqn:Eaa.
      * assert (Hs : staked_by address b = true) by (unfold staked_by; now rewrite Ep, Es, Eaa).
        destruct (Z.ltb_spec (tl - bi_nTime b) gap); [|apply run_ok_own; [assumption | lia | now apply IH]].
        split; [exact Hm' | split; [now left|]]; intros _; rewrite own_times_cons, Hs; cbn [spaced fst].
        now rewrite (proj2 (Z.leb_gt _ _)) by lia.
      * apply run_ok_other; [unfold staked_by; now rewrite Ep, Es, Eaa | now apply IH].
    + split; [exact Hm' | split; [now right|]]; intros Hd; apply Forall_cons_iff in Hd as [Hd _]; now destruct (Hd Ep).
  - apply run_ok_other; [unfold staked_by; now rewrite Ep | now apply IH].
Qed.

Lemma multiplier_range txTime t b : 1 <= t <= b ->
  0 <= multiplier_of txTime t b <= MAX_TURBO_MULTIPLIER
  /\ (b < 5 * t -> multiplier_of txTime t b = MAX_TURBO_MULTIPLIER)
  /\ (5 * t <= b -> t * 1440 < b * (multiplier_of txTime t b + 1))
  /\ (nTurbo2_TIME <= txTime -> 1 <= multiplier_of txTime t b).
Proof.
  intros Ht; unfold multiplier_of, MAX_TURBO_FRACTION_INV, MAX_TURBO_MULTIPLIER.
  replace (t * 288 * 5) with (t * 1440) by ring; rewrite !Z.quot_div_nonneg by lia.
  pose proof (Z.div_mod b t ltac:(lia)); pose proof (Z.mod_pos_bound b t ltac:(lia)).
  destruct (Z.ltb_spec (b / t) 5) as [Hf|Hf].
  { assert (b < 5 * t) by nia; repeat split; lia. }
  assert (5 * t <= b) by nia.
  pose proof (Z.div_mod (t * 1440) b ltac:(lia)); pose proof (Z.mod_pos_bound (t * 1440) b ltac:(lia)).
  assert (0 <= t * 1440 / b <= 288) by (split; [apply Z.div_pos | apply Z.div_le_upper_bound]; lia).
  set (q := t * 1440 / b) in *; clearbody q.
  rewrite (proj2 (Z.ltb_lt 0 t)), andb_true_r by lia.
  destruct (Z.leb_spec nTurbo2_TIME txTime), (Z.eqb_spec q 0) as [Eq|Eq]; cbn [andb]; rewrite ?Eq in *; repeat split; try lia; nia.
Qed.

Lemma multiplier_upper txTime t b : 1 <= t <= b -> 5 * t <= b ->
  b * multiplier_of txTime t b <= t * 1440 \/ multiplier_of txTime t b = 1.
Proof.
  intros Ht H5; unfold multiplier_of, MAX_TURBO_FRACTION_INV, MAX_TURBO_MULTIPLIER.
  replace (t * 288 * 5) with (t * 1440) by ring; rewrite !Z.quot_div_nonneg by lia.
  rewrite (proj2 (Z.ltb_ge (b / t) 5)) by (apply Z.div_le_lower_bound; lia).
  destruct (_ && _); [now right | left; apply Z.mul_div_le; lia].
Qed.

(** Filling the cache keeps it right. *)
Lemma fill_loop_ok chain m : cache_ok m -> cache_ok (snd (fill_loop fTestNet ReadFromDisk chain m)).
Proof.
  revert m; induction chain as [|b chain IH]; intros m Hm; [exact Hm|].
  destruct chain as [|b' chain]; [exact Hm|]; cbn [fill_loop]; destruct (bi_IsProofOfStake b); [|now apply IH].
  destruct (block_address_ok m (bi_hash b) Hm) as [_ Hm'].
  destruct (block_address fTestNet ReadFromDisk m (bi_hash b)) as [[a|] m']; [now apply IH | exact Hm'].
Qed.

Lemma FillMap_ok lastTurbo best m : cache_ok m -> cache_ok (snd (FillMapTurboAddress fTestNet ReadFromDisk lastTurbo best m)).
Proof.
  intros Hm; unfold FillMapTurboAddress; destruct (match lastTurbo with [] => best | _ => lastTurbo end) as [|b [|b' chain]];
    try exact Hm; destruct (_ || _); [|now apply fill_loop_ok].
  destruct (find_turbo (b :: b' :: chain)) as [|c [|c' l]]; try exact Hm; now apply fill_loop_ok.
Qed.

Lemma window_length look chain : (length (window look chain) <= length chain)%nat.
Proof.
  induction chain as [|b chain IH]; [cbn; lia|]; destruct chain as [|b' chain]; [cbn; lia|].
  rewrite window_cons by discriminate; destruct (_ <? _); cbn [length] in *; lia.
Qed.

(** C27: The turbo multiplier.  Up to the end of the turbo period it is the
    number of the staker's blocks in the two days before the transaction,
    the new one included, over the number of all blocks, times 1440,
    cut at 288, which is reached from one block in five on; it is 0 when two
    consecutive blocks of the staker are closer than the target spacing less
    two seconds, and never falls to 0 otherwise once the second turbo rule is
    in force.  Whatever the blocks on disk, the result is -5 (a block whose
    address cannot be read) or between 0 and 288, never the "unexpectedly
    null" code; a cache of addresses that agrees with the disk
    does not change the result and stays in agreement, also when it is
    filled at start-up. *)
Theorem turbo_multiplier_correct (address : CBitcoinAddress) (txTime : Z) (b0 b1 : CBlockIndex)
    (chain best : list CBlockIndex) (m : turbo_map) :
  let full := b0 :: b1 :: chain in
  let w := window (txTime - nTurboLookback) full in
  let times := own_times address w in
  let r := GetTurboStakeMultiplier fTestNet ReadFromDisk address txTime full m in
  txTime <= nTurboEndTime -> cache_ok m ->
  cache_ok (snd r)
  /\ cache_ok (snd (FillMapTurboAddress fTestNet ReadFromDisk full best m))
  /\ (fst r = -5 \/ 0 <= fst r <= MAX_TURBO_MULTIPLIER)
  /\ (Forall readable w ->
      let own := 1 + Z.of_nat (length times) in
      let all := 1 + Z.of_nat (length w) in
      if spaced (spacing_used (bi_nTime b0) - 2) txTime times
      then (all < 5 * own -> fst r = MAX_TURBO_MULTIPLIER)
           /\ (5 * own <= all -> all * fst r <= own * 1440 \/ fst r = 1)
           /\ (5 * own <= all -> own * 1440 < all * (fst r + 1))
           /\ (nTurbo2_TIME <= txTime -> 1 <= fst r)
      else fst r = 0).
Proof.
  intros full w times r Htime Hm.
  pose proof (turbo_loop_ok address (txTime - nTurboLookback) (spacing_used (bi_nTime b0) - 2) full m 1 1 txTime
    ltac:(discriminate) Hm) as (H1 & H2 & H3); fold w in H2, H3.
  assert (Er : r = match turbo_loop fTestNet ReadFromDisk address (txTime - nTurboLookback) (spacing_used (bi_nTime b0) - 2) full m 1 1 txTime with
    | (Return c, m) => (c, m) | (Counts t b, m) => (multiplier_of txTime t b, m) end).
  { unfold r, GetTurboStakeMultiplier; rewrite (proj2 (Z.ltb_ge _ _)) by lia; reflexivity. }
  rewrite Er; clear Er r; destruct (turbo_loop _ _ _ _ _ full m 1 1 txTime) as [res m']; cbn [fst snd] in *.
  split; [destruct res; exact H1|]; split; [now apply FillMap_ok|]; split.
  { destruct res as [c|t b]; cbn [fst]; [unfold MAX_TURBO_MULTIPLIER; lia|].
    right; apply multiplier_range; lia. }
  intros Hd; cbv zeta; specialize (H3 Hd); fold times in H3.
  destruct (spaced _ txTime times); subst res; cbn [fst]; [|reflexivity].
  set (own := 1 + Z.of_nat (length times)) in *; set (all := 1 + Z.of_nat (length w)) in *.
  assert (Hle : 1 <= own <= all) by (unfold own, all in *; lia).
  destruct (multiplier_range txTime own all Hle) as (_ & M1 & M2 & M3).
  split; [exact M1|]; split; [intros Hq; now apply multiplier_upper | split; [exact M2 | exact M3]].
Qed.

Lemma multiplier_result address txTime chain m : (2 <= length chain)%nat -> cache_ok m ->
  let r := fst (GetTurboStakeMultiplier fTestNet ReadFromDisk address txTime chain m) in
  r = -5 \/ 0 <= r <= MAX_TURBO_MULTIPLIER.
Proof.
  intros Hc Hm r; unfold r, GetTurboStakeMultiplier; destruct (_ <? _); [right; cbn [fst]; unfold MAX_TURBO_MULTIPLIER; lia|].
  destruct chain as [|b0 [|b1 chain]]; try (cbn in Hc; lia).
  pose proof (turbo_loop_ok address (txTime - nTurboLookback) (spacing_used (bi_nTime b0) - 2) (b0 :: b1 :: chain) m 1 1 txTime
    ltac:(discriminate) Hm) as (_ & H2 & _).
  destruct (turbo_loop _ _ _ _ _ (b0 :: b1 :: chain) m 1 1 txTime) as [[c|t b] m']; cbn [fst] in *.
  - unfold MAX_TURBO_MULTIPLIER; lia.
  - right; apply multiplier_range; lia.
Qed.

Lemma base_reward_range nCoinAge b : 0 <= nCoinAge < 2 ^ 63 -> 0 <= bi_nMoneySupply b < 2 ^ 63 ->
  0 <= base_reward nCoinAge b < 2 ^ 52.
Proof.
  intros Hc Hs; unfold base_reward; destruct (_ <? _).
  - change (Z.quot MAX_MINT_PROOF_OF_STAKE 365) with 27397; rewrite Z.quot_div_nonneg by (unfold COIN; lia).
    assert (0 <= nCoinAge / COIN <= 2 ^ 63 / COIN) as [H1 H2].
    { split; [apply Z.div_pos; unfold COIN; lia | apply Z.div_le_mono; unfold COIN; lia]. }
    change (2 ^ 63 / COIN) with 92233720368 in H2; lia.
  - destruct (_ <? _); [unfold COIN; lia|]; destruct (_ <? _); [unfold COIN; lia|].
    unfold nPoSTrueInflationShift; rewrite Z.shiftr_div_pow2 by lia.
    split; [apply Z.div_pos; lia | apply Z.div_lt_upper_bound; lia].
Qed.

(** The reward of a proof-of-stake block is exactly the base reward times
    the multiplier, with no overflow of 64-bit arithmetic for any coin age and
    money supply; nothing when the multiplier is an error or a penalty; so
    it is between 0 and 288 base rewards, and the base reward once the turbo
    period is over.  The base reward is, by the time of the previous block,
    the interest on the coin age, one coin, ten coins, and from 9060000 coins of
    supply on the supply over 2^24. *)
Theorem stake_reward_bounds (nCoinAge nTime : Z) (address : CBitcoinAddress) (chain : list CBlockIndex) (m : turbo_map) :
  let b := nth 0 chain CBlockIndex_null in
  let base := base_reward nCoinAge b in
  let mult := fst (GetTurboStakeMultiplier fTestNet ReadFromDisk address nTime chain m) in
  let reward := fst (GetProofOfStakeReward fTestNet ReadFromDisk nCoinAge address nTime chain m) in
  0 <= nCoinAge < 2 ^ 63 -> 0 <= bi_nMoneySupply b < 2 ^ 63 -> (2 <= length chain)%nat -> cache_ok m ->
  reward = Z.max 0 mult * base
  /\ 0 <= reward <= MAX_TURBO_MULTIPLIER * base
  /\ (nTurboEndTime < nTime -> reward = base)
  /\ (nPoSBigRewardTime <= bi_nTime b -> nPoSTrueInflationSupply <= bi_nMoneySupply b ->
      base * 2 ^ 24 <= bi_nMoneySupply b < (base + 1) * 2 ^ 24).
Proof.
  intros b base mult reward Hc Hs Hl Hm.
  pose proof (base_reward_range nCoinAge b Hc Hs) as Hb; fold base in Hb.
  pose proof (multiplier_result address nTime chain m Hl Hm) as Hr; cbv zeta in Hr; fold mult in Hr.
  assert (Er : reward = if mult <? 1 then 0 else if 1 <? mult then i64_mul base mult else base).
  { unfold reward, GetProofOfStakeReward, mult, base, b.
    now destruct (GetTurboStakeMultiplier fTestNet ReadFromDisk address nTime chain m). }
  unfold MAX_TURBO_MULTIPLIER in *.
  assert (Ev : reward = Z.max 0 mult * base).
  { rewrite Er; destruct (Z.ltb_spec mult 1) as [Hlt|Hge]; [replace (Z.max 0 mult) with 0 by lia; lia|].
    replace (Z.max 0 mult) with mult by lia; destruct (Z.ltb_spec 1 mult).
    - assert (0 <= base * mult <= 2 ^ 52 * 288) by (split; [apply Z.mul_nonneg_nonneg | apply Z.mul_le_mono_nonneg]; lia).
      unfold i64_mul; rewrite (to_signed_wrap 64) by lia; lia.
    - replace mult with 1 by lia; lia. }
  split; [exact Ev|]; split; [nia|]; split.
  - intros Ht; rewrite Ev; replace mult with 1; [lia|].
    unfold mult, GetTurboStakeMultiplier; now rewrite (proj2 (Z.ltb_lt _ _) Ht).
  - intros Ht Hsup; assert (Eb : base = bi_nMoneySupply b / 2 ^ 24).
    { unfold base, base_reward; rewrite !(proj2 (Z.ltb_ge _ _)) by (unfold nPoSBigRewardTime, nPoSFixedRewardTime in *; lia).
      unfold nPoSTrueInflationShift; now rewrite Z.shiftr_div_pow2 by lia. }
    rewrite Eb; pose proof (Z.div_mod (bi_nMoneySupply b) (2 ^ 24) ltac:(lia)).
    pose proof (Z.mod_pos_bound (bi_nMoneySupply b) (2 ^ 24) ltac:(lia)); lia.
Qed.

End TurboSpec.

(** A block whose second output pays to a key hash, at three times. *)
Definition sample_block : CBlock :=
  Block 6 null_hash null_hash 0 0 0
    [CTransaction_null 0 1; Tx 1 0 [] [CTxOut_null; TxOut 5 (fst (SetDestination (CKeyID [1; 2; 3; 4; 5])))] 0 [] 0] [].

Definition sample_index (t : Z) : CBlockIndex :=
  BlockIndex [t] 0 0 null_hash 0 0 (10 ^ 15) BLOCK_PROOF_OF_STAKE 0 0 COutPoint_null 0 null_hash 0 null_hash t 0 0.
Definition sample_address : CBitcoinAddress := address_of false (CKeyID [1; 2; 3; 4; 5]).

Lemma turbo_multiplier_correct_witness :
  fst (GetTurboStakeMultiplier (H := toy_hash) false (fun _ => sample_block) sample_address 1433113500
        [sample_index 1433113300; sample_index 1433113100; sample_index 1433113000] []) = 288.
Proof.
  destruct (turbo_multiplier_correct (H := toy_hash) false (fun _ => sample_block) sample_address 1433113500
    (sample_index 1433113300) (sample_index 1433113100) [sample_index 1433113000] [] []) as (_ & _ & _ & E);
    [vm_compute; discriminate | intros h a; discriminate |].
  match type of E with Forall ?P ?w -> _ => assert (Hd : Forall P w) end.
  { repeat (apply Forall_cons; [intros _; vm_compute; discriminate|]); apply Forall_nil. }
  specialize (E Hd); cbv zeta in E.
  match type of E with if ?s then _ else _ => assert (Hs : s = true) by (vm_compute; reflexivity) end.
  rewrite Hs in E; refine (proj1 E _); vm_compute; reflexivity.
Defined.

Lemma stake_reward_bounds_witness :
  fst (GetProofOfStakeReward (H := toy_hash) false (fun _ => sample_block) (7 * COIN) sample_address 1500000000
        [sample_index 1499999900; sample_index 1433113000] []) = (10 ^ 15) / 2 ^ 24.
Proof.
  destruct (stake_reward_bounds (H := toy_hash) false (fun _ => sample_block) (7 * COIN) 1500000000 sample_address
    [sample_index 1499999900; sample_index 1433113000] []) as (_ & _ & E & _);
    [vm_compute; split; [discriminate | reflexivity] | vm_compute; split; [discriminate | reflexivity] | cbn; lia | intros h a; discriminate |].
  exact (E eq_refl).
Defined.
