(* ===== verification/Difficulty.v ===== *)
(** * Difficulty: targets (main.cpp)

    The target limits, [ComputeMaxBits], [GetLastBlockIndex],
    [GetNextTargetRequired_] and [CheckProofOfWork].  [None] is an undefined
    operation or an exception. *)

From Stdlib Require Import ZArith List Lia Bool.
From S2P Require Import Prelude SphTypes Uint256 Serialize BigNum Transaction BlockIndex Stake.
Import ListNotations.

Open Scope Z_scope.
Open Scope word_scope.

Section Difficulty.
Context {L : BN_lib}.

(** [CBigNum(~uint256(0) >> n)] *)
Definition target_limit (n : Z) : Z := setuint256 (uint_shr (uint_lnot (uint_of_u64 8 0)) n).

Definition bnProofOfWorkLimit : Z := target_limit 16.
Definition bnProofOfStakeLimit : Z := target_limit 12.
Definition bnProofOfStakeLimit_REVISED : Z := target_limit 2.
Definition nPoSLimitSwitchTime : Z := 1433055600.
Definition nTargetTimespan : Z := 20 * 60.

(** The limit of proof-of-stake targets at a time. *)
Definition stake_limit (nTime : Z) : Z :=
  if nPoSLimitSwitchTime <=? nTime then bnProofOfStakeLimit_REVISED else bnProofOfStakeLimit.

(** [while (nTime > 0 && bnResult < bnTargetLimit)] *)
Fixpoint max_bits_loop (fuel : nat) (bnTargetLimit bnResult nTime : Z) : Z :=
  match fuel with
  | O => bnResult
  | S fuel =>
      if (0 <? nTime) && bn_lt bnResult bnTargetLimit
      then max_bits_loop fuel bnTargetLimit (BN_mul bnResult (CBigNum_int 2)) (nTime - 96 * 60)
      else bnResult
  end.

Definition ComputeMaxBits (bnTargetLimit nBase nTime : Z) : Z :=
  let bnResult := BN_mul (SetCompact nBase) (CBigNum_int 2) in
  let bnResult := max_bits_loop (Z.to_nat (nTime / (96 * 60) + 1)) bnTargetLimit bnResult nTime in
  let bnResult := if bn_gt bnResult bnTargetLimit then bnTargetLimit else bnResult in
  GetCompact bnResult.

Definition ComputeMinWork (nBase nTime : Z) : Z := ComputeMaxBits bnProofOfWorkLimit nBase nTime.
Definition ComputeMinStake (nBase nTime nBlockTime : Z) : Z := ComputeMaxBits (stake_limit nBlockTime) nBase nTime.

(** The last block of a kind; the chain that starts with it. *)
Fixpoint GetLastBlockIndex (chain : list CBlockIndex) (fProofOfStake : bool) : list CBlockIndex :=
  match chain with
  | pindex :: ((_ :: _) as pprev) =>
      if negb (Bool.eqb (bi_IsProofOfStake pindex) fProofOfStake) then GetLastBlockIndex pprev fProofOfStake else chain
  | _ => chain
  end.

(** The new target from the last one and the actual spacing. *)
Definition retarget (nBits nTargetSpacing_used nActualSpacing bnTargetLimit : Z) : option Z :=
  let nActualSpacing := if nActualSpacing <? 0 then nTargetSpacing_used else nActualSpacing in
  let bnNew := SetCompact nBits in
  let nInterval := Z.quot nTargetTimespan nTargetSpacing_used in
  let bnNew := BN_mul bnNew (CBigNum_int ((nInterval - 1) * nTargetSpacing_used + nActualSpacing + nActualSpacing)) in
  match BN_div bnNew (CBigNum_int ((nInterval + 1) * nTargetSpacing_used)) with
  | None => None
  | Some bnNew =>
      let bnNew := if bn_le bnNew (CBigNum_int 0) || bn_gt bnNew bnTargetLimit then bnTargetLimit else bnNew in
      Some (GetCompact bnNew)
  end.

(** [pindexLast] is dereferenced before it is compared with [NULL]. *)
Definition GetNextTargetRequired_ (chain : list CBlockIndex) (fProofOfStake : bool) : option Z :=
  match chain with
  | [] => None
  | pindexLast :: _ =>
      let nTargetSpacing_used := spacing_used (bi_nTime pindexLast) in
      let bnTargetLimit := if fProofOfStake then stake_limit (bi_nTime pindexLast) else bnProofOfWorkLimit in
      match GetLastBlockIndex chain fProofOfStake with
      | [] => None
      | [_] => Some (GetCompact bnTargetLimit)
      | pindexPrev :: pprev =>
          match GetLastBlockIndex pprev fProofOfStake with
          | [] => None
          | [_] => Some (GetCompact bnTargetLimit)
          | pindexPrevPrev :: _ =>
              retarget (bi_nBits pindexPrev) nTargetSpacing_used (bi_nTime pindexPrev - bi_nTime pindexPrevPrev) bnTargetLimit
          end
      end
  end.

Definition CheckProofOfWork (hash : list Z) (nBits : Z) : bool :=
  let bnTarget := SetCompact nBits in
  if bn_le bnTarget (CBigNum_int 0) || bn_gt bnTarget bnProofOfWorkLimit then false
  else if uint_gt hash (getuint256 bnTarget) then false
  else true.

End Difficulty.

Section Laws.
Context {L : BN_lib} {HL : BN_laws L}.

Lemma limit_value n : In n [2; 12; 16] -> target_limit n = 2 ^ (256 - n) - 1.
Proof.
  intros Hn; unfold target_limit; rewrite setuint256_spec.
  - destruct Hn as [<- | [<- | [<- | []]]]; vm_compute; reflexivity.
  - destruct Hn as [<- | [<- | [<- | []]]]; (split; [vm_compute; reflexivity | words_dec]).
Qed.

(** A limit is at most 2^254. *)
Definition limit_ok (l : Z) : Prop := 0 < l < 2 ^ 254.

Lemma limits_ok : limit_ok bnProofOfWorkLimit /\ forall t, limit_ok (stake_limit t).
Proof.
  unfold bnProofOfWorkLimit, stake_limit, bnProofOfStakeLimit, bnProofOfStakeLimit_REVISED, limit_ok.
  split; [|intros t; destruct (_ <=? t)]; rewrite limit_value by (cbn; tauto); lia.
Qed.

(** The compact form of a target between 1 and a limit. *)
Lemma compact_target z l : 0 < z <= l -> limit_ok l ->
  0 <= GetCompact z < 2 ^ 32 /\ SetCompact (GetCompact z) = compact_kept z /\ 0 < compact_kept z <= z.
Proof.
  intros Hz [_ Hl]; assert (Hn : z <> 0) by lia.
  assert (Hs : bn_small z) by (apply (bn_small_below _ 254); lia).
  pose proof (size_log2 z Hn) as Hlog; assert (Z.log2 (Z.abs z) < 254) by (apply Z.log2_lt_pow2; lia).
  assert (Hsz : mpi_size z < 256) by lia.
  destruct (GetCompact_spec z Hs Hsz Hn) as [E Hm]; destruct (mpi_body_be z Hn) as (Hp & _).
  rewrite SetGetCompact by assumption; destruct (compact_kept_log2 z Hn) as [Hk _].
  rewrite Z.sgn_pos by lia; split; [rewrite E; destruct (z <? 0); lia | lia].
Qed.

(** The number of periods of 96 minutes that have begun. *)
Definition periods (nTime : Z) : Z := if nTime <=? 0 then 0 else (nTime + 5759) / 5760.

Lemma max_bits_loop_spec fuel l r t : 0 < r -> 0 < l -> t <= 5760 * Z.of_nat fuel ->
  Z.min l (max_bits_loop fuel l r t) = Z.min l (r * 2 ^ periods t).
Proof.
  revert r t; induction fuel as [|fuel IH]; intros r t Hr Hl Ht; cbn [max_bits_loop].
  { unfold periods; rewrite (proj2 (Z.leb_le t 0)), Z.mul_1_r by lia; reflexivity. }
  assert (0 <= periods t) by (unfold periods; destruct (Z.leb_spec t 0); [lia | apply Z.div_pos; lia]).
  assert (1 <= 2 ^ periods t) by (apply (Z.pow_le_mono_r 2 0); lia).
  rewrite bn_lt_spec; destruct (Z.ltb_spec 0 t), (Z.ltb_spec r l); cbn [andb].
  - rewrite mul_law, CBigNum_int_spec, IH by lia; f_equal.
    replace (periods t) with (1 + periods (t - 5760)); [|unfold periods].
    + change (96 * 60) with 5760; rewrite Z.pow_add_r, Z.pow_1_r; [ring | lia |].
      unfold periods; destruct (Z.leb_spec (t - 5760) 0); [lia | apply Z.div_pos; lia].
    + rewrite (proj2 (Z.leb_gt t 0)) by lia; destruct (Z.leb_spec (t - 5760) 0).
      * apply Z.div_unique with (t - 1); lia.
      * replace (t + 5759) with (t - 5760 + 5759 + 1 * 5760) by ring; rewrite Z.div_add by lia; lia.
  - nia.
  - unfold periods; rewrite (proj2 (Z.leb_le t 0)), Z.mul_1_r by lia; reflexivity.
  - nia.
Qed.

(** The value of the retargeting formula. *)
Definition next_target (target spacing actual limit : Z) : Z :=
  let actual := if actual <? 0 then spacing else actual in
  let n := nTargetTimespan / spacing in
  let t := Z.quot (target * ((n - 1) * spacing + 2 * actual)) ((n + 1) * spacing) in
  if (t <=? 0) || (limit <? t) then limit else t.

Lemma retarget_spec nBits spacing actual l : spacing = nTargetSpacing \/ spacing = nTargetSpacing2 ->
  - 2 ^ 32 < actual < 2 ^ 32 ->
  retarget nBits spacing actual l = Some (GetCompact (next_target (SetCompact nBits) spacing actual l)).
Proof.
  intros Hs Ha; unfold retarget, next_target, nTargetTimespan.
  set (a := if actual <? 0 then spacing else actual).
  assert (Hab : 0 <= a < 2 ^ 32) by (unfold a, nTargetSpacing, nTargetSpacing2 in *; destruct (Z.ltb_spec actual 0); lia).
  clearbody a; rewrite Z.quot_div_nonneg by (unfold nTargetSpacing, nTargetSpacing2 in *; lia).
  set (n := 20 * 60 / spacing); assert (Hn : (spacing = 120 /\ n = 10) \/ (spacing = 300 /\ n = 4)).
  { unfold n, nTargetSpacing, nTargetSpacing2 in *; destruct Hs as [-> | ->]; [left | right]; split; reflexivity. }
  clearbody n; rewrite mul_law, div_law, !CBigNum_int_spec by nia.
  rewrite (proj2 (Z.eqb_neq _ 0)) by nia; rewrite bn_le_spec, bn_gt_spec.
  replace ((n - 1) * spacing + a + a) with ((n - 1) * spacing + 2 * a) by ring; reflexivity.
Qed.

Lemma next_target_range target spacing actual l : limit_ok l -> 0 < next_target target spacing actual l <= l.
Proof.
  intros [Hl _]; unfold next_target; set (t := Z.quot _ _); clearbody t.
  destruct (Z.leb_spec t 0), (Z.ltb_spec l t); cbn [orb]; lia.
Qed.

(** On schedule the target stays. *)
Lemma next_target_steady target spacing l : spacing = nTargetSpacing \/ spacing = nTargetSpacing2 ->
  0 < target <= l -> next_target target spacing spacing l = target.
Proof.
  intros Hs Ht; unfold next_target, nTargetTimespan.
  assert (Hsp : 0 < spacing) by (unfold nTargetSpacing, nTargetSpacing2 in *; lia).
  rewrite (proj2 (Z.ltb_ge spacing 0)) by lia.
  assert (0 <= 20 * 60 / spacing) by (apply Z.div_pos; lia); set (n := 20 * 60 / spacing) in *; clearbody n.
  replace (target * ((n - 1) * spacing + 2 * spacing)) with (target * ((n + 1) * spacing)) by ring.
  rewrite Z.quot_mul by nia; rewrite (proj2 (Z.leb_gt target 0)), (proj2 (Z.ltb_ge l target)) by lia; reflexivity.
Qed.

(** Slower blocks never make the target harder. *)
Lemma next_target_monotone target spacing a a' l : spacing = nTargetSpacing \/ spacing = nTargetSpacing2 ->
  0 < target -> limit_ok l -> 0 <= a <= a' -> next_target target spacing a l <= next_target target spacing a' l
  \/ target * ((nTargetTimespan / spacing - 1) * spacing + 2 * a) < (nTargetTimespan / spacing + 1) * spacing.
Proof.
  intros Hs Ht [Hl _] Ha; unfold next_target, nTargetTimespan.
  assert (Hsp : 0 < spacing) by (unfold nTargetSpacing, nTargetSpacing2 in *; lia).
  rewrite !(proj2 (Z.ltb_ge _ 0)) by lia.
  assert (1 <= 20 * 60 / spacing) by (unfold nTargetSpacing, nTargetSpacing2 in *; destruct Hs as [-> | ->]; vm_compute; discriminate).
  set (n := 20 * 60 / spacing) in *; clearbody n; set (d := (n + 1) * spacing); assert (0 < d) by (unfold d; nia).
  destruct (Z.lt_ge_cases (target * ((n - 1) * spacing + 2 * a)) d) as [Hlt|Hge]; [right; exact Hlt | left].
  rewrite !Z.quot_div_nonneg by nia.
  assert (1 <= target * ((n - 1) * spacing + 2 * a) / d) by (apply Z.div_le_lower_bound; lia).
  assert (target * ((n - 1) * spacing + 2 * a) / d <= target * ((n - 1) * spacing + 2 * a') / d) by (apply Z.div_le_mono; nia).
  repeat match goal with |- context [?x <=? ?y] => destruct (Z.leb_spec x y) | |- context [?x <? ?y] => destruct (Z.ltb_spec x y) end;
    cbn [orb]; lia.
Qed.

(** Blocks as the program stores them. *)
Definition index_ok (b : CBlockIndex) : Prop := 0 <= bi_nTime b < 2 ^ 32 /\ 0 <= bi_nBits b < 2 ^ 32.

Lemma GetLastBlockIndex_suffix chain f : chain <> [] ->
  GetLastBlockIndex chain f <> [] /\ incl (GetLastBlockIndex chain f) chain.
Proof.
  induction chain as [|b chain IH]; intros Hne; [congruence|]; destruct chain as [|b' chain].
  { split; [discriminate | apply incl_refl]. }
  cbn [GetLastBlockIndex]; destruct (negb _); [|split; [discriminate | apply incl_refl]].
  destruct (IH ltac:(discriminate)) as [H1 H2]; split; [exact H1 | now apply incl_tl].
Qed.

(** The targets of the blocks after a chain: the limit for the first two
    blocks of a kind, then the retargeting formula. *)
Definition required_target (chain : list CBlockIndex) (fProofOfStake : bool) (spacing limit : Z) : Z :=
  match GetLastBlockIndex chain fProofOfStake with
  | prev :: rest =>
      match rest, GetLastBlockIndex rest fProofOfStake with
      | _ :: _, prevprev :: _ :: _ =>
          next_target (SetCompact (bi_nBits prev)) spacing (bi_nTime prev - bi_nTime prevprev) limit
      | _, _ => limit
      end
  | [] => limit
  end.

Lemma spacing_used_cases t : spacing_used t = nTargetSpacing \/ spacing_used t = nTargetSpacing2.
Proof. unfold spacing_used; destruct (_ <? _); auto. Qed.

Lemma last_index_ok chain f b rest : Forall index_ok chain -> GetLastBlockIndex chain f = b :: rest ->
  index_ok b /\ Forall index_ok rest.
Proof.
  intros Hf E; destruct chain as [|b0 chain]; [discriminate E|].
  destruct (GetLastBlockIndex_suffix (b0 :: chain) f ltac:(discriminate)) as [_ Hi]; rewrite E in Hi.
  assert (Hall : Forall index_ok (b :: rest)) by (eapply incl_Forall; eauto).
  now apply Forall_cons_iff in Hall.
Qed.

Lemma required_spec last chain (f : bool) : Forall index_ok (last :: chain) ->
  let limit := if f then stake_limit (bi_nTime last) else bnProofOfWorkLimit in
  let z := required_target (last :: chain) f (spacing_used (bi_nTime last)) limit in
  GetNextTargetRequired_ (last :: chain) f = Some (GetCompact z) /\ 0 < z <= limit.
Proof.
  intros Hf limit; assert (Hl : limit_ok limit) by (unfold limit; destruct limits_ok; destruct f; auto).
  unfold GetNextTargetRequired_, required_target; fold limit; clearbody limit.
  assert (Hlim : 0 < limit <= limit) by (destruct Hl; lia).
  destruct (GetLastBlockIndex_suffix (last :: chain) f ltac:(discriminate)) as [H1 _].
  destruct (GetLastBlockIndex (last :: chain) f) as [|prev [|b rest]] eqn:E1; [congruence | split; auto|].
  destruct (last_index_ok _ _ _ _ Hf E1) as [Hp Hr].
  destruct (GetLastBlockIndex_suffix (b :: rest) f ltac:(discriminate)) as [H2 _].
  destruct (GetLastBlockIndex (b :: rest) f) as [|pp [|b' rest']] eqn:E2; [congruence | split; auto|].
  destruct (last_index_ok _ _ _ _ Hr E2) as [Hpp _]; destruct Hp as [Hp _], Hpp as [Hpp _].
  cbv zeta; rewrite retarget_spec by (apply spacing_used_cases || lia).
  split; [reflexivity | now apply next_target_range].
Qed.

(** C26: The target required after any chain of stored blocks is computed without
    undefined operations; it is the reference value (the limit for the first
    two blocks of a kind, otherwise the retargeting formula), fits 32 bits in
    compact form, and is positive and at most the limit.  On schedule the
    formula keeps the target, and slower blocks never lower it except to
    escape a zero target. *)
Theorem target_required_bounds (last : CBlockIndex) (chain : list CBlockIndex) (f : bool) (target a a' : Z) :
  Forall index_ok (last :: chain) ->
  let spacing := spacing_used (bi_nTime last) in
  let limit := if f then stake_limit (bi_nTime last) else bnProofOfWorkLimit in
  let z := required_target (last :: chain) f spacing limit in
  0 < target <= limit -> 0 <= a <= a' ->
  (exists r, GetNextTargetRequired_ (last :: chain) f = Some r /\ r = GetCompact z /\ 0 <= r < 2 ^ 32
             /\ SetCompact r = compact_kept z /\ 0 < SetCompact r <= z) /\ z <= limit
  /\ next_target target spacing spacing limit = target
  /\ (next_target target spacing a limit <= next_target target spacing a' limit
      \/ target * ((nTargetTimespan / spacing - 1) * spacing + 2 * a) < (nTargetTimespan / spacing + 1) * spacing).
Proof.
  intros Hf spacing limit z Ht Ha; assert (Hl : limit_ok limit) by (unfold limit; destruct limits_ok; destruct f; auto).
  destruct (required_spec last chain f Hf) as [E Hz]; fold spacing limit in E, Hz; fold z in E, Hz.
  destruct (compact_target z limit Hz Hl) as (Hr & Es & Hk).
  split; [exists (GetCompact z); rewrite Es; intuition auto|]; split; [lia|].
  split; [apply next_target_steady | apply next_target_monotone]; try (apply spacing_used_cases); auto; lia.
Qed.

Lemma ComputeMaxBits_spec l nBase nTime : 0 < SetCompact nBase -> limit_ok l ->
  ComputeMaxBits l nBase nTime = GetCompact (Z.min l (2 * SetCompact nBase * 2 ^ periods nTime)).
Proof.
  intros Hb [Hl _]; unfold ComputeMaxBits; cbv zeta; rewrite mul_law, CBigNum_int_spec, bn_gt_spec by lia.
  set (r := max_bits_loop _ _ _ _).
  assert (E : Z.min l r = Z.min l (2 * SetCompact nBase * 2 ^ periods nTime)).
  { unfold r; rewrite max_bits_loop_spec; [f_equal; ring | lia | lia |].
    change (96 * 60) with 5760; pose proof (Z.div_mod nTime 5760 ltac:(lia)).
    pose proof (Z.mod_pos_bound nTime 5760 ltac:(lia)); lia. }
  rewrite <- E; destruct (Z.ltb_spec l r); f_equal; lia.
Qed.

(** [CheckProofOfWork] accepts a hash exactly when the compact target is
    positive and at most the limit and the hash, as a number, is at most the
    target; [ComputeMaxBits] returns twice the base target, doubled once more
    for every period of 96 minutes begun, capped at the limit. *)
Theorem work_check_exact (hash : list Z) (nBits l nBase nTime : Z) :
  wf 8 hash -> 0 <= nBits < 2 ^ 32 -> limit_ok l -> 0 < SetCompact nBase ->
  (CheckProofOfWork hash nBits = true <-> 0 < SetCompact nBits < 2 ^ 240 /\ val hash <= SetCompact nBits)
  /\ ComputeMaxBits l nBase nTime = GetCompact (Z.min l (2 * SetCompact nBase * 2 ^ periods nTime)).
Proof.
  intros Hh Hn Hl Hb; split; [|now apply ComputeMaxBits_spec].
  unfold CheckProofOfWork; rewrite bn_le_spec, bn_gt_spec, CBigNum_int_spec by lia.
  unfold bnProofOfWorkLimit; rewrite limit_value by (cbn; tauto); set (t := SetCompact nBits); clearbody t.
  destruct (Z.leb_spec t 0), (Z.ltb_spec (2 ^ (256 - 16) - 1) t); cbn [orb]; try (split; [discriminate | lia]).
  destruct (getuint256_spec t) as [W V]; [apply (bn_small_below _ 240); lia|].
  rewrite (uint_gt_spec 8), V, Z.abs_eq, Z.mod_small by (assumption || lia).
  destruct (Z.ltb_spec t (val hash)); split; intros; try discriminate; lia.
Qed.

End Laws.

(** A chain of proof-of-stake blocks whose last spacing is 200 seconds. *)
Definition stake_index (time : Z) : CBlockIndex := 
  BlockIndex [] 0 0 null_hash 0 0 0 BLOCK_PROOF_OF_STAKE 0 0 COutPoint_null 0 null_hash 0 null_hash time 0x1d00ffff 0.
Definition sample_chain : list CBlockIndex := map stake_index [1500000200; 1500000000; 1499999900; 1499999800].

Lemma target_required_bounds_witness :
  exists r, GetNextTargetRequired_ (L := BN_ideal) sample_chain true = Some r /\ 0 < SetCompact (L := BN_ideal) r.
Proof.
  destruct (target_required_bounds (L := BN_ideal) (hd (stake_index 0) sample_chain) (tl sample_chain) true 5 0 1)
    as ((r & E & _ & _ & _ & Hr) & _).
  - repeat apply Forall_cons; [split; cbn; lia .. | apply Forall_nil].
  - vm_compute; split; [reflexivity | discriminate].
  - lia.
  - exists r; split; [exact E | lia].
Defined.

Lemma work_check_exact_witness :
  CheckProofOfWork (L := BN_ideal) (uint_of_u64 8 12345) 0x1e00ffff = true
  /\ ComputeMaxBits (L := BN_ideal) (2 ^ 240 - 1) 0x1d00ffff 5761 = 0x1d07fff8.
Proof.
  destruct (work_check_exact (L := BN_ideal) (uint_of_u64 8 12345) 0x1e00ffff (2 ^ 240 - 1) 0x1d00ffff 5761) as [[_ H] E].
  - split; [reflexivity | words_dec].
  - lia.
  - unfold limit_ok; lia.
  - vm_compute; reflexivity.
  - split; [apply H; vm_compute; repeat split; discriminate | rewrite E; vm_compute; reflexivity].
Defined.
