(* ===== verification/Kernel.v ===== *)
(** * Kernel: proof of stake (kernel.cpp) and new index entries (main.cpp)

    The stake modifier: its selection intervals, the selection of a block
    from the candidates, [ComputeNextStakeModifier] and the modifier a kernel
    uses; the kernel hash test of a coinstake, [CheckProofOfStake], the
    modifier checksum, and the part of [AddToBlockIndex] that fills in a new
    index entry.  A chain is the list of index entries back to the genesis
    block; [mapBlockIndex] is an association list; the blocks that follow an
    entry along [pnext] are given by a function of its hash.  What is read
    from the database and the block files is a parameter. *)

From Stdlib Require Import ZArith List Lia Bool Permutation Sorted.
From S2P Require Import Prelude SphTypes Uint256 Serialize BigNum Transaction Script Interp SigHash BlockIndex.
Import ListNotations.

Open Scope Z_scope.
Open Scope word_scope.

Definition nStakeMinAge : Z := 60 * 60 * 24 * 2.
Definition nStakeMaxAge : Z := 60 * 60 * 24 * 6.
Definition nModifierInterval : Z := 20 * 60.
Definition MODIFIER_INTERVAL_RATIO : Z := 3.

Definition GetWeight (nIntervalBeginning nIntervalEnd : Z) : Z :=
  Z.min (nIntervalEnd - nIntervalBeginning - nStakeMinAge) nStakeMaxAge.

(** ** Stake modifier *)

(** [while (pindex && pindex->pprev && !pindex->GeneratedStakeModifier())] *)
Fixpoint last_generated (chain : list CBlockIndex) : list CBlockIndex :=
  match chain with
  | pindex :: ((_ :: _) as pprev) => if negb (GeneratedStakeModifier pindex) then last_generated pprev else chain
  | _ => chain
  end.

Definition GetLastStakeModifier (chain : list CBlockIndex) : option (Z * Z) :=
  match last_generated chain with
  | [] => None
  | pindex :: _ =>
      if negb (GeneratedStakeModifier pindex) then None else Some (bi_nStakeModifier pindex, bi_nTime pindex)
  end.

Definition GetStakeModifierSelectionIntervalSection (nSection : Z) : Z :=
  nModifierInterval * 63 / (63 + (63 - nSection) * (MODIFIER_INTERVAL_RATIO - 1)).

Definition GetStakeModifierSelectionInterval : Z :=
  fold_left (fun n nSection => n + GetStakeModifierSelectionIntervalSection (Z.of_nat nSection)) (seq 0 64) 0.

Definition index_map := list (list Z * CBlockIndex).

Fixpoint index_find (m : index_map) (h : list Z) : option CBlockIndex :=
  match m with
  | [] => None
  | (k, b) :: m => if list_eqb k h then Some b else index_find m h
  end.

(** The order of [std::pair<int64_t, uint256>]. *)
Definition item_lt (a b : Z * list Z) : bool :=
  (fst a <? fst b) || (negb (fst b <? fst a) && uint_lt (snd a) (snd b)).
Definition item_le (a b : Z * list Z) : bool := negb (item_lt b a).

Section Kernel.
Context {H : hash_lib} {L : BN_lib} (mapBlockIndex : index_map).

Definition selection_hash (nStakeModifierPrev : Z) (pindex : CBlockIndex) : list Z :=
  let hashSelection := Hash (uint_bytes (bi_hashProof pindex) ++ write_int 8 nStakeModifierPrev) in
  if bi_IsProofOfStake pindex then uint_shr hashSelection 32 else hashSelection.

(** The loop; [best] is [hashBest] and [*pindexSelected] once a block is
    selected, the result [None] is the error of a block that is not indexed. *)
Fixpoint select_loop (selected : list (list Z)) (nSelectionIntervalStop nStakeModifierPrev : Z)
    (items : list (Z * list Z)) (best : option (list Z * CBlockIndex)) : option (option (list Z * CBlockIndex)) :=
  match items with
  | [] => Some best
  | item :: items =>
      let loop := select_loop selected nSelectionIntervalStop nStakeModifierPrev items in
      match index_find mapBlockIndex (snd item) with
      | None => None
      | Some pindex =>
          if (match best with Some _ => true | None => false end) && (nSelectionIntervalStop <? bi_nTime pindex)
          then Some best
          else if existsb (list_eqb (bi_hash pindex)) selected then loop best
          else
            let hashSelection := selection_hash nStakeModifierPrev pindex in
            match best with
            | Some (hashBest, _) =>
                if uint_lt hashSelection hashBest then loop (Some (hashSelection, pindex)) else loop best
            | None => loop (Some (hashSelection, pindex))
            end
      end
  end.

Definition SelectBlockFromCandidates (vSortedByTimestamp : list (Z * list Z)) (selected : list (list Z))
    (nSelectionIntervalStop nStakeModifierPrev : Z) : option CBlockIndex :=
  match select_loop selected nSelectionIntervalStop nStakeModifierPrev vSortedByTimestamp None with
  | Some (Some (_, pindex)) => Some pindex
  | _ => None
  end.

(** [while (pindex && pindex->GetBlockTime() >= nSelectionIntervalStart)] *)
Fixpoint candidates (nSelectionIntervalStart : Z) (chain : list CBlockIndex) : list (Z * list Z) :=
  match chain with
  | pindex :: pprev =>
      if nSelectionIntervalStart <=? bi_nTime pindex
      then (bi_nTime pindex, bi_hash pindex) :: candidates nSelectionIntervalStart pprev
      else []
  | [] => []
  end.

(** The rounds from [nRound] on, [n] of them left. *)
Fixpoint modifier_rounds (n : nat) (vSortedByTimestamp : list (Z * list Z)) (nStakeModifier nRound : Z)
    (nSelectionIntervalStop nStakeModifierNew : Z) (selected : list (list Z)) : option Z :=
  match n with
  | O => Some nStakeModifierNew
  | S n =>
      let nSelectionIntervalStop := nSelectionIntervalStop + GetStakeModifierSelectionIntervalSection nRound in
      match SelectBlockFromCandidates vSortedByTimestamp selected nSelectionIntervalStop nStakeModifier with
      | None => None
      | Some pindex =>
          modifier_rounds n vSortedByTimestamp nStakeModifier (nRound + 1) nSelectionIntervalStop
            (nStakeModifierNew .| u64 (bi_GetStakeEntropyBit pindex << nRound)) (bi_hash pindex :: selected)
      end
  end.

(** The modifier and whether it was generated, or [None] for the result [false]. *)
Definition ComputeNextStakeModifier (chain : list CBlockIndex) : option (Z * bool) :=
  match chain with
  | [] => Some (0, true)
  | pindexPrev :: _ =>
      match GetLastStakeModifier chain with
      | None => None
      | Some (nStakeModifier, nModifierTime) =>
          if bi_nTime pindexPrev / nModifierInterval <=? nModifierTime / nModifierInterval
          then Some (nStakeModifier, false)
          else
            let nSelectionIntervalStart :=
              bi_nTime pindexPrev / nModifierInterval * nModifierInterval - GetStakeModifierSelectionInterval in
            let vSortedByTimestamp := sort_by item_le (rev (candidates nSelectionIntervalStart chain)) in
            match modifier_rounds (Nat.min 64 (length vSortedByTimestamp)) vSortedByTimestamp nStakeModifier 0
                    nSelectionIntervalStart 0 [] with
            | None => None
            | Some nStakeModifierNew => Some (nStakeModifierNew, true)
            end
      end
  end.

(** ** Kernels *)

(** The loop of [GetKernelStakeModifier]: the modifier, its height and time. *)
Fixpoint kernel_loop (until : Z) (pindex : CBlockIndex) (nStakeModifierHeight nStakeModifierTime : Z)
    (pnext : list CBlockIndex) : option (Z * Z * Z) :=
  if nStakeModifierTime <? until then
    match pnext with
    | [] => None
    | pindex :: pnext =>
        if GeneratedStakeModifier pindex then kernel_loop until pindex (bi_nHeight pindex) (bi_nTime pindex) pnext
        else kernel_loop until pindex nStakeModifierHeight nStakeModifierTime pnext
    end
  else Some (bi_nStakeModifier pindex, nStakeModifierHeight, nStakeModifierTime).

Context (pnext : list Z -> list CBlockIndex).

Definition GetKernelStakeModifier (hashBlockFrom : list Z) : option (Z * Z * Z) :=
  match index_find mapBlockIndex hashBlockFrom with
  | None => None
  | Some pindexFrom =>
      kernel_loop (bi_nTime pindexFrom + GetStakeModifierSelectionInterval) pindexFrom
        (bi_nHeight pindexFrom) (bi_nTime pindexFrom) (pnext (bi_hash pindexFrom))
  end.

(** [false], [true] with [hashProofOfStake] and [targetProofOfStake], or an
    access outside [txPrev.vout]. *)
Inductive kernel_check := KernelUndefined | KernelFalse | KernelTrue (hashProofOfStake targetProofOfStake : list Z).

Context (Hash9 : list Z -> list Z).

(** [CBigNum(nValueIn) * GetWeight(...) / COIN / (24 * 60 * 60)] *)
Definition coin_day_weight (nValueIn weight : Z) : option Z :=
  match BN_div (BN_mul (CBigNum_int nValueIn) (CBigNum_int weight)) (CBigNum_int COIN) with
  | None => None
  | Some q => BN_div q (CBigNum_int (24 * 60 * 60))
  end.

Definition kernel_bytes (nStakeModifier nTimeBlockFrom nTxPrevOffset nTimeTxPrev n nTimeTx : Z) : list Z :=
  write_int 8 nStakeModifier ++ write_int 4 nTimeBlockFrom ++ write_int 4 nTxPrevOffset
  ++ write_int 4 nTimeTxPrev ++ write_int 4 n ++ write_int 4 nTimeTx.

Definition CheckStakeKernelHash (nBits : Z) (blockFrom : CBlock) (nTxPrevOffset : Z) (txPrev : CTransaction)
    (prevout : COutPoint) (nTimeTx : Z) : kernel_check :=
  if nTimeTx <? tx_nTime txPrev then KernelFalse
  else
    let nTimeBlockFrom := bl_nTime blockFrom in
    if nTimeTx <? u32 (nTimeBlockFrom + nStakeMinAge) then KernelFalse
    else
      let bnTargetPerCoinDay := SetCompact nBits in
      match nth_error (vout txPrev) (Z.to_nat (op_n prevout)) with
      | None => KernelUndefined
      | Some txout =>
          let hashBlockFrom := block_GetHash Hash9 blockFrom in
          match coin_day_weight (nValue txout) (GetWeight (tx_nTime txPrev) nTimeTx) with
          | None => KernelUndefined
          | Some bnCoinDayWeight =>
              let bnTarget := BN_mul bnCoinDayWeight bnTargetPerCoinDay in
              match GetKernelStakeModifier hashBlockFrom with
              | None => KernelFalse
              | Some (nStakeModifier, _, _) =>
                  let hashProofOfStake :=
                    Hash (kernel_bytes nStakeModifier nTimeBlockFrom nTxPrevOffset (tx_nTime txPrev) (op_n prevout) nTimeTx) in
                  if bn_gt (setuint256 hashProofOfStake) bnTarget then KernelFalse
                  else KernelTrue hashProofOfStake (getuint256 bnTarget)
              end
          end
      end.

(** The result and the misbehaviour score of the transaction. *)
Inductive pos_check := PosUndefined | PosFalse (nDoS : Z) | PosTrue (hashProofOfStake targetProofOfStake : list Z).

Context {EC : ec_lib} (ReadTxIndex : list Z -> option CTxIndex) (ReadTx : CDiskTxPos -> option CTransaction)
  (ReadBlockHeader : Z -> Z -> option CBlock).

(** [CTransaction::ReadFromDisk(txdb, prevout, txindexRet)] *)
Definition tx_ReadFromDisk (prevout : COutPoint) : option (CTransaction * CTxIndex) :=
  match ReadTxIndex (op_hash prevout) with
  | None => None
  | Some txindex =>
      match ReadTx (pos txindex) with
      | None => None
      | Some tx => if Z.of_nat (length (vout tx)) <=? op_n prevout then None else Some (tx, txindex)
      end
  end.

Definition CheckProofOfStake (tx : CTransaction) (nBits : Z) : pos_check :=
  if negb (IsCoinStake tx) then PosFalse 0
  else
    let txin := nth 0 (vin tx) CTxIn_null in
    match tx_ReadFromDisk (prevout txin) with
    | None => PosFalse 1
    | Some (txPrev, txindex) =>
        if negb (VerifySignature txPrev tx 0 0) then PosFalse 100
        else
          match ReadBlockHeader (nFile (pos txindex)) (nBlockPos (pos txindex)) with
          | None => PosFalse 0
          | Some block =>
              match CheckStakeKernelHash nBits block (u32 (nTxPos (pos txindex) - nBlockPos (pos txindex))) txPrev
                      (prevout txin) (tx_nTime tx) with
              | KernelUndefined => PosUndefined
              | KernelFalse => PosFalse 1
              | KernelTrue hashProofOfStake targetProofOfStake => PosTrue hashProofOfStake targetProofOfStake
              end
          end
    end.

End Kernel.

Definition CheckCoinStakeTimestamp (nTimeBlock nTimeTx : Z) : bool := nTimeBlock =? nTimeTx.

(** ** Modifier checksums and new index entries *)

Definition mapStakeModifierCheckpoints (fTestNet : bool) : list (Z * Z) :=
  if fTestNet then [(0, 0xfd11f4e7)] else [(0, 0x0e00670b); (87500, 0x52296ad7)].

Definition CheckStakeModifierCheckpoints (fTestNet : bool) (nHeight nStakeModifierChecksum : Z) : bool :=
  match find (fun c => fst c =? nHeight) (mapStakeModifierCheckpoints fTestNet) with
  | Some c => nStakeModifierChecksum =? snd c
  | None => true
  end.

Section Index.
Context {H : hash_lib} {L : BN_lib}.

(** [None] is a failed assertion: only the genesis block has no predecessor. *)
Definition GetStakeModifierChecksum (genesis : list Z) (pindex : CBlockIndex) (pprev : list CBlockIndex) : option Z :=
  let proof := if bi_IsProofOfStake pindex then bi_hashProof pindex else uint_of_u64 8 0 in
  let tail := write_int 4 (bi_nFlags pindex) ++ uint_bytes proof ++ write_int 8 (bi_nStakeModifier pindex) in
  let checksum ss := u32 (Get64 (uint_shr (Hash ss) (256 - 32)) 0) in
  match pprev with
  | prev :: _ => Some (checksum (write_int 4 (bi_nStakeModifierChecksum prev) ++ tail))
  | [] => if list_eqb (bi_hash pindex) genesis then Some (checksum tail) else None
  end.

Context (Hash9 : list Z -> list Z).

(** [AddToBlockIndex], up to the insertion into [mapBlockIndex]: [pprev] is
    the chain of the block's predecessor, empty when it is not indexed. *)
Definition new_index (fTestNet : bool) (genesis : list Z) (mapBlockIndex : index_map) (nFile nBlockPos : Z)
    (block : CBlock) (hashProof : list Z) (pprev : list CBlockIndex) : option CBlockIndex :=
  let hash := block_GetHash Hash9 block in
  match index_find mapBlockIndex hash with
  | Some _ => None
  | None =>
      let pindexNew := index_of_block nFile nBlockPos block in
      match GetBlockTrust pindexNew with
      | None => None
      | Some trust =>
          let nHeight := match pprev with prev :: _ => bi_nHeight prev + 1 | [] => 0 end in
          let nChainTrust := uint_add (match pprev with prev :: _ => bi_nChainTrust prev | [] => uint_of_u64 8 0 end) trust in
          match SetStakeEntropyBit pindexNew (block_GetStakeEntropyBit Hash9 block) with
          | None => None
          | Some pindexNew =>
              let pindexNew := set_place pindexNew hash nChainTrust nHeight hashProof in
              match ComputeNextStakeModifier mapBlockIndex pprev with
              | None => None
              | Some (nStakeModifier, fGeneratedStakeModifier) =>
                  let pindexNew := SetStakeModifier pindexNew nStakeModifier fGeneratedStakeModifier in
                  match GetStakeModifierChecksum genesis pindexNew pprev with
                  | None => None
                  | Some checksum =>
                      let pindexNew := set_checksum pindexNew checksum in
                      if CheckStakeModifierCheckpoints fTestNet (bi_nHeight pindexNew) checksum
                      then Some pindexNew else None
                  end
              end
          end
      end
  end.
End Index.

(** ** Selection of a block *)

Section Selection.
Context {H : hash_lib} {HH : hash_laws H} (mapBlockIndex : index_map) (nStakeModifierPrev : Z).

Lemma Hash_wf v : words 8 v -> wf 8 (Hash v).
Proof.
  intros Hv; destruct (SHA256_bytes v Hv) as [Hw _]; destruct (SHA256_bytes _ Hw) as [Hw2 Hl2].
  now apply uint_of_bytes_wf.
Qed.

Lemma selection_hash_wf b : wf 8 (selection_hash nStakeModifierPrev b).
Proof.
  unfold selection_hash; assert (Hw : wf 8 (Hash (uint_bytes (bi_hashProof b) ++ write_int 8 nStakeModifierPrev))).
  { apply Hash_wf, words_app; [apply uint_bytes_words | apply le_split_bytes]. }
  destruct (bi_IsProofOfStake b); [apply uint_shr_spec; [exact Hw | lia] | exact Hw].
Qed.

(** The rank of a block in the selection. *)
Definition rank (b : CBlockIndex) : Z := val (selection_hash nStakeModifierPrev b).

(** Items of the blocks [bs], which are indexed. *)
Definition item_of (b : CBlockIndex) : Z * list Z := (bi_nTime b, bi_hash b).
Definition is_indexed (b : CBlockIndex) : Prop := index_find mapBlockIndex (bi_hash b) = Some b.

Definition unselected (selected : list (list Z)) (b : CBlockIndex) : bool :=
  negb (existsb (list_eqb (bi_hash b)) selected).

(** The blocks a round chooses from: the first unselected block, even after
    the end of the interval (the loop tests the time only once it has selected
    a block), and the unselected blocks after it up to the end of the
    interval. *)
Definition pool (selected : list (list Z)) (stop : Z) (bs : list CBlockIndex) : list CBlockIndex :=
  match filter (unselected selected) bs with
  | [] => []
  | first :: rest => first :: filter (fun b => bi_nTime b <=? stop) rest
  end.

(** The first block of the smallest rank. *)
Fixpoint first_min (best : CBlockIndex) (bs : list CBlockIndex) : CBlockIndex :=
  match bs with
  | [] => best
  | b :: bs => if rank b <? rank best then first_min b bs else first_min best bs
  end.

Definition by_time (bs : list CBlockIndex) : Prop := StronglySorted (fun a b => bi_nTime a <= bi_nTime b) bs.

Lemma filter_late stop bs : Forall (fun b => stop < bi_nTime b) bs -> filter (fun b => bi_nTime b <=? stop) bs = [].
Proof.
  induction 1 as [|b bs Hb Hbs IH]; [reflexivity|]; cbn [filter]; now rewrite (proj2 (Z.leb_gt _ _) Hb).
Qed.

Lemma Forall_filter {A} (P : A -> Prop) p l : Forall P l -> Forall P (filter p l).
Proof. induction 1; cbn [filter]; [constructor|]; destruct (p x); auto. Qed.

Lemma select_loop_some selected stop bs best :
  Forall is_indexed bs -> by_time bs ->
  select_loop mapBlockIndex selected stop nStakeModifierPrev (map item_of bs) (Some (selection_hash nStakeModifierPrev best, best))
  = let b := first_min best (filter (fun b => bi_nTime b <=? stop) (filter (unselected selected) bs)) in
    Some (Some (selection_hash nStakeModifierPrev b, b)).
Proof.
  intros Hi Hs; revert best; induction Hs as [|b bs Hs IH Hb]; intros best; [reflexivity|].
  apply Forall_cons_iff in Hi as [Hib Hi]; specialize (IH Hi); cbn [map select_loop item_of snd]; rewrite Hib; cbn [andb].
  assert (Eu : existsb (list_eqb (bi_hash b)) selected = negb (unselected selected b)) by (unfold unselected; now rewrite negb_involutive).
  cbn [filter]; destruct (Z.ltb_spec stop (bi_nTime b)) as [Hlt|Hge].
  - replace (filter (fun b => bi_nTime b <=? stop) (if unselected selected b then _ else _)) with (@nil CBlockIndex); [reflexivity|].
    assert (Hall : Forall (fun c => stop < bi_nTime c) bs) by (eapply Forall_impl; [|exact Hb]; cbn; intros; lia).
    symmetry; apply filter_late; destruct (unselected selected b); [constructor; [exact Hlt|]|]; now apply Forall_filter.
  - rewrite Eu; destruct (unselected selected b); cbn [negb]; [|apply IH].
    cbn [filter]; rewrite (proj2 (Z.leb_le _ _) Hge); cbn [first_min].
    rewrite (uint_lt_spec 8) by apply selection_hash_wf; fold (rank b) (rank best).
    destruct (rank b <? rank best); apply IH.
Qed.

Lemma select_loop_none selected stop bs :
  Forall is_indexed bs -> by_time bs ->
  SelectBlockFromCandidates mapBlockIndex (map item_of bs) selected stop nStakeModifierPrev
  = match pool selected stop bs with [] => None | first :: rest => Some (first_min first rest) end.
Proof.
  intros Hi Hs; unfold SelectBlockFromCandidates, pool; induction Hs as [|b bs Hs IH Hb]; [reflexivity|].
  apply Forall_cons_iff in Hi as [Hib Hi]; specialize (IH Hi); cbn [map select_loop item_of snd]; rewrite Hib; cbn [andb].
  assert (Eu : existsb (list_eqb (bi_hash b)) selected = negb (unselected selected b)) by (unfold unselected; now rewrite negb_involutive).
  cbn [filter]; rewrite Eu; destruct (unselected selected b); cbn [negb]; [|exact IH].
  now rewrite select_loop_some.
Qed.

(** What the choice means. *)
Definition chosen (bs : list CBlockIndex) (b : CBlockIndex) : Prop :=
  In b bs /\ Forall (fun c => rank b <= rank c) bs.

Lemma first_min_chosen best bs : chosen (best :: bs) (first_min best bs).
Proof.
  revert best; induction bs as [|b bs IH]; intros best; cbn [first_min].
  { split; [now left | constructor; [lia | constructor]]. }
  destruct (Z.ltb_spec (rank b) (rank best)) as [Hlt|Hge]; [destruct (IH b) as [H1 H2] | destruct (IH best) as [H1 H2]].
  - split; [now right|]; constructor; [|exact H2]; apply Forall_cons_iff in H2; lia.
  - apply Forall_cons_iff in H2 as [H2 H3]; split; [destruct H1; [now left | right; now right]|].
    repeat (constructor; [lia|]); exact H3.
Qed.

Lemma in_pool selected stop bs b : In b (pool selected stop bs) -> In b bs /\ unselected selected b = true.
Proof.
  unfold pool; intros Hb; apply filter_In; destruct (filter (unselected selected) bs) as [|f rest]; [destruct Hb|].
  destruct Hb as [<-|Hb]; [now left | right; now apply filter_In in Hb].
Qed.

End Selection.

(** ** The next modifier *)

Section Modifier.
Context {H : hash_lib} {HH : hash_laws H} (mapBlockIndex : index_map) (nStakeModifierPrev : Z).

(** The blocks [sel] chosen in the rounds from [nRound] on. *)
Inductive rounds (bs : list CBlockIndex) : Z -> Z -> list (list Z) -> list CBlockIndex -> Prop :=
| rounds_end nRound stop selected : rounds bs nRound stop selected []
| rounds_next nRound stop selected b sel :
    let stop' := stop + GetStakeModifierSelectionIntervalSection nRound in
    chosen nStakeModifierPrev (pool selected stop' bs) b ->
    rounds bs (nRound + 1) stop' (bi_hash b :: selected) sel ->
    rounds bs nRound stop selected (b :: sel).

Lemma unselected_spec selected b : unselected selected b = true <-> ~ In (bi_hash b) selected.
Proof.
  unfold unselected; rewrite negb_true_iff, <- not_true_iff_false, existsb_exists; split.
  - intros Hn Hin; apply Hn; exists (bi_hash b); split; [exact Hin | now apply list_eqb_eq].
  - intros Hn (h & Hin & E); apply list_eqb_eq in E; subst; contradiction.
Qed.

Lemma pool_nonempty selected stop bs : NoDup (map bi_hash bs) -> (length selected < length bs)%nat ->
  pool selected stop bs <> [].
Proof.
  intros Hd Hl; unfold pool; destruct (filter (unselected selected) bs) as [|f rest] eqn:E; [|discriminate].
  exfalso; assert (Hi : incl (map bi_hash bs) selected).
  { intros h Hh; apply in_map_iff in Hh as (b & <- & Hb).
    destruct (in_dec (list_eq_dec Z.eq_dec) (bi_hash b) selected) as [Hin|Hout]; [exact Hin|].
    apply unselected_spec in Hout; assert (Hf : In b (filter (unselected selected) bs)) by now apply filter_In.
    rewrite E in Hf; destruct Hf. }
  pose proof (NoDup_incl_length Hd Hi) as Hlen; rewrite length_map in Hlen; lia.
Qed.

Lemma entropy_bit b i nRound : 0 <= nRound < 64 -> 0 <= i ->
  Z.testbit (u64 (bi_GetStakeEntropyBit b << nRound)) i = (i =? nRound) && Z.testbit (bi_nFlags b) 1.
Proof.
  intros Hr Hi; unfold bi_GetStakeEntropyBit, BLOCK_STAKE_ENTROPY.
  assert (E : (bi_nFlags b .& 2) >> 1 = Z.b2z (Z.testbit (bi_nFlags b) 1)).
  { apply Z.bits_inj'; intros n Hn; rewrite Z.shiftr_spec, Z.land_spec by lia.
    destruct (Z.eq_dec n 0) as [->|Hn0].
    - rewrite Z.b2z_bit0; apply andb_true_r.
    - replace (Z.testbit 2 (n + 1)) with false; [|symmetry; apply Z.bits_above_log2; cbn; lia].
      rewrite andb_false_r; destruct (Z.testbit (bi_nFlags b) 1); cbn [Z.b2z];
        symmetry; [apply Z.bits_above_log2; cbn; lia | apply Z.bits_0]. }
  rewrite E; destruct (Z.testbit (bi_nFlags b) 1); cbn [Z.b2z]; rewrite ?andb_true_r, ?andb_false_r.
  - change (u64 (1 << nRound)) with (trunc 64 (1 << nRound)); rewrite Z.shiftl_1_l, trunc_spec, Z.pow2_bits_eqb by lia.
    rewrite Z.eqb_sym; destruct (Z.eqb_spec i nRound); [|apply andb_false_r]; subst.
    now rewrite (proj2 (Z.ltb_lt nRound 64)) by lia.
  - rewrite Z.shiftl_0_l; apply Z.bits_0.
Qed.

(** The entropy bits of the chosen blocks, from bit [nRound] on. *)
Definition selected_bit (nRound : Z) (sel : list CBlockIndex) (i : Z) : bool :=
  (nRound <=? i) && (i <? nRound + Z.of_nat (length sel))
  && Z.testbit (bi_nFlags (nth (Z.to_nat (i - nRound)) sel CBlockIndex_null)) 1.

Lemma selected_bit_cons nRound b sel i : 0 <= i ->
  selected_bit nRound (b :: sel) i
  = ((i =? nRound) && Z.testbit (bi_nFlags b) 1) || selected_bit (nRound + 1) sel i.
Proof.
  intros Hi; unfold selected_bit; cbn [length]; rewrite Nat2Z.inj_succ.
  destruct (Z.eqb_spec i nRound) as [->|Hne]; cbn [andb orb].
  - rewrite Z.sub_diag, Z.leb_refl, (proj2 (Z.ltb_lt _ _)) by lia; cbn [Z.to_nat nth andb].
    rewrite (proj2 (Z.leb_gt (nRound + 1) nRound)) by lia; cbn [andb]; now rewrite orb_false_r.
  - destruct (Z.leb_spec nRound i); [|rewrite (proj2 (Z.leb_gt (nRound + 1) i)) by lia; reflexivity].
    rewrite (proj2 (Z.leb_le (nRound + 1) i)) by lia; cbn [andb].
    replace (Z.to_nat (i - nRound)) with (S (Z.to_nat (i - (nRound + 1)))) by lia; cbn [nth].
    replace (nRound + Z.succ (Z.of_nat (length sel))) with (nRound + 1 + Z.of_nat (length sel)) by lia; reflexivity.
Qed.

Lemma modifier_rounds_spec bs n nRound stop new selected :
  Forall (is_indexed mapBlockIndex) bs -> by_time bs -> NoDup (map bi_hash bs) ->
  0 <= nRound -> nRound + Z.of_nat n <= 64 -> (length selected + n <= length bs)%nat ->
  exists r sel, modifier_rounds mapBlockIndex n (map item_of bs) nStakeModifierPrev nRound stop new selected = Some r
    /\ rounds bs nRound stop selected sel /\ length sel = n
    /\ forall i, 0 <= i -> Z.testbit r i = Z.testbit new i || selected_bit nRound sel i.
Proof.
  intros Hi Hs Hd; revert nRound stop new selected; induction n as [|n IH]; intros nRound stop new selected Hr Hn Hl.
  { exists new, []; split; [reflexivity|]; split; [constructor|]; split; [reflexivity|].
    intros i Hi0; unfold selected_bit; cbn [length]; destruct (Z.leb_spec nRound i), (Z.ltb_spec i (nRound + Z.of_nat 0));
      cbn [andb]; try lia; now rewrite orb_false_r. }
  cbn [modifier_rounds]; cbv zeta; set (stop' := stop + GetStakeModifierSelectionIntervalSection nRound).
  rewrite select_loop_none by assumption.
  pose proof (pool_nonempty selected stop' bs Hd ltac:(lia)) as Hne.
  destruct (pool selected stop' bs) as [|f rest] eqn:Ep; [congruence|].
  pose proof (first_min_chosen nStakeModifierPrev f rest) as Hc; set (b := first_min nStakeModifierPrev f rest) in *.
  destruct (IH (nRound + 1) stop' (new .| u64 (bi_GetStakeEntropyBit b << nRound)) (bi_hash b :: selected))
    as (r & sel & E & Hsel & Els & Hbits); [lia | lia | cbn [length]; lia |].
  exists r, (b :: sel); split; [exact E|]; split; [constructor; fold stop'; [rewrite Ep; exact Hc | exact Hsel]|].
  split; [cbn [length]; lia|]; intros i Hi0.
  rewrite Hbits, Z.lor_spec, entropy_bit, selected_bit_cons by lia; now rewrite orb_assoc.
Qed.

Lemma rounds_distinct bs nRound stop selected sel : rounds bs nRound stop selected sel ->
  NoDup (map bi_hash sel) /\ Forall (fun b => In b bs /\ ~ In (bi_hash b) selected) sel.
Proof.
  induction 1 as [|nRound stop selected b sel stop' Hc Hsel [IH1 IH2]]; [split; constructor|].
  destruct (in_pool _ _ _ _ (proj1 Hc)) as [Hb Hu]; apply unselected_spec in Hu; split.
  - cbn [map]; constructor; [|exact IH1]; intros Hin; apply in_map_iff in Hin as (c & E & Hcs).
    apply (proj1 (Forall_forall _ _) IH2) in Hcs as [_ Hcs]; apply Hcs; left; congruence.
  - constructor; [now split|]; eapply Forall_impl; [|exact IH2]; cbn; intros c [H1 H2]; split; [exact H1|].
    intros Hin; apply H2; now right.
Qed.

End Modifier.

Section NextModifier.
Context {H : hash_lib} {HH : hash_laws H} (mapBlockIndex : index_map).

(** The blocks of the selection interval. *)
Fixpoint candidate_blocks (start : Z) (chain : list CBlockIndex) : list CBlockIndex :=
  match chain with
  | b :: pprev => if start <=? bi_nTime b then b :: candidate_blocks start pprev else []
  | [] => []
  end.

Lemma candidates_blocks start chain : candidates start chain = map item_of (candidate_blocks start chain).
Proof.
  induction chain as [|b chain IH]; [reflexivity|]; cbn [candidates candidate_blocks].
  destruct (start <=? bi_nTime b); [cbn [map]; now rewrite IH | reflexivity].
Qed.

Lemma candidate_blocks_prefix start chain : exists rest, chain = candidate_blocks start chain ++ rest.
Proof.
  induction chain as [|b chain [rest IH]]; [now exists []|]; cbn [candidate_blocks].
  destruct (start <=? bi_nTime b); [exists rest; cbn [app]; congruence | now exists (b :: chain)].
Qed.

Lemma sorted_candidates cb : exists bs, sort_by item_le (rev (map item_of cb)) = map item_of bs
  /\ Permutation cb bs /\ by_time bs.
Proof.
  assert (Hp : Permutation (sort_by item_le (rev (map item_of cb))) (map item_of cb)).
  { rewrite sort_by_perm; symmetry; apply Permutation_rev. }
  apply Permutation_map_inv in Hp as (bs & E & Hp); exists bs; split; [exact E|]; split; [exact Hp|].
  assert (Hs : StronglySorted (fun a b => fst a <= fst b) (sort_by item_le (rev (map item_of cb)))).
  { apply sort_by_sorted; unfold item_le, item_lt; intros; lia. }
  rewrite E in Hs; clear - Hs; unfold by_time; induction bs as [|b bs IH]; [constructor|]; cbn [map] in Hs.
  apply StronglySorted_inv in Hs as [Hs Hb]; constructor; [now apply IH | now rewrite Forall_map in Hb].
Qed.

Lemma last_generated_spec b chain : GeneratedStakeModifier (last (b :: chain) CBlockIndex_null) = true ->
  exists g rest, last_generated (b :: chain) = g :: rest /\ GeneratedStakeModifier g = true.
Proof.
  revert b; induction chain as [|c chain IH]; intros b Hg; [now exists b, []|].
  cbn [last_generated]; destruct (GeneratedStakeModifier b) eqn:E; cbn [negb]; [now exists b, (c :: chain) | now apply IH].
Qed.

(** C16: On a chain of distinct, indexed blocks whose genesis block generated a
    modifier, [ComputeNextStakeModifier] always succeeds.  Within an interval
    of 20 minutes it keeps the last generated modifier.  Otherwise it makes a
    new one from the blocks of the selection interval, sorted by time: in each
    of min(64, candidates) rounds it chooses a block of the smallest selection
    hash among the [pool] of the round, which is the first unselected block,
    whatever its time, and the unselected blocks after it up to the end of the
    round's section; the chosen blocks are distinct, and bit [i] of the new
    modifier is the entropy bit of the [i]-th choice.  A round therefore always
    finds a block, but may take one later than the end of its section when all
    earlier ones are taken ([late_block_selected]). *)
Theorem stake_modifier_computed (prev : CBlockIndex) (rest : list CBlockIndex) :
  let chain := prev :: rest in
  Forall (is_indexed mapBlockIndex) chain -> NoDup (map bi_hash chain) ->
  GeneratedStakeModifier (last chain CBlockIndex_null) = true ->
  let start := bi_nTime prev / nModifierInterval * nModifierInterval - GetStakeModifierSelectionInterval in
  exists g older, last_generated chain = g :: older /\ GeneratedStakeModifier g = true /\
  if bi_nTime prev / nModifierInterval <=? bi_nTime g / nModifierInterval
  then ComputeNextStakeModifier mapBlockIndex chain = Some (bi_nStakeModifier g, false)
  else exists r bs sel, ComputeNextStakeModifier mapBlockIndex chain = Some (r, true) /\ inw 64 r
    /\ Permutation (candidate_blocks start chain) bs /\ by_time bs
    /\ rounds (bi_nStakeModifier g) bs 0 start [] sel /\ length sel = Nat.min 64 (length bs)
    /\ NoDup (map bi_hash sel) /\ incl sel bs
    /\ forall i, 0 <= i -> Z.testbit r i = selected_bit 0 sel i.
Proof.
  intros chain Hi Hd Hg start; destruct (last_generated_spec prev rest Hg) as (g & older & Eg & Hgen).
  exists g, older; fold chain in Eg; split; [exact Eg|]; split; [exact Hgen|].
  unfold chain; cbv beta iota delta [ComputeNextStakeModifier]; fold chain.
  unfold GetLastStakeModifier; rewrite Eg, Hgen; cbn [negb].
  destruct (Z.leb_spec (bi_nTime prev / nModifierInterval) (bi_nTime g / nModifierInterval)) as [Hle|Hgt]; [reflexivity|].
  fold start; cbv zeta; rewrite candidates_blocks.
  destruct (sorted_candidates (candidate_blocks start chain)) as (bs & -> & Hp & Hs).
  destruct (candidate_blocks_prefix start chain) as [tail Ec].
  assert (Hi' : Forall (is_indexed mapBlockIndex) bs).
  { rewrite Ec in Hi; apply Forall_app in Hi; now apply (Permutation_Forall Hp). }
  assert (Hd' : NoDup (map bi_hash bs)).
  { apply (Permutation_NoDup (Permutation_map bi_hash Hp)); rewrite Ec, map_app in Hd.
    now apply NoDup_app_remove_r in Hd. }
  rewrite length_map.
  destruct (modifier_rounds_spec mapBlockIndex (bi_nStakeModifier g) bs (Nat.min 64 (length bs)) 0 start 0 [] Hi' Hs Hd')
    as (r & sel & Er & Hr & Hl & Hb); [lia | lia | cbn [length]; lia |].
  destruct (rounds_distinct _ _ _ _ _ _ Hr) as [Hn Hin].
  exists r, bs, sel; rewrite Er; split; [reflexivity|].
  assert (Hbits : forall i, 0 <= i -> Z.testbit r i = selected_bit 0 sel i).
  { intros i Hi0; rewrite Hb, Z.bits_0 by lia; reflexivity. }
  split; [|repeat split; try assumption; intros b Hbs; now apply (proj1 (Forall_forall _ _) Hin) in Hbs].
  assert (Hz : forall i, 64 <= i -> Z.testbit r i = false).
  { intros i Hi64; rewrite Hbits by lia; unfold selected_bit; rewrite (proj2 (Z.ltb_ge i _)) by lia; now rewrite andb_false_r. }
  apply inw_bits; [lia | | exact Hz]; apply Z.bits_iff_nonneg_ex; exists 64; intros; apply Hz; lia.
Qed.

End NextModifier.

(** ** Kernels *)

Section KernelLaws.
Context {H : hash_lib} {HH : hash_laws H} {L : BN_lib} {HL : BN_laws L} {EC : ec_lib}.
Context (mapBlockIndex : index_map) (pnext : list Z -> list CBlockIndex) (Hash9 : list Z -> list Z)
  (ReadTxIndex : list Z -> option CTxIndex) (ReadTx : CDiskTxPos -> option CTransaction)
  (ReadBlockHeader : Z -> Z -> option CBlock).

Lemma selection_interval : GetStakeModifierSelectionInterval = 42301.
Proof. vm_compute; reflexivity. Qed.

(** [g] is the first block after [from] on the main chain that generated a
    modifier at least a selection interval later. *)
Definition kernel_block (from g : CBlockIndex) : Prop :=
  exists before after, pnext (bi_hash from) = before ++ g :: after /\ GeneratedStakeModifier g = true
    /\ bi_nTime from + GetStakeModifierSelectionInterval <= bi_nTime g
    /\ Forall (fun b => GeneratedStakeModifier b = true -> bi_nTime b < bi_nTime from + GetStakeModifierSelectionInterval) before.

Lemma kernel_loop_spec until p h t nexts m h' t' : t < until ->
  kernel_loop until p h t nexts = Some (m, h', t') <->
  exists before g after, nexts = before ++ g :: after /\ GeneratedStakeModifier g = true /\ until <= bi_nTime g
    /\ Forall (fun b => GeneratedStakeModifier b = true -> bi_nTime b < until) before
    /\ (m, h', t') = (bi_nStakeModifier g, bi_nHeight g, bi_nTime g).
Proof.
  revert p h t; induction nexts as [|b nexts IH]; intros p h t Ht; cbn [kernel_loop]; rewrite (proj2 (Z.ltb_lt _ _) Ht).
  { split; [discriminate|]; intros (before & g & after & E & _); destruct before; discriminate E. }
  assert (Hskip : (GeneratedStakeModifier b = true -> bi_nTime b < until) ->
    (exists before g after, nexts = before ++ g :: after /\ GeneratedStakeModifier g = true /\ until <= bi_nTime g
      /\ Forall (fun b => GeneratedStakeModifier b = true -> bi_nTime b < until) before
      /\ (m, h', t') = (bi_nStakeModifier g, bi_nHeight g, bi_nTime g)) <->
    (exists before g after, b :: nexts = before ++ g :: after /\ GeneratedStakeModifier g = true /\ until <= bi_nTime g
      /\ Forall (fun b => GeneratedStakeModifier b = true -> bi_nTime b < until) before
      /\ (m, h', t') = (bi_nStakeModifier g, bi_nHeight g, bi_nTime g))).
  { intros Hb; split.
    - intros (before & g & after & -> & Hg & Hu & Hf & E); exists (b :: before), g, after; repeat split; auto.
    - intros (before & g & after & E1 & Hg & Hu & Hf & E); destruct before as [|b' before]; injection E1 as E1 E2.
      + subst b; specialize (Hb Hg); lia.
      + apply Forall_cons_iff in Hf as [_ Hf]; exists before, g, after; repeat split; auto. }
  destruct (GeneratedStakeModifier b) eqn:Eb.
  - destruct (Z.lt_ge_cases (bi_nTime b) until) as [Hlt|Hge].
    + rewrite IH by assumption; apply Hskip; auto.
    + assert (Es : kernel_loop until b (bi_nHeight b) (bi_nTime b) nexts = Some (bi_nStakeModifier b, bi_nHeight b, bi_nTime b)).
      { destruct nexts; cbn [kernel_loop]; now rewrite (proj2 (Z.ltb_ge _ _) Hge). }
      rewrite Es; split.
      * intros E; exists [], b, nexts; repeat split; auto; congruence.
      * intros (before & g & after & E1 & Hg & Hu & Hf & E); destruct before as [|b' before]; injection E1 as E1 E2; subst.
        -- congruence.
        -- apply Forall_cons_iff in Hf as [Hf _]; specialize (Hf Eb); lia.
  - rewrite IH by assumption; apply Hskip; congruence.
Qed.

Lemma GetKernelStakeModifier_spec hash m h t :
  GetKernelStakeModifier mapBlockIndex pnext hash = Some (m, h, t) <->
  exists from g, index_find mapBlockIndex hash = Some from /\ kernel_block from g
    /\ (m, h, t) = (bi_nStakeModifier g, bi_nHeight g, bi_nTime g).
Proof.
  unfold GetKernelStakeModifier; destruct (index_find mapBlockIndex hash) as [from|].
  - rewrite kernel_loop_spec by (rewrite selection_interval; lia); split.
    + intros (before & g & after & E & Hg & Hu & Hf & Em); exists from, g; repeat split; auto.
      exists before, after; auto.
    + intros (from' & g & E & (before & after & En & Hg & Hu & Hf) & Em); injection E as <-; exists before, g, after; auto.
  - split; [discriminate | intros (from & g & E & _); discriminate E].
Qed.

Definition day : Z := 24 * 60 * 60.

(** The weight of a coin in coin-days. *)
Definition coin_days (value weight : Z) : Z := Z.quot (Z.quot (value * weight) COIN) day.

Lemma coin_day_weight_spec value weight : - 2 ^ 63 <= value < 2 ^ 63 -> - 2 ^ 63 <= weight < 2 ^ 63 ->
  coin_day_weight value weight = Some (coin_days value weight).
Proof.
  intros Hv Hw; unfold coin_day_weight; rewrite mul_law, div_law, !CBigNum_int_spec by (unfold COIN; lia).
  change (COIN =? 0) with false; cbv iota; rewrite div_law; reflexivity.
Qed.

(** Coins as the program stores them. *)
Definition tx_stored (t : CTransaction) : Prop :=
  0 <= tx_nTime t < 2 ^ 32 /\ Forall (fun o => - 2 ^ 63 <= nValue o < 2 ^ 63) (vout t).

Lemma weight_range a b : 0 <= a < 2 ^ 32 -> 0 <= b < 2 ^ 32 -> - 2 ^ 33 <= GetWeight a b <= nStakeMaxAge.
Proof. unfold GetWeight, nStakeMinAge, nStakeMaxAge; lia. Qed.

(** What an accepted kernel satisfies. *)
Definition kernel_meets (nBits : Z) (blockFrom : CBlock) (offset : Z) (txPrev : CTransaction) (prevout : COutPoint)
    (nTimeTx : Z) (proof target : list Z) : Prop :=
  let weight := coin_days (nValue (nth (Z.to_nat (op_n prevout)) (vout txPrev) CTxOut_null)) (GetWeight (tx_nTime txPrev) nTimeTx) in
  tx_nTime txPrev <= nTimeTx /\ (bl_nTime blockFrom + nStakeMinAge) mod 2 ^ 32 <= nTimeTx
  /\ exists from g, index_find mapBlockIndex (block_GetHash Hash9 blockFrom) = Some from /\ kernel_block from g
     /\ proof = Hash (kernel_bytes (bi_nStakeModifier g) (bl_nTime blockFrom) offset (tx_nTime txPrev) (op_n prevout) nTimeTx)
     /\ target = getuint256 (weight * SetCompact nBits)
     /\ val proof <= weight * SetCompact nBits.

Lemma kernel_bytes_words a b c d e f : words 8 (kernel_bytes a b c d e f).
Proof. unfold kernel_bytes; repeat apply words_app; apply le_split_bytes. Qed.

Lemma CheckStakeKernelHash_spec nBits blockFrom offset txPrev prevout nTimeTx :
  tx_stored txPrev -> 0 <= nTimeTx < 2 ^ 32 -> 0 <= op_n prevout < Z.of_nat (length (vout txPrev)) ->
  let r := CheckStakeKernelHash mapBlockIndex pnext Hash9 nBits blockFrom offset txPrev prevout nTimeTx in
  r <> KernelUndefined
  /\ forall proof target, r = KernelTrue proof target <-> kernel_meets nBits blockFrom offset txPrev prevout nTimeTx proof target.
Proof.
  intros [Hpt Hv] Ht Hn r; unfold r, CheckStakeKernelHash, kernel_meets; cbv zeta; rewrite u32_mod.
  destruct (nth_error (vout txPrev) (Z.to_nat (op_n prevout))) as [o|] eqn:En;
    [|apply nth_error_None in En; lia].
  rewrite (nth_error_nth _ _ CTxOut_null En).
  assert (Ho : - 2 ^ 63 <= nValue o < 2 ^ 63) by (apply nth_error_In in En; now apply (proj1 (Forall_forall _ _) Hv) in En).
  pose proof (weight_range _ _ Hpt Ht); unfold nStakeMaxAge in *.
  rewrite coin_day_weight_spec, mul_law by lia.
  set (w := coin_days _ _); clearbody w; set (hash := block_GetHash Hash9 blockFrom); clearbody hash.
  destruct (Z.ltb_spec nTimeTx (tx_nTime txPrev)); [split; [discriminate|]; split; [discriminate | intros (? & _); lia]|].
  destruct (Z.ltb_spec nTimeTx ((bl_nTime blockFrom + nStakeMinAge) mod 2 ^ 32));
    [split; [discriminate|]; split; [discriminate | intros (_ & ? & _); lia]|].
  pose proof (GetKernelStakeModifier_spec hash) as Hm.
  destruct (GetKernelStakeModifier mapBlockIndex pnext hash) as [[[m h] t]|].
  - rewrite bn_gt_spec, setuint256_spec by apply Hash_wf, kernel_bytes_words.
    destruct (proj1 (Hm m h t) eq_refl) as (from & g & Ef & Hk & Em); injection Em as -> -> ->.
    set (proof0 := Hash _); set (bn := w * SetCompact nBits).
    destruct (Z.ltb_spec bn (val proof0)) as [Hlt|Hge]; (split; [discriminate|]); intros proof target; split.
    + discriminate.
    + intros (_ & _ & from' & g' & Ef' & Hk' & -> & -> & Hle); exfalso.
      specialize (Hm (bi_nStakeModifier g') (bi_nHeight g') (bi_nTime g')).
      pose proof (proj2 Hm (ex_intro _ from' (ex_intro _ g' (conj Ef' (conj Hk' eq_refl))))) as E; injection E as E _ _.
      rewrite <- E in Hle; fold proof0 bn in Hle; lia.
    + intros E; injection E as <- <-; repeat split; try assumption; exists from, g; repeat split; auto.
    + intros (_ & _ & from' & g' & Ef' & Hk' & -> & -> & Hle).
      specialize (Hm (bi_nStakeModifier g') (bi_nHeight g') (bi_nTime g')).
      pose proof (proj2 Hm (ex_intro _ from' (ex_intro _ g' (conj Ef' (conj Hk' eq_refl))))) as E; injection E as E _ _.
      unfold proof0; rewrite E; reflexivity.
  - split; [discriminate|]; split; [discriminate|]; intros (_ & _ & from & g & Ef & Hk & _).
    pose proof (proj2 (Hm _ _ _) (ex_intro _ from (ex_intro _ g (conj Ef (conj Hk eq_refl))))); discriminate.
Qed.

Lemma coin_days_monotone v v' w w' : 0 <= v <= v' -> 0 <= w <= w' -> coin_days v w <= coin_days v' w'.
Proof. intros Hv Hw; unfold coin_days; repeat (apply Z.quot_le_mono; [unfold day, COIN; lia|]); nia. Qed.

(** What [CheckProofOfStake] reads before it comes to the kernel. *)
Definition stake_read (tx : CTransaction) (txPrev : CTransaction) (txindex : CTxIndex) (block : CBlock) : Prop :=
  let coin := prevout (nth 0 (vin tx) CTxIn_null) in
  IsCoinStake tx = true /\ ReadTxIndex (op_hash coin) = Some txindex /\ ReadTx (pos txindex) = Some txPrev
  /\ op_n coin < Z.of_nat (length (vout txPrev)) /\ VerifySignature txPrev tx 0 0 = true
  /\ ReadBlockHeader (nFile (pos txindex)) (nBlockPos (pos txindex)) = Some block.

Definition tx_offset (txindex : CTxIndex) : Z := (nTxPos (pos txindex) - nBlockPos (pos txindex)) mod 2 ^ 32.

Definition kernel_of (tx : CTransaction) (nBits : Z) (txPrev : CTransaction) (txindex : CTxIndex) (block : CBlock) : pos_check :=
  match CheckStakeKernelHash mapBlockIndex pnext Hash9 nBits block (tx_offset txindex) txPrev
          (prevout (nth 0 (vin tx) CTxIn_null)) (tx_nTime tx) with
  | KernelUndefined => PosUndefined
  | KernelFalse => PosFalse 1
  | KernelTrue proof target => PosTrue proof target
  end.

Lemma CheckProofOfStake_read tx nBits txPrev txindex block : stake_read tx txPrev txindex block ->
  CheckProofOfStake mapBlockIndex pnext Hash9 ReadTxIndex ReadTx ReadBlockHeader tx nBits = kernel_of tx nBits txPrev txindex block.
Proof.
  intros (Hc & E1 & E2 & Hn & Hv & E3); unfold CheckProofOfStake, tx_ReadFromDisk.
  rewrite Hc, E1, E2, (proj2 (Z.leb_gt _ _) Hn), Hv, E3, u32_mod; reflexivity.
Qed.

Lemma CheckProofOfStake_cases tx nBits :
  (exists d, CheckProofOfStake mapBlockIndex pnext Hash9 ReadTxIndex ReadTx ReadBlockHeader tx nBits = PosFalse d)
  \/ exists txPrev txindex block, stake_read tx txPrev txindex block.
Proof.
  unfold CheckProofOfStake, tx_ReadFromDisk, stake_read; destruct (IsCoinStake tx); cbn [negb]; [|eauto].
  destruct (ReadTxIndex _) as [txindex|]; [|eauto]; destruct (ReadTx _) as [txPrev|] eqn:E; [|eauto].
  destruct (Z.leb_spec (Z.of_nat (length (vout txPrev))) (op_n (prevout (nth 0 (vin tx) CTxIn_null)))); [eauto|].
  destruct (VerifySignature txPrev tx 0 0) eqn:Ev; cbn [negb]; [|eauto].
  destruct (ReadBlockHeader _ _) as [block|] eqn:Eb; [|eauto]; right; exists txPrev, txindex, block; auto 10.
Qed.

(** More coin or more age never lowers the bound on the kernel hash, unless
    the target is negative. *)
Lemma bound_monotone target now v v' t t' : 0 <= v <= v' -> t + nStakeMinAge <= now -> t' <= t ->
  let days := coin_days v (GetWeight t now) in
  let days' := coin_days v' (GetWeight t' now) in
  days <= days' <= coin_days v' nStakeMaxAge
  /\ (0 <= target -> days * target <= days' * target <= coin_days v' nStakeMaxAge * target)
  /\ (target < 0 -> days * target <= 0).
Proof.
  intros Hv Hage Ht' days days'.
  assert (Hd : days <= days' <= coin_days v' nStakeMaxAge).
  { split; apply coin_days_monotone; unfold GetWeight, nStakeMinAge, nStakeMaxAge in *; lia. }
  assert (H0 : 0 <= days).
  { change 0 with (coin_days 0 0); apply coin_days_monotone; unfold GetWeight, nStakeMinAge, nStakeMaxAge in *; lia. }
  split; [exact Hd|]; split; intros Htg; nia.
Qed.

(** C14: [CheckProofOfStake] never leaves the outputs of the previous
    transaction, and accepts exactly the coinstakes whose first input is an
    existing output, signed, at least two days old, and whose kernel hash, with
    the first modifier generated a selection interval after the coin's block,
    is at most the target times the coin-days; equality is accepted.  The
    coin-days grow with the value and with the age of the coin, the age
    counting for at most six days, and so does the bound on the hash when the
    target of the block is not negative.  With a negative target the bound of
    a coin of full age is not positive, and is not met by any hash but zero. *)
Theorem proof_of_stake_exact (tx : CTransaction) (nBits : Z) (proof target : list Z) :
  (forall p t, ReadTx p = Some t -> tx_stored t) -> 0 <= tx_nTime tx < 2 ^ 32 ->
  let coin := prevout (nth 0 (vin tx) CTxIn_null) in
  0 <= op_n coin ->
  let r := CheckProofOfStake mapBlockIndex pnext Hash9 ReadTxIndex ReadTx ReadBlockHeader tx nBits in
  r <> PosUndefined
  /\ (r = PosTrue proof target <->
      exists txPrev txindex block, stake_read tx txPrev txindex block
        /\ kernel_meets nBits block (tx_offset txindex) txPrev coin (tx_nTime tx) proof target)
  /\ (forall v v' t t', 0 <= v <= v' -> t + nStakeMinAge <= tx_nTime tx -> t' <= t ->
        let bound v t := coin_days v (GetWeight t (tx_nTime tx)) * SetCompact nBits in
        coin_days v (GetWeight t (tx_nTime tx)) <= coin_days v' (GetWeight t' (tx_nTime tx)) <= coin_days v' nStakeMaxAge
        /\ (0 <= SetCompact nBits -> bound v t <= bound v' t' <= coin_days v' nStakeMaxAge * SetCompact nBits)
        /\ (SetCompact nBits < 0 -> bound v t <= 0)).
Proof.
  intros Hrd Ht coin Hn r.
  assert (Hr : forall txPrev txindex block, stake_read tx txPrev txindex block -> r <> PosUndefined
    /\ (r = PosTrue proof target <-> kernel_meets nBits block (tx_offset txindex) txPrev coin (tx_nTime tx) proof target)).
  { intros txPrev txindex block Hread; unfold r; rewrite (CheckProofOfStake_read _ _ _ _ _ Hread); unfold kernel_of; fold coin.
    destruct Hread as (_ & _ & E & Hlt & _ & _).
    destruct (CheckStakeKernelHash_spec nBits block (tx_offset txindex) txPrev coin (tx_nTime tx) (Hrd _ _ E) Ht (conj Hn Hlt)) as [Hu Hk].
    rewrite <- (Hk proof target); destruct (CheckStakeKernelHash _ _ _ _ _ _ _ _ _); split; try congruence; split; congruence. }
  split; [|split].
  - destruct (CheckProofOfStake_cases tx nBits) as [[d E]|(p & i & b & Hread)]; [unfold r; rewrite E; discriminate | now apply (Hr p i b)].
  - split; [|intros (p & i & b & Hread & Hm); now apply (Hr p i b)].
    intros E; destruct (CheckProofOfStake_cases tx nBits) as [[d E']|(p & i & b & Hread)]; [unfold r in E; congruence|].
    exists p, i, b; split; [exact Hread | now apply (Hr p i b)].
  - intros v v' t t' Hv Hage Ht' bound; now apply bound_monotone.
Qed.

End KernelLaws.

(** ** New index entries *)

Section NewIndex.
Context {H : hash_lib} {HH : hash_laws H} {L : BN_lib} {HL : BN_laws L} (Hash9 : list Z -> list Z).

(** A chain as the program keeps it: indexed, without repeated hashes, from a
    genesis block that generated a modifier. *)
Definition chain_ok (m : index_map) (chain : list CBlockIndex) : Prop :=
  Forall (is_indexed m) chain /\ NoDup (map bi_hash chain)
  /\ GeneratedStakeModifier (last chain CBlockIndex_null) = true.

Definition trust_of (chain : list CBlockIndex) : list Z :=
  match chain with prev :: _ => bi_nChainTrust prev | [] => uint_of_u64 8 0 end.

Lemma indexed_cons m h b c : index_find m h = None -> is_indexed m c ->
  bi_hash c <> h /\ is_indexed ((h, b) :: m) c.
Proof.
  unfold is_indexed; intros Hn Hc; assert (Hne : bi_hash c <> h) by congruence.
  split; [exact Hne|]; cbn [index_find]; destruct (list_eqb h (bi_hash c)) eqn:E; [apply list_eqb_eq in E; congruence | exact Hc].
Qed.

Lemma chain_ok_cons m b chain : index_find m (bi_hash b) = None -> Forall (is_indexed m) chain -> NoDup (map bi_hash chain) ->
  GeneratedStakeModifier (last (b :: chain) CBlockIndex_null) = true -> chain_ok ((bi_hash b, b) :: m) (b :: chain).
Proof.
  intros Hn Hi Hd Hg; split; [|split; [|exact Hg]].
  - constructor.
    + unfold is_indexed; cbn [index_find]; now rewrite (proj2 (list_eqb_eq _ _) eq_refl).
    + eapply Forall_impl; [|exact Hi]; intros c Hc; now apply indexed_cons.
  - cbn [map]; constructor; [|exact Hd]; intros Hin; apply in_map_iff in Hin as (c & E & Hc).
    apply (proj1 (Forall_forall _ _) Hi) in Hc; destruct (indexed_cons m _ b c Hn Hc); congruence.
Qed.

Lemma index_flags nf np block : bi_nFlags (index_of_block nf np block) = if IsProofOfStake block then 1 else 0.
Proof. unfold index_of_block; now destruct (IsProofOfStake block). Qed.

Lemma entropy_cases block : block_GetStakeEntropyBit Hash9 block = 0 \/ block_GetStakeEntropyBit Hash9 block = 1.
Proof.
  unfold block_GetStakeEntropyBit; set (x := Get64 _ _); clearbody x.
  pose proof (Z.land_ones x 1 ltac:(lia)) as E; change (Z.ones 1) with 1 in E; rewrite E.
  pose proof (Z.mod_pos_bound x (2 ^ 1) ltac:(lia)); lia.
Qed.

(** The three flags of a new entry. *)
Definition flags_of (stake entropy generated : bool) : Z :=
  (if stake then 1 else 0) .| (if entropy then 2 else 0) .| (if generated then 4 else 0).

Lemma new_index_fields fTestNet genesis m nf np block proof pprev b :
  new_index Hash9 fTestNet genesis m nf np block proof pprev = Some b ->
  exists trust modifier generated, index_find m (bi_hash b) = None
    /\ GetBlockTrust (index_of_block nf np block) = Some trust
    /\ ComputeNextStakeModifier m pprev = Some (modifier, generated)
    /\ bi_hash b = block_GetHash Hash9 block /\ bi_hashProof b = proof
    /\ bi_nHeight b = match pprev with prev :: _ => bi_nHeight prev + 1 | [] => 0 end
    /\ bi_nChainTrust b = uint_add (trust_of pprev) trust
    /\ bi_nStakeModifier b = modifier
    /\ bi_nFlags b = flags_of (IsProofOfStake block) (block_GetStakeEntropyBit Hash9 block =? 1) generated.
Proof.
  unfold new_index; destruct (index_find m (block_GetHash Hash9 block)) as [|] eqn:Ef; [discriminate|].
  destruct (GetBlockTrust _) as [trust|]; [|discriminate]; unfold SetStakeEntropyBit; rewrite index_flags.
  destruct (ComputeNextStakeModifier m pprev) as [[modifier generated]|].
  2: { destruct (1 <? _); discriminate. }
  set (e := block_GetStakeEntropyBit Hash9 block); assert (He : e = 0 \/ e = 1) by apply entropy_cases; clearbody e.
  replace (1 <? e) with false by (symmetry; apply Z.ltb_ge; lia); cbv zeta.
  match goal with |- match ?c with _ => _ end = _ -> _ => destruct c as [ck|]; [|discriminate] end.
  match goal with |- (if ?c then _ else _) = _ -> _ => destruct c; [|discriminate] end.
  intros E; apply Some_inj in E; subst b; exists trust, modifier, generated.
  destruct generated, (IsProofOfStake block), pprev, He as [-> | ->]; repeat split; assumption.
Qed.

Lemma compute_generated m pprev r : ComputeNextStakeModifier m pprev = Some r -> pprev = [] -> snd r = true.
Proof. intros E ->; injection E as <-; reflexivity. Qed.

Lemma flags_bits stake entropy generated :
  let f := flags_of stake entropy generated in
  (negb (f .& BLOCK_PROOF_OF_STAKE =? 0) = stake) /\ ((f .& BLOCK_STAKE_ENTROPY) >> 1 = Z.b2z entropy)
  /\ (negb (f .& BLOCK_STAKE_MODIFIER =? 0) = generated).
Proof. destruct stake, entropy, generated; repeat split. Qed.

Lemma last_cons {A} (x : A) l d : l <> [] -> last (x :: l) d = last l d.
Proof. destruct l; [congruence | reflexivity]. Qed.

(** A new index entry extends the invariants of the chain of its
    predecessor: in the extended index the chain is indexed, without repeated
    hashes and from a generating genesis block.  The entry has the next
    height, the hash of the block, the flags of the block's kind, of the last
    bit of its hash and of a generated modifier; its chain trust is that of
    its predecessor plus the work of its target, so that it grows strictly
    while it fits 256 bits. *)
Theorem new_index_extends (fTestNet : bool) (genesis : list Z) (m : index_map) (nf np : Z) (block : CBlock) (proof : list Z)
    (pprev : list CBlockIndex) (b : CBlockIndex) :
  new_index Hash9 fTestNet genesis m nf np block proof pprev = Some b ->
  pprev = [] \/ chain_ok m pprev -> wf 8 (trust_of pprev) ->
  let target := SetCompact (bi_nBits (index_of_block nf np block)) in
  let work := 2 ^ 256 / (target + 1) in
  0 < target < 2 ^ 256 -> val (trust_of pprev) + work < 2 ^ 256 ->
  chain_ok ((bi_hash b, b) :: m) (b :: pprev)
  /\ bi_hash b = block_GetHash Hash9 block /\ bi_hashProof b = proof
  /\ bi_nHeight b = match pprev with prev :: _ => bi_nHeight prev + 1 | [] => 0 end
  /\ wf 8 (bi_nChainTrust b) /\ val (bi_nChainTrust b) = val (trust_of pprev) + work
  /\ val (trust_of pprev) < val (bi_nChainTrust b)
  /\ bi_IsProofOfStake b = IsProofOfStake block
  /\ bi_GetStakeEntropyBit b = block_GetStakeEntropyBit Hash9 block
  /\ ComputeNextStakeModifier m pprev = Some (bi_nStakeModifier b, GeneratedStakeModifier b).
Proof.
  intros Hnew Hprev Hwf target work Ht Hov.
  destruct (new_index_fields _ _ _ _ _ _ _ _ _ Hnew) as (trust & modifier & generated & Hn & Etr & Em & Eh & Ep & Ehe & Ect & Emod & Efl).
  destruct (GetBlockTrust_spec (index_of_block nf np block) (proj2 Ht)) as (t & Et & Wt & Vt).
  rewrite Etr in Et; apply Some_inj in Et; subst t; fold target in Vt; rewrite (proj2 (Z.leb_gt target 0) (proj1 Ht)) in Vt; fold work in Vt.
  assert (Hw : 1 <= work) by (apply Z.div_le_lower_bound; lia).
  destruct (add_loop_spec 8 0 (trust_of pprev) trust Hwf Wt ltac:(lia)) as [Wa Va]; fold (uint_add (trust_of pprev) trust) in Wa, Va.
  destruct (flags_bits (IsProofOfStake block) (block_GetStakeEntropyBit Hash9 block =? 1) generated) as (F1 & F2 & F3).
  rewrite <- Efl in F1, F2, F3; fold (bi_IsProofOfStake b) in F1; fold (bi_GetStakeEntropyBit b) in F2; fold (GeneratedStakeModifier b) in F3.
  assert (Hsum : val (bi_nChainTrust b) = val (trust_of pprev) + work).
  { rewrite Ect, Va, Vt, Z.add_0_l; apply Z.mod_small; pose proof (wf_bound _ _ Hwf).
    change (modulus 8) with (2 ^ 256); unfold inw in *; lia. }
  split.
  - apply chain_ok_cons; [exact Hn | | |].
    + destruct Hprev as [-> | (Hi & _ & _)]; [constructor | exact Hi].
    + destruct Hprev as [-> | (_ & Hd & _)]; [constructor | exact Hd].
    + destruct pprev as [|p pprev'].
      * cbn [last]; rewrite F3; exact (compute_generated _ _ _ Em eq_refl).
      * rewrite last_cons by discriminate; destruct Hprev as [E | (_ & _ & Hg)]; [discriminate E | exact Hg].
  - repeat split; try assumption.
    + rewrite Ect; apply Wa.
    + rewrite Ect; apply Wa.
    + lia.
    + rewrite F2; destruct (entropy_cases block) as [-> | ->]; reflexivity.
    + rewrite Em, Emod, F3; reflexivity.
Qed.

End NewIndex.

(** ** Concrete chains *)

Definition kernel_index (hash : Z) (height flags time : Z) : CBlockIndex :=
  BlockIndex (uint_of_u64 8 hash) 0 0 (uint_of_u64 8 (1000 * height)) height 0 0 flags (7 * height) 0 COutPoint_null 0
    (uint_of_u64 8 (hash * hash)) 6 null_hash time 0x1e00ffff 0.

Definition kernel_chain : list CBlockIndex :=
  [kernel_index 55 3 3 1432624100; kernel_index 44 2 1 1432622700; kernel_index 33 1 2 1432621400; kernel_index 22 0 4 1432620100].

Definition kernel_map : index_map := map (fun b => (bi_hash b, b)) kernel_chain.

Lemma kernel_chain_ok : chain_ok kernel_map kernel_chain.
Proof.
  split; [|split; [|reflexivity]].
  - do 4 (apply Forall_cons; [vm_compute; reflexivity|]); apply Forall_nil.
  - do 4 (apply NoDup_cons; [cbn; intuition discriminate|]); apply NoDup_nil.
Qed.

Lemma stake_modifier_computed_witness :
  exists r, ComputeNextStakeModifier (H := toy_hash) kernel_map kernel_chain = Some (r, true) /\ 0 <= r < 2 ^ 64.
Proof.
  destruct (stake_modifier_computed (H := toy_hash) kernel_map (hd CBlockIndex_null kernel_chain) (tl kernel_chain))
    as (g & older & Eg & _ & E).
  - exact (proj1 kernel_chain_ok).
  - exact (proj1 (proj2 kernel_chain_ok)).
  - reflexivity.
  - apply (f_equal (fun l => bi_nTime (hd CBlockIndex_null l))) in Eg; vm_compute in Eg.
    replace (bi_nTime g) with 1432620100 in E by (symmetry; exact (eq_sym Eg)).
    match type of E with if ?c then _ else _ => change c with false in E end.
    cbv iota in E; destruct E as (r & bs & sel & E & Hr & _); exists r; split; [exact E | exact Hr].
Defined.

(** A round takes the first unselected block although it is later than the end
    of the interval. *)
Example late_block_selected :
  let bs := rev kernel_chain in
  let late := nth 1 bs CBlockIndex_null in
  let selected := [bi_hash (nth 0 bs CBlockIndex_null)] in
  let stop := bi_nTime (nth 0 bs CBlockIndex_null) in
  SelectBlockFromCandidates (H := toy_hash) kernel_map (map item_of bs) selected stop 0 = Some late /\ stop < bi_nTime late.
Proof. vm_compute; split; reflexivity. Qed.

(** A coin that anyone may spend, the block it is in and a coinstake of it. *)
Definition kernel_coin : CTransaction := Tx 1 1440000000 [] [TxOut (100 * COIN) [op_byte OP_1]] 0 [] 0.
Definition kernel_block_from : CBlock := Block 6 null_hash null_hash 1440000100 0x1e00ffff 5 [kernel_coin] [].
Definition kernel_hash : list Z := block_GetHash (H := toy_hash) (fun _ => null_hash) kernel_block_from.
Definition kernel_stake : CTransaction :=
  Tx 1 1440400000 [TxIn (OutPoint (tx_GetHash (H := toy_hash) kernel_coin) 0) [] 0xFFFFFFFF]
    [TxOut 0 []; TxOut (101 * COIN) [op_byte OP_1]] 0 [] 0.
Definition kernel_from : CBlockIndex :=
  BlockIndex kernel_hash 1 200 null_hash 9 0 0 1 0 0 COutPoint_null 0 null_hash 6 null_hash 1440000100 0x1e00ffff 5.

Lemma proof_of_stake_exact_witness :
  CheckProofOfStake (H := toy_hash) (L := BN_ideal) (EC := toy_ec) [(kernel_hash, kernel_from)]
    (fun _ => [kernel_index 77 10 5 1440042500]) (fun _ => null_hash) (fun _ => Some (TxIndex (DiskTxPos 1 200 300) []))
    (fun _ => Some kernel_coin) (fun _ _ => Some kernel_block_from) kernel_stake 0x207fffff <> PosUndefined
  /\ coin_days COIN (GetWeight 1440000000 1440400000) <= coin_days (2 * COIN) (GetWeight 1440000000 1440400000).
Proof.
  destruct (proof_of_stake_exact (H := toy_hash) (L := BN_ideal) (EC := toy_ec) [(kernel_hash, kernel_from)]
    (fun _ => [kernel_index 77 10 5 1440042500]) (fun _ => null_hash) (fun _ => Some (TxIndex (DiskTxPos 1 200 300) []))
    (fun _ => Some kernel_coin) (fun _ _ => Some kernel_block_from) kernel_stake 0x207fffff [] []) as (H1 & _ & H3).
  - intros p t E; injection E as <-; split; [cbn; lia|]; apply Forall_cons; [cbn; lia | apply Forall_nil].
  - cbn; lia.
  - vm_compute; discriminate.
  - split; [exact H1|]; exact (proj1 (proj1 (H3 COIN (2 * COIN) 1440000000 1440000000 ltac:(unfold COIN; lia) ltac:(vm_compute; discriminate) ltac:(lia)))).
Defined.

(** The coinstake is accepted. *)
Example kernel_stake_accepted :
  match CheckProofOfStake (H := toy_hash) (L := BN_ideal) (EC := toy_ec) [(kernel_hash, kernel_from)]
    (fun _ => [kernel_index 77 10 5 1440042500]) (fun _ => null_hash) (fun _ => Some (TxIndex (DiskTxPos 1 200 300) []))
    (fun _ => Some kernel_coin) (fun _ _ => Some kernel_block_from) kernel_stake 0x207fffff with
  | PosTrue _ _ => true | _ => false end = true.
Proof. vm_compute; reflexivity. Qed.

Definition kernel_next : CBlock := Block 6 null_hash null_hash 1440000100 0x1e00ffff 6 [kernel_coin] [].

Lemma new_index_extends_witness :
  exists b, new_index (H := toy_hash) (L := BN_ideal) (fun _ => null_hash) false null_hash kernel_map 1 900 kernel_next null_hash
      kernel_chain = Some b
    /\ bi_nHeight b = 4 /\ chain_ok ((bi_hash b, b) :: kernel_map) (b :: kernel_chain).
Proof.
  destruct (new_index (H := toy_hash) (L := BN_ideal) (fun _ => null_hash) false null_hash kernel_map 1 900 kernel_next null_hash
      kernel_chain) as [b|] eqn:E; [|vm_compute in E; discriminate E].
  exists b; split; [reflexivity|].
  destruct (new_index_extends (H := toy_hash) (L := BN_ideal) (fun _ => null_hash) false null_hash kernel_map 1 900 kernel_next null_hash
      kernel_chain b E) as (Hok & _ & _ & Hh & _).
  - right; exact kernel_chain_ok.
  - split; [reflexivity | words_dec].
  - vm_compute; split; reflexivity.
  - vm_compute; reflexivity.
  - split; [exact Hh | exact Hok].
Defined.
