(* ===== verification/Subsidy.v ===== *)
(** * Subsidy: the reward of a proof-of-work block (main.cpp)

    [GetPoWSubsidy] computes in the [double]s of IEEE 754: [sqrt], the
    division, the product and the difference are each rounded once, to the
    nearest 53-bit number, which is what the Standard Library's [SpecFloat]
    computes. *)

From Stdlib Require Import ZArith List Lia Bool SpecFloat.
From S2P Require Import Prelude SphTypes Transaction.
Import ListNotations.

Open Scope Z_scope.

(** ** Doubles *)

Definition double := spec_float.
Definition double_of (z : Z) : double := binary_normalize 53 1024 z 0 false.
Definition dbl_sqrt : double -> double := SFsqrt 53 1024.
Definition dbl_div : double -> double -> double := SFdiv 53 1024.
Definition dbl_mul : double -> double -> double := SFmul 53 1024.
Definition dbl_sub : double -> double -> double := SFsub 53 1024.

(** [(int64_t) floor(x)]; [None] is a value that does not fit. *)
Definition floor_int64 (x : double) : option Z :=
  match x with
  | S754_zero _ => Some 0
  | S754_finite s m e =>
      let v := Z.shiftl (if s then Zneg m else Zpos m) e in
      if (- 2 ^ 63 <=? v) && (v <? 2 ^ 63) then Some v else None
  | _ => None
  end.

(** ** The subsidy *)

Definition LAST_POW_BLOCK : Z := 4320.

(** The literal [65.228] *)
Definition lit_65_228 : double := dbl_div (double_of 65228) (double_of 1000).

Definition GetPoWSubsidy (nHeight : Z) : option Z :=
  if nHeight <=? LAST_POW_BLOCK then
    option_map (i64_mul COIN)
      (floor_int64 (dbl_sub (dbl_mul (double_of 4500) (dbl_div (double_of 1) (dbl_sqrt (double_of (nHeight + 45))))) lit_65_228))
  else Some 0.

Definition GetProofOfWorkReward (nHeight nFees : Z) : option Z := option_map (fun nSubsidy => i64_add nSubsidy nFees) (GetPoWSubsidy nHeight).

(** ** All the heights *)

(** The subsidies from height [h] on, each at most the one before, in coins:
    their sum. *)
Fixpoint issue (n : nat) (h before : Z) : option Z :=
  match n with
  | O => Some 0
  | S n =>
      match GetPoWSubsidy h with
      | None => None
      | Some s => if (2 * COIN <=? s) && (s <=? before) then option_map (Z.add s) (issue n (h + 1) s) else None
      end
  end.

Lemma issue_all : issue 4320 1 (598 * COIN) = Some (250001 * COIN).
Proof. vm_compute; reflexivity. Qed.

(** The subsidies of the heights [h], [h + 1], ..., [n] of them. *)
Definition subsidy (h : Z) : Z := match GetPoWSubsidy h with Some s => s | None => 0 end.
Definition issued (n : nat) (h : Z) : Z := fold_right (fun k s => subsidy (h + Z.of_nat k) + s) 0 (seq 0 n).

Lemma issued_S n h : issued (S n) h = subsidy h + issued n (h + 1).
Proof.
  unfold issued; cbn [seq fold_right]; rewrite Z.add_0_r; f_equal; rewrite <- seq_shift.
  induction (seq 0 n) as [|k l IH]; [reflexivity|]; cbn [map fold_right]; rewrite IH; do 2 f_equal; lia.
Qed.

Lemma issue_spec n h before total : issue n h before = Some total ->
  issued n h = total
  /\ (forall k, h <= k < h + Z.of_nat n ->
        GetPoWSubsidy k = Some (subsidy k) /\ 2 * COIN <= subsidy k <= before)
  /\ (forall k k', h <= k <= k' -> k' < h + Z.of_nat n -> subsidy k' <= subsidy k).
Proof.
  revert h before total; induction n as [|n IH]; intros h before total E; cbn [issue] in E.
  { injection E as <-; split; [reflexivity|]; split; intros; lia. }
  destruct (GetPoWSubsidy h) as [s|] eqn:Es; [|discriminate E].
  assert (Eh : subsidy h = s) by (unfold subsidy; now rewrite Es).
  destruct (Z.leb_spec (2 * COIN) s), (Z.leb_spec s before); cbn [andb] in E; try discriminate E.
  destruct (issue n (h + 1) s) as [t|] eqn:Et; [|discriminate E]; injection E as <-.
  destruct (IH _ _ _ Et) as (I1 & I2 & I3); rewrite issued_S, I1, Eh; split; [reflexivity|].
  assert (Hk : forall k, h <= k < h + Z.of_nat (S n) -> GetPoWSubsidy k = Some (subsidy k) /\ 2 * COIN <= subsidy k <= s).
  { intros k Hk; destruct (Z.eq_dec k h) as [->|]; [rewrite Eh; split; [exact Es | lia] | apply I2; lia]. }
  split; [intros k Hk'; destruct (Hk k Hk'); split; [assumption | lia]|].
  intros k k' Hk1 Hk2; destruct (Z.eq_dec k h) as [->|]; [rewrite Eh; apply (Hk k'); lia | apply I3; lia].
Qed.

Lemma subsidy_after h : LAST_POW_BLOCK < h -> GetPoWSubsidy h = Some 0.
Proof. intros Hh; unfold GetPoWSubsidy; now rewrite (proj2 (Z.leb_gt _ _) Hh). Qed.

Lemma subsidy_range h : 1 <= h -> GetPoWSubsidy h = Some (subsidy h) /\ 0 <= subsidy h <= 598 * COIN.
Proof.
  intros Hh; destruct (issue_spec _ _ _ _ issue_all) as (_ & I2 & _); destruct (Z_le_gt_dec h LAST_POW_BLOCK) as [Hle|Hgt].
  - unfold LAST_POW_BLOCK in Hle; destruct (I2 h) as [E B]; [lia|]; split; [exact E | unfold COIN in *; lia].
  - unfold subsidy; rewrite subsidy_after by lia; split; [reflexivity | unfold COIN; lia].
Qed.

(** The fees of a block are below 2^62. *)
Lemma reward_exact h nFees : 1 <= h -> 0 <= nFees <= 2 ^ 62 -> GetProofOfWorkReward h nFees = Some (subsidy h + nFees).
Proof.
  intros Hh Hf; destruct (subsidy_range h Hh) as [E B]; unfold GetProofOfWorkReward; rewrite E; cbn [option_map].
  f_equal; apply i64_add_range; unfold COIN in *; lia.
Qed.

(** C15: The proof-of-work issue.  With the rounding of [double]s, every height
    from 1 to the last proof-of-work block has a subsidy, of at least 2 and
    at most 598 coins, which never increases with the height; together the
    blocks issue exactly 250001 coins, the maximum that the code and the
    README announce, and no later block issues any.  The reward of a block is the
    subsidy and the fees. *)
Theorem pow_issue_exact :
  issued (Z.to_nat LAST_POW_BLOCK) 1 = 250001 * COIN
  /\ (forall h, 1 <= h <= LAST_POW_BLOCK -> GetPoWSubsidy h = Some (subsidy h) /\ 2 * COIN <= subsidy h <= 598 * COIN)
  /\ (forall h h', 1 <= h <= h' -> h' <= LAST_POW_BLOCK -> subsidy h' <= subsidy h)
  /\ (forall h, LAST_POW_BLOCK < h -> GetPoWSubsidy h = Some 0)
  /\ (forall h nFees, 1 <= h -> 0 <= nFees <= 2 ^ 62 -> GetProofOfWorkReward h nFees = Some (subsidy h + nFees)).
Proof.
  destruct (issue_spec _ _ _ _ issue_all) as (I1 & I2 & I3).
  split; [exact I1|]; split; [|split; [|split; [exact subsidy_after | exact reward_exact]]].
  - intros h Hh; apply I2; unfold LAST_POW_BLOCK in Hh; lia.
  - intros h h' H1 H2; apply I3; [lia|]; unfold LAST_POW_BLOCK in H2; lia.
Qed.
