(* ===== verification/Inputs.v ===== *)
(** * Inputs: fetching, connecting and disconnecting inputs (main.cpp)

    The database of spent outputs and the operations of [CTransaction] on it:
    [FetchInputs], [ConnectInputs], [DisconnectInputs], and the fees.  The
    database maps the hash of a transaction to its [CTxIndex], whose [vSpent]
    says of each output which transaction spends it.  The memory pool and the
    transactions in the block files are parameters; database I/O errors are
    not modelled. *)

From Stdlib Require Import ZArith List Lia Bool.
From stdpp Require Import gmap list.
From S2P Require Import Prelude SphTypes Uint256 Serialize BigNum Transaction Script Interp SigHash BlockIndex.
Import ListNotations.

Open Scope Z_scope.

(** [CTxDB]'s ["tx"] records, [map<uint256, CTxIndex>] and [MapPrevTx]. *)
Abbreviation tx_map := (gmap (list Z) CTxIndex).
Abbreviation MapPrevTx := (gmap (list Z) (CTxIndex * CTransaction)).

Definition pos_IsNull (p : CDiskTxPos) : bool := nFile p =? 0xFFFFFFFF.
Definition pos_eq (p q : CDiskTxPos) : bool :=
  (nFile p =? nFile q) && (nBlockPos p =? nBlockPos q) && (nTxPos p =? nTxPos q).

(** [CTxIndex(posIn, nOutputs)] *)
Definition txindex_new (posIn : CDiskTxPos) (nOutputs : nat) : CTxIndex := TxIndex posIn (repeat CDiskTxPos_null nOutputs).

(** [txindex.vSpent[n] = p] *)
Definition set_spent (x : CTxIndex) (n : Z) (p : CDiskTxPos) : CTxIndex := TxIndex (pos x) (upd (vSpent x) (Z.to_nat n) p).
Definition spent_at (x : CTxIndex) (n : Z) : CDiskTxPos := nth (Z.to_nat n) (vSpent x) CDiskTxPos_null.
Definition in_range {A} (n : Z) (l : list A) : bool := n <? Z.of_nat (length l).

(** The code's failures: the result [false] with a score, or an exception. *)
Inductive outcome (A : Type) := Done (a : A) | Fails (nDoS : Z) | Throws.
Arguments Done {A}.
Arguments Fails {A}.
Arguments Throws {A}.

Definition obind {A B} (r : outcome A) (f : A -> outcome B) : outcome B :=
  match r with Done a => f a | Fails n => Fails n | Throws => Throws end.
Notation "'let!' x := r 'in' k" := (obind r (fun x => k)) (at level 10, x pattern, k at level 200).

(** [std::runtime_error] for [None]. *)
Definition or_throw {A} (o : option A) : outcome A := match o with Some a => Done a | None => Throws end.

(** ** Fees *)

Definition MIN_TX_FEE : Z := 62500.
Definition MIN_RELAY_TX_FEE : Z := MIN_TX_FEE.
Definition MAX_BLOCK_SIZE_GEN : Z := MAX_BLOCK_SIZE / 2.
Definition COMMENT_FEE_PER_CHAR : Z := 10000.
Definition OP_RET_FEE_PER_CHAR : Z := 15000.
Definition ec_compressed_size : Z := 33.

Inductive GetMinFee_mode := GMF_BLOCK | GMF_RELAY | GMF_SEND.

Section Fees.
(** The second read of [GetOpRetFee] gives an iterator of the copy [scriptPK]
    to the original script, whose [end()] it is compared with: what it reads
    is not defined and is a parameter, of the script and of the rest after
    the first instruction. *)
Context (foreign_GetOp : list Z -> list Z -> option (Z * valtype * list Z)).

Definition GetSwiftFee (tx : CTransaction) : Z := i64_mul COMMENT_FEE_PER_CHAR (size_of (strTxComment tx)).

(** [scriptPK.GetOp(pc, opCode, vchR) && (opCode == OP_RETURN)], with the rest. *)
Definition is_op_return (script : list Z) : option (list Z) :=
  match GetOp script with
  | Some (opCode, _, pc) => if opCode =? op_byte OP_RETURN then Some pc else None
  | None => None
  end.

Fixpoint op_ret_loop (outs : list CTxOut) (nFreeSSecret nOpRetFee : Z) : Z :=
  match outs with
  | [] => nOpRetFee
  | txout :: outs =>
      let scriptPK := scriptPubKey txout in
      match is_op_return scriptPK with
      | None => op_ret_loop outs nFreeSSecret nOpRetFee
      | Some pc =>
          let charged :=
            match foreign_GetOp scriptPK pc with
            | None => true
            | Some (_, vchR, _) => negb (zlen vchR =? ec_compressed_size) || (nFreeSSecret <? 1)
            end in
          if charged then op_ret_loop outs nFreeSSecret (i64_add nOpRetFee (i64_mul OP_RET_FEE_PER_CHAR (size_of scriptPK)))
          else op_ret_loop outs (nFreeSSecret - 1) nOpRetFee
      end
  end.

Definition GetOpRetFee (tx : CTransaction) : Z :=
  let nFreeSSecret :=
    zlen (List.filter (fun o => match is_op_return (scriptPubKey o) with None => true | Some _ => false end) (vout tx)) in
  op_ret_loop (vout tx) nFreeSSecret 0.

Definition GetMinFee (tx : CTransaction) (nBlockSize : Z) (mode : GetMinFee_mode) (nBytes : Z) : Z :=
  let nBaseFee := match mode with GMF_RELAY => MIN_RELAY_TX_FEE | _ => MIN_TX_FEE end in
  let nNewBlockSize := u32 (nBlockSize + nBytes) in
  let nMinFee := i64_mul (1 + nBytes / 1000) nBaseFee in
  let nMinFee :=
    if (nMinFee <? nBaseFee) && existsb (fun txout => nValue txout <? CENT) (vout tx) then nBaseFee else nMinFee in
  let service nMinFee :=
    let nMinFee :=
      if 2 <=? tx_nVersion tx then i64_add (i64_add nMinFee (GetSwiftFee tx)) (GetOpRetFee tx) else nMinFee in
    if negb (MoneyRange nMinFee) then MAX_MONEY else nMinFee in
  if negb (nBlockSize =? 1) && (MAX_BLOCK_SIZE_GEN / 2 <=? nNewBlockSize) then
    if MAX_BLOCK_SIZE_GEN <=? nNewBlockSize then MAX_MONEY
    else service (i64_mul nMinFee (MAX_BLOCK_SIZE_GEN / (MAX_BLOCK_SIZE_GEN - nNewBlockSize)))
  else service nMinFee.

End Fees.

(** ** Inputs *)

Section Inputs.
Context {H : hash_lib} {L : BN_lib} {EC : ec_lib}.
Context (foreign_GetOp : list Z -> list Z -> option (Z * valtype * list Z))
  (mempool_lookup : list Z -> option CTransaction) (ReadTx : CDiskTxPos -> option CTransaction).

(** The body of the first loop of [FetchInputs]. *)
Definition fetch_one (txdb mapTestPool : tx_map) (fBlock fMiner : bool) (hash : list Z) : option (CTxIndex * CTransaction) :=
  let found :=
    match mapTestPool !! hash with
    | Some x => if fBlock || fMiner then Some x else txdb !! hash
    | None => txdb !! hash
    end in
  match found with
  | None =>
      if fBlock || fMiner then None
      else match mempool_lookup hash with
           | None => None
           | Some txPrev => Some (txindex_new CDiskTxPos_null (length (vout txPrev)), txPrev)
           end
  | Some txindex =>
      match (if pos_eq (pos txindex) (DiskTxPos 1 1 1) then mempool_lookup hash else ReadTx (pos txindex)) with
      | None => None
      | Some txPrev => Some (txindex, txPrev)
      end
  end.

Fixpoint fetch_loop (txdb mapTestPool : tx_map) (fBlock fMiner : bool) (ins : list CTxIn) (inputsRet : MapPrevTx)
  : option MapPrevTx :=
  match ins with
  | [] => Some inputsRet
  | txin :: ins =>
      let hash := op_hash (prevout txin) in
      match inputsRet !! hash with
      | Some _ => fetch_loop txdb mapTestPool fBlock fMiner ins inputsRet
      | None =>
          match fetch_one txdb mapTestPool fBlock fMiner hash with
          | None => None
          | Some p => fetch_loop txdb mapTestPool fBlock fMiner ins (<[hash := p]> inputsRet)
          end
      end
  end.

Definition prevout_valid (inputs : MapPrevTx) (o : COutPoint) : bool :=
  match inputs !! op_hash o with
  | None => false
  | Some (txindex, txPrev) => in_range (op_n o) (vout txPrev) && in_range (op_n o) (vSpent txindex)
  end.

(** The inputs, or the value of [fInvalid] with the result [false]. *)
Definition FetchInputs (txdb mapTestPool : tx_map) (fBlock fMiner : bool) (tx : CTransaction) : MapPrevTx + bool :=
  if IsCoinBase tx then inl ∅
  else
    match fetch_loop txdb mapTestPool fBlock fMiner (vin tx) ∅ with
    | None => inr false
    | Some inputsRet =>
        if forallb (fun txin => prevout_valid inputsRet (prevout txin)) (vin tx) then inl inputsRet else inr true
    end.

Definition GetOutputFor (input : CTxIn) (inputs : MapPrevTx) : option CTxOut :=
  match inputs !! op_hash (prevout input) with
  | None => None
  | Some (_, txPrev) =>
      if in_range (op_n (prevout input)) (vout txPrev)
      then Some (nth (Z.to_nat (op_n (prevout input))) (vout txPrev) CTxOut_null) else None
  end.

Fixpoint value_in_loop (inputs : MapPrevTx) (nResult : Z) (ins : list CTxIn) : option Z :=
  match ins with
  | [] => Some nResult
  | txin :: ins =>
      match GetOutputFor txin inputs with
      | None => None
      | Some o => value_in_loop inputs (i64_add nResult (nValue o)) ins
      end
  end.

Definition GetValueIn (tx : CTransaction) (inputs : MapPrevTx) : option Z :=
  if IsCoinBase tx then Some 0 else value_in_loop inputs 0 (vin tx).

Fixpoint p2sh_sigops_loop (inputs : MapPrevTx) (nSigOps : Z) (ins : list CTxIn) : option Z :=
  match ins with
  | [] => Some nSigOps
  | txin :: ins =>
      match GetOutputFor txin inputs with
      | None => None
      | Some o =>
          p2sh_sigops_loop inputs
            (if IsPayToScriptHash (scriptPubKey o)
             then u32 (nSigOps + GetSigOpCount_P2SH (scriptPubKey o) (scriptSig txin)) else nSigOps) ins
      end
  end.

Definition GetP2SHSigOpCount (tx : CTransaction) (inputs : MapPrevTx) : option Z :=
  if IsCoinBase tx then Some 0 else p2sh_sigops_loop inputs 0 (vin tx).

Definition GetLegacySigOpCount (tx : CTransaction) : Z :=
  let nSigOps := fold_left (fun n txin => u32 (n + GetSigOpCount false (scriptSig txin))) (vin tx) 0 in
  fold_left (fun n txout => u32 (n + GetSigOpCount false (scriptPubKey txout))) (vout tx) nSigOps.

(** ** ConnectInputs *)

Definition nCoinbaseMaturity : Z := 120.

(** Whether the entry [p] is that of a block among the last ones before
    [pindexBlock], at height [nHeight]. *)
Fixpoint immature (nHeight : Z) (p : CDiskTxPos) (chain : list CBlockIndex) : bool :=
  match chain with
  | [] => false
  | pindex :: pprev =>
      if nHeight - bi_nHeight pindex <? nCoinbaseMaturity then
        if (bi_nBlockPos pindex =? nBlockPos p) && (bi_nFile pindex =? nFile p) then true
        else immature nHeight p pprev
      else false
  end.

(** The first loop: the sum of the inputs. *)
Fixpoint check_inputs (tx : CTransaction) (inputs : MapPrevTx) (chain : list CBlockIndex) (nValueIn : Z)
    (ins : list CTxIn) : outcome Z :=
  match ins with
  | [] => Done nValueIn
  | txin :: ins =>
      let o := prevout txin in
      match inputs !! op_hash o with
      | None => Throws
      | Some (txindex, txPrev) =>
          if negb (in_range (op_n o) (vout txPrev)) || negb (in_range (op_n o) (vSpent txindex)) then Fails 100
          else if (IsCoinBase txPrev || IsCoinStake txPrev)
                  && immature (bi_nHeight (nth 0 chain CBlockIndex_null)) (pos txindex) chain then Fails 0
          else if tx_nTime tx <? tx_nTime txPrev then Fails 100
          else
            let value := nValue (nth (Z.to_nat (op_n o)) (vout txPrev) CTxOut_null) in
            let nValueIn := i64_add nValueIn value in
            if negb (MoneyRange value) || negb (MoneyRange nValueIn) then Fails 100
            else check_inputs tx inputs chain nValueIn ins
      end
  end.

(** The second loop, from input [i] on: [inputs] is the function's own copy. *)
Fixpoint spend_loop (tx : CTransaction) (posThisTx : CDiskTxPos) (fBlock fMiner fSkip : bool) (i : nat) (ins : list CTxIn)
    (inputs : MapPrevTx) (mapTestPool : tx_map) : outcome tx_map :=
  match ins with
  | [] => Done mapTestPool
  | txin :: ins =>
      let o := prevout txin in
      match inputs !! op_hash o with
      | None => Throws
      | Some (txindex, txPrev) =>
          if negb (pos_IsNull (spent_at txindex (op_n o))) then Fails 0
          else if negb fSkip && negb (VerifySignature txPrev tx i 0) then Fails 100
          else
            let txindex := set_spent txindex (op_n o) posThisTx in
            spend_loop tx posThisTx fBlock fMiner fSkip (S i) ins (<[op_hash o := (txindex, txPrev)]> inputs)
              (if fBlock || fMiner then <[op_hash o := txindex]> mapTestPool else mapTestPool)
      end
  end.

(** The test of the fees; [fSkip] is [fBlock && nBestHeight < GetTotalBlocksEstimate()]. *)
Definition check_fee (tx : CTransaction) (nValueIn : Z) (fBlock : bool) : outcome unit :=
  if IsCoinStake tx then Done tt
  else
    let! nValueOut := or_throw (GetValueOut tx) in
    if nValueIn <? nValueOut then Fails 100
    else
      let nTxFee := i64_sub nValueIn nValueOut in
      if nTxFee <? 0 then Fails 100
      else if nTxFee <? GetMinFee foreign_GetOp tx 1 GMF_BLOCK 0 then Fails (if fBlock then 100 else 0)
      else if negb (MoneyRange nTxFee) then Fails 100
      else Done tt.

Definition ConnectInputs (tx : CTransaction) (inputs : MapPrevTx) (mapTestPool : tx_map) (posThisTx : CDiskTxPos)
    (chain : list CBlockIndex) (fBlock fMiner fSkip : bool) : outcome tx_map :=
  if IsCoinBase tx then Done mapTestPool
  else
    let! nValueIn := check_inputs tx inputs chain 0 (vin tx) in
    let! mapTestPool := spend_loop tx posThisTx fBlock fMiner fSkip 0 (vin tx) inputs mapTestPool in
    let! _ := check_fee tx nValueIn fBlock in
    Done mapTestPool.

(** ** DisconnectInputs *)

Fixpoint disconnect_loop (ins : list CTxIn) (txdb : tx_map) : option tx_map :=
  match ins with
  | [] => Some txdb
  | txin :: ins =>
      let o := prevout txin in
      match txdb !! op_hash o with
      | None => None
      | Some txindex =>
          if negb (in_range (op_n o) (vSpent txindex)) then None
          else disconnect_loop ins (<[op_hash o := set_spent txindex (op_n o) CDiskTxPos_null]> txdb)
      end
  end.

Definition DisconnectInputs (tx : CTransaction) (txdb : tx_map) : option tx_map :=
  match (if IsCoinBase tx then Some txdb else disconnect_loop (vin tx) txdb) with
  | None => None
  | Some txdb => Some (delete (tx_GetHash tx) txdb)
  end.

End Inputs.

(** ** Marking outputs as spent *)

(** The effect of spending the outputs [ins] by the transaction at [p]. *)
Definition mark_one (p : CDiskTxPos) (v : tx_map) (i : CTxIn) : tx_map :=
  alter (fun x => set_spent x (op_n (prevout i)) p) (op_hash (prevout i)) v.
Definition mark (p : CDiskTxPos) (ins : list CTxIn) (v : tx_map) : tx_map := fold_left (mark_one p) ins v.

(** The output is in the map and not spent. *)
Definition unspent (v : tx_map) (i : CTxIn) : Prop :=
  exists x, v !! op_hash (prevout i) = Some x /\ 0 <= op_n (prevout i) < Z.of_nat (length (vSpent x))
    /\ pos_IsNull (spent_at x (op_n (prevout i))) = true.

(** Each output is unspent when its turn comes. *)
Fixpoint spendable (p : CDiskTxPos) (ins : list CTxIn) (v : tx_map) : Prop :=
  match ins with
  | [] => True
  | i :: ins => unspent v i /\ spendable p ins (mark_one p v i)
  end.

(** Entries that are not spent have the default position. *)
Definition canonical_map (v : tx_map) : Prop :=
  forall h x, v !! h = Some x -> Forall (fun p => pos_IsNull p = true -> p = CDiskTxPos_null) (vSpent x).

Definition same_out (i j : CTxIn) : Prop :=
  op_hash (prevout i) = op_hash (prevout j) /\ op_n (prevout i) = op_n (prevout j).

Lemma length_set_spent x n p : 0 <= n < Z.of_nat (length (vSpent x)) -> length (vSpent (set_spent x n p)) = length (vSpent x).
Proof. intros Hn; cbn [set_spent vSpent]; apply length_upd; lia. Qed.

Lemma spent_set_same x n p : 0 <= n < Z.of_nat (length (vSpent x)) -> spent_at (set_spent x n p) n = p.
Proof. intros Hn; unfold spent_at, set_spent; cbn [vSpent]; rewrite nth_upd by lia; now rewrite Nat.eqb_refl. Qed.

Lemma spent_set_other x n m p : 0 <= n < Z.of_nat (length (vSpent x)) -> 0 <= m -> n <> m ->
  spent_at (set_spent x n p) m = spent_at x m.
Proof.
  intros Hn Hm Hne; unfold spent_at, set_spent; cbn [vSpent]; rewrite nth_upd by lia.
  destruct (Nat.eqb_spec (Z.to_nat m) (Z.to_nat n)); [lia | reflexivity].
Qed.

Definition has (v : tx_map) (i : CTxIn) : Prop :=
  exists x, v !! op_hash (prevout i) = Some x /\ 0 <= op_n (prevout i) < Z.of_nat (length (vSpent x)).

Lemma unspent_has v i : unspent v i -> has v i.
Proof. intros (x & E & Hr & _); exists x; auto. Qed.

Lemma lookup_mark_same p v i x : v !! op_hash (prevout i) = Some x ->
  mark_one p v i !! op_hash (prevout i) = Some (set_spent x (op_n (prevout i)) p).
Proof. intros E; unfold mark_one; now rewrite lookup_alter_eq, E. Qed.

Lemma lookup_mark_other p v i h : op_hash (prevout i) <> h -> mark_one p v i !! h = v !! h.
Proof. intros E; unfold mark_one; now rewrite lookup_alter_ne. Qed.

Lemma has_mark q v i j : has v i -> has v j -> has (mark_one q v i) j.
Proof.
  intros (x & Ex & Hx) (y & Ey & Hy); destruct (decide (op_hash (prevout i) = op_hash (prevout j))) as [E|E].
  - exists (set_spent x (op_n (prevout i)) q); rewrite <- E in Ey |- *; split; [now apply lookup_mark_same|].
    rewrite length_set_spent by assumption; congruence.
  - exists y; split; [now rewrite lookup_mark_other | exact Hy].
Qed.

(** Marking one output does not change whether another is spent. *)
Lemma unspent_other q v i j : has v i -> ~ same_out i j -> unspent (mark_one q v i) j <-> unspent v j.
Proof.
  intros (x & Ex & Hx) Hne; unfold unspent.
  destruct (decide (op_hash (prevout i) = op_hash (prevout j))) as [E|E]; [|now setoid_rewrite (lookup_mark_other q v i _ E)].
  assert (Hn : op_n (prevout i) <> op_n (prevout j)) by (intros En; now apply Hne).
  rewrite <- E, (lookup_mark_same q v i x Ex), Ex; split.
  - intros (y & Ey & Hr & Hs); injection Ey as <-; rewrite length_set_spent in Hr by assumption.
    rewrite spent_set_other in Hs by lia; exists x; auto.
  - intros (y & Ey & Hr & Hs); injection Ey as <-; exists (set_spent x (op_n (prevout i)) q); split; [reflexivity|].
    rewrite length_set_spent, spent_set_other by (assumption || lia); auto.
Qed.

Lemma set_spent_comm x n m p q : 0 <= n < Z.of_nat (length (vSpent x)) -> 0 <= m < Z.of_nat (length (vSpent x)) -> n <> m ->
  set_spent (set_spent x n p) m q = set_spent (set_spent x m q) n p.
Proof.
  intros Hn Hm Hne; unfold set_spent; cbn [pos vSpent]; f_equal.
  apply (nth_ext _ _ CDiskTxPos_null CDiskTxPos_null); [now rewrite !length_upd by (rewrite ?length_upd; lia)|].
  intros k _; rewrite !nth_upd by (rewrite ?length_upd; lia).
  destruct (Nat.eqb_spec k (Z.to_nat m)), (Nat.eqb_spec k (Z.to_nat n)); try reflexivity; lia.
Qed.

Lemma mark_comm p q v i j : has v i -> has v j -> ~ same_out i j ->
  mark_one q (mark_one p v i) j = mark_one p (mark_one q v j) i.
Proof.
  intros (x & Ex & Hx) (y & Ey & Hy) Hne; unfold mark_one.
  destruct (decide (op_hash (prevout i) = op_hash (prevout j))) as [E|E]; [|rewrite alter_alter_ne by congruence; reflexivity].
  assert (Hn : op_n (prevout i) <> op_n (prevout j)) by (intros En; now apply Hne).
  rewrite E in Ex |- *; rewrite !alter_alter_eq; apply alter_ext; intros z Ez; unfold compose.
  apply set_spent_comm; [congruence..| exact Hn].
Qed.

(** Marking an unspent output and clearing it again. *)
Lemma mark_clear p v i : unspent v i -> canonical_map v -> mark_one CDiskTxPos_null (mark_one p v i) i = v.
Proof.
  intros (x & Ex & Hr & Hs) Hc; unfold mark_one; rewrite alter_alter_eq; apply alter_id; intros z Ez.
  rewrite Ex in Ez; injection Ez as <-; unfold compose, set_spent; cbn [pos vSpent]; destruct x as [xp xs]; cbn [pos vSpent] in *; f_equal.
  apply (nth_ext _ _ CDiskTxPos_null CDiskTxPos_null); [now rewrite !length_upd by (rewrite ?length_upd; lia)|].
  intros k Hk; rewrite !nth_upd by (rewrite ?length_upd; lia); destruct (Nat.eqb_spec k (Z.to_nat (op_n (prevout i)))) as [->|]; [|reflexivity].
  symmetry; apply (proj1 (List.Forall_forall _ _) (Hc _ _ Ex)); [apply nth_In; cbn [vSpent]; lia | exact Hs].
Qed.

(** An output that is spent is not spent again. *)
Lemma spendable_other p j ins v : has v j -> ~ unspent v j -> spendable p ins v ->
  Forall (fun i => ~ same_out j i) ins.
Proof.
  revert v; induction ins as [|i ins IH]; intros v Hh Hu Hs; [constructor|]; destruct Hs as [Hi Hs].
  assert (Hne : ~ same_out j i).
  { intros [E1 E2]; apply Hu; destruct Hi as (x & Ex & Hr & Hn); exists x; rewrite E1, E2; auto. }
  constructor; [exact Hne|]; apply (IH _ (has_mark p v i j (unspent_has _ _ Hi) Hh)); [|exact Hs].
  rewrite (unspent_other p v i j (unspent_has _ _ Hi)); [exact Hu|]; intros [E1 E2]; apply Hne; now split.
Qed.

Lemma marked_spent p v i : pos_IsNull p = false -> has v i -> ~ unspent (mark_one p v i) i.
Proof.
  intros Hp (x & Ex & Hr) (y & Ey & Hy & Hn); rewrite (lookup_mark_same p v i x Ex) in Ey; injection Ey as <-.
  rewrite spent_set_same in Hn by assumption; congruence.
Qed.

Lemma spendable_distinct p i ins v : pos_IsNull p = false -> unspent v i -> spendable p ins (mark_one p v i) ->
  Forall (fun j => ~ same_out i j) ins.
Proof.
  intros Hp Hi Hs; apply (spendable_other p i ins (mark_one p v i)); [|apply marked_spent|exact Hs];
    auto using has_mark, unspent_has.
Qed.

Lemma spendable_frame p q i ins v : has v i -> Forall (fun j => ~ same_out i j) ins ->
  spendable p ins (mark_one q v i) <-> spendable p ins v.
Proof.
  revert v; induction ins as [|j ins IH]; intros v Hi Hne; [reflexivity|]; apply Forall_cons_iff in Hne as [Hj Hne]; cbn [spendable].
  rewrite (unspent_other q v i j Hi Hj); split; intros [Hu Hs]; (split; [exact Hu|]); pose proof (unspent_has _ _ Hu) as Hhj.
  - rewrite mark_comm in Hs by assumption; exact (proj1 (IH _ (has_mark p v j i Hhj Hi) Hne) Hs).
  - rewrite mark_comm by assumption; exact (proj2 (IH _ (has_mark p v j i Hhj Hi) Hne) Hs).
Qed.

Lemma mark_frame p q i ins v : has v i -> Forall (fun j => ~ same_out i j) ins -> spendable p ins v ->
  mark_one q (mark p ins v) i = mark p ins (mark_one q v i).
Proof.
  revert v; induction ins as [|j ins IH]; intros v Hi Hne Hs; [reflexivity|].
  apply Forall_cons_iff in Hne as [Hj Hne]; destruct Hs as [Hu Hs]; pose proof (unspent_has _ _ Hu) as Hhj.
  unfold mark in *; cbn [fold_left]; rewrite IH by auto using has_mark.
  rewrite mark_comm; [reflexivity | assumption..|]; intros [E1 E2]; apply Hj; now split.
Qed.

Lemma has_mark_all p ins v i : has v i -> spendable p ins v -> has (mark p ins v) i.
Proof.
  revert v; induction ins as [|j ins IH]; intros v Hi Hs; [exact Hi|]; destruct Hs as [Hu Hs].
  apply IH; [apply has_mark; auto using unspent_has | exact Hs].
Qed.

(** Disconnecting undoes the marks. *)
Lemma disconnect_mark p ins v : pos_IsNull p = false -> canonical_map v -> spendable p ins v ->
  disconnect_loop ins (mark p ins v) = Some v.
Proof.
  intros Hp Hc; revert v Hc; induction ins as [|i ins IH]; intros v Hc Hs; [reflexivity|]; destruct Hs as [Hu Hs].
  pose proof (unspent_has _ _ Hu) as Hi; pose proof (spendable_distinct p i ins v Hp Hu Hs) as Hd.
  assert (Hs' : spendable p ins v) by now apply (spendable_frame p p i).
  assert (Hw : has (mark p (i :: ins) v) i) by (apply (has_mark_all p ins (mark_one p v i)); auto using has_mark).
  destruct Hw as (x & Ex & Hr); cbn [disconnect_loop]; rewrite Ex; unfold in_range; rewrite (proj2 (Z.ltb_lt _ _)) by lia; cbn [negb].
  replace (<[op_hash (prevout i):=set_spent x (op_n (prevout i)) CDiskTxPos_null]> (mark p (i :: ins) v)) with (mark p ins v); [now apply IH|].
  transitivity (mark_one CDiskTxPos_null (mark p (i :: ins) v) i).
  - change (mark p (i :: ins) v) with (mark p ins (mark_one p v i)).
    rewrite mark_frame by (auto using has_mark); now rewrite mark_clear.
  - unfold mark_one at 1; apply map_eq; intros h; destruct (decide (op_hash (prevout i) = h)) as [<-|Hne].
    + now rewrite lookup_alter_eq, Ex, lookup_insert_eq.
    + now rewrite lookup_alter_ne, lookup_insert_ne.
Qed.

(** ** Connecting inputs *)

Lemma i64_sum a b : 0 <= a <= MAX_MONEY -> 0 <= b <= MAX_MONEY -> i64_add a b = a + b.
Proof. intros Ha Hb; assert (MAX_MONEY = 10 ^ 15) by reflexivity; apply i64_add_range; lia. Qed.

Lemma MoneyRange_spec v : MoneyRange v = true <-> 0 <= v <= MAX_MONEY.
Proof. unfold MoneyRange; lia. Qed.

Lemma value_out_exact acc outs v : 0 <= acc <= MAX_MONEY -> value_out_loop acc outs = Some v ->
  v = acc + sum_values outs /\ 0 <= v <= MAX_MONEY.
Proof.
  revert acc; induction outs as [|o outs IH]; intros acc Ha E; cbn [value_out_loop] in E.
  { injection E as <-; cbn; lia. }
  destruct (MoneyRange (nValue o)) eqn:E1; [|discriminate E]; apply MoneyRange_spec in E1.
  rewrite i64_sum in E by assumption; destruct (MoneyRange (acc + nValue o)) eqn:E2; [|discriminate E].
  apply MoneyRange_spec in E2; destruct (IH _ E2 E) as [-> Hv]; split; [|exact Hv].
  cbn [sum_values fold_right]; fold (sum_values outs); lia.
Qed.

Lemma obind_done {A B} (r : outcome A) (f : A -> outcome B) b : obind r f = Done b -> exists a, r = Done a /\ f a = Done b.
Proof. destruct r; cbn [obind]; [eauto | discriminate..]. Qed.

Section Connect.
Context {H : hash_lib} {L : BN_lib} {EC : ec_lib}.
Context (foreign_GetOp : list Z -> list Z -> option (Z * valtype * list Z))
  (mempool_lookup : list Z -> option CTransaction) (ReadTx : CDiskTxPos -> option CTransaction).

(** The entries of the inputs are those of the map. *)
Definition consistent (inputs : MapPrevTx) (v : tx_map) : Prop :=
  forall h x t, inputs !! h = Some (x, t) -> v !! h = Some x.

Definition input_value (inputs : MapPrevTx) (i : CTxIn) : Z :=
  match inputs !! op_hash (prevout i) with
  | Some (_, t) => nValue (nth (Z.to_nat (op_n (prevout i))) (vout t) CTxOut_null)
  | None => 0
  end.

Definition sum_inputs (inputs : MapPrevTx) (ins : list CTxIn) : Z := fold_right (fun i s => input_value inputs i + s) 0 ins.

(** An input that passes the first loop. *)
Definition input_ok (tx : CTransaction) (inputs : MapPrevTx) (chain : list CBlockIndex) (i : CTxIn) : Prop :=
  exists x t, inputs !! op_hash (prevout i) = Some (x, t)
    /\ op_n (prevout i) < Z.of_nat (length (vout t)) /\ op_n (prevout i) < Z.of_nat (length (vSpent x))
    /\ tx_nTime t <= tx_nTime tx /\ 0 <= input_value inputs i <= MAX_MONEY
    /\ (IsCoinBase t || IsCoinStake t = true -> immature (bi_nHeight (nth 0 chain CBlockIndex_null)) (pos x) chain = false).

Lemma check_inputs_spec tx inputs chain acc ins v : 0 <= acc <= MAX_MONEY ->
  check_inputs tx inputs chain acc ins = Done v ->
  v = acc + sum_inputs inputs ins /\ 0 <= v <= MAX_MONEY /\ Forall (input_ok tx inputs chain) ins.
Proof.
  revert acc; induction ins as [|i ins IH]; intros acc Ha E; cbn [check_inputs] in E.
  { injection E as <-; cbn; split; [lia|]; split; [lia | constructor]. }
  destruct (inputs !! op_hash (prevout i)) as [[x t]|] eqn:Ei; [|discriminate E].
  unfold in_range in E.
  destruct (Z.ltb_spec (op_n (prevout i)) (Z.of_nat (length (vout t)))) as [H1|]; cbn [negb orb] in E; [|discriminate E].
  destruct (Z.ltb_spec (op_n (prevout i)) (Z.of_nat (length (vSpent x)))) as [H2|]; cbn [negb orb] in E; [|discriminate E].
  destruct ((IsCoinBase t || IsCoinStake t) && _) eqn:Em; [discriminate E|].
  destruct (Z.ltb_spec (tx_nTime tx) (tx_nTime t)) as [|H3]; [discriminate E|].
  assert (Ev : nValue (nth (Z.to_nat (op_n (prevout i))) (vout t) CTxOut_null) = input_value inputs i)
    by (unfold input_value; now rewrite Ei).
  rewrite Ev in E; cbv zeta in E; destruct (MoneyRange (input_value inputs i)) eqn:E1; cbn [negb orb] in E; [|discriminate E].
  apply MoneyRange_spec in E1; rewrite i64_sum in E by assumption.
  destruct (MoneyRange (acc + input_value inputs i)) eqn:E2; cbn [negb] in E; [|discriminate E]; apply MoneyRange_spec in E2.
  destruct (IH _ E2 E) as (-> & Hv & Hf); cbn [sum_inputs fold_right] in *; fold (sum_inputs inputs ins) in *.
  split; [lia|]; split; [exact Hv|]; constructor; [|exact Hf]; exists x, t; repeat split; try assumption; try lia.
  intros Hc; rewrite Hc in Em; exact Em.
Qed.

(** The second loop marks the outputs, which were unspent. *)
Lemma spend_loop_spec tx p fMiner fSkip k ins inputs pool pool' db :
  consistent inputs (pool ∪ db) ->
  Forall (fun i => exists x t, inputs !! op_hash (prevout i) = Some (x, t)
    /\ 0 <= op_n (prevout i) < Z.of_nat (length (vSpent x))) ins ->
  spend_loop tx p true fMiner fSkip k ins inputs pool = Done pool' ->
  spendable p ins (pool ∪ db) /\ pool' ∪ db = mark p ins (pool ∪ db).
Proof.
  revert k inputs pool; induction ins as [|i ins IH]; intros k inputs pool Hc Hr E; cbn [spend_loop] in E.
  { injection E as <-; split; [exact I | reflexivity]. }
  apply Forall_cons_iff in Hr as [(x & t & Ei & Hn) Hr]; rewrite Ei in E; pose proof (Hc _ _ _ Ei) as Ev.
  destruct (pos_IsNull (spent_at x (op_n (prevout i)))) eqn:En; cbn [negb] in E; [|discriminate E].
  destruct (negb fSkip && _); [discriminate E|]; cbn [orb] in E.
  set (x' := set_spent x (op_n (prevout i)) p) in *.
  assert (Em : <[op_hash (prevout i):=x']> pool ∪ db = mark_one p (pool ∪ db) i).
  { rewrite <- insert_union_l; apply map_eq; intros h; unfold mark_one; destruct (decide (op_hash (prevout i) = h)) as [<-|Hne].
    - now rewrite lookup_insert_eq, lookup_alter_eq, Ev.
    - now rewrite lookup_insert_ne, lookup_alter_ne. }
  apply IH in E.
  - rewrite Em in E; destruct E as [E1 E2]; split; [split; [exists x; auto | exact E1] | exact E2].
  - intros h y u Ey; rewrite Em; destruct (decide (op_hash (prevout i) = h)) as [<-|Hne].
    + rewrite lookup_insert_eq in Ey; injection Ey as <- <-; rewrite (lookup_mark_same p _ i x Ev); reflexivity.
    + rewrite lookup_insert_ne in Ey by assumption; rewrite lookup_mark_other by assumption; now apply (Hc h y u).
  - eapply Forall_impl; [exact Hr|]; intros j (y & u & Ej & Hj); cbv beta.
    destruct (decide (op_hash (prevout i) = op_hash (prevout j))) as [Eh|Hne].
    + exists x', t; rewrite Eh, lookup_insert_eq; split; [reflexivity|]; unfold x'; rewrite length_set_spent by assumption.
      rewrite <- Eh, Ei in Ej; injection Ej as <- <-; exact Hj.
    + exists y, u; rewrite lookup_insert_ne by assumption; auto.
Qed.

(** What [FetchInputs] fetches for a block. *)
Lemma fetch_one_found pool db fMiner h x t :
  fetch_one mempool_lookup ReadTx db pool true fMiner h = Some (x, t) -> (pool ∪ db) !! h = Some x.
Proof.
  unfold fetch_one; cbn [orb]; rewrite lookup_union.
  destruct (pool !! h) as [y|]; [|destruct (db !! h) as [y|]; [|discriminate]]; destruct (pos_eq _ _);
    (destruct (mempool_lookup h) || idtac); try (destruct (ReadTx (pos y))); intros E; try discriminate E;
    injection E as <- <-; cbn; first [reflexivity | now destruct (db !! h)].
Qed.

Lemma fetch_loop_consistent pool db fMiner ins m m' : consistent m (pool ∪ db) ->
  fetch_loop mempool_lookup ReadTx db pool true fMiner ins m = Some m' -> consistent m' (pool ∪ db).
Proof.
  revert m; induction ins as [|i ins IH]; intros m Hc E; cbn [fetch_loop] in E; [now injection E as <-|].
  destruct (m !! op_hash (prevout i)) eqn:Em; [now apply (IH m)|].
  destruct (fetch_one _ _ _ _ _ _ _) as [[x t]|] eqn:Ef; [|discriminate E]; apply IH in E; [exact E|].
  intros h y u Ey; destruct (decide (op_hash (prevout i) = h)) as [<-|Hne].
  - rewrite lookup_insert_eq in Ey; injection Ey as <- <-; now apply fetch_one_found in Ef.
  - rewrite lookup_insert_ne in Ey by assumption; now apply (Hc h y u).
Qed.

Lemma FetchInputs_consistent pool db fMiner tx inputs :
  FetchInputs mempool_lookup ReadTx db pool true fMiner tx = inl inputs -> consistent inputs (pool ∪ db).
Proof.
  unfold FetchInputs; destruct (IsCoinBase tx); [intros E; injection E as <-; intros h x t Ex; now rewrite lookup_empty in Ex|].
  destruct (fetch_loop _ _ _ _ _ _ _ _) as [m|] eqn:Ef; [|discriminate]; destruct (forallb _ _); [|discriminate].
  intros E; injection E as <-; apply (fetch_loop_consistent pool db fMiner (vin tx) ∅ m); [|exact Ef].
  intros h x t Ex; now rewrite lookup_empty in Ex.
Qed.

Lemma check_fee_spec tx nValueIn fBlock u : 0 <= nValueIn <= MAX_MONEY -> check_fee foreign_GetOp tx nValueIn fBlock = Done u ->
  IsCoinStake tx = false -> sum_values (vout tx) + GetMinFee foreign_GetOp tx 1 GMF_BLOCK 0 <= nValueIn.
Proof.
  intros Hv E Hs; unfold check_fee in E; rewrite Hs in E; apply obind_done in E as (out & Eo & E).
  destruct (GetValueOut tx) as [o|] eqn:Ev; cbn [or_throw] in Eo; [|discriminate Eo]; injection Eo as ->.
  destruct (value_out_exact 0 (vout tx) out ltac:(unfold MAX_MONEY, COIN; lia) Ev) as [-> Ho]; rewrite Z.add_0_l in *.
  destruct (Z.ltb_spec nValueIn (sum_values (vout tx))); [discriminate E|].
  assert (HM : MAX_MONEY = 10 ^ 15) by reflexivity.
  assert (Es : i64_sub nValueIn (sum_values (vout tx)) = nValueIn - sum_values (vout tx))
    by (unfold i64_sub; apply (to_signed_wrap 64); lia).
  rewrite Es in E; destruct (Z.ltb_spec (nValueIn - sum_values (vout tx)) 0); [discriminate E|].
  destruct (Z.ltb_spec (nValueIn - sum_values (vout tx)) (GetMinFee foreign_GetOp tx 1 GMF_BLOCK 0)); [discriminate E | lia].
Qed.

(** Every input is signed, unless the signatures are skipped. *)
Definition signed (tx : CTransaction) (inputs : MapPrevTx) (k : nat) (i : CTxIn) : Prop :=
  exists x t, inputs !! op_hash (prevout i) = Some (x, t) /\ VerifySignature t tx k 0 = true.

Lemma spend_loop_signed tx p fBlock fMiner k0 ins inputs pool pool' :
  spend_loop tx p fBlock fMiner false k0 ins inputs pool = Done pool' ->
  forall k i, nth_error ins k = Some i -> signed tx inputs (k0 + k) i.
Proof.
  revert k0 inputs pool; induction ins as [|j ins IH]; intros k0 inputs pool E k i Ek; [now destruct k|]; cbn [spend_loop] in E.
  destruct (inputs !! op_hash (prevout j)) as [[x t]|] eqn:Ej; [|discriminate E].
  destruct (negb (pos_IsNull _)); [discriminate E|]; cbn [negb andb] in E.
  destruct (VerifySignature t tx k0 0) eqn:Ev; cbn [negb] in E; [|discriminate E].
  destruct k as [|k]; cbn [nth_error] in Ek; [injection Ek as <-; exists x, t; now rewrite Nat.add_0_r|].
  destruct (IH _ _ _ E k i Ek) as (y & u & Ey & Hy).
  replace (S k0 + k)%nat with (k0 + S k)%nat in Hy by lia.
  destruct (decide (op_hash (prevout j) = op_hash (prevout i))) as [Eh|Hne].
  - rewrite <- Eh, lookup_insert_eq in Ey; injection Ey as <- <-; exists x, t; rewrite <- Eh; auto.
  - rewrite lookup_insert_ne in Ey by assumption; exists y, u; auto.
Qed.

(** What a successful connection means. *)
Record connected (tx : CTransaction) (inputs : MapPrevTx) (p : CDiskTxPos) (chain : list CBlockIndex) (fSkip : bool)
    (v v' : tx_map) : Prop := {
  conn_spendable : spendable p (vin tx) v;
  conn_marks : v' = mark p (vin tx) v;
  conn_inputs : Forall (input_ok tx inputs chain) (vin tx);
  conn_value : 0 <= sum_inputs inputs (vin tx) <= MAX_MONEY;
  conn_fee : IsCoinStake tx = false ->
    sum_values (vout tx) + GetMinFee foreign_GetOp tx 1 GMF_BLOCK 0 <= sum_inputs inputs (vin tx);
  conn_signed : fSkip = false -> forall k i, nth_error (vin tx) k = Some i -> signed tx inputs k i
}.

Lemma ConnectInputs_connected pool db fMiner tx inputs pool' p chain fSkip :
  FetchInputs mempool_lookup ReadTx db pool true fMiner tx = inl inputs -> IsCoinBase tx = false ->
  Forall (fun i => 0 <= op_n (prevout i)) (vin tx) ->
  ConnectInputs foreign_GetOp tx inputs pool p chain true fMiner fSkip = Done pool' ->
  connected tx inputs p chain fSkip (pool ∪ db) (pool' ∪ db).
Proof.
  intros Hf Hcb Hn E; unfold ConnectInputs in E; rewrite Hcb in E; pose proof (FetchInputs_consistent _ _ _ _ _ Hf) as Hc.
  apply obind_done in E as (nIn & E1 & E); apply obind_done in E as (pool1 & E2 & E); apply obind_done in E as (u & E3 & E).
  injection E as ->; apply check_inputs_spec in E1; [|unfold MAX_MONEY, COIN; lia]; destruct E1 as (Es & Hv & Hok).
  rewrite Z.add_0_l in Es; subst nIn; pose proof E2 as E2'; apply (spend_loop_spec _ _ _ _ _ _ _ _ _ db Hc) in E2.
  - destruct E2 as [Hs Em]; constructor; try assumption; [now apply (check_fee_spec tx _ true u)|].
    intros -> k i Ek; now apply (spend_loop_signed _ _ _ _ 0 _ _ _ _ E2').
  - rewrite List.Forall_forall in Hok, Hn |- *; intros i Hi; destruct (Hok i Hi) as (x & t & Ei & _ & Hr & _).
    exists x, t; split; [exact Ei|]; split; [now apply Hn | exact Hr].
Qed.

End Connect.

Lemma marked_all p ins v i : pos_IsNull p = false -> spendable p ins v -> In i ins ->
  has (mark p ins v) i /\ ~ unspent (mark p ins v) i.
Proof.
  intros Hp; revert v; induction ins as [|j ins IH]; intros v Hs Hi; [destruct Hi|]; destruct Hs as [Hu Hs].
  destruct Hi as [->|Hi]; [|now apply IH]; pose proof (unspent_has _ _ Hu) as Hh.
  pose proof (spendable_distinct p i ins v Hp Hu Hs) as Hd.
  assert (G : forall w, has w i -> ~ unspent w i -> spendable p ins w -> has (mark p ins w) i /\ ~ unspent (mark p ins w) i).
  { clear - Hd; induction Hd as [|j ins Hj Hd IHd]; intros w Hw Hnu Hsp; [auto|]; destruct Hsp as [Huj Hsp].
    apply IHd; [apply has_mark; auto using unspent_has | | exact Hsp].
    rewrite unspent_other; [exact Hnu | auto using unspent_has |]; intros [E1 E2]; apply Hj; now split. }
  apply G; [now apply has_mark | now apply marked_spent | exact Hs].
Qed.

Lemma spendable_nodup p ins v : pos_IsNull p = false -> spendable p ins v -> List.NoDup (List.map prevout ins).
Proof.
  intros Hp; revert v; induction ins as [|i ins IH]; intros v Hs; [constructor|]; destruct Hs as [Hu Hs]; cbn [List.map].
  constructor; [|now apply (IH (mark_one p v i))]; intros Hin; apply in_map_iff in Hin as (j & Ej & Hj).
  pose proof (spendable_distinct p i ins v Hp Hu Hs) as Hd; rewrite List.Forall_forall in Hd.
  apply (Hd j Hj); unfold same_out; now rewrite Ej.
Qed.

Lemma spendable_unspent p ins v : pos_IsNull p = false -> spendable p ins v -> forall i, In i ins -> unspent v i.
Proof.
  intros Hp; revert v; induction ins as [|j ins IH]; intros v Hs i Hi; [destruct Hi|]; destruct Hs as [Hu Hs].
  destruct Hi as [->|Hi]; [exact Hu|]; apply IH; [|exact Hi].
  now apply (spendable_frame p p j ins v (unspent_has _ _ Hu) (spendable_distinct p j ins v Hp Hu Hs)).
Qed.

Section Sound.
Context {H : hash_lib} {L : BN_lib} {EC : ec_lib}.
Context (foreign_GetOp : list Z -> list Z -> option (Z * valtype * list Z))
  (mempool_lookup : list Z -> option CTransaction) (ReadTx : CDiskTxPos -> option CTransaction).

(** C9: What [ConnectInputs] lets through when a block is connected, on the
    inputs that [FetchInputs] found: the outputs spent are pairwise different
    and were all unspent in the database with the changes of the block so
    far; afterwards exactly these outputs are marked as spent by this
    transaction.  Every input refers to an existing output of a transaction
    that is not younger, and that is mature if it is a coinbase or
    coinstake; the sum of the inputs, computed in 64 bits, is the true sum
    and within the money range, and outside a coinstake covers the outputs
    and the required fee, so no money is made; every input is signed unless
    the block is below the last checkpoint.  No later transaction that spends
    one of these outputs again is connected. *)
Theorem connect_inputs_sound (pool db pool' : tx_map) (fMiner fSkip : bool) (tx : CTransaction) (inputs : MapPrevTx)
    (p : CDiskTxPos) (chain : list CBlockIndex) :
  IsCoinBase tx = false -> Forall (fun i => 0 <= op_n (prevout i)) (vin tx) -> pos_IsNull p = false ->
  FetchInputs mempool_lookup ReadTx db pool true fMiner tx = inl inputs ->
  ConnectInputs foreign_GetOp tx inputs pool p chain true fMiner fSkip = Done pool' ->
  List.NoDup (List.map prevout (vin tx))
  /\ (forall i, In i (vin tx) -> unspent (pool ∪ db) i /\ input_ok tx inputs chain i)
  /\ pool' ∪ db = mark p (vin tx) (pool ∪ db)
  /\ 0 <= sum_inputs inputs (vin tx) <= MAX_MONEY
  /\ (IsCoinStake tx = false -> sum_values (vout tx) + GetMinFee foreign_GetOp tx 1 GMF_BLOCK 0 <= sum_inputs inputs (vin tx))
  /\ (fSkip = false -> forall k i, nth_error (vin tx) k = Some i -> signed tx inputs k i)
  /\ (forall tx2 inputs2 p2 chain2 fSkip2 pool2 i j,
        IsCoinBase tx2 = false -> Forall (fun i => 0 <= op_n (prevout i)) (vin tx2) ->
        In i (vin tx) -> In j (vin tx2) -> prevout i = prevout j ->
        FetchInputs mempool_lookup ReadTx db pool' true fMiner tx2 = inl inputs2 ->
        ConnectInputs foreign_GetOp tx2 inputs2 pool' p2 chain2 true fMiner fSkip2 <> Done pool2).
Proof.
  intros Hcb Hn Hp Hf E; destruct (ConnectInputs_connected _ _ _ _ _ _ _ _ _ _ _ _ Hf Hcb Hn E) as [Hs Hm Hok Hv Hfee Hsig].
  rewrite List.Forall_forall in Hok; split; [now apply (spendable_nodup p (vin tx) (pool ∪ db))|].
  split; [intros i Hi; split; [now apply (spendable_unspent p (vin tx)) | now apply Hok]|].
  do 4 (split; [assumption|]).
  intros tx2 inputs2 p2 chain2 fSkip2 pool2 i j Hcb2 Hn2 Hi Hj Eij Hf2 E2.
  destruct (ConnectInputs_connected _ _ _ _ _ _ _ _ _ _ _ _ Hf2 Hcb2 Hn2 E2) as [Hs2 _ _ _ _ _].
  destruct (marked_all p (vin tx) (pool ∪ db) i Hp Hs Hi) as [Hh Hu]; rewrite <- Hm in Hh, Hu.
  pose proof (spendable_other p2 i (vin tx2) _ Hh Hu Hs2) as Hd; rewrite List.Forall_forall in Hd.
  apply (Hd j Hj); unfold same_out; now rewrite Eij.
Qed.

End Sound.

(** Two coins that anyone may spend, and a transaction that spends both. *)
Definition two_coins : CTransaction := Tx 1 1000 [] [TxOut (3 * COIN) [op_byte OP_1]; TxOut (2 * COIN) [op_byte OP_1]] 0 [] 0.
Definition coins_hash : list Z := tx_GetHash (H := toy_hash) two_coins.
Definition coins_db : tx_map := {[ coins_hash := txindex_new (DiskTxPos 1 100 200) 2 ]}.
Definition spend_both : CTransaction :=
  Tx 1 2000 [TxIn (OutPoint coins_hash 0) [] 0xFFFFFFFF; TxIn (OutPoint coins_hash 1) [] 0xFFFFFFFF] [TxOut (4 * COIN) []] 0 [] 0.

Definition coins_inputs : MapPrevTx :=
  match FetchInputs (fun _ => None) (fun _ => Some two_coins) coins_db ∅ true false spend_both with inl m => m | inr _ => ∅ end.
Definition coins_spent : outcome tx_map :=
  ConnectInputs (H := toy_hash) (L := BN_ideal) (EC := toy_ec) (fun _ _ => None) spend_both coins_inputs ∅ (DiskTxPos 1 300 400) []
    true false false.
Definition coins_pool : tx_map := match coins_spent with Done m => m | _ => ∅ end.

Lemma connect_inputs_sound_witness :
  coins_spent = Done coins_pool /\ sum_inputs coins_inputs (vin spend_both) = 5 * COIN
  /\ coins_pool ∪ coins_db = mark (DiskTxPos 1 300 400) (vin spend_both) (∅ ∪ coins_db).
Proof.
  split; [vm_compute; reflexivity|]; split; [vm_compute; reflexivity|].
  refine (proj1 (proj2 (proj2 (connect_inputs_sound (fun _ _ => None) (fun _ => None) (fun _ => Some two_coins)
    ∅ coins_db coins_pool false false spend_both coins_inputs (DiskTxPos 1 300 400) [] _ _ _ _ _)))).
  - vm_compute; reflexivity.
  - repeat constructor; vm_compute; discriminate.
  - reflexivity.
  - vm_compute; reflexivity.
  - vm_compute; reflexivity.
Defined.
