(* ===== verification/CheckBlock.v ===== *)
(** * CheckBlock: the context-free checks of a block (main.cpp)

    [CBlock::CheckBlock] and [CBlock::CheckBlockSignature], with the reasons
    for which a block is rejected and the score they give to the peer. *)

From Stdlib Require Import ZArith List Lia Bool.
From S2P Require Import Prelude SphTypes Uint256 Merkle Serialize Transaction BigNum Script Interp SigHash BlockIndex.
From S2P Require Import Difficulty Kernel Inputs.
Import ListNotations.

Open Scope Z_scope.

Definition MAX_BLOCK_SIGOPS : Z := MAX_BLOCK_SIZE / 50.
Definition FutureDrift (nTime : Z) : Z := nTime + 10 * 60.
Definition block_IsProofOfWork (b : CBlock) : bool := negb (IsProofOfStake b).

(** [vtx[i]], for an index within the vector. *)
Definition tx_at (b : CBlock) (i : nat) : CTransaction := nth i (bl_vtx b) (CTransaction_null 0 1).
Definition out_at (tx : CTransaction) (i : nat) : CTxOut := nth i (vout tx) CTxOut_null.

Inductive block_reject :=
  | BlockSize | BadWork | TooFarInFuture | FirstNotCoinbase | MoreCoinbases | CoinbaseTooEarly | CoinbaseNotEmpty
  | SecondNotCoinstake | MoreCoinstakes | CoinstakeTime | BadBlockSig | BadTransaction (r : tx_reject) | TxAfterBlock
  | DuplicateTransaction | TooManySigOps | MerkleRootMismatch.

Definition block_dos (r : block_reject) : Z :=
  match r with
  | TooFarInFuture => 0
  | BadWork | CoinbaseTooEarly | CoinstakeTime | TxAfterBlock => 50
  | BadTransaction r => reject_dos r
  | _ => 100
  end.

Section CheckBlock.
Context {H : hash_lib} {L : BN_lib} {EC : ec_lib} (Hash9 : list Z -> list Z).

(** The block signature: by the key that the coinstake pays to. *)
Definition CheckBlockSignature (b : CBlock) : bool :=
  if block_IsProofOfWork b then (length (vchBlockSig b) =? 0)%nat
  else
    let '(ok, whichType, vSolutions) := Solver (scriptPubKey (out_at (tx_at b 1) 1)) in
    if negb ok then false
    else match whichType with
    | TX_PUBKEY =>
        let vchPubKey := nth 0 vSolutions [] in
        if negb (o2i_ECPublicKey vchPubKey) then false
        else if (length (vchBlockSig b) =? 0)%nat then false
        else ECDSA_verify (uint_bytes (block_GetHash Hash9 b)) (vchBlockSig b) vchPubKey =? 1
    | _ => false
    end.

(** The loop over the transactions. *)
Fixpoint check_txs (nTime : Z) (txs : list CTransaction) : option block_reject :=
  match txs with
  | [] => None
  | tx :: txs =>
      match CheckTransaction tx with
      | Some r => Some (BadTransaction r)
      | None => if nTime <? tx_nTime tx then Some TxAfterBlock else check_txs nTime txs
      end
  end.

(** The checks of a proof-of-stake block. *)
Definition check_stake (b : CBlock) (fCheckSig : bool) : option block_reject :=
  if negb (length (vout (tx_at b 0)) =? 1)%nat || negb (txout_IsEmpty (out_at (tx_at b 0) 0)) then Some CoinbaseNotEmpty
  else if (length (bl_vtx b) =? 0)%nat || negb (IsCoinStake (tx_at b 1)) then Some SecondNotCoinstake
  else if existsb IsCoinStake (skipn 2 (bl_vtx b)) then Some MoreCoinstakes
  else if negb (CheckCoinStakeTimestamp (bl_nTime b) (tx_nTime (tx_at b 1))) then Some CoinstakeTime
  else if fCheckSig && negb (CheckBlockSignature b) then Some BadBlockSig
  else None.

(** The Merkle root of the transactions. *)
Definition Hash2 (a b : list Z) : list Z := Hash (uint_bytes a ++ uint_bytes b).
Definition tx_hashes (b : CBlock) : list (list Z) := map tx_GetHash (bl_vtx b).
Definition block_MerkleRoot (b : CBlock) : list Z := snd (BuildMerkleTree null_hash Hash2 (MBlock (tx_hashes b) [])).

(** [None] is acceptance; [now] is [GetAdjustedTime()].  The set of the
    hashes has as many elements as there are different hashes. *)
Definition CheckBlock (now : Z) (b : CBlock) (fCheckPOW fCheckMerkleRoot fCheckSig : bool) : option block_reject :=
  if (length (bl_vtx b) =? 0)%nat || (MAX_BLOCK_SIZE <? Z.of_nat (length (bl_vtx b)))
     || (MAX_BLOCK_SIZE <? ser_size (block_codec SER_NETWORK (CTransaction_null 0 1)) b) then Some BlockSize
  else if fCheckPOW && block_IsProofOfWork b && negb (CheckProofOfWork (block_GetHash Hash9 b) (nBits b)) then Some BadWork
  else if FutureDrift now <? bl_nTime b then Some TooFarInFuture
  else if (length (bl_vtx b) =? 0)%nat || negb (IsCoinBase (tx_at b 0)) then Some FirstNotCoinbase
  else if existsb IsCoinBase (skipn 1 (bl_vtx b)) then Some MoreCoinbases
  else if FutureDrift (tx_nTime (tx_at b 0)) <? bl_nTime b then Some CoinbaseTooEarly
  else match (if IsProofOfStake b then check_stake b fCheckSig else None) with
  | Some r => Some r
  | None =>
      match check_txs (bl_nTime b) (bl_vtx b) with
      | Some r => Some r
      | None =>
          if negb (length (nodup (list_eq_dec Z.eq_dec) (tx_hashes b)) =? length (bl_vtx b))%nat then Some DuplicateTransaction
          else if MAX_BLOCK_SIGOPS <? fold_left (fun n tx => u32 (n + GetLegacySigOpCount tx)) (bl_vtx b) 0 then Some TooManySigOps
          else if fCheckMerkleRoot && negb (uint_eq (hashMerkleRoot b) (block_MerkleRoot b)) then Some MerkleRootMismatch
          else None
      end
  end.

End CheckBlock.

(** ** Sizes and signature operations *)

Definition sum_over {A} (f : A -> Z) (l : list A) : Z := fold_right (fun a s => f a + s) 0 l.

Lemma sum_over_cons {A} (f : A -> Z) a l : sum_over f (a :: l) = f a + sum_over f l.
Proof. reflexivity. Qed.

Lemma sum_over_le {A} (f g : A -> Z) l : (forall a, In a l -> f a <= g a) -> sum_over f l <= sum_over g l.
Proof.
  induction l as [|a l IH]; intros Hl; [apply Z.le_refl|]; rewrite !sum_over_cons.
  pose proof (Hl a (or_introl eq_refl)); assert (sum_over f l <= sum_over g l) by (apply IH; intros; apply Hl; now right); lia.
Qed.

Lemma sum_over_const {A} c (l : list A) : sum_over (fun _ => c) l = c * Z.of_nat (length l).
Proof. induction l as [|a l IH]; [cbn; lia|]; rewrite sum_over_cons, IH; cbn [length]; lia. Qed.

Lemma sum_over_nonneg {A} (f : A -> Z) l : (forall a, In a l -> 0 <= f a) -> 0 <= sum_over f l.
Proof.
  intros Hl; pose proof (sum_over_le (fun _ => 0) f l Hl) as E; rewrite sum_over_const in E; lia.
Qed.

Lemma sum_over_scale {A} c (f : A -> Z) l : sum_over (fun a => c * f a) l = c * sum_over f l.
Proof. induction l as [|a l IH]; [cbn; lia|]; rewrite !sum_over_cons, IH; lia. Qed.

Lemma size_flat_map {A} (f : A -> list Z) (l : list A) : size_of (flat_map f l) = sum_over (fun a => size_of (f a)) l.
Proof. induction l as [|a l IH]; [reflexivity|]; cbn [flat_map]; now rewrite size_of_app, IH. Qed.

(** Wrapping sums of small numbers are exact. *)
Lemma fold_u32 {A} (f : A -> Z) l acc : (forall a, In a l -> 0 <= f a) -> 0 <= acc -> acc + sum_over f l < 2 ^ 32 ->
  fold_left (fun n a => u32 (n + f a)) l acc = acc + sum_over f l.
Proof.
  revert acc; induction l as [|a l IH]; intros acc Hl Ha Hs; cbn [fold_left]; [cbn; lia|].
  rewrite sum_over_cons in *; pose proof (Hl a (or_introl eq_refl)).
  assert (Hn : forall x, In x l -> 0 <= f x) by (intros; apply Hl; now right); pose proof (sum_over_nonneg f l Hn).
  rewrite u32_mod, Z.mod_small by lia; rewrite IH by (assumption || lia); lia.
Qed.

(** A script of [k] bytes has at most [20 * k] signature operations. *)
Lemma sigop_loop_bound fuel fAccurate lastOpcode n pc : words 8 pc -> (length pc <= fuel)%nat -> 0 <= n ->
  n + 20 * zlen pc < 2 ^ 32 -> n <= sigop_loop fuel fAccurate lastOpcode n pc <= n + 20 * zlen pc.
Proof.
  revert lastOpcode n pc; induction fuel as [|fuel IH]; intros lastOpcode n pc Hb Hf Hn Hs.
  { cbn [sigop_loop]; unfold zlen; lia. }
  destruct pc as [|b pc]; [change (zlen []) with 0 in *; cbn [sigop_loop]; lia|]; cbn [sigop_loop]; destruct (GetOp (b :: pc)) as [[[op v] rest]|] eqn:E; [|unfold zlen; lia].
  pose proof (GetOp_shorter _ _ _ _ E) as Hl; destruct (GetOp_bytes _ _ _ _ Hb E) as (Ho & _ & Hr).
  rewrite sigop_step by assumption; pose proof (sigop_weight_range fAccurate lastOpcode op) as Hw.
  set (n' := if _ =? 0 then n else _); assert (Hn' : n <= n' <= n + 20).
  { unfold n', zlen in *; cbn [length] in *; destruct (_ =? 0); [lia|]; rewrite u32_mod, Z.mod_small by lia; lia. }
  clearbody n'; unfold zlen in *; cbn [length] in *.
  specialize (IH op n' rest Hr ltac:(lia) ltac:(lia) ltac:(lia)); lia.
Qed.

Lemma GetSigOpCount_bound fAccurate script : words 8 script -> zlen script < 2 ^ 27 ->
  0 <= GetSigOpCount fAccurate script <= 20 * zlen script.
Proof. intros Hb Hs; unfold GetSigOpCount; pose proof (sigop_loop_bound (length script) fAccurate (op_byte OP_INVALIDOPCODE) 0 script Hb); lia. Qed.

(** The bytes of the scripts of a transaction, and its signature operations. *)
Definition in_weight (i : CTxIn) : Z := zlen (scriptSig i).
Definition out_weight (o : CTxOut) : Z := zlen (scriptPubKey o).
Definition script_bytes (tx : CTransaction) : Z := sum_over in_weight (vin tx) + sum_over out_weight (vout tx).
Definition legacy_sigops (tx : CTransaction) : Z :=
  sum_over (fun i => GetSigOpCount false (scriptSig i)) (vin tx) + sum_over (fun o => GetSigOpCount false (scriptPubKey o)) (vout tx).

Definition scripts_ok (tx : CTransaction) : Prop :=
  Forall (fun i => words 8 (scriptSig i)) (vin tx) /\ Forall (fun o => words 8 (scriptPubKey o)) (vout tx).

Lemma tx_valid_scripts tx : tx_valid tx -> scripts_ok tx.
Proof.
  intros (_ & _ & [Hi _] & [Ho _] & _); split.
  - eapply Forall_impl; [|exact Hi]; intros i (_ & [Hb _] & _); exact Hb.
  - eapply Forall_impl; [|exact Ho]; intros o (_ & [Hb _]); exact Hb.
Qed.

Lemma script_bytes_nonneg tx : 0 <= sum_over in_weight (vin tx) /\ 0 <= sum_over out_weight (vout tx).
Proof. split; apply sum_over_nonneg; intros; apply zlen_nonneg. Qed.

Lemma sum_over_member {A} (f : A -> Z) l a : (forall a, In a l -> 0 <= f a) -> In a l -> f a <= sum_over f l.
Proof.
  induction l as [|b l IH]; intros Hl Ha; [destruct Ha|]; rewrite sum_over_cons.
  assert (Hn : forall x, In x l -> 0 <= f x) by (intros; apply Hl; now right); pose proof (sum_over_nonneg f l Hn).
  pose proof (Hl b (or_introl eq_refl)); destruct Ha as [->|Ha]; [lia|]; specialize (IH Hn Ha); lia.
Qed.

(** Counting in scripts of less than 2^27 bytes does not wrap. *)
Lemma sum_sigops {A} (script : A -> list Z) (l : list A) : Forall (fun a => words 8 (script a)) l ->
  sum_over (fun a => zlen (script a)) l < 2 ^ 27 ->
  (forall a, In a l -> 0 <= GetSigOpCount false (script a))
  /\ 0 <= sum_over (fun a => GetSigOpCount false (script a)) l <= 20 * sum_over (fun a => zlen (script a)) l.
Proof.
  intros Hb Hs; rewrite Forall_forall in Hb.
  assert (Hc : forall a, In a l -> 0 <= GetSigOpCount false (script a) <= 20 * zlen (script a)).
  { intros a Ha; apply GetSigOpCount_bound; [now apply Hb|].
    pose proof (sum_over_member (fun a => zlen (script a)) l a (fun x _ => zlen_nonneg _) Ha); cbv beta in *; lia. }
  split; [intros a Ha; apply (Hc a Ha)|]; split; [apply sum_over_nonneg; intros a Ha; apply (Hc a Ha)|].
  rewrite <- sum_over_scale; apply sum_over_le; intros a Ha; apply (Hc a Ha).
Qed.

Lemma legacy_exact tx : scripts_ok tx -> script_bytes tx < 2 ^ 27 ->
  GetLegacySigOpCount tx = legacy_sigops tx /\ 0 <= legacy_sigops tx <= 20 * script_bytes tx.
Proof.
  intros [Hi Ho] Hs; unfold script_bytes in *; destruct (script_bytes_nonneg tx).
  destruct (sum_sigops scriptSig (vin tx) Hi) as [I1 I2]; [unfold in_weight in *; lia|].
  destruct (sum_sigops scriptPubKey (vout tx) Ho) as [O1 O2]; [unfold out_weight in *; lia|].
  unfold legacy_sigops, GetLegacySigOpCount, in_weight, out_weight in *.
  rewrite (fold_u32 (fun i => GetSigOpCount false (scriptSig i))) by (assumption || lia); rewrite Z.add_0_l.
  rewrite (fold_u32 (fun o => GetSigOpCount false (scriptPubKey o))) by (assumption || lia); lia.
Qed.

(** ** The size of a block *)

Lemma size_of_compact_pos n : 1 <= GetSizeOfCompactSize n.
Proof. unfold GetSizeOfCompactSize; destruct (n <? 253), (n <=? 0xFFFF), (n <=? 0xFFFFFFFF); lia. Qed.

Lemma sum_over_plus {A} c (f : A -> Z) l : sum_over (fun a => c + f a) l = c * Z.of_nat (length l) + sum_over f l.
Proof. induction l as [|a l IH]; [cbn; lia|]; rewrite !sum_over_cons, IH; cbn [length]; lia. Qed.

Lemma size_bytes_codec v : 1 + zlen v <= size_of (enc bytes_codec v).
Proof.
  cbn [enc bytes_codec]; rewrite size_of_app, size_compact by apply size_of_nonneg.
  pose proof (size_of_compact_pos (size_of v)); unfold zlen, size_of in *; lia.
Qed.

Lemma tx_size tx : tx_valid tx ->
  14 + 41 * Z.of_nat (length (vin tx)) + 9 * Z.of_nat (length (vout tx)) + script_bytes tx <= size_of (enc tx_codec tx).
Proof.
  intros (_ & _ & [Hi _] & _); cbn [enc tx_codec vin_codec vout_codec vector_codec sint_codec uint_codec].
  rewrite !size_of_app, !size_compact, !size_flat_map, !size_write_int by lia.
  set (tail := size_of (if _ : bool then _ else _)); assert (0 <= tail) by apply size_of_nonneg; clearbody tail.
  pose proof (size_of_compact_pos (Z.of_nat (length (vin tx)))); pose proof (size_of_compact_pos (Z.of_nat (length (vout tx)))).
  assert (Ei : sum_over (fun i => 41 + in_weight i) (vin tx) <= sum_over (fun i => size_of (enc txin_codec i)) (vin tx)).
  { apply sum_over_le; intros i Hin; rewrite Forall_forall in Hi; destruct (Hi i Hin) as ([Hh _] & _).
    cbn [enc txin_codec outpoint_codec uint_codec]; rewrite !size_of_app, (size_uint_bytes 8) by assumption.
    rewrite !size_write_int; pose proof (size_bytes_codec (scriptSig i)) as Hb; unfold in_weight; cbn [enc] in Hb; lia. }
  assert (Eo : sum_over (fun o => 9 + out_weight o) (vout tx) <= sum_over (fun o => size_of (enc txout_codec o)) (vout tx)).
  { apply sum_over_le; intros o _; cbn [enc txout_codec sint_codec]; rewrite size_of_app, size_write_int.
    pose proof (size_bytes_codec (scriptPubKey o)) as Hb; unfold out_weight; cbn [enc] in Hb; lia. }
  rewrite sum_over_plus in Ei; rewrite sum_over_plus in Eo; unfold script_bytes; lia.
Qed.

Lemma block_size b nType dflt : header_only nType = false ->
  sum_over (fun tx => size_of (enc tx_codec tx)) (bl_vtx b) <= size_of (enc (block_codec nType dflt) b).
Proof.
  intros Hh; cbn [enc block_codec vtx_codec vector_codec]; rewrite Hh, !size_of_app, size_flat_map.
  repeat match goal with |- context [size_of ?x] => lazymatch goal with | _ : 0 <= size_of x |- _ => fail | _ => pose proof (size_of_nonneg x) end end.
  lia.
Qed.

(** ** What CheckBlock decides *)

Section Laws.
Context {H : hash_lib} {HH : hash_laws H} {L : BN_lib} {EC : ec_lib} (Hash9 : list Z -> list Z).

Definition block_bytes (b : CBlock) : list Z := enc (block_codec SER_NETWORK (CTransaction_null 0 1)) b.

(** The shape of a proof-of-stake block. *)
Record stake_ok (b : CBlock) (fCheckSig : bool) : Prop := {
  stake_empty : exists o, vout (tx_at b 0) = [o] /\ txout_IsEmpty o = true;
  stake_single : Forall (fun tx => IsCoinStake tx = false) (skipn 2 (bl_vtx b));
  stake_time : tx_nTime (tx_at b 1) = bl_nTime b;
  stake_signed : fCheckSig = true -> CheckBlockSignature Hash9 b = true
}.

Record block_accepted (now : Z) (b : CBlock) (fCheckPOW fCheckMerkleRoot fCheckSig : bool) : Prop := {
  block_nonempty : bl_vtx b <> [];
  block_small : size_of (block_bytes b) <= MAX_BLOCK_SIZE;
  block_work : fCheckPOW = true -> IsProofOfStake b = false -> CheckProofOfWork (block_GetHash Hash9 b) (nBits b) = true;
  block_time : bl_nTime b <= now + 600;
  block_coinbase : IsCoinBase (tx_at b 0) = true;
  block_single : Forall (fun tx => IsCoinBase tx = false) (skipn 1 (bl_vtx b));
  block_coinbase_time : bl_nTime b <= tx_nTime (tx_at b 0) + 600;
  block_stake : IsProofOfStake b = true -> stake_ok b fCheckSig;
  block_txs : Forall (fun tx => CheckTransaction tx = None /\ tx_nTime tx <= bl_nTime b) (bl_vtx b);
  block_unique : NoDup (tx_hashes b);
  block_sigops : sum_over legacy_sigops (bl_vtx b) <= MAX_BLOCK_SIGOPS;
  block_root : fCheckMerkleRoot = true -> hashMerkleRoot b = block_MerkleRoot b
}.

Lemma check_txs_iff nTime txs :
  check_txs nTime txs = None <-> Forall (fun tx => CheckTransaction tx = None /\ tx_nTime tx <= nTime) txs.
Proof.
  induction txs as [|tx txs IH]; cbn [check_txs]; [split; [constructor | reflexivity]|].
  rewrite Forall_cons_iff, <- IH; destruct (CheckTransaction tx); [split; [discriminate | intros [[? _] _]; discriminate]|].
  destruct (Z.ltb_spec nTime (tx_nTime tx)); split; [discriminate | lia | tauto | tauto].
Qed.

Lemma existsb_Forall {A} (f : A -> bool) l : existsb f l = false <-> Forall (fun a => f a = false) l.
Proof.
  induction l as [|a l IH]; cbn [existsb]; [split; [constructor | reflexivity]|].
  rewrite Forall_cons_iff, orb_false_iff; tauto.
Qed.

Lemma unique_iff (l : list (list Z)) : (length (nodup (list_eq_dec Z.eq_dec) l) =? length l)%nat = true <-> NoDup l.
Proof.
  rewrite Nat.eqb_eq; split; intros E.
  - apply (NoDup_incl_NoDup (NoDup_nodup (list_eq_dec Z.eq_dec) l)); [lia|]; intros x; apply nodup_In.
  - now rewrite nodup_fixed_point.
Qed.

Lemma check_stake_iff b fCheckSig : IsProofOfStake b = true -> check_stake Hash9 b fCheckSig = None <-> stake_ok b fCheckSig.
Proof.
  intros Hp; unfold IsProofOfStake in Hp; apply andb_true_iff in Hp as [Hl Hc]; apply Nat.ltb_lt in Hl; change (IsCoinStake (tx_at b 1) = true) in Hc.
  unfold check_stake; rewrite !reject_if, Hc; cbn [negb]; rewrite orb_false_r, existsb_Forall.
  rewrite negb_false_iff; unfold CheckCoinStakeTimestamp; rewrite Z.eqb_eq, orb_false_iff, !negb_false_iff, Nat.eqb_eq.
  rewrite (proj2 (Nat.eqb_neq (length (bl_vtx b)) 0)) by lia; split.
  - intros ([E1 E2] & _ & E3 & E4 & E5 & _); constructor; auto; [|intros ->; now apply negb_false_iff in E5].
    unfold out_at in E2; destruct (vout (tx_at b 0)) as [|o [|]]; try discriminate E1; exists o; auto.
  - intros [(o & E1 & E2) E3 E4 E5]; unfold out_at; rewrite E1; repeat split; auto.
    destruct fCheckSig; [|reflexivity]; now rewrite E5.
Qed.

(** ** Merkle roots *)

Lemma last_all {T} (zero : T) (P : T -> Prop) l : P zero -> Forall P l -> P (last l zero).
Proof. intros Hz Hl; induction Hl as [|a [|b l] Ha Hl IH]; [exact Hz | exact Ha | exact IH]. Qed.

Lemma merkle_root_all {T} (zero : T) (h : T -> T -> T) (P : T -> Prop) fuel l : P zero -> (forall a b, P a -> P b -> P (h a b)) ->
  Forall P l -> P (merkle_root zero h fuel l).
Proof.
  intros Hz Hh; revert l; induction fuel as [|fuel IH]; intros l Hl; cbn [merkle_root].
  - now apply last_all.
  - destruct (_ <? _)%nat; [apply IH | now apply last_all].
    revert Hl; clear IH; apply (pair_ind zero h (fun l => Forall P l -> Forall P (next_level h l))); cbn [next_level]; intros;
      repeat (match goal with X : Forall P (_ :: _) |- _ => apply Forall_cons_iff in X as [? ?] end); constructor; auto.
Qed.

Lemma tx_hash_wf tx : tx_valid tx -> wf 8 (tx_GetHash tx).
Proof. intros Hv; apply Hash_wf; now apply (codec_bytes (codec_ok := tx_ok)). Qed.

Lemma Hash2_wf a b : wf 8 (Hash2 a b).
Proof. apply Hash_wf, words_app; apply uint_bytes_words. Qed.

Lemma block_root_wf b : Forall tx_valid (bl_vtx b) -> wf 8 (block_MerkleRoot b).
Proof.
  intros Hv; unfold block_MerkleRoot; rewrite (proj2 (BuildMerkleTree_spec null_hash Hash2 _)); cbn [vtx].
  apply merkle_root_all; [split; [reflexivity | words_dec] | intros; apply Hash2_wf|].
  unfold tx_hashes; apply Forall_map; eapply Forall_impl; [|exact Hv]; intros; now apply tx_hash_wf.
Qed.

Lemma block_fits b : block_valid SER_NETWORK b ->
  sum_over script_bytes (bl_vtx b) <= size_of (block_bytes b)
  /\ (Forall (fun tx => CheckTransaction tx = None) (bl_vtx b) -> 64 * Z.of_nat (length (bl_vtx b)) <= size_of (block_bytes b)).
Proof.
  intros (_ & _ & _ & _ & _ & _ & [Hv _] & _); pose proof (block_size b SER_NETWORK (CTransaction_null 0 1) eq_refl) as Hs.
  rewrite Forall_forall in Hv; split; [|intros Hc; rewrite <- sum_over_const]; (etransitivity; [|exact Hs]); apply sum_over_le; intros tx Ht;
    pose proof (tx_size tx (Hv tx Ht)) as Hz; destruct (script_bytes_nonneg tx); unfold script_bytes in *; [lia|].
  rewrite Forall_forall in Hc; specialize (Hc tx Ht); unfold CheckTransaction in Hc; rewrite !reject_if, !Nat.eqb_neq in Hc; lia.
Qed.

Lemma block_sigops_exact b : block_valid SER_NETWORK b -> size_of (block_bytes b) <= MAX_BLOCK_SIZE ->
  fold_left (fun n tx => u32 (n + GetLegacySigOpCount tx)) (bl_vtx b) 0 = sum_over legacy_sigops (bl_vtx b).
Proof.
  intros Hv Hs; destruct (block_fits b Hv) as [Hb _]; destruct Hv as (_ & _ & _ & _ & _ & _ & [Hv _] & _).
  assert (HM : MAX_BLOCK_SIZE = 250000) by reflexivity; rewrite Forall_forall in Hv.
  assert (Hn : forall tx, In tx (bl_vtx b) -> 0 <= script_bytes tx).
  { intros tx _; destruct (script_bytes_nonneg tx); unfold script_bytes; lia. }
  assert (He : forall tx, In tx (bl_vtx b) ->
    GetLegacySigOpCount tx = legacy_sigops tx /\ 0 <= legacy_sigops tx <= 20 * script_bytes tx).
  { intros tx Ht; apply legacy_exact; [apply tx_valid_scripts, Hv, Ht|].
    pose proof (sum_over_member script_bytes (bl_vtx b) tx Hn Ht); lia. }
  assert (Hle : sum_over legacy_sigops (bl_vtx b) <= 20 * sum_over script_bytes (bl_vtx b)).
  { rewrite <- sum_over_scale; apply sum_over_le; intros tx Ht; apply (He tx Ht). }
  transitivity (fold_left (fun n tx => u32 (n + legacy_sigops tx)) (bl_vtx b) 0).
  - clear -He; generalize 0; induction (bl_vtx b) as [|tx l IH]; intros z; [reflexivity|]; cbn [fold_left].
    rewrite (proj1 (He tx (or_introl eq_refl))); apply IH; intros; apply He; now right.
  - rewrite fold_u32; [apply Z.add_0_l | intros tx Ht; apply (He tx Ht) | lia..].
Qed.

Lemma reject_andb {A} (f : bool) (c : bool) (r : A) k : (if f && negb c then Some r else k) = None <-> (f = true -> c = true) /\ k = None.
Proof. rewrite reject_if; destruct f, c; cbn; intuition discriminate. Qed.

Lemma txs_fit b : block_valid SER_NETWORK b ->
  Forall (fun tx => CheckTransaction tx = None /\ tx_nTime tx <= bl_nTime b) (bl_vtx b) ->
  64 * Z.of_nat (length (bl_vtx b)) <= size_of (block_bytes b).
Proof. intros Hv Hf; apply (block_fits b Hv); eapply Forall_impl; [|exact Hf]; intros tx [E _]; exact E. Qed.

Lemma root_iff b : block_valid SER_NETWORK b ->
  uint_eq (hashMerkleRoot b) (block_MerkleRoot b) = true <-> hashMerkleRoot b = block_MerkleRoot b.
Proof.
  intros (_ & _ & Hr & _ & _ & _ & [Ht _] & _); pose proof (block_root_wf b Ht) as Hw.
  rewrite (uint_eq_spec 8), Z.eqb_eq by assumption; split; [now apply (val_inj 8) | now intros ->].
Qed.

Lemma CheckBlock_spec now b fCheckPOW fCheckMerkleRoot fCheckSig : block_valid SER_NETWORK b -> size_of (block_bytes b) < 2 ^ 32 ->
  CheckBlock Hash9 now b fCheckPOW fCheckMerkleRoot fCheckSig = None <-> block_accepted now b fCheckPOW fCheckMerkleRoot fCheckSig.
Proof.
  intros Hv Hsz; pose proof (size_of_nonneg (block_bytes b)) as Hpos.
  assert (Es : ser_size (block_codec SER_NETWORK (CTransaction_null 0 1)) b = size_of (block_bytes b)).
  { rewrite (codec_size (codec_ok := block_ok SER_NETWORK (CTransaction_null 0 1) (conj eq_refl eq_refl))) by assumption.
    apply Z.mod_small; unfold block_bytes in *; lia. }
  assert (Hst : (if IsProofOfStake b then check_stake Hash9 b fCheckSig else None) = None
    <-> (IsProofOfStake b = true -> stake_ok b fCheckSig)).
  { destruct (IsProofOfStake b) eqn:Ep; [rewrite check_stake_iff by assumption; tauto | split; [discriminate | reflexivity]]. }
  unfold CheckBlock; rewrite Es; rewrite reject_if, reject_andb; do 4 rewrite reject_if; rewrite !reject_match; do 2 rewrite reject_if; rewrite reject_andb.
  rewrite Hst, check_txs_iff, existsb_Forall, !orb_false_iff, !negb_false_iff, !Z.ltb_ge, Nat.eqb_neq, andb_true_iff.
  rewrite length_zero_iff_nil, (root_iff b Hv); replace (length (bl_vtx b)) with (length (tx_hashes b)) by apply length_map.
  rewrite unique_iff; unfold FutureDrift, block_IsProofOfWork; split.
  - intros (((A1 & _) & A2) & A3 & A4 & (_ & A5) & A6 & A7 & A8 & A9 & A10 & A11 & A12 & _).
    rewrite block_sigops_exact in A11 by assumption; constructor; auto; try lia.
    intros Hf Hp; apply A3; now rewrite Hp.
  - intros [A1 A2 A3 A4 A5 A6 A7 A8 A9 A10 A11 A12]; rewrite block_sigops_exact by assumption.
    pose proof (txs_fit b Hv A9); rewrite negb_true_iff; unfold tx_hashes; rewrite length_map; intuition lia.
Qed.

Lemma few_txs now b f1 f2 f3 : block_valid SER_NETWORK b -> block_accepted now b f1 f2 f3 -> (length (bl_vtx b) <= 3906)%nat.
Proof.
  intros Hv E; pose proof (txs_fit b Hv (block_txs _ _ _ _ _ E)); pose proof (block_small _ _ _ _ _ E).
  assert (MAX_BLOCK_SIZE = 250000) by reflexivity; lia.
Qed.

(** C12: [CheckBlock] decides exactly the context-free rules of a block: it has
    transactions and its encoding has at most [MAX_BLOCK_SIZE] bytes; its
    proof of work, its block signature and its Merkle root are right where
    they are asked for; its time is at most ten minutes ahead of the clock
    and of its coinbase, and no transaction is younger; the first transaction
    and no other is a coinbase; in a proof-of-stake block the coinbase is
    empty, and the second transaction and no other is the coinstake, with
    the block's time; all transactions are well formed and have different
    hashes; and the true number of signature operations, which the 32-bit
    counters cannot wrap around, is within the limit.  Such a block has at most 3906
    transactions. *)
Theorem check_block_iff (now : Z) (b : CBlock) (fCheckPOW fCheckMerkleRoot fCheckSig : bool) :
  block_valid SER_NETWORK b -> size_of (block_bytes b) < 2 ^ 32 ->
  (CheckBlock Hash9 now b fCheckPOW fCheckMerkleRoot fCheckSig = None <-> block_accepted now b fCheckPOW fCheckMerkleRoot fCheckSig)
  /\ (CheckBlock Hash9 now b fCheckPOW fCheckMerkleRoot fCheckSig = None -> (length (bl_vtx b) <= 3906)%nat).
Proof.
  intros Hv Hsz; pose proof (CheckBlock_spec now b fCheckPOW fCheckMerkleRoot fCheckSig Hv Hsz) as G.
  split; [exact G|]; intros E; apply G in E; now apply (few_txs now b fCheckPOW fCheckMerkleRoot fCheckSig).
Qed.

End Laws.

(** ** A block *)

Ltac valid_dec :=
  repeat match goal with
  | |- _ /\ _ => split
  | |- _ -> _ => intros ?
  | |- short_vector _ _ => split
  | |- short_bytes _ => split
  | |- outpoint_valid _ => split; cbn [op_hash op_n COutPoint_null]
  | |- wf _ _ => split
  | |- Forall _ [] => constructor
  | |- Forall _ (_ :: _) => constructor
  | |- tx_valid _ => unfold tx_valid; cbn [tx_nVersion tx_nTime vin vout nLockTime strTxComment nProdTypeID]
  | |- txin_valid _ => unfold txin_valid; cbn [prevout scriptSig nSequence]
  | |- txout_valid _ => unfold txout_valid; cbn [nValue scriptPubKey]
  | |- words _ _ => words_dec
  | |- srange _ _ => unfold srange, COIN; lia
  | |- urange _ _ => unfold urange, inw; lia
  | |- length _ = _ => reflexivity
  | |- _ <= MAX_SIZE => vm_compute; discriminate
  | |- tx_fresh _ => split; reflexivity
  end.

Definition first_coinbase : CTransaction :=
  Tx 1 1432620500 [TxIn COutPoint_null [0x51; 0x52] 0xFFFFFFFF] [TxOut (598 * COIN) [op_byte OP_1]] 0 [] 0.
Definition first_block : CBlock :=
  Block 6 null_hash (tx_GetHash (H := toy_hash) first_coinbase) 1432620600 0x1f00ffff 7 [first_coinbase] [].

Lemma first_block_valid : block_valid SER_NETWORK first_block.
Proof.
  unfold block_valid, first_block, first_coinbase.
  cbn [bl_nVersion hashPrevBlock hashMerkleRoot bl_nTime nBits nNonce bl_vtx vchBlockSig].
  valid_dec; discriminate.
Qed.

Lemma check_block_iff_witness :
  CheckBlock (H := toy_hash) (L := BN_ideal) (EC := toy_ec) (fun _ => null_hash) 1432620700 first_block true true true = None
  /\ block_accepted (H := toy_hash) (L := BN_ideal) (EC := toy_ec) (fun _ => null_hash) 1432620700 first_block true true true.
Proof.
  assert (E : CheckBlock (H := toy_hash) (L := BN_ideal) (EC := toy_ec) (fun _ => null_hash) 1432620700 first_block true true true = None)
    by (vm_compute; reflexivity).
  split; [exact E|].
  apply (check_block_iff (H := toy_hash) (L := BN_ideal) (EC := toy_ec) (fun _ => null_hash) 1432620700 first_block true true true
    first_block_valid ltac:(vm_compute; reflexivity)); exact E.
Defined.
