(* ===== verification/Connect.v ===== *)
(** * Connect: connecting and disconnecting blocks (main.cpp)

    [CBlock::ConnectBlock] and [CBlock::DisconnectBlock] on the database: the
    transaction index, the entries of the block index and the hash of the best
    block.  [ConnectBlock] collects its changes in [mapQueuedChanges] and
    writes them at the end; the view of a transaction is the union of both
    maps.  The wallets that are told of the transactions, and errors of the
    database, are not modelled. *)

From Stdlib Require Import ZArith List Lia Bool.
From stdpp Require Import gmap list.
From S2P Require Import Prelude SphTypes Uint256 Merkle Serialize Transaction BigNum Script Interp SigHash BlockIndex.
From S2P Require Import Stake Difficulty Kernel Subsidy Inputs CheckBlock.
Import ListNotations.

Open Scope Z_scope.

(** ** The database *)

(** [CDiskBlockIndex]: an entry with the hashes of its neighbours. *)
Record CDiskBlockIndex := DiskIndex { di_index : CBlockIndex; di_hashPrev : list Z; di_hashNext : list Z }.
Abbreviation index_db := (gmap (list Z) CDiskBlockIndex).

(** The record [bnBestInvalidTrust] is there once it has been written; its big
    number is a [uint256]. *)
Record CTxDB := TxDB { db_tx : tx_map; db_index : index_db; db_hashBestChain : list Z; db_bestInvalidTrust : option (list Z) }.

Definition with_tx (db : CTxDB) (t : tx_map) : CTxDB := TxDB t (db_index db) (db_hashBestChain db) (db_bestInvalidTrust db).

(** What the code reads outside the database of transactions: the clock, the
    block files, the in-memory links to the next entry, the memory pool, and
    whether the best height is below the last checkpoint, where signatures
    are not verified. *)
Class node_env := {
  fTestNet : bool;
  now : Z;
  fSkip : bool;
  Hash9 : list Z -> list Z;
  ReadTx : CDiskTxPos -> option CTransaction;
  ReadBlockHeader : Z -> Z -> option CBlock;
  ReadBlock : list Z -> CBlock;
  mempool_lookup : list Z -> option CTransaction;
  next_hash : list Z -> list Z;
  foreign_GetOp : list Z -> list Z -> option (Z * valtype * list Z)
}.

Section Connect.
Context {H : hash_lib} {L : BN_lib} {EC : ec_lib} {N : node_env}.

(** [CDiskBlockIndex(pindex)], for the entry [pindex] with its chain [pprev]. *)
Definition disk_index (pindex : CBlockIndex) (pprev : list CBlockIndex) : CDiskBlockIndex :=
  DiskIndex pindex (match pprev with p :: _ => bi_hash p | [] => null_hash end) (next_hash (bi_hash pindex)).

(** [GetBlockHash]: a new object has no cached hash. *)
Definition disk_GetBlockHash (d : CDiskBlockIndex) : list Z :=
  let i := di_index d in
  block_GetHash Hash9 (Block (bi_nVersion i) (di_hashPrev d) (bi_hashMerkleRoot i) (bi_nTime i) (bi_nBits i) (bi_nNonce i) [] []).

Definition WriteBlockIndex (db : CTxDB) (d : CDiskBlockIndex) : CTxDB :=
  TxDB (db_tx db) (<[disk_GetBlockHash d := d]> (db_index db)) (db_hashBestChain db) (db_bestInvalidTrust db).

(** [blockindexPrev.hashNext = hash; WriteBlockIndex(blockindexPrev)], when
    there is a predecessor. *)
Definition write_prev (db : CTxDB) (pprev : list CBlockIndex) (hash : list Z) : CTxDB :=
  match pprev with
  | [] => db
  | p :: pp => let d := disk_index p pp in WriteBlockIndex db (DiskIndex (di_index d) (di_hashPrev d) hash)
  end.

(** ** Coin age *)

Definition MAX_COIN_SECONDS : Z := CBigNum_int (8 * 24 * 60 * 60).
Definition bn_min (a b : Z) : Z := if bn_lt b a then b else a.

Fixpoint coin_age_loop (txdb : tx_map) (nTime bnCentSecond : Z) (ins : list CTxIn) : outcome Z :=
  match ins with
  | [] => Done bnCentSecond
  | txin :: ins =>
      match tx_ReadFromDisk (fun h => txdb !! h) ReadTx (prevout txin) with
      | None => coin_age_loop txdb nTime bnCentSecond ins
      | Some (txPrev, txindex) =>
          if nTime <? tx_nTime txPrev then Fails 0
          else match ReadBlockHeader (nFile (pos txindex)) (nBlockPos (pos txindex)) with
          | None => Fails 0
          | Some block =>
              if nTime <? bl_nTime block + nStakeMinAge then coin_age_loop txdb nTime bnCentSecond ins
              else
                let nValueIn := nValue (nth (Z.to_nat (op_n (prevout txin))) (vout txPrev) CTxOut_null) in
                let bnSeconds := bn_min (CBigNum_int (u32 (nTime - tx_nTime txPrev))) MAX_COIN_SECONDS in
                let! cents := or_throw (BN_div (BN_mul (CBigNum_int nValueIn) bnSeconds) (CBigNum_int CENT)) in
                coin_age_loop txdb nTime (BN_add bnCentSecond cents) ins
          end
      end
  end.

Definition GetCoinAge (txdb : tx_map) (tx : CTransaction) : outcome Z :=
  if IsCoinBase tx then Done 0
  else
    let! bnCentSecond := coin_age_loop txdb (tx_nTime tx) (CBigNum_int 0) (vin tx) in
    let! bnCoinDay := or_throw (BN_div (BN_mul bnCentSecond (CBigNum_int CENT)) (CBigNum_int (24 * 60 * 60))) in
    Done (getuint64 bnCoinDay).

(** ** ConnectBlock *)

(** The local variables of the loop over the transactions. *)
Record connecting := Connecting {
  c_queued : tx_map;
  c_nFees : Z;
  c_nValueIn : Z;
  c_nValueOut : Z;
  c_nStakeReward : Z;
  c_nSigOps : Z;
  c_nTxPos : Z
}.

(** An older transaction of this hash with an output that is not spent. *)
Definition overwrites (txdb : tx_map) (hashTx : list Z) : bool :=
  match txdb !! hashTx with
  | Some txindexOld => existsb pos_IsNull (vSpent txindexOld)
  | None => false
  end.

(** One transaction of the block at [pindex] with the chain [pprev]. *)
Definition connect_tx (txdb : tx_map) (pindex : CBlockIndex) (pprev : list CBlockIndex) (fJustCheck : bool)
    (c : connecting) (tx : CTransaction) : outcome connecting :=
  let hashTx := tx_GetHash tx in
  if overwrites txdb hashTx then Fails 0
  else
    let nSigOps := u32 (c_nSigOps c + GetLegacySigOpCount tx) in
    if MAX_BLOCK_SIGOPS <? nSigOps then Fails 100
    else
      let posThisTx := DiskTxPos (bi_nFile pindex) (bi_nBlockPos pindex) (c_nTxPos c) in
      let nTxPos := if fJustCheck then c_nTxPos c else u32 (c_nTxPos c + ser_size tx_codec tx) in
      let newindex := txindex_new posThisTx (length (vout tx)) in
      if IsCoinBase tx then
        let! nTxValueOut := or_throw (GetValueOut tx) in
        Done (Connecting (<[hashTx := newindex]> (c_queued c)) (c_nFees c) (c_nValueIn c)
                (i64_add (c_nValueOut c) nTxValueOut) (c_nStakeReward c) nSigOps nTxPos)
      else
        match FetchInputs mempool_lookup ReadTx txdb (c_queued c) true false tx with
        | inr _ => Fails 0
        | inl mapInputs =>
            let! p2sh := or_throw (GetP2SHSigOpCount tx mapInputs) in
            let nSigOps := u32 (nSigOps + p2sh) in
            if MAX_BLOCK_SIGOPS <? nSigOps then Fails 100
            else
              let! nTxValueIn := or_throw (GetValueIn tx mapInputs) in
              let! nTxValueOut := or_throw (GetValueOut tx) in
              let nFees := if IsCoinStake tx then c_nFees c else i64_add (c_nFees c) (i64_sub nTxValueIn nTxValueOut) in
              let nStakeReward := if IsCoinStake tx then i64_sub nTxValueOut nTxValueIn else c_nStakeReward c in
              match ConnectInputs foreign_GetOp tx mapInputs (c_queued c) posThisTx (pindex :: pprev) true false fSkip with
              | Throws => Throws
              | Fails _ => Fails 0
              | Done queued =>
                  Done (Connecting (<[hashTx := newindex]> queued) nFees (i64_add (c_nValueIn c) nTxValueIn)
                          (i64_add (c_nValueOut c) nTxValueOut) nStakeReward nSigOps nTxPos)
              end
        end.

Fixpoint connect_txs (txdb : tx_map) (pindex : CBlockIndex) (pprev : list CBlockIndex) (fJustCheck : bool)
    (txs : list CTransaction) (c : connecting) : outcome connecting :=
  match txs with
  | [] => Done c
  | tx :: txs =>
      let! c := connect_tx txdb pindex pprev fJustCheck c tx in
      connect_txs txdb pindex pprev fJustCheck txs c
  end.

(** The position of the first transaction: after the header and the number of
    transactions. *)
Definition CBlock_null : CBlock := Block 6 null_hash null_hash 0 0 0 [] [].
Definition first_pos (b : CBlock) (pindex : CBlockIndex) (fJustCheck : bool) : Z :=
  if fJustCheck then 1
  else u32 (bi_nBlockPos pindex + ser_size (block_codec SER_DISK (CTransaction_null 0 1)) CBlock_null
            - 2 * GetSizeOfCompactSize 0 + GetSizeOfCompactSize (Z.of_nat (length (bl_vtx b)))).

(** The tests of the reward, with the cache of addresses that they may fill;
    a proof-of-stake block has a predecessor. *)
Definition check_reward (txdb : tx_map) (b : CBlock) (pindex : CBlockIndex) (pprev : list CBlockIndex)
    (nFees nStakeReward : Z) (m : turbo_map) : outcome unit * turbo_map :=
  if block_IsProofOfWork b then
    (let! nReward := or_throw (GetProofOfWorkReward (bi_nHeight pindex) nFees) in
     let! nValueOut := or_throw (GetValueOut (tx_at b 0)) in
     if nReward <? nValueOut then Fails 50 else Done tt, m)
  else
    match GetCoinAge txdb (tx_at b 1), pprev with
    | Throws, _ | Done _, [] => (Throws, m)
    | Fails _, _ => (Fails 0, m)
    | Done nCoinAge, _ :: _ =>
        let dAddr := match ExtractDestination (scriptPubKey (out_at (tx_at b 1) 1)) with Some d => d | None => CNoDestination end in
        let (nCalculatedStakeReward, m) :=
          GetProofOfStakeReward fTestNet ReadBlock (to_signed 64 nCoinAge) (address_of fTestNet dAddr) (tx_nTime (tx_at b 1)) pprev m in
        (if nCalculatedStakeReward <? nStakeReward then Fails 100 else Done tt, m)
    end.

(** The money supply before the block. *)
Definition supply_before (pprev : list CBlockIndex) : Z := match pprev with p :: _ => bi_nMoneySupply p | [] => 0 end.

(** The database and the entry afterwards, or the failure; and the cache. *)
Definition ConnectBlock (db : CTxDB) (b : CBlock) (pindex : CBlockIndex) (pprev : list CBlockIndex) (fJustCheck : bool)
    (m : turbo_map) : outcome (CTxDB * CBlockIndex) * turbo_map :=
  match CheckBlock Hash9 now b (negb fJustCheck) (negb fJustCheck) false with
  | Some r => (Fails (block_dos r), m)
  | None =>
      match connect_txs (db_tx db) pindex pprev fJustCheck (bl_vtx b) (Connecting ∅ 0 0 0 0 0 (first_pos b pindex fJustCheck)) with
      | Throws => (Throws, m)
      | Fails nDoS => (Fails nDoS, m)
      | Done c =>
          let (r, m) := check_reward (db_tx db) b pindex pprev (c_nFees c) (c_nStakeReward c) m in
          (let! _ := r in
           let pindex := set_money pindex (i64_add (i64_sub (c_nValueOut c) (c_nValueIn c)) (c_nFees c))
                           (i64_sub (i64_add (supply_before pprev) (c_nValueOut c)) (c_nValueIn c)) in
           let db := WriteBlockIndex db (disk_index pindex pprev) in
           if fJustCheck then Done (db, pindex)
           else Done (write_prev (with_tx db (c_queued c ∪ db_tx db)) pprev (bi_hash pindex), pindex), m)
      end
  end.

(** ** DisconnectBlock *)

Fixpoint disconnect_txs (txs : list CTransaction) (txdb : tx_map) : option tx_map :=
  match txs with
  | [] => Some txdb
  | tx :: txs =>
      match DisconnectInputs tx txdb with
      | None => None
      | Some txdb => disconnect_txs txs txdb
      end
  end.

(** The transactions are undone from the last one. *)
Definition DisconnectBlock (db : CTxDB) (b : CBlock) (pprev : list CBlockIndex) : option CTxDB :=
  match disconnect_txs (rev (bl_vtx b)) (db_tx db) with
  | None => None
  | Some t => Some (write_prev (with_tx db t) pprev null_hash)
  end.

End Connect.

(** ** The effect of a transaction *)

(** An entry without an unspent output, or none. *)
Definition dead (v : tx_map) (h : list Z) : Prop :=
  forall x, v !! h = Some x -> existsb pos_IsNull (vSpent x) = false.

Definition erase (hs : list (list Z)) (v : tx_map) : tx_map := fold_right (fun h v => delete h v) v hs.

Lemma dead_spent v i : dead v (op_hash (prevout i)) -> ~ unspent v i.
Proof.
  intros Hd (x & Ex & Hr & Hn); specialize (Hd x Ex).
  enough (existsb pos_IsNull (vSpent x) = true) by congruence.
  apply existsb_exists; exists (spent_at x (op_n (prevout i))); split; [apply nth_In; lia | exact Hn].
Qed.

Lemma Forall_set {A} (P : A -> Prop) l n a : Forall P l -> P a -> Forall P (upd l n a).
Proof.
  intros Hl Ha; unfold upd, memcpy; rewrite !Forall_app; repeat split; auto using Forall_take, Forall_drop.
Qed.

Lemma dead_set x n p : pos_IsNull p = false -> existsb pos_IsNull (vSpent x) = false ->
  existsb pos_IsNull (vSpent (set_spent x n p)) = false.
Proof. rewrite !existsb_Forall; intros Hp Hx; cbn [set_spent vSpent]; now apply Forall_set. Qed.

Lemma dead_mark p ins v h : pos_IsNull p = false -> dead v h -> dead (mark p ins v) h.
Proof.
  intros Hp; revert v; induction ins as [|i ins IH]; intros v Hd; [exact Hd|]; apply IH; intros x Ex; unfold mark_one in Ex.
  destruct (decide (op_hash (prevout i) = h)) as [<-|Hne]; [|rewrite lookup_alter_ne in Ex by assumption; now apply Hd].
  rewrite lookup_alter_eq in Ex; destruct (v !! op_hash (prevout i)) as [y|] eqn:Ey; [|discriminate Ex].
  injection Ex as <-; apply dead_set; [exact Hp | now apply Hd].
Qed.

Lemma lookup_erase_in hs v h : In h hs -> erase hs v !! h = None.
Proof.
  induction hs as [|k hs IH]; intros Hin; [destruct Hin|]; destruct Hin as [->|Hi]; cbn [erase fold_right]; [apply lookup_delete_eq|]; fold (erase hs v).
  destruct (decide (k = h)) as [->|Hne]; [apply lookup_delete_eq | rewrite lookup_delete_ne by assumption; now apply IH].
Qed.

Lemma lookup_erase hs v h : ~ In h hs -> erase hs v !! h = v !! h.
Proof.
  induction hs as [|k hs IH]; intros Hn; [reflexivity|]; cbn [erase fold_right]; fold (erase hs v).
  rewrite lookup_delete_ne by (intros ->; apply Hn; now left); apply IH; intros Hi; apply Hn; now right.
Qed.

Lemma erase_ext hs v w : (forall h, In h hs -> w !! h = None) -> (forall h, ~ In h hs -> w !! h = v !! h) -> w = erase hs v.
Proof.
  intros H1 H2; apply map_eq; intros h; destruct (in_dec (List.list_eq_dec Z.eq_dec) h hs) as [Hi|Hn].
  - now rewrite lookup_erase_in, H1.
  - now rewrite lookup_erase, H2.
Qed.

Lemma erase_fresh hs v : Forall (fun h => v !! h = None) hs -> erase hs v = v.
Proof.
  intros Hf; symmetry; apply erase_ext; [|reflexivity]; rewrite List.Forall_forall in Hf; exact Hf.
Qed.

Lemma erase_insert hs h x v : ~ In h hs -> erase hs (<[h := x]> v) = <[h := x]> (erase hs v).
Proof.
  intros Hn; symmetry; apply erase_ext; intros k Hk.
  - rewrite lookup_insert_ne by (intros ->; contradiction); now apply lookup_erase_in.
  - destruct (decide (h = k)) as [<-|Hne]; [now rewrite !lookup_insert_eq | rewrite !lookup_insert_ne by assumption; now apply lookup_erase].
Qed.

(** Changes of entries that the inputs do not refer to commute with
    disconnecting. *)
Lemma disconnect_frame (f : tx_map -> tx_map) ins v :
  (forall i w, In i ins -> f w !! op_hash (prevout i) = w !! op_hash (prevout i)) ->
  (forall i w x, In i ins -> f (<[op_hash (prevout i) := x]> w) = <[op_hash (prevout i) := x]> (f w)) ->
  disconnect_loop ins (f v) = option_map f (disconnect_loop ins v).
Proof.
  revert v; induction ins as [|i ins IH]; intros v Hl Hi; [reflexivity|]; cbn [disconnect_loop].
  rewrite Hl by (now left); destruct (v !! op_hash (prevout i)) as [x|]; [|reflexivity].
  destruct (in_range (op_n (prevout i)) (vSpent x)); cbn [negb]; [|reflexivity]; rewrite <- Hi by (now left).
  apply IH; [intros j w Hj; apply Hl; now right | intros j w y Hj; apply Hi; now right].
Qed.

Section Effect.
Context {H : hash_lib}.

Definition tx_effect (p : CDiskTxPos) (tx : CTransaction) (v : tx_map) : tx_map :=
  <[tx_GetHash tx := txindex_new p (length (vout tx))]> (if IsCoinBase tx then v else mark p (vin tx) v).

(** The outputs that a transaction spends. *)
Definition spends (tx : CTransaction) : list CTxIn := if IsCoinBase tx then [] else vin tx.

Lemma tx_effect_mark p tx v : tx_effect p tx v = <[tx_GetHash tx := txindex_new p (length (vout tx))]> (mark p (spends tx) v).
Proof. unfold tx_effect, spends; destruct (IsCoinBase tx); reflexivity. Qed.

Lemma canonical_mark p ins v : pos_IsNull p = false -> canonical_map v -> canonical_map (mark p ins v).
Proof.
  intros Hp; revert v; induction ins as [|i ins IH]; intros v Hc; [exact Hc|]; apply IH; intros h x Ex; unfold mark_one in Ex.
  destruct (decide (op_hash (prevout i) = h)) as [<-|Hne]; [|rewrite lookup_alter_ne in Ex by assumption; now apply (Hc h)].
  rewrite lookup_alter_eq in Ex; destruct (v !! op_hash (prevout i)) as [y|] eqn:Ey; [|discriminate Ex].
  injection Ex as <-; cbn [set_spent vSpent]; apply Forall_set; [exact (Hc _ _ Ey) | intros E; congruence].
Qed.

Lemma canonical_effect p tx v : pos_IsNull p = false -> canonical_map v -> canonical_map (tx_effect p tx v).
Proof.
  intros Hp Hc h x Ex; rewrite tx_effect_mark in Ex; destruct (decide (tx_GetHash tx = h)) as [<-|Hne].
  - rewrite lookup_insert_eq in Ex; injection Ex as <-; cbn [txindex_new vSpent]; apply List.Forall_forall; intros q Hq _.
    now apply repeat_spec in Hq.
  - rewrite lookup_insert_ne in Ex by assumption; now apply (canonical_mark p (spends tx) v Hp Hc h).
Qed.

Lemma dead_effect p tx v h : pos_IsNull p = false -> tx_GetHash tx <> h -> dead v h -> dead (tx_effect p tx v) h.
Proof.
  intros Hp Hne Hd x Ex; rewrite tx_effect_mark, lookup_insert_ne in Ex by assumption.
  now apply (dead_mark p (spends tx) v h Hp Hd).
Qed.

(** Disconnecting a transaction right after it was connected, with some other
    entries erased. *)
Lemma disconnect_effect p tx v hs : pos_IsNull p = false -> canonical_map v -> spendable p (spends tx) v ->
  dead v (tx_GetHash tx) -> Forall (dead v) hs -> ~ In (tx_GetHash tx) hs ->
  DisconnectInputs tx (erase hs (tx_effect p tx v)) = Some (erase (tx_GetHash tx :: hs) v).
Proof.
  intros Hp Hc Hs Hd Hds Hn; rewrite tx_effect_mark, erase_insert by assumption.
  set (h := tx_GetHash tx) in *; set (x := txindex_new _ _).
  assert (Hu : forall i, In i (spends tx) -> h <> op_hash (prevout i) /\ ~ In (op_hash (prevout i)) hs).
  { intros i Hi; pose proof (spendable_unspent p (spends tx) v Hp Hs i Hi) as Hui; rewrite List.Forall_forall in Hds; split.
    - intros E; apply (dead_spent v i); [now rewrite <- E | exact Hui].
    - intros Hin; apply (dead_spent v i); [now apply Hds | exact Hui]. }
  assert (E : disconnect_loop (spends tx) (<[h := x]> (erase hs (mark p (spends tx) v))) = Some (<[h := x]> (erase hs v))).
  { rewrite (disconnect_frame (fun w => <[h := x]> (erase hs w))), (disconnect_mark p (spends tx) v Hp Hc Hs); [reflexivity | |].
    - intros i w Hi; destruct (Hu i Hi) as [H1 H2]; now rewrite lookup_insert_ne, lookup_erase by assumption.
    - intros i w y Hi; destruct (Hu i Hi) as [H1 H2]; rewrite erase_insert by assumption; apply insert_insert_ne; congruence. }
  unfold DisconnectInputs; fold h; replace (if IsCoinBase tx then _ else _) with (disconnect_loop (spends tx) (<[h := x]> (erase hs (mark p (spends tx) v))))
    by (unfold spends; now destruct (IsCoinBase tx)).
  rewrite E; f_equal; cbn [erase fold_right]; fold (erase hs v); apply delete_insert_eq.
Qed.

(** ** The effect of a block *)

Definition hashes (txs : list CTransaction) : list (list Z) := List.map tx_GetHash txs.

(** The view of the database while the transactions are connected. *)
Inductive block_run : list CTransaction -> tx_map -> tx_map -> Prop :=
| run_nil v : block_run [] v v
| run_cons p tx txs v v' : pos_IsNull p = false -> spendable p (spends tx) v -> block_run txs (tx_effect p tx v) v' ->
    block_run (tx :: txs) v v'.

Lemma disconnect_txs_app a b v : disconnect_txs (a ++ b) v = match disconnect_txs a v with Some w => disconnect_txs b w | None => None end.
Proof. revert v; induction a as [|tx a IH]; intros v; [reflexivity|]; cbn [app disconnect_txs]; destruct (DisconnectInputs tx v); auto. Qed.

Lemma dead_rest p tx txs v : pos_IsNull p = false -> List.NoDup (hashes (tx :: txs)) -> Forall (dead v) (hashes (tx :: txs)) ->
  List.NoDup (hashes txs) /\ Forall (dead (tx_effect p tx v)) (hashes txs).
Proof.
  intros Hp Hn Hd; cbn [hashes List.map] in *; apply NoDup_cons_iff in Hn as [Hh Hn]; apply Forall_cons_iff in Hd as [_ Hd].
  split; [exact Hn|]; rewrite List.Forall_forall in Hd |- *; intros h Hi; apply dead_effect; [exact Hp | intros E; apply Hh; now rewrite E | now apply Hd].
Qed.

(** Disconnecting the transactions of a block in reverse order undoes their
    effect, and erases their entries. *)
Lemma disconnect_run txs v v' : block_run txs v v' -> canonical_map v -> List.NoDup (hashes txs) -> Forall (dead v) (hashes txs) ->
  disconnect_txs (rev txs) v' = Some (erase (hashes txs) v).
Proof.
  induction 1 as [v|p tx txs v v' Hp Hs Hr IH]; intros Hc Hn Hd; [reflexivity|].
  destruct (dead_rest p tx txs v Hp Hn Hd) as [Hn' Hd']; cbn [rev]; rewrite disconnect_txs_app.
  rewrite (IH (canonical_effect p tx v Hp Hc) Hn' Hd'); cbn [disconnect_txs].
  apply NoDup_cons_iff in Hn as [Hh _]; apply Forall_cons_iff in Hd as [Hd1 Hd2].
  now rewrite (disconnect_effect p tx v (hashes txs) Hp Hc Hs Hd1 Hd2 Hh).
Qed.

Lemma unspent_mark_other p ins v j : spendable p ins v -> Forall (fun i => ~ same_out j i) ins ->
  unspent (mark p ins v) j <-> unspent v j.
Proof.
  revert v; induction ins as [|i ins IH]; intros v Hs Hj; [reflexivity|]; destruct Hs as [Hu Hs].
  apply Forall_cons_iff in Hj as [Hi Hj]; change (mark p (i :: ins) v) with (mark p ins (mark_one p v i)).
  rewrite (IH _ Hs Hj); apply unspent_other; [now apply unspent_has|]; intros [E1 E2]; apply Hi; now split.
Qed.

Lemma has_insert h x v j : op_hash (prevout j) <> h -> has (<[h := x]> v) j <-> has v j.
Proof. intros Hne; unfold has; now setoid_rewrite (lookup_insert_ne v h (op_hash (prevout j)) x (not_eq_sym Hne)). Qed.

Lemma unspent_insert h x v j : op_hash (prevout j) <> h -> unspent (<[h := x]> v) j <-> unspent v j.
Proof. intros Hne; unfold unspent; now setoid_rewrite (lookup_insert_ne v h (op_hash (prevout j)) x (not_eq_sym Hne)). Qed.

(** An output that is spent is not spent again in the block. *)
Lemma run_not_respent txs v v' j : block_run txs v v' -> has v j -> ~ unspent v j -> ~ In (op_hash (prevout j)) (hashes txs) ->
  Forall (fun i => ~ same_out j i) (flat_map spends txs).
Proof.
  induction 1 as [v|p tx txs v v' Hp Hs Hr IH]; intros Hh Hu Hn; cbn [flat_map]; [constructor|]; rewrite Forall_app.
  pose proof (spendable_other p j (spends tx) v Hh Hu Hs) as Hd; split; [exact Hd|].
  cbn [hashes List.map] in Hn; assert (Hne : op_hash (prevout j) <> tx_GetHash tx) by (intros E; apply Hn; left; congruence).
  apply IH; [| |intros Hi; apply Hn; now right]; rewrite tx_effect_mark.
  - rewrite has_insert by assumption; now apply has_mark_all.
  - rewrite unspent_insert by assumption; now rewrite unspent_mark_other.
Qed.

(** The outputs that a block spends are pairwise different. *)
Lemma run_nodup txs v v' : block_run txs v v' -> List.NoDup (hashes txs) -> Forall (dead v) (hashes txs) ->
  List.NoDup (List.map prevout (flat_map spends txs)).
Proof.
  induction 1 as [v|p tx txs v v' Hp Hs Hr IH]; intros Hn Hd; cbn [flat_map]; [constructor|]; rewrite map_app.
  destruct (dead_rest p tx txs v Hp Hn Hd) as [Hn' Hd']; apply List.NoDup_app; [now apply (spendable_nodup p _ v) | now apply IH|].
  intros o Ho Ho'; apply in_map_iff in Ho as (i & <- & Hi); apply in_map_iff in Ho' as (j & Ej & Hj).
  pose proof (spendable_unspent p (spends tx) v Hp Hs i Hi) as Hu; destruct (marked_all p (spends tx) v i Hp Hs Hi) as [Hm Hnu].
  assert (Hni : ~ In (op_hash (prevout i)) (hashes (tx :: txs))).
  { rewrite List.Forall_forall in Hd; intros Hin; now apply (dead_spent v i (Hd _ Hin)). }
  cbn [hashes List.map] in Hni; assert (Hne : op_hash (prevout i) <> tx_GetHash tx) by (intros E; apply Hni; left; congruence).
  assert (Hf : Forall (fun j => ~ same_out i j) (flat_map spends txs)).
  { apply (run_not_respent txs _ v' i Hr); [| |intros Hin; apply Hni; now right]; rewrite tx_effect_mark.
    - now rewrite has_insert.
    - now rewrite unspent_insert. }
  rewrite List.Forall_forall in Hf; apply (Hf j Hj); unfold same_out; now rewrite Ej.
Qed.

End Effect.

(** ** Transactions that connect *)

Section Steps.
Context {H : hash_lib} {L : BN_lib} {EC : ec_lib} {N : node_env}.

(** The position of the next transaction. *)
Definition tx_pos (pindex : CBlockIndex) (c : connecting) : CDiskTxPos := DiskTxPos (bi_nFile pindex) (bi_nBlockPos pindex) (c_nTxPos c).

Definition unsigned_inputs (tx : CTransaction) : Prop := Forall (fun i => 0 <= op_n (prevout i)) (vin tx).

Lemma tx_valid_unsigned tx : tx_valid tx -> unsigned_inputs tx.
Proof. intros (_ & _ & [Hi _] & _); eapply Forall_impl; [exact Hi|]; intros i ((_ & Hn) & _); unfold urange, inw in Hn; lia. Qed.

(** What one step computes. *)
Record step_ok (db : tx_map) (pindex : CBlockIndex) (pprev : list CBlockIndex) (fJustCheck : bool) (c : connecting) (tx : CTransaction)
    (inputs : MapPrevTx) (c' : connecting) : Prop := {
  step_new : overwrites db (tx_GetHash tx) = false;
  step_view : c_queued c' ∪ db = tx_effect (tx_pos pindex c) tx (c_queued c ∪ db);
  step_pos : c_nTxPos c' = if fJustCheck then c_nTxPos c else u32 (c_nTxPos c + ser_size tx_codec tx);
  step_fetched : IsCoinBase tx = false -> FetchInputs mempool_lookup ReadTx db (c_queued c) true false tx = inl inputs;
  step_connected : IsCoinBase tx = false ->
    connected foreign_GetOp tx inputs (tx_pos pindex c) (pindex :: pprev) fSkip (c_queued c ∪ db) (mark (tx_pos pindex c) (vin tx) (c_queued c ∪ db));
  step_out : GetValueOut tx = Some (sum_values (vout tx)) /\ 0 <= sum_values (vout tx) <= MAX_MONEY;
  step_value_out : c_nValueOut c' = i64_add (c_nValueOut c) (sum_values (vout tx));
  step_value_in : if IsCoinBase tx then c_nValueIn c' = c_nValueIn c
    else exists nIn, GetValueIn tx inputs = Some nIn /\ c_nValueIn c' = i64_add (c_nValueIn c) nIn
      /\ c_nFees c' = (if IsCoinStake tx then c_nFees c else i64_add (c_nFees c) (i64_sub nIn (sum_values (vout tx))))
      /\ c_nStakeReward c' = (if IsCoinStake tx then i64_sub (sum_values (vout tx)) nIn else c_nStakeReward c);
  step_coinbase : IsCoinBase tx = true -> c_nFees c' = c_nFees c /\ c_nStakeReward c' = c_nStakeReward c
}.

Lemma GetValueOut_exact tx v : GetValueOut tx = Some v -> v = sum_values (vout tx) /\ 0 <= v <= MAX_MONEY.
Proof. intros E; apply (value_out_exact 0 (vout tx) v); [unfold MAX_MONEY, COIN; lia | exact E]. Qed.

Lemma or_throw_done {A} (o : option A) a : or_throw o = Done a -> o = Some a.
Proof. destruct o; cbn; [intros E; now injection E as -> | discriminate]. Qed.

Lemma connect_tx_step db pindex pprev fJustCheck c tx c' : unsigned_inputs tx ->
  connect_tx db pindex pprev fJustCheck c tx = Done c' ->
  exists inputs, step_ok db pindex pprev fJustCheck c tx inputs c'.
Proof.
  intros Hn E; unfold connect_tx in E; destruct (overwrites db (tx_GetHash tx)) eqn:Eo; [discriminate E|]; cbv zeta in E.
  destruct (MAX_BLOCK_SIGOPS <? u32 (c_nSigOps c + GetLegacySigOpCount tx)); [discriminate E|].
  destruct (IsCoinBase tx) eqn:Ecb.
  - apply obind_done in E as (nOut & E1 & E); apply or_throw_done in E1; destruct (GetValueOut_exact tx nOut E1) as [-> Ho].
    injection E as <-; exists ∅; constructor; cbn [c_queued c_nTxPos c_nValueOut c_nValueIn c_nFees c_nStakeReward]; rewrite ?Ecb; auto; try discriminate.
    unfold tx_effect; rewrite Ecb; symmetry; apply insert_union_l.
  - destruct (FetchInputs _ _ _ _ _ _ _) as [inputs|] eqn:Ef; [|discriminate E].
    apply obind_done in E as (n1 & _ & E); destruct (MAX_BLOCK_SIGOPS <? u32 (u32 (c_nSigOps c + GetLegacySigOpCount tx) + n1)); [discriminate E|].
    apply obind_done in E as (nIn & E2 & E); apply obind_done in E as (nOut & E3 & E); apply or_throw_done in E2, E3.
    destruct (GetValueOut_exact tx nOut E3) as [-> Ho]; destruct (ConnectInputs _ _ _ _ _ _ _ _ _) as [queued|n|] eqn:Ec; [|discriminate E..].
    injection E as <-; pose proof (ConnectInputs_connected _ _ _ _ _ _ _ _ _ _ _ _ Ef Ecb Hn Ec) as Hc.
    pose proof (conn_marks _ _ _ _ _ _ _ _ Hc) as Hm; rewrite Hm in Hc.
    exists inputs; constructor; cbn [c_queued c_nTxPos c_nValueOut c_nValueIn c_nFees c_nStakeReward]; rewrite ?Ecb; eauto; try discriminate.
    + unfold tx_effect; rewrite Ecb, <- insert_union_l; f_equal; exact Hm.
Qed.

Lemma overwrites_dead db h : overwrites db h = false -> dead db h.
Proof. unfold overwrites, dead; intros E x Ex; now rewrite Ex in E. Qed.

Lemma tx_pos_set pindex c : bi_nFile pindex <> 0xFFFFFFFF -> pos_IsNull (tx_pos pindex c) = false.
Proof. intros Hf; unfold pos_IsNull, tx_pos; cbn [nFile]; now apply Z.eqb_neq. Qed.

Lemma step_spendable db pindex pprev fJustCheck c tx inputs c' : step_ok db pindex pprev fJustCheck c tx inputs c' ->
  spendable (tx_pos pindex c) (spends tx) (c_queued c ∪ db).
Proof.
  intros Hs; unfold spends; destruct (IsCoinBase tx) eqn:E; [exact I|].
  apply (conn_spendable _ _ _ _ _ _ _ _ (step_connected _ _ _ _ _ _ _ _ Hs E)).
Qed.

Lemma connect_txs_run db pindex pprev fJustCheck txs c c' : bi_nFile pindex <> 0xFFFFFFFF -> Forall unsigned_inputs txs ->
  connect_txs db pindex pprev fJustCheck txs c = Done c' ->
  block_run txs (c_queued c ∪ db) (c_queued c' ∪ db) /\ Forall (dead db) (hashes txs).
Proof.
  intros Hf; revert c; induction txs as [|tx txs IH]; intros c Hn E; cbn [connect_txs] in E.
  { injection E as <-; split; [apply run_nil | constructor]. }
  apply Forall_cons_iff in Hn as [Htx Hn]; apply obind_done in E as (c1 & E1 & E).
  destruct (connect_tx_step _ _ _ _ _ _ _ Htx E1) as (inputs & Hs); destruct (IH c1 Hn E) as [Hr Hd]; split.
  - apply (run_cons (tx_pos pindex c)); [now apply tx_pos_set | eapply step_spendable; exact Hs|].
    now rewrite <- (step_view _ _ _ _ _ _ _ _ Hs).
  - constructor; [apply overwrites_dead, (step_new _ _ _ _ _ _ _ _ Hs) | exact Hd].
Qed.

(** What a connected block went through. *)
Record block_connected (db : CTxDB) (b : CBlock) (pindex : CBlockIndex) (pprev : list CBlockIndex) (fJustCheck : bool) (m m' : turbo_map)
    (db' : CTxDB) (pindex' : CBlockIndex) (c : connecting) : Prop := {
  bc_check : CheckBlock Hash9 now b (negb fJustCheck) (negb fJustCheck) false = None;
  bc_txs : connect_txs (db_tx db) pindex pprev fJustCheck (bl_vtx b) (Connecting ∅ 0 0 0 0 0 (first_pos b pindex fJustCheck)) = Done c;
  bc_reward : check_reward (db_tx db) b pindex pprev (c_nFees c) (c_nStakeReward c) m = (Done tt, m');
  bc_index : pindex' = set_money pindex (i64_add (i64_sub (c_nValueOut c) (c_nValueIn c)) (c_nFees c))
                         (i64_sub (i64_add (supply_before pprev) (c_nValueOut c)) (c_nValueIn c));
  bc_db : db' = let db1 := WriteBlockIndex db (disk_index pindex' pprev) in
                if fJustCheck then db1 else write_prev (with_tx db1 (c_queued c ∪ db_tx db)) pprev (bi_hash pindex')
}.

Lemma ConnectBlock_connected db b pindex pprev fJustCheck m db' pindex' m' :
  ConnectBlock db b pindex pprev fJustCheck m = (Done (db', pindex'), m') ->
  exists c, block_connected db b pindex pprev fJustCheck m m' db' pindex' c.
Proof.
  unfold ConnectBlock; destruct (CheckBlock _ _ _ _ _ _) eqn:Ek; [discriminate|].
  destruct (connect_txs _ _ _ _ _ _) as [c|n|] eqn:Ec; [|discriminate..].
  destruct (check_reward _ _ _ _ _ _ _) as [r m1] eqn:Er; intros E; injection E as E <-; apply obind_done in E as ([] & -> & E).
  exists c; destruct fJustCheck; injection E as <- <-; constructor; auto.
Qed.

Lemma db_tx_write_prev db pprev hash : db_tx (write_prev db pprev hash) = db_tx db.
Proof. now destruct pprev. Qed.

Lemma connected_view db b pindex pprev m m' db' pindex' c :
  block_connected db b pindex pprev false m m' db' pindex' c -> db_tx db' = c_queued c ∪ db_tx db.
Proof. intros Hb; rewrite (bc_db _ _ _ _ _ _ _ _ _ _ Hb); cbv zeta; now rewrite db_tx_write_prev. Qed.

Lemma connected_run db b pindex pprev m m' db' pindex' c : Forall tx_valid (bl_vtx b) -> bi_nFile pindex <> 0xFFFFFFFF ->
  block_connected db b pindex pprev false m m' db' pindex' c ->
  block_run (bl_vtx b) (db_tx db) (db_tx db') /\ Forall (dead (db_tx db)) (hashes (bl_vtx b)).
Proof.
  intros Hv Hf Hb; rewrite (connected_view _ _ _ _ _ _ _ _ _ Hb).
  destruct (connect_txs_run _ _ _ _ _ _ _ Hf (Forall_impl _ _ _ Hv tx_valid_unsigned) (bc_txs _ _ _ _ _ _ _ _ _ _ Hb)) as [Hr Hd].
  cbn [c_queued] in Hr; rewrite map_empty_union in Hr; auto.
Qed.

(** The entry of a predecessor points to [hash]. *)
Definition linked (db : CTxDB) (pprev : list CBlockIndex) (hash : list Z) : Prop :=
  match pprev with
  | [] => True
  | p :: pp => exists k, db_index db !! k = Some (DiskIndex p (di_hashPrev (disk_index p pp)) hash)
  end.

Lemma write_prev_linked db pprev hash : linked (write_prev db pprev hash) pprev hash.
Proof. destruct pprev as [|p pp]; [exact I|]; eexists; cbn [write_prev WriteBlockIndex db_index]; apply lookup_insert_eq. Qed.

Lemma canonical_run txs v v' : block_run txs v v' -> canonical_map v -> canonical_map v'.
Proof. induction 1; auto using canonical_effect. Qed.

Lemma accepted_block b f1 f2 : block_valid SER_NETWORK b -> size_of (block_bytes b) < 2 ^ 32 -> hash_laws H ->
  CheckBlock Hash9 now b f1 f2 false = None -> block_accepted Hash9 now b f1 f2 false.
Proof. intros Hv Hs HH E; now apply (CheckBlock_spec (HH := HH)). Qed.

End Steps.

Section RoundTrip.
Context {H : hash_lib} {HH : hash_laws H} {L : BN_lib} {EC : ec_lib} {N : node_env}.

(** C3: Disconnecting a block undoes connecting it.  When [ConnectBlock]
    succeeds, the outputs its transactions spend are pairwise different
    throughout the block, and only entries that were absent or completely
    spent are overwritten.  [DisconnectBlock] then succeeds on the database
    left behind, and restores the transaction index, except that an entry
    of the hash of one of its transactions is gone; so if these were new it restores
    the index exactly.  The predecessor's entry on disk points to
    the block when connected, and to nothing when disconnected; unspent
    outputs keep their default form. *)
Theorem disconnect_undoes_connect (db db' : CTxDB) (b : CBlock) (pindex pindex' : CBlockIndex) (pprev : list CBlockIndex)
    (m m' : turbo_map) :
  block_valid SER_NETWORK b -> size_of (block_bytes b) < 2 ^ 32 -> bi_nFile pindex <> 0xFFFFFFFF -> canonical_map (db_tx db) ->
  ConnectBlock db b pindex pprev false m = (Done (db', pindex'), m') ->
  List.NoDup (List.map prevout (flat_map spends (bl_vtx b)))
  /\ Forall (dead (db_tx db)) (hashes (bl_vtx b))
  /\ canonical_map (db_tx db') /\ linked db' pprev (bi_hash pindex')
  /\ exists db'', DisconnectBlock db' b pprev = Some db''
       /\ db_tx db'' = erase (hashes (bl_vtx b)) (db_tx db)
       /\ linked db'' pprev null_hash
       /\ (Forall (fun h => db_tx db !! h = None) (hashes (bl_vtx b)) -> db_tx db'' = db_tx db).
Proof.
  intros Hv Hsz Hf Hc E; destruct (ConnectBlock_connected _ _ _ _ _ _ _ _ _ E) as (c & Hb).
  pose proof (block_unique _ _ _ _ _ _ (accepted_block _ _ _ Hv Hsz HH (bc_check _ _ _ _ _ _ _ _ _ _ Hb))) as Hn.
  pose proof Hv as (_ & _ & _ & _ & _ & _ & [Htx _] & _).
  destruct (connected_run _ _ _ _ _ _ _ _ _ Htx Hf Hb) as [Hr Hd]; change (tx_hashes b) with (hashes (bl_vtx b)) in Hn.
  split; [now apply (run_nodup _ _ _ Hr)|]; split; [exact Hd|]; split; [now apply (canonical_run _ _ _ Hr)|]; split.
  { rewrite (bc_db _ _ _ _ _ _ _ _ _ _ Hb); apply write_prev_linked. }
  unfold DisconnectBlock; rewrite (disconnect_run _ _ _ Hr Hc Hn Hd); eexists; split; [reflexivity|].
  rewrite db_tx_write_prev; cbn [with_tx db_tx]; split; [reflexivity|]; split; [apply write_prev_linked | apply erase_fresh].
Qed.

End RoundTrip.

(** ** Blocks *)

(** A block of height 2 with the coinbase and the transactions given, in the
    file after the block with the two coins of Inputs. *)
Definition work_coinbase : CTransaction :=
  Tx 1 1432620500 [TxIn COutPoint_null [0x51; 0x52] 0xFFFFFFFF] [TxOut (591 * COIN) [op_byte OP_1]] 0 [] 0.
Definition work_block (txs : list CTransaction) : CBlock :=
  let vtx := work_coinbase :: txs in
  Block 6 null_hash (block_MerkleRoot (H := toy_hash) (Block 6 null_hash null_hash 0 0 0 vtx [])) 1432620600 0x1f00ffff 7 vtx [].
Definition work_index : CBlockIndex :=
  BlockIndex [2] 1 300 null_hash 2 0 0 0 0 0 COutPoint_null 0 null_hash 6 null_hash 1432620600 0x1f00ffff 7.

Definition read_from (b : CBlock) (p : CDiskTxPos) : option CTransaction :=
  (fix find n txs :=
     match txs with
     | [] => Some two_coins
     | tx :: txs => if nTxPos p =? n then Some tx else find (u32 (n + ser_size tx_codec tx)) txs
     end) 381 (bl_vtx b).

Definition sample_env (b : CBlock) : node_env := {|
  fTestNet := false;
  now := 1432620700;
  fSkip := false;
  Hash9 _ := null_hash;
  ReadTx := read_from b;
  ReadBlockHeader _ _ := None;
  ReadBlock _ := b;
  mempool_lookup _ := None;
  next_hash _ := null_hash;
  foreign_GetOp _ _ := None
|}.

Definition sample_db : CTxDB := TxDB coins_db ∅ null_hash None.
Definition connect_sample (txs : list CTransaction) : outcome (CTxDB * CBlockIndex) * turbo_map :=
  ConnectBlock (H := toy_hash) (L := BN_ideal) (EC := toy_ec) (N := sample_env (work_block txs)) sample_db (work_block txs) work_index [] false [].
Definition sample_after (txs : list CTransaction) : CTxDB * CBlockIndex :=
  match fst (connect_sample txs) with Done r => r | _ => (sample_db, work_index) end.

Lemma sample_valid : block_valid SER_NETWORK (work_block [spend_both]).
Proof.
  unfold block_valid, work_block; cbn [bl_nVersion hashPrevBlock hashMerkleRoot bl_nTime nBits nNonce bl_vtx vchBlockSig].
  unfold work_coinbase, spend_both; valid_dec; discriminate.
Qed.

Lemma sample_connects : connect_sample [spend_both] = (Done (sample_after [spend_both]), []).
Proof. vm_compute; reflexivity. Qed.

Lemma sample_canonical : canonical_map coins_db.
Proof. intros h x Ex; unfold coins_db in Ex; apply lookup_singleton_Some in Ex as [_ <-]; repeat constructor; reflexivity. Qed.

(** Two outputs are marked and two entries added, and all of this is undone. *)
Lemma disconnect_undoes_connect_witness :
  exists db'', DisconnectBlock (H := toy_hash) (N := sample_env (work_block [spend_both])) (fst (sample_after [spend_both]))
      (work_block [spend_both]) [] = Some db'' /\ db_tx db'' = coins_db.
Proof.
  destruct (disconnect_undoes_connect (H := toy_hash) (L := BN_ideal) (EC := toy_ec) (N := sample_env (work_block [spend_both]))
    sample_db (fst (sample_after [spend_both])) (work_block [spend_both]) work_index (snd (sample_after [spend_both])) [] [] [])
    as (_ & _ & _ & _ & db'' & E & _ & _ & G).
  - exact sample_valid.
  - vm_compute; reflexivity.
  - vm_compute; discriminate.
  - exact sample_canonical.
  - rewrite <- surjective_pairing; exact sample_connects.
  - exists db''; split; [exact E|]; apply G; repeat constructor; vm_compute; reflexivity.
Defined.
