(* ===== verification/Supply.v ===== *)
(** * Supply: the money supply (main.cpp)

    The value of the unspent outputs in the transaction index, how connecting
    a block changes it, and the field [nMoneySupply] that [ConnectBlock]
    keeps. *)

From Stdlib Require Import ZArith List Lia Bool.
From stdpp Require Import gmap list.
From S2P Require Import Prelude SphTypes Uint256 Serialize Transaction BigNum Script Interp SigHash BlockIndex.
From S2P Require Import Stake Kernel Subsidy Inputs CheckBlock Connect.
Import ListNotations.

Open Scope Z_scope.

(** ** The value of unspent outputs *)

Definition worth (q : CDiskTxPos) (o : CTxOut) : Z := if pos_IsNull q then nValue o else 0.

Fixpoint worth_all (qs : list CDiskTxPos) (os : list CTxOut) : Z :=
  match qs, os with
  | q :: qs, o :: os => worth q o + worth_all qs os
  | _, _ => 0
  end.

Lemma worth_upd qs os n p : (n < length qs)%nat -> (n < length os)%nat -> pos_IsNull p = false ->
  pos_IsNull (nth n qs CDiskTxPos_null) = true ->
  worth_all (upd qs n p) os = worth_all qs os - nValue (nth n os CTxOut_null).
Proof.
  revert qs os; induction n as [|n IH]; intros [|q qs] [|o os] Hq Ho Hp Hn; cbn [length] in *; try lia.
  - cbn [nth] in *; unfold upd, memcpy; cbn [firstn skipn app worth_all Nat.add]; unfold worth; rewrite Hp, Hn; change (drop 0 qs) with qs; lia.
  - change (upd (q :: qs) (S n) p) with (q :: upd qs n p); cbn [worth_all nth] in *; rewrite IH by (assumption || lia); lia.
Qed.

Lemma worth_dead qs os : existsb pos_IsNull qs = false -> worth_all qs os = 0.
Proof.
  revert os; induction qs as [|q qs IH]; intros [|o os] Hd; try reflexivity; cbn [existsb worth_all] in *.
  apply orb_false_iff in Hd as [Hq Hd]; unfold worth; rewrite Hq, IH by assumption; reflexivity.
Qed.

Lemma worth_new os : worth_all (repeat CDiskTxPos_null (length os)) os = sum_values os.
Proof. induction os as [|o os IH]; [reflexivity|]; cbn [length repeat worth_all sum_values fold_right]; rewrite IH; reflexivity. Qed.

Section Supply.
Context {H : hash_lib} {L : BN_lib} {EC : ec_lib} {N : node_env}.

Definition unspent_value (x : CTxIndex) : Z :=
  match ReadTx (pos x) with Some t => worth_all (vSpent x) (vout t) | None => 0 end.

Definition total (v : tx_map) : Z := map_fold (fun _ x s => unspent_value x + s) 0 v.

Lemma total_fresh v h x : v !! h = None -> total (<[h := x]> v) = unspent_value x + total v.
Proof. intros E; unfold total; rewrite map_fold_insert_L; [reflexivity | intros; lia | exact E]. Qed.

Lemma total_take v h x : v !! h = Some x -> total v = unspent_value x + total (delete h v).
Proof.
  intros E; rewrite <- (insert_delete_id v h x E) at 1; apply total_fresh; apply lookup_delete_eq.
Qed.

(** Replacing an entry. *)
Lemma total_replace v h x y : v !! h = Some x -> total (<[h := y]> v) = total v - unspent_value x + unspent_value y.
Proof.
  intros E; rewrite (total_take v h x E), <- insert_delete_eq, total_fresh by apply lookup_delete_eq; lia.
Qed.

(** The output of an input, as the block files have it. *)
Definition out_value (v : tx_map) (i : CTxIn) : Z :=
  match v !! op_hash (prevout i) with
  | Some x => match ReadTx (pos x) with Some t => nValue (nth (Z.to_nat (op_n (prevout i))) (vout t) CTxOut_null) | None => 0 end
  | None => 0
  end.

Definition readable (v : tx_map) (i : CTxIn) : Prop :=
  exists x t, v !! op_hash (prevout i) = Some x /\ ReadTx (pos x) = Some t /\ op_n (prevout i) < Z.of_nat (length (vout t)).

Lemma pos_mark p v i h : option_map pos (mark_one p v i !! h) = option_map pos (v !! h).
Proof.
  unfold mark_one; destruct (decide (op_hash (prevout i) = h)) as [<-|Hne].
  - rewrite lookup_alter_eq; destruct (v !! op_hash (prevout i)); reflexivity.
  - now rewrite lookup_alter_ne.
Qed.

Lemma out_value_mark p v i j : out_value (mark_one p v i) j = out_value v j.
Proof.
  unfold out_value; pose proof (pos_mark p v i (op_hash (prevout j))) as E.
  destruct (mark_one p v i !! _) as [x|], (v !! _) as [y|]; cbn [option_map] in E; try discriminate E; [|reflexivity].
  injection E as E; now rewrite E.
Qed.

Lemma readable_mark p v i j : readable v j -> readable (mark_one p v i) j.
Proof.
  intros (x & t & Ex & Et & Hn); pose proof (pos_mark p v i (op_hash (prevout j))) as E; rewrite Ex in E.
  destruct (mark_one p v i !! _) as [y|] eqn:Ey; cbn [option_map] in E; [|discriminate E]; injection E as E.
  exists y, t; rewrite E; auto.
Qed.

Lemma total_mark_one p v i : pos_IsNull p = false -> unspent v i -> readable v i ->
  total (mark_one p v i) = total v - out_value v i.
Proof.
  intros Hp (x & Ex & Hr & Hn) (x' & t & Ex' & Et & Ho); rewrite Ex in Ex'; injection Ex' as <-.
  unfold mark_one; rewrite (alter_alt_Some _ _ _ _ Ex).
  rewrite (total_replace v _ x) by exact Ex; unfold out_value; rewrite Ex, Et.
  unfold unspent_value; cbn [set_spent pos vSpent]; rewrite Et, worth_upd by (assumption || lia); lia.
Qed.

Lemma total_mark p ins v : pos_IsNull p = false -> spendable p ins v -> Forall (readable v) ins ->
  total (mark p ins v) = total v - sum_over (out_value v) ins.
Proof.
  intros Hp; revert v; induction ins as [|i ins IH]; intros v Hs Hr; [cbn; lia|]; destruct Hs as [Hu Hs].
  apply Forall_cons_iff in Hr as [Hi Hr]; change (mark p (i :: ins) v) with (mark p ins (mark_one p v i)); rewrite sum_over_cons.
  rewrite IH, total_mark_one; try assumption; [|eapply Forall_impl; [exact Hr | intros; now apply readable_mark]].
  enough (E : sum_over (out_value (mark_one p v i)) ins = sum_over (out_value v) ins) by lia.
  clear -ins; induction ins as [|j ins IH]; [reflexivity|]; now rewrite !sum_over_cons, IH, out_value_mark.
Qed.

(** A transaction takes the outputs it spends, and adds its own. *)
Lemma total_effect p tx v : pos_IsNull p = false -> spendable p (spends tx) v -> Forall (readable v) (spends tx) ->
  dead v (tx_GetHash tx) -> ReadTx p = Some tx ->
  total (tx_effect p tx v) = total v - sum_over (out_value v) (spends tx) + sum_values (vout tx).
Proof.
  intros Hp Hs Hr Hd Ht; rewrite tx_effect_mark, <- (total_mark p (spends tx) v Hp Hs Hr).
  assert (Ev : unspent_value (txindex_new p (length (vout tx))) = sum_values (vout tx))
    by (unfold unspent_value; cbn [txindex_new pos vSpent]; rewrite Ht; apply worth_new).
  destruct (mark p (spends tx) v !! tx_GetHash tx) as [y|] eqn:Ey; [|rewrite total_fresh by assumption; lia].
  rewrite (total_replace _ _ y) by exact Ey; pose proof (dead_mark p (spends tx) v _ Hp Hd y Ey) as Hy.
  assert (E0 : unspent_value y = 0) by (unfold unspent_value; destruct (ReadTx (pos y)); [now apply worth_dead | reflexivity]).
  lia.
Qed.

(** ** Reading the inputs *)

(** No entry has the position that stands for the memory pool. *)
Definition on_disk (v : tx_map) : Prop := forall h x, v !! h = Some x -> pos_eq (pos x) (DiskTxPos 1 1 1) = false.

Lemma on_disk_effect p tx v : pos_eq p (DiskTxPos 1 1 1) = false -> on_disk v -> on_disk (tx_effect p tx v).
Proof.
  intros Hp Hv h x Ex; rewrite tx_effect_mark in Ex; destruct (decide (tx_GetHash tx = h)) as [<-|Hne].
  { rewrite lookup_insert_eq in Ex; now injection Ex as <-. }
  rewrite lookup_insert_ne in Ex by assumption; revert v Hv Ex; induction (spends tx) as [|i ins IH]; intros v Hv Ex; [now apply (Hv h)|].
  apply (IH (mark_one p v i)); [|exact Ex]; intros k y Ey; pose proof (pos_mark p v i k) as Ep; rewrite Ey in Ep.
  destruct (v !! k) as [z|] eqn:Ez; cbn [option_map] in Ep; [|discriminate Ep]; injection Ep as ->; now apply (Hv k).
Qed.

Lemma fetch_read db pool tx inputs h x t : on_disk (pool ∪ db) -> IsCoinBase tx = false ->
  FetchInputs mempool_lookup ReadTx db pool true false tx = inl inputs -> inputs !! h = Some (x, t) -> ReadTx (pos x) = Some t.
Proof.
  intros Hd Hcb Ef; unfold FetchInputs in Ef; rewrite Hcb in Ef.
  destruct (fetch_loop _ _ _ _ _ _ _ _) as [m|] eqn:El; [|discriminate Ef]; destruct (forallb _ _); [|discriminate Ef]; injection Ef as <-.
  enough (G : forall ins m0, (forall h x t, m0 !! h = Some (x, t) -> ReadTx (pos x) = Some t) ->
    fetch_loop mempool_lookup ReadTx db pool true false ins m0 = Some m -> forall h x t, m !! h = Some (x, t) -> ReadTx (pos x) = Some t).
  { intros Eh; refine (G (vin tx) ∅ _ El h x t Eh); intros k y u Ek; now rewrite lookup_empty in Ek. }
  clear -Hd; induction ins as [|i ins IH]; intros m0 H0 E; cbn [fetch_loop] in E; [now injection E as <-|].
  destruct (m0 !! op_hash (prevout i)); [exact (IH m0 H0 E)|].
  destruct (fetch_one _ _ _ _ _ _ _) as [[y u]|] eqn:E1; [|discriminate E]; refine (IH _ _ E).
  intros k z w Ek; destruct (decide (op_hash (prevout i) = k)) as [<-|Hne];
    [|rewrite lookup_insert_ne in Ek by assumption; now apply (H0 k)].
  rewrite lookup_insert_eq in Ek; injection Ek as <- <-; pose proof (fetch_one_found _ _ _ _ _ _ _ _ E1) as Ev.
  specialize (Hd _ _ Ev); unfold fetch_one in E1; cbn [orb] in E1; rewrite lookup_union in Ev.
  destruct (pool !! op_hash (prevout i)) as [a|], (db !! op_hash (prevout i)) as [a'|]; cbn in Ev; try discriminate Ev; injection Ev as ->;
    rewrite Hd in E1; (destruct (ReadTx (pos y)); [injection E1 as ->; reflexivity | discriminate E1]).
Qed.

Lemma input_value_out inputs v i : consistent inputs v ->
  (forall h x t, inputs !! h = Some (x, t) -> ReadTx (pos x) = Some t) ->
  (exists x t, inputs !! op_hash (prevout i) = Some (x, t)) -> input_value inputs i = out_value v i.
Proof.
  intros Hc Hr (x & t & Ei); unfold input_value, out_value; now rewrite Ei, (Hc _ _ _ Ei), (Hr _ _ _ Ei).
Qed.

Lemma value_in_exact tx chain inputs ins acc : Forall (input_ok tx inputs chain) ins -> 0 <= acc -> acc + sum_inputs inputs ins <= MAX_MONEY ->
  value_in_loop inputs acc ins = Some (acc + sum_inputs inputs ins).
Proof.
  revert acc; induction ins as [|i ins IH]; intros acc Hok Ha Hs; cbn [value_in_loop sum_inputs fold_right] in *; [now rewrite Z.add_0_r|].
  fold (sum_inputs inputs ins) in *; apply Forall_cons_iff in Hok as [(x & t & Ei & Hn & _ & _ & Hv & _) Hok].
  assert (Hp : 0 <= sum_inputs inputs ins).
  { clear -Hok; induction Hok as [|j l (y & u & _ & _ & _ & _ & Hj & _) Hl IHl]; cbn [sum_inputs fold_right]; [lia|]; fold (sum_inputs inputs l); lia. }
  unfold GetOutputFor, in_range; rewrite Ei, (proj2 (Z.ltb_lt _ _) Hn).
  replace (nValue (nth (Z.to_nat (op_n (prevout i))) (vout t) CTxOut_null)) with (input_value inputs i)
    by (unfold input_value; now rewrite Ei).
  rewrite i64_sum by lia; rewrite IH by (assumption || lia); f_equal; lia.
Qed.

(** ** The sums of a block *)

Record sums (k : Z) (c : connecting) : Prop := {
  sums_fees : 0 <= c_nFees c <= k * MAX_MONEY;
  sums_in : 0 <= c_nValueIn c <= k * MAX_MONEY;
  sums_out : 0 <= c_nValueOut c <= k * MAX_MONEY
}.

(** What the block has made so far: the coinbase and the coinstake's reward. *)
Definition minted (c : connecting) : Z := c_nValueOut c - c_nValueIn c + c_nFees c.
Definition ordinary (tx : CTransaction) : Prop := IsCoinBase tx = false /\ IsCoinStake tx = false.

Lemma GetMinFee_range tx : 0 <= GetMinFee foreign_GetOp tx 1 GMF_BLOCK 0 <= MAX_MONEY.
Proof.
  unfold GetMinFee; cbn [Z.eqb Pos.eqb negb andb]; cbv zeta; set (f := if 2 <=? tx_nVersion tx then _ else _); clearbody f.
  destruct (MoneyRange f) eqn:E; cbn [negb]; [now apply MoneyRange_spec | unfold MAX_MONEY, COIN; lia].
Qed.

Lemma exact_add a b k : 0 <= k <= 3906 -> 0 <= a <= k * MAX_MONEY -> 0 <= b <= MAX_MONEY ->
  i64_add a b = a + b /\ 0 <= a + b <= (k + 1) * MAX_MONEY.
Proof.
  intros Hk Ha Hb; assert (HM : MAX_MONEY = 10 ^ 15) by reflexivity; split; [apply i64_add_range; nia | lia].
Qed.

Lemma exact_sub a b : 0 <= a <= MAX_MONEY -> 0 <= b <= MAX_MONEY -> i64_sub a b = a - b.
Proof. intros Ha Hb; assert (HM : MAX_MONEY = 10 ^ 15) by reflexivity; unfold i64_sub; apply (to_signed_wrap 64); lia. Qed.

(** The inputs of a step, by the view. *)
Lemma step_inputs db pindex pprev fJustCheck c tx inputs c' : step_ok db pindex pprev fJustCheck c tx inputs c' ->
  on_disk (c_queued c ∪ db) ->
  let nIn := sum_over (out_value (c_queued c ∪ db)) (spends tx) in
  Forall (readable (c_queued c ∪ db)) (spends tx) /\ 0 <= nIn <= MAX_MONEY
  /\ (IsCoinBase tx = false -> GetValueIn tx inputs = Some nIn)
  /\ (ordinary tx -> sum_values (vout tx) <= nIn).
Proof.
  intros Hs Hd nIn; unfold nIn, spends; destruct (IsCoinBase tx) eqn:Ecb.
  { unfold ordinary; rewrite Ecb; split; [constructor|]; split; [unfold MAX_MONEY, COIN; cbn; lia|]; split; [discriminate | intros [E _]; discriminate E]. }
  pose proof (step_fetched _ _ _ _ _ _ _ _ Hs Ecb) as Ef; pose proof (step_connected _ _ _ _ _ _ _ _ Hs Ecb) as [_ _ Hok Hv Hfee _].
  pose proof (FetchInputs_consistent _ _ _ _ _ _ _ Ef) as Hc.
  assert (Hr : forall h x t, inputs !! h = Some (x, t) -> ReadTx (pos x) = Some t) by (intros; eapply fetch_read; eassumption).
  assert (Es : sum_inputs inputs (vin tx) = sum_over (out_value (c_queued c ∪ db)) (vin tx)).
  { unfold sum_inputs, sum_over; clear -Hok Hc Hr; induction Hok as [|i l (x & t & Ei & _) Hl IH]; [reflexivity|]; cbn [fold_right].
    rewrite IH, (input_value_out inputs (c_queued c ∪ db) i Hc Hr) by eauto; reflexivity. }
  rewrite <- Es; split; [|split; [exact Hv | split]].
  - eapply Forall_impl; [exact Hok|]; intros i (x & t & Ei & Hn & _); exists x, t; split; [now apply (Hc _ _ t)|]; split; [now apply (Hr _ _ _ Ei) | exact Hn].
  - intros _; unfold GetValueIn; rewrite Ecb; apply (value_in_exact tx (pindex :: pprev) inputs (vin tx) 0 Hok); lia.
  - intros [_ Ecs]; specialize (Hfee Ecs); pose proof (GetMinFee_range tx); lia.
Qed.

Lemma step_sums db pindex pprev fJustCheck c tx inputs c' k : step_ok db pindex pprev fJustCheck c tx inputs c' ->
  on_disk (c_queued c ∪ db) -> 0 <= k <= 3906 -> sums k c ->
  let nIn := sum_over (out_value (c_queued c ∪ db)) (spends tx) in
  sums (k + 1) c' /\ c_nValueIn c' = c_nValueIn c + nIn /\ c_nValueOut c' = c_nValueOut c + sum_values (vout tx)
  /\ minted c' = minted c + (if IsCoinBase tx then sum_values (vout tx) else if IsCoinStake tx then sum_values (vout tx) - nIn else 0)
  /\ c_nStakeReward c' = (if IsCoinStake tx then sum_values (vout tx) - nIn else c_nStakeReward c).
Proof.
  intros Hs Hd Hk [Sf Si So] nIn; destruct (step_inputs _ _ _ _ _ _ _ _ Hs Hd) as (_ & Hin & Hv & Hfee); fold nIn in Hin, Hv, Hfee.
  destruct (step_out _ _ _ _ _ _ _ _ Hs) as [_ Ho]; pose proof (step_value_out _ _ _ _ _ _ _ _ Hs) as Eo.
  destruct (exact_add _ _ k Hk So Ho) as [Ao Bo]; rewrite Ao in Eo; assert (HM : MAX_MONEY = 10 ^ 15) by reflexivity.
  pose proof (step_value_in _ _ _ _ _ _ _ _ Hs) as Ei; unfold minted; destruct (IsCoinBase tx) eqn:Ecb.
  - destruct (step_coinbase _ _ _ _ _ _ _ _ Hs Ecb) as [Ef Er]; rewrite (coinbase_not_coinstake tx Ecb).
    assert (E0 : nIn = 0) by (unfold nIn, spends; now rewrite Ecb).
    rewrite Ei, Eo, Ef, Er, E0; split; [constructor; rewrite ?Ef, ?Ei, ?Eo; lia | lia].
  - destruct Ei as (n & En & Ei & Ef & Er); rewrite (Hv eq_refl) in En; injection En as <-.
    destruct (exact_add _ _ k Hk Si Hin) as [Ai Bi]; rewrite Ai in Ei; rewrite !exact_sub in Ef, Er by assumption.
    destruct (IsCoinStake tx) eqn:Ecs.
    + rewrite Ei, Eo, Ef, Er; split; [constructor; rewrite ?Ef, ?Ei, ?Eo; lia | lia].
    + specialize (Hfee (conj Ecb Ecs)); destruct (exact_add (c_nFees c) (nIn - sum_values (vout tx)) k Hk Sf ltac:(lia)) as [Af Bf].
      rewrite Af in Ef; rewrite Ei, Eo, Ef, Er; split; [constructor; rewrite ?Ef, ?Ei, ?Eo; lia | lia].
Qed.

(** The transactions of the block are in the block file from [nTxPos] on. *)
Fixpoint stored (pindex : CBlockIndex) (nTxPos : Z) (txs : list CTransaction) : Prop :=
  match txs with
  | [] => True
  | tx :: txs =>
      let p := DiskTxPos (bi_nFile pindex) (bi_nBlockPos pindex) nTxPos in
      ReadTx p = Some tx /\ pos_eq p (DiskTxPos 1 1 1) = false /\ stored pindex (u32 (nTxPos + ser_size tx_codec tx)) txs
  end.

(** What holds before the transactions [txs] are connected. *)
Record ready (db : tx_map) (pindex : CBlockIndex) (txs : list CTransaction) (c : connecting) (k : Z) : Prop := {
  ready_unsigned : Forall unsigned_inputs txs;
  ready_disk : on_disk (c_queued c ∪ db);
  ready_unique : List.NoDup (hashes txs);
  ready_dead : Forall (dead (c_queued c ∪ db)) (hashes txs);
  ready_stored : stored pindex (c_nTxPos c) txs;
  ready_sums : sums k c;
  ready_bound : 0 <= k /\ k + Z.of_nat (length txs) <= 3906
}.

(** The part of the total that the sums do not account for. *)
Definition unaccounted (db : tx_map) (c : connecting) : Z := total (c_queued c ∪ db) - (c_nValueOut c - c_nValueIn c).

Lemma ready_step db pindex pprev tx txs c c' k : bi_nFile pindex <> 0xFFFFFFFF -> ready db pindex (tx :: txs) c k ->
  connect_tx db pindex pprev false c tx = Done c' ->
  ready db pindex txs c' (k + 1) /\ unaccounted db c' = unaccounted db c
  /\ (IsCoinBase tx = true -> minted c' = minted c + sum_values (vout tx) /\ c_nStakeReward c' = c_nStakeReward c)
  /\ (IsCoinBase tx = false -> IsCoinStake tx = true -> minted c' = minted c + c_nStakeReward c')
  /\ (ordinary tx -> minted c' = minted c /\ c_nStakeReward c' = c_nStakeReward c).
Proof.
  intros Hf [Hn Hd Hu Hdd Hst Hs [Hk Hl]] E; apply Forall_cons_iff in Hn as [Htx Hn]; destruct Hst as (Hr & Hp1 & Hst).
  destruct (connect_tx_step _ _ _ _ _ _ _ Htx E) as (inputs & Hok); cbn [length] in Hl.
  destruct (step_sums _ _ _ _ _ _ _ _ k Hok Hd ltac:(lia) Hs) as (Hs1 & Ei & Eo & Em & Er).
  destruct (step_inputs _ _ _ _ _ _ _ _ Hok Hd) as (Hrd & _); pose proof (step_view _ _ _ _ _ _ _ _ Hok) as Ev.
  pose proof (tx_pos_set pindex c Hf) as Hp; destruct (dead_rest (tx_pos pindex c) tx txs _ Hp Hu Hdd) as [Hu1 Hd1]; rewrite <- Ev in Hd1.
  assert (Et : total (c_queued c' ∪ db) = total (c_queued c ∪ db) - sum_over (out_value (c_queued c ∪ db)) (spends tx) + sum_values (vout tx)).
  { rewrite Ev; apply total_effect; [exact Hp | eapply step_spendable; exact Hok | exact Hrd | now apply Forall_inv in Hdd | exact Hr]. }
  rewrite <- (step_pos _ _ _ _ _ _ _ _ Hok : c_nTxPos c' = _) in Hst; split.
  { constructor; try assumption; [rewrite Ev; now apply on_disk_effect | lia]. }
  unfold unaccounted; split; [lia|]; split; [|split].
  - intros Ecb; rewrite Ecb in Em; rewrite (coinbase_not_coinstake tx Ecb) in Er; auto.
  - intros Ecb Ecs; rewrite Ecb, Ecs in Em; rewrite Ecs in Er; lia.
  - intros [Ecb Ecs]; rewrite Ecb, Ecs in Em; rewrite Ecs in Er; split; [lia | exact Er].
Qed.

Lemma ready_all db pindex pprev txs c c' k : bi_nFile pindex <> 0xFFFFFFFF -> ready db pindex txs c k ->
  connect_txs db pindex pprev false txs c = Done c' ->
  ready db pindex [] c' (k + Z.of_nat (length txs)) /\ unaccounted db c' = unaccounted db c
  /\ (Forall ordinary txs -> minted c' = minted c /\ c_nStakeReward c' = c_nStakeReward c).
Proof.
  intros Hf; revert c k; induction txs as [|tx txs IH]; intros c k Hr E; cbn [connect_txs] in E.
  { injection E as <-; cbn [length]; rewrite Z.add_0_r; auto. }
  apply obind_done in E as (c1 & E1 & E); destruct (ready_step _ _ _ _ _ _ _ _ Hf Hr E1) as (Hr1 & Hu & _ & _ & Ho).
  destruct (IH c1 (k + 1) Hr1 E) as (I1 & I2 & I3); cbn [length].
  split; [replace (k + Z.of_nat (S (length txs))) with (k + 1 + Z.of_nat (length txs)) by lia; exact I1|].
  split; [congruence|]; intros Ha; apply Forall_cons_iff in Ha as [Ha1 Ha]; destruct (I3 Ha), (Ho Ha1); split; congruence.
Qed.

(** ** What a block makes *)

Lemma ordinary_all txs : Forall (fun tx => IsCoinBase tx = false) txs -> Forall (fun tx => IsCoinStake tx = false) txs -> Forall ordinary txs.
Proof. intros H1 H2; rewrite List.Forall_forall in *; split; auto. Qed.

Lemma empty_value o : txout_IsEmpty o = true -> nValue o = 0.
Proof. unfold txout_IsEmpty; rewrite andb_true_iff, Z.eqb_eq; tauto. Qed.

Lemma block_minted db b pindex pprev f1 f2 c0 c : bi_nFile pindex <> 0xFFFFFFFF -> block_accepted Hash9 now b f1 f2 false ->
  ready db pindex (bl_vtx b) c0 0 -> minted c0 = 0 -> connect_txs db pindex pprev false (bl_vtx b) c0 = Done c ->
  (IsProofOfStake b = true -> minted c = c_nStakeReward c)
  /\ (Forall (fun tx => IsCoinStake tx = false) (bl_vtx b) -> minted c = sum_values (vout (tx_at b 0))).
Proof.
  intros Hf Ha Hr H0 E; pose proof (block_coinbase _ _ _ _ _ _ Ha) as Hcb; pose proof (block_single _ _ _ _ _ _ Ha) as Hsg.
  pose proof (block_nonempty _ _ _ _ _ _ Ha) as Hne; pose proof (block_stake _ _ _ _ _ _ Ha) as Hst; unfold tx_at in *.
  destruct (bl_vtx b) as [|t0 rest] eqn:Eb; [congruence|]; cbn [nth skipn] in *; change (drop 0 rest) with rest in *; cbn [connect_txs] in E.
  apply obind_done in E as (c1 & E1 & E); destruct (ready_step _ _ _ _ _ _ _ _ Hf Hr E1) as (Hr1 & _ & Hm & _).
  destruct (Hm Hcb) as [M1 R1]; split.
  - intros Hps; destruct (Hst Hps) as [(o & Eo & He) Hcs _ _]; unfold tx_at in Eo; rewrite Eb in Eo, Hcs; cbn [nth] in Eo.
    assert (Ez : sum_values (vout t0) = 0) by (rewrite Eo; cbn; rewrite (empty_value o He); reflexivity).
    unfold IsProofOfStake in Hps; rewrite Eb in Hps; apply andb_true_iff in Hps as [_ Hs1].
    destruct rest as [|t1 rest]; [discriminate Hs1|]; cbn [nth] in Hs1; cbn [connect_txs] in E; apply obind_done in E as (c2 & E2 & E).
    destruct (ready_step _ _ _ _ _ _ _ _ Hf Hr1 E2) as (Hr2 & _ & _ & Hm2 & _); apply Forall_cons_iff in Hsg as [Hb1 Hsg].
    destruct (ready_all _ _ _ _ _ _ _ Hf Hr2 E) as (_ & _ & Ho); destruct (Ho (ordinary_all _ Hsg Hcs)) as [M3 R3].
    specialize (Hm2 Hb1 Hs1); lia.
  - intros Hcs; apply Forall_cons_iff in Hcs as [_ Hcs].
    destruct (ready_all _ _ _ _ _ _ _ Hf Hr1 E) as (_ & _ & Ho); destruct (Ho (ordinary_all _ Hsg Hcs)) as [M3 _]; lia.
Qed.

Lemma i64_add_sub a b c : - 2 ^ 63 <= a + b - c < 2 ^ 63 -> i64_sub (i64_add a b) c = a + b - c.
Proof.
  intros Hr; unfold i64_sub, i64_add.
  assert (E : (to_signed 64 ((a + b) mod 2 ^ 64) - c) mod 2 ^ 64 = (a + b - c) mod 2 ^ 64).
  { unfold to_signed; destruct (_ <? _); [now rewrite Zminus_mod_idemp_l|].
    replace ((a + b) mod 2 ^ 64 - 2 ^ 64 - c) with ((a + b) mod 2 ^ 64 - c + (-1) * 2 ^ 64) by lia.
    now rewrite Z.mod_add, Zminus_mod_idemp_l by lia. }
  rewrite E; apply (to_signed_wrap 64); lia.
Qed.

End Supply.

Section Money.
Context {H : hash_lib} {HH : hash_laws H} {L : BN_lib} {EC : ec_lib} {N : node_env}.

Lemma ready_block db b pindex pprev m m' db' pindex' c : block_valid SER_NETWORK b -> size_of (block_bytes b) < 2 ^ 32 ->
  bi_nFile pindex <> 0xFFFFFFFF -> on_disk (db_tx db) -> stored pindex (first_pos b pindex false) (bl_vtx b) ->
  block_connected db b pindex pprev false m m' db' pindex' c ->
  block_accepted Hash9 now b true true false
  /\ ready (db_tx db) pindex (bl_vtx b) (Connecting ∅ 0 0 0 0 0 (first_pos b pindex false)) 0.
Proof.
  intros Hv Hsz Hf Hd Hst Hb; pose proof (accepted_block _ _ _ Hv Hsz HH (bc_check _ _ _ _ _ _ _ _ _ _ Hb)) as Ha; split; [exact Ha|].
  pose proof (few_txs _ _ _ _ _ _ Hv Ha); pose proof (block_unique _ _ _ _ _ _ Ha) as Hu.
  destruct Hv as (_ & _ & _ & _ & _ & _ & [Htx _] & _); destruct (connected_run _ _ _ _ _ _ _ _ _ Htx Hf Hb) as [_ Hdd].
  constructor; cbn [c_queued c_nTxPos]; rewrite ?map_empty_union; auto; [|constructor; cbn; lia | lia].
  exact (Forall_impl _ _ _ Htx tx_valid_unsigned).
Qed.

(** The reward that the code allows a coinstake. *)
Definition allowed_reward (b : CBlock) (pprev : list CBlockIndex) (nCoinAge : Z) (m : turbo_map) : Z :=
  fst (GetProofOfStakeReward fTestNet ReadBlock (to_signed 64 nCoinAge)
    (address_of fTestNet (match ExtractDestination (scriptPubKey (out_at (tx_at b 1) 1)) with Some d => d | None => CNoDestination end))
    (tx_nTime (tx_at b 1)) pprev m).

Lemma reward_stake db b pindex pprev nFees r m m' : IsProofOfStake b = true ->
  check_reward db b pindex pprev nFees r m = (Done tt, m') ->
  exists nCoinAge, GetCoinAge db (tx_at b 1) = Done nCoinAge /\ r <= allowed_reward b pprev nCoinAge m.
Proof.
  intros Hp; unfold check_reward, block_IsProofOfWork; rewrite Hp; cbn [negb].
  destruct (GetCoinAge db (tx_at b 1)) as [age|n|]; [|discriminate..]; destruct pprev as [|p pp]; [discriminate|].
  unfold allowed_reward; destruct (GetProofOfStakeReward _ _ _ _ _ _ _) as [calc m1] eqn:Ec.
  destruct (Z.ltb_spec calc r) as [|Hle]; [discriminate|]; intros _; exists age; split; [reflexivity | rewrite Ec; exact Hle].
Qed.

Lemma reward_work db b pindex pprev nFees r m m' : IsProofOfStake b = false -> 1 <= bi_nHeight pindex -> 0 <= nFees <= 2 ^ 62 ->
  check_reward db b pindex pprev nFees r m = (Done tt, m') ->
  sum_values (vout (tx_at b 0)) <= subsidy (bi_nHeight pindex) + nFees.
Proof.
  intros Hp Hh Hf; unfold check_reward, block_IsProofOfWork; rewrite Hp; cbn [negb]; rewrite reward_exact by assumption; cbn [or_throw obind].
  destruct (GetValueOut (tx_at b 0)) as [o|] eqn:Eo; [|discriminate]; cbn [or_throw obind]; apply GetValueOut_exact in Eo as [-> _].
  destruct (Z.ltb_spec (subsidy (bi_nHeight pindex) + nFees) (sum_values (vout (tx_at b 0)))); [discriminate | intros _; lia].
Qed.

(** C4: The money supply.  Connecting a block changes the total value of the
    unspent outputs by what its index entry records: [nMoneySupply] grows by
    exactly that change, and [nMint] is at least the change.  A block without
    a coinstake adds at most the subsidy of its height, a proof-of-stake block
    at most the reward that the code computes for its coinstake; fees add nothing.  The
    sums of a block do not overflow 64 bits. *)
Theorem block_money (db db' : CTxDB) (b : CBlock) (pindex pindex' : CBlockIndex) (pprev : list CBlockIndex) (m m' : turbo_map) :
  block_valid SER_NETWORK b -> size_of (block_bytes b) < 2 ^ 32 -> bi_nFile pindex <> 0xFFFFFFFF -> 1 <= bi_nHeight pindex ->
  on_disk (db_tx db) -> stored pindex (first_pos b pindex false) (bl_vtx b) ->
  ConnectBlock db b pindex pprev false m = (Done (db', pindex'), m') ->
  let made := total (db_tx db') - total (db_tx db) in
  on_disk (db_tx db') /\ made <= bi_nMint pindex'
  /\ (- 2 ^ 63 <= supply_before pprev + made < 2 ^ 63 -> bi_nMoneySupply pindex' = supply_before pprev + made)
  /\ (Forall (fun tx => IsCoinStake tx = false) (bl_vtx b) -> made <= subsidy (bi_nHeight pindex))
  /\ (IsProofOfStake b = true ->
        exists nCoinAge, GetCoinAge (db_tx db) (tx_at b 1) = Done nCoinAge /\ made <= allowed_reward b pprev nCoinAge m).
Proof.
  intros Hv Hsz Hf Hh Hd Hst E made; destruct (ConnectBlock_connected _ _ _ _ _ _ _ _ _ E) as (c & Hb).
  destruct (ready_block _ _ _ _ _ _ _ _ _ Hv Hsz Hf Hd Hst Hb) as [Ha Hr]; pose proof (bc_txs _ _ _ _ _ _ _ _ _ _ Hb) as Ec.
  destruct (block_minted _ _ _ _ _ _ _ _ Hf Ha Hr eq_refl Ec) as [Hps Hpw].
  destruct (ready_all _ _ _ _ _ _ _ Hf Hr Ec) as ([_ Hd' _ _ _ [Sf Si So] Hl] & Hu & _); cbn [length] in Hl.
  assert (Em : made = c_nValueOut c - c_nValueIn c).
  { unfold made; rewrite (connected_view _ _ _ _ _ _ _ _ _ Hb); unfold unaccounted in Hu; cbn [c_queued c_nValueOut c_nValueIn] in Hu.
    rewrite map_empty_union in Hu; lia. }
  assert (HB : (0 + Z.of_nat (length (bl_vtx b))) * MAX_MONEY <= 3906 * 10 ^ 15) by (change MAX_MONEY with (10 ^ 15); nia).
  unfold minted in Hps, Hpw; pose proof (bc_reward _ _ _ _ _ _ _ _ _ _ Hb) as Er.
  split; [now rewrite (connected_view _ _ _ _ _ _ _ _ _ Hb)|]; rewrite (bc_index _ _ _ _ _ _ _ _ _ _ Hb); cbn [set_money bi_nMint bi_nMoneySupply].
  split; [|split; [|split]].
  - unfold i64_sub at 1; rewrite (to_signed_wrap 64) by lia; rewrite i64_add_range by lia; lia.
  - intros Hs; rewrite i64_add_sub by lia; lia.
  - intros Hcs; specialize (Hpw Hcs).
    assert (Hp : IsProofOfStake b = false).
    { unfold IsProofOfStake; destruct (Nat.ltb_spec 1 (length (bl_vtx b))) as [Hl1|]; [cbn [andb]|reflexivity].
      rewrite List.Forall_forall in Hcs; apply Hcs, nth_In; lia. }
    pose proof (reward_work (db_tx db) b pindex pprev (c_nFees c) _ m m' Hp Hh ltac:(lia) Er); lia.
  - intros Hp; destruct (reward_stake _ _ _ _ _ _ _ _ Hp Er) as (age & Ea & Hle); exists age; split; [exact Ea | specialize (Hps Hp); lia].
Qed.

End Money.

Lemma sample_on_disk : on_disk coins_db.
Proof. intros h x Ex; unfold coins_db in Ex; apply lookup_singleton_Some in Ex as [_ <-]; reflexivity. Qed.

Lemma block_money_witness :
  total (N := sample_env (work_block [spend_both])) (db_tx (fst (sample_after [spend_both])))
  - total (N := sample_env (work_block [spend_both])) coins_db = 590 * COIN
  /\ total (N := sample_env (work_block [spend_both])) (db_tx (fst (sample_after [spend_both])))
     - total (N := sample_env (work_block [spend_both])) coins_db <= subsidy 2.
Proof.
  split; [vm_compute; reflexivity|].
  destruct (block_money (H := toy_hash) (L := BN_ideal) (EC := toy_ec) (N := sample_env (work_block [spend_both]))
    sample_db (fst (sample_after [spend_both])) (work_block [spend_both]) work_index (snd (sample_after [spend_both])) [] [] [])
    as (_ & _ & _ & E & _).
  - exact sample_valid.
  - vm_compute; reflexivity.
  - vm_compute; discriminate.
  - vm_compute; discriminate.
  - exact sample_on_disk.
  - repeat split; vm_compute; reflexivity.
  - rewrite <- surjective_pairing; exact sample_connects.
  - apply E; repeat constructor.
Defined.

(** ** A coinstake in a proof-of-work block *)

Definition ordinary_spend : CTransaction :=
  Tx 1 2000 [TxIn (OutPoint coins_hash 0) [] 0xFFFFFFFF] [TxOut (2 * COIN) [op_byte OP_1]] 0 [] 0.
Definition late_coinstake : CTransaction :=
  Tx 1 2000 [TxIn (OutPoint coins_hash 1) [] 0xFFFFFFFF] [TxOut 0 []; TxOut (100000 * COIN) [op_byte OP_1]] 0 [] 0.

(** The rule that only the second transaction may be a coinstake is tested in
    proof-of-stake blocks only.  A proof-of-work block whose third transaction
    has the form of a coinstake passes [CheckBlock] and is connected; its
    coinstake pays 100000 coins from an input of 2 coins, and the money supply grows by
    more than the subsidy of the block. *)
Example work_block_with_coinstake :
  let b := work_block [ordinary_spend; late_coinstake] in
  let after := sample_after [ordinary_spend; late_coinstake] in
  IsProofOfStake b = false /\ IsCoinStake late_coinstake = true
  /\ connect_sample [ordinary_spend; late_coinstake] = (Done after, [])
  /\ bi_nMoneySupply (snd after) = 591 * COIN + 99998 * COIN - 1 * COIN /\ subsidy (bi_nHeight work_index) = 591 * COIN.
Proof. vm_compute; repeat split. Qed.
