(* ===== verification/TxDb.v ===== *)
(** * TxDb: the database of the block chain (txdb-leveldb.h, txdb-leveldb.cpp)

    [CTxDB] is a store of byte strings with at most one open transaction: a
    batch of writes that is applied to the store as a whole, or dropped.  The
    store itself is LevelDB, an interface of four operations and their laws;
    I/O errors are not modelled.  The theorems relate the bytes to the maps of
    transaction and block index entries that Connect works on. *)

From Stdlib Require Import ZArith List Lia Bool String Ascii.
From stdpp Require Import gmap list.
From S2P Require Import Prelude SphTypes Uint256 Merkle Serialize Transaction BigNum Script Interp SigHash BlockIndex.
From S2P Require Import Stake Difficulty Kernel Subsidy Inputs CheckBlock Connect.
Import ListNotations.

Open Scope Z_scope.
Open Scope word_scope.

(** ** LevelDB *)

Inductive batch_op := BatchPut (key value : list Z) | BatchDelete (key : list Z).

Class leveldb := {
  level_store : Type;
  Get : level_store -> list Z -> option (list Z);
  Put : level_store -> list Z -> list Z -> level_store;
  Delete : level_store -> list Z -> level_store;
  WriteBatch : level_store -> list batch_op -> level_store
}.

Definition apply_op {D : leveldb} (d : level_store) (o : batch_op) : level_store :=
  match o with BatchPut k v => Put d k v | BatchDelete k => Delete d k end.

Class leveldb_laws (D : leveldb) : Prop := {
  Get_Put d k v k' : Get (Put d k v) k' = if decide (k = k') then Some v else Get d k';
  Get_Delete d k k' : Get (Delete d k) k' = if decide (k = k') then None else Get d k';
  Get_WriteBatch d b k : Get (WriteBatch d b) k = Get (fold_left apply_op b d) k
}.

(** ** Serialized keys and values *)

Definition bytes_of (s : string) : list Z := List.map (fun a => Z.of_N (N_of_ascii a)) (list_ascii_of_string s).

Definition CLIENT_VERSION : Z := 1000000 * 1 + 20000 * 2 + 100 * 0 + 1 * 1.

(** [CBigNum]: the bytes of [getvch]. *)
Definition bignum_codec {L : BN_lib} : codec Z :=
  Codec (fun z => enc bytes_codec (getvch z)) (fun _ => v <- dec bytes_codec [] ;; rret (setvch v))
        (fun z => ser_size bytes_codec (getvch z)) 24.

(** A [CDiskBlockIndex] with its cached [blockHash].  The version of the format
    is read and forgotten; [prevoutStake] and [nStakeTime] are only stored for
    proof of stake. *)
Definition diskindex_codec : codec (CDiskBlockIndex * list Z) :=
  let stake i := bi_IsProofOfStake (di_index i) in
  Codec
    (fun x => let d := fst x in let i := di_index d in
       enc (sint_codec 4) CLIENT_VERSION ++ enc hash_codec (di_hashNext d) ++ enc (uint_codec 4) (bi_nFile i)
       ++ enc (uint_codec 4) (bi_nBlockPos i) ++ enc (sint_codec 4) (bi_nHeight i) ++ enc (sint_codec 8) (bi_nMint i)
       ++ enc (sint_codec 8) (bi_nMoneySupply i) ++ enc (uint_codec 4) (bi_nFlags i) ++ enc (uint_codec 8) (bi_nStakeModifier i)
       ++ (if stake d then enc outpoint_codec (bi_prevoutStake i) ++ enc (uint_codec 4) (bi_nStakeTime i) else [])
       ++ enc hash_codec (bi_hashProof i) ++ enc (sint_codec 4) (bi_nVersion i) ++ enc hash_codec (di_hashPrev d)
       ++ enc hash_codec (bi_hashMerkleRoot i) ++ enc (uint_codec 4) (bi_nTime i) ++ enc (uint_codec 4) (bi_nBits i)
       ++ enc (uint_codec 4) (bi_nNonce i) ++ enc hash_codec (snd x))
    (fun old => let o := di_index (fst old) in
       _ <- dec (sint_codec 4) CLIENT_VERSION ;;
       hashNext <- dec hash_codec (di_hashNext (fst old)) ;;
       nFile <- dec (uint_codec 4) (bi_nFile o) ;;
       nBlockPos <- dec (uint_codec 4) (bi_nBlockPos o) ;;
       nHeight <- dec (sint_codec 4) (bi_nHeight o) ;;
       nMint <- dec (sint_codec 8) (bi_nMint o) ;;
       nMoneySupply <- dec (sint_codec 8) (bi_nMoneySupply o) ;;
       nFlags <- dec (uint_codec 4) (bi_nFlags o) ;;
       nStakeModifier <- dec (uint_codec 8) (bi_nStakeModifier o) ;;
       st <- (if negb (nFlags .& BLOCK_PROOF_OF_STAKE =? 0)
              then p <- dec outpoint_codec (bi_prevoutStake o) ;; t <- dec (uint_codec 4) (bi_nStakeTime o) ;; rret (p, t)
              else rret (COutPoint_null, 0)) ;;
       hashProof <- dec hash_codec (bi_hashProof o) ;;
       nVersion <- dec (sint_codec 4) (bi_nVersion o) ;;
       hashPrev <- dec hash_codec (di_hashPrev (fst old)) ;;
       hashMerkleRoot <- dec hash_codec (bi_hashMerkleRoot o) ;;
       nTime <- dec (uint_codec 4) (bi_nTime o) ;;
       nBits <- dec (uint_codec 4) (bi_nBits o) ;;
       nNonce <- dec (uint_codec 4) (bi_nNonce o) ;;
       blockHash <- dec hash_codec (snd old) ;;
       rret (DiskIndex (BlockIndex (bi_hash o) nFile nBlockPos (bi_nChainTrust o) nHeight nMint nMoneySupply nFlags nStakeModifier
               (bi_nStakeModifierChecksum o) (fst st) (snd st) hashProof nVersion hashMerkleRoot nTime nBits nNonce) hashPrev hashNext, blockHash))
    (fun x => let s := if stake (fst x) then 40 else 0 in 4 + 32 + 4 + 4 + 4 + 8 + 8 + 4 + 8 + s + 32 + 4 + 32 + 32 + 4 + 4 + 4 + 32)
    400.

(** ** The database object *)

Section TxDb.
Context {D : leveldb}.

Record TxDb := MkTxDb { pdb : level_store; activeBatch : option (list batch_op); fReadOnly : bool }.

Definition TxnBegin (db : TxDb) : option TxDb :=
  match activeBatch db with Some _ => None | None => Some (MkTxDb (pdb db) (Some []) (fReadOnly db)) end.
Definition TxnCommit (db : TxDb) : option TxDb :=
  match activeBatch db with None => None | Some b => Some (MkTxDb (WriteBatch (pdb db) b) None (fReadOnly db)) end.
Definition TxnAbort (db : TxDb) : TxDb := MkTxDb (pdb db) None (fReadOnly db).

(** [CBatchScanner] is called for each entry of the batch, in order. *)
Record CBatchScanner := BatchScanner { deleted : bool; foundValue : list Z; foundEntry : bool }.

Definition scan_op (needle : list Z) (s : CBatchScanner) (o : batch_op) : CBatchScanner :=
  match o with
  | BatchPut k v => if decide (k = needle) then BatchScanner false v true else s
  | BatchDelete k => if decide (k = needle) then BatchScanner true (foundValue s) true else s
  end.

Definition ScanBatch (key value : list Z) (b : list batch_op) : CBatchScanner :=
  fold_left (scan_op key) b (BatchScanner false value false).

(** The bytes that [Read] finds. *)
Definition ReadBytes (db : TxDb) (key : list Z) : option (list Z) :=
  match activeBatch db with
  | Some b =>
      let s := ScanBatch key [] b in
      if deleted s then None else if foundEntry s then Some (foundValue s) else Get (pdb db) key
  | None => Get (pdb db) key
  end.

Definition Read {K T} (ck : codec K) (ct : codec T) (db : TxDb) (key : K) (value : T) : option T :=
  match ReadBytes db (enc ck key) with
  | None => None
  | Some strValue => option_map fst (dec ct value (DataStream strValue 0))
  end.

(** [None]: an assertion fails. *)
Definition Write {K T} (ck : codec K) (ct : codec T) (db : TxDb) (key : K) (value : T) : option TxDb :=
  if fReadOnly db then None
  else match activeBatch db with
       | Some b => Some (MkTxDb (pdb db) (Some (b ++ [BatchPut (enc ck key) (enc ct value)])) false)
       | None => Some (MkTxDb (Put (pdb db) (enc ck key) (enc ct value)) None false)
       end.

Definition Erase {K} (ck : codec K) (db : TxDb) (key : K) : option TxDb :=
  if fReadOnly db then None
  else match activeBatch db with
       | Some b => Some (MkTxDb (pdb db) (Some (b ++ [BatchDelete (enc ck key)])) false)
       | None => Some (MkTxDb (Delete (pdb db) (enc ck key)) None false)
       end.

Definition Exists {K} (ck : codec K) (db : TxDb) (key : K) : bool :=
  let found := match activeBatch db with
               | Some b => let s := ScanBatch (enc ck key) [] b in foundEntry s && negb (deleted s)
               | None => false
               end in
  if found then true else match Get (pdb db) (enc ck key) with Some _ => true | None => false end.

(** ** The records *)

Definition name_key : codec (list Z) := string_codec.
Definition hash_key : codec (list Z * list Z) := pair_codec string_codec hash_codec.
Definition tx_value : codec CTxIndex := txindex_codec SER_DISK CLIENT_VERSION.
Definition CTxIndex_null : CTxIndex := TxIndex CDiskTxPos_null [].

Definition ReadTxIndex (db : TxDb) (hash : list Z) : option CTxIndex :=
  Read hash_key tx_value db (bytes_of "tx", hash) CTxIndex_null.
Definition UpdateTxIndex (db : TxDb) (hash : list Z) (txindex : CTxIndex) : option TxDb :=
  Write hash_key tx_value db (bytes_of "tx", hash) txindex.
Definition ContainsTx (db : TxDb) (hash : list Z) : bool := Exists hash_key db (bytes_of "tx", hash).
Definition ReadHashBestChain (db : TxDb) (old : list Z) : option (list Z) :=
  Read name_key hash_codec db (bytes_of "hashBestChain") old.
Definition WriteHashBestChain (db : TxDb) (hashBestChain : list Z) : option TxDb :=
  Write name_key hash_codec db (bytes_of "hashBestChain") hashBestChain.
Definition ReadSyncCheckpoint (db : TxDb) (old : list Z) : option (list Z) :=
  Read name_key hash_codec db (bytes_of "hashSyncCheckpoint") old.
Definition WriteSyncCheckpoint (db : TxDb) (hashCheckpoint : list Z) : option TxDb :=
  Write name_key hash_codec db (bytes_of "hashSyncCheckpoint") hashCheckpoint.
Definition ReadCheckpointPubKey (db : TxDb) (old : list Z) : option (list Z) :=
  Read name_key string_codec db (bytes_of "strCheckpointPubKey") old.
Definition WriteCheckpointPubKey (db : TxDb) (strPubKey : list Z) : option TxDb :=
  Write name_key string_codec db (bytes_of "strCheckpointPubKey") strPubKey.
Definition ReadVersion (db : TxDb) : option Z := Read name_key (sint_codec 4) db (bytes_of "version") 0.
Definition WriteVersion (db : TxDb) (nVersion : Z) : option TxDb := Write name_key (sint_codec 4) db (bytes_of "version") nVersion.

Section Hashed.
Context {H : hash_lib} {L : BN_lib} {N : node_env}.

Definition AddTxIndex (db : TxDb) (tx : CTransaction) (p : CDiskTxPos) : option TxDb :=
  UpdateTxIndex db (tx_GetHash tx) (txindex_new p (List.length (vout tx))).
Definition EraseTxIndex (db : TxDb) (tx : CTransaction) : option TxDb := Erase hash_key db (bytes_of "tx", tx_GetHash tx).
Definition ReadBestInvalidTrust (db : TxDb) (old : Z) : option Z := Read name_key bignum_codec db (bytes_of "bnBestInvalidTrust") old.
Definition WriteBestInvalidTrust (db : TxDb) (bn : Z) : option TxDb := Write name_key bignum_codec db (bytes_of "bnBestInvalidTrust") bn.

(** [GetBlockHash] fills the cache of the object before it is written. *)
Definition txdb_WriteBlockIndex (db : TxDb) (blockindex : CDiskBlockIndex) : option TxDb :=
  let hash := disk_GetBlockHash blockindex in
  Write hash_key diskindex_codec db (bytes_of "blockindex", hash) (blockindex, hash).

(** [CTxDB::ReadDiskTx]: the transaction an index entry points to. *)
Definition ReadDiskTx (db : TxDb) (hash : list Z) : option (CTransaction * CTxIndex) :=
  match ReadTxIndex db hash with
  | None => None
  | Some txindex => option_map (fun tx => (tx, txindex)) (ReadTx (pos txindex))
  end.

End Hashed.
End TxDb.

(** ** Specification *)

(** What is stored under each name. *)
Record db_view := View {
  view_tx : tx_map;
  view_index : index_db;
  view_best : option (list Z);
  view_invalid : option Z;
  view_sync : option (list Z);
  view_pubkey : option (list Z);
  view_version : option Z
}.

Definition set_tx (f : tx_map -> tx_map) (v : db_view) : db_view :=
  View (f (view_tx v)) (view_index v) (view_best v) (view_invalid v) (view_sync v) (view_pubkey v) (view_version v).
Definition set_index (f : index_db -> index_db) (v : db_view) : db_view :=
  View (view_tx v) (f (view_index v)) (view_best v) (view_invalid v) (view_sync v) (view_pubkey v) (view_version v).
Definition set_best (h : list Z) (v : db_view) : db_view :=
  View (view_tx v) (view_index v) (Some h) (view_invalid v) (view_sync v) (view_pubkey v) (view_version v).
Definition set_invalid (z : Z) (v : db_view) : db_view :=
  View (view_tx v) (view_index v) (view_best v) (Some z) (view_sync v) (view_pubkey v) (view_version v).
Definition set_sync (h : list Z) (v : db_view) : db_view :=
  View (view_tx v) (view_index v) (view_best v) (view_invalid v) (Some h) (view_pubkey v) (view_version v).
Definition set_pubkey (s : list Z) (v : db_view) : db_view :=
  View (view_tx v) (view_index v) (view_best v) (view_invalid v) (view_sync v) (Some s) (view_version v).
Definition set_version (n : Z) (v : db_view) : db_view :=
  View (view_tx v) (view_index v) (view_best v) (view_invalid v) (view_sync v) (view_pubkey v) (Some n).

(** The contents on disk, and those of the open transaction. *)
Record txn_state := Txn { committed : db_view; pending : option db_view }.

Definition txn_view (s : txn_state) : db_view := match pending s with Some v => v | None => committed s end.
Definition txn_set (f : db_view -> db_view) (s : txn_state) : txn_state :=
  match pending s with
  | Some v => Txn (committed s) (Some (f v))
  | None => Txn (f (committed s)) None
  end.

Inductive db_op :=
| OpUpdateTx (hash : list Z) (x : CTxIndex)
| OpAddTx (tx : CTransaction) (p : CDiskTxPos)
| OpEraseTx (tx : CTransaction)
| OpWriteIndex (d : CDiskBlockIndex)
| OpWriteBest (hash : list Z)
| OpWriteInvalid (bn : Z)
| OpWriteSync (hash : list Z)
| OpWritePubKey (s : list Z)
| OpWriteVersion (n : Z)
| OpBegin
| OpCommit
| OpAbort.

Section Spec.
Context {H : hash_lib} {L : BN_lib} {N : node_env}.

Definition spec_op (o : db_op) (s : txn_state) : option txn_state :=
  match o with
  | OpUpdateTx h x => Some (txn_set (set_tx (insert h x)) s)
  | OpAddTx tx p => Some (txn_set (set_tx (insert (tx_GetHash tx) (txindex_new p (List.length (vout tx))))) s)
  | OpEraseTx tx => Some (txn_set (set_tx (delete (tx_GetHash tx))) s)
  | OpWriteIndex d => Some (txn_set (set_index (insert (disk_GetBlockHash d) d)) s)
  | OpWriteBest h => Some (txn_set (set_best h) s)
  | OpWriteInvalid z => Some (txn_set (set_invalid z) s)
  | OpWriteSync h => Some (txn_set (set_sync h) s)
  | OpWritePubKey p => Some (txn_set (set_pubkey p) s)
  | OpWriteVersion n => Some (txn_set (set_version n) s)
  | OpBegin => match pending s with Some _ => None | None => Some (Txn (committed s) (Some (committed s))) end
  | OpCommit => match pending s with Some v => Some (Txn v None) | None => None end
  | OpAbort => Some (Txn (committed s) None)
  end.

Context {D : leveldb}.

Definition exec_op (o : db_op) (db : TxDb) : option TxDb :=
  match o with
  | OpUpdateTx h x => UpdateTxIndex db h x
  | OpAddTx tx p => AddTxIndex db tx p
  | OpEraseTx tx => EraseTxIndex db tx
  | OpWriteIndex d => txdb_WriteBlockIndex db d
  | OpWriteBest h => WriteHashBestChain db h
  | OpWriteInvalid z => WriteBestInvalidTrust db z
  | OpWriteSync h => WriteSyncCheckpoint db h
  | OpWritePubKey p => WriteCheckpointPubKey db p
  | OpWriteVersion n => WriteVersion db n
  | OpBegin => TxnBegin db
  | OpCommit => TxnCommit db
  | OpAbort => Some (TxnAbort db)
  end.

(** Sequences of operations. *)
Definition run_ops {S} (step : db_op -> S -> option S) (ops : list db_op) (s : S) : option S :=
  fold_left (fun r o => match r with Some s => step o s | None => None end) ops (Some s).

End Spec.

(** ** Keys *)

Inductive db_key := KTx (h : list Z) | KIndex (h : list Z) | KBest | KInvalid | KSync | KPubKey | KVersion.

Definition key_bytes (k : db_key) : list Z :=
  match k with
  | KTx h => enc hash_key (bytes_of "tx", h)
  | KIndex h => enc hash_key (bytes_of "blockindex", h)
  | KBest => enc name_key (bytes_of "hashBestChain")
  | KInvalid => enc name_key (bytes_of "bnBestInvalidTrust")
  | KSync => enc name_key (bytes_of "hashSyncCheckpoint")
  | KPubKey => enc name_key (bytes_of "strCheckpointPubKey")
  | KVersion => enc name_key (bytes_of "version")
  end.

Definition key_ok (k : db_key) : Prop := match k with KTx h | KIndex h => wf 8 h | _ => True end.

Lemma uint_bytes_inj a b : wf 8 a -> wf 8 b -> uint_bytes a = uint_bytes b -> a = b.
Proof. intros Ha Hb E; rewrite <- (uint_of_uint_bytes 8 a Ha), <- (uint_of_uint_bytes 8 b Hb); now rewrite E. Qed.

#[export] Instance db_key_eq_dec : EqDecision db_key.
Proof. solve_decision. Defined.

(** Different names are different bytes. *)
Lemma key_bytes_inj k k' : key_ok k -> key_ok k' -> key_bytes k = key_bytes k' -> k = k'.
Proof.
  destruct k, k'; intros Hk Hk' E; try reflexivity; try discriminate E; cbn in Hk, Hk'; f_equal;
    apply uint_bytes_inj; try assumption; exact (app_inv_head _ _ _ E).
Qed.

Section Views.
Context {H : hash_lib} {L : BN_lib}.

(** The bytes stored for a view. *)
Definition view_bytes (v : db_view) (k : db_key) : option (list Z) :=
  match k with
  | KTx h => option_map (enc tx_value) (view_tx v !! h)
  | KIndex h => option_map (fun d => enc diskindex_codec (d, h)) (view_index v !! h)
  | KBest => option_map (enc hash_codec) (view_best v)
  | KInvalid => option_map (enc bignum_codec) (view_invalid v)
  | KSync => option_map (enc hash_codec) (view_sync v)
  | KPubKey => option_map (enc string_codec) (view_pubkey v)
  | KVersion => option_map (enc (sint_codec 4)) (view_version v)
  end.

Definition trust_ok (z : Z) : Prop := 0 <= z < 2 ^ 256.

(** The values stored are values of their types. *)
Definition opt_ok {A} (P : A -> Prop) (o : option A) : Prop := forall a, o = Some a -> P a.

Record view_ok (v : db_view) : Prop := {
  ok_tx : map_Forall (fun h x => wf 8 h /\ txindex_valid x) (view_tx v);
  ok_best : opt_ok (wf 8) (view_best v);
  ok_invalid : opt_ok trust_ok (view_invalid v);
  ok_sync : opt_ok (wf 8) (view_sync v);
  ok_pubkey : opt_ok short_bytes (view_pubkey v);
  ok_version : opt_ok (srange 4) (view_version v)
}.

Context {N : node_env}.

Definition op_ok (o : db_op) : Prop :=
  match o with
  | OpUpdateTx h x => wf 8 h /\ txindex_valid x
  | OpAddTx tx p => disktxpos_valid p /\ tx_valid tx
  | OpWriteIndex d => wf 8 (disk_GetBlockHash d)
  | OpWriteBest h | OpWriteSync h => wf 8 h
  | OpWriteInvalid z => trust_ok z
  | OpWritePubKey p => short_bytes p
  | OpWriteVersion n => srange 4 n
  | OpEraseTx tx => tx_valid tx
  | OpBegin | OpCommit | OpAbort => True
  end.

Context {D : leveldb}.

Definition shows (f : list Z -> option (list Z)) (v : db_view) : Prop := forall k, key_ok k -> f (key_bytes k) = view_bytes v k.

(** The byte store holds the contents of the specification. *)
Record represents (db : TxDb) (s : txn_state) : Prop := {
  rep_mode : fReadOnly db = false;
  rep_disk : shows (Get (pdb db)) (committed s);
  rep_view : shows (ReadBytes db) (txn_view s);
  rep_batch : activeBatch db = None <-> pending s = None;
  rep_ok : view_ok (committed s) /\ view_ok (txn_view s)
}.

End Views.

(** ** Reading what was written *)

Lemma decoded {A} (c : codec A) fresh valid (Hc : codec_ok c fresh valid) old a :
  fresh old -> valid a -> size_of (enc c a) < 2 ^ 31 -> option_map fst (dec c old (DataStream (enc c a) 0)) = Some a.
Proof.
  intros Hf Hv Hs; destruct (codec_roundtrip (codec_ok := Hc) old a Hf Hv (DataStream (enc c a) 0) []) as (s' & -> & _); [| |reflexivity].
  - split; [cbn; pose proof (size_of_nonneg (enc c a)); lia|]; split; [exact Hs | now apply (codec_bytes (codec_ok := Hc))].
  - unfold remaining; cbn [vch nReadPos Z.to_nat skipn]; now rewrite app_nil_r.
Qed.

Lemma compact_short n : 0 <= n -> 0 <= size_of (WriteCompactSize n) <= 9.
Proof.
  intros Hn; rewrite size_compact by assumption; unfold GetSizeOfCompactSize.
  destruct (_ <? _); [|destruct (_ <=? _); [|destruct (_ <=? _)]]; lia.
Qed.

Lemma size_positions l : size_of (flat_map (enc disktxpos_codec) l) = 12 * Z.of_nat (List.length l).
Proof.
  induction l as [|p l IH]; [reflexivity|]; cbn [flat_map List.length]; rewrite size_of_app, IH.
  replace (size_of (enc disktxpos_codec p)) with 12; [lia|].
  cbn [enc disktxpos_codec]; rewrite !size_of_app, !size_write_int; reflexivity.
Qed.

Lemma size_txindex x : txindex_valid x -> size_of (enc tx_value x) < 2 ^ 31.
Proof.
  intros [_ [_ Hl]]; unfold tx_value, txindex_codec; cbn [enc vector_codec sint_codec].
  change (SER_DISK .& SER_GETHASH =? 0) with true; cbv iota.
  rewrite !size_of_app, size_positions, size_write_int; cbn [enc disktxpos_codec]; rewrite !size_of_app, !size_write_int.
  pose proof (compact_short (Z.of_nat (List.length (vSpent x)))); unfold MAX_SIZE in Hl; lia.
Qed.

Lemma tx_value_ok : codec_ok tx_value anyv txindex_valid.
Proof. apply txindex_ok; unfold srange, CLIENT_VERSION; lia. Qed.

Section Bignum.
Context {L : BN_lib} {HL : BN_laws L}.

Lemma getvch_trust z : trust_ok z -> short_bytes (getvch z) /\ size_of (getvch z) <= 33 /\ setvch (getvch z) = z.
Proof.
  intros Hz; assert (Hs : bn_small z) by (apply (bn_small_below z 256); unfold trust_ok in Hz; lia).
  assert (Hl : size_of (getvch z) <= 33).
  { rewrite getvch_spec by assumption; unfold size_of; rewrite length_rev.
    destruct (Z.eq_dec z 0) as [-> | Hn]; [discriminate|]; rewrite length_mpi_body by assumption.
    assert (Z.log2 (Z.abs z) < 256) by (unfold trust_ok in Hz; apply Z.log2_lt_pow2; lia).
    assert ((Z.log2 (Z.abs z) + 1) / 8 <= 32) by (apply Z.div_le_upper_bound; lia); lia. }
  split; [|split; [exact Hl | now apply setvch_getvch]]; split; [|unfold MAX_SIZE; lia].
  rewrite getvch_spec by assumption; apply Forall_rev, mpi_body_bytes.
Qed.

#[export] Instance bignum_ok : codec_ok bignum_codec anyv trust_ok.
Proof.
  constructor; cbn [bignum_codec enc dec ser_size sizeof].
  - intros _ z _ Hz; destruct (getvch_trust z Hz) as (Hv & _ & E).
    eapply reads_last; [typeclasses eauto | exact I | exact Hv | now rewrite E].
  - intros _; eapply local_field; [typeclasses eauto | intros; apply local_ret].
  - intros z Hz; now apply (codec_bytes (codec_ok := bytes_codec_ok)), getvch_trust.
  - intros z Hz; now apply (codec_size (codec_ok := bytes_codec_ok)), getvch_trust.
  - lia.
Qed.

End Bignum.

(** ** Index entries on disk *)

(** An entry as it is stored: the hash, the trust and the checksum are not. *)
Definition unstored (i : CBlockIndex) : Prop := bi_hash i = [] /\ bi_nChainTrust i = null_hash /\ bi_nStakeModifierChecksum i = 0.
Definition diskindex_valid (x : CDiskBlockIndex * list Z) : Prop :=
  let d := fst x in let i := di_index d in
  unstored i /\ wf 8 (di_hashNext d) /\ wf 8 (di_hashPrev d) /\ wf 8 (snd x)
  /\ (urange 4 (bi_nFile i) /\ urange 4 (bi_nBlockPos i) /\ srange 4 (bi_nHeight i) /\ srange 8 (bi_nMint i) /\ srange 8 (bi_nMoneySupply i)
      /\ urange 4 (bi_nFlags i) /\ urange 8 (bi_nStakeModifier i))
  /\ (if bi_IsProofOfStake i then outpoint_valid (bi_prevoutStake i) /\ urange 4 (bi_nStakeTime i)
      else bi_prevoutStake i = COutPoint_null /\ bi_nStakeTime i = 0)
  /\ (wf 8 (bi_hashProof i) /\ srange 4 (bi_nVersion i) /\ wf 8 (bi_hashMerkleRoot i) /\ urange 4 (bi_nTime i)
      /\ urange 4 (bi_nBits i) /\ urange 4 (bi_nNonce i)).

#[export] Instance u8_ok : codec_ok (uint_codec 8) anyv (urange 8).
Proof. apply uint_codec_ok; lia. Qed.

#[local] Opaque uint_codec sint_codec hash_codec outpoint_codec.

Lemma diskindex_reads old x : unstored (di_index (fst old)) -> diskindex_valid x -> reads (dec diskindex_codec old) x (enc diskindex_codec x).
Proof.
  destruct old as [[o op on] oh], x as [[[bh nf np ct h mi ms fl sm cs ps st hp ve mr ti bi no] pr nx] bk]; cbn [di_index fst snd].
  intros (U1 & U2 & U3) ((V1 & V2 & V3) & Hnx & Hpr & Hbk & (R1 & R2 & R3 & R4 & R5 & R6 & R7) & Hst & (R8 & R9 & R10 & R11 & R12 & R13)).
  cbn [di_index di_hashPrev di_hashNext fst snd bi_hash bi_nChainTrust bi_nStakeModifierChecksum bi_nFile bi_nBlockPos bi_nHeight bi_nMint
    bi_nMoneySupply bi_nFlags bi_nStakeModifier bi_prevoutStake bi_nStakeTime bi_hashProof bi_nVersion bi_hashMerkleRoot bi_nTime bi_nBits bi_nNonce] in *.
  subst bh ct cs; unfold diskindex_codec, bi_IsProofOfStake in *; cbn [enc dec fst snd di_index di_hashPrev di_hashNext bi_hash bi_nChainTrust bi_nStakeModifierChecksum
    bi_nFile bi_nBlockPos bi_nHeight bi_nMint bi_nMoneySupply bi_nFlags bi_nStakeModifier bi_prevoutStake bi_nStakeTime bi_hashProof bi_nVersion
    bi_hashMerkleRoot bi_nTime bi_nBits bi_nNonce] in *.
  rewrite U1, U2, U3.
  assert (Hcv : srange 4 CLIENT_VERSION) by (unfold srange, CLIENT_VERSION; lia).
  do 9 (eapply reads_field; [typeclasses eauto | exact I | eassumption|]).
  apply (reads_bind _ _ (ps, st)).
  - destruct (negb _); [destruct Hst as [Hs1 Hs2] | destruct Hst as [-> ->]; apply reads_ret]; repeat fields.
  - cbn [fst snd]; repeat fields.
Qed.

(** ** The batch *)

Section Batch.
Context {D : leveldb} {DL : leveldb_laws D}.

(** Scanning the batch is the same as reading after it was applied. *)
Lemma ReadBytes_current db key :
  ReadBytes db key = match activeBatch db with Some b => Get (WriteBatch (pdb db) b) key | None => Get (pdb db) key end.
Proof.
  unfold ReadBytes; destruct (activeBatch db) as [b|]; [|reflexivity]; cbv zeta; rewrite Get_WriteBatch; unfold ScanBatch.
  set (seen d s := (if deleted s then None else if foundEntry s then Some (foundValue s) else Get (pdb db) key) = Get d key).
  enough (Hb : forall d s, seen d s -> seen (fold_left apply_op b d) (fold_left (scan_op key) b s)) by (apply Hb; reflexivity).
  induction b as [|o b IH]; intros d s Hs; [exact Hs|]; cbn [fold_left]; apply IH; unfold seen in *.
  destruct o as [k v|k]; cbn [apply_op scan_op]; rewrite ?Get_Put, ?Get_Delete; destruct (decide (k = key)); auto.
Qed.

(** Storing [x] under [b], or nothing. *)
Record stores (db : TxDb) (b : list Z) (x : option (list Z)) (db' : TxDb) : Prop := {
  stores_mode : fReadOnly db' = false;
  stores_batch : activeBatch db' = None <-> activeBatch db = None;
  stores_read : forall k, ReadBytes db' k = if decide (b = k) then x else ReadBytes db k;
  stores_disk : forall k, Get (pdb db') k = match activeBatch db with Some _ => Get (pdb db) k | None => ReadBytes db' k end
}.

Lemma Write_stores {K T} (ck : codec K) (ct : codec T) db key value : fReadOnly db = false ->
  exists db', Write ck ct db key value = Some db' /\ stores db (enc ck key) (Some (enc ct value)) db'.
Proof.
  destruct db as [d [b|] f]; cbn [fReadOnly]; intros ->; (eexists; split; [reflexivity|]); constructor; cbn [activeBatch pdb fReadOnly];
    try tauto; try (split; congruence); intros k; rewrite ?ReadBytes_current; cbn [activeBatch pdb]; try reflexivity.
  - rewrite !Get_WriteBatch, fold_left_app; cbn [fold_left apply_op]; apply Get_Put.
  - apply Get_Put.
Qed.

Lemma Erase_stores {K} (ck : codec K) db key : fReadOnly db = false ->
  exists db', Erase ck db key = Some db' /\ stores db (enc ck key) None db'.
Proof.
  destruct db as [d [b|] f]; cbn [fReadOnly]; intros ->; (eexists; split; [reflexivity|]); constructor; cbn [activeBatch pdb fReadOnly];
    try tauto; try (split; congruence); intros k; rewrite ?ReadBytes_current; cbn [activeBatch pdb]; try reflexivity.
  - rewrite !Get_WriteBatch, fold_left_app; cbn [fold_left apply_op]; apply Get_Delete.
  - apply Get_Delete.
Qed.

Lemma Exists_bytes {K} (ck : codec K) db key :
  Exists ck db key = match ReadBytes db (enc ck key), Get (pdb db) (enc ck key) with None, None => false | _, _ => true end.
Proof.
  unfold Exists, ReadBytes; destruct (activeBatch db) as [b|]; cbv zeta.
  - set (s := ScanBatch (enc ck key) [] b); destruct (deleted s), (foundEntry s), (Get (pdb db) (enc ck key)); reflexivity.
  - destruct (Get (pdb db) (enc ck key)); reflexivity.
Qed.

End Batch.

(** ** Refinement *)

Section Refinement.
Context {H : hash_lib} {HH : hash_laws H} {L : BN_lib} {HL : BN_laws L} {N : node_env} {D : leveldb} {DL : leveldb_laws D}.

(** A view that differs in one record. *)
Definition replaces (k : db_key) (x : option (list Z)) (f : db_view -> db_view) : Prop :=
  forall v k', view_bytes (f v) k' = if decide (k = k') then x else view_bytes v k'.

Lemma stores_represents db s k x f db' : represents db s -> key_ok k -> stores db (key_bytes k) x db' -> replaces k x f ->
  (forall v, view_ok v -> view_ok (f v)) -> represents db' (txn_set f s).
Proof.
  intros [Rm Rd Rv Rb [Ro Ro']] Hk [Sm Sb Sr Sd] Hf Hok.
  assert (Hv : shows (ReadBytes db') (f (txn_view s))).
  { intros k' Hk'; rewrite Sr, Hf; destruct (decide (k = k')) as [<-|Hne]; [now rewrite decide_True|].
    rewrite decide_False by (intros E; apply Hne; now apply key_bytes_inj); now apply Rv. }
  destruct (pending s) as [v|] eqn:Ep; unfold txn_set, txn_view in *; rewrite Ep in *.
  - assert (Hb : exists b, activeBatch db = Some b) by (destruct (activeBatch db); [eauto | destruct Rb as [Rb _]; discriminate (Rb eq_refl)]).
    destruct Hb as [b Eb]; rewrite Eb in Sd; constructor; unfold txn_view; cbn [committed pending]; auto.
    + intros k' Hk'; rewrite Sd; now apply Rd.
    + rewrite Sb, Eb; split; discriminate.
  - destruct Rb as [_ Rb]; rewrite (Rb eq_refl) in Sd; constructor; unfold txn_view; cbn [committed pending]; auto.
    + intros k' Hk'; rewrite Sd; now apply Hv.
    + rewrite Sb, (Rb eq_refl); tauto.
Qed.

Lemma replaces_tx h o : replaces (KTx h) (option_map (enc tx_value) o) (set_tx (partial_alter (fun _ => o) h)).
Proof.
  intros v k'; destruct (decide (KTx h = k')) as [<-|Hne]; [cbn; now rewrite lookup_partial_alter_eq|].
  destruct k'; cbn; try reflexivity; rewrite lookup_partial_alter_ne by congruence; reflexivity.
Qed.

Lemma replaces_index h d : replaces (KIndex h) (Some (enc diskindex_codec (d, h))) (set_index (insert h d)).
Proof.
  intros v k'; destruct (decide (KIndex h = k')) as [<-|Hne]; [cbn; now rewrite lookup_insert_eq|].
  destruct k'; cbn; try reflexivity; rewrite lookup_insert_ne by congruence; reflexivity.
Qed.

Lemma txindex_new_valid p tx : disktxpos_valid p -> tx_valid tx -> txindex_valid (txindex_new p (List.length (vout tx))).
Proof.
  intros Hp (_ & _ & _ & [_ Hl] & _); split; [exact Hp|]; split; cbn [txindex_new vSpent].
  - apply List.Forall_forall; intros q Hq; apply repeat_spec in Hq as ->; unfold disktxpos_valid, urange, inw; cbn; lia.
  - now rewrite repeat_length.
Qed.

Lemma view_ok_insert h x : wf 8 h /\ txindex_valid x -> forall v, view_ok v -> view_ok (set_tx (insert h x) v).
Proof. intros Hx v []; constructor; auto; cbn [view_tx set_tx]; now apply map_Forall_insert_2. Qed.

Lemma view_ok_delete h : forall v, view_ok v -> view_ok (set_tx (delete h) v).
Proof. intros v []; constructor; auto; cbn [view_tx set_tx]; now apply map_Forall_delete. Qed.

Lemma begin_represents db s : represents db s ->
  match TxnBegin db, spec_op OpBegin s with Some db', Some s' => represents db' s' | None, None => True | _, _ => False end.
Proof.
  intros [Rm Rd Rv Rb Ro]; unfold TxnBegin; cbn [spec_op]; destruct (activeBatch db) as [b|] eqn:Eb, (pending s) as [v|] eqn:Ep; auto.
  - now destruct Rb as [_ Rb]; specialize (Rb eq_refl).
  - now destruct Rb as [Rb _]; specialize (Rb eq_refl).
  - constructor; unfold txn_view in *; cbn [committed pending fReadOnly pdb activeBatch]; auto; [split; discriminate | tauto].
Qed.

Lemma commit_represents db s : represents db s ->
  match TxnCommit db, spec_op OpCommit s with Some db', Some s' => represents db' s' | None, None => True | _, _ => False end.
Proof.
  intros [Rm Rd Rv Rb Ro]; unfold TxnCommit; cbn [spec_op]; destruct (activeBatch db) as [b|] eqn:Eb, (pending s) as [v|] eqn:Ep; auto.
  - unfold txn_view in *; rewrite Ep in *.
    assert (Hs : shows (Get (WriteBatch (pdb db) b)) v) by (intros k Hk; rewrite <- (Rv k Hk), ReadBytes_current, Eb; reflexivity).
    constructor; unfold txn_view; cbn [committed pending fReadOnly pdb activeBatch]; auto; tauto.
  - now destruct Rb as [_ Rb]; specialize (Rb eq_refl).
  - now destruct Rb as [Rb _]; specialize (Rb eq_refl).
Qed.

Lemma abort_represents db s : represents db s -> represents (TxnAbort db) (Txn (committed s) None).
Proof. intros [Rm Rd Rv Rb Ro]; constructor; unfold txn_view; cbn [committed pending fReadOnly pdb activeBatch TxnAbort]; auto; tauto. Qed.

(** One operation. *)
Lemma exec_refines o db s : represents db s -> op_ok o ->
  match exec_op o db, spec_op o s with
  | Some db', Some s' => represents db' s'
  | None, None => True
  | _, _ => False
  end.
Proof.
  intros HR Ho; pose proof (rep_mode _ _ HR) as Hm.
  assert (Hset : forall K T (ck : codec K) (ct : codec T) key value k f, enc ck key = key_bytes k -> key_ok k ->
    replaces k (Some (enc ct value)) f -> (forall v, view_ok v -> view_ok (f v)) ->
    match Write ck ct db key value with Some db' => represents db' (txn_set f s) | None => False end).
  { intros K T ck ct key value k f Ek Hk Hf Hok; destruct (Write_stores ck ct db key value Hm) as (db' & -> & Hst).
    rewrite Ek in Hst; exact (stores_represents _ _ _ _ _ _ HR Hk Hst Hf Hok). }
  destruct o; cbn [exec_op spec_op op_ok] in *.
  - apply (Hset _ _ _ _ _ _ (KTx hash)); [reflexivity | apply Ho | apply (replaces_tx hash (Some x)) | now apply view_ok_insert].
  - destruct Ho as [Hp Hv]; pose proof (tx_hash_wf _ Hv) as Hh.
    apply (Hset _ _ _ _ _ _ (KTx (tx_GetHash tx))); [reflexivity | exact Hh | apply (replaces_tx _ (Some _))|].
    apply view_ok_insert; split; [exact Hh | now apply txindex_new_valid].
  - destruct (Erase_stores hash_key db (bytes_of "tx", tx_GetHash tx) Hm) as (db' & E & Hst); unfold EraseTxIndex; rewrite E.
    apply (stores_represents db s (KTx (tx_GetHash tx)) None); [exact HR | now apply tx_hash_wf | exact Hst | apply (replaces_tx _ None) | apply view_ok_delete].
  - apply (Hset _ _ _ _ _ _ (KIndex (disk_GetBlockHash d))); [reflexivity | exact Ho | apply replaces_index | now intros v []].
  - apply (Hset _ _ _ _ _ _ KBest); [reflexivity | exact I | now intros v [] | intros v []; constructor; auto; now intros a [= <-]].
  - apply (Hset _ _ _ _ _ _ KInvalid); [reflexivity | exact I | now intros v [] | intros v []; constructor; auto; now intros a [= <-]].
  - apply (Hset _ _ _ _ _ _ KSync); [reflexivity | exact I | now intros v [] | intros v []; constructor; auto; now intros a [= <-]].
  - apply (Hset _ _ _ _ _ _ KPubKey); [reflexivity | exact I | now intros v [] | intros v []; constructor; auto; now intros a [= <-]].
  - apply (Hset _ _ _ _ _ _ KVersion); [reflexivity | exact I | now intros v [] | intros v []; constructor; auto; now intros a [= <-]].
  - now apply begin_represents.
  - now apply commit_represents.
  - now apply abort_represents.
Qed.

(** What is read back. *)
Lemma read_value {K T} (ck : codec K) (ct : codec T) (valid : T -> Prop) (Hc : codec_ok ct anyv valid) db key old k o :
  enc ck key = key_bytes k -> key_ok k -> ReadBytes db (key_bytes k) = option_map (enc ct) o -> opt_ok valid o ->
  (forall a, valid a -> size_of (enc ct a) < 2 ^ 31) -> Read ck ct db key old = o.
Proof.
  intros Ek Hk E Ho Hs; unfold Read; rewrite Ek, E; destruct o as [a|]; [|reflexivity]; cbn [option_map].
  specialize (Ho a eq_refl); apply (decoded ct anyv valid Hc); auto; exact I.
Qed.

Record reads_agree (db : TxDb) (v : db_view) : Prop := {
  agree_tx h : wf 8 h -> ReadTxIndex db h = view_tx v !! h;
  agree_best old : ReadHashBestChain db old = view_best v;
  agree_invalid old : ReadBestInvalidTrust db old = view_invalid v;
  agree_sync old : ReadSyncCheckpoint db old = view_sync v;
  agree_pubkey old : ReadCheckpointPubKey db old = view_pubkey v;
  agree_version : ReadVersion db = view_version v
}.

Lemma size_hash h : wf 8 h -> size_of (enc hash_codec h) < 2 ^ 31.
Proof. intros Hh; cbn [enc hash_codec base_uint_codec]; rewrite (size_uint_bytes 8 h Hh); reflexivity. Qed.

Lemma size_short v : short_bytes v -> size_of (WriteCompactSize (size_of v) ++ v) < 2 ^ 31.
Proof.
  intros [_ Hs]; rewrite size_of_app; pose proof (size_of_nonneg v); pose proof (compact_short (size_of v)); unfold MAX_SIZE in Hs; lia.
Qed.

Lemma represents_reads db s : represents db s -> reads_agree db (txn_view s).
Proof.
  intros [_ _ Rv _ [_ [Ht Hb Hi Hs Hp Hn]]]; constructor; intros.
  - apply (read_value _ _ txindex_valid tx_value_ok db _ _ (KTx h)); [reflexivity | assumption | now apply (Rv (KTx h)) | | apply size_txindex].
    intros x Ex; exact (proj2 (Ht _ _ Ex)).
  - apply (read_value _ _ (wf 8) hash_ok db _ _ KBest); [reflexivity | exact I | apply (Rv KBest); exact I | assumption | apply size_hash].
  - apply (read_value _ _ trust_ok bignum_ok db _ _ KInvalid); [reflexivity | exact I | apply (Rv KInvalid); exact I | assumption|].
    intros z Hz; now apply size_short, getvch_trust.
  - apply (read_value _ _ (wf 8) hash_ok db _ _ KSync); [reflexivity | exact I | apply (Rv KSync); exact I | assumption | apply size_hash].
  - apply (read_value _ _ short_bytes string_codec_ok db _ _ KPubKey); [reflexivity | exact I | apply (Rv KPubKey); exact I | assumption | apply size_short].
  - apply (read_value _ _ (srange 4) i4_ok db _ _ KVersion); [reflexivity | exact I | apply (Rv KVersion); exact I | assumption|].
    intros z _; cbn [enc sint_codec]; rewrite size_write_int; reflexivity.
Qed.

Lemma contains_exact db s h : wf 8 h -> represents db s ->
  ContainsTx db h = true <-> ReadTxIndex db h <> None \/ view_tx (committed s) !! h <> None.
Proof.
  intros Hh HR; rewrite (agree_tx _ _ (represents_reads _ _ HR) h Hh); unfold ContainsTx; rewrite Exists_bytes.
  change (enc hash_key (bytes_of "tx", h)) with (key_bytes (KTx h)); rewrite (rep_view _ _ HR (KTx h) Hh), (rep_disk _ _ HR (KTx h) Hh).
  cbn [view_bytes]; destruct (view_tx (txn_view s) !! h), (view_tx (committed s) !! h); cbn; intuition congruence.
Qed.

Lemma run_ops_cons {S} (step : db_op -> S -> option S) o ops s :
  run_ops step (o :: ops) s = match step o s with Some s' => run_ops step ops s' | None => None end.
Proof.
  unfold run_ops; cbn [fold_left]; destruct (step o s); [reflexivity|]; induction ops as [|o' ops IH]; [reflexivity | exact IH].
Qed.

Lemma run_refines ops db s : represents db s -> Forall op_ok ops ->
  match run_ops exec_op ops db, run_ops spec_op ops s with
  | Some db', Some s' => represents db' s'
  | None, None => True
  | _, _ => False
  end.
Proof.
  intros HR Ho; revert db s HR; induction Ho as [|o ops Ho Hops IH]; intros db s HR; [exact HR|]; rewrite !run_ops_cons.
  pose proof (exec_refines o db s HR Ho) as He; destruct (exec_op o db), (spec_op o s); try contradiction; [now apply IH | exact I].
Qed.

End Refinement.

Section Transactions.
Context {H : hash_lib} {HH : hash_laws H} {L : BN_lib} {HL : BN_laws L} {N : node_env} {D : leveldb} {DL : leveldb_laws D}.

(** C5: [CTxDB] is a transactional store of typed records.  Any sequence of
    writes, erasures, begins, commits and aborts fails an assertion exactly
    where the specification does (a transaction begun twice, or a commit without one), and
    otherwise keeps the bytes on disk and those of the open
    transaction in step with two views: reads see the writes of the open
    transaction in order, a commit makes them the contents on disk and an abort
    forgets them. *)
Theorem txdb_refines (ops : list db_op) (db : TxDb) (s : txn_state) :
  represents db s -> Forall op_ok ops ->
  match run_ops exec_op ops db, run_ops spec_op ops s with
  | Some db', Some s' => represents db' s' /\ reads_agree db' (txn_view s') /\ reads_agree (TxnAbort db') (committed s')
  | None, None => True
  | _, _ => False
  end.
Proof.
  intros HR Ho; pose proof (run_refines ops db s HR Ho) as Hr; destruct (run_ops exec_op ops db), (run_ops spec_op ops s); auto.
  split; [exact Hr|]; split; [now apply represents_reads | apply (represents_reads _ _ (abort_represents _ _ Hr))].
Qed.

(** C0: [ContainsTx] is not consistent with an open transaction.  Without one
    it says whether [ReadTxIndex] finds an entry; an entry
    that is on disk and was erased in the open transaction is not
    found by [ReadTxIndex], and still contained. *)
Theorem contains_tx_stale (db : TxDb) (s : txn_state) (tx : CTransaction) :
  represents db s -> tx_valid tx ->
  (ContainsTx db (tx_GetHash tx) = true <->
     ReadTxIndex db (tx_GetHash tx) <> None \/ view_tx (committed s) !! tx_GetHash tx <> None)
  /\ (activeBatch db = None -> (ContainsTx db (tx_GetHash tx) = true <-> ReadTxIndex db (tx_GetHash tx) <> None))
  /\ exists db', EraseTxIndex db tx = Some db' /\ ReadTxIndex db' (tx_GetHash tx) = None
       /\ (activeBatch db <> None -> view_tx (committed s) !! tx_GetHash tx <> None -> ContainsTx db' (tx_GetHash tx) = true).
Proof.
  intros HR Ht; pose proof (tx_hash_wf tx Ht) as Hh.
  assert (Hc : forall d t, represents d t -> ContainsTx d (tx_GetHash tx) = true <->
    ReadTxIndex d (tx_GetHash tx) <> None \/ view_tx (committed t) !! tx_GetHash tx <> None) by (intros d t; now apply contains_exact).
  split; [exact (Hc db s HR)|]; split.
  - intros Hb; rewrite (Hc db s HR), (agree_tx _ _ (represents_reads _ _ HR) _ Hh).
    apply (rep_batch _ _ HR) in Hb; unfold txn_view; rewrite Hb; tauto.
  - pose proof (exec_refines (OpEraseTx tx) db s HR Ht) as He; cbn [exec_op spec_op] in He.
    destruct (EraseTxIndex db tx) as [db'|]; [|contradiction]; exists db'; split; [reflexivity|].
    rewrite (agree_tx _ _ (represents_reads _ _ He) _ Hh), (Hc db' _ He); unfold txn_set, txn_view.
    destruct (pending s) eqn:Ep; cbn [pending committed set_tx view_tx]; rewrite lookup_delete_eq; split; auto.
    intros Hb; exfalso; apply Hb, (rep_batch _ _ HR), Ep.
Qed.

End Transactions.

(** ** Blocks *)

(** The writes of [ConnectBlock], with the queued entries in some order. *)
Section Durable.
Context {H : hash_lib} {HH : hash_laws H} {L : BN_lib} {HL : BN_laws L} {EC : ec_lib} {N : node_env} {D : leveldb} {DL : leveldb_laws D}.

Definition updates (l : list (list Z * CTxIndex)) : list db_op := List.map (fun p => OpUpdateTx (fst p) (snd p)) l.
Definition prev_op (pprev : list CBlockIndex) (hash : list Z) : list db_op :=
  match pprev with
  | [] => []
  | p :: pp => let d := disk_index p pp in [OpWriteIndex (DiskIndex (di_index d) (di_hashPrev d) hash)]
  end.
Definition connect_ops (pindex : CBlockIndex) (pprev : list CBlockIndex) (queued : list (list Z * CTxIndex)) : list db_op :=
  OpWriteIndex (disk_index pindex pprev) :: updates queued ++ prev_op pprev (bi_hash pindex).

(** The contents that Connect works on. *)
Definition view_db (v : db_view) (db : CTxDB) : Prop := view_tx v = db_tx db /\ view_index v = db_index db.

Lemma run_ops_app {S} (step : db_op -> S -> option S) a b s :
  run_ops step (a ++ b) s = match run_ops step a s with Some s' => run_ops step b s' | None => None end.
Proof.
  revert s; induction a as [|o a IH]; intros s; [reflexivity|]; cbn [app]; rewrite !run_ops_cons; destruct (step o s); auto.
Qed.

Lemma run_updates l c v : List.NoDup (List.map fst l) ->
  run_ops spec_op (updates l) (Txn c (Some v)) = Some (Txn c (Some (set_tx (fun t => list_to_map l ∪ t) v))).
Proof.
  intros Hn; revert v; induction l as [|[h x] l IH]; intros v; cbn [updates List.map].
  - cbn; f_equal; f_equal; f_equal; destruct v; unfold set_tx; cbn; now rewrite map_empty_union.
  - cbn [List.map fst] in Hn; apply NoDup_cons_iff in Hn as [Hh Hn]; rewrite run_ops_cons; cbn [spec_op txn_set pending committed fst snd].
    rewrite (IH Hn); f_equal; f_equal; f_equal; unfold set_tx; cbn; f_equal.
    assert (E : (list_to_map l : tx_map) !! h = None) by (apply not_elem_of_list_to_map_1; intros Hi; apply Hh; now apply list_elem_of_In).
    rewrite <- insert_union_l; symmetry; now apply insert_union_r.
Qed.

Lemma run_connect (c v : db_view) (pindex : CBlockIndex) (pprev : list CBlockIndex) (l : list (list Z * CTxIndex)) (queued : tx_map) : l ≡ₚ map_to_list queued ->
  exists v', run_ops spec_op (connect_ops pindex pprev l) (Txn c (Some v)) = Some (Txn c (Some v'))
    /\ view_tx v' = queued ∪ view_tx v
    /\ view_index v' = db_index (write_prev (WriteBlockIndex (TxDB (view_tx v) (view_index v) null_hash None) (disk_index pindex pprev)) pprev (bi_hash pindex)).
Proof.
  intros Hl; unfold connect_ops; rewrite run_ops_cons; cbn [spec_op txn_set pending committed]; rewrite run_ops_app, run_updates.
  - rewrite (list_to_map_proper l (map_to_list queued)), list_to_map_to_list; [|rewrite Hl; apply NoDup_fst_map_to_list | exact Hl].
    destruct pprev as [|p pp]; eexists; (split; [reflexivity|]); split; reflexivity.
  - apply NoDup_ListNoDup; change (List.map fst l) with (l.*1); rewrite Hl; apply NoDup_fst_map_to_list.
Qed.
(** *** The entries stay in the ranges of their types *)

Definition map_valid (v : tx_map) : Prop := map_Forall (fun h x => wf 8 h /\ txindex_valid x) v.

Lemma mark_one_valid p v i : disktxpos_valid p -> 0 <= op_n (prevout i) -> unspent v i -> map_valid v -> map_valid (mark_one p v i).
Proof.
  intros Hp Hn (x & Ex & Hr & _) Hv h y Ey; unfold mark_one in Ey; destruct (decide (op_hash (prevout i) = h)) as [<-|Hne].
  - rewrite lookup_alter_eq, Ex in Ey; injection Ey as <-; destruct (Hv _ _ Ex) as [Hh [Hq [Hf Hl]]]; split; [exact Hh|].
    split; [exact Hq|]; split; [now apply Forall_set | now rewrite length_set_spent by lia].
  - rewrite lookup_alter_ne in Ey by assumption; now apply Hv.
Qed.

Lemma mark_valid p ins v : disktxpos_valid p -> Forall (fun i => 0 <= op_n (prevout i)) ins -> spendable p ins v -> map_valid v ->
  map_valid (mark p ins v).
Proof.
  intros Hp Hn; revert v; induction Hn as [|i ins Hi Hn IH]; intros v Hs Hv; [exact Hv|]; destruct Hs as [Hu Hs].
  apply (IH _ Hs); now apply mark_one_valid.
Qed.

Lemma effect_valid p tx v : disktxpos_valid p -> tx_valid tx -> spendable p (spends tx) v -> map_valid v -> map_valid (tx_effect p tx v).
Proof.
  intros Hp Ht Hs Hv; rewrite tx_effect_mark; apply map_Forall_insert_2; [split; [now apply tx_hash_wf | now apply txindex_new_valid]|].
  apply mark_valid; auto; unfold spends; destruct (IsCoinBase tx); [constructor | now apply tx_valid_unsigned].
Qed.

Lemma connect_txs_valid db pindex pprev txs c c' : urange 4 (bi_nFile pindex) -> urange 4 (bi_nBlockPos pindex) -> Forall tx_valid txs ->
  connect_txs db pindex pprev false txs c = Done c' -> urange 4 (c_nTxPos c) -> map_valid (c_queued c ∪ db) -> map_valid (c_queued c' ∪ db).
Proof.
  intros Hf Hb Ht; revert c; induction Ht as [|tx txs Htx Ht IH]; intros c E Hp Hv; cbn [connect_txs] in E; [now injection E as <-|].
  apply obind_done in E as (c1 & E1 & E); destruct (connect_tx_step _ _ _ _ _ _ _ (tx_valid_unsigned _ Htx) E1) as (inputs & Hs).
  apply (IH c1 E).
  - rewrite (step_pos _ _ _ _ _ _ _ _ Hs), u32_mod; apply Z.mod_pos_bound; lia.
  - rewrite (step_view _ _ _ _ _ _ _ _ Hs); apply effect_valid; auto; [|eapply step_spendable; exact Hs].
    split; [exact Hf | split; [exact Hb | exact Hp]].
Qed.

Lemma disk_hash_wf d : (forall bs, wf 8 (Hash9 bs)) -> wf 8 (disk_GetBlockHash d).
Proof.
  intros H9; unfold disk_GetBlockHash, block_GetHash; destruct (_ <? _); [|apply H9]; apply Hash_wf; unfold header_bytes, block_codec.
  cbn [enc header_only uint_codec sint_codec hash_codec base_uint_codec]; change (header_only SER_GETHASH) with true; cbv iota.
  repeat apply words_app; try apply le_split_bytes; try apply uint_bytes_words; constructor.
Qed.

Lemma connect_ops_ok (pindex : CBlockIndex) (pprev : list CBlockIndex) (l : list (list Z * CTxIndex)) (queued : tx_map) : (forall bs, wf 8 (Hash9 bs)) -> map_valid queued ->
  l ≡ₚ map_to_list queued -> Forall op_ok (connect_ops pindex pprev l).
Proof.
  intros H9 Hq Hl; unfold connect_ops; constructor; [now apply disk_hash_wf|]; rewrite Forall_app; split.
  - apply List.Forall_forall; intros o Ho; apply in_map_iff in Ho as ([h x] & <- & Hi); apply (Hq h x).
    apply elem_of_map_to_list; rewrite <- Hl; now apply list_elem_of_In.
  - destruct pprev; repeat constructor; now apply disk_hash_wf.
Qed.

(** A transaction that is not committed does not change what is on disk. *)
Lemma run_uncommitted ops c v : Forall (fun o => o <> OpBegin /\ o <> OpCommit /\ o <> OpAbort) ops ->
  exists v', run_ops spec_op ops (Txn c (Some v)) = Some (Txn c (Some v')).
Proof.
  intros Ho; revert v; induction Ho as [|o ops (H1 & H2 & H3) Ho IH]; intros v; [exists v; reflexivity|]; rewrite run_ops_cons.
  destruct o; try congruence; apply IH.
Qed.

Lemma connect_ops_writes pindex pprev l : Forall (fun o => o <> OpBegin /\ o <> OpCommit /\ o <> OpAbort) (connect_ops pindex pprev l).
Proof.
  unfold connect_ops; constructor; [repeat split; discriminate|]; rewrite Forall_app; split.
  - apply List.Forall_forall; intros o Ho; apply in_map_iff in Ho as (p & <- & _); repeat split; discriminate.
  - destruct pprev; repeat constructor; discriminate.
Qed.

(** C8: Connecting a block is atomic on disk.  The byte store holds the
    contents that [ConnectBlock] works on; when the block connects, beginning a
    transaction, writing the entries in any order of the queue and the best
    hash, and committing leaves a store with exactly the contents that
    [ConnectBlock] computed, and reading a transaction index finds
    them.  At every point before the commit the disk holds the old contents,
    and aborting restores them. *)
Theorem connect_block_durable (st : TxDb) (v : db_view) (db db' : CTxDB) (b : CBlock) (pindex pindex' : CBlockIndex)
    (pprev : list CBlockIndex) (m m' : turbo_map) (hash : list Z) :
  represents st (Txn v None) -> view_db v db -> (forall bs, wf 8 (Hash9 bs)) -> block_valid SER_NETWORK b ->
  urange 4 (bi_nFile pindex) -> urange 4 (bi_nBlockPos pindex) -> wf 8 hash ->
  ConnectBlock db b pindex pprev false m = (Done (db', pindex'), m') ->
  exists queued : tx_map, db_tx db' = queued ∪ db_tx db
    /\ forall l, l ≡ₚ map_to_list queued ->
       let ops := connect_ops pindex' pprev l in
       (exists st' v', run_ops exec_op (OpBegin :: ops ++ [OpWriteBest hash; OpCommit]) st = Some st'
          /\ represents st' (Txn v' None) /\ view_db v' db' /\ view_best v' = Some hash
          /\ forall h, wf 8 h -> ReadTxIndex st' h = db_tx db' !! h)
       /\ (forall before after, ops = before ++ after ->
             exists st', run_ops exec_op (OpBegin :: before) st = Some st' /\ shows (Get (pdb st')) v /\ represents (TxnAbort st') (Txn v None)).
Proof.
  intros HR [Et Ei] H9 Hb Hf Hp Hh E; destruct (ConnectBlock_connected _ _ _ _ _ _ _ _ _ E) as (c & Hc).
  pose proof (connected_view _ _ _ _ _ _ _ _ _ Hc) as Ev; exists (c_queued c); split; [exact Ev|]; intros l Hl ops.
  pose proof Hb as (_ & _ & _ & _ & _ & _ & [Htx _] & _).
  assert (Hq : map_valid (c_queued c)).
  { intros h x Ex; eapply (connect_txs_valid _ _ _ _ _ _ Hf Hp Htx (bc_txs _ _ _ _ _ _ _ _ _ _ Hc)).
    - cbn [c_nTxPos]; unfold first_pos; rewrite u32_mod; apply Z.mod_pos_bound; lia.
    - cbn [c_queued]; rewrite map_empty_union, <- Et; apply (ok_tx _ (proj1 (rep_ok _ _ HR))).
    - now apply lookup_union_Some_l. }
  pose proof (connect_ops_ok pindex' pprev l _ H9 Hq Hl) as Hok; fold ops in Hok; split.
  - destruct (run_connect v v pindex' pprev l (c_queued c) Hl) as (w & Ew & Ewt & Ewi); fold ops in Ew.
    pose proof (run_refines (OpBegin :: ops ++ [OpWriteBest hash; OpCommit]) st (Txn v None) HR) as Hr.
    rewrite (run_ops_cons spec_op) in Hr; cbn [spec_op pending committed] in Hr; rewrite run_ops_app, Ew in Hr.
    destruct (run_ops exec_op _ st) as [st'|]; [|exfalso; apply Hr; constructor; [exact I|]; apply Forall_app; split; [exact Hok | repeat constructor; apply Hh]].
    exists st', (set_best hash w); split; [reflexivity|].
    assert (Hr' : represents st' (Txn (set_best hash w) None)).
    { apply Hr; constructor; [exact I|]; apply Forall_app; split; [exact Hok | repeat constructor; apply Hh]. }
    assert (Hv : view_db (set_best hash w) db').
    { split; cbn [view_tx view_index set_best]; [now rewrite Ewt, Ev, Et | rewrite Ewi, (bc_db _ _ _ _ _ _ _ _ _ _ Hc); cbv zeta].
      destruct pprev; cbn; now rewrite Ei. }
    split; [exact Hr'|]; split; [exact Hv|]; split; [reflexivity|]; intros h Hw.
    now rewrite (agree_tx _ _ (represents_reads _ _ Hr') h Hw), <- (proj1 Hv).
  - intros before after Eo; destruct (run_uncommitted before v v) as (w & Ew).
    { pose proof (connect_ops_writes pindex' pprev l) as Hw; fold ops in Hw; rewrite Eo, Forall_app in Hw; tauto. }
    pose proof (run_refines (OpBegin :: before) st (Txn v None) HR) as Hr; rewrite (run_ops_cons spec_op) in Hr; cbn [spec_op pending committed] in Hr.
    rewrite Ew in Hr; rewrite Eo, Forall_app in Hok.
    destruct (run_ops exec_op _ st) as [st'|]; [|exfalso; apply Hr; constructor; [exact I | tauto]].
    exists st'; split; [reflexivity|]; assert (Hr' : represents st' (Txn v (Some w))) by (apply Hr; constructor; [exact I | tauto]).
    split; [exact (rep_disk _ _ Hr') | exact (abort_represents _ _ Hr')].
Qed.
End Durable.

(** ** A store *)

(** LevelDB as a finite map. *)
#[export] Instance map_leveldb : leveldb := {|
  level_store := gmap (list Z) (list Z);
  Get d k := d !! k;
  Put d k v := <[k := v]> d;
  Delete d k := delete k d;
  WriteBatch d b := fold_left (fun d o => match o with BatchPut k v => <[k := v]> d | BatchDelete k => delete k d end) b d
|}.

#[export] Instance map_leveldb_laws : leveldb_laws map_leveldb.
Proof.
  split.
  - intros d k v k'; cbn; destruct (decide (k = k')) as [<-|Hne]; [apply lookup_insert_eq | now apply lookup_insert_ne].
  - intros d k k'; cbn; destruct (decide (k = k')) as [<-|Hne]; [apply lookup_delete_eq | now apply lookup_delete_ne].
  - reflexivity.
Qed.

Definition empty_view : db_view := View ∅ ∅ None None None None None.
Definition empty_db : TxDb := MkTxDb (∅ : level_store (leveldb := map_leveldb)) None false.

Section Samples.
Context {H : hash_lib} {L : BN_lib} {N : node_env}.

Lemma empty_represents : represents empty_db (Txn empty_view None).
Proof.
  constructor; try reflexivity; try (intros k Hk; destruct k; reflexivity); try tauto.
  split; constructor; try (intros a [=]); apply map_Forall_empty.
Qed.

End Samples.

Definition coins_index : CTxIndex := txindex_new (DiskTxPos 1 100 200) 2.
Definition sample_node : node_env := sample_env (work_block [spend_both]).

Lemma two_coins_valid : tx_valid two_coins.
Proof. unfold two_coins; valid_dec; discriminate. Qed.

Lemma coins_op_ok : op_ok (H := toy_hash) (N := sample_node) (OpAddTx two_coins (DiskTxPos 1 100 200)).
Proof. split; [unfold disktxpos_valid, urange, inw; cbn; lia | exact two_coins_valid]. Qed.

Definition exec_sample (ops : list db_op) (db : TxDb) : TxDb :=
  match run_ops (exec_op (H := toy_hash) (L := BN_ideal) (N := sample_node)) ops db with Some d => d | None => db end.
Definition add_coins : list db_op := [OpAddTx two_coins (DiskTxPos 1 100 200)].
Definition coins_store : TxDb := exec_sample add_coins empty_db.
Definition coins_view : db_view := set_tx (fun _ => coins_db) empty_view.

(** A transaction is committed and another one aborted. *)
Definition erase_coins : list db_op := OpBegin :: add_coins ++ [OpCommit; OpBegin; OpEraseTx two_coins].

Lemma erase_coins_ok : Forall (op_ok (H := toy_hash) (N := sample_node)) erase_coins.
Proof. repeat constructor; first [apply coins_op_ok | apply two_coins_valid]. Qed.

Lemma coins_hash_wf : wf 8 coins_hash.
Proof. exact (tx_hash_wf (H := toy_hash) two_coins two_coins_valid). Qed.

Lemma txdb_refines_witness :
  ReadTxIndex (exec_sample erase_coins empty_db) coins_hash = None
  /\ ReadTxIndex (TxnAbort (exec_sample erase_coins empty_db)) coins_hash = Some coins_index.
Proof.
  pose proof (txdb_refines (H := toy_hash) (L := BN_ideal) (N := sample_node) erase_coins empty_db (Txn empty_view None)
    empty_represents erase_coins_ok) as Hr.
  change (run_ops (spec_op (H := toy_hash) (N := sample_node)) erase_coins (Txn empty_view None)) with
    (Some (Txn (set_tx (insert coins_hash coins_index) empty_view) (Some (set_tx (delete coins_hash) (set_tx (insert coins_hash coins_index) empty_view))))) in Hr.
  unfold exec_sample; destruct (run_ops _ erase_coins empty_db) as [db'|]; [|contradiction]; destruct Hr as (_ & R1 & R2).
  rewrite (agree_tx _ _ R1 _ coins_hash_wf), (agree_tx _ _ R2 _ coins_hash_wf); cbn [txn_view pending committed set_tx view_tx].
  split; [apply lookup_delete_eq | apply lookup_insert_eq].
Defined.

Lemma coins_represents : represents (L := BN_ideal) coins_store (Txn coins_view None).
Proof.
  pose proof (run_refines (H := toy_hash) (L := BN_ideal) (N := sample_node) add_coins empty_db (Txn empty_view None) empty_represents) as Hr.
  change (run_ops (spec_op (H := toy_hash) (N := sample_node)) add_coins (Txn empty_view None)) with (Some (Txn (set_tx (insert coins_hash coins_index) empty_view) None)) in Hr.
  unfold coins_store, exec_sample; destruct (run_ops _ add_coins empty_db) as [db'|]; [|exfalso; apply Hr; repeat constructor; apply coins_op_ok].
  apply Hr; repeat constructor; apply coins_op_ok.
Qed.

(** The entry of the coins is erased in a transaction, and is still contained. *)
Definition coins_txn : TxDb := match TxnBegin coins_store with Some d => d | None => coins_store end.

Lemma contains_tx_stale_witness : exists db', EraseTxIndex (H := toy_hash) coins_txn two_coins = Some db'
  /\ ReadTxIndex db' coins_hash = None /\ ContainsTx db' coins_hash = true.
Proof.
  assert (HR : represents (L := BN_ideal) coins_txn (Txn coins_view (Some coins_view))).
  { exact (begin_represents (L := BN_ideal) (N := sample_node) _ _ coins_represents). }
  destruct (contains_tx_stale (H := toy_hash) (L := BN_ideal) (N := sample_node) coins_txn _ two_coins HR two_coins_valid) as (_ & _ & db' & E & E1 & E2).
  exists db'; split; [exact E|]; split; [exact E1|]; apply E2; [discriminate|].
  cbn [committed coins_view set_tx view_tx]; unfold coins_db, coins_hash; rewrite lookup_singleton_eq; discriminate.
Defined.

Lemma connect_block_durable_witness :
  exists st', represents (L := BN_ideal) coins_store (Txn coins_view None)
    /\ ReadTxIndex st' coins_hash = db_tx (fst (sample_after [spend_both])) !! coins_hash.
Proof.
  destruct (connect_block_durable (H := toy_hash) (L := BN_ideal) (EC := toy_ec) (N := sample_node) coins_store coins_view
    sample_db (fst (sample_after [spend_both])) (work_block [spend_both]) work_index (snd (sample_after [spend_both])) [] [] [] null_hash)
    as (q & _ & Hq).
  - exact coins_represents.
  - now split.
  - intros bs; now split; [|repeat constructor].
  - exact sample_valid.
  - unfold urange, inw; cbn; lia.
  - unfold urange, inw; cbn; lia.
  - now split; [|repeat constructor].
  - rewrite <- surjective_pairing; exact sample_connects.
  - destruct (Hq _ (reflexivity (map_to_list q))) as [(st' & v' & _ & _ & _ & _ & Hr) _]; exists st'; split; [exact coins_represents|].
    exact (Hr coins_hash coins_hash_wf).
Defined.
