(* ===== verification/Mempool.v ===== *)
(** * Mempool: transactions outside blocks (main.cpp, main.h)

    [CTxMemPool] with the checks of [accept], the removal of transactions, of
    their descendants and of conflicts, and the store of orphan transactions.
    [mapNextTx] points into [mapTx]: the address of an entry is modelled by
    its key, and following it fails when the entry is gone. *)

From Stdlib Require Import ZArith List Lia Bool Relation_Operators.
From stdpp Require Import gmap list.
From S2P Require Import Prelude SphTypes Uint256 Merkle Serialize Transaction BigNum Script Interp SigHash BlockIndex.
From S2P Require Import Stake Difficulty Kernel Subsidy Inputs CheckBlock Connect.
Import ListNotations.

Open Scope Z_scope.

#[export] Instance outpoint_eq_dec : EqDecision COutPoint.
Proof. solve_decision. Defined.

#[export] Instance outpoint_countable : Countable COutPoint.
Proof.
  refine (inj_countable' (fun o => (op_hash o, op_n o)) (fun p => OutPoint (fst p) (snd p)) _); intros [h n]; reflexivity.
Defined.

Record CInPoint := InPoint { ip_ptx : list Z; ip_n : Z }.

Abbreviation tx_pool := (gmap (list Z) CTransaction).
Abbreviation next_map := (gmap COutPoint CInPoint).

Record CTxMemPool := MemPool { mapTx : tx_pool; mapNextTx : next_map; nTransactionsUpdated : Z }.

(** [operator==]: the product type is not compared. *)
#[export] Instance txin_eq_dec : EqDecision CTxIn.
Proof. solve_decision. Defined.
#[export] Instance txout_eq_dec : EqDecision CTxOut.
Proof. solve_decision. Defined.

Definition tx_eq (a b : CTransaction) : bool :=
  let same := bool_decide (tx_nVersion a = tx_nVersion b) && bool_decide (tx_nTime a = tx_nTime b) && bool_decide (vin a = vin b)
              && bool_decide (vout a = vout b) && bool_decide (nLockTime a = nLockTime b) in
  if 2 <=? tx_nVersion a then same && bool_decide (strTxComment a = strTxComment b) else same.

(** ** Standard transactions *)

Definition CURRENT_VERSION : Z := 2.

Definition standard_input (fEnforceCanonical : bool) (txin : CTxIn) : bool :=
  if 500 <? size_of (scriptSig txin) then false
  else if negb (IsPushOnly (scriptSig txin)) then false
  else negb (fEnforceCanonical && negb (HasCanonicalPushes (scriptSig txin))).

(** The loop over the outputs: the numbers of data and of other outputs. *)
Fixpoint standard_outputs (fEnforceCanonical : bool) (outs : list CTxOut) (nDataOut nTxnOut : Z) : option (Z * Z) :=
  match outs with
  | [] => Some (nDataOut, nTxnOut)
  | txout :: outs =>
      if negb (IsStandard (scriptPubKey txout)) then None
      else
        let '(_, whichType, _) := Solver (scriptPubKey txout) in
        let data := match whichType with TX_NULL_DATA => true | _ => false end in
        if negb data && (nValue txout =? 0) then None
        else if fEnforceCanonical && negb (HasCanonicalPushes (scriptPubKey txout)) then None
        else if data then standard_outputs fEnforceCanonical outs (nDataOut + 1) nTxnOut
        else standard_outputs fEnforceCanonical outs nDataOut (nTxnOut + 1)
  end.

Definition tx_IsStandard (fEnforceCanonical : bool) (tx : CTransaction) : bool :=
  if CURRENT_VERSION <? tx_nVersion tx then false
  else if MAX_TX_COMMENT_LEN <? u32 (size_of (strTxComment tx)) then false
  else if negb (forallb (standard_input fEnforceCanonical) (vin tx)) then false
  else match standard_outputs fEnforceCanonical (vout tx) 0 0 with
       | None => false
       | Some (nDataOut, nTxnOut) => negb (nTxnOut <? nDataOut)
       end.

Section Mempool.
Context {H : hash_lib} {L : BN_lib} {EC : ec_lib} {N : node_env}.

(** One input of [AreInputsStandard]; [None] is an exception. *)
Definition input_standard (tx : CTransaction) (mapInputs : MapPrevTx) (i : nat) (txin : CTxIn) : option bool :=
  match GetOutputFor txin mapInputs with
  | None => None
  | Some prev =>
      let '(ok, whichType, vSolutions) := Solver (scriptPubKey prev) in
      Some (
        if negb ok then false
        else
          let nArgsExpected := ScriptSigArgsExpected whichType vSolutions in
          if nArgsExpected <? 0 then false
          else match EvalScript (CheckSig_nocache tx i 0) [] (scriptSig txin) with
          | None => false
          | Some stack =>
              match whichType with
              | TX_SCRIPTHASH =>
                  match stack with
                  | [] => false
                  | subscript :: _ =>
                      let '(ok2, whichType2, vSolutions2) := Solver subscript in
                      if negb ok2 then false
                      else match whichType2 with
                      | TX_SCRIPTHASH => false
                      | _ =>
                          let tmpExpected := ScriptSigArgsExpected whichType2 vSolutions2 in
                          if tmpExpected <? 0 then false else zlen stack =? nArgsExpected + tmpExpected
                      end
                  end
              | _ => zlen stack =? nArgsExpected
              end
          end)
  end.

Fixpoint inputs_standard (tx : CTransaction) (mapInputs : MapPrevTx) (i : nat) (ins : list CTxIn) : option bool :=
  match ins with
  | [] => Some true
  | txin :: ins =>
      match input_standard tx mapInputs i txin with
      | None => None
      | Some false => Some false
      | Some true => inputs_standard tx mapInputs (S i) ins
      end
  end.

Definition AreInputsStandard (tx : CTransaction) (mapInputs : MapPrevTx) : option bool :=
  if IsCoinBase tx then Some true else inputs_standard tx mapInputs 0 (vin tx).

(** ** The pool *)

(** [mapNextTx[tx.vin[i].prevout] = CInPoint(&mapTx[hash], i)], for the inputs
    from [i] on. *)
Fixpoint add_inputs (hash : list Z) (i : Z) (ins : list CTxIn) (m : next_map) : next_map :=
  match ins with
  | [] => m
  | txin :: ins => add_inputs hash (i + 1) ins (<[prevout txin := InPoint hash i]> m)
  end.

Definition addUnchecked (p : CTxMemPool) (hash : list Z) (tx : CTransaction) : CTxMemPool :=
  MemPool (<[hash := tx]> (mapTx p)) (add_inputs hash 0 (vin tx) (mapNextTx p)) (u32 (nTransactionsUpdated p + 1)).

(** The end of [remove]: the inputs and the entry. *)
Definition erase_tx (p : CTxMemPool) (hash : list Z) (tx : CTransaction) : CTxMemPool :=
  MemPool (delete hash (mapTx p)) (fold_left (fun m txin => delete (prevout txin) m) (vin tx) (mapNextTx p)) (u32 (nTransactionsUpdated p + 1)).

(** The loop over the outputs from [i] on; [rem] removes a transaction and its
    descendants. *)
Fixpoint remove_spenders (rem : CTxMemPool -> CTransaction -> option CTxMemPool) (hash : list Z) (n : nat) (i : Z) (p : CTxMemPool)
  : option CTxMemPool :=
  match n with
  | O => Some p
  | S n =>
      match mapNextTx p !! OutPoint hash i with
      | None => remove_spenders rem hash n (i + 1) p
      | Some it =>
          match mapTx p !! ip_ptx it with
          | None => None
          | Some tx =>
              match rem p tx with
              | None => None
              | Some p => remove_spenders rem hash n (i + 1) p
              end
          end
      end
  end.

(** [None] is a dangling pointer, or a recursion deeper than [fuel]. *)
Fixpoint remove (fuel : nat) (p : CTxMemPool) (tx : CTransaction) (fRecursive : bool) : option CTxMemPool :=
  match fuel with
  | O => None
  | S fuel =>
      let hash := tx_GetHash tx in
      match mapTx p !! hash with
      | None => Some p
      | Some _ =>
          match (if fRecursive then remove_spenders (fun p tx => remove fuel p tx true) hash (length (vout tx)) 0 p else Some p) with
          | None => None
          | Some p => Some (erase_tx p hash tx)
          end
      end
  end.

Fixpoint conflicts_loop (fuel : nat) (tx : CTransaction) (ins : list CTxIn) (p : CTxMemPool) : option CTxMemPool :=
  match ins with
  | [] => Some p
  | txin :: ins =>
      match mapNextTx p !! prevout txin with
      | None => conflicts_loop fuel tx ins p
      | Some it =>
          match mapTx p !! ip_ptx it with
          | None => None
          | Some txConflict =>
              if tx_eq txConflict tx then conflicts_loop fuel tx ins p
              else match remove fuel p txConflict true with
                   | None => None
                   | Some p => conflicts_loop fuel tx ins p
                   end
          end
      end
  end.

Definition removeConflicts (fuel : nat) (p : CTxMemPool) (tx : CTransaction) : option CTxMemPool := conflicts_loop fuel tx (vin tx) p.

Definition pool_clear (p : CTxMemPool) : CTxMemPool := MemPool ∅ ∅ (u32 (nTransactionsUpdated p + 1)).

(** ** accept *)

(** [fEnforceCanonical] is an option of the node; [rate_limited tx nSize] says
    whether the limiter of free transactions (a floating-point counter that
    decays) rejects the transaction. *)
Context (fEnforceCanonical : bool) (rate_limited : CTransaction -> Z -> bool).

(** The tests with [fCheckInputs]; [chain] is the best chain. *)
Definition accept_inputs (txdb : tx_map) (p : CTxMemPool) (tx : CTransaction) (chain : list CBlockIndex) : outcome unit * bool :=
  match FetchInputs (fun h => mapTx p !! h) ReadTx txdb ∅ false false tx with
  | inr fInvalid => (Fails 0, negb fInvalid)
  | inl mapInputs =>
      (let! std := or_throw (AreInputsStandard tx mapInputs) in
       if negb std && negb fTestNet then Fails 0
       else
         let! nValueIn := or_throw (GetValueIn tx mapInputs) in
         let! nValueOut := or_throw (GetValueOut tx) in
         let nFees := i64_sub nValueIn nValueOut in
         let nSize := ser_size tx_codec tx in
         let txMinFee := GetMinFee foreign_GetOp tx 1000 GMF_RELAY nSize in
         if nFees <? txMinFee then Fails 0
         else if (nFees <? MIN_RELAY_TX_FEE) && rate_limited tx nSize then Fails 0
         else
           let! _ := ConnectInputs foreign_GetOp tx mapInputs ∅ (DiskTxPos 1 1 1) chain false false false in
           Done tt, false)
  end.

(** The pool afterwards, or the failure; and [*pfMissingInputs]. *)
Definition accept (txdb : tx_map) (p : CTxMemPool) (tx : CTransaction) (fCheckInputs : bool) (chain : list CBlockIndex)
  : outcome CTxMemPool * bool :=
  match CheckTransaction tx with
  | Some r => (Fails (reject_dos r), false)
  | None =>
      if IsCoinBase tx then (Fails 100, false)
      else if IsCoinStake tx then (Fails 100, false)
      else if negb fTestNet && negb (tx_IsStandard fEnforceCanonical tx) then (Fails 0, false)
      else
        let hash := tx_GetHash tx in
        if bool_decide (is_Some (mapTx p !! hash)) then (Fails 0, false)
        else if fCheckInputs && bool_decide (is_Some (txdb !! hash)) then (Fails 0, false)
        else if existsb (fun txin => bool_decide (is_Some (mapNextTx p !! prevout txin))) (vin tx) then (Fails 0, false)
        else
          let (r, missing) := if fCheckInputs then accept_inputs txdb p tx chain else (Done tt, false) in
          (let! _ := r in Done (addUnchecked p hash tx), missing)
  end.

End Mempool.

(** ** Orphan transactions *)

Abbreviation orphan_map := (gmap (list Z) (gset (list Z))).
Record orphans := Orphans { mapOrphanTransactions : tx_pool; mapOrphanTransactionsByPrev : orphan_map }.

Section Orphans.
Context {H : hash_lib}.

Definition MAX_ORPHAN_TRANSACTIONS : Z := MAX_BLOCK_SIZE / 100.

(** [m[k]] of [std::map] makes an empty set when there is none. *)
Definition prev_set (m : orphan_map) (k : list Z) : gset (list Z) := default ∅ (m !! k).

Definition AddOrphanTx (o : orphans) (tx : CTransaction) : orphans * bool :=
  let hash := tx_GetHash tx in
  if bool_decide (is_Some (mapOrphanTransactions o !! hash)) then (o, false)
  else if 5000 <? ser_size tx_codec tx then (o, false)
  else
    (Orphans (<[hash := tx]> (mapOrphanTransactions o))
       (fold_left (fun m txin => let k := op_hash (prevout txin) in <[k := {[hash]} ∪ prev_set m k]> m) (vin tx)
          (mapOrphanTransactionsByPrev o)), true).

Definition unlink (hash : list Z) (m : orphan_map) (txin : CTxIn) : orphan_map :=
  let k := op_hash (prevout txin) in
  let s := prev_set m k ∖ {[hash]} in
  if bool_decide (s = ∅) then delete k m else <[k := s]> m.

Definition EraseOrphanTx (o : orphans) (hash : list Z) : orphans :=
  match mapOrphanTransactions o !! hash with
  | None => o
  | Some tx => Orphans (delete hash (mapOrphanTransactions o)) (fold_left (unlink hash) (vin tx) (mapOrphanTransactionsByPrev o))
  end.

(** The iterator that [lower_bound] of a random hash gives, or [begin()]. *)
Definition least (keys : list (list Z)) : option (list Z) :=
  fold_right (fun k r => match r with Some b => if uint_lt k b then Some k else r | None => Some k end) None keys.

Definition random_orphan (m : tx_pool) (randomhash : list Z) : option (list Z) :=
  let keys := (map_to_list m).*1 in
  match least (List.filter (fun k => negb (uint_lt k randomhash)) keys) with
  | Some k => Some k
  | None => least keys
  end.

(** The loop, with the random hashes it draws. *)
Fixpoint limit_loop (rand : nat -> list Z) (fuel : nat) (nMaxOrphans nEvicted : Z) (o : orphans) : option (orphans * Z) :=
  if Z.of_nat (size (mapOrphanTransactions o)) <=? nMaxOrphans then Some (o, nEvicted)
  else match fuel with
       | O => None
       | S fuel =>
           match random_orphan (mapOrphanTransactions o) (rand fuel) with
           | None => None
           | Some hash => limit_loop rand fuel nMaxOrphans (u32 (nEvicted + 1)) (EraseOrphanTx o hash)
           end
       end.

Definition LimitOrphanTxSize (rand : nat -> list Z) (o : orphans) (nMaxOrphans : Z) : option (orphans * Z) :=
  limit_loop rand (size (mapOrphanTransactions o)) nMaxOrphans 0 o.

End Orphans.

(** ** The pool is consistent *)

Section Pool.
Context {H : hash_lib} {HH : hash_laws H}.

(** Transaction [h] of the pool spends [o] with input [n]. *)
Definition spent_by (p : CTxMemPool) (o : COutPoint) (h : list Z) (n : nat) : Prop :=
  exists t i, mapTx p !! h = Some t /\ vin t !! n = Some i /\ prevout i = o.

Record pool_ok (p : CTxMemPool) : Prop := {
  pool_hash : forall h t, mapTx p !! h = Some t -> tx_GetHash t = h;
  pool_next : forall o it, mapNextTx p !! o = Some it -> exists n, ip_n it = Z.of_nat n /\ spent_by p o (ip_ptx it) n;
  pool_spent : forall o h n, spent_by p o h n -> mapNextTx p !! o = Some (InPoint h (Z.of_nat n))
}.

(** No output is spent twice. *)
Lemma pool_no_double p o h n h' n' : pool_ok p -> spent_by p o h n -> spent_by p o h' n' -> h = h' /\ n = n'.
Proof.
  intros Hp H1 H2; apply (pool_spent _ Hp) in H1, H2; rewrite H1 in H2; injection H2 as -> E; split; [reflexivity | lia].
Qed.

Lemma add_inputs_lookup hash ins : forall k m o, NoDup (prevout <$> ins) ->
  add_inputs hash k ins m !! o =
    match list_find (fun i => prevout i = o) ins with Some (n, _) => Some (InPoint hash (k + Z.of_nat n)) | None => m !! o end.
Proof.
  induction ins as [|i ins IH]; intros k m o Hn; cbn [add_inputs list_find]; [reflexivity|].
  rewrite fmap_cons, NoDup_cons in Hn; destruct Hn as [Hi Hn]; rewrite (IH _ _ _ Hn).
  destruct (decide (prevout i = o)) as [<-|Hne].
  - destruct (list_find _ ins) as [[n j]|] eqn:Ef; [|rewrite lookup_insert_eq; f_equal; f_equal; lia].
    apply list_find_Some in Ef as (Ej & Eo & _); contradiction Hi; rewrite <- Eo; apply list_elem_of_fmap; exists j; split; [reflexivity|].
    now apply list_elem_of_lookup_2 in Ej.
  - destruct (list_find _ ins) as [[n j]|] eqn:Ef; cbn; [f_equal; f_equal; lia | now rewrite lookup_insert_ne].
Qed.

Lemma add_pool_ok p tx : pool_ok p -> mapTx p !! tx_GetHash tx = None -> NoDup (prevout <$> vin tx) ->
  Forall (fun i => mapNextTx p !! prevout i = None) (vin tx) -> pool_ok (addUnchecked p (tx_GetHash tx) tx).
Proof.
  intros [Ph Pn Ps] Hnew Hd Hf; set (h0 := tx_GetHash tx) in *.
  assert (Hold : forall o h n, spent_by p o h n -> spent_by (addUnchecked p h0 tx) o h n).
  { intros o h n (t & i & E & Ei & Eo); exists t, i; cbn [addUnchecked mapTx]; rewrite lookup_insert_ne; auto; congruence. }
  constructor; cbn [addUnchecked mapTx mapNextTx].
  - intros h t; destruct (decide (h0 = h)) as [<-|Hne]; [rewrite lookup_insert_eq; now intros [= <-] | rewrite lookup_insert_ne by assumption; apply Ph].
  - intros o it; rewrite add_inputs_lookup by assumption; destruct (list_find _ _) as [[n j]|] eqn:Ef.
    + apply list_find_Some in Ef as (Ej & Eo & _); intros [= <-]; exists n; split; [reflexivity|]; exists tx, j.
      cbn [ip_ptx addUnchecked mapTx]; now rewrite lookup_insert_eq.
    + intros E; destruct (Pn o it E) as (n & En & Hs); exists n; split; [exact En | now apply Hold].
  - intros o h n (t & i & E & Ei & Eo); cbn [addUnchecked mapTx] in E; rewrite add_inputs_lookup by assumption.
    destruct (decide (h0 = h)) as [<-|Hne].
    + rewrite lookup_insert_eq in E; injection E as <-.
      destruct (list_find _ _) as [[k j]|] eqn:Ef; [|exfalso; apply list_find_None in Ef; rewrite Forall_lookup in Ef; now apply (Ef n i)].
      apply list_find_Some in Ef as (Ej & Ejo & _); do 2 f_equal; cut (k = n); [lia|].
      apply (NoDup_lookup (prevout <$> vin tx) k n o Hd); rewrite list_lookup_fmap; [rewrite Ej | rewrite Ei]; cbn; congruence.
    + rewrite lookup_insert_ne in E by assumption.
      assert (Hs : mapNextTx p !! o = Some (InPoint h (Z.of_nat n))) by (apply Ps; now exists t, i).
      destruct (list_find _ _) as [[k j]|] eqn:Ef; [exfalso|exact Hs].
      apply list_find_Some in Ef as (Ej & Ejo & _); rewrite Forall_lookup in Hf; specialize (Hf k j Ej); congruence.
Qed.

Lemma fold_delete_lookup (ins : list CTxIn) : forall (m : next_map) o,
  fold_left (fun m txin => delete (prevout txin) m) ins m !! o = if decide (o ∈ (prevout <$> ins)) then None else m !! o.
Proof.
  induction ins as [|i ins IH]; intros m o; cbn [fold_left]; [now rewrite decide_False by apply not_elem_of_nil|]; rewrite IH, fmap_cons.
  destruct (decide (o ∈ _)) as [Hi|Hn]; [rewrite decide_True by (now right); reflexivity|].
  destruct (decide (prevout i = o)) as [<-|Hne]; [rewrite lookup_delete_eq, decide_True by (now left); reflexivity|].
  rewrite lookup_delete_ne, decide_False by (assumption || (rewrite elem_of_cons; intuition congruence)); reflexivity.
Qed.

(** Removing one transaction. *)
Lemma erase_pool_ok p tx : pool_ok p -> mapTx p !! tx_GetHash tx = Some tx -> pool_ok (erase_tx p (tx_GetHash tx) tx).
Proof.
  intros Hp E0; pose proof Hp as [Ph Pn Ps]; set (h0 := tx_GetHash tx) in *.
  assert (Hiff : forall o, o ∈ (prevout <$> vin tx) <-> exists n, spent_by p o h0 n).
  { intros o; rewrite list_elem_of_fmap; split.
    - intros (i & -> & Hi); apply list_elem_of_lookup_1 in Hi as [n Hn]; exists n; now exists tx, i.
    - intros (n & t & i & E & Ei & Eo); rewrite E0 in E; injection E as <-; exists i; split; [easy | now apply list_elem_of_lookup_2 in Ei]. }
  constructor; cbn [erase_tx mapTx mapNextTx].
  - intros h t; rewrite lookup_delete_Some; intros [_ E]; now apply Ph.
  - intros o it; rewrite fold_delete_lookup; destruct (decide _) as [Hi|Hn]; [discriminate|]; intros E; destruct (Pn o it E) as (n & En & Hs).
    exists n; split; [exact En|]; destruct Hs as (t & i & Et & Ei & Eo); exists t, i; cbn [erase_tx mapTx]; rewrite lookup_delete_ne; auto.
    intros E1; apply Hn, Hiff; exists n; exists t, i; now rewrite E1.
  - intros o h n (t & i & E & Ei & Eo); cbn [erase_tx mapTx] in E; rewrite lookup_delete_Some in E; destruct E as [Hne E].
    assert (Hs : spent_by p o h n) by (now exists t, i).
    rewrite fold_delete_lookup, decide_False; [now apply Ps|]; rewrite Hiff; intros [n' Hs']; apply Hne.
    symmetry; exact (proj1 (pool_no_double p o h n h0 n' Hp Hs Hs')).
Qed.

(** ** Descendants *)

(** [h'] spends an output of [h] in the pool. *)
Definition child (p : CTxMemPool) (h h' : list Z) : Prop :=
  exists t j n, mapTx p !! h = Some t /\ (j < length (vout t))%nat /\ spent_by p (OutPoint h (Z.of_nat j)) h' n.
Definition descends (p : CTxMemPool) : list Z -> list Z -> Prop := rtc (child p).

(** Transactions spend earlier ones. *)
Definition acyclic_by (rank : list Z -> nat) (p : CTxMemPool) : Prop := forall h h', child p h h' -> (rank h < rank h')%nat.

Record removes (p : CTxMemPool) (gone : list Z -> Prop) (q : CTxMemPool) : Prop := {
  removes_ok : pool_ok q;
  removes_sub : mapTx q ⊆ mapTx p;
  removes_gone : forall h t, mapTx p !! h = Some t -> (mapTx q !! h = None <-> gone h)
}.

Lemma removes_none p : pool_ok p -> removes p (fun _ => False) p.
Proof. intros Hp; split; [exact Hp | reflexivity | intros h t E; rewrite E; intuition discriminate]. Qed.

Lemma removes_ext p X Y q : (forall h, X h <-> Y h) -> removes p X q -> removes p Y q.
Proof. intros E [H1 H2 H3]; split; auto; intros h t Et; now rewrite <- E, (H3 h t Et). Qed.

Lemma spent_by_sub p q o h n : mapTx q ⊆ mapTx p -> spent_by q o h n -> spent_by p o h n.
Proof. intros Hs (t & i & E & Ei & Eo); exists t, i; split; [exact (lookup_weaken _ _ _ _ E Hs) | now split]. Qed.

Lemma child_sub p q h h' : mapTx q ⊆ mapTx p -> child q h h' -> child p h h'.
Proof.
  intros Hs (t & j & n & E & Hj & Hn); exists t, j, n; split; [exact (lookup_weaken _ _ _ _ E Hs)|]; split; [exact Hj | now apply (spent_by_sub p q)].
Qed.

Lemma acyclic_sub rank p q : mapTx q ⊆ mapTx p -> acyclic_by rank p -> acyclic_by rank q.
Proof. intros Hs Ha h h' Hc; apply Ha; now apply (child_sub p q). Qed.

Lemma child_in p h h' : child p h h' -> exists t, mapTx p !! h' = Some t.
Proof. intros (t & j & n & _ & _ & t' & _ & E & _); now exists t'. Qed.

Lemma kept p X q h t : removes p X q -> mapTx p !! h = Some t -> ~ X h -> mapTx q !! h = Some t.
Proof.
  intros [_ Hs Hg] E Hx; destruct (mapTx q !! h) as [t'|] eqn:Eq; [|exfalso; now apply Hx, (Hg h t E)].
  rewrite (lookup_weaken _ _ _ _ Eq Hs) in E; congruence.
Qed.

(** When the descendants of what is gone are gone, those that remain have
    their ancestors up to [c]. *)
Lemma descends_kept p X q c h : removes p X q -> (forall a b, X a -> child p a b -> X b) -> descends p c h -> ~ X h -> descends q c h.
Proof.
  intros HR Hx Hd; revert Hx; induction Hd as [h|c b h Hc Hd IH]; intros Hx Hn; [apply rtc_refl|].
  assert (Hb : forall a, descends p a h -> ~ X a).
  { intros a Ha HX; apply Hn; clear - Ha HX Hx; induction Ha as [h|a b h Hab Hb IHb]; [exact HX | apply IHb; now apply (Hx a)]. }
  assert (Hcn : ~ X c) by (apply Hb; exact (rtc_l _ _ _ _ Hc Hd)).
  apply (rtc_l _ _ b); [|now apply IH]; destruct Hc as (t & j & n & Et & Hj & t' & i & Et' & Ei & Eo).
  exists t, j, n; split; [now apply (kept p X q)|]; split; [exact Hj|]; exists t', i; split; [|now split].
  apply (kept p X q); auto.
Qed.

Lemma descends_sub p q c h : mapTx q ⊆ mapTx p -> descends q c h -> descends p c h.
Proof. intros Hs Hd; induction Hd as [h|c b h Hc Hd IH]; [apply rtc_refl | apply (rtc_l _ _ b); [now apply (child_sub p q) | exact IH]]. Qed.

(** Removing more. *)
Lemma removes_trans p X q c r : removes p X q -> (forall a b, X a -> child p a b -> X b) -> removes q (descends q c) r ->
  removes p (fun h => X h \/ descends p c h) r.
Proof.
  intros HR Hx [H1 H2 H3]; split; [exact H1 | transitivity (mapTx q); [exact H2 | exact (removes_sub _ _ _ HR)]|]; intros h t E.
  destruct (mapTx q !! h) as [t'|] eqn:Eq.
  - assert (Hn : ~ X h) by (intros HX; apply (removes_gone _ _ _ HR h t E) in HX; congruence).
    rewrite (H3 h t' Eq); split; [intros Hd; right; exact (descends_sub p q c h (removes_sub _ _ _ HR) Hd)|].
    intros [HX|Hd]; [contradiction | now apply (descends_kept p X q)].
  - pose proof (proj1 (removes_gone _ _ _ HR h t E) Eq) as HX; split; [now left|]; intros _.
    destruct (mapTx r !! h) as [t'|] eqn:Er; [|reflexivity]; rewrite (lookup_weaken _ _ _ _ Er H2) in Eq; discriminate.
Qed.

(** ** Removing descendants *)

(** What the loop over the first [k] outputs of [h] removes. *)
Definition gone_spenders (p : CTxMemPool) (h : list Z) (k : nat) (x : list Z) : Prop :=
  exists j c n, (j < k)%nat /\ spent_by p (OutPoint h (Z.of_nat j)) c n /\ descends p c x.

Lemma gone_closed p h k a b : gone_spenders p h k a -> child p a b -> gone_spenders p h k b.
Proof. intros (j & c & n & Hj & Hs & Hd) Hc; exists j, c, n; split; [exact Hj|]; split; [exact Hs | exact (rtc_r _ _ _ Hd Hc)]. Qed.

Lemma gone_next_none p h k q : removes p (gone_spenders p h k) q -> mapNextTx q !! OutPoint h (Z.of_nat k) = None ->
  forall x, gone_spenders p h k x <-> gone_spenders p h (S k) x.
Proof.
  intros HR E x; split; [intros (j & c & n & Hj & Hs); exists j, c, n; split; [lia | exact Hs]|].
  intros (j & c & n & Hj & Hs & Hd); destruct (decide (j = k)) as [->|Hne]; [|exists j, c, n; split; [lia | now split]].
  destruct Hs as (t & i & Et & Ei & Eo); destruct (mapTx q !! c) as [t'|] eqn:Eq.
  - assert (Hq : spent_by q (OutPoint h (Z.of_nat k)) c n).
    { exists t, i; split; [|now split]; rewrite (lookup_weaken _ _ _ _ Eq (removes_sub _ _ _ HR)) in Et; congruence. }
    apply (pool_spent _ (removes_ok _ _ _ HR)) in Hq; congruence.
  - pose proof (proj1 (removes_gone _ _ _ HR c t Et) Eq) as Hg; clear - Hg Hd; induction Hd as [c|c b x Hc Hd IH]; [exact Hg|].
    apply IH; exact (gone_closed _ _ _ _ _ Hg Hc).
Qed.

Lemma gone_next_some p h k c n : pool_ok p -> spent_by p (OutPoint h (Z.of_nat k)) c n ->
  forall x, gone_spenders p h k x \/ descends p c x <-> gone_spenders p h (S k) x.
Proof.
  intros Hp Hc x; split.
  - intros [(j & c' & n' & Hj & Hs)|Hd]; [exists j, c', n'; split; [lia | exact Hs] | exists k, c, n; split; [lia | now split]].
  - intros (j & c' & n' & Hj & Hs & Hd); destruct (decide (j = k)) as [->|Hne]; [right | left; exists j, c', n'; split; [lia | now split]].
    now rewrite (proj1 (pool_no_double p _ c n c' n' Hp Hc Hs)).
Qed.

Lemma spenders_removed rem p h tx : pool_ok p -> mapTx p !! h = Some tx ->
  (forall q c t, mapTx q ⊆ mapTx p -> pool_ok q -> mapTx q !! c = Some t -> child p h c -> exists r, rem q t = Some r /\ removes q (descends q c) r) ->
  forall n k q, (k + n = length (vout tx))%nat -> removes p (gone_spenders p h k) q ->
  exists r, remove_spenders rem h n (Z.of_nat k) q = Some r /\ removes p (gone_spenders p h (length (vout tx))) r.
Proof.
  intros Hp Eh Hrem n; induction n as [|n IH]; intros k q Hk HR; cbn [remove_spenders].
  { exists q; split; [reflexivity|]; now replace (length (vout tx)) with k by lia. }
  replace (Z.of_nat k + 1) with (Z.of_nat (S k)) by lia.
  destruct (mapNextTx q !! OutPoint h (Z.of_nat k)) as [it|] eqn:En.
  - destruct (pool_next _ (removes_ok _ _ _ HR) _ _ En) as (m & _ & Hs); pose proof Hs as (t & i & Et & _); rewrite Et.
    pose proof (spent_by_sub p q _ _ _ (removes_sub _ _ _ HR) Hs) as Hs'.
    destruct (Hrem q (ip_ptx it) t (removes_sub _ _ _ HR) (removes_ok _ _ _ HR) Et) as (r & -> & Hr); [exists tx, k, m; split; [exact Eh | split; [lia | exact Hs']]|].
    apply IH; [lia|]; apply (removes_ext p _ _ r (gone_next_some p h k _ m Hp Hs')).
    apply (removes_trans p _ q); [exact HR | intros a b; apply gone_closed | exact Hr].
  - apply IH; [lia|]; exact (removes_ext p _ _ q (gone_next_none p h k q HR En) HR).
Qed.

(** The transactions above a rank. *)
Definition above (rank : list Z -> nat) (p : CTxMemPool) (r : nat) : tx_pool := filter (fun x => (r < rank (fst x))%nat) (mapTx p).

Lemma above_child rank p q h c : acyclic_by rank p -> child p h c -> mapTx q ⊆ mapTx p ->
  (size (above rank q (rank c)) < size (above rank p (rank h)))%nat.
Proof.
  intros Ha Hc Hs; apply map_subset_size, map_subset_alt; pose proof (Ha _ _ Hc) as Hr; split.
  - apply map_subseteq_spec; intros x t; unfold above; rewrite !map_lookup_filter_Some; cbn [fst]; intros [E Hx]; split; [exact (lookup_weaken _ _ _ _ E Hs) | lia].
  - exists c; destruct (child_in p h c Hc) as [t E]; split.
    + unfold above; apply map_lookup_filter_None; right; intros t' _; cbn [fst]; lia.
    + exists t; unfold above; apply map_lookup_filter_Some; now split.
Qed.

Lemma removes_self p h tx q : pool_ok p -> mapTx p !! h = Some tx -> mapTx q !! h = Some tx ->
  removes p (gone_spenders p h (length (vout tx))) q -> removes p (descends p h) (erase_tx q h tx).
Proof.
  intros Hp Eh Eq HR; pose proof (pool_hash _ Hp _ _ Eh) as Hh; split.
  - rewrite <- Hh; apply erase_pool_ok; [exact (removes_ok _ _ _ HR) | now rewrite Hh].
  - cbn [erase_tx mapTx]; transitivity (mapTx q); [apply delete_subseteq | exact (removes_sub _ _ _ HR)].
  - intros x t E; cbn [erase_tx mapTx]; rewrite lookup_delete_None, (removes_gone _ _ _ HR x t E); split.
    + intros [<-|(j & c & n & Hj & Hs & Hd)]; [apply rtc_refl|]; apply (rtc_l _ _ c); [now exists tx, j, n | exact Hd].
    + intros Hd; apply rtc_inv in Hd as [<-|(c & (t' & j & n & Et & Hj & Hs) & Hd)]; [now left|]; right; exists j, c, n.
      rewrite Eh in Et; injection Et as <-; now split.
Qed.

Lemma gone_not_self rank p h k : acyclic_by rank p -> (forall t, mapTx p !! h = Some t -> (k <= length (vout t))%nat) -> 
  is_Some (mapTx p !! h) -> ~ gone_spenders p h k h.
Proof.
  intros Ha Hk [t E] (j & c & n & Hj & Hs & Hd).
  assert (Hc : child p h c) by (exists t, j, n; split; [exact E|]; split; [specialize (Hk t E); lia | exact Hs]).
  assert (Hle : forall a b, descends p a b -> (rank a <= rank b)%nat) by (intros a b Hab; induction Hab as [|a b d Hab _ IHd]; [lia | specialize (Ha _ _ Hab); lia]).
  specialize (Hle _ _ Hd); specialize (Ha _ _ Hc); lia.
Qed.

(** With enough fuel a transaction is removed with exactly its descendants. *)
Lemma remove_recursive rank fuel : forall p h tx, pool_ok p -> acyclic_by rank p -> mapTx p !! h = Some tx ->
  (size (above rank p (rank h)) < fuel)%nat -> exists q, remove fuel p tx true = Some q /\ removes p (descends p h) q.
Proof.
  induction fuel as [|fuel IH]; intros p h tx Hp Ha Eh Hf; [lia|]; cbn [remove]; rewrite (pool_hash _ Hp _ _ Eh), Eh.
  destruct (spenders_removed (fun p tx => remove fuel p tx true) p h tx Hp Eh) with (n := length (vout tx)) (k := 0%nat) (q := p) as (r & Er & Hr).
  - intros q c t Hs Hq Et Hc; apply (IH q c t Hq (acyclic_sub rank p q Hs Ha) Et).
    pose proof (above_child rank p q h c Ha Hc Hs); lia.
  - lia.
  - apply (removes_ext p (fun _ => False)); [|now apply removes_none]; intros x; split; [easy | intros (j & c & n & Hj & _); lia].
  - change (Z.of_nat 0) with 0 in Er; rewrite Er; eexists; split; [reflexivity|]; apply (removes_self p h tx r Hp Eh); [|exact Hr].
    apply (kept p _ r h tx Hr Eh); apply (gone_not_self rank p h _ Ha); [intros t E; rewrite Eh in E; now injection E as -> | now exists tx].
Qed.

End Pool.

(** ** Fees *)

Definition scripts_size (outs : list CTxOut) : Z := fold_right (fun o s => size_of (scriptPubKey o) + s) 0 outs.

Lemma scripts_size_nonneg outs : 0 <= scripts_size outs.
Proof. induction outs as [|o outs IH]; cbn [scripts_size fold_right]; [lia|]; fold (scripts_size outs); pose proof (size_of_nonneg (scriptPubKey o)); lia. Qed.

Lemma size_outputs outs : scripts_size outs <= size_of (flat_map (enc txout_codec) outs).
Proof.
  induction outs as [|o outs IH]; cbn [scripts_size fold_right flat_map]; [unfold size_of; cbn; lia|]; fold (scripts_size outs).
  rewrite size_of_app; cbn [enc txout_codec bytes_codec] in *; rewrite !size_of_app.
  pose proof (size_of_nonneg (enc (sint_codec 8) (nValue o))); pose proof (size_of_nonneg (WriteCompactSize (size_of (scriptPubKey o)))); lia.
Qed.

Lemma tx_fits tx : scripts_size (vout tx) <= size_of (enc tx_codec tx) /\ (2 <= tx_nVersion tx -> size_of (strTxComment tx) <= size_of (enc tx_codec tx)).
Proof.
  pose proof (size_outputs (vout tx)) as Ho; cbn [enc tx_codec vout_codec vector_codec]; rewrite !size_of_app.
  set (a := size_of (enc (sint_codec 4) _)); set (b := size_of (enc (uint_codec 4) (tx_nTime tx))); set (c := size_of (enc vin_codec _)).
  set (d := size_of (WriteCompactSize _)); set (e := size_of (enc (uint_codec 4) (nLockTime tx))).
  assert (0 <= a /\ 0 <= b /\ 0 <= c /\ 0 <= d /\ 0 <= e) by (repeat split; apply size_of_nonneg).
  destruct (Z.leb_spec 2 (tx_nVersion tx)); [|pose proof (size_of_nonneg []); lia].
  cbn [enc string_codec]; rewrite !size_of_app; pose proof (size_of_nonneg (WriteCompactSize (size_of (strTxComment tx)))).
  pose proof (size_of_nonneg (enc (uint_codec 4) (nProdTypeID tx))); pose proof (size_of_nonneg (strTxComment tx)); pose proof (scripts_size_nonneg (vout tx)); lia.
Qed.

Section Fees.
Context (foreign_GetOp : list Z -> list Z -> option (Z * valtype * list Z)).

Lemma i64_exact x : - 2 ^ 63 <= x < 2 ^ 63 -> to_signed 64 (x mod 2 ^ 64) = x.
Proof. intros Hx; apply (to_signed_wrap 64); lia. Qed.

Lemma op_ret_bound outs : forall free acc, 0 <= acc -> acc + OP_RET_FEE_PER_CHAR * scripts_size outs < 2 ^ 62 ->
  acc <= op_ret_loop foreign_GetOp outs free acc <= acc + OP_RET_FEE_PER_CHAR * scripts_size outs.
Proof.
  induction outs as [|o outs IH]; intros free acc Ha Hb; cbn [op_ret_loop scripts_size fold_right] in *; [lia|]; fold (scripts_size outs) in *.
  pose proof (scripts_size_nonneg outs); pose proof (size_of_nonneg (scriptPubKey o)); unfold OP_RET_FEE_PER_CHAR in *.
  destruct (is_op_return (scriptPubKey o)) as [pc|]; [|pose proof (IH free acc); lia].
  destruct (match foreign_GetOp _ _ with Some _ => _ | None => _ end); [|pose proof (IH (free - 1) acc); lia].
  unfold i64_mul, i64_add; rewrite (i64_exact (15000 * size_of (scriptPubKey o))), i64_exact by lia; pose proof (IH free (acc + 15000 * size_of (scriptPubKey o))); lia.
Qed.

(** Every fee that is required is at least the base fee. *)
Lemma GetMinFee_bound tx nBlockSize mode nBytes : 0 <= nBlockSize < 2 ^ 32 -> 0 <= nBytes < 2 ^ 32 ->
  scripts_size (vout tx) <= 2 ^ 32 -> size_of (strTxComment tx) <= 2 ^ 32 -> MIN_TX_FEE <= GetMinFee foreign_GetOp tx nBlockSize mode nBytes.
Proof.
  intros Hb Hn Hs Hc; unfold GetMinFee; assert (HM : MAX_MONEY = 10 ^ 15) by reflexivity.
  replace (match mode with GMF_RELAY => MIN_RELAY_TX_FEE | _ => MIN_TX_FEE end) with 62500 by (destruct mode; reflexivity).
  change MIN_TX_FEE with 62500; assert (Hq : 0 <= nBytes / 1000 <= 4294968) by (split; [apply Z.div_pos | apply Z.div_le_upper_bound]; lia).
  unfold i64_mul; rewrite (i64_exact ((1 + nBytes / 1000) * 62500)) by lia; rewrite (proj2 (Z.ltb_ge _ _)) by lia; cbn [andb]; cbv zeta.
  assert (Hserv : forall f, 62500 <= f < 2 ^ 60 ->
    62500 <= (let f := if 2 <=? tx_nVersion tx then i64_add (i64_add f (GetSwiftFee tx)) (GetOpRetFee foreign_GetOp tx) else f in
              if negb (MoneyRange f) then MAX_MONEY else f)).
  { intros f Hf; cbv zeta; destruct (2 <=? tx_nVersion tx); [|destruct (negb (MoneyRange f)); lia].
    pose proof (op_ret_bound (vout tx) (zlen (List.filter (fun o => match is_op_return (scriptPubKey o) with None => true | Some _ => false end) (vout tx))) 0) as Ho.
    unfold OP_RET_FEE_PER_CHAR in Ho; pose proof (scripts_size_nonneg (vout tx)); pose proof (size_of_nonneg (strTxComment tx)).
    unfold GetOpRetFee, GetSwiftFee, COMMENT_FEE_PER_CHAR, i64_mul, i64_add; rewrite (i64_exact (10000 * _)) by lia.
    rewrite (i64_exact (f + 10000 * _)), i64_exact by lia.
    destruct (negb _); lia. }
  destruct (negb (nBlockSize =? 1) && _); [|apply Hserv; lia].
  set (w := u32 (nBlockSize + nBytes)); destruct (Z.leb_spec MAX_BLOCK_SIZE_GEN w); [lia|].
  assert (Hw : 0 <= w) by (unfold w; rewrite u32_mod; apply Z.mod_pos_bound; lia); change MAX_BLOCK_SIZE_GEN with 125000 in *.
  assert (Hk : 1 <= 125000 / (125000 - w) <= 125000) by (split; [apply Z.div_le_lower_bound | apply Z.div_le_upper_bound]; nia).
  rewrite i64_exact by nia; apply Hserv; nia.
Qed.

End Fees.

(** ** Conflicts *)

Section Conflicts.
Context {H : hash_lib} {HH : hash_laws H}.

(** A transaction of the pool that spends one of [ins], other than [tx]. *)
Definition conflicting (p : CTxMemPool) (tx : CTransaction) (ins : list CTxIn) (c : list Z) : Prop :=
  exists i n t, i ∈ ins /\ spent_by p (prevout i) c n /\ mapTx p !! c = Some t /\ tx_eq t tx = false.
Definition gone_conflicts (p : CTxMemPool) (tx : CTransaction) (ins : list CTxIn) (x : list Z) : Prop :=
  exists c, conflicting p tx ins c /\ descends p c x.

Lemma gone_conflicts_closed p tx ins a b : gone_conflicts p tx ins a -> child p a b -> gone_conflicts p tx ins b.
Proof. intros (c & Hc & Hd) Hb; exists c; split; [exact Hc | exact (rtc_r _ _ _ Hd Hb)]. Qed.

Lemma conflicting_mono p tx ins ins' c : ins ⊆ ins' -> conflicting p tx ins c -> conflicting p tx ins' c.
Proof. intros Hs (i & n & t & Hi & Hc); exists i, n, t; split; [now apply Hs | exact Hc]. Qed.

(** The next input has no conflict that is left. *)
Lemma gone_conflicts_skip p tx before i q : pool_ok p -> removes p (gone_conflicts p tx before) q ->
  (forall c n t, spent_by q (prevout i) c n -> mapTx q !! c = Some t -> tx_eq t tx = true) ->
  forall x, gone_conflicts p tx before x <-> gone_conflicts p tx (before ++ [i]) x.
Proof.
  intros Hp HR Hq x; split; [intros (c & Hc & Hd); exists c; split; [|exact Hd]; apply (conflicting_mono p tx before); [set_solver | exact Hc]|].
  intros (c & (j & n & t & Hj & Hs & Et & Hne) & Hd); apply elem_of_app in Hj as [Hj|Hj]; [exists c; split; [|exact Hd]; now exists j, n, t|].
  apply list_elem_of_singleton in Hj as ->; destruct (mapTx q !! c) as [t'|] eqn:Eq.
  - exfalso; pose proof (lookup_weaken _ _ _ _ Eq (removes_sub _ _ _ HR)) as Eq'; rewrite Et in Eq'; injection Eq' as <-.
    rewrite (Hq c n t) in Hne; [discriminate | | exact Eq]; destruct Hs as (u & k & Eu & Ek & Eo); exists u, k; rewrite Et in Eu; injection Eu as <-; now split.
  - pose proof (proj1 (removes_gone _ _ _ HR c t Et) Eq) as Hg; clear - Hg Hd; induction Hd as [c|c b x Hc Hd IH]; [exact Hg|].
    apply IH; exact (gone_conflicts_closed _ _ _ _ _ Hg Hc).
Qed.

Lemma gone_conflicts_next p tx before i c n t : pool_ok p -> spent_by p (prevout i) c n -> mapTx p !! c = Some t -> tx_eq t tx = false ->
  forall x, gone_conflicts p tx before x \/ descends p c x <-> gone_conflicts p tx (before ++ [i]) x.
Proof.
  intros Hp Hs Et Hne x; split.
  - intros [(c' & Hc & Hd)|Hd]; [exists c'; split; [|exact Hd]; apply (conflicting_mono p tx before); [set_solver | exact Hc]|].
    exists c; split; [|exact Hd]; exists i, n, t; split; [set_solver | now split].
  - intros (c' & (j & n' & t' & Hj & Hs' & Et' & Hne') & Hd); apply elem_of_app in Hj as [Hj|Hj]; [left; exists c'; split; [|exact Hd]; now exists j, n', t'|].
    apply list_elem_of_singleton in Hj as ->; right; now rewrite (proj1 (pool_no_double p _ c n c' n' Hp Hs Hs')).
Qed.

Lemma size_above rank p q r : mapTx q ⊆ mapTx p -> (size (above rank q r) <= size (mapTx p))%nat.
Proof. intros Hs; apply map_subseteq_size; transitivity (mapTx q); [apply map_filter_subseteq | exact Hs]. Qed.

Lemma conflicts_removed rank fuel p tx : pool_ok p -> acyclic_by rank p -> (size (mapTx p) < fuel)%nat ->
  forall ins before q, removes p (gone_conflicts p tx before) q ->
  exists r, conflicts_loop fuel tx ins q = Some r /\ removes p (gone_conflicts p tx (before ++ ins)) r.
Proof.
  intros Hp Ha Hf ins; induction ins as [|i ins IH]; intros before q HR; cbn [conflicts_loop].
  { exists q; split; [reflexivity | now rewrite app_nil_r]. }
  replace (before ++ i :: ins) with ((before ++ [i]) ++ ins) by (now rewrite <- app_assoc).
  pose proof (removes_ok _ _ _ HR) as Hq; destruct (mapNextTx q !! prevout i) as [it|] eqn:En.
  - destruct (pool_next _ Hq _ _ En) as (n & _ & Hs); pose proof Hs as (t & j & Et & _); rewrite Et.
    destruct (tx_eq t tx) eqn:Etx.
    + apply IH; apply (removes_ext p _ _ q (gone_conflicts_skip p tx before i q Hp HR ltac:(
        intros c n' t' Hs' Et'; destruct (pool_no_double q _ _ _ _ _ Hq Hs Hs') as [<- _]; congruence)) HR).
    + destruct (remove_recursive rank fuel q (ip_ptx it) t Hq (acyclic_sub rank p q (removes_sub _ _ _ HR) Ha) Et) as (r & -> & Hr).
      { pose proof (size_above rank p q (rank (ip_ptx it)) (removes_sub _ _ _ HR)); lia. }
      apply IH; pose proof (lookup_weaken _ _ _ _ Et (removes_sub _ _ _ HR)) as Etp.
      apply (removes_ext p _ _ r (gone_conflicts_next p tx before i _ n t Hp (spent_by_sub p q _ _ _ (removes_sub _ _ _ HR) Hs) Etp Etx)).
      apply (removes_trans p _ q); [exact HR | intros a b; apply gone_conflicts_closed | exact Hr].
  - apply IH; apply (removes_ext p _ _ q (gone_conflicts_skip p tx before i q Hp HR ltac:(
      intros c n' t' Hs' Et'; apply (pool_spent _ Hq) in Hs'; congruence)) HR).
Qed.

(** C7: [removeConflicts] removes from the pool exactly the transactions that
    spend an input of [tx] without being equal to it, and their descendants:
    every transaction that remains had no such ancestor, and no other
    transaction in the pool spends an input of [tx].  On a pool where
    [mapNextTx] lists exactly the outputs spent and no transaction descends
    from itself, the recursion ends, follows no dangling pointer, and leaves
    [mapNextTx] exact. *)
Theorem remove_conflicts_exact (rank : list Z -> nat) (fuel : nat) (p : CTxMemPool) (tx : CTransaction) :
  pool_ok p -> acyclic_by rank p -> (size (mapTx p) < fuel)%nat ->
  exists q, removeConflicts fuel p tx = Some q /\ pool_ok q /\ mapTx q ⊆ mapTx p
    /\ (forall h t, mapTx p !! h = Some t -> (mapTx q !! h = None <-> exists c, conflicting p tx (vin tx) c /\ descends p c h))
    /\ (forall i h n t, i ∈ vin tx -> spent_by q (prevout i) h n -> mapTx q !! h = Some t -> tx_eq t tx = true).
Proof.
  intros Hp Ha Hf; destruct (conflicts_removed rank fuel p tx Hp Ha Hf (vin tx) [] p) as (q & Eq & Hr).
  { apply (removes_ext p (fun _ => False)); [|now apply removes_none]; intros x; split; [easy|].
    intros (c & (i & n & t & Hi & _) & _); now apply not_elem_of_nil in Hi. }
  exists q; split; [exact Eq|]; destruct Hr as [Hq Hs Hg]; split; [exact Hq|]; split; [exact Hs|]; split; [exact Hg|].
  intros i h n t Hi Hsp Et; destruct (tx_eq t tx) eqn:E; [reflexivity|]; exfalso; pose proof (lookup_weaken _ _ _ _ Et Hs) as Etp.
  pose proof (proj2 (Hg h t Etp)) as Hn; rewrite Et in Hn; discriminate Hn; exists h; split; [|apply rtc_refl].
  exists i, n, t; split; [exact Hi|]; split; [now apply (spent_by_sub p q) | now split].
Qed.

End Conflicts.

(** ** Acceptance *)

Section Accept.
Context {H : hash_lib} {HH : hash_laws H} {L : BN_lib} {EC : ec_lib} {N : node_env}.
Context (fEnforceCanonical : bool).

(** A fresh transaction does not reach the limiter. *)
Lemma fees_of_accepted tx nBlockSize mode nBytes : CheckTransaction tx = None -> tx_valid tx -> size_of (enc tx_codec tx) < 2 ^ 32 ->
  0 <= nBlockSize < 2 ^ 32 -> 0 <= nBytes < 2 ^ 32 -> MIN_RELAY_TX_FEE <= GetMinFee foreign_GetOp tx nBlockSize mode nBytes.
Proof.
  intros Hc Hv Hs Hb Hn; destruct (tx_fits tx) as [H1 H2]; pose proof Hv as (_ & _ & _ & _ & _ & [_ Hcom] & _).
  apply GetMinFee_bound; auto; [lia | unfold MAX_SIZE in Hcom; lia].
Qed.

Lemma accept_inputs_limiter (r1 r2 : CTransaction -> Z -> bool) txdb p tx chain : CheckTransaction tx = None -> tx_valid tx ->
  size_of (enc tx_codec tx) < 2 ^ 32 -> accept_inputs r1 txdb p tx chain = accept_inputs r2 txdb p tx chain.
Proof.
  intros Hc Hv Hs; unfold accept_inputs; destruct (FetchInputs _ _ _ _ _ _ _) as [mapInputs|]; [|reflexivity]; f_equal.
  destruct (AreInputsStandard tx mapInputs) as [std|]; [|reflexivity]; cbn [or_throw obind]; destruct (negb std && negb fTestNet); [reflexivity|].
  destruct (GetValueIn tx mapInputs) as [nIn|]; [|reflexivity]; destruct (GetValueOut tx) as [nOut|]; [|reflexivity]; cbn [or_throw obind]; cbv zeta.
  pose proof (fees_of_accepted tx 1000 GMF_RELAY (ser_size tx_codec tx) Hc Hv Hs) as Hm.
  rewrite (codec_size (codec_ok := tx_ok) tx Hv) in *; pose proof (Z.mod_pos_bound (size_of (enc tx_codec tx)) (2 ^ 32)).
  destruct (Z.ltb_spec (i64_sub nIn nOut) (GetMinFee foreign_GetOp tx 1000 GMF_RELAY (size_of (enc tx_codec tx) mod 2 ^ 32))); [reflexivity|].
  rewrite (proj2 (Z.ltb_ge (i64_sub nIn nOut) MIN_RELAY_TX_FEE)) by lia; reflexivity.
Qed.

(** The outputs are unspent in the entries that were fetched. *)
Definition fetched_unspent (inputs : MapPrevTx) (i : CTxIn) : Prop :=
  exists x t, inputs !! op_hash (prevout i) = Some (x, t) /\ pos_IsNull (spent_at x (op_n (prevout i))) = true.

Lemma spend_loop_unspent tx p fBlock fMiner fSkip k ins inputs pool pool' : pos_IsNull p = false ->
  Forall (fun i => 0 <= op_n (prevout i) /\ forall x t, inputs !! op_hash (prevout i) = Some (x, t) -> op_n (prevout i) < Z.of_nat (length (vSpent x))) ins ->
  spend_loop tx p fBlock fMiner fSkip k ins inputs pool = Done pool' -> Forall (fetched_unspent inputs) ins.
Proof.
  intros Hp; revert k inputs pool; induction ins as [|j ins IH]; intros k inputs pool Hr E; [constructor|]; cbn [spend_loop] in E.
  apply Forall_cons_iff in Hr as [[Hj0 Hj] Hr].
  destruct (inputs !! op_hash (prevout j)) as [[x t]|] eqn:Ej; [|discriminate E].
  destruct (pos_IsNull (spent_at x (op_n (prevout j)))) eqn:En; [|discriminate E]; cbn [negb] in E.
  destruct (negb fSkip && _); [discriminate E|]; specialize (Hj x t eq_refl).
  constructor; [exists x, t; now split|]; apply IH in E.
  - rewrite List.Forall_forall in E, Hr |- *; intros i Hi; destruct (E i Hi) as (y & u & Ey & Hy); destruct (Hr i Hi) as [Hi0 _].
    destruct (decide (op_hash (prevout j) = op_hash (prevout i))) as [Eh|Hne]; [|rewrite lookup_insert_ne in Ey by assumption; now exists y, u].
    rewrite <- Eh, lookup_insert_eq in Ey; injection Ey as <- <-; exists x, t; rewrite <- Eh; split; [exact Ej|].
    destruct (decide (op_n (prevout j) = op_n (prevout i))) as [Ei|Hni].
    + rewrite <- Ei, spent_set_same in Hy by lia; congruence.
    + now rewrite spent_set_other in Hy by (assumption || lia).
  - rewrite List.Forall_forall in Hr |- *; intros i Hi; destruct (Hr i Hi) as [Hi0 Hil]; split; [exact Hi0|]; intros y u Ey.
    destruct (decide (op_hash (prevout j) = op_hash (prevout i))) as [Eh|Hne]; [|rewrite lookup_insert_ne in Ey by assumption; now apply (Hil y u)].
    rewrite <- Eh, lookup_insert_eq in Ey; injection Ey as <- <-; rewrite length_set_spent by lia; rewrite <- Eh, Ej in Hil; now apply (Hil x t).
Qed.

(** What the checks with inputs let through. *)
Record inputs_accepted (txdb : tx_map) (p : CTxMemPool) (tx : CTransaction) (chain : list CBlockIndex) (inputs : MapPrevTx) : Prop := {
  acc_fetched : FetchInputs (fun h => mapTx p !! h) ReadTx txdb ∅ false false tx = inl inputs;
  acc_standard : fTestNet = true \/ AreInputsStandard tx inputs = Some true;
  acc_inputs : Forall (input_ok tx inputs chain) (vin tx);
  acc_unspent : Forall (fetched_unspent inputs) (vin tx);
  acc_signed : forall k i, nth_error (vin tx) k = Some i -> signed tx inputs k i;
  acc_value : 0 <= sum_inputs inputs (vin tx) <= MAX_MONEY;
  acc_fee : sum_values (vout tx) + MIN_RELAY_TX_FEE <= sum_inputs inputs (vin tx)
}.

Lemma accept_inputs_done r txdb p tx chain missing : CheckTransaction tx = None -> tx_valid tx -> size_of (enc tx_codec tx) < 2 ^ 32 ->
  IsCoinBase tx = false -> IsCoinStake tx = false -> accept_inputs r txdb p tx chain = (Done tt, missing) ->
  missing = false /\ exists inputs, inputs_accepted txdb p tx chain inputs.
Proof.
  intros Hc Hv Hs Hcb Hcs E; unfold accept_inputs in E; destruct (FetchInputs _ _ _ _ _ _ _) as [inputs|] eqn:Ef; [|discriminate E].
  injection E as E <-; split; [reflexivity|]; exists inputs; apply obind_done in E as (std & E1 & E); apply or_throw_done in E1.
  destruct (negb std && negb fTestNet) eqn:Estd; [discriminate E|]; apply obind_done in E as (nIn & E2 & E); apply obind_done in E as (nOut & E3 & E).
  cbv zeta in E; destruct (_ <? GetMinFee _ _ _ _ _); [discriminate E|]; destruct (_ && _) in E; [discriminate E|].
  apply obind_done in E as (pool & E & _); unfold ConnectInputs in E; rewrite Hcb in E.
  apply obind_done in E as (nSum & Ec & E); apply obind_done in E as (pool1 & Es & E); apply obind_done in E as (u & Efee & _).
  apply check_inputs_spec in Ec; [|unfold MAX_MONEY, COIN; lia]; destruct Ec as (Esum & Hrange & Hok); rewrite Z.add_0_l in Esum; subst nSum.
  constructor; auto.
  - destruct std, fTestNet; try discriminate Estd; auto.
  - apply (spend_loop_unspent tx (DiskTxPos 1 1 1) false false false 0 (vin tx) inputs ∅ pool1); [reflexivity | | exact Es].
    pose proof (tx_valid_unsigned tx Hv) as Hn; unfold unsigned_inputs in Hn; rewrite List.Forall_forall in Hok, Hn |- *; intros i Hi; split; [now apply Hn|].
    intros x t Ex; destruct (Hok i Hi) as (x' & t' & Ex' & _ & Hl & _); rewrite Ex in Ex'; now injection Ex' as -> ->.
  - intros k i Ek; exact (spend_loop_signed tx _ _ _ 0 _ _ _ _ Es k i Ek).
  - pose proof (check_fee_spec _ tx _ false u Hrange Efee Hcs); pose proof (fees_of_accepted tx 1 GMF_BLOCK 0 Hc Hv Hs); lia.
Qed.

Lemma no_conflict_iff p ins : existsb (fun txin => bool_decide (is_Some (mapNextTx p !! prevout txin))) ins = false <->
  Forall (fun i => mapNextTx p !! prevout i = None) ins.
Proof.
  rewrite existsb_Forall; split; (intros Hf; eapply Forall_impl; [exact Hf|]); intros i; cbv beta; rewrite bool_decide_eq_false, <- eq_None_not_Some; auto.
Qed.

Lemma accept_done r txdb p tx fCheck chain p' missing : accept fEnforceCanonical r txdb p tx fCheck chain = (Done p', missing) ->
  CheckTransaction tx = None /\ IsCoinBase tx = false /\ IsCoinStake tx = false
  /\ (fTestNet = true \/ tx_IsStandard fEnforceCanonical tx = true) /\ mapTx p !! tx_GetHash tx = None
  /\ Forall (fun i => mapNextTx p !! prevout i = None) (vin tx)
  /\ (fCheck = true -> txdb !! tx_GetHash tx = None /\ accept_inputs r txdb p tx chain = (Done tt, missing))
  /\ (fCheck = false -> missing = false) /\ p' = addUnchecked p (tx_GetHash tx) tx.
Proof.
  unfold accept; destruct (CheckTransaction tx); [discriminate|]; destruct (IsCoinBase tx); [discriminate|]; destruct (IsCoinStake tx); [discriminate|].
  destruct (negb fTestNet && _) eqn:Est; [discriminate|]; cbv zeta.
  case_bool_decide as Ht; [discriminate|]; rewrite <- eq_None_not_Some in Ht.
  destruct (fCheck && _) eqn:Edb; [discriminate|]; destruct (existsb _ _) eqn:Ex; [discriminate|]; apply no_conflict_iff in Ex.
  destruct fCheck.
  - destruct (accept_inputs r txdb p tx chain) as [[[]|n|] miss] eqn:Ea; intros E; injection E as E <-; try discriminate E; subst p'.
    cbn [andb] in Edb; rewrite bool_decide_eq_false, <- eq_None_not_Some in Edb.
    repeat split; auto; try discriminate; destruct fTestNet; [now left | right; now destruct (tx_IsStandard _ _)].
  - intros E; injection E as <- <-; repeat split; auto; try discriminate; destruct fTestNet; [now left | right; now destruct (tx_IsStandard _ _)].
Qed.

(** C6: What the pool accepts.  A transaction that [accept] takes is well
    formed, neither a coinbase nor a coinstake, standard (off the test net),
    new, and spends no output that a transaction of the pool spends; the pool
    gains exactly this transaction, and [mapNextTx] still lists exactly the
    outputs spent by transactions of the pool, each spent once.  With
    [fCheckInputs] every input refers to an existing unspent output of the chain
    or the pool that is mature, not younger and signed for, and the inputs cover
    the outputs and the relay fee.  The limiter of free transactions has no
    influence on any result: no transaction that reaches it is free. *)
Theorem accept_sound (limit limit' : CTransaction -> Z -> bool) (txdb : tx_map) (p : CTxMemPool) (tx : CTransaction) (fCheckInputs : bool)
    (chain : list CBlockIndex) :
  pool_ok p -> tx_valid tx -> size_of (enc tx_codec tx) < 2 ^ 32 ->
  accept fEnforceCanonical limit txdb p tx fCheckInputs chain = accept fEnforceCanonical limit' txdb p tx fCheckInputs chain
  /\ forall p' missing, accept fEnforceCanonical limit txdb p tx fCheckInputs chain = (Done p', missing) ->
     missing = false /\ tx_acceptable tx /\ IsCoinBase tx = false /\ IsCoinStake tx = false
     /\ (fTestNet = true \/ tx_IsStandard fEnforceCanonical tx = true)
     /\ mapTx p !! tx_GetHash tx = None /\ mapTx p' = <[tx_GetHash tx := tx]> (mapTx p) /\ pool_ok p'
     /\ (forall i n h, i ∈ vin tx -> ~ spent_by p (prevout i) h n)
     /\ (fCheckInputs = true -> txdb !! tx_GetHash tx = None /\ exists inputs, inputs_accepted txdb p tx chain inputs).
Proof.
  intros Hp Hv Hs; split.
  - unfold accept; destruct (CheckTransaction tx) eqn:Ec; [reflexivity|].
    rewrite (accept_inputs_limiter limit limit' txdb p tx chain Ec Hv Hs); reflexivity.
  - intros p' missing E; destruct (accept_done _ _ _ _ _ _ _ _ E) as (Hc & Hcb & Hcs & Hst & Hnew & Hf & Hdb & Hm & ->).
    assert (Hcom : size_of (strTxComment tx) < 2 ^ 32) by (destruct Hv as (_ & _ & _ & _ & _ & [_ Hcom] & _); unfold MAX_SIZE in Hcom; lia).
    pose proof (proj1 (acceptable_iff tx Hv Hs Hcom) Hc) as Hacc.
    assert (Hok : missing = false /\ (fCheckInputs = true -> txdb !! tx_GetHash tx = None /\ exists inputs, inputs_accepted txdb p tx chain inputs)).
    { destruct fCheckInputs; [|split; [now apply Hm | discriminate]]; destruct (Hdb eq_refl) as [Hd Ha].
      destruct (accept_inputs_done _ _ _ _ _ _ Hc Hv Hs Hcb Hcs Ha) as [-> Hi]; auto. }
    destruct Hok as [-> Hi]; repeat (split; [assumption || reflexivity|]); split; [|split; [|exact Hi]].
    + apply add_pool_ok; auto; apply NoDup_ListNoDup; apply Hacc.
    + intros i n h Hin Hsp; apply (pool_spent _ Hp) in Hsp; rewrite Forall_forall in Hf; rewrite (Hf i Hin) in Hsp; discriminate.
Qed.

End Accept.

(** ** The store of orphans *)

Section OrphanStore.
Context {H : hash_lib} {HH : hash_laws H}.

Definition spends_of (ins : list CTxIn) (k : list Z) : Prop := exists i, i ∈ ins /\ op_hash (prevout i) = k.

Record orphans_ok (o : orphans) : Prop := {
  orphan_hash : forall h t, mapOrphanTransactions o !! h = Some t -> tx_GetHash t = h /\ ser_size tx_codec t <= 5000;
  orphan_prev : forall k h, h ∈ prev_set (mapOrphanTransactionsByPrev o) k <->
    exists t, mapOrphanTransactions o !! h = Some t /\ spends_of (vin t) k;
  orphan_used : forall k s, mapOrphanTransactionsByPrev o !! k = Some s -> s <> ∅
}.

Lemma spends_of_cons i ins k : spends_of (i :: ins) k <-> op_hash (prevout i) = k \/ spends_of ins k.
Proof.
  unfold spends_of; split.
  - intros (j & Hj & E); apply elem_of_cons in Hj as [->|Hj]; [now left | right; now exists j].
  - intros [E|(j & Hj & E)]; [exists i; split; [now left | exact E] | exists j; split; [now right | exact E]].
Qed.

Lemma prev_set_insert (m : orphan_map) k s k' : prev_set (<[k := s]> m) k' = if decide (k = k') then s else prev_set m k'.
Proof. unfold prev_set; destruct (decide (k = k')) as [<-|Hne]; [now rewrite lookup_insert_eq | now rewrite lookup_insert_ne]. Qed.

Lemma prev_set_delete (m : orphan_map) k k' : prev_set (delete k m) k' = if decide (k = k') then ∅ else prev_set m k'.
Proof. unfold prev_set; destruct (decide (k = k')) as [<-|Hne]; [now rewrite lookup_delete_eq | now rewrite lookup_delete_ne]. Qed.

Lemma link_spec hash ins : forall (m : orphan_map), (forall k s, m !! k = Some s -> s <> ∅) ->
  let m' := fold_left (fun m txin => let k := op_hash (prevout txin) in <[k := {[hash]} ∪ prev_set m k]> m) ins m in
  (forall k s, m' !! k = Some s -> s <> ∅) /\ forall k x, x ∈ prev_set m' k <-> x ∈ prev_set m k \/ x = hash /\ spends_of ins k.
Proof.
  induction ins as [|i ins IH]; intros m Hm; cbn [fold_left].
  - split; [exact Hm|]; intros k x; split; [now left | intros [Hx|[_ (j & Hj & _)]]; [exact Hx | now apply not_elem_of_nil in Hj]].
  - cbv zeta in *; destruct (IH (<[op_hash (prevout i) := {[hash]} ∪ prev_set m (op_hash (prevout i))]> m)) as [H1 H2].
    { intros k s; destruct (decide (op_hash (prevout i) = k)) as [<-|Hne]; [rewrite lookup_insert_eq; intros [= <-]; set_solver|].
      rewrite lookup_insert_ne by assumption; apply Hm. }
    split; [exact H1|]; intros k x; rewrite H2, prev_set_insert, spends_of_cons; destruct (decide (op_hash (prevout i) = k)) as [<-|Hne]; [rewrite elem_of_union, elem_of_singleton|]; tauto.
Qed.

Lemma unlink_set hash m i k : prev_set (unlink hash m i) k = if decide (op_hash (prevout i) = k) then prev_set m k ∖ {[hash]} else prev_set m k.
Proof.
  unfold unlink; cbv zeta; case_bool_decide as E; [rewrite prev_set_delete | rewrite prev_set_insert];
    (destruct (decide (op_hash (prevout i) = k)) as [<-|Hne]; [now rewrite ?E | reflexivity]).
Qed.

Lemma unlink_spec hash ins : forall (m : orphan_map), (forall k s, m !! k = Some s -> s <> ∅) ->
  let m' := fold_left (unlink hash) ins m in
  (forall k s, m' !! k = Some s -> s <> ∅) /\ forall k x, x ∈ prev_set m' k <-> x ∈ prev_set m k /\ ~ (x = hash /\ spends_of ins k).
Proof.
  induction ins as [|i ins IH]; intros m Hm; cbn [fold_left].
  - split; [exact Hm|]; intros k x; split; [intros Hx; split; [exact Hx | intros [_ (j & Hj & _)]; now apply not_elem_of_nil in Hj] | tauto].
  - cbv zeta in *; destruct (IH (unlink hash m i)) as [H1 H2].
    { intros k s; unfold unlink; cbv zeta; case_bool_decide as E; destruct (decide (op_hash (prevout i) = k)) as [<-|Hne].
      - now rewrite lookup_delete_eq.
      - rewrite lookup_delete_ne by assumption; apply Hm.
      - rewrite lookup_insert_eq; now intros [= <-].
      - rewrite lookup_insert_ne by assumption; apply Hm. }
    split; [exact H1|]; intros k x; rewrite H2, unlink_set, spends_of_cons; destruct (decide (op_hash (prevout i) = k)) as [<-|Hne]; [rewrite elem_of_difference, elem_of_singleton|]; tauto.
Qed.

Lemma add_orphan_ok o tx : orphans_ok o -> orphans_ok (fst (AddOrphanTx o tx)).
Proof.
  intros Ho; unfold AddOrphanTx; cbv zeta; case_bool_decide as Hn; [exact Ho|]; destruct (Z.ltb_spec 5000 (ser_size tx_codec tx)); [exact Ho|].
  rewrite <- eq_None_not_Some in Hn; destruct Ho as [Oh Op Ou]; destruct (link_spec (tx_GetHash tx) (vin tx) _ Ou) as [H1 H2].
  constructor; cbn [fst mapOrphanTransactions mapOrphanTransactionsByPrev].
  - intros h t; destruct (decide (tx_GetHash tx = h)) as [<-|Hne]; [rewrite lookup_insert_eq; now intros [= <-] | rewrite lookup_insert_ne by assumption; apply Oh].
  - intros k h; rewrite H2, Op; destruct (decide (tx_GetHash tx = h)) as [<-|Hne].
    + rewrite lookup_insert_eq, Hn; split; [intros [(t & [=] & _)|[_ Hs]]; eauto | intros (t & [= <-] & Hs); now right].
    + rewrite lookup_insert_ne by assumption; split; [intros [Hx|[E _]]; [exact Hx | congruence] | now left].
  - exact H1.
Qed.

Lemma erase_orphan_ok o h : orphans_ok o -> orphans_ok (EraseOrphanTx o h).
Proof.
  intros Ho; unfold EraseOrphanTx; destruct (mapOrphanTransactions o !! h) as [tx|] eqn:E; [|exact Ho].
  destruct Ho as [Oh Op Ou]; destruct (unlink_spec h (vin tx) _ Ou) as [H1 H2]; constructor; cbn [mapOrphanTransactions mapOrphanTransactionsByPrev].
  - intros k t; rewrite lookup_delete_Some; intros [_ Ek]; now apply Oh.
  - intros k x; rewrite H2, Op; split.
    + intros [(t & Et & Hs) Hn]; exists t; split; [|exact Hs]; rewrite lookup_delete_Some; split; [|exact Et]; intros <-.
      apply Hn; split; [reflexivity|]; rewrite E in Et; now injection Et as <-.
    + intros (t & Et & Hs); rewrite lookup_delete_Some in Et; destruct Et as [Hne Et]; split; [now exists t | intros [-> _]; contradiction].
  - exact H1.
Qed.

Lemma least_in keys k : least keys = Some k -> k ∈ keys.
Proof.
  revert k; induction keys as [|a keys IH]; intros k; cbn [least fold_right]; [discriminate|]; fold (least keys); destruct (least keys) as [b|] eqn:E.
  - destruct (uint_lt a b); intros [= <-]; [now left | right; now apply IH].
  - intros [= <-]; now left.
Qed.

Lemma least_some keys : keys <> [] -> exists k, least keys = Some k.
Proof. destruct keys as [|a keys]; [easy|]; intros _; cbn [least fold_right]; fold (least keys); destruct (least keys) as [b|]; [destruct (uint_lt a b)|]; eauto. Qed.

Lemma random_orphan_some (m : tx_pool) r : (0 < size m)%nat -> exists k t, random_orphan m r = Some k /\ m !! k = Some t.
Proof.
  intros Hs; unfold random_orphan; cbv zeta; set (keys := (map_to_list m).*1).
  assert (Hin : forall k, k ∈ keys -> exists t, m !! k = Some t).
  { intros k Hk; apply list_elem_of_fmap in Hk as ([k' t] & -> & Hk); exists t; now apply elem_of_map_to_list in Hk. }
  destruct (least (List.filter _ keys)) as [k|] eqn:E.
  - apply least_in, list_elem_of_In, filter_In in E as [E _]; apply list_elem_of_In, Hin in E as [t Et]; now exists k, t.
  - destruct (least_some keys) as [k Ek]; [|destruct (Hin k (least_in _ _ Ek)) as [t Et]; now exists k, t].
    intros E0; assert (length keys = size m) by (unfold keys; rewrite length_fmap; apply length_map_to_list); rewrite E0 in *; cbn in *; lia.
Qed.

Lemma limit_loop_spec rand nMax : 0 <= nMax -> forall fuel o nEvicted, orphans_ok o -> (size (mapOrphanTransactions o) <= fuel)%nat ->
  0 <= nEvicted -> nEvicted + Z.of_nat (size (mapOrphanTransactions o)) < 2 ^ 32 ->
  exists o', limit_loop rand fuel nMax nEvicted o = Some (o', nEvicted + Z.max 0 (Z.of_nat (size (mapOrphanTransactions o)) - nMax))
    /\ orphans_ok o' /\ mapOrphanTransactions o' ⊆ mapOrphanTransactions o
    /\ Z.of_nat (size (mapOrphanTransactions o')) = Z.min nMax (Z.of_nat (size (mapOrphanTransactions o))).
Proof.
  intros Hmax fuel; induction fuel as [|fuel IH]; intros o nEvicted Ho Hf He Hs; cbn [limit_loop];
    (destruct (Z.leb_spec (Z.of_nat (size (mapOrphanTransactions o))) nMax) as [Hle|Hgt];
     [exists o; split; [do 2 f_equal; lia|]; split; [exact Ho|]; split; [reflexivity | lia]|]); [lia|].
  destruct (random_orphan_some (mapOrphanTransactions o) (rand fuel)) as (h & t & -> & Et); [lia|].
  assert (Es : S (size (mapOrphanTransactions (EraseOrphanTx o h))) = size (mapOrphanTransactions o)).
  { unfold EraseOrphanTx; rewrite Et; cbn [mapOrphanTransactions]; rewrite map_size_delete_Some by (now exists t); lia. }
  rewrite u32_small by lia.
  destruct (IH (EraseOrphanTx o h) (nEvicted + 1) (erase_orphan_ok o h Ho)) as (o' & -> & Ho' & Hsub & Hsz); [lia..|].
  exists o'; split; [do 2 f_equal; lia|]; split; [exact Ho'|]; split; [|lia].
  etransitivity; [exact Hsub|]; unfold EraseOrphanTx; rewrite Et; apply delete_subseteq.
Qed.

(** C13: The store of orphan transactions stays consistent and bounded.
    [AddOrphanTx] and [EraseOrphanTx] keep the index by previous
    transaction exact (a transaction is listed under the hashes it spends
    from, nothing else is, and no list is empty), and every orphan has at most
    5000 bytes.  [LimitOrphanTxSize] ends whatever random hashes it draws,
    evicts exactly the excess over the limit, and keeps the others. *)
Theorem orphans_bounded (rand : nat -> list Z) (o : orphans) (tx : CTransaction) (h : list Z) (nMaxOrphans : Z) :
  orphans_ok o -> 0 <= nMaxOrphans -> Z.of_nat (size (mapOrphanTransactions o)) < 2 ^ 32 ->
  orphans_ok (fst (AddOrphanTx o tx)) /\ orphans_ok (EraseOrphanTx o h)
  /\ exists o' nEvicted, LimitOrphanTxSize rand o nMaxOrphans = Some (o', nEvicted)
     /\ nEvicted = Z.max 0 (Z.of_nat (size (mapOrphanTransactions o)) - nMaxOrphans)
     /\ orphans_ok o' /\ mapOrphanTransactions o' ⊆ mapOrphanTransactions o
     /\ Z.of_nat (size (mapOrphanTransactions o')) = Z.min nMaxOrphans (Z.of_nat (size (mapOrphanTransactions o))).
Proof.
  intros Ho Hm Hs; split; [now apply add_orphan_ok|]; split; [now apply erase_orphan_ok|].
  destruct (limit_loop_spec rand nMaxOrphans Hm _ o 0 Ho (Nat.le_refl _) (Z.le_refl 0) Hs) as (o' & E & Hr); exists o'.
  eexists; split; [exact E|]; split; [lia | exact Hr].
Qed.

End OrphanStore.

(** ** Samples *)

Definition empty_pool : CTxMemPool := MemPool ∅ ∅ 0.

Lemma empty_pool_ok : pool_ok (H := toy_hash) empty_pool.
Proof.
  constructor; unfold empty_pool; cbn [mapTx mapNextTx].
  - intros h t E; now rewrite lookup_empty in E.
  - intros o it E; now rewrite lookup_empty in E.
  - intros o h n (t & i & E & _); cbn [mapTx] in E; now rewrite lookup_empty in E.
Qed.

(** A node of the test net, where anyone may spend the two coins. *)
Definition pool_node : node_env := {|
  fTestNet := true;
  now := 1432620700;
  fSkip := false;
  Hash9 _ := null_hash;
  ReadTx _ := Some two_coins;
  ReadBlockHeader _ _ := None;
  ReadBlock _ := CBlock_null;
  mempool_lookup _ := None;
  next_hash _ := null_hash;
  foreign_GetOp _ _ := None
|}.

Definition accept_both : outcome CTxMemPool * bool :=
  accept (H := toy_hash) (L := BN_ideal) (EC := toy_ec) (N := pool_node) true (fun _ _ => true) coins_db empty_pool spend_both true [].
Definition both_hash : list Z := tx_GetHash (H := toy_hash) spend_both.
Definition both_pool : CTxMemPool := addUnchecked empty_pool both_hash spend_both.

Lemma spend_both_valid : tx_valid spend_both.
Proof. unfold spend_both; valid_dec; discriminate. Qed.

(** The transaction that spends both coins is accepted. *)
Lemma accept_sound_witness : accept_both = (Done both_pool, false) /\ pool_ok (H := toy_hash) both_pool.
Proof.
  assert (E : accept_both = (Done both_pool, false)) by (vm_compute; reflexivity).
  split; [exact E|].
  destruct (accept_sound (H := toy_hash) (L := BN_ideal) (EC := toy_ec) (N := pool_node) true (fun _ _ => true) (fun _ _ => true) coins_db
    empty_pool spend_both true [] empty_pool_ok spend_both_valid) as [_ Ha]; [vm_compute; reflexivity|].
  apply (Ha both_pool false E).
Defined.

(** Another transaction that spends the first coin removes it. *)
Definition spend_first : CTransaction := Tx 1 2000 [TxIn (OutPoint coins_hash 0) [] 0xFFFFFFFF] [TxOut (2 * COIN) []] 0 [] 0.

Lemma both_pool_ok : pool_ok (H := toy_hash) both_pool.
Proof.
  unfold both_pool, both_hash; apply (add_pool_ok (H := toy_hash) empty_pool spend_both empty_pool_ok); [apply lookup_empty | | repeat constructor].
  apply NoDup_cons; split; [|apply NoDup_singleton]; rewrite list_elem_of_singleton; intros E; apply (f_equal op_n) in E; discriminate E.
Qed.

Lemma single_lookup h tx : mapTx (addUnchecked empty_pool h tx) !! h = Some tx.
Proof. apply lookup_insert_eq. Qed.

Lemma single_acyclic h0 tx : Forall (fun i => op_hash (prevout i) <> h0) (vin tx) -> acyclic_by (fun _ => 0%nat) (addUnchecked empty_pool h0 tx).
Proof.
  intros Hf h h' (t & j & n & E & _ & t' & i & E' & Ei & Eo); exfalso; cbn [addUnchecked mapTx empty_pool] in E, E'.
  apply lookup_insert_Some in E as [[<- <-]|[_ E]]; [|now rewrite lookup_empty in E].
  apply lookup_insert_Some in E' as [[<- <-]|[_ E']]; [|now rewrite lookup_empty in E'].
  rewrite Forall_lookup in Hf; apply (Hf n i Ei); now rewrite Eo.
Qed.

Lemma both_acyclic : acyclic_by (fun _ => 0%nat) both_pool.
Proof. apply single_acyclic; repeat constructor; vm_compute; discriminate. Qed.

Lemma single_spent h tx n i : vin tx !! n = Some i -> spent_by (addUnchecked empty_pool h tx) (prevout i) h n.
Proof. intros E; exists tx, i; split; [apply single_lookup | now split]. Qed.

Lemma remove_conflicts_exact_witness : exists q, removeConflicts (H := toy_hash) 2 both_pool spend_first = Some q /\ mapTx q !! both_hash = None.
Proof.
  destruct (remove_conflicts_exact (H := toy_hash) (fun _ => 0%nat) 2 both_pool spend_first both_pool_ok both_acyclic) as (q & E & _ & _ & Hg & _).
  - vm_compute; lia.
  - exists q; split; [exact E|]; apply (Hg both_hash spend_both (single_lookup both_hash spend_both)); exists both_hash; split; [|apply rtc_refl].
    exists (TxIn (OutPoint coins_hash 0) [] 0xFFFFFFFF), 0%nat, spend_both; split; [now left|].
    split; [exact (single_spent both_hash spend_both 0 _ eq_refl)|]; split; [exact (single_lookup both_hash spend_both) | reflexivity].
Defined.

Definition no_orphans : orphans := Orphans ∅ ∅.

Lemma no_orphans_ok : orphans_ok (H := toy_hash) no_orphans.
Proof.
  constructor; unfold no_orphans; cbn [mapOrphanTransactions mapOrphanTransactionsByPrev].
  - intros h t E; now rewrite lookup_empty in E.
  - intros k h; unfold prev_set; rewrite lookup_empty; cbn; split; [now intros Hx%elem_of_empty | intros (t & E & _); now rewrite lookup_empty in E].
  - intros k s E; now rewrite lookup_empty in E.
Qed.

Definition one_orphan : orphans := fst (AddOrphanTx (H := toy_hash) no_orphans spend_both).

(** One orphan over the limit is evicted. *)
Lemma orphans_bounded_witness : exists o', LimitOrphanTxSize (fun _ => null_hash) one_orphan 0 = Some (o', 1) /\ mapOrphanTransactions o' = ∅.
Proof.
  destruct (orphans_bounded (H := toy_hash) (fun _ => null_hash) one_orphan spend_both [] 0) as (_ & _ & o' & n & E & En & _ & _ & Hs).
  - apply add_orphan_ok, no_orphans_ok.
  - lia.
  - vm_compute; reflexivity.
  - assert (E1 : Z.of_nat (size (mapOrphanTransactions one_orphan)) = 1) by (vm_compute; reflexivity); rewrite E1 in *.
    exists o'; split; [rewrite E, En; reflexivity|].
    apply map_size_empty_iff; lia.
Defined.
