(* ===== verification/Chain.v ===== *)
(** * Chain: the best chain and reorganizations (main.cpp)

    [Reorganize], [SetBestChainInner] and [SetBestChain] on the state of the
    node: the index entries in memory with their links, the database, the
    memory pool and the variables of the best chain.  An entry is found by its
    hash, which stands for its address; the chain of an entry is the list of
    the entries back to the genesis block.  A database transaction works on a copy of the
    database that is committed or dropped.  The wallets, the user interface
    and errors of the database are not modelled. *)

From Stdlib Require Import ZArith List Lia Bool.
From stdpp Require Import gmap list.
From S2P Require Import Prelude SphTypes Uint256 Merkle Serialize Transaction BigNum Script Interp SigHash BlockIndex.
From S2P Require Import Stake Difficulty Kernel Subsidy Inputs CheckBlock Connect Mempool.
Import ListNotations.

Open Scope Z_scope.

(** ** The state *)

(** An entry with its links. *)
Record index_node := IndexNode { in_entry : CBlockIndex; in_pprev : option (list Z); in_pnext : option (list Z) }.
Abbreviation block_index := (gmap (list Z) index_node).

Record node_state := Node {
  ns_index : block_index;
  ns_db : CTxDB;
  ns_best : option (list Z);
  ns_hashBestChain : list Z;
  ns_nBestHeight : Z;
  ns_nBestChainTrust : list Z;
  ns_nBestInvalidTrust : list Z;
  ns_genesis : option (list Z);
  ns_pool : CTxMemPool;
  ns_turbo : turbo_map
}.

Definition with_index (st : node_state) (i : block_index) : node_state :=
  Node i (ns_db st) (ns_best st) (ns_hashBestChain st) (ns_nBestHeight st) (ns_nBestChainTrust st) (ns_nBestInvalidTrust st)
    (ns_genesis st) (ns_pool st) (ns_turbo st).
Definition with_db (st : node_state) (db : CTxDB) : node_state :=
  Node (ns_index st) db (ns_best st) (ns_hashBestChain st) (ns_nBestHeight st) (ns_nBestChainTrust st) (ns_nBestInvalidTrust st)
    (ns_genesis st) (ns_pool st) (ns_turbo st).
Definition with_pool (st : node_state) (p : CTxMemPool) : node_state :=
  Node (ns_index st) (ns_db st) (ns_best st) (ns_hashBestChain st) (ns_nBestHeight st) (ns_nBestChainTrust st) (ns_nBestInvalidTrust st)
    (ns_genesis st) p (ns_turbo st).
Definition with_turbo (st : node_state) (m : turbo_map) : node_state :=
  Node (ns_index st) (ns_db st) (ns_best st) (ns_hashBestChain st) (ns_nBestHeight st) (ns_nBestChainTrust st) (ns_nBestInvalidTrust st)
    (ns_genesis st) (ns_pool st) m.
Definition with_invalid (st : node_state) (t : list Z) : node_state :=
  Node (ns_index st) (ns_db st) (ns_best st) (ns_hashBestChain st) (ns_nBestHeight st) (ns_nBestChainTrust st) t
    (ns_genesis st) (ns_pool st) (ns_turbo st).
Definition with_genesis (st : node_state) (h : list Z) : node_state :=
  Node (ns_index st) (ns_db st) (ns_best st) (ns_hashBestChain st) (ns_nBestHeight st) (ns_nBestChainTrust st) (ns_nBestInvalidTrust st)
    (Some h) (ns_pool st) (ns_turbo st).

(** The entries from [h] back. *)
Fixpoint chain_from (fuel : nat) (i : block_index) (h : list Z) : list CBlockIndex :=
  match fuel with
  | O => []
  | S fuel =>
      match i !! h with
      | None => []
      | Some n => in_entry n :: match in_pprev n with Some p => chain_from fuel i p | None => [] end
      end
  end.

(** Heights go down by one along [pprev], so the height bounds the steps. *)
Definition steps_from (i : block_index) (h : list Z) : nat :=
  match i !! h with Some n => S (Z.to_nat (bi_nHeight (in_entry n))) | None => O end.
Definition chain_of (i : block_index) (h : list Z) : list CBlockIndex := chain_from (steps_from i h) i h.

Definition set_entry (i : block_index) (h : list Z) (e : CBlockIndex) : block_index :=
  alter (fun n => IndexNode e (in_pprev n) (in_pnext n)) h i.
Definition set_pnext (i : block_index) (h : list Z) (next : option (list Z)) : block_index :=
  alter (fun n => IndexNode (in_entry n) (in_pprev n) next) h i.
Definition prev_of (i : block_index) (h : list Z) : option (list Z) := match i !! h with Some n => in_pprev n | None => None end.
Definition next_of (i : block_index) (h : list Z) : option (list Z) := match i !! h with Some n => in_pnext n | None => None end.

(** [if (pindex->pprev) pindex->pprev->pnext = next]. *)
Definition link_prev (next : list Z -> option (list Z)) (i : block_index) (h : list Z) : block_index :=
  match prev_of i h with Some p => set_pnext i p (next h) | None => i end.

(** ** The fork *)

Definition same_block (a b : CBlockIndex) : bool := bool_decide (bi_hash a = bi_hash b).

(** [while (plonger->nHeight > pfork->nHeight) plonger = plonger->pprev]; the
    empty list is [NULL]. *)
Fixpoint drop_longer (nHeight : Z) (plonger : list CBlockIndex) : list CBlockIndex :=
  match plonger with
  | [] => []
  | l :: pprev => if nHeight <? bi_nHeight l then drop_longer nHeight pprev else plonger
  end.

Fixpoint find_fork (pfork plonger : list CBlockIndex) : option (list CBlockIndex) :=
  match pfork with
  | [] => None
  | f :: fprev =>
      match plonger with
      | [] => None
      | l :: _ =>
          if same_block f l then Some pfork
          else match drop_longer (bi_nHeight f) plonger with
               | [] => None
               | l' :: lprev => if same_block f l' then Some pfork else find_fork fprev (l' :: lprev)
               end
      end
  end.

(** The blocks from the head of the chain down to [pfork]. *)
Fixpoint branch (pfork : list Z) (chain : list CBlockIndex) : list CBlockIndex :=
  match chain with
  | [] => []
  | p :: pprev => if bool_decide (bi_hash p = pfork) then [] else p :: branch pfork pprev
  end.

Section Chain.
Context {H : hash_lib} {L : BN_lib} {EC : ec_lib} {N : node_env}.

(** The block files, the estimate of the number of blocks in checkpoints, the
    hash of the genesis block, and options. *)
Context (read_file : Z -> Z -> option CBlock) (nTotalBlocksEstimate : Z) (hashGenesisBlock : list Z) (fEnforceCanonical : bool)
  (rate_limited : CTransaction -> Z -> bool).

Definition block_hash (b : CBlock) : list Z := block_GetHash Hash9 b.

(** [CBlock::ReadFromDisk(pindex)] *)
Definition block_ReadFromDisk (pindex : CBlockIndex) : option CBlock :=
  match read_file (bi_nFile pindex) (bi_nBlockPos pindex) with
  | None => None
  | Some b => if uint_eq (block_hash b) (bi_hash pindex) then Some b else None
  end.

(** What [ConnectBlock] and [DisconnectBlock] read: the links in memory, and
    whether the best height is below the last checkpoint. *)
Definition env_of (st : node_state) : node_env := {|
  fTestNet := fTestNet;
  now := now;
  fSkip := ns_nBestHeight st <? nTotalBlocksEstimate;
  Hash9 := Hash9;
  ReadTx := ReadTx;
  ReadBlockHeader := ReadBlockHeader;
  ReadBlock := ReadBlock;
  mempool_lookup h := mapTx (ns_pool st) !! h;
  next_hash h := match next_of (ns_index st) h with Some k => k | None => null_hash end;
  foreign_GetOp := foreign_GetOp
|}.

(** ** The memory pool *)

(** [mempool.remove(tx)], and with [mempool.removeConflicts(tx)]; [Throws] is
    a pointer that dangles. *)
Definition pool_remove (p : CTxMemPool) (tx : CTransaction) : outcome CTxMemPool := or_throw (remove 1 p tx false).
Definition pool_delete (p : CTxMemPool) (tx : CTransaction) : outcome CTxMemPool :=
  let! p := pool_remove p tx in or_throw (removeConflicts (S (size (mapTx p))) p tx).

Fixpoint pool_fold (f : CTxMemPool -> CTransaction -> outcome CTxMemPool) (p : CTxMemPool) (txs : list CTransaction) : outcome CTxMemPool :=
  match txs with
  | [] => Done p
  | tx :: txs => let! p := f p tx in pool_fold f p txs
  end.

(** [tx.AcceptToMemoryPool(txdb, false)], whatever it returns. *)
Definition resurrect (db : CTxDB) (chain : list CBlockIndex) (p : CTxMemPool) (tx : CTransaction) : CTxMemPool :=
  match fst (accept fEnforceCanonical rate_limited (db_tx db) p tx false chain) with Done p' => p' | _ => p end.

(** ** Reorganize *)

(** The first loop: the database and the transactions to resurrect. *)
Fixpoint disconnect_branch (st : node_state) (vDisconnect : list CBlockIndex) (db : CTxDB) (vResurrect : list CTransaction)
  : option (CTxDB * list CTransaction) :=
  match vDisconnect with
  | [] => Some (db, vResurrect)
  | pindex :: rest =>
      match block_ReadFromDisk pindex with
      | None => None
      | Some block =>
          match DisconnectBlock (N := env_of st) db block (tl (chain_of (ns_index st) (bi_hash pindex))) with
          | None => None
          | Some db =>
              let queued := List.filter (fun tx => negb (IsCoinBase tx || IsCoinStake tx) && (nTotalBlocksEstimate <? bi_nHeight pindex)) (bl_vtx block) in
              disconnect_branch st rest db (queued ++ vResurrect)
          end
      end
  end.

(** [ConnectBlock] for an entry, with the changes it makes in memory. *)
Definition connect_entry (st : node_state) (db : CTxDB) (block : CBlock) (h : list Z) : node_state * outcome CTxDB :=
  match chain_of (ns_index st) h with
  | [] => (st, Throws)
  | pindex :: pprev =>
      let (r, m) := ConnectBlock (N := env_of st) db block pindex pprev false (ns_turbo st) in
      let st := with_turbo st m in
      match r with
      | Done (db, pindex) => (with_index st (set_entry (ns_index st) h pindex), Done db)
      | Fails n => (st, Fails n)
      | Throws => (st, Throws)
      end
  end.

(** The second loop. *)
Fixpoint connect_branch (st : node_state) (vConnect : list CBlockIndex) (db : CTxDB) (vDelete : list CTransaction)
  : node_state * outcome (CTxDB * list CTransaction) :=
  match vConnect with
  | [] => (st, Done (db, vDelete))
  | pindex :: rest =>
      match block_ReadFromDisk pindex with
      | None => (st, Fails 0)
      | Some block =>
          let (st, r) := connect_entry st db block (bi_hash pindex) in
          match r with
          | Done db => connect_branch st rest db (vDelete ++ bl_vtx block)
          | Fails _ => (st, Fails 0)
          | Throws => (st, Throws)
          end
      end
  end.

Definition WriteHashBestChain (db : CTxDB) (h : list Z) : CTxDB := TxDB (db_tx db) (db_index db) h (db_bestInvalidTrust db).
Definition WriteBestInvalidTrust (db : CTxDB) (t : list Z) : CTxDB := TxDB (db_tx db) (db_index db) (db_hashBestChain db) (Some t).

Definition Reorganize (st : node_state) (hNew : list Z) : node_state * outcome unit :=
  match ns_best st with
  | None => (st, Throws)
  | Some hBest =>
      let best := chain_of (ns_index st) hBest in
      let new := chain_of (ns_index st) hNew in
      match find_fork best new with
      | None => (st, Fails 0)
      | Some pfork =>
          let hFork := bi_hash (nth 0 pfork CBlockIndex_null) in
          let vDisconnect := branch hFork best in
          let vConnect := rev (branch hFork new) in
          match disconnect_branch st vDisconnect (ns_db st) [] with
          | None => (st, Fails 0)
          | Some (db, vResurrect) =>
              let (st, r) := connect_branch st vConnect db [] in
              match r with
              | Fails n => (st, Fails n)
              | Throws => (st, Throws)
              | Done (db, vDelete) =>
                  let st := with_db st (WriteHashBestChain db hNew) in
                  let i := fold_left (link_prev (fun _ => None)) (List.map bi_hash vDisconnect) (ns_index st) in
                  let i := fold_left (link_prev Some) (List.map bi_hash vConnect) i in
                  let st := with_index st i in
                  let p := fold_left (resurrect (ns_db st) (chain_of i hBest)) vResurrect (ns_pool st) in
                  match pool_fold pool_delete p vDelete with
                  | Done p => (with_pool st p, Done tt)
                  | Fails n => (with_pool st p, Fails n)
                  | Throws => (with_pool st p, Throws)
                  end
              end
          end
      end
  end.

(** ** SetBestChain *)

Definition trust_at (i : block_index) (h : list Z) : list Z := match i !! h with Some n => bi_nChainTrust (in_entry n) | None => null_hash end.

Definition InvalidChainFound (st : node_state) (hNew : list Z) : node_state :=
  let trust := trust_at (ns_index st) hNew in
  if uint_lt (ns_nBestInvalidTrust st) trust then with_db (with_invalid st trust) (WriteBestInvalidTrust (ns_db st) trust) else st.

(** [SetBestChainInner] on the block of the entry [hNew], after [TxnBegin]. *)
Definition SetBestChainInner (st : node_state) (block : CBlock) (hNew : list Z) : node_state * outcome unit :=
  let hash := block_hash block in
  let (st, r) := connect_entry st (ns_db st) block hNew in
  match r with
  | Throws => (st, Throws)
  | Fails n => (InvalidChainFound st hNew, Fails n)
  | Done db =>
      let st := with_db st (WriteHashBestChain db hash) in
      match prev_of (ns_index st) hNew with
      | None => (st, Throws)
      | Some p =>
          let st := with_index st (set_pnext (ns_index st) p (Some hNew)) in
          match pool_fold pool_remove (ns_pool st) (bl_vtx block) with
          | Done pool => (with_pool st pool, Done tt)
          | Fails n => (st, Fails n)
          | Throws => (st, Throws)
          end
      end
  end.

(** The blocks after the first one whose predecessor has no more trust than
    the best chain, latest first, and that block. *)
Fixpoint postponed (i : block_index) (trust : list Z) (fuel : nat) (h : list Z) : list (list Z) * list Z :=
  match fuel with
  | O => ([], h)
  | S fuel =>
      match prev_of i h with
      | Some p =>
          if uint_lt trust (trust_at i p) then let (rest, first) := postponed i trust fuel p in (h :: rest, first) else ([], h)
      | None => ([], h)
      end
  end.

(** The blocks that are connected after the reorganization, until one fails. *)
Fixpoint connect_further (st : node_state) (hs : list (list Z)) : node_state * outcome unit :=
  match hs with
  | [] => (st, Done tt)
  | h :: hs =>
      match ns_index st !! h with
      | None => (st, Throws)
      | Some n =>
          match block_ReadFromDisk (in_entry n) with
          | None => (st, Done tt)
          | Some block =>
              let (st, r) := SetBestChainInner st block h in
              match r with
              | Done _ => connect_further st hs
              | Fails _ => (st, Done tt)
              | Throws => (st, Throws)
              end
          end
      end
  end.

(** The new best block. *)
Definition set_best (st : node_state) (hash hNew : list Z) : node_state :=
  match ns_index st !! hNew with
  | None => st
  | Some n =>
      let p := ns_pool st in
      Node (ns_index st) (ns_db st) (Some hNew) hash (bi_nHeight (in_entry n)) (bi_nChainTrust (in_entry n)) (ns_nBestInvalidTrust st)
        (ns_genesis st) (MemPool (mapTx p) (mapNextTx p) (u32 (nTransactionsUpdated p + 1))) (ns_turbo st)
  end.

Definition SetBestChain (st : node_state) (block : CBlock) (hNew : list Z) : node_state * outcome unit :=
  let hash := block_hash block in
  let (st, r) :=
    if bool_decide (ns_genesis st = None) && uint_eq hash hashGenesisBlock
    then (with_genesis (with_db st (WriteHashBestChain (ns_db st) hash)) hNew, Done tt)
    else if uint_eq (hashPrevBlock block) (ns_hashBestChain st) then SetBestChainInner st block hNew
    else
      match ns_best st with
      | None => (st, Throws)
      | Some hBest =>
          let (vpindexSecondary, pindexIntermediate) :=
            postponed (ns_index st) (trust_at (ns_index st) hBest) (steps_from (ns_index st) hNew) hNew in
          let (st, r) := Reorganize st pindexIntermediate in
          match r with
          | Throws => (st, Throws)
          | Fails n => (InvalidChainFound st hNew, Fails n)
          | Done _ => connect_further st (rev vpindexSecondary)
          end
      end in
  match r with
  | Done _ => (set_best st hash hNew, Done tt)
  | Fails n => (st, Fails n)
  | Throws => (st, Throws)
  end.

End Chain.

(** ** Chains in the index *)

Record index_ok (i : block_index) : Prop := {
  index_hash : forall h n, i !! h = Some n -> bi_hash (in_entry n) = h;
  index_height : forall h n, i !! h = Some n -> 0 <= bi_nHeight (in_entry n);
  index_prev : forall h n p, i !! h = Some n -> in_pprev n = Some p ->
    exists m, i !! p = Some m /\ bi_nHeight (in_entry n) = bi_nHeight (in_entry m) + 1
}.

Lemma chain_fuel i fuel fuel' h n : index_ok i -> i !! h = Some n -> (Z.to_nat (bi_nHeight (in_entry n)) < fuel)%nat ->
  (Z.to_nat (bi_nHeight (in_entry n)) < fuel')%nat -> chain_from fuel i h = chain_from fuel' i h.
Proof.
  intros Hi; revert fuel' h n; induction fuel as [|fuel IH]; intros fuel' h n En H1 H2; [lia|]; destruct fuel' as [|fuel']; [lia|].
  cbn [chain_from]; rewrite En; f_equal; destruct (in_pprev n) as [p|] eqn:Ep; [|reflexivity].
  destruct (index_prev i Hi h n p En Ep) as (m & Em & Hh); pose proof (index_height i Hi p m Em); apply (IH fuel' p m Em); lia.
Qed.

Lemma chain_unfold i h n : index_ok i -> i !! h = Some n ->
  chain_of i h = in_entry n :: match in_pprev n with Some p => chain_of i p | None => [] end.
Proof.
  intros Hi En; unfold chain_of at 1, steps_from; rewrite En; cbn [chain_from]; rewrite En; f_equal.
  destruct (in_pprev n) as [p|] eqn:Ep; [|reflexivity]; destruct (index_prev i Hi h n p En Ep) as (m & Em & Hh).
  unfold chain_of, steps_from; rewrite Em; pose proof (index_height i Hi p m Em); apply (chain_fuel i _ _ p m Hi Em); lia.
Qed.

Lemma chain_none i h : i !! h = None -> chain_of i h = [].
Proof. intros E; unfold chain_of, steps_from; now rewrite E. Qed.

(** Suffixes of chains are chains. *)
Lemma chain_suffix i h front e rest : index_ok i -> chain_of i h = front ++ e :: rest ->
  exists n, i !! bi_hash e = Some n /\ in_entry n = e /\ chain_of i (bi_hash e) = e :: rest.
Proof.
  intros Hi; revert h; induction front as [|f front IH]; intros h E; destruct (i !! h) as [n|] eqn:En;
    try (rewrite chain_none in E by assumption; discriminate E); pose proof (chain_unfold i h n Hi En) as Eu; rewrite Eu in E; cbn [app] in E.
  - injection E as E1 E2; pose proof (index_hash i Hi h n En) as Eh; subst e; rewrite Eh; exists n; split; [exact En|]; split; [reflexivity | now rewrite Eu, E2].
  - injection E as E1 E2; destruct (in_pprev n) as [p|]; [now apply (IH p) | now destruct front].
Qed.

(** ** The fork *)

Lemma same_block_iff a b : same_block a b = true <-> bi_hash a = bi_hash b.
Proof. apply bool_decide_eq_true. Qed.

Lemma drop_longer_suffix h l : exists front, l = front ++ drop_longer h l /\ Forall (fun e => h < bi_nHeight e) front.
Proof.
  induction l as [|e l IH]; [exists []; now split|]; cbn [drop_longer]; destruct (Z.ltb_spec h (bi_nHeight e)).
  - destruct IH as (front & E & Hf); exists (e :: front); split; [now rewrite E at 1 | now constructor].
  - exists []; now split.
Qed.

Lemma find_fork_suffix pfork plonger f : find_fork pfork plonger = Some f ->
  exists e r1 r2 front1 front2, f = e :: r1 /\ pfork = front1 ++ f /\ plonger = front2 ++ r2 /\ bi_hash (hd CBlockIndex_null r2) = bi_hash e /\ r2 <> [].
Proof.
  revert plonger; induction pfork as [|p pf IH]; intros plonger E; cbn [find_fork] in E; [discriminate E|].
  destruct plonger as [|l pl]; [discriminate E|]; destruct (same_block p l) eqn:Es.
  - injection E as <-; apply same_block_iff in Es; exists p, pf, (l :: pl), [], []; repeat split; [now symmetry | discriminate].
  - destruct (drop_longer_suffix (bi_nHeight p) (l :: pl)) as (front & Ed & _); destruct (drop_longer (bi_nHeight p) (l :: pl)) as [|l' lp]; [discriminate E|].
    destruct (same_block p l') eqn:Es'.
    + injection E as <-; apply same_block_iff in Es'; exists p, pf, (l' :: lp), [], front; repeat split; [exact Ed | now symmetry | discriminate].
    + destruct (IH _ E) as (e & r1 & r2 & f1 & f2 & E1 & E2 & E3 & E4 & E5).
      exists e, r1, r2, (p :: f1), (front ++ f2); split; [exact E1|]; split; [cbn; now rewrite E2|]; split; [now rewrite Ed, E3, app_assoc | now split].
Qed.

Lemma branch_front front e rest : ~ In (bi_hash e) (List.map bi_hash front) -> branch (bi_hash e) (front ++ e :: rest) = front.
Proof.
  induction front as [|f front IH]; intros Hn; cbn [app branch].
  - now rewrite bool_decide_eq_true_2.
  - cbn [List.map] in Hn; rewrite bool_decide_eq_false_2 by (intros E; apply Hn; now left); f_equal; apply IH; intros Hi; apply Hn; now right.
Qed.

(** Heights go down along a chain. *)
Fixpoint descending (chain : list CBlockIndex) : Prop :=
  match chain with
  | [] => True
  | e :: rest => Forall (fun x => bi_nHeight x < bi_nHeight e) rest /\ descending rest
  end.

Lemma chain_descending i h : index_ok i -> descending (chain_of i h).
Proof.
  intros Hi; remember (chain_of i h) as c eqn:Ec; revert h Ec; induction c as [|e c IH]; intros h Ec; [exact I|].
  destruct (i !! h) as [n|] eqn:En; [|rewrite chain_none in Ec by assumption; discriminate Ec].
  rewrite (chain_unfold i h n Hi En) in Ec; injection Ec as -> Ec; destruct (in_pprev n) as [p|] eqn:Ep; [|subst c; now split].
  pose proof (IH p Ec) as Hd; split; [|exact Hd]; destruct (index_prev i Hi h n p En Ep) as (m & Em & Hh); subst c.
  rewrite (chain_unfold i p m Hi Em) in *; destruct Hd as [Hd _]; constructor; [lia|]; eapply Forall_impl; [exact Hd|]; intros x Hx; cbv beta in *; lia.
Qed.

(** The entries of two chains of one index agree. *)
Definition agree (c d : list CBlockIndex) : Prop := forall a b, In a c -> In b d -> bi_hash a = bi_hash b -> a = b.

Lemma chain_in i h e : index_ok i -> In e (chain_of i h) -> exists n, i !! bi_hash e = Some n /\ in_entry n = e.
Proof. intros Hi Hin; apply in_split in Hin as (f & r & E); destruct (chain_suffix i h f e r Hi E) as (n & H1 & H2 & _); now exists n. Qed.

Lemma chains_agree i h h' : index_ok i -> agree (chain_of i h) (chain_of i h').
Proof.
  intros Hi a b Ha Hb E; destruct (chain_in i h a Hi Ha) as (n & En & Ea), (chain_in i h' b Hi Hb) as (m & Em & Eb); congruence.
Qed.

Lemma descending_not_in e rest x : descending (e :: rest) -> In x rest -> agree (e :: rest) (e :: rest) -> bi_hash x <> bi_hash e.
Proof.
  intros [Hd _] Hin Ha E; assert (x = e) as -> by (apply Ha; [now right | now left | exact E]).
  rewrite List.Forall_forall in Hd; specialize (Hd e Hin); lia.
Qed.

Lemma chain_nodup i h : index_ok i -> List.NoDup (List.map bi_hash (chain_of i h)).
Proof.
  intros Hi; pose proof (chain_descending i h Hi) as Hd; pose proof (chains_agree i h h Hi) as Ha; revert Hd Ha.
  induction (chain_of i h) as [|e rest IH]; intros Hd Ha; cbn [List.map]; [constructor|]; constructor.
  - intros Hin; apply in_map_iff in Hin as (x & Ex & Hx); exact (descending_not_in e rest x Hd Hx Ha Ex).
  - apply IH; [apply Hd | intros a b Hx Hy; apply Ha; now right].
Qed.

(** A block of the first chain that is passed is not on the second one. *)
Lemma passed_not_in f l' lp front : (forall a, In a (l' :: lp) \/ In a front -> bi_hash a = bi_hash f -> a = f) -> descending (l' :: lp) ->
  Forall (fun e => bi_nHeight f < bi_nHeight e) front -> bi_nHeight l' <= bi_nHeight f -> bi_hash f <> bi_hash l' ->
  forall x, In x (front ++ l' :: lp) -> bi_hash x <> bi_hash f.
Proof.
  intros Ha [Hd _] Hf Hl Hne x Hx Ex; apply in_app_or in Hx; rewrite List.Forall_forall in Hf, Hd; assert (x = f) as -> by (apply Ha; tauto).
  destruct Hx as [Hx|[->|Hx]]; [specialize (Hf f Hx); lia | now apply Hne | specialize (Hd f Hx); cbv beta in Hd; lia].
Qed.

Lemma drop_longer_head h l e r : drop_longer h l = e :: r -> bi_nHeight e <= h.
Proof. induction l as [|x l IH]; cbn [drop_longer]; [discriminate|]; destruct (Z.ltb_spec h (bi_nHeight x)); [exact IH | intros [= -> ->]; lia]. Qed.

Lemma descending_app a b : descending (a ++ b) -> descending b.
Proof. induction a as [|x a IH]; [easy|]; intros [_ Hd]; now apply IH. Qed.

Lemma NoDup_app_disjoint {A} (a b : list A) : List.NoDup (a ++ b) -> forall x, In x a -> In x b -> False.
Proof.
  intros Hn x Ha Hb; apply in_split in Ha as (l1 & l2 & ->); rewrite <- app_assoc in Hn; apply NoDup_remove_2 in Hn; apply Hn; rewrite !in_app_iff; tauto.
Qed.

(** The search finds a fork when there is a common block, and no block before
    it is common. *)
Lemma find_fork_spec c d : descending c -> descending d -> agree c d -> (exists a b, In a c /\ In b d /\ bi_hash a = bi_hash b) ->
  exists f fb, find_fork c d = Some f /\ c = fb ++ f /\ forall x y, In x fb -> In y d -> bi_hash x <> bi_hash y.
Proof.
  revert d; induction c as [|p pf IH]; intros d Hc Hd Ha (a & b & Hia & Hib & Eab); [destruct Hia|].
  cbn [find_fork]; destruct d as [|l pl]; [destruct Hib|]; destruct (same_block p l) eqn:Es; [exists (p :: pf), []; repeat split; intros x y []|].
  destruct (drop_longer_suffix (bi_nHeight p) (l :: pl)) as (front & Ed & Hf); destruct (drop_longer (bi_nHeight p) (l :: pl)) as [|l' lp] eqn:Edl.
  - exfalso; rewrite app_nil_r in Ed; rewrite Ed in Hib; rewrite List.Forall_forall in Hf; specialize (Hf b Hib).
    assert (a = b) as <- by (apply Ha; [exact Hia | now rewrite Ed | exact Eab]).
    destruct Hia as [<-|Hia]; [lia|]; destruct Hc as [Hc _]; rewrite List.Forall_forall in Hc; specialize (Hc a Hia); cbv beta in Hc; lia.
  - destruct (same_block p l') eqn:Es'; [exists (p :: pf), []; repeat split; intros x y []|].
    pose proof (drop_longer_head _ _ _ _ Edl) as Hl; rewrite Ed in Ha, Hd, Hib |- *.
    assert (Hp : forall x, In x (front ++ l' :: lp) -> bi_hash x <> bi_hash p).
    { apply passed_not_in; [| now apply descending_app in Hd | exact Hf | exact Hl | intros E; apply same_block_iff in E; congruence].
      intros x Hx Ex; symmetry; apply Ha; [now left | apply in_or_app; tauto | now symmetry]. }
    assert (Hia' : In a pf) by (destruct Hia as [<-|Hia]; [exfalso; exact (Hp b Hib (eq_sym Eab)) | exact Hia]).
    assert (Hib' : In b (l' :: lp)).
    { apply in_app_or in Hib as [Hib|Hib]; [exfalso | exact Hib]; rewrite List.Forall_forall in Hf; specialize (Hf b Hib).
      assert (a = b) as <- by (apply Ha; [now right | apply in_or_app; now left | exact Eab]).
      destruct Hc as [Hc _]; rewrite List.Forall_forall in Hc; specialize (Hc a Hia'); cbv beta in Hc; lia. }
    destruct (IH (l' :: lp) (proj2 Hc) (descending_app _ _ Hd)) as (f & fb & E & Ec & Hn).
    { intros x y Hx Hy; apply Ha; [now right | apply in_or_app; now right]. }
    { now exists a, b. }
    exists f, (p :: fb); split; [exact E|]; split; [now rewrite Ec|]; intros x y [<-|Hx] Hy Exy; [exact (Hp y Hy (eq_sym Exy))|].
    apply in_app_or in Hy as [Hy|Hy]; [|exact (Hn x y Hx Hy Exy)]; rewrite List.Forall_forall in Hf; specialize (Hf y Hy).
    assert (Hxp : In x pf) by (rewrite Ec; apply in_or_app; now left).
    assert (x = y) as <- by (apply Ha; [now right | apply in_or_app; now left | exact Exy]).
    destruct Hc as [Hc _]; rewrite List.Forall_forall in Hc; specialize (Hc x Hxp); cbv beta in Hc; lia.
Qed.

(** Both chains split at the fork. *)
Lemma fork_split i hB hN f : index_ok i -> find_fork (chain_of i hB) (chain_of i hN) = Some f ->
  exists e rest fb fn, f = e :: rest /\ chain_of i hB = fb ++ f /\ chain_of i hN = fn ++ f
    /\ branch (bi_hash e) (chain_of i hB) = fb /\ branch (bi_hash e) (chain_of i hN) = fn /\ chain_of i (bi_hash e) = f.
Proof.
  intros Hi E; destruct (find_fork_suffix _ _ _ E) as (e & r1 & r2 & fb & fn & -> & E1 & E2 & E3 & E4).
  destruct r2 as [|e' r2]; [contradiction|]; cbn [hd] in E3.
  destruct (chain_suffix i hB fb e r1 Hi E1) as (n & En & Ee & Ec), (chain_suffix i hN fn e' r2 Hi E2) as (n' & En' & Ee' & Ec').
  assert (Hr : e' :: r2 = e :: r1) by (rewrite <- Ec, <- Ec'; now rewrite E3).
  rewrite Hr in E2; exists e, r1, fb, fn; split; [reflexivity|]; split; [exact E1|]; split; [exact E2|]; rewrite E1, E2.
  assert (Hb : forall h front, chain_of i h = front ++ e :: r1 -> branch (bi_hash e) (front ++ e :: r1) = front).
  { intros h front Eh; apply branch_front; pose proof (chain_nodup i h Hi) as Hn; rewrite Eh, map_app in Hn; cbn [List.map] in Hn.
    intros Hin; apply NoDup_remove_2 in Hn; apply Hn, in_or_app; now left. }
  split; [now apply (Hb hB)|]; split; [now apply (Hb hN) | exact Ec].
Qed.

(** The fork.  For two entries of the index whose chains have a block in
    common, the search of [Reorganize], which walks back on one chain and then on
    the other by height, stops at their latest common block.  The blocks to disconnect are those of
    the first chain after the fork and the blocks to connect those of the second; none of them is
    on the other chain. *)
Theorem fork_is_latest (i : block_index) (hBest hNew h : list Z) :
  index_ok i -> In h (List.map bi_hash (chain_of i hBest)) -> In h (List.map bi_hash (chain_of i hNew)) ->
  exists e rest, find_fork (chain_of i hBest) (chain_of i hNew) = Some (e :: rest)
    /\ chain_of i hBest = branch (bi_hash e) (chain_of i hBest) ++ e :: rest
    /\ chain_of i hNew = branch (bi_hash e) (chain_of i hNew) ++ e :: rest
    /\ (forall k, In k (List.map bi_hash (branch (bi_hash e) (chain_of i hBest))) -> ~ In k (List.map bi_hash (chain_of i hNew)))
    /\ (forall k, In k (List.map bi_hash (branch (bi_hash e) (chain_of i hNew))) -> ~ In k (List.map bi_hash (chain_of i hBest))).
Proof.
  intros Hi HB HN; apply in_map_iff in HB as (a & Ea & Ha), HN as (b & Eb & Hb).
  destruct (find_fork_spec _ _ (chain_descending i hBest Hi) (chain_descending i hNew Hi) (chains_agree i hBest hNew Hi)) as (f & fb & Ef & Ec & Hno).
  { exists a, b; split; [exact Ha|]; split; [exact Hb | congruence]. }
  destruct (fork_split i hBest hNew f Hi Ef) as (e & rest & fb' & fn & -> & EB & EN & Bb & Bn & _).
  rewrite EB in Ec; apply app_inv_tail in Ec as ->; rename EB into Ec; exists e, rest; rewrite Bb, Bn; split; [exact Ef|]; split; [exact Ec|]; split; [exact EN|].
  assert (Hd : forall x y, In x fb -> In y (chain_of i hNew) -> bi_hash x = bi_hash y -> False) by (intros x y Hx Hy E; now apply (Hno x y)).
  split; intros k Hk Hk'; apply in_map_iff in Hk as (x & Ex & Hx), Hk' as (y & Ey & Hy); subst k; [now apply (Hd x y)|].
  rewrite Ec in Hy; apply in_app_or in Hy as [Hy|Hy]; [apply (Hd y x Hy); [rewrite EN; apply in_or_app; now left | exact Ey]|].
  pose proof (chain_nodup i hNew Hi) as Hn; rewrite EN, map_app in Hn; apply (NoDup_app_disjoint _ _ Hn (bi_hash x)); [now apply in_map | rewrite <- Ey; now apply in_map].
Qed.

(** ** The ledger of a list of blocks *)

Section Ledger.
Context {H : hash_lib}.

(** The first transaction is a coinbase, and the others spend outputs. *)
Definition one_coinbase (b : CBlock) : Prop :=
  exists cb txs, bl_vtx b = cb :: txs /\ IsCoinBase cb = true /\ Forall (fun tx => spends tx <> []) txs.

(** The transaction index after the blocks, latest first, were connected one
    after the other to an empty one; every transaction is new. *)
Inductive ledger : list CBlock -> tx_map -> Prop :=
| ledger_nil : ledger [] ∅
| ledger_cons b bs v v' : ledger bs v -> block_run (bl_vtx b) v v' -> one_coinbase b -> List.NoDup (hashes (bl_vtx b)) ->
    Forall (fun h => v !! h = None) (hashes (bl_vtx b)) -> ledger (b :: bs) v'.

Definition chain_hashes (bs : list CBlock) : list (list Z) := flat_map (fun b => hashes (bl_vtx b)) bs.

Lemma ledger_canonical bs v : ledger bs v -> canonical_map v.
Proof.
  induction 1 as [|b bs v v' Hl IH Hr Ho Hn Hf]; [|now apply (canonical_run _ _ _ Hr)].
  intros h x E; now rewrite lookup_empty in E.
Qed.

Lemma mark_keys p ins v h : mark p ins v !! h = None <-> v !! h = None.
Proof.
  revert v; induction ins as [|i ins IH]; intros v; [reflexivity|]; change (mark p (i :: ins) v) with (mark p ins (mark_one p v i)); rewrite IH.
  unfold mark_one; destruct (decide (op_hash (prevout i) = h)) as [<-|Hne]; [|now rewrite lookup_alter_ne].
  rewrite lookup_alter_eq; destruct (v !! op_hash (prevout i)); cbn; intuition discriminate.
Qed.

Lemma run_keys txs v v' h : block_run txs v v' -> (v' !! h = None <-> v !! h = None /\ ~ In h (hashes txs)).
Proof.
  induction 1 as [v|p tx txs v v' Hp Hs Hr IH]; cbn [hashes List.map]; [cbn; tauto|]; rewrite IH, tx_effect_mark.
  destruct (decide (tx_GetHash tx = h)) as [<-|Hne].
  - rewrite lookup_insert_eq; split; [intros [? _]; discriminate | intros [_ Hn]; exfalso; apply Hn; now left].
  - rewrite lookup_insert_ne, mark_keys by assumption; cbn [In]; fold (hashes txs); intuition congruence.
Qed.

Lemma ledger_keys bs v h : ledger bs v -> (v !! h = None <-> ~ In h (chain_hashes bs)).
Proof.
  induction 1 as [|b bs v v' Hl IH Hr Ho Hn Hf]; cbn [chain_hashes flat_map]; [rewrite lookup_empty; tauto|].
  fold (chain_hashes bs); rewrite (run_keys _ _ _ h Hr), IH, in_app_iff; tauto.
Qed.

(** Outputs that are spent, and stay so. *)
Definition is_spent (v : tx_map) (j : CTxIn) : Prop := has v j /\ ~ unspent v j.

Lemma spent_effect p tx v j : spendable p (spends tx) v -> is_spent v j -> op_hash (prevout j) <> tx_GetHash tx -> is_spent (tx_effect p tx v) j.
Proof.
  intros Hs [Hh Hu] Hne; rewrite tx_effect_mark; split; [rewrite has_insert by assumption; now apply has_mark_all|].
  rewrite unspent_insert, unspent_mark_other; auto; now apply (spendable_other p j (spends tx) v).
Qed.

Lemma spent_key v j : is_spent v j -> v !! op_hash (prevout j) <> None.
Proof. intros [(x & E & _) _]; rewrite E; discriminate. Qed.

(** A block in which every transaction that was there before would spend a
    spent output has only new transactions. *)
Lemma run_fresh txs v v' : block_run txs v v' -> forall base : tx_map,
  (forall tx, In tx txs -> base !! tx_GetHash tx <> None -> exists j, In j (spends tx) /\ base !! op_hash (prevout j) <> None /\ is_spent v j) ->
  Forall (fun h => base !! h = None) (hashes txs).
Proof.
  induction 1 as [v|p tx txs v v' Hp Hs Hr IH]; intros base Hsp; cbn [hashes List.map]; [constructor|].
  assert (Hnew : base !! tx_GetHash tx = None).
  { destruct (base !! tx_GetHash tx) as [x|] eqn:Ex; [|reflexivity]; exfalso.
    destruct (Hsp tx (or_introl eq_refl) ltac:(congruence)) as (j & Hj & _ & _ & Hu); exact (Hu (spendable_unspent p _ v Hp Hs j Hj)). }
  constructor; [exact Hnew|]; apply IH; intros t Ht Et; destruct (Hsp t (or_intror Ht) Et) as (j & Hj & Hb & Hsj).
  exists j; split; [exact Hj|]; split; [exact Hb|]; apply spent_effect; auto; intros E; rewrite E in Hb; contradiction.
Qed.

(** After a block of new transactions, what they spend is spent. *)
Lemma run_spent txs v v' : block_run txs v v' -> List.NoDup (hashes txs) -> Forall (fun h => v !! h = None) (hashes txs) ->
  forall j, is_spent v j \/ In j (flat_map spends txs) -> is_spent v' j.
Proof.
  induction 1 as [v|p tx txs v v' Hp Hs Hr IH]; intros Hn Hf j Hj; [destruct Hj as [Hj|[]]; exact Hj|].
  cbn [hashes List.map] in Hn, Hf; apply NoDup_cons_iff in Hn as [Hnh Hn]; apply Forall_cons_iff in Hf as [Hh Hf].
  apply IH; [exact Hn| |].
  - rewrite List.Forall_forall in Hf |- *; intros h Hin; rewrite tx_effect_mark, lookup_insert_ne, mark_keys by (intros E; apply Hnh; now rewrite E); now apply Hf.
  - cbn [flat_map] in Hj; rewrite in_app_iff in Hj; destruct Hj as [Hj|[Hj|Hj]]; [left | left | now right].
    + apply spent_effect; auto; intros E; apply (spent_key v j Hj); now rewrite E.
    + destruct (marked_all p (spends tx) v j Hp Hs Hj) as [Hm Hu]; pose proof (unspent_has _ _ (spendable_unspent p _ v Hp Hs j Hj)) as (x & Ex & _).
      assert (Hne : op_hash (prevout j) <> tx_GetHash tx) by (intros E; rewrite E in Ex; congruence).
      rewrite tx_effect_mark; split; [now rewrite has_insert | now rewrite unspent_insert].
Qed.

Lemma ledger_spent bs v : ledger bs v -> forall b tx j, In b bs -> In tx (bl_vtx b) -> In j (spends tx) -> is_spent v j.
Proof.
  induction 1 as [|b bs v v' Hl IH Hr Ho Hn Hf]; intros b0 tx j Hb Ht Hj; [destruct Hb|].
  apply (run_spent _ _ _ Hr Hn Hf); destruct Hb as [<-|Hb]; [right; apply in_flat_map; now exists tx | left; now apply (IH b0 tx)].
Qed.

Lemma ledger_coinbase bs v : ledger bs v -> Forall one_coinbase bs.
Proof. induction 1; constructor; assumption. Qed.

(** A block after a ledger has new transactions, if its coinbase is new and
    transactions of the same hash are the same. *)
Lemma ledger_fresh b bs v v' : ledger bs v -> block_run (bl_vtx b) v v' -> one_coinbase b ->
  (forall b' tx tx', In b' bs -> In tx (bl_vtx b) -> In tx' (bl_vtx b') -> tx_GetHash tx = tx_GetHash tx' -> tx = tx') ->
  (forall b' tx, In b' bs -> IsCoinBase tx = true -> In tx (bl_vtx b) -> ~ In tx (bl_vtx b')) ->
  Forall (fun h => v !! h = None) (hashes (bl_vtx b)).
Proof.
  intros Hl Hr (cb & txs & Eb & Hcb & Hsp) Hcoll Hnew; apply (run_fresh _ _ _ Hr); intros tx Ht Ev.
  assert (Hin : In (tx_GetHash tx) (chain_hashes bs)).
  { destruct (in_dec (List.list_eq_dec Z.eq_dec) (tx_GetHash tx) (chain_hashes bs)) as [Hi|Hi]; [exact Hi|].
    apply (ledger_keys bs v _ Hl) in Hi; contradiction. }
  unfold chain_hashes in Hin; apply in_flat_map in Hin as (b' & Hb' & Hin); apply in_map_iff in Hin as (tx' & E & Ht').
  assert (tx = tx') as <- by (now apply (Hcoll b')); destruct (spends tx) as [|j js] eqn:Es.
  - exfalso; rewrite Eb in Ht; destruct Ht as [<-|Ht]; [|rewrite List.Forall_forall in Hsp; now apply (Hsp tx)].
    apply (Hnew b' cb Hb' Hcb); [rewrite Eb; now left | exact Ht'].
  - assert (Hsj : is_spent v j) by (apply (ledger_spent bs v Hl b' tx); auto; rewrite Es; now left).
    exists j; split; [now left|]; split; [now apply spent_key | exact Hsj].
Qed.

(** Disconnecting the last block. *)
Lemma ledger_disconnect b bs v' : ledger (b :: bs) v' -> exists v, ledger bs v /\ disconnect_txs (rev (bl_vtx b)) v' = Some v.
Proof.
  intros Hl; inversion Hl as [|? ? v ? Hv Hr Ho Hn Hf]; subst; exists v; split; [exact Hv|].
  rewrite (disconnect_run _ _ _ Hr (ledger_canonical _ _ Hv) Hn); [f_equal; now apply erase_fresh|].
  eapply Forall_impl; [exact Hf|]; intros h E x Ex; cbv beta in E; rewrite E in Ex; discriminate.
Qed.

End Ledger.

(** ** Heights in coinbases *)

Section Heights.
Context {L : BN_lib} {HL : BN_laws L}.

(** The first instruction that [CScript() << nHeight] is read as. *)
Lemma height_op k rest : 0 <= k < 2 ^ 31 ->
  exists op v, GetOp (push_int64 k ++ rest) = Some (op, v, rest) /\
    (1 <= k <= 16 /\ op = k + 80 /\ v = [] \/ ~ 1 <= k <= 16 /\ op = push_opcode v /\ v = getvch k).
Proof.
  intros Hk; unfold push_int64; rewrite (proj2 (Z.eqb_neq k (-1))) by lia; cbn [orb].
  destruct (Z.leb_spec 1 k) as [H1|H1]; [destruct (Z.leb_spec k 16) as [H2|H2]|]; cbn [andb].
  - exists (k + 80), []; split; [|left; lia || tauto].
    assert (E : In k (List.map Z.of_nat (seq 1 16))) by (apply in_map_iff; exists (Z.to_nat k); split; [lia | apply in_seq; lia]).
    cbn in E; repeat (destruct E as [<-|E]; [reflexivity|]); destruct E.
  - rewrite CBigNum_int_spec by lia; exists (push_opcode (getvch k)), (getvch k); split; [apply GetOp_push | right; split; [lia | tauto]].
    assert (Hs : bn_small k) by (apply (bn_small_below _ 31); lia).
    rewrite getvch_spec by assumption; unfold zlen; rewrite length_rev; pose proof (mpi_body_short k Hs); lia.
  - rewrite CBigNum_int_spec by lia; exists (push_opcode (getvch k)), (getvch k); split; [apply GetOp_push | right; split; [lia | tauto]].
    assert (Hs : bn_small k) by (apply (bn_small_below _ 31); lia).
    rewrite getvch_spec by assumption; unfold zlen; rewrite length_rev; pose proof (mpi_body_short k Hs); lia.
Qed.

Lemma height_inj a b r r' : 0 <= a < 2 ^ 31 -> 0 <= b < 2 ^ 31 -> push_int64 a ++ r = push_int64 b ++ r' -> a = b.
Proof.
  intros Ha Hb E; destruct (height_op a r Ha) as (op & v & E1 & H1), (height_op b r' Hb) as (op' & v' & E2 & H2).
  rewrite E, E2 in E1; injection E1 as -> -> _.
  assert (Hz : forall k, 0 <= k < 2 ^ 31 -> setvch (getvch k) = k) by (intros k Hk; apply setvch_getvch, (bn_small_below _ 31); lia).
  assert (H0 : push_opcode [] = 0) by reflexivity.
  destruct H1 as [(H1 & E3 & E4)|(H1 & E3 & E4)], H2 as [(H2 & E5 & E6)|(H2 & E5 & E6)].
  - lia.
  - rewrite E4, H0 in E5; lia.
  - rewrite E6, H0 in E3; lia.
  - rewrite <- (Hz a Ha), <- (Hz b Hb); congruence.
Qed.

End Heights.

(** What [CheckBlock] says about the coinbase and the hashes. *)
Lemma check_shape {H : hash_lib} {L : BN_lib} {EC : ec_lib} (Hash9 : list Z -> list Z) (now : Z) (b : CBlock) (f1 f2 f3 : bool) :
  CheckBlock Hash9 now b f1 f2 f3 = None -> one_coinbase b /\ List.NoDup (hashes (bl_vtx b)).
Proof.
  unfold CheckBlock; destruct (_ || _); [discriminate|]; destruct (_ && _); [discriminate|]; destruct (_ <? _); [discriminate|].
  destruct (_ || negb (IsCoinBase _)) eqn:Ec; [discriminate|]; destruct (existsb IsCoinBase _) eqn:Ex; [discriminate|]; destruct (_ <? _); [discriminate|].
  destruct (if IsProofOfStake b then _ else _); [discriminate|]; destruct (check_txs _ _) eqn:Et; [discriminate|]; destruct (negb (_ =? _)%nat) eqn:Eu; [discriminate|]; intros _.
  apply orb_false_iff in Ec as [Ene Ec]; apply negb_false_iff in Ec, Eu; apply Nat.eqb_neq in Ene; apply existsb_Forall in Ex; apply check_txs_iff in Et.
  split; [|apply unique_iff; unfold hashes; rewrite length_map; exact Eu].
  unfold one_coinbase; destruct (bl_vtx b) as [|cb txs] eqn:Eb; [contradiction|]; exists cb, txs; split; [reflexivity|].
  unfold tx_at in Ec; rewrite Eb in Ec; split; [exact Ec|]; cbn [skipn] in Ex; apply Forall_cons_iff in Et as [_ Et]; rewrite List.Forall_forall in *; intros tx Hin.
  unfold spends; rewrite (Ex tx Hin); destruct (Et tx Hin) as [Hc _]; unfold CheckTransaction in Hc; destruct (vin tx); [discriminate Hc | intros E; discriminate E].
Qed.

(** ** Blocks of a chain *)

Section Blocks.
Context {H : hash_lib} {L : BN_lib} {HL : BN_laws L} {EC : ec_lib} {N : node_env}.
Context (read_file : Z -> Z -> option CBlock) (nTotalBlocksEstimate : Z) (hashGenesisBlock : list Z) (fEnforceCanonical : bool)
  (rate_limited : CTransaction -> Z -> bool).
Abbreviation read_block := (block_ReadFromDisk read_file).

(** The blocks of a chain, without the genesis block. *)
Fixpoint blocks_of (chain : list CBlockIndex) : option (list CBlock) :=
  match chain with
  | [] => None
  | [_] => Some []
  | e :: rest =>
      match read_block e, blocks_of rest with
      | Some b, Some bs => Some (b :: bs)
      | _, _ => None
      end
  end.

(** Two entries of the same block. *)
Definition same_place (a b : CBlockIndex) : Prop :=
  bi_hash a = bi_hash b /\ bi_nFile a = bi_nFile b /\ bi_nBlockPos a = bi_nBlockPos b /\ bi_nHeight a = bi_nHeight b
  /\ bi_nChainTrust a = bi_nChainTrust b.
Definition same_node (a b : index_node) : Prop := same_place (in_entry a) (in_entry b) /\ in_pprev a = in_pprev b.
Definition same_shape (i j : block_index) : Prop := forall h, option_Forall2 same_node (i !! h) (j !! h).

#[export] Instance same_shape_equiv : Equivalence same_shape.
Proof.
  split.
  - intros i h; destruct (i !! h); constructor; repeat split.
  - intros i j Hs h; destruct (Hs h) as [a b [(E1 & E2 & E3 & E4 & E5) Ep]|]; constructor; repeat split; congruence.
  - intros i j k H1 H2 h; specialize (H1 h); specialize (H2 h); inversion H1 as [a b [(E1 & E2 & E3 & E4 & E5) Ep] Ea Eb|Ea Eb]; rewrite <- Eb in H2;
      inversion H2 as [b' c [(F1 & F2 & F3 & F4 & F5) Fp] Ec Ed|]; subst; constructor; repeat split; congruence.
Qed.

Lemma shape_lookup i j h n : same_shape i j -> i !! h = Some n -> exists m, j !! h = Some m /\ same_node n m.
Proof. intros Hs E; specialize (Hs h); rewrite E in Hs; inversion Hs as [a b Hn Ea Eb|]; subst; now exists b. Qed.

Lemma shape_index_ok i j : same_shape i j -> index_ok i -> index_ok j.
Proof.
  intros Hs Hi; assert (Hj : same_shape j i) by (now symmetry); split.
  - intros h m Em; destruct (shape_lookup j i h m Hj Em) as (n & En & (E1 & _) & _); rewrite E1; now apply (index_hash i Hi).
  - intros h m Em; destruct (shape_lookup j i h m Hj Em) as (n & En & (_ & _ & _ & E4 & _) & _); rewrite E4; now apply (index_height i Hi h).
  - intros h m p Em Ep; destruct (shape_lookup j i h m Hj Em) as (n & En & (_ & _ & _ & E4 & _) & Epp); rewrite Epp in Ep.
    destruct (index_prev i Hi h n p En Ep) as (q & Eq & Hh); destruct (shape_lookup i j p q Hs Eq) as (q' & Eq' & (_ & _ & _ & F4 & _) & _).
    exists q'; split; [exact Eq' | lia].
Qed.

Lemma shape_chain i j h : same_shape i j -> index_ok i -> Forall2 same_place (chain_of i h) (chain_of j h).
Proof.
  intros Hs Hi; pose proof (shape_index_ok i j Hs Hi) as Hj; remember (chain_of i h) as c eqn:Ec; revert h Ec; induction c as [|e c IH]; intros h Ec.
  - destruct (i !! h) as [n|] eqn:En; [rewrite (chain_unfold i h n Hi En) in Ec; discriminate Ec|].
    specialize (Hs h); rewrite En in Hs; inversion Hs as [|Ea Eb]; rewrite chain_none by (now symmetry); constructor.
  - destruct (i !! h) as [n|] eqn:En; [|rewrite chain_none in Ec by assumption; discriminate Ec].
    rewrite (chain_unfold i h n Hi En) in Ec; injection Ec as -> Ec; destruct (shape_lookup i j h n Hs En) as (m & Em & Hpl & Epp).
    rewrite (chain_unfold j h m Hj Em); constructor; [exact Hpl|]; rewrite <- Epp; destruct (in_pprev n) as [p|]; [now apply IH | subst c; constructor].
Qed.

Lemma read_same a b : same_place a b -> read_block a = read_block b.
Proof. intros (E1 & E2 & E3 & _); unfold block_ReadFromDisk; now rewrite E1, E2, E3. Qed.

Lemma blocks_same c d : Forall2 same_place c d -> blocks_of c = blocks_of d.
Proof.
  induction 1 as [|a b c d Hab Hcd IH]; [reflexivity|]; cbn [blocks_of]; rewrite (read_same a b Hab), IH; destruct Hcd; reflexivity.
Qed.

Lemma set_entry_shape i h n e : i !! h = Some n -> same_place (in_entry n) e -> same_shape i (set_entry i h e).
Proof.
  intros En He k; unfold set_entry; destruct (decide (h = k)) as [<-|Hne]; [rewrite lookup_alter_eq, En; constructor; now split|].
  rewrite lookup_alter_ne by assumption; destruct (i !! k); constructor; repeat split.
Qed.

Lemma set_pnext_shape i h next : same_shape i (set_pnext i h next).
Proof.
  intros k; unfold set_pnext; destruct (decide (h = k)) as [<-|Hne]; [rewrite lookup_alter_eq | rewrite lookup_alter_ne by assumption];
    destruct (i !! _); constructor; repeat split.
Qed.

Lemma links_shape next hs : forall i, same_shape i (fold_left (link_prev next) hs i).
Proof.
  induction hs as [|h hs IH]; intros i; cbn [fold_left]; [reflexivity|]; etransitivity; [|apply IH].
  unfold link_prev; destruct (prev_of i h); [apply set_pnext_shape | reflexivity].
Qed.

(** The database is the ledger of the chain of [h]. *)
Definition ledger_at (i : block_index) (h : list Z) (v : tx_map) : Prop := exists bs, blocks_of (chain_of i h) = Some bs /\ ledger bs v.

(** Entries have a place in the block files, and their hash has 256 bits. *)
Definition files_ok (i : block_index) : Prop := forall h n, i !! h = Some n -> bi_nFile (in_entry n) <> 0xFFFFFFFF /\ wf 8 h.

(** The coinbase of a block starts with its height. *)
Definition coinbase_height (k : Z) (b : CBlock) : Prop := exists rest, scriptSig (nth 0 (vin (tx_at b 0)) CTxIn_null) = push_int64 k ++ rest.
Definition heights_ok (i : block_index) : Prop := forall h n b, i !! h = Some n -> in_pprev n <> None -> read_block (in_entry n) = Some b ->
  bi_nHeight (in_entry n) < 2 ^ 31 /\ coinbase_height (bi_nHeight (in_entry n)) b.

Lemma shape_heights i j : same_shape i j -> heights_ok i -> heights_ok j.
Proof.
  intros Hs Hh h m b Em Ep Eb; destruct (shape_lookup j i h m (symmetry Hs) Em) as (n & En & Hpl & Epp); pose proof Hpl as (_ & _ & _ & E4 & _).
  rewrite E4; apply (Hh h n b En); [congruence | rewrite <- Eb; symmetry; now apply read_same].
Qed.

(** The blocks of a chain were read for its entries. *)
Lemma chain_blocks i h bs : index_ok i -> blocks_of (chain_of i h) = Some bs -> forall b, In b bs ->
  exists k n, i !! k = Some n /\ In (in_entry n) (chain_of i h) /\ in_pprev n <> None /\ read_block (in_entry n) = Some b.
Proof.
  intros Hi; remember (chain_of i h) as c eqn:Ec; revert h bs Ec; induction c as [|e c IH]; intros h bs Ec Eb b Hb; [discriminate Eb|].
  destruct (i !! h) as [n|] eqn:En; [|rewrite chain_none in Ec by assumption; discriminate Ec].
  rewrite (chain_unfold i h n Hi En) in Ec; injection Ec as -> Ec; cbn [blocks_of] in Eb; destruct (in_pprev n) as [p|] eqn:Ep; [|subst c; injection Eb as <-; destruct Hb].
  destruct c as [|x xs]; [injection Eb as <-; destruct Hb|]; destruct (read_block (in_entry n)) as [b0|] eqn:E0; [|discriminate Eb].
  destruct (blocks_of (x :: xs)) as [bs'|] eqn:Ebs; [|discriminate Eb]; injection Eb as <-; destruct Hb as [<-|Hb].
  - exists h, n; split; [exact En|]; split; [now left|]; split; [congruence | exact E0].
  - destruct (IH p bs' Ec eq_refl b Hb) as (k & m & Em & Hin & Hp & Er); exists k, m; split; [exact Em|]; split; [now right | now split].
Qed.

Lemma shape_ledger i j h v : same_shape i j -> index_ok i -> ledger_at i h v -> ledger_at j h v.
Proof. intros Hs Hi (bs & E & Hl); exists bs; split; [|exact Hl]; rewrite <- E; symmetry; now apply blocks_same, shape_chain. Qed.

Lemma shape_files i j : same_shape i j -> files_ok i -> files_ok j.
Proof.
  intros Hs Hf h m Em; destruct (shape_lookup j i h m (symmetry Hs) Em) as (n & En & (_ & E2 & _) & _); rewrite E2; now apply (Hf h n).
Qed.

(** Disconnecting a branch succeeds, and leaves the ledger of the fork. *)
Lemma disconnect_branch_ok st fb : forall h e rest db res, index_ok (ns_index st) -> chain_of (ns_index st) h = fb ++ e :: rest ->
  ledger_at (ns_index st) h (db_tx db) ->
  exists db' res', disconnect_branch read_file nTotalBlocksEstimate st fb db res = Some (db', res')
    /\ ledger_at (ns_index st) (bi_hash e) (db_tx db').
Proof.
  induction fb as [|f fb IH]; intros h e rest db res Hi Ec Hl; cbn [disconnect_branch].
  - exists db, res; split; [reflexivity|]; destruct (chain_suffix _ _ [] e rest Hi Ec) as (n & En & Ee & Ec').
    destruct Hl as (bs & Eb & Hl); exists bs; split; [|exact Hl]; cbn [app] in Ec; now rewrite Ec', <- Ec.
  - destruct (chain_suffix _ _ [] f (fb ++ e :: rest) Hi Ec) as (n & En & Ee & Ec'); destruct Hl as (bs & Eb & Hl); rewrite Ec in Eb; cbn [app blocks_of] in Eb.
    destruct (fb ++ e :: rest) as [|x xs] eqn:Ex; [now destruct fb|]; destruct (read_block f) as [b|]; [|discriminate Eb].
    destruct (blocks_of (x :: xs)) as [bs'|] eqn:Ebs; [|discriminate Eb]; injection Eb as <-.
    destruct (ledger_disconnect b bs' (db_tx db) Hl) as (v & Hv & Ed); unfold DisconnectBlock; rewrite Ed.
    rewrite (chain_unfold _ _ _ Hi En) in Ec'; injection Ec' as _ Ep; destruct (in_pprev n) as [p|]; [|discriminate Ep].
    apply (IH p e rest); [exact Hi | now rewrite Ep, <- Ex |]; exists bs'; split; [now rewrite Ep|]; now rewrite db_tx_write_prev.
Qed.

Lemma prev_of_shape i j h : same_shape i j -> prev_of j h = prev_of i h.
Proof. intros Hs; specialize (Hs h); unfold prev_of; destruct Hs as [a b [_ E]|]; [now symmetry | reflexivity]. Qed.

Lemma prev_of_some i h p : prev_of i h = Some p -> exists n, i !! h = Some n /\ in_pprev n = Some p.
Proof. unfold prev_of; destruct (i !! h) as [n|]; [intros E; now exists n | discriminate]. Qed.

(** The links [pnext] are those of the chain of [h]. *)
Definition links_ok (i : block_index) (h : list Z) : Prop :=
  forall x y, next_of i x = Some y <-> prev_of i y = Some x /\ In y (List.map bi_hash (chain_of i h)).

Lemma shape_hashes i j h : same_shape i j -> index_ok i -> List.map bi_hash (chain_of j h) = List.map bi_hash (chain_of i h).
Proof. intros Hs Hi; induction (shape_chain i j h Hs Hi) as [|a b c d (E & _) _ IH]; cbn [List.map]; congruence. Qed.

Lemma next_set_entry i h e x : next_of (set_entry i h e) x = next_of i x.
Proof.
  unfold next_of, set_entry; destruct (decide (h = x)) as [<-|Hne]; [rewrite lookup_alter_eq; now destruct (i !! h) | now rewrite lookup_alter_ne].
Qed.

Lemma next_set_pnext i h next x : is_Some (i !! h) -> next_of (set_pnext i h next) x = if decide (h = x) then next else next_of i x.
Proof.
  intros [n En]; unfold next_of, set_pnext; destruct (decide (h = x)) as [<-|Hne]; [rewrite lookup_alter_eq, En; reflexivity | now rewrite lookup_alter_ne].
Qed.

Lemma descending_inj c a b : descending c -> In a c -> In b c -> bi_nHeight a = bi_nHeight b -> a = b.
Proof.
  induction c as [|e c IH]; intros Hd Ha Hb E; [destruct Ha|]; destruct Hd as [Hf Hd]; rewrite List.Forall_forall in Hf.
  destruct Ha as [<-|Ha], Hb as [<-|Hb]; [reflexivity | specialize (Hf b Hb); cbv beta in Hf; lia | specialize (Hf a Ha); cbv beta in Hf; lia | now apply IH].
Qed.

(** Blocks of one chain with the same predecessor are the same. *)
Lemma same_prev i h x y z : index_ok i -> In y (List.map bi_hash (chain_of i h)) -> In z (List.map bi_hash (chain_of i h)) ->
  prev_of i y = Some x -> prev_of i z = Some x -> y = z.
Proof.
  intros Hi Hy Hz Ey Ez; apply in_map_iff in Hy as (a & <- & Ha), Hz as (b & <- & Hb); f_equal.
  destruct (chain_in i h a Hi Ha) as (na & Ea & Na), (chain_in i h b Hi Hb) as (nb & Eb & Nb).
  apply prev_of_some in Ey as (n1 & E1 & P1), Ez as (n2 & E2 & P2); rewrite Ea in E1; rewrite Eb in E2; injection E1 as <-; injection E2 as <-.
  destruct (index_prev i Hi _ _ _ Ea P1) as (m & Em & H1), (index_prev i Hi _ _ _ Eb P2) as (m' & Em' & H2); rewrite Em in Em'; injection Em' as <-.
  apply (descending_inj (chain_of i h)); [now apply chain_descending | exact Ha | exact Hb | subst; lia].
Qed.

Lemma link_fold next hs : forall i x, index_ok i -> (forall y z, In y hs -> In z hs -> prev_of i y = Some x -> prev_of i z = Some x -> y = z) ->
  (forall y, In y hs -> prev_of i y = Some x -> next_of (fold_left (link_prev next) hs i) x = next y)
  /\ ((forall y, In y hs -> prev_of i y <> Some x) -> next_of (fold_left (link_prev next) hs i) x = next_of i x).
Proof.
  induction hs as [|h hs IH]; intros i x Hi Hu; cbn [fold_left]; [split; [intros y [] | reflexivity]|].
  assert (Hs : same_shape i (link_prev next i h)) by (unfold link_prev; destruct (prev_of i h); [apply set_pnext_shape | reflexivity]).
  assert (Hp : forall y, prev_of (link_prev next i h) y = prev_of i y) by (intros y; now apply prev_of_shape).
  destruct (IH (link_prev next i h) x (shape_index_ok _ _ Hs Hi)) as [H1 H2]; [intros y z Hy Hz; rewrite !Hp; apply Hu; now right|].
  assert (Hn : next_of (link_prev next i h) x = if decide (prev_of i h = Some x) then next h else next_of i x).
  { unfold link_prev; destruct (prev_of i h) as [p|] eqn:Ep; [|rewrite decide_False by discriminate; reflexivity].
    apply prev_of_some in Ep as (n & En & Epp); destruct (index_prev i Hi h n p En Epp) as (m & Em & _); rewrite next_set_pnext by (now exists m).
    destruct (decide (p = x)) as [->|Hne]; [now rewrite decide_True | now rewrite decide_False by congruence]. }
  setoid_rewrite Hp in H1; setoid_rewrite Hp in H2; split.
  - intros y Hy Ey; destruct (List.find (fun z => bool_decide (prev_of i z = Some x)) hs) as [z|] eqn:Ef.
    + apply find_some in Ef as [Hz Ez]; apply bool_decide_eq_true in Ez; rewrite (Hu y z Hy (or_intror Hz) Ey Ez); now apply H1.
    + assert (Hno : forall z, In z hs -> prev_of i z <> Some x) by (intros z Hz; apply (find_none _ _ Ef) in Hz; now apply bool_decide_eq_false in Hz).
      rewrite (H2 Hno), Hn; destruct Hy as [->|Hy]; [now rewrite decide_True | now apply Hno in Hy].
  - intros Hno; rewrite H2 by (intros y Hy; apply Hno; now right); rewrite Hn, decide_False; [reflexivity | apply Hno; now left].
Qed.

(** The links after a reorganization, and after a block was appended. *)
Lemma links_reorganized i hB hN f fb fn : index_ok i -> links_ok i hB ->
  List.map bi_hash (chain_of i hB) = fb ++ f -> List.map bi_hash (chain_of i hN) = fn ++ f ->
  links_ok (fold_left (link_prev Some) (rev fn) (fold_left (link_prev (fun _ => None)) fb i)) hN.
Proof.
  intros Hi Hl EB EN; set (i1 := fold_left _ (fb) i); set (i2 := fold_left _ _ i1).
  assert (S1 : same_shape i i1) by apply links_shape; assert (S2 : same_shape i i2) by (etransitivity; [exact S1 | apply links_shape]).
  pose proof (chain_nodup i hB Hi) as NB; pose proof (chain_nodup i hN Hi) as NN; pose proof (same_prev i hB) as UB; pose proof (same_prev i hN) as UN.
  rewrite EB in NB, UB; rewrite EN in NN, UN.
  assert (Hin : forall z, In z (rev fn) <-> In z (fn)) by (intros z; symmetry; apply in_rev).
  intros x y; rewrite (shape_hashes i i2 hN S2 Hi), (prev_of_shape i i2 y S2), EN, in_app_iff.
  destruct (link_fold (fun _ => None) (fb) i x Hi) as [A1 A2]; [intros a b Ha Hb; apply UB; auto using in_or_app|]; fold i1 in A1, A2.
  destruct (link_fold Some (rev fn) i1 x (shape_index_ok i i1 S1 Hi)) as [B1 B2].
  { intros a b Ha Hb; rewrite !(prev_of_shape i i1 _ S1); apply Hin in Ha, Hb; apply UN; auto using in_or_app. }
  fold i2 in B1, B2; setoid_rewrite (fun y => prev_of_shape i i1 y S1) in B1; setoid_rewrite (fun y => prev_of_shape i i1 y S1) in B2; setoid_rewrite Hin in B1; setoid_rewrite Hin in B2.
  assert (Hfind : forall hs, (exists z, In z hs /\ prev_of i z = Some x) \/ (forall z, In z hs -> prev_of i z <> Some x)).
  { intros hs; destruct (List.find (fun z => bool_decide (prev_of i z = Some x)) hs) as [z|] eqn:Ef.
    - apply find_some in Ef as [Hz Ez]; apply bool_decide_eq_true in Ez; left; now exists z.
    - right; intros z Hz; apply (find_none _ _ Ef) in Hz; now apply bool_decide_eq_false in Hz. }
  destruct (Hfind (fn)) as [(z & Hz & Ez)|Hno].
  - rewrite (B1 z Hz Ez); split; [intros [= ->]; tauto|]; intros [Ey Hy]; f_equal; apply (UN x); auto using in_or_app; rewrite in_app_iff; tauto.
  - rewrite (B2 Hno); destruct (Hfind (fb)) as [(z & Hz & Ez)|Hnob].
    + rewrite (A1 z Hz Ez); split; [discriminate|]; intros [Ey [Hy|Hy]]; [now apply Hno in Hy|].
      exfalso; assert (z = y) as <- by (apply (UB x); rewrite ?in_app_iff; auto); now apply (NoDup_app_disjoint _ _ NB z).
    + rewrite (A2 Hnob), (Hl x y), EB, in_app_iff; split; (intros [Ey [Hy|Hy]]; [exfalso | tauto]); [now apply (Hnob y) | now apply (Hno y)].
Qed.

Lemma links_appended i h n p : index_ok i -> i !! h = Some n -> in_pprev n = Some p -> links_ok i p -> links_ok (set_pnext i p (Some h)) h.
Proof.
  intros Hi En Ep Hl; destruct (index_prev i Hi h n p En Ep) as (m & Em & _); pose proof (chain_unfold i h n Hi En) as Ec; rewrite Ep in Ec.
  pose proof (links_reorganized i p h (List.map bi_hash (chain_of i p)) [] [bi_hash (in_entry n)] Hi Hl eq_refl (f_equal (List.map bi_hash) Ec)) as Hr.
  cbn [rev app List.map fold_left] in Hr; unfold link_prev, prev_of in Hr; now rewrite (index_hash i Hi h n En), En, Ep in Hr.
Qed.

(** What stays the same when blocks are connected. *)
Record kept_state (st st' : node_state) : Prop := {
  kept_shape : same_shape (ns_index st) (ns_index st');
  kept_next : forall h, next_of (ns_index st') h = next_of (ns_index st) h;
  kept_db : ns_db st' = ns_db st;
  kept_best : ns_best st' = ns_best st;
  kept_hash : ns_hashBestChain st' = ns_hashBestChain st;
  kept_height : ns_nBestHeight st' = ns_nBestHeight st;
  kept_trust : ns_nBestChainTrust st' = ns_nBestChainTrust st;
  kept_invalid : ns_nBestInvalidTrust st' = ns_nBestInvalidTrust st;
  kept_genesis : ns_genesis st' = ns_genesis st;
  kept_pool : ns_pool st' = ns_pool st
}.

#[export] Instance kept_preorder : PreOrder kept_state.
Proof.
  split; [intros st; split; reflexivity|]; intros a b c [] []; split; try congruence; etransitivity; eassumption.
Qed.

Context (Hread : forall nFile nBlockPos b, read_file nFile nBlockPos = Some b -> Forall tx_valid (bl_vtx b)).

(** Transactions in the block files that have the same hash are the same. *)
Context (Hcoll : forall nFile nBlockPos b nFile' nBlockPos' b' tx tx', read_file nFile nBlockPos = Some b -> read_file nFile' nBlockPos' = Some b' ->
  In tx (bl_vtx b) -> In tx' (bl_vtx b') -> tx_GetHash tx = tx_GetHash tx' -> tx = tx').

Lemma read_from_file e b : read_block e = Some b -> read_file (bi_nFile e) (bi_nBlockPos e) = Some b.
Proof. unfold block_ReadFromDisk; destruct (read_file _ _) as [b'|]; [|discriminate]; destruct (uint_eq _ _); [now intros [= <-] | discriminate]. Qed.

(** A coinbase is not in an earlier block of the chain. *)
Lemma coinbase_new i h n p b bs : index_ok i -> heights_ok i -> i !! h = Some n -> in_pprev n = Some p -> read_block (in_entry n) = Some b ->
  blocks_of (chain_of i p) = Some bs -> Forall one_coinbase bs -> one_coinbase b ->
  forall b' tx, In b' bs -> IsCoinBase tx = true -> In tx (bl_vtx b) -> ~ In tx (bl_vtx b').
Proof.
  intros Hi Hh En Ep Eb Ebs Hone Hob b' tx Hb' Hcb Ht Ht'; destruct (chain_blocks i p bs Hi Ebs b' Hb') as (k & m & Em & Hin & Hpm & Er).
  rewrite List.Forall_forall in Hone.
  assert (Hfirst : forall b0, one_coinbase b0 -> In tx (bl_vtx b0) -> tx_at b0 0 = tx).
  { intros b0 (cb & txs & E & _ & Hs) Hi0; unfold tx_at; rewrite E in *; destruct Hi0 as [->|Hi0]; [reflexivity|].
    rewrite List.Forall_forall in Hs; specialize (Hs tx Hi0); unfold spends in Hs; now rewrite Hcb in Hs. }
  destruct (Hh h n b En ltac:(congruence) Eb) as [Hn (r & E1)], (Hh k m b' Em Hpm Er) as [Hm (r' & E2)].
  rewrite (Hfirst b Hob Ht) in E1; rewrite (Hfirst b' (Hone b' Hb') Ht') in E2; rewrite E1 in E2.
  apply height_inj in E2; [|pose proof (index_height i Hi h n En); lia | pose proof (index_height i Hi k m Em); lia].
  pose proof (chain_descending i h Hi) as Hd; rewrite (chain_unfold i h n Hi En), Ep in Hd; destruct Hd as [Hd _].
  rewrite List.Forall_forall in Hd; specialize (Hd (in_entry m) Hin); cbv beta in Hd; lia.
Qed.

Lemma read_valid e b : read_block e = Some b -> Forall tx_valid (bl_vtx b).
Proof.
  unfold block_ReadFromDisk; destruct (read_file _ _) as [b'|] eqn:E; [|discriminate]; destruct (uint_eq _ _); [|discriminate].
  intros [= <-]; exact (Hread _ _ _ E).
Qed.

(** Connecting the block of an entry to the ledger of its predecessor. *)
Lemma connect_entry_ok st db b h n p st' r : index_ok (ns_index st) -> files_ok (ns_index st) -> ns_index st !! h = Some n -> in_pprev n = Some p ->
  read_block (in_entry n) = Some b -> ledger_at (ns_index st) p (db_tx db) -> heights_ok (ns_index st) ->
  connect_entry nTotalBlocksEstimate st db b h = (st', r) ->
  kept_state st st' /\ (forall db', r = Done db' -> ledger_at (ns_index st') h (db_tx db')).
Proof.
  intros Hi Hf En Ep Eb (bs & Ebs & Hl) Hu; unfold connect_entry; rewrite (chain_unfold _ _ _ Hi En), Ep.
  destruct (ConnectBlock _ _ _ _ _ _) as [[[db1 e']|k|] m] eqn:Ec; intros E; injection E as <- <-;
    try (split; [split; reflexivity | discriminate]).
  destruct (ConnectBlock_connected (N := env_of _ _) _ _ _ _ _ _ _ _ _ Ec) as (c & Hc).
  destruct (connected_run (N := env_of _ _) _ _ _ _ _ _ _ _ _ (read_valid _ _ Eb) (proj1 (Hf h n En)) Hc) as [Hr _].
  assert (Hpl : same_place (in_entry n) e') by (rewrite (bc_index _ _ _ _ _ _ _ _ _ _ Hc); repeat split).
  pose proof (set_entry_shape (ns_index st) h n e' En Hpl) as Hsh; split; [split; try reflexivity; [exact Hsh | intros x; apply next_set_entry]|].
  intros db' [= <-]; apply (shape_ledger (ns_index st)); [exact Hsh | exact Hi|].
  assert (Eall : blocks_of (chain_of (ns_index st) h) = Some (b :: bs)).
  { rewrite (chain_unfold _ _ _ Hi En), Ep; cbn [blocks_of]; rewrite Eb, Ebs; destruct (chain_of (ns_index st) p); [discriminate Ebs | reflexivity]. }
  destruct (check_shape _ _ _ _ _ _ (bc_check _ _ _ _ _ _ _ _ _ _ Hc)) as [Hone Hnd].
  exists (b :: bs); split; [exact Eall|]; apply (ledger_cons b bs (db_tx db)); [exact Hl | exact Hr | exact Hone | exact Hnd|].
  apply (ledger_fresh b bs _ _ Hl Hr Hone); [|now apply (coinbase_new (ns_index st) h n p b bs Hi Hu En Ep Eb Ebs (ledger_coinbase _ _ Hl))].
  intros b' tx tx' Hb' Ht Ht' E; destruct (chain_blocks _ _ _ Hi Ebs b' Hb') as (k & m' & _ & _ & _ & Er).
  exact (Hcoll _ _ _ _ _ _ tx tx' (read_from_file _ _ Eb) (read_from_file _ _ Er) Ht Ht' E).
Qed.

(** Entries that follow each other from [h] on. *)
Fixpoint path (i : block_index) (h : list Z) (vs : list CBlockIndex) : Prop :=
  match vs with
  | [] => True
  | v :: vs => (exists n, i !! bi_hash v = Some n /\ same_place (in_entry n) v /\ in_pprev n = Some h) /\ path i (bi_hash v) vs
  end.
Definition path_end (h : list Z) (vs : list CBlockIndex) : list Z := match rev vs with [] => h | v :: _ => bi_hash v end.

Lemma path_end_cons h v vs : path_end h (v :: vs) = path_end (bi_hash v) vs.
Proof. unfold path_end; cbn [rev]; destruct (rev vs); reflexivity. Qed.

Lemma path_app i h vs ws : path i h (vs ++ ws) <-> path i h vs /\ path i (path_end h vs) ws.
Proof.
  revert h; induction vs as [|v vs IH]; intros h; cbn [app path]; [unfold path_end; cbn; tauto|]; rewrite IH, path_end_cons; tauto.
Qed.

Lemma path_end_app h vs v : path_end h (vs ++ [v]) = bi_hash v.
Proof. unfold path_end; now rewrite rev_app_distr. Qed.

Lemma shape_path i j h vs : same_shape i j -> path i h vs -> path j h vs.
Proof.
  intros Hs; revert h; induction vs as [|v vs IH]; intros h; cbn [path]; [tauto|]; intros [(n & En & Hn & Ep) Hp]; split; [|now apply IH].
  destruct (shape_lookup i j _ n Hs En) as (m & Em & Hm & Epp); exists m; split; [exact Em|]; split; [|congruence].
  destruct Hm as (E1 & E2 & E3 & E4 & E5), Hn as (F1 & F2 & F3 & F4 & F5); repeat split; congruence.
Qed.

Lemma chain_path i h fn e rest : index_ok i -> chain_of i h = fn ++ e :: rest -> path i (bi_hash e) (rev fn) /\ path_end (bi_hash e) (rev fn) = h.
Proof.
  intros Hi; revert h; induction fn as [|f fn IH]; intros h Ec; destruct (i !! h) as [n|] eqn:En; try (rewrite chain_none in Ec by assumption; discriminate Ec);
    rewrite (chain_unfold i h n Hi En) in Ec; cbn [app] in Ec; injection Ec as Ee Ec.
  - split; [exact I|]; unfold path_end; cbn; subst e; now apply (index_hash i Hi).
  - destruct (in_pprev n) as [p|] eqn:Ep; [|now destruct fn]; destruct (IH p Ec) as [Hp Hend]; cbn [rev]; rewrite path_app, Hend, path_end_app.
    subst f; rewrite (index_hash i Hi h n En); split; [|reflexivity]; split; [exact Hp|]; split; [|exact I]; rewrite (index_hash i Hi h n En).
    exists n; split; [exact En|]; split; [repeat split | exact Ep].
Qed.

Lemma connect_branch_ok vs : forall st h db del st' r, index_ok (ns_index st) -> files_ok (ns_index st) -> path (ns_index st) h vs ->
  heights_ok (ns_index st) -> ledger_at (ns_index st) h (db_tx db) ->
  connect_branch read_file nTotalBlocksEstimate st vs db del = (st', r) ->
  kept_state st st' /\ (forall db' del', r = Done (db', del') -> ledger_at (ns_index st') (path_end h vs) (db_tx db')).
Proof.
  induction vs as [|v vs IH]; intros st h db del st' r Hi Hf Hp Hu Hl; cbn [connect_branch].
  { intros E; injection E as <- <-; split; [reflexivity|]; intros db' del' [= <- <-]; exact Hl. }
  pose proof Hp as Hp0; destruct Hp as [(n & En & Hn & Ep) Hp]; destruct (read_block v) as [b|] eqn:Eb; [|intros E; injection E as <- <-; split; [reflexivity | discriminate]].
  destruct (connect_entry nTotalBlocksEstimate st db b (bi_hash v)) as [st1 r1] eqn:E1.
  assert (Hstep : kept_state st st1 /\ (forall db', r1 = Done db' -> ledger_at (ns_index st1) (bi_hash v) (db_tx db'))).
  { apply (connect_entry_ok st db b (bi_hash v) n h st1 r1 Hi Hf En Ep); auto; rewrite (read_same _ _ Hn); exact Eb. }
  destruct Hstep as [Hk Hl1]; pose proof (kept_shape _ _ Hk) as Hs.
  destruct r1 as [db1|k|]; [|intros E; injection E as <- <-; split; [exact Hk | discriminate]..].
  intros E; rewrite path_end_cons; apply (IH st1 (bi_hash v)) in E.
  - destruct E as [Hk' Hl']; split; [now transitivity st1 | exact Hl'].
  - now apply (shape_index_ok (ns_index st)).
  - now apply (shape_files (ns_index st)).
  - now apply (shape_path (ns_index st)).
  - now apply (shape_heights (ns_index st)).
  - now apply Hl1.
Qed.

Lemma pool_fold_fails f p txs n : (forall p tx k, f p tx <> Fails k) -> pool_fold f p txs <> Fails n.
Proof.
  intros Hf; revert p; induction txs as [|tx txs IH]; intros p; cbn [pool_fold]; [discriminate|].
  destruct (f p tx) as [q|k|] eqn:E; cbn [obind]; [apply IH | now apply Hf in E | discriminate].
Qed.

Lemma pool_remove_fails p tx k : pool_remove p tx <> Fails k.
Proof. unfold pool_remove; destruct (remove 1 p tx false); discriminate. Qed.

Lemma pool_delete_fails p tx k : pool_delete p tx <> Fails k.
Proof.
  unfold pool_delete; destruct (pool_remove p tx) as [q|n|] eqn:E; cbn [obind]; [destruct (removeConflicts _ q tx); discriminate | now apply pool_remove_fails in E | discriminate].
Qed.

(** The state of the best chain. *)
Record chain_ok_at (st : node_state) (h : list Z) : Prop := {
  at_index : index_ok (ns_index st);
  at_files : files_ok (ns_index st);
  at_ledger : ledger_at (ns_index st) h (db_tx (ns_db st));
  at_best : db_hashBestChain (ns_db st) = h;
  at_links : links_ok (ns_index st) h;
  at_heights : heights_ok (ns_index st)
}.

Lemma kept_links i j h : same_shape i j -> index_ok i -> (forall x, next_of j x = next_of i x) -> links_ok i h -> links_ok j h.
Proof. intros Hs Hi Hn Hl x y; rewrite Hn, (Hl x y), (shape_hashes i j h Hs Hi), (prev_of_shape i j y Hs); reflexivity. Qed.

Lemma kept_chain st st' h : kept_state st st' -> chain_ok_at st h -> chain_ok_at st' h.
Proof.
  intros [Ks Kn Kd _ _ _ _ _ _ _] [H1 H2 H3 H4 H5 H6]; split; [now apply (shape_index_ok (ns_index st)) | now apply (shape_files (ns_index st)) | |now rewrite Kd
    | now apply (kept_links (ns_index st)) | now apply (shape_heights (ns_index st))].
  rewrite Kd; now apply (shape_ledger (ns_index st)).
Qed.

(** The variables of the best chain. *)
Definition same_best (st st' : node_state) : Prop :=
  ns_best st' = ns_best st /\ ns_hashBestChain st' = ns_hashBestChain st /\ ns_nBestHeight st' = ns_nBestHeight st
  /\ ns_nBestChainTrust st' = ns_nBestChainTrust st /\ ns_genesis st' = ns_genesis st.

Lemma Reorganize_ok st hB hN st' r : ns_best st = Some hB -> chain_ok_at st hB ->
  Reorganize read_file nTotalBlocksEstimate fEnforceCanonical rate_limited st hN = (st', r) ->
  same_shape (ns_index st) (ns_index st') /\ same_best st st'
  /\ (r = Done tt -> chain_ok_at st' hN) /\ (forall n, r = Fails n -> kept_state st st').
Proof.
  intros Hb [Hi Hf Hl Hh Hk0 Hu]; unfold Reorganize; rewrite Hb.
  destruct (find_fork _ _) as [f|] eqn:Ef; [|intros E; injection E as <- <-; repeat split; try reflexivity; discriminate].
  destruct (fork_split (ns_index st) hB hN f Hi Ef) as (e & rest & fb & fn & -> & Ecb & Ecn & Ebb & Ebn & _); cbn [nth]; rewrite Ebb, Ebn.
  destruct (disconnect_branch_ok st fb hB e rest (ns_db st) [] Hi Ecb Hl) as (db1 & res & -> & Hl1).
  destruct (chain_path (ns_index st) hN fn e rest Hi Ecn) as [Hp Hend].
  destruct (connect_branch _ _ st (rev fn) db1 []) as [st1 r1] eqn:Ec.
  destruct (connect_branch_ok (rev fn) st (bi_hash e) db1 [] st1 r1 Hi Hf Hp Hu Hl1 Ec) as [Hk Hl2]; rewrite Hend in Hl2.
  assert (Hsb : forall s, ns_best s = ns_best st1 -> ns_hashBestChain s = ns_hashBestChain st1 -> ns_nBestHeight s = ns_nBestHeight st1 ->
    ns_nBestChainTrust s = ns_nBestChainTrust st1 -> ns_genesis s = ns_genesis st1 -> same_best st s)
    by (destruct Hk; intros; repeat split; congruence).
  destruct r1 as [[db2 del]|k|].
  - specialize (Hl2 db2 del eq_refl).
    set (i' := fold_left (link_prev Some) _ (fold_left (link_prev (fun _ => None)) _ _)).
    assert (Hs1 : same_shape (ns_index st1) i') by (etransitivity; apply links_shape).
    assert (Hs : same_shape (ns_index st) i') by (etransitivity; [exact (kept_shape _ _ Hk) | exact Hs1]).
    assert (Hi1 : index_ok (ns_index st1)) by (apply (shape_index_ok (ns_index st)); [exact (kept_shape _ _ Hk) | exact Hi]).
    destruct (pool_fold _ _ _) as [q|n|] eqn:Eq; intros E; injection E as <- <-;
      (split; [exact Hs|]; split; [now apply Hsb|]; split; [|try discriminate]); try discriminate.
    + intros _; split; cbn; [now apply (shape_index_ok (ns_index st)) | now apply (shape_files (ns_index st)) | | reflexivity | | now apply (shape_heights (ns_index st))].
      * now apply (shape_ledger (ns_index st1)).
      * unfold i'; rewrite map_rev; apply (links_reorganized _ hB hN (List.map bi_hash (e :: rest))); [exact Hi1 | | | ];
          [apply (kept_links (ns_index st)); auto; apply Hk | rewrite (shape_hashes _ _ _ (kept_shape _ _ Hk) Hi).. ];
          [now rewrite Ecb, map_app | now rewrite Ecn, map_app].
    + exfalso; exact (pool_fold_fails _ _ _ _ (fun p tx k => pool_delete_fails p tx k) Eq).
  - intros E; injection E as <- <-; split; [exact (kept_shape _ _ Hk)|]; split; [now apply Hsb|]; split; [discriminate | intros n _; exact Hk].
  - intros E; injection E as <- <-; split; [exact (kept_shape _ _ Hk)|]; split; [now apply Hsb|]; split; discriminate.
Qed.

Context (Hwf : forall b, wf 8 (block_hash b)).

Lemma read_hash i h n b : index_ok i -> files_ok i -> i !! h = Some n -> read_block (in_entry n) = Some b -> block_hash b = h.
Proof.
  intros Hi Hf En; unfold block_ReadFromDisk; rewrite (index_hash i Hi h n En); destruct (read_file _ _) as [b'|]; [|discriminate].
  destruct (uint_eq (block_hash b') h) eqn:E; [|discriminate]; intros [= <-]; destruct (Hf h n En) as [_ Hw].
  rewrite (uint_eq_spec 8), Z.eqb_eq in E by (apply Hwf || exact Hw); now apply (val_inj 8).
Qed.

Lemma kept_same_best st st' : kept_state st st' -> same_best st st'.
Proof. intros []; repeat split; assumption. Qed.

(** After a failure for the block [h]: everything is kept, and [InvalidChainFound]
    has remembered its trust. *)
Definition invalidated (h : list Z) (st st' : node_state) : Prop := exists st1, kept_state st st1 /\ st' = InvalidChainFound st1 h.

Lemma invalid_fields st h : let st' := InvalidChainFound st h in
  ns_index st' = ns_index st /\ same_best st st' /\ ns_pool st' = ns_pool st
  /\ db_tx (ns_db st') = db_tx (ns_db st) /\ db_index (ns_db st') = db_index (ns_db st) /\ db_hashBestChain (ns_db st') = db_hashBestChain (ns_db st)
  /\ (ns_nBestInvalidTrust st', db_bestInvalidTrust (ns_db st'))
     = if uint_lt (ns_nBestInvalidTrust st) (trust_at (ns_index st) h) then (trust_at (ns_index st) h, Some (trust_at (ns_index st) h))
       else (ns_nBestInvalidTrust st, db_bestInvalidTrust (ns_db st)).
Proof. unfold InvalidChainFound; destruct (uint_lt _ _); repeat split. Qed.

Lemma invalidated_index h st st' : invalidated h st st' -> same_shape (ns_index st) (ns_index st') /\ same_best st st'.
Proof.
  intros (st1 & Hk & ->); destruct (invalid_fields st1 h) as (E & Hb & _); rewrite E; split; [apply Hk|].
  apply kept_same_best in Hk; unfold same_best in *; intuition congruence.
Qed.

Lemma invalidated_chain h st st' k : invalidated h st st' -> chain_ok_at st k -> chain_ok_at st' k.
Proof.
  intros (st1 & Hk & ->) Hc; pose proof (kept_chain _ _ _ Hk Hc) as [H1 H2 H3 H4 H5 H6]; destruct (invalid_fields st1 h) as (E & _ & _ & Et & _ & Eb & _).
  split; rewrite ?E, ?Et, ?Eb; assumption.
Qed.

Lemma trust_shape i j h : same_shape i j -> trust_at j h = trust_at i h.
Proof. intros Hs; specialize (Hs h); unfold trust_at; destruct Hs as [a b [(_ & _ & _ & _ & E) _]|]; [now symmetry | reflexivity]. Qed.

(** The database but for the record of the best invalid trust. *)
Definition same_tables (db db' : CTxDB) : Prop := db_tx db' = db_tx db /\ db_index db' = db_index db /\ db_hashBestChain db' = db_hashBestChain db.

(** The variable and the record of the best invalid trust after a failure for [h]. *)
Definition invalid_trust_kept (h : list Z) (st st' : node_state) : Prop :=
  let t := trust_at (ns_index st) h in
  if uint_lt (ns_nBestInvalidTrust st) t then ns_nBestInvalidTrust st' = t /\ db_bestInvalidTrust (ns_db st') = Some t
  else ns_nBestInvalidTrust st' = ns_nBestInvalidTrust st /\ db_bestInvalidTrust (ns_db st') = db_bestInvalidTrust (ns_db st).

Lemma invalidated_state h st st' : invalidated h st st' -> same_tables (ns_db st) (ns_db st') /\ invalid_trust_kept h st st' /\ ns_pool st' = ns_pool st.
Proof.
  intros (st1 & Hk & ->); destruct (invalid_fields st1 h) as (_ & _ & Ep & Et & Ei & Eb & E); unfold same_tables, invalid_trust_kept.
  rewrite Ep, Et, Ei, Eb, (kept_db _ _ Hk), (kept_pool _ _ Hk); split; [repeat split|]; split; [|reflexivity].
  rewrite (kept_invalid _ _ Hk), (kept_db _ _ Hk), (trust_shape _ _ h (kept_shape _ _ Hk)) in E; destruct (uint_lt _ _); injection E as -> ->; now split.
Qed.

Lemma Inner_ok st b h n p st' r : chain_ok_at st p -> ns_index st !! h = Some n -> in_pprev n = Some p -> read_block (in_entry n) = Some b ->
  SetBestChainInner nTotalBlocksEstimate st b h = (st', r) ->
  same_shape (ns_index st) (ns_index st') /\ same_best st st' /\ (r = Done tt -> chain_ok_at st' h) /\ (forall k, r = Fails k -> invalidated h st st').
Proof.
  intros [Hi Hf Hl Hh Hk0 Hu] En Ep Eb; unfold SetBestChainInner; rewrite (read_hash _ h n b Hi Hf En Eb).
  destruct (connect_entry nTotalBlocksEstimate st (ns_db st) b h) as [st1 r1] eqn:Ec.
  destruct (connect_entry_ok st (ns_db st) b h n p st1 r1 Hi Hf En Ep Eb Hl Hu Ec) as [Hk Hl1]; pose proof (kept_shape _ _ Hk) as Hs.
  pose proof (kept_same_best _ _ Hk) as Hsb; destruct r1 as [db|k|].
  - specialize (Hl1 db eq_refl); cbn [ns_index with_db]; destruct (shape_lookup _ _ h n Hs En) as (m & Em & _ & Epp).
    unfold prev_of; rewrite Em, <- Epp, Ep; set (i' := set_pnext (ns_index st1) p (Some h)).
    assert (Hs1 : same_shape (ns_index st1) i') by (apply set_pnext_shape).
    assert (Hs2 : same_shape (ns_index st) i') by (now transitivity (ns_index st1)).
    destruct (pool_fold _ _ _) as [q|k|] eqn:Eq; intros E; injection E as <- <-; (split; [exact Hs2|]; split; [exact Hsb|]; split; try discriminate).
    + intros _; split; cbn; [now apply (shape_index_ok (ns_index st)) | now apply (shape_files (ns_index st)) | | reflexivity | | now apply (shape_heights (ns_index st))].
      * apply (shape_ledger (ns_index st1)); auto; now apply (shape_index_ok (ns_index st)).
      * apply (links_appended _ h m p); [now apply (shape_index_ok (ns_index st)) | exact Em | congruence|].
        apply (kept_links (ns_index st)); auto; apply Hk.
    + exfalso; exact (pool_fold_fails _ _ _ _ (fun p tx k => pool_remove_fails p tx k) Eq).
  - intros E; injection E as <- <-; assert (Hk2 : invalidated h st (InvalidChainFound st1 h)) by (now exists st1); destruct (invalidated_index _ _ _ Hk2).
    split; [assumption|]; split; [assumption|]; split; [discriminate | intros k' _; exact Hk2].
  - intros E; injection E as <- <-; split; [exact Hs|]; split; [exact Hsb|]; split; discriminate.
Qed.

(** Hashes that follow each other from [h] to [last]. *)
Fixpoint hash_path (i : block_index) (h : list Z) (hs : list (list Z)) (last : list Z) : Prop :=
  match hs with
  | [] => h = last
  | k :: ks => prev_of i k = Some h /\ hash_path i k ks last
  end.

Lemma hash_path_shape i j h hs last : same_shape i j -> hash_path i h hs last -> hash_path j h hs last.
Proof. intros Hs; revert h; induction hs as [|k ks IH]; intros h; cbn [hash_path]; [easy|]; rewrite (prev_of_shape i j k Hs); intros [E Hp]; split; auto. Qed.

Lemma hash_path_app i h hs k last : hash_path i h (hs ++ [k]) last <-> exists m, hash_path i h hs m /\ prev_of i k = Some m /\ k = last.
Proof.
  revert h; induction hs as [|x hs IH]; intros h; cbn [app hash_path].
  - split; [intros [E1 E2]; now exists h | intros (m & <- & E1 & E2); now split].
  - rewrite IH; split; [intros (E & m & Hm); exists m; tauto | intros (m & [E Hm] & H2); split; [exact E | now exists m]].
Qed.

Lemma postponed_path i trust fuel : forall h rest first, postponed i trust fuel h = (rest, first) ->
  hash_path i first (rev rest) h /\ ((forall p, prev_of i h = Some p -> uint_lt trust (trust_at i p) = false) -> rest = []).
Proof.
  induction fuel as [|fuel IH]; intros h rest first; cbn [postponed]; [intros [= <- <-]; now split|].
  destruct (prev_of i h) as [p|] eqn:Ep; [|intros [= <- <-]; now split].
  destruct (uint_lt trust (trust_at i p)) eqn:Et; [|intros [= <- <-]; now split].
  destruct (postponed i trust fuel p) as [rest' first'] eqn:Er; intros [= <- <-]; destruct (IH p rest' first' Er) as [Hp _]; split.
  - cbn [rev]; apply hash_path_app; now exists p.
  - intros Hn; rewrite (Hn p eq_refl) in Et; discriminate.
Qed.

Lemma further_ok hs : forall st h last st' r, chain_ok_at st h -> hash_path (ns_index st) h hs last ->
  connect_further read_file nTotalBlocksEstimate st hs = (st', r) ->
  same_shape (ns_index st) (ns_index st') /\ same_best st st' /\ (forall n, r <> Fails n)
  /\ (r = Done tt -> exists t ts, chain_ok_at st' t /\ hash_path (ns_index st') t ts last /\ (hs = [] -> t = h)).
Proof.
  induction hs as [|k ks IH]; intros st h last st' r Hc Hp; cbn [connect_further].
  { intros E; injection E as <- <-; repeat split; try reflexivity; try discriminate; intros _; exists h, []; now split. }
  pose proof Hp as Hp0; destruct Hp as [Ep Hp]; apply prev_of_some in Ep as (n & En & Epp); rewrite En.
  destruct (read_block (in_entry n)) as [b|] eqn:Eb.
  2:{ intros E; injection E as <- <-; repeat split; try reflexivity; try discriminate; intros _; exists h, (k :: ks); split; [exact Hc|]; split; [exact Hp0 | discriminate]. }
  destruct (SetBestChainInner nTotalBlocksEstimate st b k) as [st1 r1] eqn:Ei.
  destruct (Inner_ok st b k n h st1 r1 Hc En Epp Eb Ei) as (Hs & Hsb & Hd & Hfail); destruct r1 as [[]|m|].
  - intros E; apply (IH st1 k last) in E; [|now apply Hd | now apply (hash_path_shape (ns_index st))].
    destruct E as (Hs' & Hsb' & Hnf & Hdone); split; [now transitivity (ns_index st1)|]; split; [|split; [exact Hnf|]].
    + unfold same_best in *; intuition congruence.
    + intros Hr; destruct (Hdone Hr) as (t & ts & Ht & Hpt & _); exists t, ts; split; [exact Ht|]; split; [exact Hpt | discriminate].
  - intros E; injection E as <- <-; split; [exact Hs|]; split; [exact Hsb|]; split; [discriminate|]; intros _; exists h, (k :: ks); split; [|split; [|discriminate]].
    + exact (invalidated_chain k st st1 h (Hfail m eq_refl) Hc).
    + apply (hash_path_shape (ns_index st) _ h (k :: ks)); [exact Hs | exact Hp0].
  - intros E; injection E as <- <-; split; [exact Hs|]; split; [exact Hsb|]; split; discriminate.
Qed.

Lemma set_best_fields st hash h n : ns_index st !! h = Some n ->
  let st' := set_best st hash h in
  ns_best st' = Some h /\ ns_hashBestChain st' = hash /\ ns_nBestHeight st' = bi_nHeight (in_entry n)
  /\ ns_nBestChainTrust st' = bi_nChainTrust (in_entry n) /\ ns_index st' = ns_index st /\ ns_db st' = ns_db st.
Proof. intros E st'; unfold st', set_best; rewrite E; repeat split. Qed.

Lemma chain_set_best st hash h t : chain_ok_at st t -> chain_ok_at (set_best st hash h) t.
Proof. intros []; unfold set_best; destruct (ns_index st !! h); split; assumption. Qed.

Lemma finish_ok st st1 hNew n t ts (P : Prop) : same_shape (ns_index st) (ns_index st1) -> ns_index st !! hNew = Some n ->
  chain_ok_at st1 t -> hash_path (ns_index st1) t ts hNew -> (P -> t = hNew) ->
  let st' := set_best st1 hNew hNew in
  ns_best st' = Some hNew /\ ns_hashBestChain st' = hNew /\ ns_nBestHeight st' = bi_nHeight (in_entry n)
  /\ ns_nBestChainTrust st' = bi_nChainTrust (in_entry n)
  /\ exists hTip hs, chain_ok_at st' hTip /\ hash_path (ns_index st') hTip hs hNew /\ (P -> hTip = hNew).
Proof.
  intros Hs En Hc Hp HP; destruct (shape_lookup _ _ _ _ Hs En) as (m & Em & (_ & _ & _ & E4 & E5) & _); cbv zeta.
  destruct (set_best_fields st1 hNew hNew m Em) as (F1 & F2 & F3 & F4 & F5 & F6); rewrite F1, F2, F3, F4, E4, E5; repeat split.
  exists t, ts; split; [now apply chain_set_best|]; now rewrite F5.
Qed.

Lemma failed_ok st st1 h hBest : chain_ok_at st hBest -> invalidated h st st1 ->
  chain_ok_at st1 hBest /\ same_tables (ns_db st) (ns_db st1) /\ invalid_trust_kept h st st1 /\ ns_pool st1 = ns_pool st /\ same_best st st1.
Proof. intros Hc Hk; destruct (invalidated_state _ _ _ Hk) as (E1 & E2 & E3); split; [exact (invalidated_chain _ _ _ _ Hk Hc)|]; do 3 (split; [assumption|]); now apply (invalidated_index h). Qed.

Lemma set_best_kept st h : ns_index (set_best st h h) = ns_index st /\ ns_genesis (set_best st h h) = ns_genesis st.
Proof. unfold set_best; destruct (ns_index st !! h); now split. Qed.

Lemma SetBestChain_ok (st st' : node_state) (block : CBlock) (hNew hBest : list Z) (n : index_node) (r : outcome unit) :
  ns_best st = Some hBest -> ns_hashBestChain st = hBest -> ns_genesis st <> None -> chain_ok_at st hBest ->
  ns_index st !! hNew = Some n -> in_pprev n = Some (hashPrevBlock block) -> read_block (in_entry n) = Some block ->
  wf 8 (hashPrevBlock block) -> wf 8 hBest ->
  SetBestChain read_file nTotalBlocksEstimate hashGenesisBlock fEnforceCanonical rate_limited st block hNew = (st', r) ->
  same_shape (ns_index st) (ns_index st') /\ ns_genesis st' = ns_genesis st
  /\ (r = Done tt ->
     ns_best st' = Some hNew /\ ns_hashBestChain st' = hNew
     /\ ns_nBestHeight st' = bi_nHeight (in_entry n) /\ ns_nBestChainTrust st' = bi_nChainTrust (in_entry n)
     /\ exists hTip hs, chain_ok_at st' hTip /\ hash_path (ns_index st') hTip hs hNew
        /\ (uint_lt (trust_at (ns_index st) hBest) (trust_at (ns_index st) (hashPrevBlock block)) = false -> hTip = hNew))
  /\ (forall nDoS, r = Fails nDoS -> chain_ok_at st' hBest /\ same_tables (ns_db st) (ns_db st') /\ invalid_trust_kept hNew st st' /\ ns_pool st' = ns_pool st /\ same_best st st').
Proof.
  intros Hb Hh Hg Hc En Epp Eb Hwp Hwb; pose proof (at_index _ _ Hc) as Hi; pose proof (read_hash _ hNew n block Hi (at_files _ _ Hc) En Eb) as Ehash.
  unfold SetBestChain; rewrite Ehash, (bool_decide_eq_false_2 _ Hg); cbn [andb]; rewrite Hh, Hb.
  destruct (uint_eq (hashPrevBlock block) hBest) eqn:Ee.
  - rewrite (uint_eq_spec 8), Z.eqb_eq in Ee by assumption; apply (val_inj 8 _ _ Hwp Hwb) in Ee; rewrite Ee in Epp.
    destruct (SetBestChainInner nTotalBlocksEstimate st block hNew) as [st1 r1] eqn:Ei.
    destruct (Inner_ok st block hNew n hBest st1 r1 Hc En Epp Eb Ei) as (Hs & Hsb & Hd & Hf).
    destruct (set_best_kept st1 hNew) as [Hx Hgx]; destruct Hsb as (_ & _ & _ & _ & Hsg).
    destruct r1 as [[]|k|]; intros E; injection E as <- <-; (split; [rewrite ?Hx; exact Hs|]; split; [rewrite ?Hgx; exact Hsg|]; split; try discriminate).
    + intros _; apply (finish_ok st st1 hNew n hNew []); auto; reflexivity.
    + intros k' _; apply (failed_ok st st1 hNew hBest Hc); now apply (Hf k).
  - destruct (postponed _ _ _ _) as [rest first] eqn:Epo; destruct (postponed_path _ _ _ _ _ _ Epo) as [Hpath Hnil].
    destruct (Reorganize _ _ _ _ st first) as [st1 r1] eqn:Er; destruct (Reorganize_ok st hBest first st1 r1 Hb Hc Er) as (Hs & Hsb & Hd & Hf).
    destruct r1 as [[]|k|].
    + destruct (connect_further _ _ st1 (rev rest)) as [st2 r2] eqn:Ef.
      destruct (further_ok (rev rest) st1 first hNew st2 r2 (Hd eq_refl) (hash_path_shape _ _ _ _ _ Hs Hpath) Ef) as (Hs2 & Hsb2 & Hnf & Hdone).
      assert (Hs3 : same_shape (ns_index st) (ns_index st2)) by (now transitivity (ns_index st1)).
      assert (Hsg : ns_genesis st2 = ns_genesis st) by (unfold same_best in Hsb, Hsb2; intuition congruence); destruct (set_best_kept st2 hNew) as [Hx Hgx].
      destruct r2 as [[]|k|]; [| exfalso; exact (Hnf k eq_refl) |]; intros E; injection E as <- <-; (split; [rewrite ?Hx; exact Hs3|]; split; [rewrite ?Hgx; exact Hsg|]; split; try discriminate).
      intros _; destruct (Hdone eq_refl) as (t & ts & Ht & Hpt & Ht0); apply (finish_ok st st2 hNew n t ts); auto.
      intros Hno; assert (rest = []) as -> by (apply Hnil; intros p Ep; unfold prev_of in Ep; rewrite En, Epp in Ep; now injection Ep as <-).
      cbn in Hpath; rewrite <- Hpath; now apply Ht0.
    + intros E; injection E as <- <-; assert (Hk : invalidated hNew st (InvalidChainFound st1 hNew)) by (exists st1; split; [now apply (Hf k) | reflexivity]).
      destruct (invalidated_index _ _ _ Hk) as [Hx (_ & _ & _ & _ & Hgx)]; split; [exact Hx|]; split; [exact Hgx|]; split; [discriminate|]; intros k' _; exact (failed_ok st _ hNew hBest Hc Hk).
    + intros E; injection E as <- <-; split; [exact Hs|]; split; [apply Hsb|]; split; discriminate.
Qed.

(** C2: The database follows the best chain.  It starts as the ledger of the
    best chain: the transaction index that results from connecting the
    blocks of this chain, in order, to an empty one.  When [SetBestChain]
    succeeds for a new block, the variables of the best chain are those of the
    block, and the database is the ledger of a chain that ends in the block,
    or in a block before it that was connected when a
    later one, postponed after the reorganization, failed; this happens
    only if the predecessor had more trust than the best chain.  The links
    [pnext] are those of this chain, in both directions.  When it
    fails, the transactions, entries and best hash of the database, the pool and
    the variables of the best chain are as before, however many
    blocks were disconnected and connected on the way; only the variable and the
    record of the best invalid trust become that of the block, if it is greater.  No transaction is on a chain twice: the
    coinbase of an indexed block starts with its height, and in the block
    files no two transactions have the same hash. *)
Theorem best_chain_ledger (st st' : node_state) (block : CBlock) (hNew hBest : list Z) (n : index_node) (r : outcome unit) :
  ns_best st = Some hBest -> ns_hashBestChain st = hBest -> ns_genesis st <> None -> chain_ok_at st hBest ->
  ns_index st !! hNew = Some n -> in_pprev n = Some (hashPrevBlock block) -> read_block (in_entry n) = Some block ->
  wf 8 (hashPrevBlock block) -> wf 8 hBest ->
  SetBestChain read_file nTotalBlocksEstimate hashGenesisBlock fEnforceCanonical rate_limited st block hNew = (st', r) ->
  (r = Done tt ->
     ns_best st' = Some hNew /\ ns_hashBestChain st' = hNew
     /\ ns_nBestHeight st' = bi_nHeight (in_entry n) /\ ns_nBestChainTrust st' = bi_nChainTrust (in_entry n)
     /\ exists hTip hs, chain_ok_at st' hTip /\ hash_path (ns_index st') hTip hs hNew
        /\ (uint_lt (trust_at (ns_index st) hBest) (trust_at (ns_index st) (hashPrevBlock block)) = false -> hTip = hNew))
  /\ (forall nDoS, r = Fails nDoS -> chain_ok_at st' hBest /\ same_tables (ns_db st) (ns_db st') /\ invalid_trust_kept hNew st st' /\ ns_pool st' = ns_pool st /\ same_best st st').
Proof. intros; edestruct SetBestChain_ok as (_ & _ & G); eassumption. Qed.

End Blocks.

(** ** A chain of two branches *)

(** A block is hashed to its nonce.  Block 1 is the best one; blocks 2 and 3
    are the other branch, after the genesis block 9.  The coinbase of block 4
    pays too much. *)
Definition key (n : Z) : list Z := uint_of_u64 8 n.
Definition branch_coinbase (n nHeight v : Z) : CTransaction :=
  Tx 1 1432620500 [TxIn COutPoint_null [0x50 + nHeight; n] 0xFFFFFFFF] [TxOut v [op_byte OP_1]] 0 [] 0.
Definition branch_block (n prev v : Z) : CBlock :=
  let vtx := [branch_coinbase n (if prev =? 9 then 1 else 2) v] in
  Block 6 (key prev) (block_MerkleRoot (H := toy_hash) (Block 6 null_hash null_hash 0 0 0 vtx [])) 1432620600 0x1f00ffff n vtx [].
Definition branch_file (nFile nBlockPos : Z) : option CBlock :=
  if nBlockPos =? 1 then Some (branch_block 1 9 COIN)
  else if nBlockPos =? 2 then Some (branch_block 2 9 COIN)
  else if nBlockPos =? 3 then Some (branch_block 3 2 COIN)
  else if nBlockPos =? 4 then Some (branch_block 4 2 (10000 * COIN))
  else None.
Definition branch_entry (n nTrust nHeight : Z) : CBlockIndex :=
  BlockIndex (key n) 1 n (key nTrust) nHeight 0 0 0 0 0 COutPoint_null 0 null_hash 6 null_hash 1432620600 0x1f00ffff n.

#[local] Instance branch_node : node_env := {|
  fTestNet := false;
  now := 1432620700;
  fSkip := false;
  Hash9 bs := key (nth 76 bs 0);
  ReadTx _ := None;
  ReadBlockHeader _ _ := None;
  ReadBlock _ := branch_block 1 9 COIN;
  mempool_lookup _ := None;
  next_hash _ := null_hash;
  foreign_GetOp _ _ := None
|}.

Definition branch_index (trust2 last : Z) : block_index :=
  list_to_map [(key 9, IndexNode (branch_entry 9 1 0) None (Some (key 1)));
               (key 1, IndexNode (branch_entry 1 2 1) (Some (key 9)) None);
               (key 2, IndexNode (branch_entry 2 trust2 1) (Some (key 9)) None);
               (key last, IndexNode (branch_entry last (trust2 + 1) 2) (Some (key 2)) None)].
Definition branch_state (trust2 last : Z) : node_state :=
  Node (branch_index trust2 last)
    (TxDB (tx_effect (H := toy_hash) (DiskTxPos 1 1 82) (branch_coinbase 1 1 COIN) ∅) ∅ (key 1) None)
    (Some (key 1)) (key 1) 1 (key 2) null_hash (Some (key 9)) empty_pool [].
Definition branch_set (trust2 last v : Z) : node_state * outcome unit :=
  SetBestChain (H := toy_hash) (L := BN_ideal) (EC := toy_ec) branch_file 0 (key 9) true (fun _ _ => true)
    (branch_state trust2 last) (branch_block last 2 v) (key last).

Abbreviation two_branches t := (branch_index t 3).

Definition branch_nodes (t : Z) : list (list Z * index_node) :=
  [(key 9, IndexNode (branch_entry 9 1 0) None (Some (key 1)));
   (key 1, IndexNode (branch_entry 1 2 1) (Some (key 9)) None);
   (key 2, IndexNode (branch_entry 2 t 1) (Some (key 9)) None);
   (key 3, IndexNode (branch_entry 3 (t + 1) 2) (Some (key 2)) None)].

Lemma branch_lookup t h n : two_branches t !! h = Some n <-> In (h, n) (branch_nodes t).
Proof.
  unfold branch_index; fold (branch_nodes t); rewrite <- list_elem_of_In; split; [apply elem_of_list_to_map_2 | apply elem_of_list_to_map_1].
  change ((branch_nodes t).*1) with [key 9; key 1; key 2; key 3]; apply (bool_decide_unpack _); vm_compute; exact I.
Qed.

Ltac each_branch E := apply branch_lookup in E; repeat (destruct E as [E|E]; [injection E as <- <-|]); try contradiction.

Lemma branch_index_ok t : index_ok (two_branches t).
Proof.
  split; intros h n; [intros E; each_branch E; reflexivity | intros E; each_branch E; vm_compute; discriminate|].
  intros p E; each_branch E; intros Ep; cbn [in_pprev] in Ep; try discriminate Ep; injection Ep as <-;
    (eexists; split; [apply branch_lookup; cbn; tauto | reflexivity]).
Qed.

Lemma key_wf n : wf 8 (key n).
Proof. split; [reflexivity|]; unfold key, uint_of_u64; do 2 (constructor; [apply u32_inw|]); words_dec. Qed.

(** The branches fork after the genesis block. *)
Lemma fork_is_latest_witness : exists e rest, find_fork (chain_of (two_branches 2) (key 1)) (chain_of (two_branches 2) (key 3)) = Some (e :: rest) /\ bi_hash e = key 9.
Proof.
  destruct (fork_is_latest (two_branches 2) (key 1) (key 3) (key 9) (branch_index_ok 2)) as (e & rest & E & _).
  - vm_compute; tauto.
  - vm_compute; tauto.
  - exists e, rest; split; [exact E|]; vm_compute in E; injection E as <- <-; reflexivity.
Defined.

Lemma branch_files_ok t : files_ok (two_branches t).
Proof. intros h n E; each_branch E; (split; [vm_compute; discriminate | apply key_wf]). Qed.

Lemma branch_links_ok t : links_ok (two_branches t) (key 1).
Proof.
  assert (Ec : List.map bi_hash (chain_of (two_branches t) (key 1)) = [key 1; key 9]) by (vm_compute; reflexivity).
  intros x y; rewrite Ec; split.
  - unfold next_of; destruct (two_branches t !! x) as [n|] eqn:E; [|discriminate]; each_branch E; intros En; cbn [in_pnext] in En; try discriminate En.
    injection En as <-; split; [vm_compute; reflexivity | now left].
  - intros [Ep Hy]; apply prev_of_some in Ep as (n & E & Ep); destruct Hy as [<-|[<-|[]]]; vm_compute in E; injection E as <-; [|discriminate Ep].
    injection Ep as <-; vm_compute; reflexivity.
Qed.

Lemma branch_ledger t : ledger_at (H := toy_hash) branch_file (two_branches t) (key 1) (db_tx (ns_db (branch_state t 3))).
Proof.
  exists [branch_block 1 9 COIN]; split; [vm_compute; reflexivity|].
  apply (ledger_cons (H := toy_hash) (branch_block 1 9 COIN) [] ∅); [constructor | | | repeat constructor; intros [] | repeat constructor].
  - apply (run_cons (H := toy_hash) (DiskTxPos 1 1 82)); [reflexivity | repeat constructor | constructor].
  - now exists (branch_coinbase 1 1 COIN), [].
Qed.

(** The blocks of the file. *)
Lemma branch_file_blocks nFile nBlockPos b : branch_file nFile nBlockPos = Some b ->
  In b [branch_block 1 9 COIN; branch_block 2 9 COIN; branch_block 3 2 COIN; branch_block 4 2 (10000 * COIN)].
Proof.
  unfold branch_file; repeat (destruct (_ =? _); [intros E; assert (Eb : Some b = _) by (symmetry; exact E); clear E; revert Eb; intros [= ->]; cbn; tauto|]); discriminate.
Qed.

Lemma branch_file_valid nFile nBlockPos b : branch_file nFile nBlockPos = Some b -> Forall tx_valid (bl_vtx b).
Proof.
  intros E; apply branch_file_blocks in E; repeat (destruct E as [<-|E]; [constructor; [|constructor]; unfold branch_coinbase; valid_dec; discriminate|]); destruct E.
Qed.

Definition branch_txs : list CTransaction := [branch_coinbase 1 1 COIN; branch_coinbase 2 1 COIN; branch_coinbase 3 2 COIN; branch_coinbase 4 2 (10000 * COIN)].

Lemma branch_file_txs nFile nBlockPos b tx : branch_file nFile nBlockPos = Some b -> In tx (bl_vtx b) -> In tx branch_txs.
Proof. intros E Ht; apply branch_file_blocks in E; unfold branch_txs; repeat (destruct E as [<-|E]; [destruct Ht as [<-|[]]; cbn; tauto|]); destruct E. Qed.

Lemma NoDup_map_in {A B} (f : A -> B) (l : list A) a b : List.NoDup (List.map f l) -> In a l -> In b l -> f a = f b -> a = b.
Proof.
  induction l as [|x l IH]; intros Hn Ha Hb E; [destruct Ha|]; cbn [List.map] in Hn; apply NoDup_cons_iff in Hn as [Hx Hn].
  destruct Ha as [->|Ha], Hb as [->|Hb]; auto; exfalso; apply Hx; [rewrite E | rewrite <- E]; now apply in_map.
Qed.

Lemma branch_hashes : List.NoDup (List.map (tx_GetHash (H := toy_hash)) branch_txs).
Proof. apply NoDup_ListNoDup, (bool_decide_unpack _); vm_compute; exact I. Qed.

Lemma branch_no_collision nFile nBlockPos b nFile' nBlockPos' b' tx tx' : branch_file nFile nBlockPos = Some b -> branch_file nFile' nBlockPos' = Some b' ->
  In tx (bl_vtx b) -> In tx' (bl_vtx b') -> tx_GetHash (H := toy_hash) tx = tx_GetHash (H := toy_hash) tx' -> tx = tx'.
Proof. intros E E' Ht Ht'; apply (NoDup_map_in _ _ _ _ branch_hashes); [exact (branch_file_txs _ _ _ _ E Ht) | exact (branch_file_txs _ _ _ _ E' Ht')]. Qed.

Lemma branch_read t h n p : In (h, n) (branch_nodes t) -> in_pprev n = Some p ->
  exists k v, block_ReadFromDisk (H := toy_hash) branch_file (in_entry n) = Some (branch_block k v COIN) /\ p = key v /\ bi_nHeight (in_entry n) = if v =? 9 then 1 else 2.
Proof.
  intros Hin Ep; repeat (destruct Hin as [Hin|Hin]; [injection Hin as <- <-|]); try contradiction; cbn [in_pprev] in Ep; try discriminate Ep; injection Ep as <-.
  - exists 1, 9; split; [vm_compute; reflexivity | now split].
  - exists 2, 9; split; [vm_compute; reflexivity | now split].
  - exists 3, 2; split; [vm_compute; reflexivity | now split].
Qed.

Lemma branch_heights t : heights_ok (H := toy_hash) (L := BN_ideal) branch_file (two_branches t).
Proof.
  intros h n b En Ep Eb; apply branch_lookup in En; destruct (in_pprev n) as [p|] eqn:Epp; [|contradiction].
  destruct (branch_read t h n p En Epp) as (k & v & E & _ & Eh); rewrite E in Eb; injection Eb as <-; rewrite Eh.
  split; [destruct (v =? 9); lia|]; exists [k]; cbn; destruct (v =? 9); reflexivity.
Qed.

Lemma branch_state_ok t : chain_ok_at (H := toy_hash) (L := BN_ideal) branch_file (branch_state t 3) (key 1).
Proof. split; [apply branch_index_ok | apply branch_files_ok | apply branch_ledger | reflexivity | apply branch_links_ok | apply branch_heights]. Qed.

Lemma branch_hash_wf b : wf 8 (block_hash (H := toy_hash) b).
Proof.
  unfold block_hash, block_GetHash; destruct (_ <? _); [|apply key_wf]; unfold Hash; apply uint_of_bytes_wf; [apply le_split_bytes | apply length_le_split].
Qed.

(** The best chain is left for the other branch. *)
Lemma best_chain_ledger_witness : exists st', branch_set 2 3 COIN = (st', Done tt) /\ ns_best st' = Some (key 3)
  /\ chain_ok_at (H := toy_hash) (L := BN_ideal) branch_file st' (key 3).
Proof.
  exists (fst (branch_set 2 3 COIN)); assert (E : branch_set 2 3 COIN = (fst (branch_set 2 3 COIN), Done tt)) by (vm_compute; reflexivity); split; [exact E|].
  destruct (best_chain_ledger (H := toy_hash) (L := BN_ideal) (EC := toy_ec) branch_file 0 (key 9) true (fun _ _ => true) branch_file_valid branch_no_collision branch_hash_wf
    (branch_state 2 3) (fst (branch_set 2 3 COIN)) (branch_block 3 2 COIN) (key 3) (key 1) (IndexNode (branch_entry 3 3 2) (Some (key 2)) None) (Done tt)) as [G _].
  - reflexivity.
  - reflexivity.
  - discriminate.
  - apply branch_state_ok.
  - vm_compute; reflexivity.
  - reflexivity.
  - vm_compute; reflexivity.
  - apply key_wf.
  - apply key_wf.
  - exact E.
  - destruct (G eq_refl) as (E1 & _ & _ & _ & hTip & hs & Hc & _ & Ht); split; [exact E1|]; rewrite <- Ht; [exact Hc | vm_compute; reflexivity].
Defined.

(** A block postponed after the reorganization fails: [SetBestChain] returns
    true, and the variables name a block that the database does not have. *)
Example postponed_block_fails : let (st', r) := branch_set 3 4 (10000 * COIN) in
  r = Done tt /\ ns_hashBestChain st' = key 4 /\ ns_nBestHeight st' = 2 /\ db_hashBestChain (ns_db st') = key 2.
Proof. vm_compute; repeat split. Qed.
