(* ===== verification/Checkpoints.v ===== *)
(** * Checkpoints: hardened and synchronized checkpoints (checkpoints.cpp)

    The hardened checkpoints are a table of heights.  The synchronized
    checkpoint is a block that the holder of the master key announces: it moves
    to descendants only, the best chain is switched to it, and in strict mode
    no block is accepted that does not descend from it.  Relaying to peers and
    signing of own checkpoints are not modelled. *)

From Stdlib Require Import ZArith List Lia Bool String.
From stdpp Require Import gmap list.
From S2P Require Import Prelude SphTypes Uint256 Merkle Serialize Transaction BigNum Script Interp SigHash BlockIndex.
From S2P Require Import Stake Difficulty Kernel Subsidy Inputs CheckBlock Connect TxDb Mempool Chain.
Import ListNotations.

Open Scope Z_scope.
Open Scope word_scope.

(** ** The table *)

Definition hashGenesisBlock : list Z := SetHex 8 (bytes_of "0x0000d31a9c2fe162db1175626d062ef06c235baf4986464bdd40e51da037375b").
Definition hashGenesisBlockTestNet : list Z := SetHex 8 (bytes_of "0x0001171dc6387bcdd83d845590ced3bcb6e31d7d08f0a193755d0f5694e5dca2").

Definition mapCheckpoints : list (Z * list Z) :=
  [(0, hashGenesisBlock);
   (32750, SetHex 8 (bytes_of "0xd8e33a97d49289a039833e7e5885cc1ca4787aa912137f62bc24a3ca08515056"));
   (39000, SetHex 8 (bytes_of "0x097e3ef51348ca5b21262acf6f2b1b460d823587f68554958a45a0bece25c277"));
   (63000, SetHex 8 (bytes_of "0xcaf2efdffebbc6b959e8c859b7b6eaa1b9c36bf6c15b1d63640f2d268dd52c83"));
   (87500, SetHex 8 (bytes_of "0xf66088039152f8da7b0f7ee883e95e46855bdcc0828199f090344584b5bcefa6"))].
Definition mapCheckpointsTestnet : list (Z * list Z) := [(0, hashGenesisBlockTestNet)].

Definition checkpoints (fTestNet : bool) : list (Z * list Z) := if fTestNet then mapCheckpointsTestnet else mapCheckpoints.
Definition last_checkpoint (l : list (Z * list Z)) : Z * list Z := List.last l (0, null_hash).

Definition CheckHardened (fTestNet : bool) (nHeight : Z) (hash : list Z) : bool :=
  match List.find (fun i => fst i =? nHeight) (checkpoints fTestNet) with
  | None => true
  | Some i => uint_eq hash (snd i)
  end.

Definition GetTotalBlocksEstimate (fTestNet : bool) : Z := fst (last_checkpoint (checkpoints fTestNet)).

Definition GetLastCheckpoint (fTestNet : bool) (i : block_index) : option index_node :=
  fold_right (fun c r => match r with Some _ => r | None => i !! snd c end) None (checkpoints fTestNet).

(** ** Orphan chains *)

(** [while (mapOrphanBlocks.count(pblock->hashPrevBlock))], at most as often as
    there are orphans. *)
Fixpoint orphan_root (fuel : nat) (orphans : gmap (list Z) CBlock) (b : CBlock) : CBlock :=
  match fuel with
  | O => b
  | S fuel => match orphans !! hashPrevBlock b with Some p => orphan_root fuel orphans p | None => b end
  end.
Definition WantedByOrphan (orphans : gmap (list Z) CBlock) (b : CBlock) : list Z :=
  hashPrevBlock (orphan_root (size orphans) orphans b).

(** ** The message *)

Record CSyncCheckpoint := SyncCheckpoint { sc_nVersion : Z; sc_hashCheckpoint : list Z; sc_vchMsg : list Z; sc_vchSig : list Z }.
Definition CSyncCheckpoint_null : CSyncCheckpoint := SyncCheckpoint 1 null_hash [] [].

(** [CUnsignedSyncCheckpoint] *)
Definition unsigned_codec : codec (Z * list Z) :=
  Codec (fun c => enc (sint_codec 4) (fst c) ++ enc hash_codec (snd c))
        (fun old => (nVersion <- dec (sint_codec 4) (fst old) ;; hashCheckpoint <- dec hash_codec (snd old) ;; rret (nVersion, hashCheckpoint)))
        (fun _ => 4 + 32) 36.

Definition strMasterPubKey : list Z := rev (le_split 65
  0x044acd64a1c62f42b0b2ec0bf4132328094ca158a1eb276baf876c88288f34414ff3e0bafa4851b692abafdfd9a5828b1af1e28033f086516264ca906878f1ad2c).

Record sync_state := Sync {
  hashSyncCheckpoint : list Z;
  hashPendingCheckpoint : list Z;
  hashInvalidCheckpoint : list Z;
  checkpointMessage : CSyncCheckpoint;
  checkpointMessagePending : CSyncCheckpoint;
  syncRecord : option (list Z)
}.

(** The variables at the start of the program; nothing is read yet. *)
Definition sync_initial : sync_state :=
  let h := snd (last_checkpoint mapCheckpoints) in Sync h h null_hash CSyncCheckpoint_null CSyncCheckpoint_null None.

Definition set_invalid_checkpoint (s : sync_state) (h : list Z) : sync_state :=
  Sync (hashSyncCheckpoint s) (hashPendingCheckpoint s) h (checkpointMessage s) (checkpointMessagePending s) (syncRecord s).
Definition set_pending (s : sync_state) (h : list Z) (c : CSyncCheckpoint) : sync_state :=
  Sync (hashSyncCheckpoint s) h (hashInvalidCheckpoint s) (checkpointMessage s) c (syncRecord s).
Definition set_message (s : sync_state) (c : CSyncCheckpoint) : sync_state :=
  Sync (hashSyncCheckpoint s) (hashPendingCheckpoint s) (hashInvalidCheckpoint s) c (checkpointMessagePending s) (syncRecord s).

(** The record of the database, and the variable. *)
Definition WriteSyncCheckpoint (s : sync_state) (h : list Z) : sync_state :=
  Sync h (hashPendingCheckpoint s) (hashInvalidCheckpoint s) (checkpointMessage s) (checkpointMessagePending s) (Some h).

Section Checkpoints.
Context {H : hash_lib} {L : BN_lib} {EC : ec_lib} {N : node_env}.
Context (read_file : Z -> Z -> option CBlock) (fEnforceCanonical : bool) (rate_limited : CTransaction -> Z -> bool).

(** [None]: the message does not unserialize, an exception. *)
Definition CheckSignature (c : CSyncCheckpoint) : option (bool * CSyncCheckpoint) :=
  if negb (o2i_ECPublicKey strMasterPubKey) then Some (false, c)
  else if negb (ECDSA_verify (uint_bytes (Hash (sc_vchMsg c))) (sc_vchSig c) strMasterPubKey =? 1) then Some (false, c)
  else match dec unsigned_codec (sc_nVersion c, sc_hashCheckpoint c) (DataStream (sc_vchMsg c) 0) with
       | None => None
       | Some ((nVersion, hashCheckpoint), _) => Some (true, SyncCheckpoint nVersion hashCheckpoint (sc_vchMsg c) (sc_vchSig c))
       end.

Definition IsInMainChain (st : node_state) (h : list Z) : bool :=
  match next_of (ns_index st) h with Some _ => true | None => bool_decide (ns_best st = Some h) end.

Definition GetLastSyncCheckpoint (i : block_index) (s : sync_state) : option index_node := i !! hashSyncCheckpoint s.

(** The result, and [hashInvalidCheckpoint]. *)
Definition ValidateSyncCheckpoint (i : block_index) (s : sync_state) (hashCheckpoint : list Z) : bool * sync_state :=
  match i !! hashSyncCheckpoint s, i !! hashCheckpoint with
  | Some pindexSyncCheckpoint, Some pindexCheckpointRecv =>
      let hSync := bi_nHeight (in_entry pindexSyncCheckpoint) in
      let hRecv := bi_nHeight (in_entry pindexCheckpointRecv) in
      if hRecv <=? hSync
      then match drop_longer hRecv (chain_of i (hashSyncCheckpoint s)) with
           | [] => (false, s)
           | pindex :: _ => if negb (uint_eq (bi_hash pindex) hashCheckpoint) then (false, set_invalid_checkpoint s hashCheckpoint) else (false, s)
           end
      else match drop_longer hSync (chain_of i hashCheckpoint) with
           | [] => (false, s)
           | pindex :: _ => if negb (uint_eq (bi_hash pindex) (hashSyncCheckpoint s)) then (false, set_invalid_checkpoint s hashCheckpoint) else (true, s)
           end
  | _, _ => (false, s)
  end.

(** [if (!IsInMainChain()) { ReadFromDisk; SetBestChain }]. *)
Inductive switched := InMain | NotRead | NotBest | SwitchThrows.

Definition set_best_chain (st : node_state) (block : CBlock) (h : list Z) : node_state * outcome unit :=
  SetBestChain read_file (GetTotalBlocksEstimate fTestNet) (if fTestNet then hashGenesisBlockTestNet else hashGenesisBlock)
    fEnforceCanonical rate_limited st block h.

Definition switch_to (st : node_state) (h : list Z) (n : index_node) : node_state * switched :=
  if IsInMainChain st h then (st, InMain)
  else match block_ReadFromDisk read_file (in_entry n) with
       | None => (st, NotRead)
       | Some block =>
           let (st, r) := set_best_chain st block h in
           (st, match r with Done _ => InMain | Fails _ => NotBest | Throws => SwitchThrows end)
       end.

Definition AcceptPendingSyncCheckpoint (st : node_state) (s : sync_state) : node_state * sync_state * outcome bool :=
  let h := hashPendingCheckpoint s in
  match (if uint_eq64 h 0 then None else ns_index st !! h) with
  | None => (st, s, Done false)
  | Some n =>
      let (ok, s) := ValidateSyncCheckpoint (ns_index st) s h in
      if negb ok then (st, set_pending s null_hash CSyncCheckpoint_null, Done false)
      else
        let (st, r) := switch_to st h n in
        match r with
        | NotRead => (st, s, Done false)
        | NotBest => (st, set_invalid_checkpoint s h, Done false)
        | SwitchThrows => (st, s, Throws)
        | InMain =>
            let s := WriteSyncCheckpoint s h in
            let m := checkpointMessagePending s in
            (st, set_message (set_pending s null_hash CSyncCheckpoint_null) m, Done true)
        end
  end.

Definition ProcessSyncCheckpoint (st : node_state) (s : sync_state) (c : CSyncCheckpoint) : node_state * sync_state * outcome bool :=
  match CheckSignature c with
  | None => (st, s, Throws)
  | Some (false, _) => (st, s, Done false)
  | Some (true, c) =>
      let h := sc_hashCheckpoint c in
      match ns_index st !! h with
      | None => (st, set_pending s h c, Done false)
      | Some n =>
          let (ok, s) := ValidateSyncCheckpoint (ns_index st) s h in
          if negb ok then (st, s, Done false)
          else
            let (st, r) := switch_to st h n in
            match r with
            | NotRead => (st, s, Done false)
            | NotBest => (st, set_invalid_checkpoint s h, Done false)
            | SwitchThrows => (st, s, Throws)
            | InMain =>
                let s := WriteSyncCheckpoint s h in
                (st, set_pending (set_message s c) null_hash CSyncCheckpoint_null, Done true)
            end
      end
  end.

(** The last hardened checkpoint in the main chain. *)
Definition main_checkpoint (st : node_state) : option (list Z) :=
  fold_right (fun c r =>
    match r with
    | Some _ => r
    | None => if bool_decide (is_Some (ns_index st !! snd c)) && IsInMainChain st (snd c) then Some (snd c) else None
    end) None mapCheckpoints.

Definition ResetSyncCheckpoint (st : node_state) (s : sync_state) : node_state * sync_state * outcome bool :=
  let hash := snd (last_checkpoint mapCheckpoints) in
  let '(st, s, r) :=
    match ns_index st !! hash with
    | Some n => let (st, r) := switch_to st hash n in (st, s, r)
    | None => (st, set_pending s hash CSyncCheckpoint_null, InMain)
    end in
  match r with
  | NotRead | NotBest => (st, s, Done false)
  | SwitchThrows => (st, s, Throws)
  | InMain =>
      match main_checkpoint st with
      | Some h => (st, WriteSyncCheckpoint s h, Done true)
      | None => (st, s, Done false)
      end
  end.

Definition CHECKPOINT_MAX_SPAN : Z := 60 * 60.

(** [None]: the best block is [NULL]. *)
Fixpoint auto_select (pindexBest : CBlockIndex) (chain : list CBlockIndex) : option (list Z) :=
  match chain with
  | [] => None
  | pindex :: pprev =>
      match pprev with
      | [] => Some (bi_hash pindex)
      | _ =>
          if (bi_nTime pindexBest <? bi_nTime pindex + CHECKPOINT_MAX_SPAN) || (bi_nHeight pindexBest <? bi_nHeight pindex + 8)
          then auto_select pindexBest pprev else Some (bi_hash pindex)
      end
  end.
Definition AutoSelectSyncCheckpoint (chain : list CBlockIndex) : option (list Z) := auto_select (nth 0 chain CBlockIndex_null) chain.

(** [None]: the assertion fails, or [pindexPrev] is null. *)
Definition CheckSync (i : block_index) (s : sync_state) (hashBlock : list Z) (chain : list CBlockIndex) : option bool :=
  if fTestNet then Some true
  else match chain, i !! hashSyncCheckpoint s with
       | pindexPrev :: _, Some pindexSync =>
           let nHeight := bi_nHeight pindexPrev + 1 in
           let hSync := bi_nHeight (in_entry pindexSync) in
           let above :=
             if hSync <? nHeight
             then match drop_longer hSync chain with
                  | [] => false
                  | pindex :: _ => negb ((bi_nHeight pindex <? hSync) || negb (uint_eq (bi_hash pindex) (hashSyncCheckpoint s)))
                  end
             else true in
           Some (if negb above then false
                 else if (nHeight =? hSync) && negb (uint_eq hashBlock (hashSyncCheckpoint s)) then false
                 else if (nHeight <? hSync) && negb (bool_decide (is_Some (i !! hashBlock))) then false
                 else true)
       | _, _ => None
       end.

Definition WantedByPendingSyncCheckpoint (s : sync_state) (orphans : gmap (list Z) CBlock) (hashBlock : list Z) : bool :=
  let h := hashPendingCheckpoint s in
  if uint_eq64 h 0 then false
  else if uint_eq hashBlock h then true
  else match orphans !! h with
       | Some b => uint_eq hashBlock (WantedByOrphan orphans b)
       | None => false
       end.

(** [None]: the assertion fails. *)
Definition IsMatureSyncCheckpoint (st : node_state) (s : sync_state) : option bool :=
  match ns_index st !! hashSyncCheckpoint s with
  | None => None
  | Some n =>
      let pindexSync := in_entry n in
      Some ((bi_nHeight pindexSync + nCoinbaseMaturity <=? ns_nBestHeight st) || (bi_nTime pindexSync + nStakeMinAge <? now))
  end.

End Checkpoints.

(** ** Blocks of a chain by height *)

Lemma drop_to k chain e : descending chain -> In e chain -> bi_nHeight e = k -> exists rest, drop_longer k chain = e :: rest.
Proof.
  intros Hd Hin Hk; induction chain as [|x chain IH]; [destruct Hin|]; destruct Hd as [Hx Hd]; cbn [drop_longer].
  destruct Hin as [->|Hin]; [rewrite (proj2 (Z.ltb_ge _ _)) by lia; now exists chain|].
  rewrite List.Forall_forall in Hx; specialize (Hx e Hin); cbv beta in Hx; rewrite (proj2 (Z.ltb_lt _ _)) by lia; now apply IH.
Qed.

(** The walk down to the height of an entry ends at it if it is on the chain. *)
Lemma drop_entry i h k n : index_ok i -> i !! k = Some n ->
  In k (List.map bi_hash (chain_of i h)) <->
  match drop_longer (bi_nHeight (in_entry n)) (chain_of i h) with p :: _ => bi_hash p = k | [] => False end.
Proof.
  intros Hi En; split.
  - intros Hin; apply in_map_iff in Hin as (e & Ek & He); destruct (chain_in i h e Hi He) as (m & Em & Ee).
    assert (m = n) as -> by congruence; destruct (drop_to (bi_nHeight (in_entry n)) (chain_of i h) e) as (rest & ->); auto using chain_descending; congruence.
  - destruct (drop_longer_suffix (bi_nHeight (in_entry n)) (chain_of i h)) as (front & E & _); destruct (drop_longer _ _) as [|p rest] eqn:Ed; [easy|].
    intros <-; rewrite E, map_app; apply in_or_app; right; now left.
Qed.

Lemma chain_height i h n e : index_ok i -> i !! h = Some n -> In e (chain_of i h) -> bi_nHeight e <= bi_nHeight (in_entry n).
Proof.
  intros Hi En; pose proof (chain_descending i h Hi) as Hd; rewrite (chain_unfold i h n Hi En) in *; destruct Hd as [Hd _].
  intros [<-|Hin]; [lia|]; rewrite List.Forall_forall in Hd; specialize (Hd e Hin); cbv beta in Hd; lia.
Qed.

(** A chain has a block without predecessor, and the predecessors of its
    blocks. *)
Lemma chain_root i h n : index_ok i -> i !! h = Some n ->
  exists r m, In r (List.map bi_hash (chain_of i h)) /\ i !! r = Some m /\ in_pprev m = None.
Proof.
  intros Hi; remember (chain_of i h) as c eqn:Ec; revert h n Ec; induction c as [|e c IH]; intros h n Ec En;
    rewrite (chain_unfold i h n Hi En) in Ec; [discriminate Ec|]; injection Ec as -> Ec; destruct (in_pprev n) as [p|] eqn:Ep.
  - destruct (index_prev i Hi h n p En Ep) as (m & Em & _); destruct (IH p m Ec Em) as (r & m' & Hr & H2); exists r, m'; split; [now right | exact H2].
  - exists h, n; split; [left; now apply (index_hash i Hi) | now split].
Qed.

Lemma in_chain_split i b h : index_ok i -> In h (List.map bi_hash (chain_of i b)) ->
  exists front e rest, chain_of i b = front ++ e :: rest /\ bi_hash e = h.
Proof. intros Hi Hin; apply in_map_iff in Hin as (e & Ee & He); apply in_split in He as (f & r & E); now exists f, e, r. Qed.

Lemma prev_in_chain i b y h : index_ok i -> In y (List.map bi_hash (chain_of i b)) -> prev_of i y = Some h -> In h (List.map bi_hash (chain_of i b)).
Proof.
  intros Hi Hin Ep; destruct (in_chain_split i b y Hi Hin) as (f & e & r & Ec & <-); destruct (chain_suffix i b f e r Hi Ec) as (n & En & Ee & Ech).
  unfold prev_of in Ep; rewrite En in Ep; rewrite (chain_unfold i _ n Hi En), Ep in Ech; injection Ech as _ Er; destruct (index_prev i Hi _ n h En Ep) as (m & Em & _).
  rewrite Ec, <- Er, map_app; cbn [List.map]; apply in_or_app; right; right; rewrite (chain_unfold i h m Hi Em); left; now apply (index_hash i Hi).
Qed.

Lemma chain_tail_in i b h x : index_ok i -> In h (List.map bi_hash (chain_of i b)) -> In x (List.map bi_hash (chain_of i h)) ->
  In x (List.map bi_hash (chain_of i b)).
Proof.
  intros Hi Hin Hx; destruct (in_chain_split i b h Hi Hin) as (f & e & r & Ec & <-); destruct (chain_suffix i b f e r Hi Ec) as (n & En & Ee & Ech).
  rewrite Ech in Hx; rewrite Ec, map_app; apply in_or_app; now right.
Qed.

(** A block of the chain is its head, or the predecessor of a block of it. *)
Lemma next_in_chain i b h : index_ok i -> In h (List.map bi_hash (chain_of i b)) -> h = b \/ exists y, In y (List.map bi_hash (chain_of i b)) /\ prev_of i y = Some h.
Proof.
  intros Hi Hin; destruct (in_chain_split i b h Hi Hin) as (f & e & r & Ec & <-); destruct f as [|f0 f] using rev_ind.
  - left; destruct (i !! b) as [n|] eqn:En; [|rewrite chain_none in Ec by assumption; discriminate Ec].
    rewrite (chain_unfold i b n Hi En) in Ec; injection Ec as <- _; now apply (index_hash i Hi).
  - right; clear IHf; rewrite <- app_assoc in Ec; cbn [app] in Ec; destruct (chain_suffix i b f f0 (e :: r) Hi Ec) as (n & En & Ee & Ech).
    exists (bi_hash f0); split; [rewrite Ec, map_app; apply in_or_app; right; now left|].
    rewrite (chain_unfold i _ n Hi En) in Ech; injection Ech as _ Er; unfold prev_of; rewrite En; destruct (in_pprev n) as [p|] eqn:Ep; [|discriminate Er].
    destruct (index_prev i Hi _ n p En Ep) as (m & Em & _); rewrite (chain_unfold i p m Hi Em) in Er; injection Er as <- _; f_equal; symmetry; now apply (index_hash i Hi).
Qed.

(** ** The node *)

Section Node.
Context {H : hash_lib} {L : BN_lib} {HL : BN_laws L} {EC : ec_lib} {N : node_env}.
Context (read_file : Z -> Z -> option CBlock) (fEnforceCanonical : bool) (rate_limited : CTransaction -> Z -> bool).
Context (Hread : forall nFile nBlockPos b, read_file nFile nBlockPos = Some b -> Forall tx_valid (bl_vtx b)).
Context (Hcoll : forall nFile nBlockPos b nFile' nBlockPos' b' tx tx', read_file nFile nBlockPos = Some b -> read_file nFile' nBlockPos' = Some b' ->
  In tx (bl_vtx b) -> In tx' (bl_vtx b') -> tx_GetHash tx = tx_GetHash tx' -> tx = tx') (Hwf : forall b, wf 8 (block_hash b)).
Abbreviation read_block := (block_ReadFromDisk read_file).
Abbreviation on_chain i h b := (In h (List.map bi_hash (chain_of i b))).

(** The blocks in the files belong to the index. *)
Definition stored_ok (i : block_index) : Prop := forall h n b p, i !! h = Some n -> read_block (in_entry n) = Some b -> in_pprev n = Some p ->
  p = hashPrevBlock b /\ wf 8 (hashPrevBlock b).

(** The variables of the best chain, the index, the files and the database fit. *)
Record node_ok (st : node_state) (hBest : list Z) : Prop := {
  node_best : ns_best st = Some hBest;
  node_hash : ns_hashBestChain st = hBest;
  node_chain : chain_ok_at read_file st hBest;
  node_entry : exists n, ns_index st !! hBest = Some n /\ ns_nBestHeight st = bi_nHeight (in_entry n) /\ ns_nBestChainTrust st = bi_nChainTrust (in_entry n);
  node_root : forall h n, ns_index st !! h = Some n -> in_pprev n = None -> ns_genesis st = Some h;
  node_stored : stored_ok (ns_index st)
}.

(** No block of the index has more trust than the best chain. *)
Definition heaviest (st : node_state) (hBest : list Z) : Prop :=
  forall h, uint_lt (trust_at (ns_index st) hBest) (trust_at (ns_index st) h) = false.

(** The predecessor of [h] has no more trust than the best chain: no block is
    postponed when the best chain is switched to [h]. *)
Definition not_over (st : node_state) (hBest h : list Z) : Prop := forall n p, ns_index st !! h = Some n -> in_pprev n = Some p ->
  uint_lt (trust_at (ns_index st) hBest) (trust_at (ns_index st) p) = false.

Lemma shape_on_chain i j h b : same_shape i j -> index_ok i -> on_chain j h b <-> on_chain i h b.
Proof. intros Hs Hi; now rewrite (shape_hashes i j b Hs Hi). Qed.

Lemma shape_stored i j : same_shape i j -> stored_ok i -> stored_ok j.
Proof.
  intros Hs H1 h m b p Em Eb Ep; destruct (shape_lookup j i h m (symmetry Hs) Em) as (n & En & Hp & Epp).
  apply (H1 h n b p En); [rewrite <- Eb; symmetry; now apply read_same | congruence].
Qed.

Lemma shape_root i j (g : option (list Z)) : same_shape i j -> (forall h n, i !! h = Some n -> in_pprev n = None -> g = Some h) ->
  forall h n, j !! h = Some n -> in_pprev n = None -> g = Some h.
Proof. intros Hs Hr h m Em Ep; destruct (shape_lookup j i h m (symmetry Hs) Em) as (n & En & _ & Epp); apply (Hr h n En); congruence. Qed.

Lemma node_genesis st hBest : node_ok st hBest -> exists g, ns_genesis st = Some g /\ on_chain (ns_index st) g hBest.
Proof.
  intros Hn; destruct (node_entry _ _ Hn) as (n & En & _); pose proof (at_index _ _ _ (node_chain _ _ Hn)) as Hi.
  destruct (chain_root (ns_index st) hBest n Hi En) as (r & m & Hr & Em & Ep); exists r; split; [now apply (node_root _ _ Hn r m) | exact Hr].
Qed.

Lemma main_chain_iff st hBest h : node_ok st hBest -> IsInMainChain st h = true <-> on_chain (ns_index st) h hBest.
Proof.
  intros Hn; pose proof (node_chain _ _ Hn) as Hc; pose proof (at_index _ _ _ Hc) as Hi; pose proof (at_links _ _ _ Hc) as Hl.
  unfold IsInMainChain; split.
  - destruct (next_of (ns_index st) h) as [y|] eqn:Ey.
    + intros _; apply Hl in Ey as [Ep Hy]; exact (prev_in_chain _ _ _ _ Hi Hy Ep).
    + intros E; apply bool_decide_eq_true in E; rewrite (node_best _ _ Hn) in E; injection E as <-.
      destruct (node_entry _ _ Hn) as (n & En & _); rewrite (chain_unfold _ _ n Hi En); left; now apply (index_hash _ Hi).
  - intros Hin; destruct (next_in_chain _ _ _ Hi Hin) as [->|(y & Hy & Ep)].
    + destruct (next_of _ _); [reflexivity|]; apply bool_decide_eq_true, (node_best _ _ Hn).
    + now rewrite (proj2 (Hl h y) (conj Ep Hy)).
Qed.

(** [SetBestChain] on a stored block. *)
Lemma node_set_best st hBest h n b p st' r : node_ok st hBest -> ns_index st !! h = Some n -> in_pprev n = Some p -> read_block (in_entry n) = Some b ->
  uint_lt (trust_at (ns_index st) hBest) (trust_at (ns_index st) p) = false ->
  set_best_chain read_file fEnforceCanonical rate_limited st b h = (st', r) ->
  same_shape (ns_index st) (ns_index st') /\ ns_genesis st' = ns_genesis st
  /\ (r = Done tt -> node_ok st' h) /\ (forall k, r = Fails k -> node_ok st' hBest).
Proof.
  intros Hn En Ep Eb Ht E; pose proof (node_chain _ _ Hn) as Hc; pose proof (at_index _ _ _ Hc) as Hi; pose proof (node_stored _ _ Hn) as Hso.
  destruct (Hso h n b p En Eb Ep) as [-> Hwp]; destruct (node_genesis _ _ Hn) as (g & Eg & _).
  destruct (node_entry _ _ Hn) as (nb & Enb & Eh & Et); destruct (at_files _ _ _ Hc hBest nb Enb) as [_ Hwb].
  destruct (SetBestChain_ok read_file _ _ fEnforceCanonical rate_limited Hread Hcoll Hwf st st' b h hBest n r (node_best _ _ Hn) (node_hash _ _ Hn) ltac:(congruence) Hc
    En Ep Eb Hwp Hwb E) as (Hs & Hg & Hd & Hf).
  pose proof (shape_stored _ _ Hs Hso) as Hso'; pose proof (shape_root _ _ _ Hs (node_root _ _ Hn)) as Hr'; rewrite <- Hg in Hr'.
  split; [exact Hs|]; split; [exact Hg|]; split.
  - intros Er; destruct (Hd Er) as (E1 & E2 & E3 & E4 & hTip & hs & Hc' & _ & Htip); rewrite (Htip Ht) in Hc'.
    destruct (shape_lookup _ _ h n Hs En) as (m & Em & (_ & _ & _ & F4 & F5) & _); constructor; auto; exists m; split; [exact Em|]; split; congruence.
  - intros k Ek; destruct (Hf k Ek) as (Hc' & _ & _ & _ & (S1 & S2 & S3 & S4 & S5)).
    destruct (shape_lookup _ _ hBest nb Hs Enb) as (m & Em & (_ & _ & _ & F4 & F5) & _).
    constructor; auto; [rewrite S1; apply Hn | rewrite S2; apply Hn |]; exists m; split; [exact Em|]; split; congruence.
Qed.

(** Switching to a block makes it part of the best chain. *)
Lemma switch_ok st hBest h n st' r : node_ok st hBest -> not_over st hBest h -> ns_index st !! h = Some n ->
  switch_to read_file fEnforceCanonical rate_limited st h n = (st', r) ->
  same_shape (ns_index st) (ns_index st') /\ ns_genesis st' = ns_genesis st
  /\ (r = InMain -> exists hBest', (hBest' = hBest \/ hBest' = h) /\ node_ok st' hBest' /\ on_chain (ns_index st') h hBest')
  /\ (r = NotRead \/ r = NotBest -> node_ok st' hBest).
Proof.
  intros Hn Hh En; pose proof (at_index _ _ _ (node_chain _ _ Hn)) as Hi; unfold switch_to; destruct (IsInMainChain st h) eqn:Em.
  { intros E; injection E as <- <-; apply (main_chain_iff _ _ _ Hn) in Em; split; [reflexivity|]; split; [reflexivity|]; split; [|intros [?|?]; discriminate].
    intros _; exists hBest; split; [now left | now split]. }
  destruct (read_block (in_entry n)) as [b|] eqn:Eb.
  2:{ intros E; injection E as <- <-; split; [reflexivity|]; split; [reflexivity|]; split; [discriminate | intros _; exact Hn]. }
  destruct (in_pprev n) as [p|] eqn:Ep.
  2:{ exfalso; destruct (node_genesis _ _ Hn) as (g & Eg & Hg); pose proof (node_root _ _ Hn h n En Ep) as Eh; rewrite Eg in Eh; injection Eh as ->.
      apply (main_chain_iff _ _ _ Hn) in Hg; congruence. }
  destruct (set_best_chain read_file fEnforceCanonical rate_limited st b h) as [st1 r1] eqn:E1.
  destruct (node_set_best st hBest h n b p st1 r1 Hn En Ep Eb (Hh n p En Ep) E1) as (Hs & Hg & Hd & Hf); intros E; injection E as <- <-.
  split; [exact Hs|]; split; [exact Hg|]; split.
  - destruct r1 as [[]|k|]; [|discriminate..]; intros _; pose proof (Hd eq_refl) as Hn1; exists h; split; [now right|]; split; [exact Hn1|].
    destruct (shape_lookup _ _ h n Hs En) as (m & Em1 & _); pose proof (at_index _ _ _ (node_chain _ _ Hn1)) as Hi1.
    rewrite (chain_unfold _ h m Hi1 Em1); left; now apply (index_hash _ Hi1).
  - destruct r1 as [[]|k|]; [intros [?|?]; discriminate | intros _; now apply (Hf k) | intros [?|?]; discriminate].
Qed.

Lemma uint_eq_iff a b : wf 8 a -> wf 8 b -> uint_eq a b = true <-> a = b.
Proof. intros Ha Hb; rewrite (uint_eq_spec 8), Z.eqb_eq by assumption; split; [now apply (val_inj 8) | congruence]. Qed.

Lemma chain_wf i h e : index_ok i -> files_ok i -> In e (chain_of i h) -> wf 8 (bi_hash e).
Proof. intros Hi Hf Hin; destruct (chain_in i h e Hi Hin) as (n & En & _); exact (proj2 (Hf _ n En)). Qed.

Lemma drop_in k l p r : drop_longer k l = p :: r -> In p l.
Proof. intros E; destruct (drop_longer_suffix k l) as (f & Ef & _); rewrite Ef, E; apply in_or_app; right; now left. Qed.

(** A checkpoint is valid when it is a later descendant of the current one. *)
Lemma validate_spec i s h : index_ok i -> files_ok i ->
  let (ok, s') := ValidateSyncCheckpoint i s h in
  (ok = true <-> exists n m, i !! hashSyncCheckpoint s = Some n /\ i !! h = Some m
     /\ bi_nHeight (in_entry n) < bi_nHeight (in_entry m) /\ on_chain i (hashSyncCheckpoint s) h)
  /\ (s' = s \/ s' = set_invalid_checkpoint s h) /\ (ok = true -> s' = s).
Proof.
  intros Hi Hf; unfold ValidateSyncCheckpoint; destruct (i !! hashSyncCheckpoint s) as [n|] eqn:En, (i !! h) as [m|] eqn:Em;
    try (split; [split; [discriminate | intros (? & ? & ? & ? & _); congruence] | split; [now left | discriminate]]).
  destruct (Z.leb_spec (bi_nHeight (in_entry m)) (bi_nHeight (in_entry n))) as [Hle|Hlt].
  - destruct (drop_longer _ _) as [|p r]; [|destruct (uint_eq _ _); cbn [negb]];
      (split; [split; [discriminate | intros (n' & m' & E1 & E2 & Hl & _); assert (n' = n) by congruence; assert (m' = m) by congruence; subst; lia]|]);
      (split; [tauto | discriminate]).
  - pose proof (drop_entry i h _ n Hi En) as Hd; destruct (drop_longer _ _) as [|p r] eqn:Ed.
    + split; [split; [discriminate | intros (_ & _ & _ & _ & _ & Hc); now apply Hd in Hc] | split; [now left | discriminate]].
    + pose proof (uint_eq_iff (bi_hash p) (hashSyncCheckpoint s) (chain_wf i h p Hi Hf (drop_in _ _ _ _ Ed)) (proj2 (Hf _ n En))) as He.
      destruct (uint_eq _ _); cbn [negb].
      * split; [split; [intros _; exists n, m; repeat split; auto; apply Hd; now apply He | reflexivity] | split; [now left | reflexivity]].
      * split; [split; [discriminate | intros (_ & _ & _ & _ & _ & Hc); apply Hd, He in Hc; discriminate] | split; [now right | discriminate]].
Qed.

(** The two ways in which the synchronized checkpoint moves: a message, and a
    pending message whose block has arrived. *)
Inductive sync_event := Message (c : CSyncCheckpoint) | Pending.

Definition sync_step (st : node_state) (s : sync_state) (e : sync_event) : node_state * sync_state * outcome bool :=
  match e with
  | Message c => ProcessSyncCheckpoint read_file fEnforceCanonical rate_limited st s c
  | Pending => AcceptPendingSyncCheckpoint read_file fEnforceCanonical rate_limited st s
  end.

(** The checkpoint is on the best chain, and recorded in the database. *)
Definition sync_ok (st : node_state) (s : sync_state) (hBest : list Z) : Prop :=
  on_chain (ns_index st) (hashSyncCheckpoint s) hBest /\ syncRecord s = Some (hashSyncCheckpoint s).

Definition same_sync (s s' : sync_state) : Prop := hashSyncCheckpoint s' = hashSyncCheckpoint s /\ syncRecord s' = syncRecord s.

(** What the two operations do to an indexed block [h]. *)
Lemma sync_core st s hBest h n st' r : node_ok st hBest -> not_over st hBest h -> ns_index st !! h = Some n ->
  fst (ValidateSyncCheckpoint (ns_index st) s h) = true -> switch_to read_file fEnforceCanonical rate_limited st h n = (st', r) ->
  (r = InMain -> exists hBest', node_ok st' hBest' /\ on_chain (ns_index st') h hBest' /\ on_chain (ns_index st') (hashSyncCheckpoint s) h
     /\ on_chain (ns_index st') (hashSyncCheckpoint s) hBest' /\ h <> hashSyncCheckpoint s)
  /\ (r = NotRead \/ r = NotBest -> node_ok st' hBest /\ (sync_ok st s hBest -> sync_ok st' s hBest)).
Proof.
  intros Hn Hh En Hv E; pose proof (at_index _ _ _ (node_chain _ _ Hn)) as Hi; pose proof (validate_spec (ns_index st) s h Hi (at_files _ _ _ (node_chain _ _ Hn))) as Hval.
  destruct (ValidateSyncCheckpoint _ _ _) as [ok s1]; cbn [fst] in Hv; subst ok; destruct Hval as [[Hval _] _]; destruct (Hval eq_refl) as (a & b & Ea & Eb & Hlt & Hon).
  destruct (switch_ok st hBest h n st' r Hn Hh En E) as (Hs & _ & Hm & Hf); split.
  - intros Er; destruct (Hm Er) as (hb & _ & Hn' & Hin); pose proof (at_index _ _ _ (node_chain _ _ Hn')) as Hi'.
    assert (Hon' : on_chain (ns_index st') (hashSyncCheckpoint s) h) by (now apply (shape_on_chain _ _ _ _ Hs Hi)).
    exists hb; split; [exact Hn'|]; split; [exact Hin|]; split; [exact Hon'|]; split; [now apply (chain_tail_in _ hb h) | intros ->; assert (a = b) by congruence; subst; lia].
  - intros Er; split; [now apply Hf|]; intros [H1 H2]; split; [now apply (shape_on_chain _ _ _ _ Hs Hi) | exact H2].
Qed.

Lemma validate_same i s h : same_sync s (snd (ValidateSyncCheckpoint i s h)).
Proof.
  unfold ValidateSyncCheckpoint; destruct (i !! hashSyncCheckpoint s), (i !! h); try now split.
  destruct (_ <=? _); (destruct (drop_longer _ _); [now split|]); destruct (negb _); now split.
Qed.

(** The block of the event. *)
Definition event_block (s : sync_state) (e : sync_event) : list Z :=
  match e with
  | Message c => match CheckSignature c with Some (_, c) => sc_hashCheckpoint c | None => null_hash end
  | Pending => hashPendingCheckpoint s
  end.

Lemma sync_step_ok st s e hBest st' s' r : node_ok st hBest -> not_over st hBest (event_block s e) -> sync_step st s e = (st', s', Done r) ->
  (r = true -> exists hBest', node_ok st' hBest' /\ sync_ok st' s' hBest' /\ on_chain (ns_index st') (hashSyncCheckpoint s) (hashSyncCheckpoint s')
     /\ hashSyncCheckpoint s' <> hashSyncCheckpoint s /\ on_chain (ns_index st') (hashSyncCheckpoint s) hBest' /\ hashPendingCheckpoint s' = null_hash)
  /\ (r = false -> node_ok st' hBest /\ (sync_ok st s hBest -> sync_ok st' s' hBest) /\ same_sync s s').
Proof.
  intros Hn Hh.
  assert (Hsame : forall s1, same_sync s s1 -> node_ok st hBest /\ (sync_ok st s hBest -> sync_ok st s1 hBest) /\ same_sync s s1).
  { intros s1 [E1 E2]; split; [exact Hn|]; split; [|now split]; intros [H1 H2]; split; congruence. }
  assert (Hcore : forall h n st1 r1 s1, not_over st hBest h -> ns_index st !! h = Some n -> ValidateSyncCheckpoint (ns_index st) s h = (true, s1) ->
    switch_to read_file fEnforceCanonical rate_limited st h n = (st1, r1) ->
    (r1 = InMain -> forall s2, hashSyncCheckpoint s2 = h -> syncRecord s2 = Some h -> hashPendingCheckpoint s2 = null_hash ->
       exists hBest', node_ok st1 hBest' /\ sync_ok st1 s2 hBest' /\ on_chain (ns_index st1) (hashSyncCheckpoint s) (hashSyncCheckpoint s2)
         /\ hashSyncCheckpoint s2 <> hashSyncCheckpoint s /\ on_chain (ns_index st1) (hashSyncCheckpoint s) hBest' /\ hashPendingCheckpoint s2 = null_hash)
    /\ (r1 = NotRead \/ r1 = NotBest -> forall s2, same_sync s s2 -> node_ok st1 hBest /\ (sync_ok st s hBest -> sync_ok st1 s2 hBest) /\ same_sync s s2)).
  { intros h n st1 r1 s1 Hno En Ev Es; destruct (sync_core st s hBest h n st1 r1 Hn Hno En ltac:(now rewrite Ev) Es) as [Hm Hf]; split.
    - intros Er s2 E1 E2 E3; destruct (Hm Er) as (hb & A & B & C & D & F); exists hb; unfold sync_ok; rewrite E1, E2.
      split; [exact A|]; split; [now split|]; split; [exact C|]; split; [exact F|]; now split.
    - intros Er s2 [E1 E2]; destruct (Hf Er) as [A B]; split; [exact A|]; split; [|now split]; intros Hso; destruct (B Hso); split; congruence. }
  assert (Hval : forall h ok s1, ValidateSyncCheckpoint (ns_index st) s h = (ok, s1) -> same_sync s s1)
    by (intros h ok s1 E; pose proof (validate_same (ns_index st) s h) as Hv; now rewrite E in Hv).
  destruct e as [c|]; cbn [sync_step]; cbn [event_block] in Hh; unfold ProcessSyncCheckpoint, AcceptPendingSyncCheckpoint.
  - destruct (CheckSignature c) as [[[] c']|]; [| |discriminate].
    2:{ intros [= <- <- <-]; split; [discriminate | intros _; now apply Hsame]. }
    destruct (ns_index st !! sc_hashCheckpoint c') as [n|] eqn:En; [|intros [= <- <- <-]; split; [discriminate | intros _; now apply Hsame]].
    destruct (ValidateSyncCheckpoint _ _ _) as [ok s1] eqn:Ev; pose proof (Hval _ _ _ Ev) as Hv; destruct ok; cbn [negb];
      [|intros [= <- <- <-]; split; [discriminate | intros _; now apply Hsame]].
    destruct (switch_to _ _ _ _ _ _) as [st1 r1] eqn:Es; destruct (Hcore _ _ _ _ _ Hh En Ev Es) as [Hm Hf].
    destruct r1; intros [= <- <- <-]; (split; [try discriminate; intros _ | try discriminate; intros _]).
    + now apply Hm.
    + apply Hf; [now left | exact Hv].
    + apply Hf; [now right | exact Hv].
  - destruct (uint_eq64 (hashPendingCheckpoint s) 0); [intros [= <- <- <-]; split; [discriminate | intros _; now apply Hsame]|].
    destruct (ns_index st !! hashPendingCheckpoint s) as [n|] eqn:En; [|intros [= <- <- <-]; split; [discriminate | intros _; now apply Hsame]].
    destruct (ValidateSyncCheckpoint _ _ _) as [ok s1] eqn:Ev; pose proof (Hval _ _ _ Ev) as Hv; destruct ok; cbn [negb];
      [|intros [= <- <- <-]; split; [discriminate | intros _; now apply Hsame]].
    destruct (switch_to _ _ _ _ _ _) as [st1 r1] eqn:Es; destruct (Hcore _ _ _ _ _ Hh En Ev Es) as [Hm Hf].
    destruct r1; intros [= <- <- <-]; (split; [try discriminate; intros _ | try discriminate; intros _]).
    + now apply Hm.
    + apply Hf; [now left | exact Hv].
    + apply Hf; [now right | exact Hv].
Qed.

Lemma sync_step_shape st s e hBest st' s' r : node_ok st hBest -> not_over st hBest (event_block s e) -> sync_step st s e = (st', s', r) -> same_shape (ns_index st) (ns_index st').
Proof.
  intros Hn Hh; assert (Hsw : forall h n st1 r1, not_over st hBest h -> ns_index st !! h = Some n -> switch_to read_file fEnforceCanonical rate_limited st h n = (st1, r1) ->
    same_shape (ns_index st) (ns_index st1)) by (intros h n st1 r1 Hno En E; apply (switch_ok st hBest h n st1 r1 Hn Hno En E)).
  destruct e as [c|]; cbn [sync_step]; cbn [event_block] in Hh; unfold ProcessSyncCheckpoint, AcceptPendingSyncCheckpoint.
  - destruct (CheckSignature c) as [[[] c']|]; [| |]; [|intros [= <- <- <-]; reflexivity..].
    destruct (ns_index st !! sc_hashCheckpoint c') as [n|] eqn:En; [|intros [= <- <- <-]; reflexivity].
    destruct (ValidateSyncCheckpoint _ _ _) as [[] s1]; cbn [negb]; [|intros [= <- <- <-]; reflexivity].
    destruct (switch_to _ _ _ _ _ _) as [st1 r1] eqn:Es; apply (Hsw _ _ _ _ Hh En) in Es; destruct r1; intros [= <- <- <-]; exact Es.
  - destruct (uint_eq64 (hashPendingCheckpoint s) 0); [intros [= <- <- <-]; reflexivity|].
    destruct (ns_index st !! hashPendingCheckpoint s) as [n|] eqn:En; [|intros [= <- <- <-]; reflexivity].
    destruct (ValidateSyncCheckpoint _ _ _) as [[] s1]; cbn [negb]; [|intros [= <- <- <-]; reflexivity].
    destruct (switch_to _ _ _ _ _ _) as [st1 r1] eqn:Es; apply (Hsw _ _ _ _ Hh En) in Es; destruct r1; intros [= <- <- <-]; exact Es.
Qed.

Lemma CheckSync_spec i s hashBlock hPrev n m : index_ok i -> files_ok i -> fTestNet = false -> i !! hashSyncCheckpoint s = Some n ->
  i !! hPrev = Some m -> i !! hashBlock = None -> wf 8 hashBlock ->
  exists b, CheckSync i s hashBlock (chain_of i hPrev) = Some b /\ (b = true <-> on_chain i (hashSyncCheckpoint s) hPrev).
Proof.
  intros Hi Hf Ht En Em Eb Hw; unfold CheckSync; rewrite Ht, En; pose proof (chain_unfold i hPrev m Hi Em) as Eu.
  destruct (chain_of i hPrev) as [|e0 r0] eqn:Ec; [discriminate Eu|]; injection Eu as -> _; rewrite <- Ec; clear Ec r0.
  eexists; split; [reflexivity|]; set (k := bi_nHeight (in_entry n)).
  assert (Hne : uint_eq hashBlock (hashSyncCheckpoint s) = false)
    by (apply not_true_is_false; rewrite (uint_eq_iff _ _ Hw (proj2 (Hf _ n En))); congruence).
  assert (Hab : on_chain i (hashSyncCheckpoint s) hPrev -> k <= bi_nHeight (in_entry m)).
  { intros Hin; apply in_map_iff in Hin as (e & Ee & He); destruct (chain_in i hPrev e Hi He) as (n' & En' & <-); unfold k.
    assert (n' = n) as <- by congruence; now apply (chain_height i hPrev m). }
  rewrite Hne, (bool_decide_eq_false_2 _ (proj1 (eq_None_not_Some (i !! hashBlock)) Eb)); cbn [negb]; rewrite !andb_true_r.
  destruct (Z.ltb_spec k (bi_nHeight (in_entry m) + 1)) as [Hlt|Hge].
  - rewrite (proj2 (Z.eqb_neq _ _)), (proj2 (Z.ltb_ge _ _)) by lia; pose proof (drop_entry i hPrev _ n Hi En) as Hd; fold k in Hd.
    destruct (drop_longer k (chain_of i hPrev)) as [|p r] eqn:Ed; [split; [discriminate | now intros ?%Hd]|].
    rewrite Hd, <- (uint_eq_iff _ _ (chain_wf i hPrev p Hi Hf (drop_in _ _ _ _ Ed)) (proj2 (Hf _ n En))).
    destruct (uint_eq (bi_hash p) (hashSyncCheckpoint s)) eqn:Ep; cbn [negb]; [|rewrite orb_true_r; split; discriminate].
    destruct (chain_in i hPrev p Hi (drop_in _ _ _ _ Ed)) as (n' & En' & <-).
    apply uint_eq_iff in Ep; [|exact (chain_wf i hPrev _ Hi Hf (drop_in _ _ _ _ Ed)) | exact (proj2 (Hf _ n En))].
    assert (n' = n) as -> by congruence; fold k; rewrite Z.ltb_irrefl; now split.
  - split; [|intros Hin; specialize (Hab Hin); lia]; destruct (Z.eqb_spec (bi_nHeight (in_entry m) + 1) k); [discriminate|].
    rewrite (proj2 (Z.ltb_lt _ _)) by lia; discriminate.
Qed.

(** In strict mode a new block must descend from the synchronized
    checkpoint: [CheckSync] is defined for a block that is not indexed after an
    indexed one, and is true exactly if the checkpoint is on the chain of its
    predecessor. *)
Theorem check_sync_iff (i : block_index) (s : sync_state) (hashBlock hPrev : list Z) (n m : index_node) :
  index_ok i -> files_ok i -> fTestNet = false -> i !! hashSyncCheckpoint s = Some n -> i !! hPrev = Some m ->
  i !! hashBlock = None -> wf 8 hashBlock ->
  exists b, CheckSync i s hashBlock (chain_of i hPrev) = Some b
    /\ (b = true <-> In (hashSyncCheckpoint s) (List.map bi_hash (chain_of i hPrev))).
Proof. intros; eapply CheckSync_spec; eassumption. Qed.

(** C11: The synchronized checkpoint only advances.  When a checkpoint message, or
    a pending one whose block has arrived, takes effect, the new checkpoint is a
    descendant of the old one; the best chain has been switched to a
    chain with both, on which the database, the links and the variables
    fit; and the checkpoint is recorded.  When it does not take effect,
    checkpoint, record, and best chain stay.  The best chain has the
    most trust before. *)
Theorem sync_checkpoint_advances (st st' : node_state) (s s' : sync_state) (e : sync_event) (hBest : list Z) (r : bool) :
  node_ok st hBest -> heaviest st hBest -> sync_ok st s hBest -> sync_step st s e = (st', s', Done r) ->
  (r = true -> exists hBest', node_ok st' hBest' /\ sync_ok st' s' hBest'
     /\ In (hashSyncCheckpoint s) (List.map bi_hash (chain_of (ns_index st') (hashSyncCheckpoint s')))
     /\ hashSyncCheckpoint s' <> hashSyncCheckpoint s
     /\ In (hashSyncCheckpoint s) (List.map bi_hash (chain_of (ns_index st') hBest')) /\ hashPendingCheckpoint s' = null_hash)
  /\ (r = false -> node_ok st' hBest /\ sync_ok st' s' hBest /\ same_sync s s').
Proof.
  intros Hn Hh Hso E; destruct (sync_step_ok st s e hBest st' s' r Hn (fun n p _ _ => Hh p) E) as [G1 G2]; split; [exact G1|].
  intros Er; destruct (G2 Er) as (A & B & C); split; [exact A|]; split; [now apply B | exact C].
Qed.

End Node.

(** ** A checkpoint on another branch *)

(** In the state of Chain the genesis block is the checkpoint, and block 3 of
    the other branch, which has as much trust as the best block 1, is pending. *)
#[local] Existing Instance branch_node.

Definition pending_sync : sync_state := Sync (key 9) (key 3) null_hash CSyncCheckpoint_null CSyncCheckpoint_null (Some (key 9)).

Lemma branch_stored t : stored_ok (H := toy_hash) branch_file (branch_index t 3).
Proof.
  intros h n b p En Eb Ep; apply branch_lookup in En; destruct (branch_read t h n p En Ep) as (k & v & E & -> & _); rewrite E in Eb; injection Eb as <-.
  split; [reflexivity | apply key_wf].
Qed.

Lemma branch_node_ok : node_ok (H := toy_hash) (L := BN_ideal) branch_file (branch_state 1 3) (key 1).
Proof.
  constructor; [reflexivity | reflexivity | apply branch_state_ok | | | apply branch_stored].
  - eexists; split; [apply branch_lookup; cbn; tauto | now split].
  - intros h n En; apply branch_lookup in En; repeat (destruct En as [En|En]; [injection En as <- <-|]); try contradiction; intros E; try discriminate E; reflexivity.
Qed.

Lemma branch_heaviest : heaviest (branch_state 1 3) (key 1).
Proof.
  intros h; unfold trust_at; cbn [ns_index branch_state]; rewrite (proj2 (branch_lookup 1 (key 1) _) (or_intror (or_introl eq_refl))).
  destruct (branch_index 1 3 !! h) as [n|] eqn:En; [|vm_compute; reflexivity].
  apply branch_lookup in En; repeat (destruct En as [En|En]; [injection En as _ <-; vm_compute; reflexivity|]); contradiction.
Qed.

Definition pending_step : node_state * sync_state * outcome bool :=
  sync_step (H := toy_hash) (L := BN_ideal) (EC := toy_ec) branch_file true (fun _ _ => true) (branch_state 1 3) pending_sync Pending.

(** The best chain is switched to the branch with the checkpoint. *)
Lemma sync_checkpoint_advances_witness : exists st' s', pending_step = (st', s', Done true) /\ hashSyncCheckpoint s' = key 3
  /\ exists hBest', node_ok (H := toy_hash) (L := BN_ideal) branch_file st' hBest'.
Proof.
  exists (fst (fst pending_step)), (snd (fst pending_step)).
  assert (E : pending_step = (fst (fst pending_step), snd (fst pending_step), Done true)) by (vm_compute; reflexivity); split; [exact E|]; split; [vm_compute; reflexivity|].
  destruct (sync_checkpoint_advances (H := toy_hash) (L := BN_ideal) (EC := toy_ec) branch_file true (fun _ _ => true) branch_file_valid branch_no_collision branch_hash_wf
    (branch_state 1 3) (fst (fst pending_step)) pending_sync (snd (fst pending_step)) Pending (key 1) true) as [G _].
  - exact branch_node_ok.
  - exact branch_heaviest.
  - split; [vm_compute; tauto | reflexivity].
  - exact E.
  - destruct (G eq_refl) as (hb & Hn & _); now exists hb.
Defined.

(** A block after block 1 of the best chain passes, the checkpoint being the genesis block. *)
Lemma check_sync_iff_witness : exists b, CheckSync (branch_index 1 3) pending_sync (key 5) (chain_of (branch_index 1 3) (key 1)) = Some b /\ b = true.
Proof.
  destruct (check_sync_iff (branch_index 1 3) pending_sync (key 5) (key 1) (IndexNode (branch_entry 9 1 0) None (Some (key 1)))
    (IndexNode (branch_entry 1 2 1) (Some (key 9)) None)) as (b & E & Hb).
  - apply branch_index_ok.
  - apply branch_files_ok.
  - reflexivity.
  - apply branch_lookup; cbn; tauto.
  - apply branch_lookup; cbn; tauto.
  - vm_compute; reflexivity.
  - apply key_wf.
  - exists b; split; [exact E|]; apply Hb; vm_compute; tauto.
Defined.
