(* ===== verification/Process.v ===== *)
(** * Process: accepting blocks (main.cpp)

    [AddToBlockIndex], [AcceptBlock] and [ProcessBlock] on the whole state of
    the node: the chain with its index, database and pool, the block
    files, the synchronized checkpoint, the orphan blocks and the stakes seen.
    An orphan is found by its hash, which stands for its address.  What is
    sent to peers and shown to the user is not modelled. *)

From Stdlib Require Import ZArith List Lia Bool.
From stdpp Require Import gmap list.
From S2P Require Import Prelude SphTypes Uint256 Merkle Serialize Transaction BigNum Script Interp SigHash BlockIndex.
From S2P Require Import Stake Difficulty Kernel Subsidy Inputs CheckBlock Connect Mempool Chain Checkpoints.
Import ListNotations.

Open Scope Z_scope.

(** ** The state *)

Abbreviation stake_set := (gset (COutPoint * Z)).
Abbreviation block_files := (gmap (Z * Z) CBlock).

(** [mapOrphanBlocksByPrev] has the orphans after a block in the order in which
    they came. *)
Record process_state := Process {
  ps_node : node_state;
  ps_files : block_files;
  ps_sync : sync_state;
  mapOrphanBlocks : gmap (list Z) CBlock;
  mapOrphanBlocksByPrev : gmap (list Z) (list (list Z));
  setStakeSeen : stake_set;
  setStakeSeenOrphan : stake_set
}.

Definition with_node (ps : process_state) (st : node_state) : process_state :=
  Process st (ps_files ps) (ps_sync ps) (mapOrphanBlocks ps) (mapOrphanBlocksByPrev ps) (setStakeSeen ps) (setStakeSeenOrphan ps).
Definition with_files (ps : process_state) (f : block_files) : process_state :=
  Process (ps_node ps) f (ps_sync ps) (mapOrphanBlocks ps) (mapOrphanBlocksByPrev ps) (setStakeSeen ps) (setStakeSeenOrphan ps).
Definition with_sync (ps : process_state) (s : sync_state) : process_state :=
  Process (ps_node ps) (ps_files ps) s (mapOrphanBlocks ps) (mapOrphanBlocksByPrev ps) (setStakeSeen ps) (setStakeSeenOrphan ps).
Definition with_orphans (ps : process_state) (o : gmap (list Z) CBlock) (by_prev : gmap (list Z) (list (list Z))) (seen : stake_set) : process_state :=
  Process (ps_node ps) (ps_files ps) (ps_sync ps) o by_prev (setStakeSeen ps) seen.
Definition with_stake (ps : process_state) (s : stake_set) : process_state :=
  Process (ps_node ps) (ps_files ps) (ps_sync ps) (mapOrphanBlocks ps) (mapOrphanBlocksByPrev ps) s (setStakeSeenOrphan ps).

Definition ps_index (ps : process_state) : block_index := ns_index (ps_node ps).
Definition read_of (ps : process_state) (nFile nBlockPos : Z) : option CBlock := ps_files ps !! (nFile, nBlockPos).

Definition GetProofOfStake (b : CBlock) : COutPoint * Z :=
  if IsProofOfStake b then (prevout (nth 0 (vin (tx_at b 1)) CTxIn_null), tx_nTime (tx_at b 1)) else (COutPoint_null, 0).

(** The block that [ReadFromDisk] reads without transactions. *)
Definition header_of (b : CBlock) : CBlock :=
  Block (bl_nVersion b) (hashPrevBlock b) (hashMerkleRoot b) (bl_nTime b) (nBits b) (nNonce b) [] [].

(** The entries after one along [pnext]. *)
Fixpoint entries_after (fuel : nat) (i : block_index) (h : list Z) : list CBlockIndex :=
  match fuel with
  | O => []
  | S fuel =>
      match next_of i h with
      | None => []
      | Some k => match i !! k with Some n => in_entry n :: entries_after fuel i k | None => [] end
      end
  end.

Inductive CPMode := STRICT | ADVISORY | PERMISSIVE.

Definition MODIFIER_INTERVAL_SWITCH : Z := 2.

Section Process.
Context {H : hash_lib} {L : BN_lib} {EC : ec_lib} {N : node_env}.

(** Reading a transaction at a position of the block files; the place that a
    block is written to, [None] if there is no space or an error; the mode of the
    synchronized checkpoint, and options. *)
Context (ReadTxIn : (Z -> Z -> option CBlock) -> CDiskTxPos -> option CTransaction) (append : block_files -> CBlock -> option (Z * Z))
  (CheckpointsMode : CPMode) (fEnforceCanonical : bool) (rate_limited : CTransaction -> Z -> bool).

(** What is read from the block files depends on the state. *)
Definition env_at (ps : process_state) : node_env := {|
  fTestNet := fTestNet;
  now := now;
  fSkip := fSkip;
  Hash9 := Hash9;
  ReadTx := ReadTxIn (read_of ps);
  ReadBlockHeader nFile nBlockPos := option_map header_of (read_of ps nFile nBlockPos);
  ReadBlock h := match ps_index ps !! h with
                 | Some n => match block_ReadFromDisk (read_of ps) (in_entry n) with Some b => b | None => CBlock_null end
                 | None => CBlock_null
                 end;
  mempool_lookup := mempool_lookup;
  next_hash := next_hash;
  foreign_GetOp := foreign_GetOp
|}.

Definition index_list (i : block_index) : index_map := List.map (fun p => (fst p, in_entry (snd p))) (map_to_list i).
Definition genesis_hash : list Z := if fTestNet then hashGenesisBlockTestNet else hashGenesisBlock.

(** ** AddToBlockIndex *)

(** The index, the stakes and the database with the new entry. *)
Definition insert_entry (ps : process_state) (b : CBlock) (pindexNew : CBlockIndex) : process_state :=
  let st := ps_node ps in
  let i := ns_index st in
  let link := match i !! hashPrevBlock b with Some _ => Some (hashPrevBlock b) | None => None end in
  let st := with_index st (<[block_hash b := IndexNode pindexNew link None]> i) in
  let seen := if bi_IsProofOfStake pindexNew then {[(bi_prevoutStake pindexNew, bi_nStakeTime pindexNew)]} ∪ setStakeSeen ps else setStakeSeen ps in
  let st := with_db st (WriteBlockIndex (ns_db st)
              (disk_index (N := env_of (GetTotalBlocksEstimate fTestNet) st) pindexNew (chain_of i (hashPrevBlock b)))) in
  with_node (with_stake ps seen) st.

Definition AddToBlockIndex (ps : process_state) (nFile nBlockPos : Z) (b : CBlock) (hashProof : list Z) : process_state * outcome unit :=
  let i := ps_index ps in
  match new_index Hash9 fTestNet genesis_hash (index_list i) nFile nBlockPos b hashProof (chain_of i (hashPrevBlock b)) with
  | None => (ps, Fails 0)
  | Some pindexNew =>
      let ps := insert_entry ps b pindexNew in
      if uint_lt (ns_nBestChainTrust (ps_node ps)) (bi_nChainTrust pindexNew)
      then
        let (st, r) := set_best_chain (N := env_at ps) (read_of ps) fEnforceCanonical rate_limited (ps_node ps) b (block_hash b) in
        (with_node ps st, match r with Done _ => Done tt | Fails _ => Fails 0 | Throws => Throws end)
      else (ps, Done tt)
  end.

(** ** AcceptBlock *)

(** [CScript() << nHeight] is a prefix of the script. *)
Definition height_prefix (nHeight : Z) (script : list Z) : bool :=
  let expect := push_int64 nHeight in
  negb (length script <? length expect)%nat && bool_decide (firstn (length expect) script = expect).

(** The tests up to the proof of stake. *)
Definition check_context (ps : process_state) (b : CBlock) (chain : list CBlockIndex) (pindexPrev : CBlockIndex) : outcome unit :=
  let nHeight := bi_nHeight pindexPrev + 1 in
  if block_IsProofOfWork b && (LAST_POW_BLOCK <? nHeight) then Fails 100
  else if IsProofOfStake b && (nHeight <? MODIFIER_INTERVAL_SWITCH) then Fails 100
  else
    let! nRequired := or_throw (GetNextTargetRequired_ chain (IsProofOfStake b)) in
    if negb (nBits b =? nRequired) then Fails 100
    else if (bl_nTime b <=? GetMedianTimePast chain) || (FutureDrift (bl_nTime b) <? bi_nTime pindexPrev) then Fails 0
    else if bl_nTime b <? LAUNCH_TIME then Fails 100
    else if negb (forallb (fun tx => IsFinal (ns_nBestHeight (ps_node ps)) now tx nHeight (bl_nTime b)) (bl_vtx b)) then Fails 10
    else if negb (CheckHardened fTestNet nHeight (block_hash b)) then Fails 100
    else Done tt.

(** The hash of the proof. *)
Definition proof_hash (ps : process_state) (b : CBlock) : outcome (list Z) :=
  if IsProofOfStake b
  then match CheckProofOfStake (index_list (ps_index ps)) (entries_after (size (ps_index ps)) (ps_index ps)) Hash9
               (fun h => db_tx (ns_db (ps_node ps)) !! h) (ReadTx (node_env := env_at ps)) (ReadBlockHeader (node_env := env_at ps)) (tx_at b 1) (nBits b) with
       | PosTrue hashProof _ => Done hashProof
       | PosFalse _ => Fails 0
       | PosUndefined => Throws
       end
  else Done (block_hash b).

(** The checkpoint and the height in the coinbase. *)
Definition check_place (ps : process_state) (b : CBlock) (chain : list CBlockIndex) (pindexPrev : CBlockIndex) : outcome unit :=
  let! cpSatisfies := or_throw (CheckSync (ps_index ps) (ps_sync ps) (block_hash b) chain) in
  if match CheckpointsMode with STRICT => true | _ => false end && negb cpSatisfies then Fails 0
  else if negb (height_prefix (bi_nHeight pindexPrev + 1) (scriptSig (nth 0 (vin (tx_at b 0)) CTxIn_null))) then Fails 100
  else Done tt.

Definition AcceptBlock (ps : process_state) (b : CBlock) : process_state * outcome unit :=
  let i := ps_index ps in
  if bool_decide (is_Some (i !! block_hash b)) then (ps, Fails 0)
  else match i !! hashPrevBlock b with
  | None => (ps, Fails 10)
  | Some prev =>
      let chain := chain_of i (hashPrevBlock b) in
      let checks :=
        let! _ := check_context ps b chain (in_entry prev) in
        let! hashProof := proof_hash ps b in
        let! _ := check_place ps b chain (in_entry prev) in
        Done hashProof in
      match checks with
      | Fails n => (ps, Fails n)
      | Throws => (ps, Throws)
      | Done hashProof =>
          match append (ps_files ps) b with
          | None => (ps, Fails 0)
          | Some (nFile, nBlockPos) =>
              let (ps, r) := AddToBlockIndex (with_files ps (<[(nFile, nBlockPos) := b]> (ps_files ps))) nFile nBlockPos b hashProof in
              match r with
              | Fails _ => (ps, Fails 0)
              | Throws => (ps, Throws)
              | Done _ =>
                  let '(st, s, r) := AcceptPendingSyncCheckpoint (N := env_at ps) (read_of ps) fEnforceCanonical rate_limited (ps_node ps) (ps_sync ps) in
                  (with_sync (with_node ps st) s, match r with Throws => Throws | _ => Done tt end)
              end
          end
      end
  end.

(** ** ProcessBlock *)

(** The orphans after an accepted block: each is accepted or not, and dropped.
    [None] is a pointer that dangles. *)
Fixpoint accept_orphans (ps : process_state) (hs : list (list Z)) (vWorkQueue : list (list Z)) : option (process_state * outcome (list (list Z))) :=
  match hs with
  | [] => Some (ps, Done vWorkQueue)
  | h :: hs =>
      match mapOrphanBlocks ps !! h with
      | None => None
      | Some b =>
          let (ps, r) := AcceptBlock ps b in
          match r with
          | Throws => Some (ps, Throws)
          | _ =>
              let vWorkQueue := match r with Done _ => vWorkQueue ++ [block_hash b] | _ => vWorkQueue end in
              let ps := with_orphans ps (delete (block_hash b) (mapOrphanBlocks ps)) (mapOrphanBlocksByPrev ps)
                          (setStakeSeenOrphan ps ∖ {[GetProofOfStake b]}) in
              accept_orphans ps hs vWorkQueue
          end
      end
  end.

(** The queue; [None] also if it is longer than [fuel]. *)
Fixpoint work_queue (fuel : nat) (ps : process_state) (vWorkQueue : list (list Z)) : option (process_state * outcome unit) :=
  match vWorkQueue with
  | [] => Some (ps, Done tt)
  | hashPrev :: rest =>
      match fuel with
      | O => None
      | S fuel =>
          match accept_orphans ps (default [] (mapOrphanBlocksByPrev ps !! hashPrev)) rest with
          | None => None
          | Some (ps, r) =>
              match r with
              | Throws => Some (ps, Throws)
              | Fails n => Some (ps, Fails n)
              | Done queue =>
                  work_queue fuel (with_orphans ps (mapOrphanBlocks ps) (delete hashPrev (mapOrphanBlocksByPrev ps)) (setStakeSeenOrphan ps)) queue
              end
          end
      end
  end.

(** The limit on the target of a block that does not extend the best chain;
    [None] when there is no block of the kind. *)
Definition required_bits (b : CBlock) (pcheckpoint : list CBlockIndex) (nTime : Z) : option Z :=
  let deltaTime := bl_nTime b - nTime in
  match GetLastBlockIndex pcheckpoint (IsProofOfStake b) with
  | [] => None
  | p :: _ => Some (if IsProofOfStake b then ComputeMinStake (bi_nBits p) deltaTime (bl_nTime b) else ComputeMinWork (bi_nBits p) deltaTime)
  end.

Definition too_little_work (ps : process_state) (b : CBlock) : outcome bool :=
  match GetLastSyncCheckpoint (ps_index ps) (ps_sync ps) with
  | None => Done false
  | Some n =>
      if uint_eq (hashPrevBlock b) (ns_hashBestChain (ps_node ps)) || WantedByPendingSyncCheckpoint (ps_sync ps) (mapOrphanBlocks ps) (block_hash b) then Done false
      else
        let! bits := or_throw (required_bits b (chain_of (ps_index ps) (hashSyncCheckpoint (ps_sync ps))) (bi_nTime (in_entry n))) in
        Done (bn_gt (SetCompact (nBits b)) (SetCompact bits))
  end.

(** A stake that was seen, unless the block is wanted. *)
Definition duplicate_stake (ps : process_state) (seen : stake_set) (b : CBlock) : bool :=
  bool_decide (GetProofOfStake b ∈ seen) && negb (bool_decide (is_Some (mapOrphanBlocksByPrev ps !! block_hash b)))
  && negb (WantedByPendingSyncCheckpoint (ps_sync ps) (mapOrphanBlocks ps) (block_hash b)).

Definition add_orphan (ps : process_state) (b : CBlock) (seen : stake_set) : process_state :=
  let hash := block_hash b in
  with_orphans ps (<[hash := b]> (mapOrphanBlocks ps))
    (<[hashPrevBlock b := default [] (mapOrphanBlocksByPrev ps !! hashPrevBlock b) ++ [hash]]> (mapOrphanBlocksByPrev ps)) seen.

Definition ProcessBlock (ps : process_state) (b : CBlock) (fIsBootstrap : bool) : option (process_state * outcome unit) :=
  let hash := block_hash b in
  if bool_decide (is_Some (ps_index ps !! hash)) then Some (ps, Fails 0)
  else if bool_decide (is_Some (mapOrphanBlocks ps !! hash)) then Some (ps, Fails 0)
  else if IsProofOfStake b && duplicate_stake ps (setStakeSeen ps) b && negb fIsBootstrap then Some (ps, Fails 0)
  else match CheckBlock Hash9 now b true true true with
  | Some r => Some (ps, Fails (block_dos r))
  | None =>
      match too_little_work ps b with
      | Fails n => Some (ps, Fails n)
      | Throws => Some (ps, Throws)
      | Done true => Some (ps, Fails 100)
      | Done false =>
          if negb (bool_decide (is_Some (ps_index ps !! hashPrevBlock b)))
          then
            if IsProofOfStake b && duplicate_stake ps (setStakeSeenOrphan ps) b then Some (ps, Fails 0)
            else Some (add_orphan ps b (if IsProofOfStake b then {[GetProofOfStake b]} ∪ setStakeSeenOrphan ps else setStakeSeenOrphan ps), Done tt)
          else
            let (ps, r) := AcceptBlock ps b in
            match r with
            | Fails n => Some (ps, Fails n)
            | Throws => Some (ps, Throws)
            | Done _ => work_queue (S (size (mapOrphanBlocks ps))) ps [hash]
            end
      end
  end.

End Process.

(** ** Orphan blocks *)

Section Orphans.
Context {H : hash_lib} {L : BN_lib} {EC : ec_lib} {N : node_env}.
Context (ReadTxIn : (Z -> Z -> option CBlock) -> CDiskTxPos -> option CTransaction) (append : block_files -> CBlock -> option (Z * Z))
  (CheckpointsMode : CPMode) (fEnforceCanonical : bool) (rate_limited : CTransaction -> Z -> bool).
Abbreviation accept_block := (AcceptBlock ReadTxIn append CheckpointsMode fEnforceCanonical rate_limited).

Definition same_orphans (ps ps' : process_state) : Prop :=
  mapOrphanBlocks ps' = mapOrphanBlocks ps /\ mapOrphanBlocksByPrev ps' = mapOrphanBlocksByPrev ps.

Lemma AcceptBlock_orphans ps b : same_orphans ps (fst (accept_block ps b)).
Proof.
  unfold AcceptBlock; destruct (bool_decide _); [now split|]; destruct (ps_index ps !! hashPrevBlock b) as [prev|]; [|now split].
  destruct (let! _ := check_context _ _ _ _ in _) as [hp|n|]; [|now split..]; destruct (append (ps_files ps) b) as [[nf np]|]; [|now split].
  unfold AddToBlockIndex; destruct (new_index _ _ _ _ _ _ _ _ _) as [e|]; [|now split]; cbv zeta.
  match goal with |- context [if uint_lt ?t ?u then _ else _] => destruct (uint_lt t u) end.
  - destruct (set_best_chain _ _ _ _ _ _) as [st1 []]; [|now split..]; destruct (AcceptPendingSyncCheckpoint _ _ _ _ _) as [[st2 s2] r2]; now split.
  - destruct (AcceptPendingSyncCheckpoint _ _ _ _ _) as [[st2 s2] r2]; now split.
Qed.

(** The two maps of orphans fit. *)
Record orphan_blocks_ok (ps : process_state) : Prop := {
  orphan_hash : forall h b, mapOrphanBlocks ps !! h = Some b -> block_hash b = h;
  orphan_there : forall p hs h, mapOrphanBlocksByPrev ps !! p = Some hs -> In h hs -> exists b, mapOrphanBlocks ps !! h = Some b /\ hashPrevBlock b = p;
  orphan_once : forall p hs, mapOrphanBlocksByPrev ps !! p = Some hs -> List.NoDup hs;
  orphan_listed : forall h b, mapOrphanBlocks ps !! h = Some b -> exists hs, mapOrphanBlocksByPrev ps !! hashPrevBlock b = Some hs /\ In h hs
}.

(** While the orphans after [p] are accepted: those in [hs] are left. *)
Record orphans_after (p : list Z) (hs : list (list Z)) (ps : process_state) : Prop := {
  after_hash : forall h b, mapOrphanBlocks ps !! h = Some b -> block_hash b = h;
  after_left : forall h, In h hs -> exists b, mapOrphanBlocks ps !! h = Some b /\ hashPrevBlock b = p;
  after_once : List.NoDup hs;
  after_there : forall p' hs' h, p' <> p -> mapOrphanBlocksByPrev ps !! p' = Some hs' -> In h hs' ->
    exists b, mapOrphanBlocks ps !! h = Some b /\ hashPrevBlock b = p';
  after_others : forall p' hs', p' <> p -> mapOrphanBlocksByPrev ps !! p' = Some hs' -> List.NoDup hs';
  after_listed : forall h b, mapOrphanBlocks ps !! h = Some b ->
    if decide (hashPrevBlock b = p) then In h hs else exists hs', mapOrphanBlocksByPrev ps !! hashPrevBlock b = Some hs' /\ In h hs'
}.

Lemma orphans_begin ps p : orphan_blocks_ok ps -> orphans_after p (default [] (mapOrphanBlocksByPrev ps !! p)) ps.
Proof.
  intros [H1 H2 H3 H4]; split; auto.
  - destruct (mapOrphanBlocksByPrev ps !! p) as [hs|] eqn:E; cbn [default]; [intros h Hh; now apply (H2 p hs) | intros h []].
  - destruct (mapOrphanBlocksByPrev ps !! p) as [hs|] eqn:E; cbn [default]; [now apply (H3 p) | constructor].
  - intros p' hs' h _; apply H2.
  - intros p' hs' _; apply H3.
  - intros h b Eb; destruct (H4 h b Eb) as (hs & E & Hin); destruct (decide (hashPrevBlock b = p)) as [<-|]; [now rewrite E | now exists hs].
Qed.

Lemma orphans_end ps p : orphans_after p [] ps ->
  orphan_blocks_ok (with_orphans ps (mapOrphanBlocks ps) (delete p (mapOrphanBlocksByPrev ps)) (setStakeSeenOrphan ps)).
Proof.
  intros [H1 H2 H3 H4 H5 H6]; split; cbn [with_orphans mapOrphanBlocks mapOrphanBlocksByPrev]; auto.
  - intros p' hs h E; apply lookup_delete_Some in E as [Hne E]; now apply H4.
  - intros p' hs E; apply lookup_delete_Some in E as [Hne E]; now apply (H5 p').
  - intros h b Eb; specialize (H6 h b Eb); destruct (decide (hashPrevBlock b = p)) as [|Hne]; [destruct H6|]; destruct H6 as (hs & E & Hin).
    exists hs; split; [now rewrite lookup_delete_ne by congruence | exact Hin].
Qed.

(** Dropping the first of the orphans left. *)
Lemma orphans_drop p h hs ps b seen : orphans_after p (h :: hs) ps -> mapOrphanBlocks ps !! h = Some b ->
  orphans_after p hs (with_orphans ps (delete (block_hash b) (mapOrphanBlocks ps)) (mapOrphanBlocksByPrev ps) seen).
Proof.
  intros [H1 H2 H3 H4 H5 H6] Eb; pose proof (H1 h b Eb) as ->; destruct (H2 h (or_introl eq_refl)) as (b' & E' & Ep); assert (b' = b) as -> by congruence.
  apply NoDup_cons_iff in H3 as [Hh H3].
  split; cbn [with_orphans mapOrphanBlocks mapOrphanBlocksByPrev]; auto.
  - intros k x E; apply lookup_delete_Some in E as [_ E]; now apply H1.
  - intros k Hk; destruct (H2 k (or_intror Hk)) as (x & E & Ex); exists x; split; [rewrite lookup_delete_ne; [exact E | intros ->; contradiction] | exact Ex].
  - intros p' hs' k Hne E Hk; destruct (H4 p' hs' k Hne E Hk) as (x & Ex & Exp); exists x; split; [|exact Exp].
    rewrite lookup_delete_ne; [exact Ex|]; intros ->; congruence.
  - intros k x E; apply lookup_delete_Some in E as [Hne E]; specialize (H6 k x E); destruct (decide (hashPrevBlock x = p)); [|exact H6].
    destruct H6 as [->|H6]; [contradiction | exact H6].
Qed.

Lemma orphans_after_same p hs ps ps' : same_orphans ps ps' -> orphans_after p hs ps -> orphans_after p hs ps'.
Proof. intros [E1 E2] [H1 H2 H3 H4 H5 H6]; split; rewrite ?E1, ?E2; auto. Qed.

Abbreviation take_orphans := (accept_orphans ReadTxIn append CheckpointsMode fEnforceCanonical rate_limited).

Definition taken (r : outcome unit) : bool := match r with Done _ => true | _ => false end.
Definition drop_orphan (ps : process_state) (o : CBlock) : process_state :=
  with_orphans ps (delete (block_hash o) (mapOrphanBlocks ps)) (mapOrphanBlocksByPrev ps) (setStakeSeenOrphan ps ∖ {[GetProofOfStake o]}).

(** The orphans that are tried one after the other, each by [AcceptBlock] in the
    state that the one before has left, and whether it was accepted; each is
    dropped then.  Between them a list of [mapOrphanBlocksByPrev] may be
    forgotten. *)
Inductive orphan_run : process_state -> list (list Z * bool) -> process_state -> Prop :=
  | run_end ps : orphan_run ps [] ps
  | run_try ps h o ps1 r tr ps' : mapOrphanBlocks ps !! h = Some o -> block_hash o = h -> accept_block ps o = (ps1, r) -> r <> Throws ->
      orphan_run (drop_orphan ps1 o) tr ps' -> orphan_run ps ((h, taken r) :: tr) ps'
  | run_forget ps p tr ps' : orphan_run (with_orphans ps (mapOrphanBlocks ps) (delete p (mapOrphanBlocksByPrev ps)) (setStakeSeenOrphan ps)) tr ps' ->
      orphan_run ps tr ps'.

Lemma orphan_run_app a t1 b t2 c : orphan_run a t1 b -> orphan_run b t2 c -> orphan_run a (t1 ++ t2) c.
Proof. induction 1 as [|ps h o ps1 r tr ps' E1 E2 E3 E4 _ IH|ps p tr ps' _ IH]; intros H2; [exact H2 | apply (run_try ps h o ps1); auto | apply (run_forget ps p); auto]. Qed.

(** The hashes that were accepted. *)
Definition accepted (tr : list (list Z * bool)) : list (list Z) := List.map fst (List.filter snd tr).

Lemma accepted_iff tr h : In h (accepted tr) <-> In (h, true) tr.
Proof.
  unfold accepted; rewrite in_map_iff; split; [intros ([k ok] & <- & Hin); apply filter_In in Hin as [Hin Ho]; cbn in *; now subst ok | intros Hin; exists (h, true); split; [reflexivity | now apply filter_In]].
Qed.

Lemma length_accepted tr : (length (accepted tr) <= length tr)%nat.
Proof. unfold accepted; rewrite length_map; apply List.filter_length_le. Qed.

Lemma accept_orphans_ok p hs : forall ps q, orphans_after p hs ps ->
  exists ps' r, take_orphans ps hs q = Some (ps', r) /\ (forall n, r <> Fails n)
    /\ forall q', r = Done q' -> orphans_after p [] ps' /\ mapOrphanBlocksByPrev ps' = mapOrphanBlocksByPrev ps
       /\ (forall h, In h hs -> mapOrphanBlocks ps' !! h = None) /\ (forall h, ~ In h hs -> mapOrphanBlocks ps' !! h = mapOrphanBlocks ps !! h)
       /\ exists tr, orphan_run ps tr ps' /\ List.map fst tr = hs /\ q' = q ++ accepted tr /\ (size (mapOrphanBlocks ps') + length tr <= size (mapOrphanBlocks ps))%nat.
Proof.
  induction hs as [|h hs IH]; intros ps q Ho; cbn [accept_orphans].
  { exists ps, (Done q); split; [reflexivity|]; split; [discriminate|]; intros q' [= <-]; split; [exact Ho|]; split; [reflexivity|].
    split; [intros h []|]; split; [reflexivity|]; exists []; cbn; rewrite app_nil_r; repeat split; [constructor | lia]. }
  destruct (after_left _ _ _ Ho h (or_introl eq_refl)) as (b & Eb & Ep); rewrite Eb.
  pose proof (AcceptBlock_orphans ps b) as Hsame; destruct (accept_block ps b) as [ps1 r1] eqn:Ea; cbn [fst] in Hsame.
  assert (Ht : r1 = Throws \/ r1 <> Throws) by (destruct r1; [right | right | left]; congruence).
  destruct Ht as [->|Ht]; [exists ps1, Throws; split; [reflexivity|]; split; discriminate|].
  pose proof (orphans_after_same p (h :: hs) ps ps1 Hsame Ho) as Ho1; destruct Hsame as [E1 E2]; pose proof Eb as Eb1; rewrite <- E1 in Eb1.
  pose proof (after_hash _ _ _ Ho1 h b Eb1) as Eh; pose proof (after_once _ _ _ Ho) as Hnd; apply NoDup_cons_iff in Hnd as [Hnh _].
  pose proof (orphans_drop p h hs ps1 b (setStakeSeenOrphan ps1 ∖ {[GetProofOfStake b]}) Ho1 Eb1) as Ho2; fold (drop_orphan ps1 b) in Ho2.
  assert (Hsz : S (size (delete (block_hash b) (mapOrphanBlocks ps1))) = size (mapOrphanBlocks ps)).
  { rewrite Eh, map_size_delete_Some by (now exists b); rewrite <- E1; assert (size (mapOrphanBlocks ps1) <> 0%nat) by (intros E0; apply map_size_empty_inv in E0; rewrite E0 in Eb1; discriminate Eb1); lia. }
  assert (Estep : exists q1, q1 = q ++ (if taken r1 then [block_hash b] else []) /\ match r1 with Throws => Some (ps1, Throws)
    | _ => take_orphans (drop_orphan ps1 b) hs (match r1 with Done _ => q ++ [block_hash b] | _ => q end) end = take_orphans (drop_orphan ps1 b) hs q1).
  { destruct r1 as [[]|n|]; [eexists; split; reflexivity | eexists; split; [cbn; now rewrite app_nil_r | reflexivity] | contradiction]. }
  destruct Estep as (q1 & Eq1 & Estep); fold (drop_orphan ps1 b); rewrite Estep; destruct (IH (drop_orphan ps1 b) q1 Ho2) as (ps' & r & E & Hnf & Hd).
  exists ps', r; split; [exact E|]; split; [exact Hnf|]; intros q' Eq; destruct (Hd q' Eq) as (Hend & Hbp & Hin & Hout & tr & Hrun & Efst & Eqn & Hs).
  cbn [drop_orphan with_orphans mapOrphanBlocks mapOrphanBlocksByPrev] in *; split; [exact Hend|]; split; [congruence|].
  assert (Hh : mapOrphanBlocks ps' !! h = None) by (rewrite Hout by assumption; rewrite Eh; apply lookup_delete_eq).
  split; [intros k [<-|Hk]; [exact Hh | now apply Hin]|].
  split; [intros k Hk; rewrite Hout by (intros Hi; apply Hk; now right); rewrite Eh, lookup_delete_ne, E1 by (intros ->; apply Hk; now left); reflexivity|].
  exists ((h, taken r1) :: tr); split; [now apply (run_try ps h b ps1)|]; split; [cbn; now rewrite Efst|]; split; [|cbn [length]; lia].
  rewrite Eqn, Eq1, <- app_assoc; f_equal; unfold accepted; cbn [List.filter snd]; destruct (taken r1); [cbn; now rewrite Eh | reflexivity].
Qed.

Abbreviation run_queue := (work_queue ReadTxIn append CheckpointsMode fEnforceCanonical rate_limited).

(** The queue ends; the orphans tried are those after the blocks that were in it. *)
Lemma work_queue_ok fuel : forall ps q, orphan_blocks_ok ps -> (size (mapOrphanBlocks ps) + length q <= fuel)%nat ->
  exists ps' r, run_queue fuel ps q = Some (ps', r) /\ (forall n, r <> Fails n)
    /\ (r = Done tt -> orphan_blocks_ok ps' /\ exists tr, orphan_run ps tr ps' /\ List.NoDup (List.map fst tr)
       /\ (forall h, In h (List.map fst tr) -> mapOrphanBlocks ps' !! h = None) /\ (forall h, ~ In h (List.map fst tr) -> mapOrphanBlocks ps' !! h = mapOrphanBlocks ps !! h)
       /\ (forall h, In h (List.map fst tr) <-> exists o, mapOrphanBlocks ps !! h = Some o /\ (In (hashPrevBlock o) q \/ In (hashPrevBlock o, true) tr))).
Proof.
  induction fuel as [|fuel IH]; intros ps q Ho Hf; destruct q as [|p q]; cbn [work_queue length] in *; try lia.
  1,2: exists ps, (Done tt); split; [reflexivity|]; split; [discriminate|]; intros _; split; [exact Ho|]; exists []; split; [constructor|]; split; [constructor|];
    split; [intros h []|]; split; [reflexivity|]; intros h; split; [intros [] | intros (o & _ & [[]|[]])].
  destruct (accept_orphans_ok p _ ps q (orphans_begin ps p Ho)) as (ps1 & r1 & -> & Hnf & Hd).
  destruct r1 as [q'|n|]; [|now destruct (Hnf n)|exists ps1, Throws; split; [reflexivity|]; split; discriminate].
  destruct (Hd q' eq_refl) as (Hend & Hbp & Hin & Hout & tr1 & Hrun1 & Efst & -> & Hsz); apply orphans_end in Hend; pose proof (length_accepted tr1).
  match goal with |- context [run_queue fuel ?x ?y] => destruct (IH x y Hend) as (ps' & r & E & Hnf' & Hdone) end.
  { cbn [with_orphans mapOrphanBlocks]; rewrite length_app; lia. }
  exists ps', r; split; [exact E|]; split; [exact Hnf'|]; intros Er; destruct (Hdone Er) as (Ho' & tr2 & Hrun2 & Hnd & Hin2 & Hout2 & Hiff); split; [exact Ho'|].
  cbn [with_orphans mapOrphanBlocks mapOrphanBlocksByPrev] in *; set (hs := default [] (mapOrphanBlocksByPrev ps !! p)) in *.
  assert (Hlist : forall h, In h hs <-> exists o, mapOrphanBlocks ps !! h = Some o /\ hashPrevBlock o = p).
  { intros h; unfold hs; split.
    - destruct (mapOrphanBlocksByPrev ps !! p) as [l|] eqn:Ep; [apply (orphan_there _ Ho p l h Ep) | intros []].
    - intros (o & Eo & <-); destruct (orphan_listed _ Ho h o Eo) as (l & -> & Hi); exact Hi. }
  assert (Hdis : forall h, In h (List.map fst tr2) -> ~ In h hs) by (intros h H2 H1; apply Hiff in H2 as (o & Eo & _); now rewrite Hin in Eo).
  exists (tr1 ++ tr2); rewrite map_app, Efst; split; [exact (orphan_run_app _ _ _ _ _ Hrun1 (run_forget _ p _ _ Hrun2))|]; split.
  { apply List.NoDup_app; [|exact Hnd | intros h H1 H2; exact (Hdis h H2 H1)].
    unfold hs; destruct (mapOrphanBlocksByPrev ps !! p) as [l|] eqn:Ep; [exact (orphan_once _ Ho p l Ep) | constructor]. }
  split; [|split].
  - intros h Hh; destruct (in_dec (List.list_eq_dec Z.eq_dec) h (List.map fst tr2)) as [H2|H2]; [now apply Hin2|]; rewrite Hout2 by assumption; apply in_app_or in Hh as [Hh|Hh]; [now apply Hin | contradiction].
  - intros h Hh; rewrite in_app_iff in Hh; rewrite Hout2, Hout by tauto; reflexivity.
  - intros h; rewrite in_app_iff, Hiff, Hlist; split.
    + intros [(o & Eo & <-)|(o & Eo & Hq)]; exists o; [split; [exact Eo | left; now left]|].
      assert (Hh : ~ In h hs) by (intros Hi; now rewrite Hin in Eo); rewrite Hout in Eo by assumption; split; [exact Eo|]; rewrite !in_app_iff, accepted_iff in *; cbn [In]; tauto.
    + intros (o & Eo & Hq); destruct (list_eq_dec (hashPrevBlock o) p) as [Ep|Hne]; [left; now exists o|]; right; exists o.
      rewrite Hout by (rewrite Hlist; intros (o' & Eo' & Ep'); congruence); split; [exact Eo|]; rewrite !in_app_iff, accepted_iff in *; cbn [In] in Hq; intuition congruence.
Qed.

Lemma orphans_same ps ps' : same_orphans ps ps' -> orphan_blocks_ok ps -> orphan_blocks_ok ps'.
Proof. intros [E1 E2] [H1 H2 H3 H4]; split; rewrite ?E1, ?E2; auto. Qed.

Lemma orphan_added_ok ps b seen : orphan_blocks_ok ps -> mapOrphanBlocks ps !! block_hash b = None -> orphan_blocks_ok (add_orphan ps b seen).
Proof.
  intros [H1 H2 H3 H4] Hn; set (p := hashPrevBlock b); set (old := default [] (mapOrphanBlocksByPrev ps !! p)).
  assert (Hold : forall h, In h old -> exists x, mapOrphanBlocks ps !! h = Some x /\ hashPrevBlock x = p)
    by (unfold old; intros h Hh; destruct (mapOrphanBlocksByPrev ps !! p) as [hs|] eqn:E; [now apply (H2 p hs) | destruct Hh]).
  assert (Hnew : ~ In (block_hash b) old) by (intros Hi; destruct (Hold _ Hi) as (x & Ex & _); congruence).
  split; cbn [add_orphan with_orphans mapOrphanBlocks mapOrphanBlocksByPrev]; fold p old.
  - intros h x; destruct (decide (block_hash b = h)) as [<-|Hne]; [rewrite lookup_insert_eq; now intros [= ->] | rewrite lookup_insert_ne by assumption; apply H1].
  - intros p' hs h E Hh; destruct (decide (p = p')) as [<-|Hne].
    + rewrite lookup_insert_eq in E; injection E as <-; apply in_app_or in Hh as [Hh|[<-|[]]]; [|exists b; now rewrite lookup_insert_eq].
      destruct (Hold h Hh) as (x & Ex & Exp); exists x; rewrite lookup_insert_ne by congruence; now split.
    + rewrite lookup_insert_ne in E by assumption; destruct (H2 p' hs h E Hh) as (x & Ex & Exp); exists x; rewrite lookup_insert_ne by congruence; now split.
  - intros p' hs E; destruct (decide (p = p')) as [<-|Hne]; [|rewrite lookup_insert_ne in E by assumption; now apply (H3 p')].
    rewrite lookup_insert_eq in E; injection E as <-; apply List.NoDup_app; [| repeat constructor; intros [] | intros x Hx [<-|[]]; contradiction].
    unfold old; destruct (mapOrphanBlocksByPrev ps !! p) as [hs|] eqn:E; [now apply (H3 p) | constructor].
  - intros h x; destruct (decide (block_hash b = h)) as [<-|Hne].
    + rewrite lookup_insert_eq; intros [= <-]; exists (old ++ [block_hash b]); fold p; rewrite lookup_insert_eq; split; [reflexivity | apply in_or_app; right; now left].
    + rewrite lookup_insert_ne by assumption; intros Ex; destruct (H4 h x Ex) as (hs & Ehs & Hin); destruct (decide (p = hashPrevBlock x)) as [E|Hnp].
      * rewrite <- E, lookup_insert_eq; eexists; split; [reflexivity|]; apply in_or_app; left; unfold old; rewrite E, Ehs; exact Hin.
      * rewrite lookup_insert_ne by assumption; now exists hs.
Qed.

Ltac rejected := eexists _, (Fails _); split; [reflexivity|]; split; [auto|]; split; [now split|]; split; discriminate.

(** C10: Orphan blocks.  [ProcessBlock] always returns: it follows no pointer to a
    deleted orphan, and its work queue ends, whatever the blocks.  The maps of the
    orphans by hash and by predecessor stay consistent.  A block
    without indexed predecessor becomes an orphan; a block that is
    rejected changes no orphan.  After a block is accepted, orphans are tried,
    each once, by [AcceptBlock] in the state that the one before has left, and
    dropped: an orphan is tried exactly if its predecessor is the block or an
    orphan that was tried and accepted in this run; all others stay. *)
Theorem orphans_processed (ps : process_state) (b : CBlock) (fIsBootstrap : bool) :
  orphan_blocks_ok ps ->
  exists ps' r, ProcessBlock ReadTxIn append CheckpointsMode fEnforceCanonical rate_limited ps b fIsBootstrap = Some (ps', r)
    /\ (r <> Throws -> orphan_blocks_ok ps')
    /\ (forall n, r = Fails n -> same_orphans ps ps')
    /\ (r = Done tt -> ps_index ps !! hashPrevBlock b = None -> mapOrphanBlocks ps' = <[block_hash b := b]> (mapOrphanBlocks ps))
    /\ (r = Done tt -> is_Some (ps_index ps !! hashPrevBlock b) -> exists ps1 tr, accept_block ps b = (ps1, Done tt)
       /\ orphan_run ps1 tr ps' /\ List.NoDup (List.map fst tr)
       /\ (forall h, In h (List.map fst tr) <-> exists o, mapOrphanBlocks ps !! h = Some o /\ (hashPrevBlock o = block_hash b \/ In (hashPrevBlock o, true) tr))
       /\ (forall h, In h (List.map fst tr) -> mapOrphanBlocks ps' !! h = None)
       /\ (forall h, ~ In h (List.map fst tr) -> mapOrphanBlocks ps' !! h = mapOrphanBlocks ps !! h)).
Proof.
  intros Ho; unfold ProcessBlock.
  destruct (bool_decide (is_Some (ps_index ps !! block_hash b))); [rejected|]; destruct (bool_decide (is_Some (mapOrphanBlocks ps !! block_hash b))) eqn:Eo; [rejected|].
  apply bool_decide_eq_false in Eo; apply eq_None_not_Some in Eo; destruct (_ && negb fIsBootstrap); [rejected|]; destruct (CheckBlock _ _ _ _ _ _) as [r|]; [rejected|].
  destruct (too_little_work ps b) as [[]|n|]; [rejected | | rejected | exists ps, Throws; split; [reflexivity|]; repeat split; try discriminate; contradiction].
  destruct (bool_decide (is_Some (ps_index ps !! hashPrevBlock b))) eqn:Ep; cbn [negb]; [apply bool_decide_eq_true in Ep | apply bool_decide_eq_false in Ep].
  2:{ destruct (_ && _); [rejected|]; eexists _, (Done tt); split; [reflexivity|]; split; [intros _; now apply orphan_added_ok|]; split; [discriminate|].
      split; [reflexivity | intros _ Hs; contradiction]. }
  pose proof (AcceptBlock_orphans ps b) as Hsame; destruct (accept_block ps b) as [ps1 r1] eqn:Ea; cbn [fst] in Hsame; pose proof (orphans_same _ _ Hsame Ho) as Ho1.
  destruct r1 as [[]|n|]; [|exists ps1, (Fails n) | exists ps1, Throws]; [|split; [reflexivity|]; (split; [auto; contradiction|]); split; [auto; discriminate|]; split; discriminate..].
  destruct (work_queue_ok _ ps1 [block_hash b] Ho1 ltac:(cbn [length]; rewrite Nat.add_1_r; reflexivity)) as (ps' & r & -> & Hnf & Hd); exists ps', r; split; [reflexivity|].
  destruct r as [[]|n|]; [|now destruct (Hnf n)|repeat split; try discriminate; contradiction].
  destruct (Hd eq_refl) as (Ho' & tr & Hrun & Hnd & Hin & Hout & Hiff); split; [auto|]; split; [discriminate|]; split; [intros _ E; rewrite E in Ep; destruct Ep; discriminate|].
  intros _ _; exists ps1, tr; destruct Hsame as [E1 _]; rewrite E1 in Hiff, Hout; do 3 (split; [easy|]); split; [|now split].
  intros h; rewrite Hiff; cbn [In]; split; intros (o & E & Hq); exists o; intuition congruence.
Qed.
End Orphans.

(** ** A new entry of the index *)







(** ** AcceptBlock *)

Section Accept.
Context {H : hash_lib} {L : BN_lib} {HL : BN_laws L} {EC : ec_lib} {N : node_env}.
Context (ReadTxIn : (Z -> Z -> option CBlock) -> CDiskTxPos -> option CTransaction) (append : block_files -> CBlock -> option (Z * Z))
  (CheckpointsMode : CPMode) (fEnforceCanonical : bool) (rate_limited : CTransaction -> Z -> bool).
Context (Hwf : forall b, wf 8 (block_hash b)).


































(** A place of the block files is used once, and no file has the number -1. *)
Context (Happend : forall f b place, append f b = Some place -> f !! place = None /\ fst place <> 0xFFFFFFFF).





End Accept.

(** ** The first block *)

(** The state after the start: only the genesis block, which is the checkpoint. *)
#[local] Existing Instance branch_node.
Definition genesis_entry : CBlockIndex :=
  BlockIndex (key 9) 1 9 (key 1) 0 0 0 BLOCK_STAKE_MODIFIER 0 0 COutPoint_null 0 null_hash 6 null_hash 1432620600 0x1f00ffff 9.
Definition genesis_node : node_state :=
  Node (list_to_map [(key 9, IndexNode genesis_entry None None)]) (TxDB ∅ ∅ (key 9) None) (Some (key 9)) (key 9) 0 (key 1) null_hash (Some (key 9)) empty_pool [].
Definition genesis_state (o : gmap (list Z) CBlock) (p : gmap (list Z) (list (list Z))) : process_state :=
  Process genesis_node ∅ (Sync (key 9) null_hash null_hash CSyncCheckpoint_null CSyncCheckpoint_null (Some (key 9))) o p ∅ ∅.
Definition one_place (f : block_files) (b : CBlock) : option (Z * Z) := match f !! (1, 1) with None => Some (1, 1) | Some _ => None end.
Definition new_block : CBlock :=
  let vtx := [branch_coinbase 1 1 COIN] in
  Block 6 (key 9) (block_MerkleRoot (H := toy_hash) (Block 6 null_hash null_hash 0 0 0 vtx [])) 1432620610 0x1f00ffff 1 vtx [].

(** An orphan that waits for it. *)
Definition lost_block : CBlock := Block 6 (key 1) (hashMerkleRoot new_block) 1432620620 0x1f00ffff 2 (bl_vtx new_block) [].
Definition lost_state : process_state := genesis_state {[key 2 := lost_block]} {[key 1 := [key 2]]}.







(** Its orphan is tried next, and leaves the maps. *)
Lemma orphans_processed_witness : exists ps' r, ProcessBlock (H := toy_hash) (L := BN_ideal) (EC := toy_ec) (fun _ _ => None) one_place STRICT true (fun _ _ => true) lost_state new_block false
  = Some (ps', r) /\ orphan_blocks_ok (H := toy_hash) ps' /\ mapOrphanBlocks ps' = ∅.
Proof.
  destruct (orphans_processed (H := toy_hash) (L := BN_ideal) (EC := toy_ec) (fun _ _ => None) one_place STRICT true (fun _ _ => true) lost_state new_block false) as (ps' & r & E & Ho & _ & _).
  - split; cbn [lost_state genesis_state mapOrphanBlocks mapOrphanBlocksByPrev].
    + intros h b Eb; apply lookup_singleton_Some in Eb as [<- <-]; vm_compute; reflexivity.
    + intros p hs h Ep Hin; apply lookup_singleton_Some in Ep as [<- <-]; destruct Hin as [<-|[]]; exists lost_block; split; [apply lookup_singleton_eq | reflexivity].
    + intros p hs Ep; apply lookup_singleton_Some in Ep as [<- <-]; repeat constructor; intros [].
    + intros h b Eb; apply lookup_singleton_Some in Eb as [<- <-]; exists [key 2]; split; [apply lookup_singleton_eq | now left].
  - exists ps', r; split; [exact E|].
    assert (Er : option_map snd (Some (ps', r)) = Some (Done tt)) by (rewrite <- E; vm_compute; reflexivity).
    assert (Em : option_map (fun x => map_to_list (mapOrphanBlocks (fst x))) (Some (ps', r)) = Some []) by (rewrite <- E; vm_compute; reflexivity).
    split; [apply Ho; intros ->; discriminate Er | apply map_to_list_empty_iff; now injection Em].
Defined.
